(* ===== verification/_CoqProject ===== *)
-Q . S2P
Prelude.v
Error.v
BumpAlloc.v
CString.v
LruCache.v
SortedVec.v
MmioTag.v
BitAlloc.v
Bitmap.v
Slab.v
Config.v
Addr.v
MmioAlloc.v
Perm.v
Paging.v
Frame.v
Phys.v
KMem.v
UserSpace.v
AddrSpace.v
IdentityMap.v
Mappings.v
Enumerate.v
VmemSpec.v
Cow.v
NewVmem.v
VirtManager.v
PageAlloc.v
UserMap.v
Fork.v
Spaces.v
MemorySafety.v
UserCopy.v
Elf.v
ElfSpec.v
MemoryGaps.v
NonEmpty.v
Mailbox.v
VirtMem.v
Thread.v
Str.v
Process.v
Event.v
ProcessView.v
Pending.v
ProcManager.v
ManagerInv.v
Scheduler.v
ManagerOps.v
ManagerState.v
ManagerReap.v
EntryPoints.v
EventManager.v
Footprint.v
EntrySpec.v
Mail.v
System.v
EventSpec.v
EventWait.v
Sample.v
Fairness.v
Alarm.v
Guarantees.v
Rendezvous.v
EventClaims.v
Mutex.v
MutexInv.v
MutexView.v
MutexSpec.v
MutexCalls.v
MutexClaims.v
Time.v
FatStorage.v
MountTable.v
FatFs.v
VfsState.v
VfsFd.v
VfsSpec.v
VfsInv.v
VfsClaims.v
