(* ===== verification/Prelude.v ===== *)
(** * Nanvix microkernel: a verification library

    Nanvix is a microkernel for single-core virtual machines, written in Rust, with
    the servers, libraries and host tools around it.  This development models the
    part of the kernel that decides what runs and who owns which memory, and the file
    system that programs are linked with, translated from the sources under
    [src/src/kernel/src] and [src/src/libs], and proves what these parts promise.

    ** The program and its model

    Memory, from the bottom up.  [libs/raw-array] and [libs/bitmap] give a bitmap
    ([Bitmap.v]); [libs/slab] carves blocks out of a region with such a bitmap
    ([Slab.v]).  Both the slab and the frame allocator are proved against the
    interface [BitAlloc] ([BitAlloc.v]), which the bitmap implements.  Addresses,
    alignment and memory regions ([Addr.v]) come from [libs/sys/src/sys/mm],
    [libs/arch] and [kernel/src/hal/mem].  [kernel/src/mm/phys/frame.rs] counts the
    owners of every physical frame ([Frame.v]); [manager.rs], [upool.rs] and
    [kframe.rs] hand frames out to user and kernel ([Phys.v]).

    Address spaces.  Page tables and directories are arrays of encoded entries
    ([Paging.v], [libs/arch/src/x86/mem/paging], [kernel/src/hal/arch/shared/mem/mmu]).
    The kernel reaches memory through an identity map whose tables come from a bump
    allocator ([BumpAlloc.v], [libs/bump_allocator]; [IdentityMap.v] and [KMem.v],
    [kernel/src/mm/virt/identity_map.rs]).  An address space is a directory with tables
    of user pages ([AddrSpace.v], [UserSpace.v], [vmem.rs]); the virtual memory manager
    creates, fills and shares them ([NewVmem.v], [VirtManager.v], [manager.rs]), the
    process manager maps memory for processes ([UserMap.v]) and handles their page
    faults ([Spaces.v], which puts the address spaces of all processes together).
    Copies between kernel and user memory are in [UserCopy.v], and the loader of programs
    in [Elf.v] ([kernel/src/mm/elf.rs], [libs/elf]).

    Devices and libraries.  [libs/sorted-vec] is a vector kept sorted, with binary search
    ([SortedVec.v]); the allocator of device memory keeps its regions in two of them, by
    tag ([MmioTag.v], [libs/mmio-tag]; [MmioAlloc.v], [kernel/src/hal/io/mmio]).
    [CString.v] models the memory functions of the C library ([libs/libc_string]) and
    [LruCache.v] the bounded cache of the file system ([libs/cache]).

    Processes.  [libs/type-safe] gives non-empty queues ([NonEmpty.v]).  A thread is
    in one of five structures ([Thread.v], [kernel/src/pm/thread]), a process in one
    of five structures with queues of threads ([Process.v],
    [kernel/src/pm/process/state]).  The process manager keeps all processes in four
    lists and one running process ([ProcManager.v],
    [kernel/src/pm/process/manager/mod.rs]).  Messages wait in the mailbox of a
    process ([Mailbox.v], [kernel/src/ipc/mbx]); threads that wait in a rendezvous
    are in two global lists ([Pending.v]), from which pushes and pulls take each other
    ([Rendezvous.v], [kernel/src/ipc/rendezvous.rs]).  The operations the rest of the
    kernel calls, and condition variables, are in [EntryPoints.v] ([manager/unsafe.rs],
    [kernel/src/pm/sync/condvar.rs]).  Mutexes with their guards, and the kernel calls that
    lock, unlock, wait and signal, are in [Mutex.v] ([kernel/src/pm/sync/mutex.rs],
    [kernel/src/pm/kcall]).

    Events.  Interrupts, exceptions and the ends of processes are numbered, described and
    sent in messages ([Event.v], [libs/sys/src/sys/event]).  The event manager keeps their
    owners, queues those that are pending and lets threads wait for them and for messages
    ([EventManager.v], [kernel/src/event] and [kernel/src/ipc/send.rs]).

    Files.  [libs/fat32] wraps the crate [fatfs] for images in memory ([FatStorage.v] for
    errors and the storage, [FatFs.v] for file systems and open files).  [libs/vfs] mounts
    such file systems: [MountTable.v] ([mount.rs]) finds the mount of a path, [VfsState.v]
    ([state.rs], [file.rs]) keeps the mounts, the memory of their images and the counts of
    open files, and [VfsFd.v] ([fd.rs], [fat32_backend.rs]) gives descriptors to open files,
    directories and files of the host.  The state is what the code keeps in global
    variables, with the file systems by the address of their images ([images]) and the
    memory that is allocated ([regions]); an access to freed memory is a panic.
    [Time.v] models the times and durations of [libs/sys/src/sys/time].

    ** How code becomes definitions

    - Machine integers are [Z] with their bounds written out.  The kernel is built
      for i686, so [usize] has 32 bits ([usize_max]).  Plain arithmetic that leaves
      the range is a panic, as in the checked builds of the kernel.
    - A fallible function returns [res E A]: a value, an error or a panic.  Failing
      [unwrap], [expect], indexing and assertions are panics.  So is running out of
      fuel: a theorem that excludes panics includes termination.  Fuel is in the search
      of the bitmap (twice its number of bits plus four), the booking of device pages at
      boot, the batches of [mmap] (one per page), the chunks of [link_user_pages] (as
      many as user space can fill) and the page loops of copies (one per page touched).
      The loops of the C functions get one round more than there are bytes; [strlen],
      which need not end, takes its fuel as an argument.  The loops of the file system
      that write zeros and read whole files have one round for each byte.
    - Code that changes state is in the state and error monad [M]; [wp m s Q] says
      that running [m] from [s] ends in a result and a state that satisfy [Q].
    - The names of definitions are those of the source.  A [Module] stands for the
      [impl] block of a type.
    - A function that reads the clock takes the time as an argument; the kernel state
      counts the readings ([Clock]).
    - A call that blocks is split at the context switch.
    - Components that interact do so through type classes: [BitAlloc] for allocators
      of bits, [IdentityMap], [KernelDirectory] and [PreMapped] for the tables of the
      kernel (implemented in [IdentityMap.v]), [VirtMem] for what the process manager
      needs of address spaces, images and kernel stacks, [UserCopies] for the copies that
      a rendezvous makes.  The crate [fatfs], whose code is not in the repository, is the
      class [FatFs], and [FatFsLaws] has what its documentation says of open files; a small
      file system in memory satisfies both ([VfsClaims.v]).  The build configuration is an argument too ([Config.v],
      [IpcConfig]).

    ** What is proved

    - Allocators: the bitmap refines a finite set under all sequences of calls; the
      slab and the frame allocator never hand out what is in use, fail only when
      nothing is free, and refuse what was not handed out; reference counts of frames
      are the numbers of their owners; bulk allocations are all or nothing and respect
      the reserve of the kernel.
    - Bump allocation: the compare-and-swap loops of any number of threads hand out
      disjoint slots, and are lock-free ([BumpAlloc.v]).
    - Page tables: [Paging.v] gives every operation on entries a specification;
      [Mappings.v], [Enumerate.v], [VmemSpec.v] and [Cow.v] lift them to the partial
      function from pages to entries that an address space is; [PageAlloc.v],
      [UserMap.v] and [Fork.v] do the same for allocation, [mmap] and duplication.
    - Memory of processes ([MemorySafety.v]): every process sees the memory it would
      have if duplication copied pages at once, and what a process can write nobody else
      can reach.  [UserCopy.v] shows that the kernel respects this when it copies, and
      [MemoryGaps.v] shows where the code lets these promises down.
    - Programs ([ElfSpec.v]): whatever an image contains, loading it does not panic and
      changes only the new address space; a loaded program finds its segments.
    - Devices and libraries: the MMIO allocator refines a table of regions, and device
      names survive the kernel call; the sorted vector is equivalent to an unordered
      list, the cache to a list in the order of use, and the C functions to copies of
      bytes.
    - Threads ([ProcessView.v]): every operation on a process moves its threads along
      one state machine ([tstep]) and neither loses nor invents a thread.
    - The manager: [ManagerInv.v] defines its invariant [inv] on the table of all
      threads.  [Scheduler.v], [ManagerOps.v], [ManagerState.v], [ManagerReap.v] and
      [EntrySpec.v] show for each operation what it does to the table, on success and
      on every error, and that it does not panic.
    - The system ([System.v]): the invariant holds in every state reachable from
      initialisation by the calls of the kernel, in any order.
    - Scheduling: a ready thread runs after a bounded number of scheduling decisions
      ([Fairness.v]); alarms interrupt exactly the threads whose time is over
      ([Alarm.v]).
    - [Guarantees.v] states the theorems of the process manager for its callers, and
      applies each of them to a run of a small system ([Sample.v]).
    - Rendezvous: a push and a pull that meet copy the bytes and wake each other up, and
      leave everything else alone ([Rendezvous.v]).
    - Events: a system of threads that wait, producers and requests for events, with an
      invariant that says that nobody sleeps while something is pending for it
      ([EventSpec.v] for producers, [EventWait.v] for waiting; [Mail.v] and [Footprint.v]
      say what scheduling leaves alone).  [EventClaims.v] concludes that no wakeup is lost
      and that events are owned exclusively and under capabilities.
    - Mutexes: an invariant ties the flag of every mutex, its reference count and its queue
      to the guards and the blocked calls of all threads ([MutexInv.v], [MutexView.v]); the
      operations keep it ([MutexSpec.v], [MutexCalls.v]).  [MutexClaims.v] concludes mutual
      exclusion, the absence of panics and what each call does to the holders.  What the rest
      of the kernel may do between two calls is the relation [elsewhere]; a thread that ends
      while it holds a guard is outside it.
    - Files: the mount table stays well-formed, paths are normalised, and they resolve to
      the mount with the longest prefix ([MountTable.v]).  Descriptors refine files of POSIX
      under every sequence of calls ([VfsSpec.v]).  An invariant ties the counts of open
      files to the table of descriptors and to the mounts; every call keeps it
      ([VfsInv.v]).  [VfsClaims.v] concludes that open files never outlive their file
      system, and gives the outcome of [unmount] in every case.
    - Times: differences are exact but for one case that overflows ([Time.v]).
    - Some theorems show behaviour that the source does not intend: an exiting process
      for which a thread waits in a rendezvous makes the kernel panic
      ([exit_panics]), so does a process that resumes an exception nobody owns
      ([resume_spec]), no interrupt is ever delivered ([interrupts_never_arrive]),
      unlocking a mutex can wake up nobody while threads wait for it
      ([unlock_wakes_nobody]), unmounting frees memory that files read directly
      ([direct_read_dangles]) or that the file system still has to write ([unmount_spec]),
      the difference of two times within a second can overflow ([checked_sub_spec]), a push
      whose copy failed succeeds ([failed_push_succeeds]), messages of a buried process stay counted
      ([harvest_leaks_messages]), the last frame has no number
      ([into_frame_number_spec]), truncating a region can cut its tail
      ([from_memory_region_spec]), a segment that is not aligned is loaded at the wrong
      address ([elf_unaligned_misplaced]), and the examples of [MemoryGaps.v].

    ** Not modelled

    The saved registers of threads, the translation cache and everything that talks to
    devices or to the host are not modelled: these are assembly, hardware and input and
    output.  The same holds for the servers, the POSIX libraries, the virtual machine
    monitor and the tools of the host, which do not run in the kernel.  Calls of the file
    system library run one after another: its locks, and the races that its comments
    mention, are not represented.  Neither is the place of a mount in its vector, to which
    open files point; only the memory of its image is. *)

From stdpp Require Export base tactics option list sets gmap numbers strings.
From Stdlib Require Export ZArith Lia.
#[local] Open Scope Z_scope.

(** ** Outcomes of kernel code

    [res E A] is what a Rust function returning [Result<A, E>] can do: return
    [Ok], return [Err], or panic.  Arithmetic that would overflow, indexing out
    of range and [unwrap]s that fail are panics; a definition whose loop runs
    out of fuel panics too, so "does not panic" always includes termination. *)
Inductive res (E A : Type) : Type :=
| Ok (a : A)
| Err (e : E)
| Panic.
Arguments Ok {E A} a.
Arguments Err {E A} e.
Arguments Panic {E A}.

#[export] Instance res_ret {E} : MRet (res E) := fun _ a => Ok a.
#[export] Instance res_bind {E} : MBind (res E) := fun _ _ k m =>
  match m with Ok a => k a | Err e => Err e | Panic => Panic end.
#[export] Instance res_fmap {E} : FMap (res E) := fun _ _ f m =>
  match m with Ok a => Ok (f a) | Err e => Err e | Panic => Panic end.

(** [map_err] of Rust's [Result]. *)
Definition map_err {E F A} (f : E → F) (m : res E A) : res F A :=
  match m with Ok a => Ok a | Err e => Err (f e) | Panic => Panic end.

Definition is_ok {E A} (m : res E A) : bool :=
  match m with Ok _ => true | _ => false end.

(** ** Machine integers

    The kernel is built for [i686]: [usize] has 32 bits. *)
Definition usize_bits : Z := 32.
Definition usize_max : Z := 2 ^ 32 - 1.
Definition u32_max : Z := 2 ^ 32 - 1.
Definition i32_max : Z := 2 ^ 31 - 1.
Definition isize_max : Z := 2 ^ 31 - 1.
Definition u8_max : Z := 255.

(** Plain [+], [-] and [*] on [usize] panic when the result is out of range. *)
Definition usize_add {E} (a b : Z) : res E Z :=
  if a + b <=? usize_max then Ok (a + b) else Panic.
Definition usize_sub {E} (a b : Z) : res E Z :=
  if b <=? a then Ok (a - b) else Panic.
Definition usize_mul {E} (a b : Z) : res E Z :=
  if a * b <=? usize_max then Ok (a * b) else Panic.

(** [checked_add], [checked_sub] and [checked_mul] return [None] instead. *)
Definition checked_add (a b : Z) : option Z :=
  if a + b <=? usize_max then Some (a + b) else None.
Definition checked_sub (a b : Z) : option Z :=
  if b <=? a then Some (a - b) else None.
Definition checked_mul (a b : Z) : option Z :=
  if a * b <=? usize_max then Some (a * b) else None.

(** ** State passing

    [M S E A] is code that may change a state of type [S] and then returns or
    panics.  The state is returned in every case: Rust keeps the changes made
    through [&mut self] before an early [return Err(..)]. *)
Definition M (S E A : Type) : Type := S → res E A * S.

#[export] Instance M_ret {S E} : MRet (M S E) := fun _ a s => (Ok a, s).
#[export] Instance M_bind {S E} : MBind (M S E) := fun _ _ k m s =>
  match m s with
  | (Ok a, s') => k a s'
  | (Err e, s') => (Err e, s')
  | (Panic, s') => (Panic, s')
  end.

Definition get {S E} : M S E S := fun s => (Ok s, s).
Definition put {S E} (s : S) : M S E unit := fun _ => (Ok tt, s).
Definition modify {S E} (f : S → S) : M S E unit := fun s => (Ok tt, f s).
Definition fail {S E A} (e : E) : M S E A := fun s => (Err e, s).
Definition panic {S E A} : M S E A := fun s => (Panic, s).
Definition lift {S E A} (r : res E A) : M S E A := fun s => (r, s).

(** Run code on a component of a larger state. *)
Definition zoom {S T E A} (getf : S → T) (setf : T → S → S) (m : M T E A) : M S E A :=
  fun s => let '(r, t) := m (getf s) in (r, setf t s).

(** The error of [m], handled by [h]. *)
Definition catch {S E F A} (m : M S E A) (h : E → M S F A) : M S F A := fun s =>
  match m s with
  | (Ok a, s') => (Ok a, s')
  | (Err e, s') => h e s'
  | (Panic, s') => (Panic, s')
  end.

(** What [m] does from [s]: its outcome and final state satisfy [Q]. *)
Definition wp {S E A} (m : M S E A) (s : S) (Q : res E A → S → Prop) : Prop :=
  Q (m s).1 (m s).2.

Lemma wp_run {S E A} (m : M S E A) s Q r s' : wp m s Q -> m s = (r, s') -> Q r s'.
Proof. unfold wp. intros H Heq. by rewrite Heq in H. Qed.

Lemma wp_run' {S E A} (m : M S E A) s r s' : wp m s (fun r0 s0 => (r0, s0) = (r, s')) -> m s = (r, s').
Proof. unfold wp. by destruct (m s). Qed.

Lemma wp_ok {S E A} (m : M S E A) s a (Q : res E A → S → Prop) :
  wp m s Q -> (m s).1 = Ok a -> Q (Ok a) (m s).2.
Proof. unfold wp. by intros H <-. Qed.

Lemma wp_conj {S E A} (m : M S E A) s (P Q : res E A → S → Prop) :
  wp m s P -> wp m s Q -> wp m s (fun o s' => P o s' /\ Q o s').
Proof. by split. Qed.

Lemma wp_intro {S E A} (m : M S E A) s (Q : res E A → S → Prop) :
  (forall r s', m s = (r, s') -> Q r s') -> wp m s Q.
Proof. intros H. apply H. by destruct (m s). Qed.

Lemma wp_mono {S E A} (m : M S E A) s (P Q : res E A → S → Prop) :
  wp m s P -> (forall r s', P r s' -> Q r s') -> wp m s Q.
Proof. unfold wp. auto. Qed.

(** Code of which only the outcome matters. *)
Lemma wp_any {S E A} (m : M S E A) s (Q : res E A → S → Prop) :
  (forall r s', Q r s') -> wp m s Q.
Proof. intros H. apply H. Qed.

Lemma wp_bind {S E A A'} (m : M S E A) (k : A → M S E A') s (Q : res E A' → S → Prop) :
  wp m s (fun r s' => match r with
                      | Ok a => wp (k a) s' Q
                      | Err e => Q (Err e) s'
                      | Panic => Q Panic s'
                      end) -> wp (m ≫= k) s Q.
Proof. unfold wp, mbind, M_bind. by destruct (m s) as [[] ?]. Qed.

Lemma wp_bind_assoc {S E A A' A''} (m : M S E A) (f : A → M S E A') (g : A' → M S E A'') s (Q : res E A'' → S → Prop) :
  wp ((m ≫= f) ≫= g) s Q -> wp (m ≫= fun a => f a ≫= g) s Q.
Proof. unfold wp, mbind, M_bind. by destruct (m s) as [[] ?]. Qed.

Lemma wp_zoom {S T E A} (getf : S → T) setf (m : M T E A) s (Q : res E A → S → Prop) :
  wp m (getf s) (fun r t => Q r (setf t s)) -> wp (zoom getf setf m) s Q.
Proof. unfold wp, zoom. by destruct (m (getf s)). Qed.

Lemma wp_catch {S E F A} (m : M S E A) (h : E → M S F A) s (Q : res F A → S → Prop) :
  wp m s (fun r s' => match r with
                      | Ok a => Q (Ok a) s'
                      | Err e => wp (h e) s' Q
                      | Panic => Q Panic s'
                      end) -> wp (catch m h) s Q.
Proof. unfold wp, catch. by destruct (m s) as [[] ?]. Qed.

(** One step through straight-line code. *)
Ltac wstep :=
  lazymatch goal with
  | |- wp (_ ≫= _) _ _ => apply wp_bind
  | |- wp (zoom _ _ _) _ _ => apply wp_zoom
  | |- wp (catch _ _) _ _ => apply wp_catch
  | |- wp (get) ?s ?Q => change (Q (Ok s) s)
  | |- wp (put ?s) _ ?Q => change (Q (Ok tt) s)
  | |- wp (modify ?f) ?s ?Q => change (Q (Ok tt) (f s))
  | |- wp (fail ?e) ?s ?Q => change (Q (Err e) s)
  | |- wp (panic) ?s ?Q => change (Q Panic s)
  | |- wp (mret ?a) ?s ?Q => change (Q (Ok a) s)
  | |- wp (lift ?r) ?s ?Q => change (Q r s)
  end; cbv beta iota.

Ltac wsteps := repeat wstep.

(** ** Lemmas on machine arithmetic *)

Lemma usize_add_ok {E} a b : a + b <= usize_max -> usize_add (E:=E) a b = Ok (a + b).
Proof. unfold usize_add. intros. by rewrite (proj2 (Z.leb_le _ _)). Qed.

Lemma usize_sub_ok {E} a b : b <= a -> usize_sub (E:=E) a b = Ok (a - b).
Proof. unfold usize_sub. intros. by rewrite (proj2 (Z.leb_le _ _)). Qed.

Lemma usize_mul_ok {E} a b : a * b <= usize_max -> usize_mul (E:=E) a b = Ok (a * b).
Proof. unfold usize_mul. intros. by rewrite (proj2 (Z.leb_le _ _)). Qed.

(** Boolean comparisons of the source, turned into the propositions they decide. *)
Ltac zbool :=
  repeat match goal with
  | H : context [Z.ltb ?a ?b] |- _ => destruct (Z.ltb_spec a b)
  | H : context [Z.leb ?a ?b] |- _ => destruct (Z.leb_spec a b)
  | H : context [Z.eqb ?a ?b] |- _ => destruct (Z.eqb_spec a b)
  | |- context [Z.ltb ?a ?b] => destruct (Z.ltb_spec a b)
  | |- context [Z.leb ?a ?b] => destruct (Z.leb_spec a b)
  | |- context [Z.eqb ?a ?b] => destruct (Z.eqb_spec a b)
  end.

(** Split conjunctions only, leaving records alone. *)
Ltac splits := repeat match goal with |- _ /\ _ => split end.

(** Unfold the bounds of the machine types and finish with [lia]. *)
Ltac width := unfold usize_max, u32_max, i32_max, isize_max, u8_max in *; lia.

(** ** Bytes *)

(** Every fact about a byte and one of its bits that can be tested can be
    proved by testing it on all of them. *)
Lemma byte_bit_cases (P : Z → Z → bool) :
  forallb (fun x => forallb (P x) (seqZ 0 8)) (seqZ 0 256) = true ->
  forall x k, 0 <= x < 256 -> 0 <= k < 8 -> P x k = true.
Proof.
  intros H x k Hx Hk.
  assert (forallb (P x) (seqZ 0 8) = true) as H'.
  { apply (proj1 (forallb_forall _ _) H), list_elem_of_In, elem_of_seqZ. lia. }
  apply (proj1 (forallb_forall _ _) H'), list_elem_of_In, elem_of_seqZ. lia.
Qed.

(** [!x] on [u8]. *)
Definition u8_not (x : Z) : Z := Z.lxor x 255.

Lemma u8_test_bit x k :
  0 <= x < 256 -> 0 <= k < 8 -> negb (Z.land x (Z.shiftl 1 k) =? 0) = Z.testbit x k.
Proof.
  intros Hx Hk. apply eqb_prop. revert x k Hx Hk. apply byte_bit_cases.
  vm_compute. reflexivity.
Qed.

(** Setting and clearing a bit keep a byte a byte and change that bit only. *)
Definition u8_update_ok (f : Z → Z → Z) (v : bool) (x k : Z) : bool :=
  (0 <=? f x k) && (f x k <? 256) &&
  forallb (fun j => eqb (Z.testbit (f x k) j) (if j =? k then v else Z.testbit x j))
    (seqZ 0 8).

Lemma u8_update_spec f v x k :
  u8_update_ok f v x k = true ->
  0 <= f x k < 256 /\
  forall j, 0 <= j < 8 -> Z.testbit (f x k) j = if j =? k then v else Z.testbit x j.
Proof.
  unfold u8_update_ok. intros [[H1 H2]%andb_prop H3]%andb_prop. split; [lia|].
  intros j Hj. apply eqb_prop.
  apply (proj1 (forallb_forall _ _) H3), list_elem_of_In, elem_of_seqZ. lia.
Qed.

Lemma u8_set_bit x k : 0 <= x < 256 -> 0 <= k < 8 ->
  u8_update_ok (fun x k => Z.lor x (Z.shiftl 1 k)) true x k = true.
Proof. revert x k. apply byte_bit_cases. vm_compute. reflexivity. Qed.

Lemma u8_clear_bit x k : 0 <= x < 256 -> 0 <= k < 8 ->
  u8_update_ok (fun x k => Z.land x (u8_not (Z.shiftl 1 k))) false x k = true.
Proof. revert x k. apply byte_bit_cases. vm_compute. reflexivity. Qed.

Lemma u8_full x k : x = 255 -> 0 <= k < 8 -> Z.testbit x k = true.
Proof.
  intros -> Hk. change 255 with (Z.ones 8). apply Z.ones_spec_low. lia.
Qed.

(** ** Lists *)

Lemma filter_none {A} (P : A → Prop) `{!forall x, Decision (P x)} (l : list A) :
  Forall (fun x => ~ P x) l -> filter P l = [].
Proof. induction 1; [done|]. by rewrite filter_cons_False. Qed.

Lemma Forall2_perm_r {A B} (P : A → B → Prop) l k k' :
  Forall2 P l k -> k ≡ₚ k' -> exists l', l ≡ₚ l' /\ Forall2 P l' k'.
Proof.
  intros Hf Hk. apply Forall2_flip in Hf.
  destruct (Permutation_Forall2 Hk Hf) as (l' & Hl & Hf').
  exists l'. split; [done|]. by apply Forall2_flip.
Qed.

(** Whether a filter finds anything. *)
Lemma filter_cases {A} (P : A → Prop) `{!forall x, Decision (P x)} (l : list A) :
  match filter P l with
  | [] => Forall (fun x => ~ P x) l /\ filter (fun x => ~ P x) l = l
  | _ :: _ => Exists P l
  end.
Proof.
  induction l as [|x l IH]; [done|]. destruct (decide (P x)) as [Hx|Hx].
  - rewrite (filter_cons_True P) by done. by left.
  - rewrite (filter_cons_False P) by done. destruct (filter P l); [|by right].
    destruct IH as [Hf Heq]. split; [by constructor|].
    by rewrite (filter_cons_True (fun x => ~ P x)), Heq by done.
Qed.

(** ** Lists that change element by element, in any order *)

Definition pointwise {A} (R : relation A) (l l' : list A) : Prop :=
  exists m, l ≡ₚ m /\ Forall2 R m l'.

#[export] Instance pointwise_proper {A} (R : relation A) :
  Proper ((≡ₚ) ==> (≡ₚ) ==> iff) (pointwise R).
Proof.
  intros l1 l2 Hl k1 k2 Hk. unfold pointwise. split; intros (m & Hm & Hf).
  - destruct (Forall2_perm_r _ _ _ k2 Hf Hk) as (m' & ? & ?).
    exists m'. split; [|done]. by rewrite <- Hl, Hm.
  - destruct (Forall2_perm_r _ _ _ k1 Hf (symmetry Hk)) as (m' & ? & ?).
    exists m'. split; [|done]. by rewrite Hl, Hm.
Qed.

#[export] Instance pointwise_preorder {A} (R : relation A) `{!PreOrder R} : PreOrder (pointwise R).
Proof.
  split.
  - intros l. exists l. split; [done|]. apply Forall_Forall2_diag, Forall_true.
    intros x. reflexivity.
  - intros l1 l2 l3 (m & Hm & Hf) (m' & Hm' & Hf').
    destruct (Forall2_perm_r _ _ _ m' Hf Hm') as (m'' & Hm'' & Hf'').
    exists m''. split; [by rewrite Hm|]. by transitivity m'.
Qed.

Section Pointwise.
Context {A B : Type} (R : relation A) (S : relation B).

Lemma pointwise_app l1 l2 k1 k2 :
  pointwise R l1 k1 -> pointwise R l2 k2 -> pointwise R (l1 ++ l2) (k1 ++ k2).
Proof.
  intros (m1 & Hm1 & Hf1) (m2 & Hm2 & Hf2). exists (m1 ++ m2).
  split; [by rewrite Hm1, Hm2|by apply Forall2_app].
Qed.

Lemma pointwise_fmap (f : A → B) l k :
  (forall x y, R x y -> S (f x) (f y)) -> pointwise R l k -> pointwise S (f <$> l) (f <$> k).
Proof.
  intros HR (m & Hm & Hf). exists (f <$> m). split; [by rewrite Hm|].
  apply Forall2_fmap. eapply Forall2_impl; eauto.
Qed.

(** What the relation keeps of each element is kept by the list. *)
Lemma pointwise_keep (f : A → B) l k :
  (forall x y, R x y -> f x = f y) -> pointwise R l k -> f <$> l ≡ₚ f <$> k.
Proof.
  intros HR (m & -> & Hf). induction Hf as [|x y m' k' Hxy _ IH]; [done|].
  by rewrite !fmap_cons, IH, (HR x y).
Qed.

Lemma pointwise_Forall (P : A → Prop) l k :
  (forall x y, R x y -> P x -> P y) -> pointwise R l k -> Forall P l -> Forall P k.
Proof.
  intros HR (m & -> & Hf). induction Hf as [|x y m' k' Hxy _ IH]; [done|].
  intros [Hx Hm]%Forall_cons. constructor; eauto.
Qed.

End Pointwise.

(** Elements of a list with distinct keys are determined by their key. *)
Lemma NoDup_key {A B} (f : A → B) (l : list A) x y :
  NoDup (f <$> l) -> x ∈ l -> y ∈ l -> f x = f y -> x = y.
Proof.
  intros Hn (i & Hi)%list_elem_of_lookup (j & Hj)%list_elem_of_lookup Hf.
  assert (i = j) as ->; [|congruence].
  apply (NoDup_lookup (f <$> l) i j (f x)); [done|..]; rewrite list_lookup_fmap.
  - by rewrite Hi.
  - by rewrite Hj, Hf.
Qed.
