(* ===== verification/Error.v ===== *)
(** * Error codes

    [ErrorCode], its numeric values and the decoder [TryFrom<i32>], from
    [src/libs/error/src/lib.rs] and the constants of
    [src/libs/sysapi/src/errno.rs].  The constants are an enumeration with the names the
    source gives them, and their values; the decoder is the source's [match] read as a chain of
    comparisons in the order of its arms. *)

From S2P Require Import Prelude.
#[local] Open Scope Z_scope.

(** ** Numeric values of the error codes ([errno.rs]) *)
Module Errno.
Inductive t : Set :=
| EPERM | ENOENT | ESRCH | EINTR | EIO | ENXIO | E2BIG | ENOEXEC | EBADF | ECHILD
| EAGAIN | ENOMEM | EACCES | EFAULT | ENOTBLK | EBUSY | EEXIST | EXDEV | ENODEV
| ENOTDIR | EISDIR | EINVAL | ENFILE | EMFILE | ENOTTY | ETXTBSY | EFBIG | ENOSPC
| ESPIPE | EROFS | EMLINK | EPIPE | EDOM | ERANGE | ENOMSG | EIDRM | ECHRNG | EL2NSYNC
| EL3HLT | EL3RST | ELNRNG | EUNATCH | ENOCSI | EL2HLT | EDEADLK | ENOLCK | EBADE
| EBADR | EXFULL | ENOANO | EBADRQC | EBADSLT | EDEADLOCK | EBFONT | ENOSTR | ENODATA
| ETIME | ENOSR | ENONET | ENOPKG | EREMOTE | ENOLINK | EADV | ESRMNT | ECOMM | EPROTO
| EMULTIHOP | ELBIN | EDOTDOT | EBADMSG | EFTYPE | ENOTUNIQ | EBADFD | EREMCHG
| ELIBACC | ELIBBAD | ELIBSCN | ELIBMAX | ELIBEXEC | ENOSYS | ENOTEMPTY | ENAMETOOLONG
| ELOOP | EOPNOTSUPP | EPFNOSUPPORT | ECONNRESET | ENOBUFS | EAFNOSUPPORT | EPROTOTYPE
| ENOTSOCK | ENOPROTOOPT | ESHUTDOWN | ECONNREFUSED | EADDRINUSE | ECONNABORTED
| ENETUNREACH | ENETDOWN | ETIMEDOUT | EHOSTDOWN | EHOSTUNREACH | EINPROGRESS
| EALREADY | EDESTADDRREQ | EMSGSIZE | EPROTONOSUPPORT | ESOCKTNOSUPPORT
| EADDRNOTAVAIL | ENETRESET | EISCONN | ENOTCONN | ETOOMANYREFS | EUSERS | EDQUOT
| ESTALE | ENOTSUP | ENOMEDIUM | EILSEQ | EOVERFLOW | ECANCELED | ENOTRECOVERABLE
| EOWNERDEAD | ESTRPIPE.

Definition value (e : t) : Z :=
  match e with
  | EPERM => 1 | ENOENT => 2 | ESRCH => 3 | EINTR => 4 | EIO => 5 | ENXIO => 6
  | E2BIG => 7 | ENOEXEC => 8 | EBADF => 9 | ECHILD => 10 | EAGAIN => 11 | ENOMEM => 12
  | EACCES => 13 | EFAULT => 14 | ENOTBLK => 15 | EBUSY => 16 | EEXIST => 17
  | EXDEV => 18 | ENODEV => 19 | ENOTDIR => 20 | EISDIR => 21 | EINVAL => 22
  | ENFILE => 23 | EMFILE => 24 | ENOTTY => 25 | ETXTBSY => 26 | EFBIG => 27
  | ENOSPC => 28 | ESPIPE => 29 | EROFS => 30 | EMLINK => 31 | EPIPE => 32 | EDOM => 33
  | ERANGE => 34 | ENOMSG => 35 | EIDRM => 36 | ECHRNG => 37 | EL2NSYNC => 38
  | EL3HLT => 39 | EL3RST => 40 | ELNRNG => 41 | EUNATCH => 42 | ENOCSI => 43
  | EL2HLT => 44 | EDEADLK => 45 | ENOLCK => 46 | EBADE => 50 | EBADR => 51
  | EXFULL => 52 | ENOANO => 53 | EBADRQC => 54 | EBADSLT => 55 | EDEADLOCK => 56
  | EBFONT => 57 | ENOSTR => 60 | ENODATA => 61 | ETIME => 62 | ENOSR => 63
  | ENONET => 64 | ENOPKG => 65 | EREMOTE => 66 | ENOLINK => 67 | EADV => 68
  | ESRMNT => 69 | ECOMM => 70 | EPROTO => 71 | EMULTIHOP => 74 | ELBIN => 75
  | EDOTDOT => 76 | EBADMSG => 77 | EFTYPE => 79 | ENOTUNIQ => 80 | EBADFD => 81
  | EREMCHG => 82 | ELIBACC => 83 | ELIBBAD => 84 | ELIBSCN => 85 | ELIBMAX => 86
  | ELIBEXEC => 87 | ENOSYS => 88 | ENOTEMPTY => 90 | ENAMETOOLONG => 91 | ELOOP => 92
  | EOPNOTSUPP => 95 | EPFNOSUPPORT => 96 | ECONNRESET => 104 | ENOBUFS => 105
  | EAFNOSUPPORT => 106 | EPROTOTYPE => 107 | ENOTSOCK => 108 | ENOPROTOOPT => 109
  | ESHUTDOWN => 110 | ECONNREFUSED => 111 | EADDRINUSE => 112 | ECONNABORTED => 113
  | ENETUNREACH => 114 | ENETDOWN => 115 | ETIMEDOUT => 116 | EHOSTDOWN => 117
  | EHOSTUNREACH => 118 | EINPROGRESS => 119 | EALREADY => 120 | EDESTADDRREQ => 121
  | EMSGSIZE => 122 | EPROTONOSUPPORT => 123 | ESOCKTNOSUPPORT => 124
  | EADDRNOTAVAIL => 125 | ENETRESET => 126 | EISCONN => 127 | ENOTCONN => 128
  | ETOOMANYREFS => 129 | EUSERS => 131 | EDQUOT => 132 | ESTALE => 133
  | ENOTSUP => 134 | ENOMEDIUM => 135 | EILSEQ => 138 | EOVERFLOW => 139
  | ECANCELED => 140 | ENOTRECOVERABLE => 141 | EOWNERDEAD => 142 | ESTRPIPE => 143
  end.
End Errno.

(** ** The enumeration *)
Inductive ErrorCode : Set :=
| OperationNotPermitted
| NoSuchEntry
| NoSuchProcess
| Interrupted
| IoErr
| NoSuchDeviceOrAddress
| TooBig
| InvalidExecutableFormat
| BadFile
| NoChildProcess
| TryAgain
| OutOfMemory
| PermissionDenied
| BadAddress
| NotBlockDevice
| ResourceBusy
| EntryExists
| CrossDeviceLink
| NoSuchDevice
| InvalidDirectory
| IsDirectory
| InvalidArgument
| FileTableOVerflow
| TooManyOpenFiles
| NotTerminal
| TextFileBusy
| FileTooLarge
| NoSpaceOnDevice
| IllegalSeek
| ReadOnlyFileSystem
| TooManyLinks
| BrokenPipe
| MathArgDomainErr
| ValueOutOfRange
| NoMessageAvailable
| IdentifierRemoved
| OutOfRangeChannel
| Level2NotSynchronized
| Level3Halted
| Level3Reset
| InvalidLinkNumber
| InvalidProtocolDriver
| NoStructAvailable
| Level2Halted
| Deadlock
| LockNotAvailable
| InvalidExchange
| InvalidRequestDescriptor
| ExchangeFull
| InvalidAnode
| InvalidRequestCode
| InvalidSlot
| DeadlockWouldOccur
| BadFontFormat
| NoStreamDeviceAvailable
| NoDataAvailable
| TimerExpired
| NoStreamResources
| NoNetwork
| MissingPackage
| RemoteObject
| NoLink
| AdvertiseErr
| MountErr
| CommunicationErr
| ProtocolErr
| MultipleHopAttemped
| InodeRemote
| RfsErr
| InvalidMessage
| InvalidFileType
| NonUniqueName
| InvalidFileDescriptor
| RemoteAddressChanged
| LibraryAccessErr
| InvalidLibraryAccess
| CorruptedLibSection
| ExcessiveLibraryLinkCount
| InvalidExecSharedLibrary
| InvalidSysCall
| DirectoryNotEmpty
| NameTooLong
| SymbolicLinkLoop
| OperationNotSupportedOnSocket
| ProtocolFamilyNotSupported
| ConnectionReset
| NoBufferSpace
| AddressFamilyNotSupported
| BadProtocolType
| NotSocketFile
| ProtocolOptionNotAvailable
| TransportEndpointShutdown
| ConnectionRefused
| AddressInUse
| ConnectionAborted
| NetworkUnreachable
| NetworkDown
| OperationTimedOut
| HostDown
| HostUnreachable
| OperationInProgress
| OperationAlreadyInProgress
| DestinationAddressRequired
| MessageTooLong
| ProtocolNotSupported
| SocketTypeNotSupported
| AddressNotAvailable
| NetworkReset
| TransportEndpointConnected
| TransportEndpointNotConnected
| TooManyReferences
| TooManyUsers
| QuotaExceeded
| StaleHandle
| OperationNotSupported
| MediumNotFound
| IllegalByteSequence
| ValueOverflow
| OperationCanceled
| UnrecoverableState
| DeadOwner
| StreamPipeErr.

(** [Error] of the source: a code and a static description. *)
Record Error : Set := mkError { code : ErrorCode; reason : string }.

(** [ErrorCode::get], the discriminant of the enumeration. *)
Definition ErrorCode_get (e : ErrorCode) : Z :=
  match e with
  | OperationNotPermitted => Errno.value Errno.EPERM
  | NoSuchEntry => Errno.value Errno.ENOENT
  | NoSuchProcess => Errno.value Errno.ESRCH
  | Interrupted => Errno.value Errno.EINTR
  | IoErr => Errno.value Errno.EIO
  | NoSuchDeviceOrAddress => Errno.value Errno.ENXIO
  | TooBig => Errno.value Errno.E2BIG
  | InvalidExecutableFormat => Errno.value Errno.ENOEXEC
  | BadFile => Errno.value Errno.EBADF
  | NoChildProcess => Errno.value Errno.ECHILD
  | TryAgain => Errno.value Errno.EAGAIN
  | OutOfMemory => Errno.value Errno.ENOMEM
  | PermissionDenied => Errno.value Errno.EACCES
  | BadAddress => Errno.value Errno.EFAULT
  | NotBlockDevice => Errno.value Errno.ENOTBLK
  | ResourceBusy => Errno.value Errno.EBUSY
  | EntryExists => Errno.value Errno.EEXIST
  | CrossDeviceLink => Errno.value Errno.EXDEV
  | NoSuchDevice => Errno.value Errno.ENODEV
  | InvalidDirectory => Errno.value Errno.ENOTDIR
  | IsDirectory => Errno.value Errno.EISDIR
  | InvalidArgument => Errno.value Errno.EINVAL
  | FileTableOVerflow => Errno.value Errno.ENFILE
  | TooManyOpenFiles => Errno.value Errno.EMFILE
  | NotTerminal => Errno.value Errno.ENOTTY
  | TextFileBusy => Errno.value Errno.ETXTBSY
  | FileTooLarge => Errno.value Errno.EFBIG
  | NoSpaceOnDevice => Errno.value Errno.ENOSPC
  | IllegalSeek => Errno.value Errno.ESPIPE
  | ReadOnlyFileSystem => Errno.value Errno.EROFS
  | TooManyLinks => Errno.value Errno.EMLINK
  | BrokenPipe => Errno.value Errno.EPIPE
  | MathArgDomainErr => Errno.value Errno.EDOM
  | ValueOutOfRange => Errno.value Errno.ERANGE
  | NoMessageAvailable => Errno.value Errno.ENOMSG
  | IdentifierRemoved => Errno.value Errno.EIDRM
  | OutOfRangeChannel => Errno.value Errno.ECHRNG
  | Level2NotSynchronized => Errno.value Errno.EL2NSYNC
  | Level3Halted => Errno.value Errno.EL3HLT
  | Level3Reset => Errno.value Errno.EL3RST
  | InvalidLinkNumber => Errno.value Errno.ELNRNG
  | InvalidProtocolDriver => Errno.value Errno.EUNATCH
  | NoStructAvailable => Errno.value Errno.ENOCSI
  | Level2Halted => Errno.value Errno.EL2HLT
  | Deadlock => Errno.value Errno.EDEADLK
  | LockNotAvailable => Errno.value Errno.ENOLCK
  | InvalidExchange => Errno.value Errno.EBADE
  | InvalidRequestDescriptor => Errno.value Errno.EBADR
  | ExchangeFull => Errno.value Errno.EXFULL
  | InvalidAnode => Errno.value Errno.ENOANO
  | InvalidRequestCode => Errno.value Errno.EBADRQC
  | InvalidSlot => Errno.value Errno.EBADSLT
  | DeadlockWouldOccur => Errno.value Errno.EDEADLOCK
  | BadFontFormat => Errno.value Errno.EBFONT
  | NoStreamDeviceAvailable => Errno.value Errno.ENOSTR
  | NoDataAvailable => Errno.value Errno.ENODATA
  | TimerExpired => Errno.value Errno.ETIME
  | NoStreamResources => Errno.value Errno.ENOSR
  | NoNetwork => Errno.value Errno.ENONET
  | MissingPackage => Errno.value Errno.ENOPKG
  | RemoteObject => Errno.value Errno.EREMOTE
  | NoLink => Errno.value Errno.ENOLINK
  | AdvertiseErr => Errno.value Errno.EADV
  | MountErr => Errno.value Errno.ESRMNT
  | CommunicationErr => Errno.value Errno.ECOMM
  | ProtocolErr => Errno.value Errno.EPROTO
  | MultipleHopAttemped => Errno.value Errno.EMULTIHOP
  | InodeRemote => Errno.value Errno.ELBIN
  | RfsErr => Errno.value Errno.EDOTDOT
  | InvalidMessage => Errno.value Errno.EBADMSG
  | InvalidFileType => Errno.value Errno.EFTYPE
  | NonUniqueName => Errno.value Errno.ENOTUNIQ
  | InvalidFileDescriptor => Errno.value Errno.EBADFD
  | RemoteAddressChanged => Errno.value Errno.EREMCHG
  | LibraryAccessErr => Errno.value Errno.ELIBACC
  | InvalidLibraryAccess => Errno.value Errno.ELIBBAD
  | CorruptedLibSection => Errno.value Errno.ELIBSCN
  | ExcessiveLibraryLinkCount => Errno.value Errno.ELIBMAX
  | InvalidExecSharedLibrary => Errno.value Errno.ELIBEXEC
  | InvalidSysCall => Errno.value Errno.ENOSYS
  | DirectoryNotEmpty => Errno.value Errno.ENOTEMPTY
  | NameTooLong => Errno.value Errno.ENAMETOOLONG
  | SymbolicLinkLoop => Errno.value Errno.ELOOP
  | OperationNotSupportedOnSocket => Errno.value Errno.EOPNOTSUPP
  | ProtocolFamilyNotSupported => Errno.value Errno.EPFNOSUPPORT
  | ConnectionReset => Errno.value Errno.ECONNRESET
  | NoBufferSpace => Errno.value Errno.ENOBUFS
  | AddressFamilyNotSupported => Errno.value Errno.EAFNOSUPPORT
  | BadProtocolType => Errno.value Errno.EPROTOTYPE
  | NotSocketFile => Errno.value Errno.ENOTSOCK
  | ProtocolOptionNotAvailable => Errno.value Errno.ENOPROTOOPT
  | TransportEndpointShutdown => Errno.value Errno.ESHUTDOWN
  | ConnectionRefused => Errno.value Errno.ECONNREFUSED
  | AddressInUse => Errno.value Errno.EADDRINUSE
  | ConnectionAborted => Errno.value Errno.ECONNABORTED
  | NetworkUnreachable => Errno.value Errno.ENETUNREACH
  | NetworkDown => Errno.value Errno.ENETDOWN
  | OperationTimedOut => Errno.value Errno.ETIMEDOUT
  | HostDown => Errno.value Errno.EHOSTDOWN
  | HostUnreachable => Errno.value Errno.EHOSTUNREACH
  | OperationInProgress => Errno.value Errno.EINPROGRESS
  | OperationAlreadyInProgress => Errno.value Errno.EALREADY
  | DestinationAddressRequired => Errno.value Errno.EDESTADDRREQ
  | MessageTooLong => Errno.value Errno.EMSGSIZE
  | ProtocolNotSupported => Errno.value Errno.EPROTONOSUPPORT
  | SocketTypeNotSupported => Errno.value Errno.ESOCKTNOSUPPORT
  | AddressNotAvailable => Errno.value Errno.EADDRNOTAVAIL
  | NetworkReset => Errno.value Errno.ENETRESET
  | TransportEndpointConnected => Errno.value Errno.EISCONN
  | TransportEndpointNotConnected => Errno.value Errno.ENOTCONN
  | TooManyReferences => Errno.value Errno.ETOOMANYREFS
  | TooManyUsers => Errno.value Errno.EUSERS
  | QuotaExceeded => Errno.value Errno.EDQUOT
  | StaleHandle => Errno.value Errno.ESTALE
  | OperationNotSupported => Errno.value Errno.ENOTSUP
  | MediumNotFound => Errno.value Errno.ENOMEDIUM
  | IllegalByteSequence => Errno.value Errno.EILSEQ
  | ValueOverflow => Errno.value Errno.EOVERFLOW
  | OperationCanceled => Errno.value Errno.ECANCELED
  | UnrecoverableState => Errno.value Errno.ENOTRECOVERABLE
  | DeadOwner => Errno.value Errno.EOWNERDEAD
  | StreamPipeErr => Errno.value Errno.ESTRPIPE
  end.

(** [i32::checked_abs]: no positive counterpart for [i32::MIN]. *)
Definition i32_min : Z := - 2 ^ 31.
Definition i32_checked_abs (v : Z) : option Z :=
  if v =? i32_min then None else Some (Z.abs v).

Definition invalid_error_code (value : Z) : Error :=
  mkError InvalidArgument "invalid error code".

(** The arms of [TryFrom<i32>], in order. *)
Definition error_arms : list (Z * ErrorCode) :=
  [
   (Errno.value Errno.EPERM, OperationNotPermitted); (Errno.value Errno.ENOENT, NoSuchEntry);
   (Errno.value Errno.ESRCH, NoSuchProcess); (Errno.value Errno.EINTR, Interrupted); (Errno.value Errno.EIO, IoErr);
   (Errno.value Errno.ENXIO, NoSuchDeviceOrAddress); (Errno.value Errno.E2BIG, TooBig);
   (Errno.value Errno.ENOEXEC, InvalidExecutableFormat); (Errno.value Errno.EBADF, BadFile);
   (Errno.value Errno.ECHILD, NoChildProcess); (Errno.value Errno.EAGAIN, TryAgain);
   (Errno.value Errno.ENOMEM, OutOfMemory); (Errno.value Errno.EACCES, PermissionDenied);
   (Errno.value Errno.EFAULT, BadAddress); (Errno.value Errno.ENOTBLK, NotBlockDevice);
   (Errno.value Errno.EBUSY, ResourceBusy); (Errno.value Errno.EEXIST, EntryExists);
   (Errno.value Errno.EXDEV, CrossDeviceLink); (Errno.value Errno.ENODEV, NoSuchDevice);
   (Errno.value Errno.ENOTDIR, InvalidDirectory); (Errno.value Errno.EISDIR, IsDirectory);
   (Errno.value Errno.EINVAL, InvalidArgument); (Errno.value Errno.ENFILE, FileTableOVerflow);
   (Errno.value Errno.EMFILE, TooManyOpenFiles); (Errno.value Errno.ENOTTY, NotTerminal);
   (Errno.value Errno.ETXTBSY, TextFileBusy); (Errno.value Errno.EFBIG, FileTooLarge);
   (Errno.value Errno.ENOSPC, NoSpaceOnDevice); (Errno.value Errno.ESPIPE, IllegalSeek);
   (Errno.value Errno.EROFS, ReadOnlyFileSystem); (Errno.value Errno.EMLINK, TooManyLinks);
   (Errno.value Errno.EPIPE, BrokenPipe); (Errno.value Errno.EDOM, MathArgDomainErr);
   (Errno.value Errno.ERANGE, ValueOutOfRange); (Errno.value Errno.ENOMSG, NoMessageAvailable);
   (Errno.value Errno.EIDRM, IdentifierRemoved); (Errno.value Errno.ECHRNG, OutOfRangeChannel);
   (Errno.value Errno.EL2NSYNC, Level2NotSynchronized); (Errno.value Errno.EL3HLT, Level3Halted);
   (Errno.value Errno.EL3RST, Level3Reset); (Errno.value Errno.ELNRNG, InvalidLinkNumber);
   (Errno.value Errno.EUNATCH, InvalidProtocolDriver); (Errno.value Errno.ENOCSI, NoStructAvailable);
   (Errno.value Errno.EL2HLT, Level2Halted); (Errno.value Errno.EDEADLK, Deadlock);
   (Errno.value Errno.ENOLCK, LockNotAvailable); (Errno.value Errno.EBADE, InvalidExchange);
   (Errno.value Errno.EBADR, InvalidRequestDescriptor); (Errno.value Errno.EXFULL, ExchangeFull);
   (Errno.value Errno.ENOANO, InvalidAnode); (Errno.value Errno.EBADRQC, InvalidRequestCode);
   (Errno.value Errno.EBADSLT, InvalidSlot); (Errno.value Errno.EDEADLOCK, DeadlockWouldOccur);
   (Errno.value Errno.EBFONT, BadFontFormat); (Errno.value Errno.ENOSTR, NoStreamDeviceAvailable);
   (Errno.value Errno.ENODATA, NoDataAvailable); (Errno.value Errno.ETIME, TimerExpired);
   (Errno.value Errno.ENOSR, NoStreamResources); (Errno.value Errno.ENONET, NoNetwork);
   (Errno.value Errno.ENOPKG, MissingPackage); (Errno.value Errno.EREMOTE, RemoteObject);
   (Errno.value Errno.ENOLINK, NoLink); (Errno.value Errno.EADV, AdvertiseErr); (Errno.value Errno.ESRMNT, MountErr);
   (Errno.value Errno.ECOMM, CommunicationErr); (Errno.value Errno.EPROTO, ProtocolErr);
   (Errno.value Errno.EMULTIHOP, MultipleHopAttemped); (Errno.value Errno.ELBIN, InodeRemote);
   (Errno.value Errno.EDOTDOT, RfsErr); (Errno.value Errno.EBADMSG, InvalidMessage);
   (Errno.value Errno.EFTYPE, InvalidFileType); (Errno.value Errno.ENOTUNIQ, NonUniqueName);
   (Errno.value Errno.EBADFD, InvalidFileDescriptor); (Errno.value Errno.EREMCHG, RemoteAddressChanged);
   (Errno.value Errno.ELIBACC, LibraryAccessErr); (Errno.value Errno.ELIBBAD, InvalidLibraryAccess);
   (Errno.value Errno.ELIBSCN, CorruptedLibSection);
   (Errno.value Errno.ELIBMAX, ExcessiveLibraryLinkCount);
   (Errno.value Errno.ELIBEXEC, InvalidExecSharedLibrary); (Errno.value Errno.ENOSYS, InvalidSysCall);
   (Errno.value Errno.ENOTEMPTY, DirectoryNotEmpty); (Errno.value Errno.ENAMETOOLONG, NameTooLong);
   (Errno.value Errno.ELOOP, SymbolicLinkLoop);
   (Errno.value Errno.EOPNOTSUPP, OperationNotSupportedOnSocket);
   (Errno.value Errno.EPFNOSUPPORT, ProtocolFamilyNotSupported);
   (Errno.value Errno.ECONNRESET, ConnectionReset); (Errno.value Errno.ENOBUFS, NoBufferSpace);
   (Errno.value Errno.EAFNOSUPPORT, AddressFamilyNotSupported);
   (Errno.value Errno.EPROTOTYPE, BadProtocolType); (Errno.value Errno.ENOTSOCK, NotSocketFile);
   (Errno.value Errno.ENOPROTOOPT, ProtocolOptionNotAvailable);
   (Errno.value Errno.ESHUTDOWN, TransportEndpointShutdown);
   (Errno.value Errno.ECONNREFUSED, ConnectionRefused); (Errno.value Errno.EADDRINUSE, AddressInUse);
   (Errno.value Errno.ECONNABORTED, ConnectionAborted);
   (Errno.value Errno.ENETUNREACH, NetworkUnreachable); (Errno.value Errno.ENETDOWN, NetworkDown);
   (Errno.value Errno.ETIMEDOUT, OperationTimedOut); (Errno.value Errno.EHOSTDOWN, HostDown);
   (Errno.value Errno.EHOSTUNREACH, HostUnreachable);
   (Errno.value Errno.EINPROGRESS, OperationInProgress);
   (Errno.value Errno.EALREADY, OperationAlreadyInProgress);
   (Errno.value Errno.EDESTADDRREQ, DestinationAddressRequired);
   (Errno.value Errno.EMSGSIZE, MessageTooLong);
   (Errno.value Errno.EPROTONOSUPPORT, ProtocolNotSupported);
   (Errno.value Errno.ESOCKTNOSUPPORT, SocketTypeNotSupported);
   (Errno.value Errno.EADDRNOTAVAIL, AddressNotAvailable); (Errno.value Errno.ENETRESET, NetworkReset);
   (Errno.value Errno.EISCONN, TransportEndpointConnected);
   (Errno.value Errno.ENOTCONN, TransportEndpointNotConnected);
   (Errno.value Errno.ETOOMANYREFS, TooManyReferences); (Errno.value Errno.EUSERS, TooManyUsers);
   (Errno.value Errno.EDQUOT, QuotaExceeded); (Errno.value Errno.ESTALE, StaleHandle);
   (Errno.value Errno.ENOTSUP, OperationNotSupported); (Errno.value Errno.ENOMEDIUM, MediumNotFound);
   (Errno.value Errno.EILSEQ, IllegalByteSequence); (Errno.value Errno.EOVERFLOW, ValueOverflow);
   (Errno.value Errno.ECANCELED, OperationCanceled);
   (Errno.value Errno.ENOTRECOVERABLE, UnrecoverableState); (Errno.value Errno.EOWNERDEAD, DeadOwner);
   (Errno.value Errno.ESTRPIPE, StreamPipeErr)].

Fixpoint match_arms (value : Z) (arms : list (Z * ErrorCode)) : res Error ErrorCode :=
  match arms with
  | [] => Err (invalid_error_code value)
  | (k, e) :: rest => if value =? k then Ok e else match_arms value rest
  end.

(** [<ErrorCode as TryFrom<i32>>::try_from]. *)
Definition ErrorCode_try_from (value : Z) : res Error ErrorCode :=
  let value :=
    if value <? 0
    then match i32_checked_abs value with Some abs => abs | None => value end
    else value in
  match_arms value error_arms.

(** [<ErrorCode as TryFrom<i64>>::try_from]: narrow, then decode; both
    failures are reported with the same description. *)
Definition ErrorCode_try_from_i64 (value : Z) : res Error ErrorCode :=
  if (i32_min <=? value) && (value <=? i32_max)
  then map_err (fun _ => mkError InvalidArgument "invalid error code")
         (ErrorCode_try_from value)
  else Err (mkError InvalidArgument "invalid error code").

(** ** Properties *)

Lemma ErrorCode_get_range e : 1 <= ErrorCode_get e <= 143.
Proof. destruct e; vm_compute; split; discriminate. Qed.

Lemma match_arms_get e : match_arms (ErrorCode_get e) error_arms = Ok e.
Proof. destruct e; vm_compute; reflexivity. Qed.

Lemma match_arms_sound v arms e :
  match_arms v arms = Ok e → (v, e) ∈ arms.
Proof.
  induction arms as [|[k e'] arms IH]; simpl; [done|].
  destruct (Z.eqb_spec v k); intros H; [|set_solver].
  simplify_eq. set_solver.
Qed.

Lemma error_arms_get : Forall (fun ke => ke.1 = ErrorCode_get ke.2) error_arms.
Proof. repeat (apply Forall_cons_2; [reflexivity|]). apply Forall_nil_2. Qed.

Lemma ErrorCode_get_inj : Inj (=) (=) ErrorCode_get.
Proof.
  intros a b H. assert (@Ok Error _ a = Ok b) as E; [|by simplify_eq].
  by rewrite <- (match_arms_get a), <- (match_arms_get b), H.
Qed.

#[export] Instance ErrorCode_eq_dec : EqDecision ErrorCode.
Proof.
  intros a b. destruct (Z.eq_dec (ErrorCode_get a) (ErrorCode_get b)) as [H|H].
  - left. by apply ErrorCode_get_inj.
  - right. congruence.
Defined.

#[export] Instance Error_eq_dec : EqDecision Error.
Proof. solve_decision. Defined.

(** Decoding is the exact inverse of numbering.  An [i32] decodes to an
    error code if and only if its absolute value is that code's number, so the
    positive and the negated form of every code decode to it and nothing else
    does. *)
Theorem ErrorCode_try_from_iff v e :
  ErrorCode_try_from v = Ok e <-> Z.abs v = ErrorCode_get e.
Proof.
  pose proof (ErrorCode_get_range e) as Hr.
  unfold ErrorCode_try_from, i32_checked_abs, i32_min. cbv zeta.
  set (w := if v <? 0 then _ else v).
  assert (0 <= w -> w = Z.abs v) as Hw.
  { unfold w. destruct (Z.ltb_spec v 0); [|lia]. destruct (Z.eqb_spec v (- 2 ^ 31)); lia. }
  assert (w < 0 -> Z.abs v = 2 ^ 31) as Hn.
  { unfold w. destruct (Z.ltb_spec v 0); [|lia]. destruct (Z.eqb_spec v (- 2 ^ 31)); lia. }
  split.
  - intros H%match_arms_sound.
    pose proof (proj1 (Forall_forall _ _) error_arms_get _ H) as E. simpl in E. lia.
  - intros H. assert (w = ErrorCode_get e) as -> by lia. apply match_arms_get.
Qed.
