(* ===== verification/BumpAlloc.v ===== *)
(** * The bump allocator

    [libs/bump_allocator]: slots of one size are handed out one after the other from
    a static region and never given back.  The index of the next slot is reserved with
    a compare-and-swap loop; the second half of the file runs that loop in any number
    of threads, one atomic access at a time. *)

From stdpp Require Import gmap.
From S2P Require Import Prelude.
#[local] Open Scope Z_scope.

Inductive BumpAllocError :=
| Exhausted
| SizeMismatch
| AlignmentMismatch
| Overflow
| OutOfBounds
| Misaligned.

(** The storage behind an allocator: its capacity, its size and where it lies. *)
Class BssStorage := {
  NUM_UNITS : Z;
  STORAGE_SIZE : Z;
  as_mut_ptr : Z
}.

Module Bump.

Definition div_ceil (x y : Z) : Z := if x mod y =? 0 then x / y else x / y + 1.

Definition align_up (value alignment : Z) : option Z :=
  if alignment =? 0 then None else checked_mul (div_ceil value alignment) alignment.

Section Definitions.
Context (N A : Z) {ST : BssStorage}.

Definition or_overflow (o : option Z) : res BumpAllocError Z :=
  match o with Some x => Ok x | None => Err Overflow end.

(** The address of a slot that has been reserved. *)
Definition slot_address (idx : Z) : res BumpAllocError Z :=
  stride ← or_overflow (align_up N A);
  offset ← or_overflow (checked_mul idx stride);
  ptr ← or_overflow (checked_add as_mut_ptr offset);
  e ← or_overflow (checked_add ptr N);
  storage_end ← or_overflow (checked_add as_mut_ptr STORAGE_SIZE);
  if storage_end <? e then Err OutOfBounds
  else if negb (ptr mod A =? 0) then Err Misaligned
  else Ok ptr.

(** [alloc], when no other thread interferes; the state is [next_slot]. *)
Definition alloc : M Z BumpAllocError Z :=
  current ← get;
  if NUM_UNITS <=? current then fail Exhausted
  else
    match checked_add current 1 with
    | None => fail Overflow
    | Some next => put next;; lift (slot_address current)
    end.

Definition alloc_as (size align : Z) : M Z BumpAllocError Z :=
  if negb (size =? N) then fail SizeMismatch
  else if A <? align then fail AlignmentMismatch
  else alloc.

(** ** Threads *)

(** Where a thread is in the loop of [alloc]: outside, or between its load of
    [next_slot] and its compare-and-swap. *)
Inductive Pc :=
| Idle
| Loaded (current : Z).

(** All threads, [next_slot], and the slots handed out so far with the thread that got
    each, latest first. *)
Record Threads := mkThreads {
  pcs : gmap nat Pc;
  next_slot : Z;
  handed : list (nat * Z)
}.

(** One atomic access of thread [i]. *)
Inductive step (i : nat) : Threads → Threads → Prop :=
| step_load s : pcs s !! i = Some Idle -> next_slot s < NUM_UNITS ->
    step i s (mkThreads (<[i := Loaded (next_slot s)]> (pcs s)) (next_slot s) (handed s))
| step_exhausted s : pcs s !! i = Some Idle -> NUM_UNITS <= next_slot s -> step i s s
| step_swap s current : pcs s !! i = Some (Loaded current) -> next_slot s = current ->
    step i s (mkThreads (<[i := Idle]> (pcs s)) (current + 1) ((i, current) :: handed s))
| step_retry s current : pcs s !! i = Some (Loaded current) -> next_slot s <> current ->
    step i s (mkThreads (<[i := Idle]> (pcs s)) (next_slot s) (handed s)).

Inductive runs (n : nat) : Threads → Prop :=
| runs_start : runs n (mkThreads (gset_to_gmap Idle (set_seq 0 n)) 0 [])
| runs_step i s s' : runs n s -> step i s s' -> runs n s'.

End Definitions.

(** ** Proofs *)

Section Proofs.
Context {N A : Z} {ST : BssStorage}.

Definition stride : Z := div_ceil N A * A.

(** Storage that holds all its slots, as the declarations of the kernel check. *)
Record storage_ok : Prop := {
  so_size : 0 < N;
  so_align : 0 < A;
  so_base : 0 <= as_mut_ptr /\ as_mut_ptr mod A = 0;
  so_units : 0 <= NUM_UNITS /\ NUM_UNITS * stride <= STORAGE_SIZE;
  so_end : as_mut_ptr + STORAGE_SIZE <= usize_max
}.

Lemma stride_spec : 0 < N -> 0 < A -> N <= stride < N + A /\ stride mod A = 0.
Proof.
  intros HN HA. unfold stride, div_ceil. pose proof (Z.div_mod N A ltac:(lia)). pose proof (Z.mod_pos_bound N A HA).
  split; [|by apply Z.mod_mul; lia]. destruct (Z.eqb_spec (N mod A) 0); lia.
Qed.

Lemma slot_ok idx : storage_ok -> 0 <= idx < NUM_UNITS ->
  slot_address N A idx = Ok (as_mut_ptr + idx * stride) /\
  as_mut_ptr <= as_mut_ptr + idx * stride /\ as_mut_ptr + idx * stride + N <= as_mut_ptr + STORAGE_SIZE /\
  (as_mut_ptr + idx * stride) mod A = 0.
Proof.
  intros [HN HA [Hb Hba] [Hu Hfit] Hend] Hi. destruct (stride_spec HN HA) as [Hs Hsa].
  assert (idx * stride + stride <= NUM_UNITS * stride) as Hle by nia. assert (0 <= idx * stride) by nia.
  assert (stride <= NUM_UNITS * stride) by nia.
  assert ((as_mut_ptr + idx * stride) mod A = 0) as Hm.
  { apply Z.mod_divide; [lia|]. apply Z.mod_divide in Hba, Hsa; [|lia..]. by apply Z.divide_add_r, Z.divide_mul_r. }
  splits; [|lia|lia|done]. unfold slot_address, align_up. destruct (Z.eqb_spec A 0); [lia|]. fold stride.
  unfold checked_mul, checked_add. fold stride. repeat (rewrite (proj2 (Z.leb_le _ usize_max)) by lia; simpl).
  rewrite (proj2 (Z.ltb_ge _ _)) by lia. by rewrite Hm.
Qed.

(** The slots come in order until all are gone. *)
Lemma bump_alloc_wp n (Q : res BumpAllocError Z → Z → Prop) : storage_ok -> 0 <= n <= NUM_UNITS -> NUM_UNITS <= usize_max ->
  (n < NUM_UNITS -> Q (Ok (as_mut_ptr + n * stride)) (n + 1)) -> (n = NUM_UNITS -> Q (Err Exhausted) n) ->
  wp (alloc N A) n Q.
Proof.
  intros Hs Hn Hu H1 H2. unfold alloc. do 2 wstep. destruct (Z.leb_spec NUM_UNITS n).
  { wstep. apply H2. lia. }
  unfold checked_add. rewrite (proj2 (Z.leb_le _ _)) by lia. destruct (slot_ok n Hs ltac:(lia)) as [-> _]. wsteps. by apply H1.
Qed.

(** The slots reserved so far are the first ones, and a thread between its two accesses
    holds an index that was the next one when it loaded it. *)
Record steps_ok (s : Threads) : Prop := {
  st_next : 0 <= next_slot s <= NUM_UNITS;
  st_handed : (handed s).*2 ≡ₚ seqZ 0 (next_slot s);
  st_loaded i c : pcs s !! i = Some (Loaded c) -> 0 <= c <= next_slot s /\ c < NUM_UNITS
}.

Lemma thread_step_ok i s s' : step i s s' -> steps_ok s -> steps_ok s'.
Proof.
  intros Hstep Hok. pose proof Hok as [Hn Hh Hl]. destruct Hstep as [s Hi Hlt|s Hi Hge|s c Hi Heq|s c Hi Hne]; [| done | |].
  all: split; simpl; [|try done|].
  all: try (intros j d [[_ Hj]|[_ Hj]]%lookup_insert_Some; [simplify_eq/=; lia|apply Hl in Hj; lia]).
  all: try lia.
  - apply Hl in Hi. lia.
  - apply Hl in Hi. rewrite Hh, Heq, seqZ_app by lia. by rewrite Permutation_cons_append.
Qed.

Lemma runs_ok n s : 0 <= NUM_UNITS -> runs n s -> steps_ok s.
Proof.
  intros HU. induction 1 as [|i s s' _ IH Hstep]; [|by eapply thread_step_ok].
  split; simpl; [lia|done|]. intros i c [_ ?]%lookup_gset_to_gmap_Some. done.
Qed.

(** C22: however the compare-and-swap loops of any number of threads interleave, the slots
    they have got are the first ones of the storage, each given to one thread only; the
    addresses of two of them are aligned blocks of [N] bytes inside the storage that do
    not overlap; and a thread whose compare-and-swap would fail lost the index it loaded
    to a thread that has it: the loop is lock-free. *)
Theorem bump_slots_exclusive n s : storage_ok -> runs n s ->
  (handed s).*2 ≡ₚ seqZ 0 (next_slot s) /\ next_slot s <= NUM_UNITS /\
  (forall a b i j x y, a <> b -> handed s !! a = Some (i, x) -> handed s !! b = Some (j, y) ->
     exists p q, slot_address N A x = Ok p /\ slot_address N A y = Ok q /\
       as_mut_ptr <= p /\ p + N <= as_mut_ptr + STORAGE_SIZE /\ p mod A = 0 /\
       (p + N <= q \/ q + N <= p)) /\
  (forall i c, pcs s !! i = Some (Loaded c) -> next_slot s <> c -> exists j, (j, c) ∈ handed s).
Proof.
  intros Hok Hrun. pose proof Hok as [HN HA _ [HU _] _]. apply runs_ok in Hrun as [Hn Hh Hl]; [|done].
  assert (forall i x, (i, x) ∈ handed s -> 0 <= x < next_slot s) as Hin.
  { intros i x Hx. apply (list_elem_of_fmap_2 snd) in Hx. rewrite Hh in Hx. apply elem_of_seqZ in Hx. simpl in Hx. lia. }
  splits; [done|lia| |].
  - intros a b i j x y Hab Ha Hb. pose proof (Hin _ _ (list_elem_of_lookup_2 _ _ _ Ha)). pose proof (Hin _ _ (list_elem_of_lookup_2 _ _ _ Hb)).
    destruct (slot_ok x Hok ltac:(lia)) as (Hp & ? & ? & ?). destruct (slot_ok y Hok ltac:(lia)) as (Hq & _ & _ & _).
    eexists _, _. splits; [exact Hp|exact Hq|lia|lia|done|]. destruct (stride_spec HN HA) as [Hs _].
    assert (x <> y) as Hxy; [|destruct (Z.lt_total x y) as [?|[?|?]]; [left; nia|lia|right; nia]].
    intros ->. apply Hab. assert (NoDup (handed s).*2) as Hd by (rewrite Hh; apply NoDup_seqZ).
    eapply (NoDup_lookup _ _ _ y Hd); rewrite list_lookup_fmap; [by rewrite Ha|by rewrite Hb].
  - intros i c Hi Hne. apply Hl in Hi. assert (c ∈ (handed s).*2) as Hc by (rewrite Hh; apply elem_of_seqZ; lia).
    apply list_elem_of_fmap in Hc as ([j c'] & -> & ?). by exists j.
Qed.

End Proofs.

(** The storage and the three threads of the example: the first two load the same
    index, the second takes it. *)
Definition sample_storage : BssStorage := {| NUM_UNITS := 2; STORAGE_SIZE := 16; as_mut_ptr := 4096 |}.

Lemma sample_storage_ok : @storage_ok 8 8 sample_storage.
Proof. split; vm_compute; done. Qed.

Lemma sample_run : exists s, @runs sample_storage 3 s /\ pcs s !! 0%nat = Some (Loaded 0) /\ handed s = [(1%nat, 0)].
Proof.
  eexists. split; [|split].
  - eapply (@runs_step sample_storage 3 1); [eapply (@runs_step sample_storage 3 1); [eapply (@runs_step sample_storage 3 0); [apply runs_start|]|]|].
    + by apply step_load.
    + by apply step_load.
    + by eapply step_swap.
  - done.
  - done.
Qed.

Lemma bump_slots_exclusive_witness : exists s, next_slot s <> 0 /\ pcs s !! 0%nat = Some (Loaded 0) /\
  exists j, (j, 0) ∈ handed s.
Proof.
  destruct sample_run as (s & Hrun & Hl & Hh).
  destruct (@bump_slots_exclusive 8 8 sample_storage 3 s sample_storage_ok Hrun) as (Hp & _ & _ & Hlost).
  assert (next_slot s <> 0) as Hne.
  { intros Heq. rewrite Hh, Heq in Hp. apply Permutation_length in Hp. discriminate. }
  exists s. split; [exact Hne|]. split; [exact Hl|]. exact (Hlost 0%nat 0 Hl Hne).
Defined.

End Bump.
