(* ===== verification/CString.v ===== *)
(** * Memory functions of the C library

    [libs/libc_string]: [memcpy], [memmove], [memset], [memcmp] and [strlen] on a memory of
    bytes.  [memcpy] copies words where it can, [memmove] chooses a direction; both are
    shown to be plain copies.  Debug assertions that fail are panics. *)

From S2P Require Import Prelude.
#[local] Open Scope Z_scope.

(** The contents of memory. *)
Definition Bytes : Type := Z → Z.

Module CString.

#[local] Notation C := (M Bytes Empty_set).

Definition load (p : Z) : C Z := m ← get; mret (m p).
Definition store (p v : Z) : C unit := modify (fun m a => if a =? p then v else m a).

Definition debug_assert (b : bool) : C unit := if b then mret tt else panic.

(** Little-endian [usize]. *)
Definition WORD_SIZE : Z := 4.

Definition load_word (p : Z) : C Z :=
  m ← get;
  mret (m p + 256 * m (p + 1) + 256 ^ 2 * m (p + 2) + 256 ^ 3 * m (p + 3)).

Definition store_word (p v : Z) : C unit :=
  modify (fun m a => if (p <=? a) && (a <? p + WORD_SIZE) then v / 256 ^ (a - p) mod 256 else m a).

(** [while i < len]. *)
Fixpoint copy_from (fuel : nat) (dst src i len : Z) : C unit :=
  match fuel with
  | O => panic
  | S fuel =>
    if i <? len then
      v ← load (src + i);
      store (dst + i) v;;
      copy_from fuel dst src (i + 1) len
    else mret tt
  end.

Definition copy_bytes (dst src len : Z) : C unit := copy_from (S (Z.to_nat len)) dst src 0 len.

Definition SMALL_COPY_THRESHOLD : Z := 16.

(** The loops of [memcpy]: up to a word boundary, then words. *)
Fixpoint align_loop (fuel : nat) (d s offset len : Z) : C Z :=
  match fuel with
  | O => panic
  | S fuel =>
    d_offset ← lift (usize_add d offset);
    if negb (Z.land d_offset (WORD_SIZE - 1) =? 0) && (offset <? len) then
      v ← load (s + offset);
      store (d + offset) v;;
      align_loop fuel d s (offset + 1) len
    else mret offset
  end.

Fixpoint word_loop (fuel : nat) (d s i len : Z) : C Z :=
  match fuel with
  | O => panic
  | S fuel =>
    past ← lift (usize_add i WORD_SIZE);
    if past <=? len then
      v ← load_word (s + i);
      store_word (d + i) v;;
      word_loop fuel d s (i + WORD_SIZE) len
    else mret i
  end.

(** [b >= a && b < a + len], which adds only when it has to. *)
Definition starts_within (b a len : Z) : C bool :=
  if a <=? b then past ← lift (usize_add a len); mret (b <? past) else mret false.

Definition overlapping (d s len : Z) : C bool :=
  x ← starts_within d s len;
  if (x : bool) then mret true else starts_within s d len.

Definition memcpy (dest src len : Z) : C Z :=
  debug_assert (negb (dest =? 0));;
  debug_assert (negb (src =? 0));;
  debug_assert (len <? isize_max);;
  (if 0 <? len then o ← overlapping dest src len; debug_assert (negb o) else mret tt);;
  if len =? 0 then mret dest
  else if len <? SMALL_COPY_THRESHOLD then copy_bytes dest src len;; mret dest
  else if negb (Z.land (Z.lxor src dest) (WORD_SIZE - 1) =? 0) then copy_bytes dest src len;; mret dest
  else
    offset ← align_loop (S (Z.to_nat len)) dest src 0 len;
    i ← word_loop (S (Z.to_nat len)) dest src offset len;
    (if i <? len then copy_bytes (dest + i) (src + i) (len - i) else mret tt);;
    mret dest.

(** [while i != 0] of [memmove]. *)
Fixpoint copy_backwards (n : nat) (d s : Z) : C unit :=
  match n with
  | O => mret tt
  | S i =>
    v ← load (s + Z.of_nat i);
    store (d + Z.of_nat i) v;;
    copy_backwards i d s
  end.

Definition memmove (dest src len : Z) : C Z :=
  debug_assert (negb (dest =? 0));;
  debug_assert (negb (src =? 0));;
  debug_assert (len <? isize_max);;
  if len =? 0 then mret dest
  else if dest =? src then mret dest
  else
    forward ← (if dest <? src then mret true else past ← lift (usize_add src len); mret (past <=? dest));
    (if (forward : bool) then copy_from (S (Z.to_nat len)) dest src 0 len else copy_backwards (Z.to_nat len) dest src);;
    mret dest.

Fixpoint fill_from (fuel : nat) (dst byte i len : Z) : C unit :=
  match fuel with
  | O => panic
  | S fuel => if i <? len then store (dst + i) byte;; fill_from fuel dst byte (i + 1) len else mret tt
  end.

Definition memset (ptr val len : Z) : C Z :=
  debug_assert (negb (ptr =? 0));;
  debug_assert (len <? isize_max);;
  fill_from (S (Z.to_nat len)) ptr (Z.land val 0xFF) 0 len;;
  mret ptr.

Fixpoint compare_from (fuel : nat) (a b i len : Z) : C Z :=
  match fuel with
  | O => panic
  | S fuel =>
    if i <? len then
      va ← load (a + i);
      vb ← load (b + i);
      if negb (va =? vb) then mret (va - vb) else compare_from fuel a b (i + 1) len
    else mret 0
  end.

Definition memcmp (ptr1 ptr2 len : Z) : C Z :=
  debug_assert (negb (ptr1 =? 0));;
  debug_assert (negb (ptr2 =? 0));;
  debug_assert (len <? isize_max);;
  compare_from (S (Z.to_nat len)) ptr1 ptr2 0 len.

(** [while *s.add(i) != 0]; the counter has 32 bits. *)
Fixpoint strlen_from (fuel : nat) (s i : Z) : C Z :=
  match fuel with
  | O => panic
  | S fuel =>
    v ← load (s + i);
    if v =? 0 then mret i
    else i ← lift (usize_add i 1); strlen_from fuel s i
  end.

Definition strlen (fuel : nat) (s : Z) : C Z :=
  debug_assert (negb (s =? 0));;
  debug_assert (s <? isize_max);;
  strlen_from fuel s 0.

(** ** Proofs *)

(** The memory with the first [n] bytes copied. *)
Definition copied (m : Bytes) (d s n : Z) : Bytes := fun a => if (d <=? a) && (a <? d + n) then m (s + (a - d)) else m a.

Definition same (m1 m2 : Bytes) : Prop := forall a, m1 a = m2 a.

Definition bytes (m : Bytes) : Prop := forall a, 0 <= m a < 256.

Lemma copied_step m d s i m1 : (d <= s \/ s + i < d) -> 0 <= i -> same m1 (copied m d s i) ->
  same (fun a => if a =? d + i then m1 (s + i) else m1 a) (copied m d s (i + 1)).
Proof.
  intros Hf Hi Hm a. rewrite !Hm. unfold copied.
  destruct (Z.eqb_spec a (d + i)) as [->|].
  - replace (s + (d + i - d)) with (s + i) by lia. zbool; simpl; try lia; done.
  - zbool; simpl; try lia; done.
Qed.

(** A copy that runs forwards, from the middle. *)
Lemma wp_forward_copy fuel m d s i len m1 (Q : res Empty_set unit → Bytes → Prop) :
  (d <= s \/ s + len <= d) -> 0 <= i <= len -> len - i < Z.of_nat fuel -> same m1 (copied m d s i) ->
  (forall m', same m' (copied m d s len) -> Q (Ok tt) m') -> wp (copy_from fuel d s i len) m1 Q.
Proof.
  revert i m1. induction fuel as [|fuel IH]; intros i m1 Hf Hi Hfuel Hm HQ; [lia|]. cbn [copy_from].
  destruct (Z.ltb_spec i len); wsteps; [|apply HQ; by replace len with i by lia].
  apply IH; try done; [lia|lia|]. apply copied_step; [lia|lia|done].
Qed.

Lemma copied_0 m d s : same m (copied m d s 0).
Proof. intros a. unfold copied. zbool; simpl; lia || done. Qed.

Lemma wp_copy_bytes m d s len (Q : res Empty_set unit → Bytes → Prop) : (d <= s \/ s + len <= d) -> 0 <= len ->
  (forall m', same m' (copied m d s len) -> Q (Ok tt) m') -> wp (copy_bytes d s len) m Q.
Proof. intros. apply (wp_forward_copy _ m); [done|lia|lia|apply copied_0|done]. Qed.

(** The copy of the tail after a prefix. *)
Lemma copied_app m d s i len m1 m2 : (d <= s \/ s + len <= d) -> 0 <= i <= len -> same m1 (copied m d s i) ->
  same m2 (copied m1 (d + i) (s + i) (len - i)) -> same m2 (copied m d s len).
Proof.
  intros Hf Hi H1 H2 a. rewrite H2. unfold copied at 1. rewrite !H1. unfold copied.
  replace (s + i + (a - (d + i))) with (s + (a - d)) by lia. zbool; simpl; try lia; done.
Qed.

Lemma wp_copy_backwards m d s n len m1 (Q : res Empty_set unit → Bytes → Prop) : s <= d -> Z.of_nat n <= len ->
  same m1 (fun a => if (d + Z.of_nat n <=? a) && (a <? d + len) then m (s + (a - d)) else m a) ->
  (forall m', same m' (copied m d s len) -> Q (Ok tt) m') -> wp (copy_backwards n d s) m1 Q.
Proof.
  revert m1. induction n as [|n IH]; intros m1 Hd Hn Hm HQ; cbn [copy_backwards]; wsteps.
  - apply HQ. intros a. rewrite Hm. unfold copied. by rewrite Z.add_0_r.
  - apply IH; [done|lia| |done]. intros a. rewrite !Hm. destruct (Z.eqb_spec a (d + Z.of_nat n)) as [->|].
    + replace (s + (d + Z.of_nat n - d)) with (s + Z.of_nat n) by lia. zbool; simpl; try lia; done.
    + zbool; simpl; try lia; done.
Qed.

(** The bytes of a word come back. *)
Lemma word_bytes b0 b1 b2 b3 k : 0 <= b0 < 256 -> 0 <= b1 < 256 -> 0 <= b2 < 256 -> 0 <= b3 < 256 -> 0 <= k < 4 ->
  (b0 + 256 * b1 + 256 ^ 2 * b2 + 256 ^ 3 * b3) / 256 ^ k mod 256 =
  if k =? 0 then b0 else if k =? 1 then b1 else if k =? 2 then b2 else b3.
Proof.
  intros. assert (k = 0 \/ k = 1 \/ k = 2 \/ k = 3) as [->|[->|[->| ->]]] by lia; simpl Z.eqb; cbv iota; Z.to_euclidean_division_equations; lia.
Qed.

Lemma copied_word m d s i m1 : (d + i + 4 <= s \/ s + i + 4 <= d) -> 0 <= i -> bytes m1 -> same m1 (copied m d s i) ->
  same (fun a => if (d + i <=? a) && (a <? d + i + WORD_SIZE)
                 then (m1 (s + i) + 256 * m1 (s + i + 1) + 256 ^ 2 * m1 (s + i + 2) + 256 ^ 3 * m1 (s + i + 3)) / 256 ^ (a - (d + i)) mod 256
                 else m1 a) (copied m d s (i + WORD_SIZE)).
Proof.
  intros Hf Hi Hb Hm a. unfold WORD_SIZE. destruct ((d + i <=? a) && (a <? d + i + 4)) eqn:Ha.
  - apply andb_prop in Ha as [Ha1%Z.leb_le Ha2%Z.ltb_lt]. rewrite word_bytes by (apply Hb || lia).
    unfold copied. rewrite (proj2 (Z.leb_le d a)), (proj2 (Z.ltb_lt a (d + (i + 4)))) by lia. simpl.
    assert (forall p, s + i <= p < s + i + 4 -> m1 p = m p) as Hr.
    { intros p Hp. rewrite Hm. unfold copied. destruct (Z.leb_spec d p), (Z.ltb_spec p (d + i)); simpl; try done. lia. }
    zbool; rewrite Hr by lia; f_equal; lia.
  - rewrite Hm. unfold copied. zbool; simpl in *; try lia; done.
Qed.

Lemma same_bytes m m' d s n : bytes m -> same m' (copied m d s n) -> bytes m'.
Proof. intros Hb Hm a. rewrite Hm. unfold copied. case_match; apply Hb. Qed.

Lemma wp_align_loop fuel m d s i len m1 (Q : res Empty_set Z → Bytes → Prop) :
  (d <= s \/ s + len <= d) -> d + len <= usize_max -> 0 <= i <= len -> len - i < Z.of_nat fuel -> same m1 (copied m d s i) ->
  (forall j m', 0 <= j <= len -> same m' (copied m d s j) -> Q (Ok j) m') -> wp (align_loop fuel d s i len) m1 Q.
Proof.
  revert i m1. induction fuel as [|fuel IH]; intros i m1 Hf Hu Hi Hfuel Hm HQ; [lia|]. cbn [align_loop]. do 2 wstep.
  rewrite usize_add_ok by lia. destruct (negb _ && (i <? len)) eqn:Hc; [|wstep; by apply HQ].
  apply andb_prop in Hc as [_ Hc%Z.ltb_lt]. wsteps. apply IH; try done; [lia|lia|]. apply copied_step; [lia|lia|done].
Qed.

Lemma wp_word_loop fuel m d s i len m1 (Q : res Empty_set Z → Bytes → Prop) :
  (d + len <= s \/ s + len <= d) -> len < isize_max -> bytes m -> 0 <= i <= len -> len - i < Z.of_nat fuel -> same m1 (copied m d s i) ->
  (forall j m', 0 <= j <= len -> same m' (copied m d s j) -> Q (Ok j) m') -> wp (word_loop fuel d s i len) m1 Q.
Proof.
  revert i m1. induction fuel as [|fuel IH]; intros i m1 Hf Hu Hb Hi Hfuel Hm HQ; [lia|]. cbn [word_loop]. do 2 wstep.
  rewrite usize_add_ok by (unfold WORD_SIZE; width). destruct (Z.leb_spec (i + WORD_SIZE) len); [|wstep; by apply HQ].
  unfold WORD_SIZE in *. wsteps. apply IH; try done; [lia|lia|]. apply copied_word; [lia|lia|by eapply same_bytes|done].
Qed.

Lemma wp_starts_within b a len m (Q : res Empty_set bool → Bytes → Prop) : a + len <= usize_max \/ b < a + len ->
  (forall r, (r = true <-> a <= b < a + len) -> Q (Ok r) m) -> (b < a + len -> a <= b -> Q Panic m) -> wp (starts_within b a len) m Q.
Proof.
  intros Hu HQ HP. unfold starts_within. destruct (Z.leb_spec a b); wsteps; [|apply HQ; split; [done|lia]].
  unfold usize_add. destruct (Z.leb_spec (a + len) usize_max); [wsteps; apply HQ; rewrite Z.ltb_lt; lia|apply HP; lia].
Qed.

(** Two ranges that share a byte. *)
Definition overlap (d s len : Z) : bool := (d <? s + len) && (s <? d + len).

Lemma wp_overlapping d s len m (Q : res Empty_set bool → Bytes → Prop) : 0 < len -> d + len <= 2 ^ 32 -> s + len <= 2 ^ 32 ->
  (overlap d s len = false -> Q (Ok false) m) -> (overlap d s len = true -> Q Panic m /\ Q (Ok true) m) -> wp (overlapping d s len) m Q.
Proof.
  intros Hl Hd Hs HQ HP. assert (overlap d s len = true <-> d < s + len /\ s < d + len) as Ho.
  { unfold overlap. by rewrite andb_true_iff, !Z.ltb_lt. }
  unfold overlapping. wstep. apply wp_starts_within; [width| |intros; apply HP, Ho; lia].
  intros [] Hr; [wstep; apply HP, Ho; lia|]. apply wp_starts_within; [width| |intros; apply HP, Ho; lia].
  intros [] Hr2; [apply HP, Ho; lia|]. apply HQ. destruct (overlap d s len); [|done].
  destruct (proj1 Ho eq_refl). destruct (Z.lt_ge_cases d s); [by destruct (proj2 Hr2 ltac:(lia))|by destruct (proj2 Hr ltac:(lia))].
Qed.

(** Copies with valid arguments. *)
Definition arguments_ok (d s len : Z) : Prop := 0 < d /\ 0 < s /\ 0 <= len < isize_max /\ d + len <= usize_max /\ s + len <= usize_max.

Lemma wp_debug_assert b m (Q : res Empty_set unit → Bytes → Prop) : b = true -> Q (Ok tt) m -> wp (debug_assert b) m Q.
Proof. by intros ->. Qed.

Lemma wp_memcpy_words m d s len (Q : res Empty_set Z → Bytes → Prop) : arguments_ok d s len -> (d + len <= s \/ s + len <= d) -> bytes m ->
  (forall m', same m' (copied m d s len) -> Q (Ok d) m') ->
  wp (offset ← align_loop (S (Z.to_nat len)) d s 0 len;
      i ← word_loop (S (Z.to_nat len)) d s offset len;
      (if i <? len then copy_bytes (d + i) (s + i) (len - i) else mret tt);;
      mret d) m Q.
Proof.
  intros (Hd & Hs & Hl & Hdl & Hsl) Hf Hb HQ. wstep.
  apply (wp_align_loop _ m); [lia|done|lia|lia|apply copied_0|]. intros j m1 Hj H1. wstep.
  apply (wp_word_loop _ m); [done|lia|done|lia|lia|done|]. intros k m2 Hk H2. wstep.
  destruct (Z.ltb_spec k len).
  - apply wp_copy_bytes; [lia|lia|]. intros m3 H3. wstep. apply HQ. eapply (copied_app m d s k); [lia|lia|done|done].
  - wsteps. apply HQ. by replace len with k by lia.
Qed.

(** C27: [memcpy] is a copy of bytes, on every path: short copies, copies between
    addresses that are not aligned alike, and copies by words with a head and a tail.  It
    writes no other byte, terminates, and panics only when the two ranges overlap. *)
Theorem memcpy_equiv m d s len : arguments_ok d s len -> bytes m ->
  if (0 <? len) && overlap d s len then (memcpy d s len m).1 = Panic
  else exists m', memcpy d s len m = (Ok d, m') /\ same m' (copied m d s len).
Proof.
  intros Ha Hb. pose proof Ha as (Hd & Hs & Hl & Hdl & Hsl).
  set (Post := fun (r : res Empty_set Z) m' => if (0 <? len) && overlap d s len then r = Panic else r = Ok d /\ same m' (copied m d s len)).
  assert (wp (memcpy d s len) m Post) as Hw.
  { unfold memcpy. wstep. apply wp_debug_assert; [zbool; lia || done|]. wstep. apply wp_debug_assert; [zbool; lia || done|].
    wstep. apply wp_debug_assert; [zbool; lia || done|]. wstep.
    destruct (Z.ltb_spec 0 len) as [Hpos|Hpos].
    2: { wsteps. rewrite (proj2 (Z.eqb_eq len 0)) by lia. wstep. unfold Post. simpl. split; [done|]. replace len with 0 by lia. apply copied_0. }
    assert (overlap d s len = false -> forall m', same m' (copied m d s len) -> Post (Ok d) m') as HP by (intros Ho m' Hm; unfold Post; by rewrite Ho).
    wstep. apply wp_overlapping; [done|width|width| |intros Ho; split; unfold Post; by rewrite Ho]. intros Ho. specialize (HP Ho).
    assert (d + len <= s \/ s + len <= d) as Hf by (unfold overlap in Ho; zbool; simpl in Ho; lia || done).
    apply wp_debug_assert; [done|]. rewrite (proj2 (Z.eqb_neq len 0)) by lia.
    destruct (len <? SMALL_COPY_THRESHOLD); [wstep; apply wp_copy_bytes; [lia|lia|]; intros m' Hm; wstep; by apply HP|].
    destruct (negb _); [wstep; apply wp_copy_bytes; [lia|lia|]; intros m' Hm; wstep; by apply HP|].
    by apply wp_memcpy_words. }
  unfold wp, Post in Hw. destruct (memcpy d s len m) as [r m']. simpl in *. destruct (_ && _); [done|]. destruct Hw as [-> Hw]. by exists m'.
Qed.

(** [memmove] copies correctly however the two ranges overlap. *)
Theorem memmove_equiv m d s len : arguments_ok d s len ->
  exists m', memmove d s len m = (Ok d, m') /\ same m' (copied m d s len).
Proof.
  intros (Hd & Hs & Hl & Hdl & Hsl).
  assert (wp (memmove d s len) m (fun r m' => r = Ok d /\ same m' (copied m d s len))) as Hw.
  { unfold memmove. wstep. apply wp_debug_assert; [zbool; lia || done|]. wstep. apply wp_debug_assert; [zbool; lia || done|].
    wstep. apply wp_debug_assert; [zbool; lia || done|].
    destruct (Z.eqb_spec len 0) as [->|]; [wstep; split; [done|apply copied_0]|].
    destruct (Z.eqb_spec d s) as [->|]; [wstep; split; [done|]; intros a; unfold copied; case_match; f_equal; lia|].
    assert (forall (fwd : bool), (if fwd then d <= s \/ s + len <= d else s <= d) ->
      wp ((if fwd then copy_from (S (Z.to_nat len)) d s 0 len else copy_backwards (Z.to_nat len) d s);; mret d) m
        (fun r m' => r = Ok d /\ same m' (copied m d s len))) as Hgo.
    { intros [] Hf; wstep; [apply (wp_forward_copy _ m); [done|lia|lia|apply copied_0|]|apply (wp_copy_backwards m _ _ _ len); [done|lia| |]];
        try (intros m' Hm; by wstep). intros a. rewrite Z2Nat.id by lia. zbool; simpl; lia || done. }
    wstep. destruct (Z.ltb_spec d s); wstep; [apply (Hgo true); lia|]. wstep. rewrite usize_add_ok by lia. wstep.
    apply (Hgo (s + len <=? d)). zbool; lia. }
  unfold wp in Hw. destruct (memmove d s len m) as [r m']. simpl in Hw. destruct Hw as [-> Hw]. by exists m'.
Qed.

Lemma wp_fill_from fuel m d b i len m1 (Q : res Empty_set unit → Bytes → Prop) :
  0 <= i <= len -> len - i < Z.of_nat fuel -> same m1 (fun a => if (d <=? a) && (a <? d + i) then b else m a) ->
  (forall m', same m' (fun a => if (d <=? a) && (a <? d + len) then b else m a) -> Q (Ok tt) m') -> wp (fill_from fuel d b i len) m1 Q.
Proof.
  revert i m1. induction fuel as [|fuel IH]; intros i m1 Hi Hfuel Hm HQ; [lia|]. cbn [fill_from].
  destruct (Z.ltb_spec i len); wsteps; [|apply HQ; by replace len with i by lia].
  apply IH; [lia|lia| |done]. intros a. simpl. rewrite !Hm. zbool; simpl; lia || done.
Qed.

(** [memset] fills the range with the low byte of the value. *)
Lemma memset_spec m p val len : 0 < p -> 0 <= len < isize_max ->
  exists m', memset p val len m = (Ok p, m') /\ same m' (fun a => if (p <=? a) && (a <? p + len) then val mod 256 else m a).
Proof.
  intros Hp Hl. assert (wp (memset p val len) m (fun r m' => r = Ok p /\ same m' (fun a => if (p <=? a) && (a <? p + len) then val mod 256 else m a))) as Hw.
  { unfold memset. wstep. apply wp_debug_assert; [zbool; lia || done|]. wstep. apply wp_debug_assert; [zbool; lia || done|]. wstep.
    change 255 with (Z.ones 8). rewrite Z.land_ones by lia. apply (wp_fill_from _ m); [lia|lia| |].
    - intros a. zbool; simpl; lia || done.
    - intros m' Hm. by wstep. }
  unfold wp in Hw. destruct (memset p val len m) as [r m']. simpl in Hw. destruct Hw as [-> Hw]. by exists m'.
Qed.

(** The difference of the first bytes that differ, or 0. *)
Definition difference (m : Bytes) (p q len r : Z) : Prop :=
  (r = 0 /\ forall i, 0 <= i < len -> m (p + i) = m (q + i)) \/
  exists i, 0 <= i < len /\ (forall j, 0 <= j < i -> m (p + j) = m (q + j)) /\ m (p + i) <> m (q + i) /\ r = m (p + i) - m (q + i).

Lemma wp_compare_from fuel m p q i len : 0 <= i <= len -> len - i < Z.of_nat fuel -> (forall j, 0 <= j < i -> m (p + j) = m (q + j)) ->
  wp (compare_from fuel p q i len) m (fun r m' => m' = m /\ exists x, r = Ok x /\ difference m p q len x).
Proof.
  revert i. induction fuel as [|fuel IH]; intros i Hi Hf Hj; [lia|]. cbn [compare_from]. destruct (Z.ltb_spec i len).
  - unfold load. do 8 wstep. destruct (Z.eqb_spec (m (p + i)) (m (q + i))) as [He|He]; simpl.
    + apply IH; [lia|lia|]. intros j Hlt. destruct (Z.eq_dec j i) as [->|]; [done|]. apply Hj. lia.
    + split; [done|]. eexists. split; [done|]. right. exists i. split; [lia|done].
  - split; [done|]. exists 0. split; [done|]. left. split; [done|]. intros j Hlt. apply Hj. lia.
Qed.

Lemma memcmp_spec m p q len : 0 < p -> 0 < q -> 0 <= len < isize_max ->
  exists r, memcmp p q len m = (Ok r, m) /\ difference m p q len r.
Proof.
  intros Hp Hq Hl. assert (wp (memcmp p q len) m (fun r m' => m' = m /\ exists x, r = Ok x /\ difference m p q len x)) as Hw.
  { unfold memcmp. do 3 (wstep; apply wp_debug_assert; [zbool; lia || done|]). apply wp_compare_from; lia. }
  unfold wp in Hw. destruct (memcmp p q len m) as [r m']. simpl in Hw. destruct Hw as (-> & x & -> & Hx). by exists x.
Qed.



#[local] Definition ramp : Bytes := fun a => a mod 256.

(** 21 bytes, of which four words are aligned. *)
Lemma memcpy_equiv_witness : exists m', memcpy 1001 2001 21 ramp = (Ok 1001, m') /\ same m' (copied ramp 1001 2001 21).
Proof.
  exact (memcpy_equiv ramp 1001 2001 21 ltac:(unfold arguments_ok; width) (fun a => Z.mod_pos_bound a 256 eq_refl)).
Defined.

(** A range is moved up by two bytes. *)
Lemma memmove_equiv_witness : exists m', memmove 1002 1000 8 ramp = (Ok 1002, m') /\ same m' (copied ramp 1002 1000 8).
Proof. apply (memmove_equiv ramp 1002 1000 8). unfold arguments_ok. width. Defined.
End CString.
