(* ===== verification/LruCache.v ===== *)
(** * A bounded cache

    [libs/cache]: a map from keys to values with a capacity, in which every entry carries
    the value that a counter had when the entry was used last.  A full cache evicts the
    entry with the smallest counter.  The file shows that this is a list of entries in
    the order of their last use. *)

From stdpp Require Import sorting.
From S2P Require Import Prelude.
#[local] Open Scope Z_scope.

Definition u64_max : Z := 2 ^ 64 - 1.

Record CacheEntry (V : Type) := mkCacheEntry { value : V; last_used : Z }.
Arguments mkCacheEntry {V} _ _.
Arguments value {V} _.
Arguments last_used {V} _.

Record Cache (K V : Type) `{Countable K} := mkCache {
  entries : gmap K (CacheEntry V);
  counter : Z;
  capacity : nat
}.
Arguments mkCache {K V _ _} _ _ _.
Arguments entries {K V _ _} _.
Arguments counter {K V _ _} _.
Arguments capacity {K V _ _} _.

Module LruCache.

Section Definitions.
Context {K V : Type} `{Countable K}.

Definition new (capacity : nat) : Cache K V := mkCache ∅ 0 capacity.

Definition with_entries (m : gmap K (CacheEntry V)) (c : Cache K V) : Cache K V := mkCache m (counter c) (capacity c).

(** [self.counter += 1]. *)
Definition tick : M (Cache K V) Empty_set Z :=
  c ← get;
  if counter c <? u64_max then
    put (mkCache (entries c) (counter c + 1) (capacity c));;
    mret (counter c + 1)
  else panic.

(** [get], and what the caller writes through the guard: [write] of the value. *)
Definition get_mut (key : K) (write : V → V) : M (Cache K V) Empty_set (option V) :=
  c ← get;
  match entries c !! key with
  | Some entry =>
    now ← tick;
    modify (fun c => with_entries (<[key := mkCacheEntry (write (value entry)) now]> (entries c)) c);;
    mret (Some (value entry))
  | None => mret None
  end.

(** [Iterator::min_by_key]: the first of the smallest. *)
Fixpoint min_by_key {A} (f : A → Z) (l : list A) : option A :=
  match l with
  | [] => None
  | x :: l =>
    match min_by_key f l with
    | Some y => if f y <? f x then Some y else Some x
    | None => Some x
    end
  end.

Definition evict : M (Cache K V) Empty_set unit :=
  c ← get;
  match min_by_key (fun p => last_used p.2) (map_to_list (entries c)) with
  | Some (key, _) => put (with_entries (delete key (entries c)) c)
  | None => mret tt
  end.

Definition insert (key : K) (v : V) : M (Cache K V) Empty_set unit :=
  c ← get;
  if Nat.eqb (capacity c) 0 then mret tt
  else
    match entries c !! key with
    | Some _ =>
      now ← tick;
      modify (fun c => with_entries (<[key := mkCacheEntry v now]> (entries c)) c)
    | None =>
      (if Nat.leb (capacity c) (size (entries c)) then evict else mret tt);;
      now ← tick;
      modify (fun c => with_entries (<[key := mkCacheEntry v now]> (entries c)) c)
    end.

Definition remove (key : K) : M (Cache K V) Empty_set unit :=
  modify (fun c => with_entries (delete key (entries c)) c).

Definition clear : M (Cache K V) Empty_set unit :=
  modify (fun c => mkCache ∅ 0 (capacity c)).

(** ** The contract: a list of entries, the one used last first. *)

Inductive Op := Get (key : K) (write : V → V) | Put (key : K) (v : V) | Remove (key : K) | Clear.

Definition call (o : Op) : M (Cache K V) Empty_set (option V) :=
  match o with
  | Get key write => get_mut key write
  | Put key v => insert key v;; mret None
  | Remove key => remove key;; mret None
  | Clear => clear;; mret None
  end.

Fixpoint calls (os : list Op) : M (Cache K V) Empty_set (list (option V)) :=
  match os with
  | [] => mret []
  | o :: os => a ← call o; l ← calls os; mret (a :: l)
  end.

Fixpoint lookup_key (key : K) (l : list (K * V)) : option V :=
  match l with
  | [] => None
  | (k, v) :: l => if decide (k = key) then Some v else lookup_key key l
  end.

Definition drop_key (key : K) (l : list (K * V)) : list (K * V) := filter (fun p => p.1 <> key) l.

Definition spec_call (cap : nat) (o : Op) (l : list (K * V)) : option V * list (K * V) :=
  match o with
  | Get key write =>
    match lookup_key key l with
    | Some v => (Some v, (key, write v) :: drop_key key l)
    | None => (None, l)
    end
  | Put key v => (None, take cap ((key, v) :: drop_key key l))
  | Remove key => (None, drop_key key l)
  | Clear => (None, [])
  end.

Fixpoint spec_calls (cap : nat) (os : list Op) (l : list (K * V)) : list (option V) :=
  match os with
  | [] => []
  | o :: os => let '(a, l) := spec_call cap o l in a :: spec_calls cap os l
  end.

End Definitions.

(** ** Proofs *)

Section Proofs.
Context {K V : Type} `{Countable K}.
Implicit Types (c : Cache K V) (l : list (K * V)) (le : list (K * CacheEntry V)).

Definition newer (a b : K * CacheEntry V) : Prop := last_used b.2 < last_used a.2.
Definition forget (a : K * CacheEntry V) : K * V := (a.1, value a.2).

(** The entries of a cache in the order of their last use. *)
Record ordered c le : Prop := {
  or_entries : le ≡ₚ map_to_list (entries c);
  or_sorted : StronglySorted newer le;
  or_counter a : a ∈ le -> last_used a.2 <= counter c;
  or_capacity : (length le <= capacity c)%nat;
  or_nonneg : 0 <= counter c
}.

Lemma ordered_nodup c le : ordered c le -> NoDup le.*1.
Proof. intros Ho. rewrite (or_entries _ _ Ho). apply NoDup_fst_map_to_list. Qed.

Lemma sorted_filter (P : K * CacheEntry V → Prop) `{!∀ x, Decision (P x)} le : StronglySorted newer le -> StronglySorted newer (filter P le).
Proof.
  induction 1 as [|a le Hs IH Hall]; [constructor|]. rewrite filter_cons. case_decide; [|done].
  constructor; [done|]. rewrite Forall_forall in *. intros x [_ Hx]%list_elem_of_filter. by apply Hall.
Qed.

Lemma filter_all {A} (P : A → Prop) `{!∀ x, Decision (P x)} (xs : list A) : (forall x, x ∈ xs -> P x) -> filter P xs = xs.
Proof.
  induction xs as [|x xs IH]; intros Hx; [done|]. rewrite filter_cons_True by set_solver. f_equal. apply IH. set_solver.
Qed.

(** Taking out a key. *)
Definition without (key : K) le : list (K * CacheEntry V) := filter (fun p => p.1 <> key) le.

Lemma forget_without key le : forget <$> without key le = drop_key key (forget <$> le).
Proof.
  unfold without, drop_key. induction le as [|[k e] le IH]; [done|]. rewrite fmap_cons, !filter_cons.
  do 2 case_decide; simpl in *; try done. by f_equal.
Qed.

Lemma without_perm key le c : le ≡ₚ map_to_list (entries c) -> without key le ≡ₚ map_to_list (delete key (entries c)).
Proof.
  intros Hp. apply NoDup_Permutation; [|apply NoDup_map_to_list|].
  - apply NoDup_filter. rewrite Hp. apply NoDup_map_to_list.
  - intros [k e]. unfold without. rewrite list_elem_of_filter, Hp, !elem_of_map_to_list, lookup_delete_Some. simpl. naive_solver.
Qed.

Lemma ordered_without key c le : ordered c le -> ordered (with_entries (delete key (entries c)) c) (without key le).
Proof.
  intros [Hp Hs Hc Hl Hn]. split; simpl; [| | | |done].
  - by apply without_perm.
  - by apply sorted_filter.
  - intros a [_ Ha]%list_elem_of_filter. by apply Hc.
  - pose proof (length_filter (fun p : K * CacheEntry V => p.1 <> key) le). unfold without. lia.
Qed.

(** Putting an entry in front, which the counter makes the newest. *)
Lemma ordered_cons key v c le : ordered c le -> (length (without key le) < capacity c)%nat ->
  ordered (mkCache (<[key := mkCacheEntry v (counter c + 1)]> (entries c)) (counter c + 1) (capacity c))
    ((key, mkCacheEntry v (counter c + 1)) :: without key le).
Proof.
  intros Ho Hlen. destruct (ordered_without key c le Ho) as [Hp Hs Hc Hl Hn]. simpl in *. split; simpl; [| | | |lia].
  - rewrite <- insert_delete_eq, map_to_list_insert by apply lookup_delete_eq. by rewrite Hp.
  - constructor; [done|]. apply Forall_forall. intros a Ha. unfold newer. simpl. specialize (Hc a Ha). lia.
  - intros a [->|Ha]%elem_of_cons; simpl; [lia|]. specialize (Hc a Ha). lia.
  - lia.
Qed.

Lemma lookup_forget key c le : ordered c le -> lookup_key key (forget <$> le) = value <$> entries c !! key.
Proof.
  intros Ho. pose proof (ordered_nodup _ _ Ho) as Hn. destruct Ho as [Hp _ _ _ _].
  assert (forall e, (key, e) ∈ le <-> entries c !! key = Some e) as Hle by (intros e; by rewrite Hp, elem_of_map_to_list).
  clear Hp. destruct (entries c !! key) as [e|].
  - specialize (proj2 (Hle e) eq_refl) as Hin. clear Hle. induction le as [|[k e'] le IH]; [by apply not_elem_of_nil in Hin|].
    simpl in *. apply NoDup_cons in Hn as [Hk Hn]. case_decide as Hd.
    + subst k. apply elem_of_cons in Hin as [[= ->]|Hin]; [done|]. destruct Hk. apply list_elem_of_fmap. by exists (key, e).
    + apply IH; [done|]. apply elem_of_cons in Hin as [[= -> ->]|Hin]; [done|done].
  - assert (forall e, (key, e) ∉ le) as Hno by (intros e He; by apply Hle in He). clear Hle Hn.
    induction le as [|[k e'] le IH]; [done|]. simpl. case_decide as Hd.
    + subst k. destruct (Hno e'). left.
    + apply IH. intros e He. apply (Hno e). by right.
Qed.

Lemma min_by_key_spec {A} (f : A → Z) (xs : list A) :
  match min_by_key f xs with
  | Some y => y ∈ xs /\ forall z, z ∈ xs -> f y <= f z
  | None => xs = []
  end.
Proof.
  induction xs as [|x xs IH]; [done|]. cbn [min_by_key]. destruct (min_by_key f xs) as [y|].
  - destruct IH as [Hy Hz]. destruct (Z.ltb_spec (f y) (f x)); (split; [set_solver|]); intros z [->|Hin]%elem_of_cons; try lia; specialize (Hz z Hin); lia.
  - subst. split; [set_solver|]. intros z ->%list_elem_of_singleton. done.
Qed.

(** The victim is the entry used least recently. *)
Lemma wp_evict c le a (Q : res Empty_set unit → Cache K V → Prop) : ordered c (le ++ [a]) ->
  (forall c', ordered c' le -> counter c' = counter c -> capacity c' = capacity c -> entries c' !! a.1 = None ->
     (forall k, entries c !! k = None -> entries c' !! k = None) -> Q (Ok tt) c') ->
  wp evict c Q.
Proof.
  intros Ho HQ. pose proof (ordered_nodup _ _ Ho) as Hn. pose proof (ordered_without a.1 _ _ Ho) as Hw.
  assert (without a.1 (le ++ [a]) = le) as Hle.
  { unfold without. rewrite filter_app, filter_cons_False, app_nil_r by tauto. rewrite fmap_app, NoDup_app in Hn. destruct Hn as (_ & Hd & _).
    apply filter_all. intros x Hx Heq. apply (Hd x.1); [by apply list_elem_of_fmap_2|]. rewrite Heq. set_solver. }
  unfold evict. do 2 wstep. pose proof (min_by_key_spec (fun p => last_used p.2) (map_to_list (entries c))) as Hmin.
  destruct (min_by_key _ _) as [b|].
  2: { pose proof (or_entries _ _ Ho) as Hp. rewrite Hmin in Hp. apply Permutation_nil_r in Hp. by destruct le. }
  destruct Hmin as [Hb Hmin]. setoid_rewrite <- (or_entries _ _ Ho) in Hb. setoid_rewrite <- (or_entries _ _ Ho) in Hmin.
  assert (b = a) as ->.
  { apply elem_of_app in Hb as [Hb|Hb%list_elem_of_singleton]; [|done]. specialize (Hmin a ltac:(set_solver)).
    pose proof (or_sorted _ _ Ho) as Hs. apply StronglySorted_app in Hs as (Hs & _ & _). specialize (Hs b a Hb ltac:(left)). unfold newer in Hs. lia. }
  rewrite Hle in Hw. destruct a as [k e]. wstep. apply HQ; try done; [apply lookup_delete_eq|].
  intros k' Hk'. simpl. rewrite lookup_delete_None. by right.
Qed.

Definition with_counter (n : Z) c : Cache K V := mkCache (entries c) n (capacity c).

Lemma wp_tick c (Q : res Empty_set Z → Cache K V → Prop) : counter c < u64_max ->
  Q (Ok (counter c + 1)) (with_counter (counter c + 1) c) -> wp tick c Q.
Proof. intros Hc HQ. unfold tick. do 2 wstep. rewrite (proj2 (Z.ltb_lt _ _) Hc). by wsteps. Qed.

Lemma without_absent key c le : ordered c le -> entries c !! key = None -> without key le = le.
Proof.
  intros Ho Hk. apply filter_all. intros [k e] Hx Heq. simpl in Heq. subst k.
  rewrite (or_entries _ _ Ho), elem_of_map_to_list in Hx. congruence.
Qed.

Lemma without_present key c le e : ordered c le -> entries c !! key = Some e -> (length (without key le) < length le)%nat.
Proof.
  intros Ho Hk. apply length_filter_lt with (key, e); [|by simpl; intros ?].
  by rewrite (or_entries _ _ Ho), elem_of_map_to_list.
Qed.

Lemma wp_cache_insert key v c le (Q : res Empty_set unit → Cache K V → Prop) : ordered c le -> counter c < u64_max ->
  (forall c' le', ordered c' le' -> forget <$> le' = (spec_call (capacity c) (Put key v) (forget <$> le)).2 ->
     capacity c' = capacity c -> counter c' <= counter c + 1 -> Q (Ok tt) c') ->
  wp (insert key v) c Q.
Proof.
  intros Ho Hc HQ. cbn [spec_call snd] in HQ. pose proof (or_capacity _ _ Ho) as Hcap. unfold insert. do 2 wstep.
  destruct (Nat.eqb_spec (capacity c) 0) as [H0|H0].
  { wstep. apply (HQ c le); try done; [|lia]. rewrite H0 in *. by destruct le; [|simpl in Hcap; lia]. }
  assert (forall c1 le1, ordered c1 le1 -> counter c1 = counter c -> capacity c1 = capacity c -> (length (without key le1) < capacity c)%nat ->
    forget <$> without key le1 = take (capacity c - 1) (drop_key key (forget <$> le)) ->
    wp (now ← tick; modify (fun c => with_entries (<[key := mkCacheEntry v now]> (entries c)) c)) c1 Q) as Hgo.
  { intros c1 le1 Ho1 Hc1 Hcap1 Hl1 Hf. wstep. apply wp_tick; [lia|]. wstep.
    apply (HQ _ ((key, mkCacheEntry v (counter c1 + 1)) :: without key le1)); [apply (ordered_cons key v c1 le1); [done|lia]| |done|simpl; lia].
    rewrite fmap_cons, Hf. destruct (capacity c) as [|n]; [done|]. simpl. by rewrite Nat.sub_0_r. }
  destruct (entries c !! key) as [e|] eqn:He.
  - apply (Hgo c le); try done; [pose proof (without_present _ _ _ _ Ho He); lia|].
    rewrite forget_without, take_ge; [done|]. rewrite <- forget_without, length_fmap. pose proof (without_present _ _ _ _ Ho He). lia.
  - pose proof (without_absent _ _ _ Ho He) as Hw. assert (length le = size (entries c)) as Hsz by by rewrite (or_entries _ _ Ho), length_map_to_list.
    destruct (Nat.leb_spec (capacity c) (size (entries c))) as [Hfull|Hfull].
    + destruct (exists_last (l:=le)) as (le' & a & ->); [intros ->; simpl in *; lia|].
      wstep. eapply wp_evict; [done|]. intros c1 Ho1 Hc1 Hcap1 _ Hk1. pose proof (without_absent _ _ _ Ho1 (Hk1 _ He)) as Hw1. rewrite length_app in *. simpl in *.
      apply (Hgo c1 le'); try done; [rewrite Hw1; lia|]. rewrite <- forget_without, Hw, Hw1, fmap_app, take_app_length'; [done|]. rewrite length_fmap. lia.
    + do 2 wstep. apply (Hgo c le); try done; [rewrite Hw; lia|]. rewrite <- forget_without, Hw, take_ge; [done|]. rewrite length_fmap. lia.
Qed.

Lemma wp_get_mut key write c le (Q : res Empty_set (option V) → Cache K V → Prop) : ordered c le -> counter c < u64_max ->
  (forall c' le', ordered c' le' -> forget <$> le' = (spec_call (capacity c) (Get key write) (forget <$> le)).2 ->
     capacity c' = capacity c -> counter c' <= counter c + 1 -> Q (Ok (spec_call (capacity c) (Get key write) (forget <$> le)).1) c') ->
  wp (get_mut key write) c Q.
Proof.
  intros Ho Hc HQ. cbn [spec_call] in HQ. rewrite (lookup_forget _ _ _ Ho) in HQ. unfold get_mut. do 2 wstep.
  destruct (entries c !! key) as [e|] eqn:He; cbn in HQ.
  - wstep. apply wp_tick; [done|]. do 3 wstep.
    apply (HQ _ ((key, mkCacheEntry (write (value e)) (counter c + 1)) :: without key le)); [|by rewrite fmap_cons, forget_without|done|simpl; lia].
    apply (ordered_cons key _ c le Ho). pose proof (without_present _ _ _ _ Ho He). pose proof (or_capacity _ _ Ho). lia.
  - wstep. apply (HQ c le); try done. lia.
Qed.

Lemma wp_cache_call o c le (Q : res Empty_set (option V) → Cache K V → Prop) : ordered c le -> counter c < u64_max ->
  (forall c' le', ordered c' le' -> forget <$> le' = (spec_call (capacity c) o (forget <$> le)).2 ->
     capacity c' = capacity c -> counter c' <= counter c + 1 -> Q (Ok (spec_call (capacity c) o (forget <$> le)).1) c') ->
  wp (call o) c Q.
Proof.
  intros Ho Hc HQ. pose proof (or_nonneg _ _ Ho). destruct o as [key write|key v|key|]; cbn [call].
  - by apply (wp_get_mut _ _ _ le).
  - wstep. apply (wp_cache_insert _ _ _ le); [done|done|]. intros. wstep. by eapply HQ.
  - unfold remove. wsteps. apply (HQ _ (without key le)); [by apply ordered_without|apply forget_without|done|simpl; lia].
  - unfold clear. wsteps. apply (HQ _ []); try done; [|simpl; lia]. split; simpl; [by rewrite map_to_list_empty|constructor|set_solver|lia|lia].
Qed.

(** C29: a cache answers every sequence of fewer than [2 ^ 64] calls as a list of entries
    ordered by their last use does, which puts a new entry in front, forgets the entries
    beyond the capacity and moves an entry to the front when it is read or written. *)
Theorem cache_refines cap (os : list (Op (K:=K) (V:=V))) : Z.of_nat (length os) <= u64_max ->
  (calls os (new cap)).1 = Ok (spec_calls cap os []).
Proof.
  intros Hlen. assert (forall os c le, ordered c le -> capacity c = cap -> counter c + Z.of_nat (length os) <= u64_max ->
    wp (calls os) c (fun r _ => r = Ok (spec_calls cap os (forget <$> le)))) as Hgo.
  { clear. induction os as [|o os IH]; intros c le Ho Hcap Hc; cbn [calls spec_calls]; [by wstep|]. simpl in Hc.
    wstep. apply (wp_cache_call o c le); [done|lia|]. intros c' le' Ho' Hf Hcap' Hc'. rewrite Hcap in Hf, Hcap' |- *.
    destruct (spec_call cap o (forget <$> le)) as [a l]. simpl in Hf. subst l. wstep.
    eapply wp_mono; [apply (IH c' le')|]; try done; [lia|]. by intros r s' ->. }
  apply (Hgo os (new cap) []); try done. split; simpl; [by rewrite map_to_list_empty|constructor|set_solver|lia|lia].
Qed.
End Proofs.

(** The example of the source. *)
Lemma cache_refines_witness :
  (calls [Put 1 10; Put 2 20; Get 1 id; Put 3 30; Get 2 id; Get 3 id] (new 2)).1 = Ok [None; None; Some 10; None; None; Some 30].
Proof. exact (cache_refines 2 [Put 1 10; Put 2 20; Get 1 id; Put 3 30; Get 2 id; Get 3 id] ltac:(unfold u64_max; simpl; lia)). Defined.
End LruCache.
