(* ===== verification/SortedVec.v ===== *)
(** * Sorted vectors

    [libs/sorted-vec]: a set of values kept in a sorted vector and searched by bisection.
    The values are ordered by a key; two values with the same key are equal in the sense
    of Rust's [Ord], and at most one of them is in the vector.

    The file shows that the bisection of the Rust library finds what a linear search
    finds, and that a sorted vector is a finite map from keys to values. *)

From stdpp Require Import gmap sorting.
From Equations Require Import Equations.
From S2P Require Import Prelude.

(** A total order, as Rust's [Ord] demands it of keys. *)
Class Ord (K : Type) := {
  cmp : K → K → comparison;
  cmp_eq x y : cmp x y = Eq <-> x = y;
  cmp_sym x y : cmp y x = CompOpp (cmp x y);
  cmp_trans x y z : cmp x y = Lt -> cmp y z = Lt -> cmp x z = Lt
}.

#[export] Program Instance Z_Ord : Ord Z := { cmp := Z.compare }.
Next Obligation. intros. apply Z.compare_eq_iff. Qed.
Next Obligation. intros. apply Z.compare_antisym. Qed.
Next Obligation. intros x y z. rewrite !Z.compare_lt_iff. apply Z.lt_trans. Qed.

Module SortedVec.

Section Definitions.
Context {T : Type}.

(** [slice::binary_search_by] of the Rust library.  [base..base + size] is the part that
    may hold what is looked for; reading past the end would be undefined. *)
Equations bisect (f : T → comparison) (l : list T) (base size : nat) : option nat by wf size lt :=
  bisect f l base 0 := Some base;
  bisect f l base 1 := Some base;
  bisect f l base size :=
    match l !! (base + Nat.div2 size)%nat with
    | Some x =>
      bisect f l (match f x with Gt => base | _ => (base + Nat.div2 size)%nat end) (size - Nat.div2 size)
    | None => None
    end.
Next Obligation. intros f l base n _ size _. unfold size. change (Nat.div2 (S (S n))) with (S (Nat.div2 n)). generalize (Nat.div2 n). lia. Qed.

Definition binary_search_by (f : T → comparison) (l : list T) : res nat nat :=
  if Nat.eqb (length l) 0 then Err 0%nat
  else
    match bisect f l 0 (length l) with
    | None => Panic
    | Some base =>
      match l !! base with
      | None => Panic
      | Some x => match f x with Eq => Ok base | Lt => Err (S base) | Gt => Err base end
      end
    end.

Context {K : Type} {OK : Ord K} (key : T → K).

Definition binary_search_by_key (k : K) (l : list T) : res nat nat :=
  binary_search_by (fun x => cmp (key x) k) l.

Definition new : list T := [].

(** [Vec::insert] and [Vec::remove]. *)
Definition vec_insert (i : nat) (x : T) (l : list T) : list T := take i l ++ x :: drop i l.
Definition vec_remove (i : nat) (l : list T) : list T := take i l ++ drop (S i) l.

Definition insert {E} (value : T) : M (list T) E (option T) :=
  l ← get;
  match binary_search_by_key (key value) l with
  | Ok index =>
    match l !! index with
    | Some old => put (<[index := value]> l);; mret (Some old)
    | None => panic
    end
  | Err index => put (vec_insert index value l);; mret None
  | Panic => panic
  end.

(** [remove], and [remove_by] of a key. *)
Definition remove_by {E} (k : K) : M (list T) E (option T) :=
  l ← get;
  match binary_search_by_key k l with
  | Ok index =>
    match l !! index with
    | Some old => put (vec_remove index l);; mret (Some old)
    | None => panic
    end
  | Err _ => mret None
  | Panic => panic
  end.

Definition remove {E} (value : T) : M (list T) E (option T) := remove_by (key value).

(** [get], and [lookup_by] of a key. *)
Definition lookup_by {E} (k : K) (l : list T) : res E (option T) :=
  match binary_search_by_key k l with
  | Ok index => match l !! index with Some x => Ok (Some x) | None => Panic end
  | Err _ => Ok None
  | Panic => Panic
  end.

Definition contains {E} (value : T) (l : list T) : res E bool :=
  match binary_search_by_key (key value) l with
  | Ok _ => Ok true
  | Err _ => Ok false
  | Panic => Panic
  end.

(** [From<Vec<T>>]: [Vec::sort_unstable], of which only its contract is used, then
    [Vec::dedup], which keeps the first of equal neighbours. *)
Fixpoint dedup_from (x : T) (l : list T) : list T :=
  match l with
  | [] => [x]
  | y :: l => match cmp (key x) (key y) with Eq => dedup_from x l | _ => x :: dedup_from y l end
  end.

Definition from (sort_unstable : list T → list T) (vec : list T) : list T :=
  match sort_unstable vec with
  | [] => []
  | x :: l => dedup_from x l
  end.

Definition first (l : list T) : option T := head l.
Definition last (l : list T) : option T := list.last l.

End Definitions.

(** ** Proofs *)

Section Proofs.
Context {T K : Type} {OK : Ord K} {key : T → K}.
Implicit Types (l : list T) (k : K) (x : T).

Definition below (x y : T) : Prop := cmp (key x) (key y) = Lt.

(** The invariant: the keys increase. *)
Definition sorted l : Prop := forall i j x y, (i < j)%nat -> l !! i = Some x -> l !! j = Some y -> below x y.

Lemma cmp_refl k : cmp k k = Eq.
Proof. by apply cmp_eq. Qed.

Lemma cmp_gt (a b : K) : cmp a b = Gt <-> cmp b a = Lt.
Proof. rewrite (cmp_sym a b). destruct (cmp a b); simpl; split; congruence. Qed.

Lemma sorted_key l i j x y : sorted l -> l !! i = Some x -> l !! j = Some y -> key x = key y -> i = j.
Proof.
  intros Hs Hi Hj He. destruct (Nat.lt_total i j) as [Hl|[->|Hl]]; [|done|].
  - pose proof (Hs _ _ _ _ Hl Hi Hj) as Hb. unfold below in Hb. by rewrite He, cmp_refl in Hb.
  - pose proof (Hs _ _ _ _ Hl Hj Hi) as Hb. unfold below in Hb. by rewrite He, cmp_refl in Hb.
Qed.

(** What the search compares is first [Lt], then at most once [Eq], then [Gt]. *)
Lemma sorted_cmp l k i j x y : sorted l -> (i < j)%nat -> l !! i = Some x -> l !! j = Some y ->
  cmp (key x) k = Lt \/ cmp (key y) k = Gt.
Proof.
  intros Hs Hl Hi Hj. pose proof (Hs _ _ _ _ Hl Hi Hj) as Hb. unfold below in Hb.
  destruct (cmp (key x) k) eqn:Hx; [|by left|].
  - apply cmp_eq in Hx as <-. right. by apply cmp_gt.
  - right. apply cmp_gt. apply cmp_gt in Hx. by eapply cmp_trans.
Qed.

(** Where the bisection ends: nothing from the next index on can be what is looked for,
    and nothing before it either. *)
Lemma bisect_spec k l base size : sorted l -> (0 < size)%nat -> (base + size <= length l)%nat ->
  (forall j x, (base + size <= j)%nat -> l !! j = Some x -> cmp (key x) k = Gt) ->
  (base = 0%nat \/ exists x, l !! base = Some x /\ cmp (key x) k <> Gt) ->
  exists b, bisect (fun x => cmp (key x) k) l base size = Some b /\ (b < length l)%nat /\
    (forall j x, (b < j)%nat -> l !! j = Some x -> cmp (key x) k = Gt) /\
    (b = 0%nat \/ exists x, l !! b = Some x /\ cmp (key x) k <> Gt).
Proof.
  intros Hs. funelim (bisect (fun x => cmp (key x) k) l base size); intros Hsz Hlen Hhi Hlo.
  - lia.
  - exists base. splits; [by simp bisect|lia| |done]. intros j x Hj. apply Hhi. lia.
  - clear Heqcall. set (h := Nat.div2 (S (S n))) in *. assert (0 < h /\ 2 * h <= S (S n))%nat as Hh.
    { unfold h. change (Nat.div2 (S (S n))) with (S (Nat.div2 n)). pose proof (Nat.div2_odd n) as Hd. revert Hd. generalize (Nat.div2 n). lia. }
    clearbody h. destruct (lookup_lt_is_Some_2 l (base + h)) as [x Hx]; [lia|]. rewrite Hx.
    apply (H x); [done|lia| | |].
    + destruct (cmp (key x) k); lia.
    + intros j y Hj Hy. destruct (cmp (key x) k) eqn:Hc; [apply (Hhi j y); [lia|done]..|].
      destruct (decide (j = base + h)%nat) as [->|Hne]; [congruence|].
      destruct (sorted_cmp l k (base + h) j x y Hs ltac:(lia) Hx Hy); congruence.
    + destruct (cmp (key x) k) eqn:Hc; [right; exists x; split; [done|congruence]..|done].
Qed.

Lemma search_spec k l : sorted l ->
  match binary_search_by_key key k l with
  | Ok i => exists x, l !! i = Some x /\ key x = k
  | Err i => (i <= length l)%nat /\ (forall j x, (j < i)%nat -> l !! j = Some x -> cmp (key x) k = Lt) /\
             (forall j x, (i <= j)%nat -> l !! j = Some x -> cmp (key x) k = Gt)
  | Panic => False
  end.
Proof.
  intros Hs. unfold binary_search_by_key, binary_search_by. destruct (Nat.eqb_spec (length l) 0) as [Hz|Hnz].
  { apply nil_length_inv in Hz as ->. splits; [simpl; lia|by intros j x|by intros j x]. }
  destruct (bisect_spec k l 0 (length l)) as (b & -> & Hb & Hhi & Hlo); [done|lia|lia| |by left|].
  { intros j x Hj Hx. apply lookup_lt_Some in Hx. lia. }
  destruct (lookup_lt_is_Some_2 l b Hb) as [x Hx]. rewrite Hx.
  assert (cmp (key x) k <> Gt -> forall j y, (j < b)%nat -> l !! j = Some y -> cmp (key y) k = Lt) as Hbelow.
  { intros Hc j y Hj Hy. by destruct (sorted_cmp l k j b y x Hs Hj Hy Hx). }
  destruct (cmp (key x) k) eqn:Hc.
  - exists x. split; [done|by apply cmp_eq].
  - splits; [lia| |intros j y Hj; apply Hhi; lia]. intros j y Hj Hy.
    destruct (decide (j = b)) as [->|]; [congruence|]. apply (Hbelow ltac:(done) j); [lia|done].
  - destruct Hlo as [->|(y & Hy & Hn)]; [|congruence]. splits; [lia|intros j y; lia|].
    intros j y Hj Hy. destruct (decide (j = 0%nat)) as [->|]; [congruence|]. apply (Hhi j); [lia|done].
Qed.

(** The reference: linear search. *)
Fixpoint find_key k l : option T :=
  match l with
  | [] => None
  | x :: l => match cmp (key x) k with Eq => Some x | _ => find_key k l end
  end.

(** No two values have the same key. *)
Definition unique l : Prop := forall x y, x ∈ l -> y ∈ l -> key x = key y -> x = y.

Lemma sorted_unique l : sorted l -> unique l.
Proof.
  intros Hs x y [i Hi]%list_elem_of_lookup [j Hj]%list_elem_of_lookup He.
  assert (i = j) as -> by (by eapply sorted_key). congruence.
Qed.

Lemma find_key_some k l x : find_key k l = Some x -> x ∈ l /\ key x = k.
Proof.
  induction l as [|y l IH]; simpl; [done|]. destruct (cmp (key y) k) eqn:Hc.
  - intros [= <-]. apply cmp_eq in Hc. split; [by left|done].
  - intros [? ?]%IH. split; [by right|done].
  - intros [? ?]%IH. split; [by right|done].
Qed.

Lemma find_key_none k l : find_key k l = None <-> forall x, x ∈ l -> key x <> k.
Proof.
  induction l as [|y l IH]; simpl; [split; [intros _ x []%elem_of_nil|done]|].
  destruct (cmp (key y) k) eqn:Hc.
  - apply cmp_eq in Hc. split; [done|]. intros H. by destruct (H y ltac:(left)).
  - rewrite IH. assert (key y <> k) by (intros <-; by rewrite cmp_refl in Hc). set_solver.
  - rewrite IH. assert (key y <> k) by (intros <-; by rewrite cmp_refl in Hc). set_solver.
Qed.

Lemma find_key_elem l x : unique l -> x ∈ l -> find_key (key x) l = Some x.
Proof.
  intros Hu Hx. destruct (find_key (key x) l) as [y|] eqn:Hf.
  - apply find_key_some in Hf as [Hy He]. f_equal. by apply Hu.
  - by destruct (proj1 (find_key_none _ _) Hf x Hx).
Qed.

Lemma unique_perm l l' : l ≡ₚ l' -> unique l -> unique l'.
Proof. intros Hp Hu x y Hx Hy. apply Hu; by rewrite Hp. Qed.

Lemma find_key_perm k l l' : l ≡ₚ l' -> unique l -> find_key k l = find_key k l'.
Proof.
  intros Hp Hu. pose proof (unique_perm _ _ Hp Hu) as Hu'. destruct (find_key k l') as [x|] eqn:Hf.
  - apply find_key_some in Hf as [Hx <-]. apply find_key_elem; [done|by rewrite Hp].
  - apply find_key_none. intros x Hx. apply (proj1 (find_key_none _ _) Hf). by rewrite <- Hp.
Qed.

(** Looking up is a search for the key. *)
Lemma lookup_by_ok {E} k l : sorted l -> lookup_by (E:=E) key k l = Ok (find_key k l).
Proof.
  intros Hs. pose proof (search_spec k l Hs) as H. unfold lookup_by. destruct (binary_search_by_key key k l) as [i|i|]; [| |done].
  - destruct H as (x & Hx & <-). rewrite Hx. f_equal. symmetry. apply find_key_elem; [by apply sorted_unique|by eapply list_elem_of_lookup_2].
  - destruct H as (_ & Hlo & Hhi). f_equal. symmetry. apply find_key_none. intros x [j Hj]%list_elem_of_lookup <-.
    destruct (Nat.lt_ge_cases j i); [pose proof (Hlo j x)|pose proof (Hhi j x)]; rewrite cmp_refl in *; intuition discriminate.
Qed.

Lemma vec_insert_lookup i x l j : (i <= length l)%nat ->
  vec_insert i x l !! j = if (j <? i)%nat then l !! j else if (j =? i)%nat then Some x else l !! (j - 1)%nat.
Proof.
  intros Hi. unfold vec_insert. assert (length (take i l) = i) as Hl by (rewrite length_take; lia).
  destruct (Nat.ltb_spec j i).
  - rewrite lookup_app_l by lia. by rewrite lookup_take_lt.
  - rewrite lookup_app_r, Hl by lia. destruct (Nat.eqb_spec j i) as [->|]; [by rewrite Nat.sub_diag|].
    replace (j - i)%nat with (S (j - i - 1)) by lia. simpl. rewrite lookup_drop. f_equal. lia.
Qed.

Lemma vec_remove_lookup i l j : (i < length l)%nat ->
  vec_remove i l !! j = if (j <? i)%nat then l !! j else l !! S j.
Proof.
  intros Hi. unfold vec_remove. assert (length (take i l) = i) as Hl by (rewrite length_take; lia).
  destruct (Nat.ltb_spec j i).
  - rewrite lookup_app_l by lia. by rewrite lookup_take_lt.
  - rewrite lookup_app_r, Hl, lookup_drop by lia. f_equal. lia.
Qed.

Lemma vec_insert_perm i x l : vec_insert i x l ≡ₚ x :: l.
Proof. unfold vec_insert. by rewrite <- Permutation_middle, take_drop. Qed.

Lemma vec_remove_perm i l x : l !! i = Some x -> l ≡ₚ x :: vec_remove i l.
Proof. intros Hx. unfold vec_remove. rewrite <- (take_drop_middle l i x Hx) at 1. by rewrite Permutation_middle. Qed.

(** Inserting returns the value with the same key, which it replaces. *)
Lemma wp_insert {E} v l (Q : res E (option T) → list T → Prop) : sorted l ->
  (forall l', sorted l' -> match find_key (key v) l with None => l' ≡ₚ v :: l | Some o => o :: l' ≡ₚ v :: l end ->
     Q (Ok (find_key (key v) l)) l') ->
  wp (insert key v) l Q.
Proof.
  intros Hs HQ. pose proof (search_spec (key v) l Hs) as H. unfold insert. do 2 wstep.
  pose proof (lookup_by_ok (E:=E) (key v) l Hs) as Hf. unfold lookup_by in Hf.
  destruct (binary_search_by_key key (key v) l) as [i|i|]; [| |done].
  - destruct H as (x & Hx & Hk). rewrite Hx in Hf |- *. injection Hf as Hf. rewrite <- Hf in HQ. wsteps. apply HQ.
    + intros j1 j2 x1 x2 Hlt. rewrite !list_lookup_insert_Some. intros H1 H2.
      assert (forall j y, i = j /\ v = y /\ (j < length l)%nat \/ i <> j /\ l !! j = Some y -> exists z, l !! j = Some z /\ key z = key y) as Hz.
      { intros j y [(<- & <- & _)|[_ ?]]; [by exists x|by exists y]. }
      destruct (Hz _ _ H1) as (z1 & E1 & K1), (Hz _ _ H2) as (z2 & E2 & K2). unfold below. rewrite <- K1, <- K2. by eapply Hs.
    + rewrite (vec_remove_perm i (<[i:=v]> l) v) by (apply list_lookup_insert_eq; by eapply lookup_lt_Some).
      unfold vec_remove. rewrite take_insert_ge, drop_insert_lt by lia. rewrite perm_swap. f_equiv. symmetry. by apply vec_remove_perm.
  - destruct H as (Hi & Hlo & Hhi). injection Hf as Hf. rewrite <- Hf in HQ. wsteps. apply HQ; [|by apply vec_insert_perm].
    intros j1 j2 x1 x2 Hlt. rewrite !vec_insert_lookup by done. unfold below.
    destruct (Nat.ltb_spec j1 i), (Nat.ltb_spec j2 i); [by apply Hs| | lia|].
    + destruct (Nat.eqb_spec j2 i); [intros H1 [= <-]; by eapply Hlo|]. intros H1 H2. eapply Hs; [|done|done]. lia.
    + destruct (Nat.eqb_spec j1 i), (Nat.eqb_spec j2 i); [lia| |lia|]; intros H1 H2.
      * injection H1 as <-. apply cmp_gt. eapply Hhi; [|done]. lia.
      * eapply Hs; [|done|done]. lia.
Qed.

Lemma wp_remove_by {E} k l (Q : res E (option T) → list T → Prop) : sorted l ->
  (forall l', sorted l' -> match find_key k l with None => l' = l | Some o => key o = k /\ l ≡ₚ o :: l' end ->
     Q (Ok (find_key k l)) l') ->
  wp (remove_by key k) l Q.
Proof.
  intros Hs HQ. pose proof (search_spec k l Hs) as H. unfold remove_by. do 2 wstep.
  pose proof (lookup_by_ok (E:=E) k l Hs) as Hf. unfold lookup_by in Hf.
  destruct (binary_search_by_key key k l) as [i|i|]; [| |done].
  - destruct H as (x & Hx & Hk). rewrite Hx in Hf |- *. injection Hf as Hf. rewrite <- Hf in HQ. wsteps. apply HQ.
    + pose proof (lookup_lt_Some _ _ _ Hx). intros j1 j2 x1 x2 Hlt. rewrite !vec_remove_lookup by done.
      destruct (Nat.ltb_spec j1 i), (Nat.ltb_spec j2 i); intros; (eapply Hs; [|done|done]; lia).
    + split; [done|]. by apply vec_remove_perm.
  - injection Hf as Hf. rewrite <- Hf in HQ. wstep. by apply HQ.
Qed.

Lemma contains_ok {E} v l : sorted l ->
  contains (E:=E) key v l = Ok (match find_key (key v) l with Some _ => true | None => false end).
Proof.
  intros Hs. pose proof (lookup_by_ok (E:=E) (key v) l Hs) as Hf. pose proof (search_spec (key v) l Hs) as H.
  unfold lookup_by, contains in *. destruct (binary_search_by_key key (key v) l) as [i|i|]; [| |done].
  - destruct H as (x & Hx & _). rewrite Hx in Hf. by injection Hf as <-.
  - by injection Hf as <-.
Qed.

(** ** Sorting a vector *)

Definition ascending l : Prop := forall i j x y, (i < j)%nat -> l !! i = Some x -> l !! j = Some y -> cmp (key x) (key y) <> Gt.

Lemma ascending_tail x l : ascending (x :: l) -> ascending l /\ forall y, y ∈ l -> cmp (key x) (key y) <> Gt.
Proof.
  intros Ha. split; [intros i j a b Hij H1 H2; by apply (Ha (S i) (S j)); [lia|..]|].
  intros y [j Hj]%list_elem_of_lookup. by apply (Ha 0 (S j))%nat; [lia|..].
Qed.

Lemma sorted_cons x l : (forall y, y ∈ l -> below x y) -> sorted l -> sorted (x :: l).
Proof.
  intros Hx Hs i j a b Hij Ha Hb. destruct j as [|j]; [lia|]. simpl in Hb. destruct i as [|i]; simpl in Ha.
  - injection Ha as <-. apply Hx. by eapply list_elem_of_lookup_2.
  - by apply (Hs i j); [lia|..].
Qed.

Lemma dedup_elem x l y : y ∈ dedup_from key x l -> y = x \/ y ∈ l.
Proof.
  revert x. induction l as [|z l IH]; intros x; simpl; [rewrite list_elem_of_singleton; by left|].
  destruct (cmp (key x) (key z)); [intros [->|]%IH; set_solver| |]; (intros [->|[->|]%IH]%elem_of_cons; set_solver).
Qed.

Lemma dedup_sorted x l : ascending (x :: l) ->
  sorted (dedup_from key x l) /\ forall k, find_key k (dedup_from key x l) = find_key k (x :: l).
Proof.
  revert x. induction l as [|z l IH]; intros x Ha; simpl.
  - split; [|done]. intros i j a b Hij Hi Hj. apply lookup_lt_Some in Hj. simpl in Hj. lia.
  - destruct (ascending_tail _ _ Ha) as [Hz Hx]. pose proof (Hx z ltac:(left)) as Hxz. destruct (cmp (key x) (key z)) eqn:Hc; [| |done].
    + destruct (IH x) as [Hs Hf].
      { intros i j a b Hij Hi Hj. destruct i as [|i]; [destruct j as [|j]; [lia|]; by apply (Ha 0 (S (S j)))%nat; [lia|..]|].
        destruct j as [|j]; [lia|]. by apply (Ha (S (S i)) (S (S j))); [lia|..]. }
      split; [done|]. intros k. rewrite Hf. simpl. apply cmp_eq in Hc. rewrite Hc. by destruct (cmp (key z) k).
    + destruct (IH z Hz) as [Hs Hf]. split; [|intros k; simpl; by rewrite Hf].
      apply sorted_cons; [|done]. intros y [->|Hy]%dedup_elem; [done|]. unfold below.
      destruct (ascending_tail _ _ Hz) as [_ Hzy]. specialize (Hzy y Hy). destruct (cmp (key z) (key y)) eqn:Hzc; [| |done].
      * apply cmp_eq in Hzc. by rewrite <- Hzc.
      * by eapply cmp_trans.
Qed.

(** A vector made from any values is sorted and has one of the values of each key. *)
Lemma from_sorted sort_unstable vec : sort_unstable vec ≡ₚ vec -> ascending (sort_unstable vec) ->
  sorted (from key sort_unstable vec) /\
  forall k, is_Some (find_key k (from key sort_unstable vec)) <-> is_Some (find_key k vec).
Proof.
  intros Hp Ha. assert (forall k, is_Some (find_key k (sort_unstable vec)) <-> is_Some (find_key k vec)) as Hk.
  { intros k. rewrite <- !not_eq_None_Some, !find_key_none. by setoid_rewrite Hp. }
  unfold from. destruct (sort_unstable vec) as [|x l]; [|destruct (dedup_sorted x l Ha) as [Hs Hf]].
  - split; [|done]. by intros i j a b _ Hi.
  - split; [done|]. intros k. rewrite <- Hk. by rewrite Hf.
Qed.

(** ** Sequences of calls *)

(** The reference: an unordered list of values with linear searches.  [extreme Lt] is its
    least value, [extreme Gt] its greatest. *)
Fixpoint extreme (c : comparison) l : option T :=
  match l with
  | [] => None
  | x :: l =>
    match extreme c l with
    | None => Some x
    | Some y => if bool_decide (cmp (key x) (key y) = c) then Some x else Some y
    end
  end.

Fixpoint drop_key k l : list T :=
  match l with
  | [] => []
  | x :: l => match cmp (key x) k with Eq => l | _ => x :: drop_key k l end
  end.

Inductive Op :=
| Insert (v : T)
| Remove (k : K)
| Lookup (k : K)
| Contains (v : T)
| First
| Last.

Inductive Answer :=
| Value (o : option T)
| Flag (b : bool).

Definition call (o : Op) : M (list T) Empty_set Answer :=
  match o with
  | Insert v => r ← insert key v; mret (Value r)
  | Remove k => r ← remove_by key k; mret (Value r)
  | Lookup k => l ← get; r ← lift (lookup_by key k l); mret (Value r)
  | Contains v => l ← get; r ← lift (contains key v l); mret (Flag r)
  | First => l ← get; mret (Value (first l))
  | Last => l ← get; mret (Value (last l))
  end.

Fixpoint calls (os : list Op) : M (list T) Empty_set (list Answer) :=
  match os with
  | [] => mret []
  | o :: os => a ← call o; r ← calls os; mret (a :: r)
  end.

Definition ref_call (o : Op) l : Answer * list T :=
  match o with
  | Insert v => (Value (find_key (key v) l), v :: drop_key (key v) l)
  | Remove k => (Value (find_key k l), drop_key k l)
  | Lookup k => (Value (find_key k l), l)
  | Contains v => (Flag (match find_key (key v) l with Some _ => true | None => false end), l)
  | First => (Value (extreme Lt l), l)
  | Last => (Value (extreme Gt l), l)
  end.

Fixpoint ref_calls (os : list Op) l : list Answer :=
  match os with
  | [] => []
  | o :: os => (ref_call o l).1 :: ref_calls os (ref_call o l).2
  end.

Lemma extreme_elem c l x : extreme c l = Some x -> x ∈ l.
Proof.
  revert x. induction l as [|y l IH]; intros x; simpl; [done|]. destruct (extreme c l) as [z|]; [|intros [= <-]; left].
  case_bool_decide; intros [= <-]; [left|right; by apply IH].
Qed.

Lemma extreme_none c l : extreme c l = None -> l = [].
Proof. destruct l as [|y l]; simpl; [done|]. destruct (extreme c l); [|done]. by case_bool_decide. Qed.

(** An order in the direction of [c]. *)
Lemma cmp_dir (c : comparison) (a b d : K) : c <> Eq -> cmp a b = c -> cmp b d = c -> cmp a d = c.
Proof.
  intros Hc. destruct c; [done|apply cmp_trans|]. rewrite !cmp_gt. intros. by eapply cmp_trans.
Qed.

Lemma cmp_flip (c : comparison) (a b : K) : c <> Eq -> a <> b -> cmp a b <> c -> cmp b a = c.
Proof.
  intros Hc Hab Hn. rewrite (cmp_sym a b). destruct (cmp a b) eqn:Hcmp, c; try done; by apply cmp_eq in Hcmp.
Qed.

Lemma extreme_bound c l x : c <> Eq -> unique l -> extreme c l = Some x -> forall y, y ∈ l -> y = x \/ cmp (key x) (key y) = c.
Proof.
  intros Hc. revert x. induction l as [|z l IH]; intros x Hu; simpl; [done|].
  assert (unique l) as Hul by (intros a b Ha Hb; apply Hu; by right).
  destruct (extreme c l) as [w|] eqn:Hw.
  2: { apply extreme_none in Hw as ->. intros [= <-] y. rewrite list_elem_of_singleton. by left. }
  specialize (IH w Hul eq_refl). pose proof (extreme_elem _ _ _ Hw) as Hwl.
  case_bool_decide as Hb; intros [= <-] y [->|Hy]%elem_of_cons; [by left| | |by apply IH].
  - right. destruct (IH y Hy) as [->|]; [done|by eapply cmp_dir].
  - destruct (cmp (key z) (key w)) eqn:Hzw; [left; apply Hu; [left|by right|by apply cmp_eq]|right..];
      (apply cmp_flip; [done| |congruence]; intros He; by rewrite He, cmp_refl in Hzw).
Qed.

Lemma extreme_perm c l l' : c <> Eq -> unique l -> l ≡ₚ l' -> extreme c l = extreme c l'.
Proof.
  intros Hc Hu Hp. pose proof (unique_perm _ _ Hp Hu) as Hu'.
  destruct (extreme c l) as [x|] eqn:Hx, (extreme c l') as [y|] eqn:Hy; [| | |done].
  - f_equal. pose proof (extreme_elem _ _ _ Hx) as Ex. pose proof (extreme_elem _ _ _ Hy) as Ey.
    destruct (extreme_bound c l x Hc Hu Hx y) as [->|H1]; [by rewrite Hp|done|].
    destruct (extreme_bound c l' y Hc Hu' Hy x) as [->|H2]; [by rewrite <- Hp|done|].
    rewrite (cmp_sym (key x) (key y)), H1 in H2. by destruct c.
  - apply extreme_none in Hy as ->. apply Permutation_nil_r in Hp. by rewrite Hp in Hx.
  - apply extreme_none in Hx as ->. apply Permutation_nil_l in Hp. by rewrite <- Hp in Hy || rewrite Hp in Hy.
Qed.

Lemma sorted_first l : sorted l -> first l = extreme Lt l.
Proof.
  intros Hs. destruct l as [|x l]; [done|]. unfold first. simpl. destruct (extreme Lt l) as [y|] eqn:Hy; [|done].
  apply extreme_elem, list_elem_of_lookup in Hy as [i Hi]. rewrite bool_decide_eq_true_2; [done|]. by apply (Hs 0 (S i))%nat; [lia|..].
Qed.

Lemma sorted_tail x l : sorted (x :: l) -> sorted l.
Proof. intros Hs i j a b Hij Ha Hb. by apply (Hs (S i) (S j)); [lia|..]. Qed.

Lemma sorted_last l : sorted l -> last l = extreme Gt l.
Proof.
  induction l as [|x l IH]; intros Hs; [done|]. pose proof (IH (sorted_tail _ _ Hs)) as IHl. unfold last in *. cbn [extreme]. rewrite <- IHl, last_cons.
  destruct (list.last l) as [y|] eqn:Hy.
  - apply last_Some_elem_of, list_elem_of_lookup in Hy as Hi. destruct Hi as [i Hi].
    assert (cmp (key x) (key y) = Lt) as Hlt by (by apply (Hs 0 (S i))%nat; [lia|..]).
    by rewrite bool_decide_eq_false_2 by congruence.
  - done.
Qed.

Lemma drop_key_perm k l o : unique l -> find_key k l = Some o -> l ≡ₚ o :: drop_key k l.
Proof.
  intros _. induction l as [|x l IH]; simpl; [done|]. destruct (cmp (key x) k); [by intros [= ->]| |].
  - intros H. rewrite perm_swap. f_equiv. by apply IH.
  - intros H. rewrite perm_swap. f_equiv. by apply IH.
Qed.

Lemma drop_key_none k l : find_key k l = None -> drop_key k l = l.
Proof. induction l as [|x l IH]; simpl; [done|]. destruct (cmp (key x) k); [done| |]; intros; f_equal; by apply IH. Qed.

Lemma wp_call o l r (Q : res Empty_set Answer → list T → Prop) : sorted l -> l ≡ₚ r ->
  (forall l', sorted l' -> l' ≡ₚ (ref_call o r).2 -> Q (Ok (ref_call o r).1) l') -> wp (call o) l Q.
Proof.
  intros Hs Hp HQ. pose proof (sorted_unique l Hs) as Hu. pose proof (unique_perm _ _ Hp Hu) as Hur. destruct o; simpl in *.
  - wstep. apply wp_insert; [done|]. intros l' Hs' Hl'. wsteps. rewrite (find_key_perm _ l r Hp Hu) in *. apply HQ; [done|].
    destruct (find_key (key v) r) as [o|] eqn:Hf.
    + pose proof (drop_key_perm _ _ _ Hur Hf) as Hd. rewrite Hp, Hd, perm_swap in Hl'. by apply Permutation_cons_inv in Hl'.
    + rewrite (drop_key_none _ _ Hf). by rewrite Hl', Hp.
  - wstep. apply wp_remove_by; [done|]. intros l' Hs' Hl'. wsteps. rewrite (find_key_perm _ l r Hp Hu) in *. apply HQ; [done|].
    destruct (find_key k r) as [o|] eqn:Hf.
    + destruct Hl' as [_ Hl']. pose proof (drop_key_perm _ _ _ Hur Hf) as Hd. rewrite Hp, Hd in Hl'. by apply Permutation_cons_inv in Hl'.
    + subst. by rewrite (drop_key_none _ _ Hf).
  - do 4 wstep. rewrite lookup_by_ok by done. wsteps. rewrite (find_key_perm _ l r Hp Hu). by apply HQ.
  - do 4 wstep. rewrite contains_ok by done. wsteps. rewrite (find_key_perm _ l r Hp Hu). by apply HQ.
  - do 3 wstep. rewrite sorted_first, (extreme_perm _ l r) by done. by apply HQ.
  - do 3 wstep. rewrite sorted_last, (extreme_perm _ l r) by done. by apply HQ.
Qed.

(** C28: a sorted vector answers every sequence of calls as an unordered list with linear
    searches does, it never reads or inserts out of range, and it stays sorted. *)
Theorem sorted_vec_equiv os l r : sorted l -> l ≡ₚ r ->
  wp (calls os) l (fun a l' => a = Ok (ref_calls os r) /\ sorted l').
Proof.
  revert l r. induction os as [|o os IH]; intros l r Hs Hp; simpl; [by wstep|].
  wstep. apply (wp_call o l r); [done..|]. intros l' Hs' Hp'. wstep. eapply wp_mono; [by apply IH|].
  intros a l2 [-> Hs2]. by wstep.
Qed.

End Proofs.

(** Numbers with labels, ordered by the number only. *)
Lemma sorted_vec_equiv_witness :
  let os := ([Insert (3, 1); Insert (1, 2); Insert (2, 3); Insert (1, 4); First; Last; Lookup 2; Remove 3; Last; Contains (3, 0)])%Z in
  (calls (key:=fst) os ([] : list (Z * Z))).1 =
  Ok ([Value None; Value None; Value None; Value (Some (1, 2)); Value (Some (1, 4)); Value (Some (3, 1)); Value (Some (2, 3));
      Value (Some (3, 1)); Value (Some (2, 3)); Flag false])%Z.
Proof.
  intros os. assert (sorted (key:=@fst Z Z) []) as Hs by (by intros i j x y _).
  destruct (sorted_vec_equiv (key:=@fst Z Z) os [] [] Hs (Permutation_refl _)) as [H _]. exact H.
Defined.

End SortedVec.
