(* ===== verification/MmioTag.v ===== *)
(** * Tags of memory-mapped regions

    [libs/mmio-tag/src/tag.rs]: eight bytes that name a region of memory-mapped I/O.  A
    process passes a tag to the kernel as a number in two arguments; the names that
    [from_name] makes survive the journey. *)

From Stdlib Require Import ZifyBool.
From S2P Require Import Prelude SortedVec.
#[local] Open Scope Z_scope.

Definition TAG_LENGTH : nat := 8.

Record MmioTag := mkMmioTag { tag_value : list Z }.

#[export] Instance MmioTag_eq_dec : EqDecision MmioTag.
Proof. solve_decision. Defined.

#[export] Program Instance MmioTag_countable : Countable MmioTag :=
  inj_countable' tag_value mkMmioTag _.
Next Obligation. by intros []. Qed.

(** The order of arrays of bytes. *)
Fixpoint lex (a b : list Z) : comparison :=
  match a, b with
  | [], [] => Eq
  | [], _ => Lt
  | _, [] => Gt
  | x :: a, y :: b => match x ?= y with Eq => lex a b | c => c end
  end.

Lemma lex_eq a b : lex a b = Eq <-> a = b.
Proof.
  revert b. induction a as [|x a IH]; intros [|y b]; simpl; try done.
  destruct (x ?= y) eqn:H; [apply Z.compare_eq in H; subst; rewrite IH; naive_solver| |];
    (split; [done|intros [= -> _]; by rewrite Z.compare_refl in H]).
Qed.

Lemma lex_sym a b : lex b a = CompOpp (lex a b).
Proof.
  revert b. induction a as [|x a IH]; intros [|y b]; simpl; try done.
  rewrite (Z.compare_antisym x y). by destruct (x ?= y); simpl.
Qed.

Lemma lex_trans a b c : lex a b = Lt -> lex b c = Lt -> lex a c = Lt.
Proof.
  revert b c. induction a as [|x a IH]; intros [|y b] [|z c]; simpl; try done.
  destruct (Z.compare_spec x y), (Z.compare_spec y z), (Z.compare_spec x z); try done; try lia. apply IH.
Qed.

#[export] Program Instance MmioTag_Ord : Ord MmioTag := { cmp x y := lex (tag_value x) (tag_value y) }.
Next Obligation. intros [x] [y]. simpl. rewrite lex_eq. naive_solver. Qed.
Next Obligation. intros. apply lex_sym. Qed.
Next Obligation. intros ???. apply lex_trans. Qed.

Module MmioTag.

Definition new (value : list Z) : MmioTag := mkMmioTag value.
Definition as_bytes (tag : MmioTag) : list Z := tag_value tag.

(** [u64::to_be_bytes]. *)
Definition to_be_bytes (value : Z) : list Z :=
  (fun k => Z.land (Z.shiftr value (8 * k)) 0xFF) <$> [7; 6; 5; 4; 3; 2; 1; 0].

Definition nibble_to_ascii (n : Z) : Z :=
  if (0 <=? n) && (n <=? 9) then 48 + n
  else if (10 <=? n) && (n <=? 15) then 65 + (n - 10)
  else 63.

(** [while idx > 0] of [from_u64_hex]. *)
Fixpoint hex_digits (idx : nat) (val : Z) (buf : list Z) : list Z :=
  match idx with
  | O => buf
  | S idx => hex_digits idx (Z.shiftr val 4) (<[idx := nibble_to_ascii (Z.land val 0xF)]> buf)
  end.

Definition from_u64_hex (value : Z) : MmioTag :=
  new (hex_digits TAG_LENGTH value (replicate TAG_LENGTH 48)).

Definition printable (byte : Z) : bool := (0x20 <=? byte) && (byte <=? 0x7e).

Definition from_u64 (value : Z) : MmioTag :=
  if forallb printable (to_be_bytes value) then new (to_be_bytes value) else from_u64_hex value.

Definition sanitize_ascii (byte : Z) : Z :=
  if (97 <=? byte) && (byte <=? 122) then byte - 32
  else if ((65 <=? byte) && (byte <=? 90)) || ((48 <=? byte) && (byte <=? 57)) || (byte =? 95) || (byte =? 45) then byte
  else if (0x20 <=? byte) && (byte <=? 0x7e) then byte
  else 95.

(** The loop over the bytes of the name, which stops at the end of the shorter array. *)
Fixpoint fill (bytes name_bytes : list Z) : list Z :=
  match bytes, name_bytes with
  | _ :: bytes, b :: name_bytes => sanitize_ascii b :: fill bytes name_bytes
  | bytes, _ => bytes
  end.

Definition from_name (name_bytes : list Z) : MmioTag := new (fill (replicate TAG_LENGTH 32) name_bytes).

(** [split_tag] of the library of the processes, and what the handlers of the kernel make
    of their two arguments. *)
Definition split_tag (tag : Z) : Z * Z := (tag mod 2 ^ 32, Z.shiftr tag 32 mod 2 ^ 32).
Definition tag_of_args (arg0 arg1 : Z) : MmioTag := from_u64 (Z.lor (Z.shiftl arg1 32) arg0).

(** [u64::from_be_bytes]. *)
Definition from_be_bytes (bytes : list Z) : Z := foldl (fun acc b => acc * 256 + b) 0 bytes.

(** ** Proofs *)

Lemma sanitize_printable b : printable (sanitize_ascii b) = true.
Proof. unfold sanitize_ascii, printable. repeat case_match; lia. Qed.

Lemma fill_ok bytes name : forallb printable bytes = true -> forallb printable (fill bytes name) = true /\ length (fill bytes name) = length bytes.
Proof.
  revert name. induction bytes as [|x bytes IH]; intros [|b name]; simpl; try done.
  intros [_ H]%andb_prop. destruct (IH name H) as [H1 H2]. by rewrite sanitize_printable, H1, H2.
Qed.

Lemma be_bytes_roundtrip bytes : length bytes = 8%nat -> forallb printable bytes = true ->
  0 <= from_be_bytes bytes < 2 ^ 64 /\ to_be_bytes (from_be_bytes bytes) = bytes.
Proof.
  intros Hl Hp. assert (Forall (fun b => 0 <= b < 256) bytes) as Hb.
  { apply Forall_forall. intros b Hb. rewrite forallb_forall in Hp. specialize (Hp b). rewrite <- list_elem_of_In in Hp.
    specialize (Hp Hb). unfold printable in Hp. lia. }
  do 8 (destruct bytes as [|? bytes]; [done|]). destruct bytes; [|done]. rewrite !Forall_cons in Hb.
  unfold to_be_bytes, from_be_bytes. cbn [foldl fmap list_fmap]. destruct_and!. split; [lia|].
  repeat f_equal; change 255 with (Z.ones 8); rewrite Z.land_ones, Z.shiftr_div_pow2 by lia; Z.to_euclidean_division_equations; lia.
Qed.

(** The hexadecimal digits are those of the lower half of the number. *)
Lemma hex_nibbles value : tag_value (from_u64_hex value) = (fun k => nibble_to_ascii (value / 16 ^ k mod 16)) <$> [7; 6; 5; 4; 3; 2; 1; 0].
Proof.
  unfold from_u64_hex, TAG_LENGTH. cbn -[nibble_to_ascii Z.shiftr Z.land].
  rewrite !Z.shiftr_shiftr by lia. change 15 with (Z.ones 4). rewrite !Z.land_ones, !Z.shiftr_div_pow2 by lia.
  by rewrite Z.div_1_r.
Qed.

Lemma nibble_inj a b : 0 <= a < 16 -> 0 <= b < 16 -> nibble_to_ascii a = nibble_to_ascii b -> a = b.
Proof. unfold nibble_to_ascii. repeat case_match; lia. Qed.

(** A number modulo a power of 16 is its last digits. *)
Lemma digits_mod a b n : (forall k, (k < n)%nat -> a / 16 ^ Z.of_nat k mod 16 = b / 16 ^ Z.of_nat k mod 16) ->
  a mod 16 ^ Z.of_nat n = b mod 16 ^ Z.of_nat n.
Proof.
  induction n as [|n IH]; intros H; [by rewrite !Z.mod_1_r|].
  assert (0 < 16 ^ Z.of_nat n) by (apply Z.pow_pos_nonneg; lia).
  rewrite Nat2Z.inj_succ, Z.pow_succ_r, Z.mul_comm, !Z.rem_mul_r by lia.
  rewrite (H n) by lia. rewrite IH; [done|]. intros k Hk. apply H. lia.
Qed.

Lemma mod_digit a n k : 0 <= k < n -> a / 16 ^ k mod 16 = (a mod 16 ^ n) / 16 ^ k mod 16.
Proof.
  intros Hk. assert (0 < 16 ^ n /\ 0 < 16 ^ k) as [] by (split; apply Z.pow_pos_nonneg; lia).
  rewrite (Z.div_mod a (16 ^ n)) at 1 by lia.
  replace (16 ^ n * (a / 16 ^ n) + a mod 16 ^ n) with (a mod 16 ^ n + (a / 16 ^ n * 16 ^ (n - k - 1) * 16) * 16 ^ k).
  - by rewrite Z.div_add, Z_mod_plus_full by lia.
  - assert (16 ^ n = 16 ^ (n - k - 1) * 16 * 16 ^ k) as Hn; [|generalize (a / 16 ^ n) (a mod 16 ^ n); intros; rewrite Hn; ring].
    rewrite <- (Z.pow_1_r 16) at 3. rewrite <- !Z.pow_add_r by lia. f_equal. lia.
Qed.

Lemma from_u64_hex_inj a b : from_u64_hex a = from_u64_hex b <-> a mod 2 ^ 32 = b mod 2 ^ 32.
Proof.
  change (2 ^ 32) with (16 ^ Z.of_nat 8). split; intros H.
  - apply (f_equal tag_value) in H. rewrite !hex_nibbles in H. injection H as H7 H6 H5 H4 H3 H2 H1 H0.
    apply digits_mod. intros k Hk. apply nibble_inj; [apply Z.mod_pos_bound; lia..|].
    do 8 (destruct k as [|k]; [done|]). lia.
  - assert (tag_value (from_u64_hex a) = tag_value (from_u64_hex b)) as Ht; [|unfold from_u64_hex, new in *; by f_equal].
    rewrite !hex_nibbles. apply list_fmap_ext. intros i k Hk. f_equal.
    assert (0 <= k < 8) by (apply list_elem_of_lookup_2 in Hk; set_unfold in Hk; lia).
    rewrite (mod_digit a (Z.of_nat 8)), (mod_digit b (Z.of_nat 8)) by done. by rewrite H.
Qed.

(** The name of a region that a process passes to the kernel, as a number split over
    two arguments, is the name the kernel reads, whatever the name is. *)
Theorem tag_roundtrip name :
  let '(lower, upper) := split_tag (from_be_bytes (as_bytes (from_name name))) in
  tag_of_args lower upper = from_name name.
Proof.
  destruct (fill_ok (replicate TAG_LENGTH 32) name eq_refl) as [Hp Hl].
  unfold split_tag, tag_of_args, from_name, as_bytes, new. cbn [tag_value].
  set (bs := fill _ _) in *. destruct (be_bytes_roundtrip bs Hl Hp) as [Hv Hr]. set (v := from_be_bytes bs) in *.
  assert (Z.lor (Z.shiftl (Z.shiftr v 32 mod 2 ^ 32) 32) (v mod 2 ^ 32) = v) as ->.
  { apply Z.bits_inj'. intros i Hi. rewrite Z.lor_spec, Z.shiftl_spec by lia. destruct (Z.lt_ge_cases i 32).
    - by rewrite Z.testbit_neg_r, Z.mod_pow2_bits_low by lia.
    - rewrite (Z.mod_pow2_bits_high v), orb_false_r by lia. rewrite (Z.mod_small (Z.shiftr v 32)), Z.shiftr_spec by (rewrite ?Z.shiftr_div_pow2 by lia; Z.to_euclidean_division_equations; lia).
      f_equal. lia. }
  unfold from_u64. by rewrite Hr, Hp.
Qed.
End MmioTag.
