(* ===== verification/BitAlloc.v ===== *)
(** * The contract of a bit allocator

    What the slab allocator and the frame allocator rely on: a fixed number of
    indices, the set of those in use, and operations described by their effect
    on that set.  [Bitmap] implements the contract; [Slab] and [Frame] are proved
    against it. *)

From S2P Require Import Prelude Error.
#[local] Open Scope Z_scope.

(** The indices [start .. start + n - 1]. *)
Definition range (start n : Z) : gset Z := list_to_set (seqZ start n).

(** [n] indices from [p] on exist and none is used. *)
Definition free_run (cap : Z) (used : gset Z) (n p : Z) : Prop :=
  0 <= p /\ p + n <= cap /\ range p n ## used.

(** Postconditions.  The arguments are the capacity and the used sets before and
    after the call; an operation that fails leaves the set as it is. *)
Definition alloc_range_post (cap n : Z) (used used' : gset Z) (r : res Error Z) : Prop :=
  match r with
  | Ok p => 0 < n /\ free_run cap used n p /\ used' = range p n ∪ used
  | Err e =>
    used' = used /\
    if decide (n = 0 \/ cap < n) then (code e = InvalidArgument)
    else code e = OutOfMemory /\ forall p, ~ free_run cap used n p
  | Panic => False
  end.

Definition set_post (cap i : Z) (used used' : gset Z) (r : res Error unit) : Prop :=
  match r with
  | Ok _ => i < cap /\ (i ∉ used) /\ used' = {[i]} ∪ used
  | Err e =>
    used' = used /\
    if decide (i < cap) then (code e = ResourceBusy /\ i ∈ used) else code e = InvalidArgument
  | Panic => False
  end.

Definition clear_post (cap i : Z) (used used' : gset Z) (r : res Error unit) : Prop :=
  match r with
  | Ok _ => i < cap /\ i ∈ used /\ used' = used ∖ {[i]}
  | Err e =>
    used' = used /\
    if decide (i < cap) then code e = BadAddress /\ i ∉ used else code e = InvalidArgument
  | Panic => False
  end.

Definition test_post (cap i : Z) (used : gset Z) (r : res Error bool) : Prop :=
  match r with
  | Ok v => i < cap /\ v = bool_decide (i ∈ used)
  | Err e => cap <= i /\ code e = InvalidArgument
  | Panic => False
  end.

(** The contract. *)
Class BitAlloc (B : Type) := {
  ba_cap : B → Z;
  ba_used : B → gset Z;
  ba_usage : B → Z;
  ba_inv : B → Prop;
  ba_from_raw : list Z → res Error B;
  ba_alloc_range : Z → M B Error Z;
  ba_set : Z → M B Error unit;
  ba_clear : Z → M B Error unit;
  ba_test : B → Z → res Error bool;
  ba_inv_cap b : ba_inv b -> 0 < ba_cap b < u32_max;
  ba_inv_used b : ba_inv b -> ba_used b ⊆ range 0 (ba_cap b);
  ba_inv_usage b : ba_inv b -> ba_usage b = Z.of_nat (size (ba_used b));
  ba_from_raw_ok n : 0 < Z.of_nat n * 8 < u32_max ->
    exists b, ba_from_raw (replicate n 0) = Ok b /\ ba_inv b /\
      ba_cap b = Z.of_nat n * 8 /\ ba_used b = ∅;
  ba_alloc_range_ok b n r b' : ba_inv b -> 0 <= n -> ba_alloc_range n b = (r, b') ->
    ba_inv b' /\ ba_cap b' = ba_cap b /\ alloc_range_post (ba_cap b) n (ba_used b) (ba_used b') r;
  ba_set_ok b i r b' : ba_inv b -> 0 <= i -> ba_set i b = (r, b') ->
    ba_inv b' /\ ba_cap b' = ba_cap b /\ set_post (ba_cap b) i (ba_used b) (ba_used b') r;
  ba_clear_ok b i r b' : ba_inv b -> 0 <= i -> ba_clear i b = (r, b') ->
    ba_inv b' /\ ba_cap b' = ba_cap b /\ clear_post (ba_cap b) i (ba_used b) (ba_used b') r;
  ba_test_ok b i : ba_inv b -> 0 <= i -> test_post (ba_cap b) i (ba_used b) (ba_test b i)
}.

(** [alloc] is [alloc_range(1)]. *)
Definition ba_alloc {B} `{BitAlloc B} : M B Error Z := ba_alloc_range 1.

(** ** Lemmas on runs *)

Lemma elem_of_range p n i : i ∈ range p n <-> p <= i < p + n.
Proof. unfold range. by rewrite elem_of_list_to_set, elem_of_seqZ. Qed.

Lemma range_1 p : range p 1 = {[p]}.
Proof. apply set_eq. intros i. rewrite elem_of_range, elem_of_singleton. lia. Qed.

Lemma size_range p n : 0 <= n -> Z.of_nat (size (range p n)) = n.
Proof.
  intros. unfold range. rewrite size_list_to_set by apply NoDup_seqZ.
  rewrite length_seqZ. lia.
Qed.

Lemma size_used_le cap used : 0 <= cap -> used ⊆ range 0 cap ->
  Z.of_nat (size used) <= cap.
Proof. intros Hc Hs%subseteq_size. pose proof (size_range 0 cap). lia. Qed.

(** A run longer than what is left over cannot be free. *)
Lemma free_run_capacity cap used n p : 0 <= n -> 0 <= cap -> used ⊆ range 0 cap ->
  free_run cap used n p -> Z.of_nat (size used) + n <= cap.
Proof.
  intros Hn Hc Hu (H0 & H1 & Hd).
  assert (size (range p n ∪ used) <= size (range 0 cap))%nat as Hs.
  { apply subseteq_size. intros i [Hi|Hi]%elem_of_union; [|by apply Hu].
    apply elem_of_range in Hi. apply elem_of_range. lia. }
  rewrite size_union in Hs by done.
  pose proof (size_range p n). pose proof (size_range 0 cap). lia.
Qed.

(** A single index is free unless every index is used. *)
Lemma no_free_bit cap used : 0 <= cap -> used ⊆ range 0 cap ->
  (forall p, ~ free_run cap used 1 p) -> used = range 0 cap.
Proof.
  intros Hc Hu Hn. apply set_eq. intros i. split; [apply Hu|].
  intros Hi%elem_of_range.
  destruct (decide (i ∈ used)) as [|Hni]; [done|]. exfalso. apply (Hn i).
  split; [lia|]. split; [lia|]. rewrite range_1.
  by apply disjoint_singleton_l.
Qed.

(** ** The contract, for code that calls the operations *)
Section Calls.
Context {B : Type} `{BitAlloc B}.

Lemma ba_alloc_range_wp b n Q : ba_inv b -> 0 <= n ->
  (forall r b', ba_inv b' -> ba_cap b' = ba_cap b ->
     alloc_range_post (ba_cap b) n (ba_used b) (ba_used b') r -> Q r b') ->
  wp (ba_alloc_range n) b Q.
Proof.
  intros Hi Hn HQ. apply wp_intro. intros r b' E.
  destruct (ba_alloc_range_ok b n r b' Hi Hn E) as (? & ? & ?). by apply HQ.
Qed.

Lemma ba_set_wp b i Q : ba_inv b -> 0 <= i ->
  (forall r b', ba_inv b' -> ba_cap b' = ba_cap b ->
     set_post (ba_cap b) i (ba_used b) (ba_used b') r -> Q r b') -> wp (ba_set i) b Q.
Proof.
  intros Hi Hn HQ. apply wp_intro. intros r b' E.
  destruct (ba_set_ok b i r b' Hi Hn E) as (? & ? & ?). by apply HQ.
Qed.

Lemma ba_clear_wp b i Q : ba_inv b -> 0 <= i ->
  (forall r b', ba_inv b' -> ba_cap b' = ba_cap b ->
     clear_post (ba_cap b) i (ba_used b) (ba_used b') r -> Q r b') -> wp (ba_clear i) b Q.
Proof.
  intros Hi Hn HQ. apply wp_intro. intros r b' E.
  destruct (ba_clear_ok b i r b' Hi Hn E) as (? & ? & ?). by apply HQ.
Qed.

End Calls.
