(* ===== verification/Bitmap.v ===== *)
(** * Bitmap allocator

    [RawArray<u8>] ([src/libs/raw-array/src/lib.rs]) and [Bitmap]
    ([src/libs/bitmap/src/lib.rs]): first-fit search for a run of free bits with
    a rotating start hint, a skip over full bytes, and single-bit operations.
    The abstract view of a bitmap is the set of its set bits; the theorems state
    every operation as an operation on that set. *)

From S2P Require Import Prelude Error BitAlloc.
#[local] Open Scope Z_scope.

(** ** Raw arrays of bytes *)
Module RawArray.

(** [RawArrayStorage::new_managed] for [u8].  [alloc_ok] is the answer of the
    global allocator. *)
Definition new (alloc_ok : bool) (len : Z) : res Error (list Z) :=
  if (len =? 0) || (i32_max <=? len) then Err (mkError InvalidArgument "invalid length")
  else if isize_max <? len then Err (mkError InvalidArgument "invalid layout")
  else if negb alloc_ok then Err (mkError OutOfMemory "out of memory")
  else Ok (replicate (Z.to_nat len) 0).

(** [RawArrayStorage::new_unmanaged] for [u8], at address [ptr]. *)
Definition from_raw_parts (ptr len : Z) : res Error (list Z) :=
  if (len =? 0) || (i32_max <=? len) then Err (mkError InvalidArgument "invalid length")
  else if (ptr + len) mod 2 ^ usize_bits <? ptr
  then Err (mkError InvalidArgument "wrapping memory region")
  else if ptr =? 0 then Err (mkError InvalidArgument "invalid pointer")
  else Ok (replicate (Z.to_nat len) 0).

(** Indexing a slice panics out of range. *)
Definition get {E} (a : list Z) (i : Z) : res E Z :=
  match a !! Z.to_nat i with Some x => Ok x | None => Panic end.
Definition set {E} (a : list Z) (i v : Z) : res E (list Z) :=
  if i <? Z.of_nat (length a) then Ok (<[Z.to_nat i := v]> a) else Panic.

End RawArray.

(** ** The bitmap *)
Record Bitmap := mkBitmap {
  number_of_bits : Z;
  usage : Z;
  bits : list Z;
  next_free : Z
}.

Module Bitmap.

Definition new (alloc_ok : bool) (number_of_bits : Z) : res Error Bitmap :=
  if (number_of_bits =? 0) || (u32_max <=? number_of_bits)
  then Err (mkError InvalidArgument "invalid length")
  else if negb (number_of_bits mod 8 =? 0)
  then Err (mkError InvalidArgument "length must be a multiple of 8")
  else
    array ← RawArray.new alloc_ok (number_of_bits / 8);
    Ok (mkBitmap number_of_bits 0 array 0).

Definition from_raw_array (array : list Z) : res Error Bitmap :=
  match checked_mul (Z.of_nat (length array)) 8 with
  | Some n => Ok (mkBitmap n 0 array 0)
  | None => Err (mkError InvalidArgument "bitmap size overflow: array too large")
  end.

Definition index_unchecked (idx : Z) : Z * Z := (idx / 8, idx mod 8).

Definition index (b : Bitmap) (idx : Z) : res Error (Z * Z) :=
  if number_of_bits b <=? idx then Err (mkError InvalidArgument "index out of bounds")
  else Ok (index_unchecked idx).

(** [self.bits[w] & (1 << b) != 0]. *)
Definition bit_at (bs : list Z) (w b : Z) : res Error bool :=
  byte ← RawArray.get bs w;
  Ok (negb (Z.land byte (Z.shiftl 1 b) =? 0)).

Definition test (b : Bitmap) (idx : Z) : res Error bool :=
  '(word, bit) ← index b idx;
  bit_at (bits b) word bit.

(** The inner search loop: the offset of the first set bit among the [n] bits
    from [start + offset], if there is one. *)
Fixpoint blocked_at (n : nat) (bs : list Z) (start offset : Z) : res Error (option Z) :=
  match n with
  | O => Ok None
  | S n =>
    idx ← usize_add start offset;
    let '(w, b) := index_unchecked idx in
    used ← bit_at bs w b;
    if used : bool then Ok (Some offset)
    else
      offset ← usize_add offset 1;
      blocked_at n bs start offset
  end.

(** One iteration of the outer search loop at a start position that is still in
    play: skip a full byte, or look for a set bit in the run, and either stop
    with the run or go on, with [k], behind what was found. *)
Definition probe (b : Bitmap) (size start : Z) (k : Z → res Error (option Z))
    : res Error (option Z) :=
  full ← (if start mod 8 =? 0
          then byte ← RawArray.get (bits b) (start / 8); Ok (byte =? u8_max)
          else Ok false);
  if full : bool then
    start ← usize_add start 8;
    k start
  else
    blocked ← blocked_at (Z.to_nat size) (bits b) start 0;
    match blocked with
    | None => Ok (Some start)
    | Some offset =>
      step ← usize_add offset 1;
      start ← usize_add start step;
      k start
    end.

(** The outer search loop.  [None] is the exit through [done]; running out of
    fuel is a panic. *)
Fixpoint scan (fuel : nat) (b : Bitmap) (size initial_start start : Z) (wrapped : bool)
    : res Error (option Z) :=
  match fuel with
  | O => Panic
  | S fuel =>
    limit ← usize_sub (number_of_bits b) size;
    let '(start, wrapped, done) :=
      if limit <? start then
        if negb wrapped && (0 <? initial_start) then (0, true, false)
        else (start, wrapped, true)
      else (start, wrapped, false) in
    let done := done || (wrapped && (initial_start <=? start)) in
    if done : bool then Ok None
    else probe b size start (fun start => scan fuel b size initial_start start wrapped)
  end.

(** The loop that marks the [n] bits from [start + alloc_offset] as used. *)
Fixpoint mark_range (n : nat) (bs : list Z) (start alloc_offset : Z) : res Error (list Z) :=
  match n with
  | O => Ok bs
  | S n =>
    idx ← usize_add start alloc_offset;
    let '(w, b) := index_unchecked idx in
    byte ← RawArray.get bs w;
    bs ← RawArray.set bs w (Z.lor byte (Z.shiftl 1 b));
    mark_range n bs start (alloc_offset + 1)
  end.

(** Iterations the outer loop can need: one pass from the hint to the end and
    one from the beginning back to the hint. *)
Definition scan_fuel (b : Bitmap) : nat := Z.to_nat (2 * number_of_bits b + 4).

Definition alloc_range (size : Z) : M Bitmap Error Z :=
  b ← get;
  if (size =? 0) || (number_of_bits b <? size)
  then fail (mkError InvalidArgument "invalid size")
  else
    limit ← lift (usize_sub (number_of_bits b) size);
    if limit <? usage b
    then fail (mkError OutOfMemory "allocation exceeds bitmap capacity")
    else if negb (Z.of_nat (length (bits b)) * 8 =? number_of_bits b) then panic
    else
      found ← lift (scan (scan_fuel b) b size (next_free b) (next_free b) false);
      match found with
      | Some start =>
        bs ← lift (mark_range (Z.to_nat size) (bits b) start 0);
        usage' ← lift (usize_add (usage b) size);
        next_free' ← lift (usize_add start size);
        put (mkBitmap (number_of_bits b) usage' bs next_free');;
        mret start
      | None => fail (mkError OutOfMemory "bitmap is full")
      end.

Definition alloc : M Bitmap Error Z := alloc_range 1.

Definition set (idx : Z) : M Bitmap Error unit :=
  b ← get;
  used ← lift (test b idx);
  if used : bool then fail (mkError ResourceBusy "bit is already set")
  else
    '(word, bit) ← lift (index b idx);
    byte ← lift (RawArray.get (bits b) word);
    bs ← lift (RawArray.set (bits b) word (Z.lor byte (Z.shiftl 1 bit)));
    usage' ← lift (usize_add (usage b) 1);
    put (mkBitmap (number_of_bits b) usage' bs (next_free b)).

Definition clear (idx : Z) : M Bitmap Error unit :=
  b ← get;
  used ← lift (test b idx);
  if negb used then fail (mkError BadAddress "bit is already cleared")
  else
    '(word, bit) ← lift (index b idx);
    byte ← lift (RawArray.get (bits b) word);
    bs ← lift (RawArray.set (bits b) word (Z.land byte (u8_not (Z.shiftl 1 bit))));
    usage' ← lift (usize_sub (usage b) 1);
    put (mkBitmap (number_of_bits b) usage' bs
           (if idx <? next_free b then idx else next_free b)).

(** ** Abstract view *)

(** Bit [i] is set. *)
Definition is_set (bs : list Z) (i : Z) : bool :=
  Z.testbit (bs !!! Z.to_nat (i / 8)) (i mod 8).

(** The set of allocated indices. *)
Definition view (b : Bitmap) : gset Z :=
  list_to_set (filter (fun i => is_set (bits b) i = true) (seqZ 0 (number_of_bits b))).

Definition bytes_ok (bs : list Z) : Prop := Forall (fun x => 0 <= x < 256) bs.

Record inv (b : Bitmap) : Prop := {
  inv_pos : 0 < number_of_bits b;
  inv_max : number_of_bits b < u32_max;
  inv_len : Z.of_nat (length (bits b)) * 8 = number_of_bits b;
  inv_bytes : bytes_ok (bits b);
  inv_usage : usage b = Z.of_nat (size (view b));
  inv_hint : 0 <= next_free b <= number_of_bits b
}.

(** ** Lemmas on bits *)

Implicit Types (bs : list Z) (b : Bitmap).
#[local] Arguments bit_at : simpl never.
#[local] Arguments RawArray.get : simpl never.
#[local] Arguments RawArray.set : simpl never.
#[local] Arguments Z.mul : simpl never.

Lemma get_ok {E} bs w : 0 <= w < Z.of_nat (length bs) ->
  RawArray.get (E:=E) bs w = Ok (bs !!! Z.to_nat w).
Proof.
  intros Hw. unfold RawArray.get.
  destruct (lookup_lt_is_Some_2 bs (Z.to_nat w)) as [x Hx]; [lia|].
  by rewrite Hx, (list_lookup_total_correct _ _ _ Hx).
Qed.

Lemma byte_range bs w : bytes_ok bs -> 0 <= w < Z.of_nat (length bs) ->
  0 <= bs !!! Z.to_nat w < 256.
Proof.
  intros Hb Hw. destruct (lookup_lt_is_Some_2 bs (Z.to_nat w)) as [x Hx]; [lia|].
  rewrite (list_lookup_total_correct _ _ _ Hx). eapply (Forall_lookup_1 _ _ _ _ Hb Hx).
Qed.

Lemma word_range bs i : 0 <= i < Z.of_nat (length bs) * 8 ->
  0 <= i / 8 < Z.of_nat (length bs) /\ 0 <= i mod 8 < 8.
Proof.
  intros Hi. split; [|apply Z.mod_pos_bound; lia].
  split; [apply Z.div_pos; lia|apply Z.div_lt_upper_bound; lia].
Qed.

Lemma bit_at_ok bs i : bytes_ok bs -> 0 <= i < Z.of_nat (length bs) * 8 ->
  bit_at bs (i / 8) (i mod 8) = Ok (is_set bs i).
Proof.
  intros Hb Hi. destruct (word_range bs i Hi) as [Hw Hk].
  unfold bit_at. rewrite get_ok by done. simpl.
  by rewrite u8_test_bit by (try apply byte_range; done).
Qed.

(** Writing bit [i] with a byte operation that changes just that bit. *)
Lemma update_bit bs i f v :
  bytes_ok bs -> 0 <= i < Z.of_nat (length bs) * 8 ->
  (forall x k, 0 <= x < 256 -> 0 <= k < 8 -> u8_update_ok f v x k = true) ->
  let bs' := <[Z.to_nat (i / 8) := f (bs !!! Z.to_nat (i / 8)) (i mod 8)]> bs in
  bytes_ok bs' /\ length bs' = length bs /\
  forall j, 0 <= j < Z.of_nat (length bs) * 8 ->
    is_set bs' j = if j =? i then v else is_set bs j.
Proof.
  intros Hb Hi Hf bs'. destruct (word_range bs i Hi) as [Hw Hk].
  destruct (u8_update_spec _ _ _ _ (Hf _ _ (byte_range bs _ Hb Hw) Hk)) as [Hr Ht].
  split; [by apply Forall_insert|]. split; [apply length_insert|].
  intros j Hj. destruct (word_range bs j Hj) as [Hwj Hkj]. unfold is_set, bs'.
  pose proof (Z.div_mod i 8) as Di. pose proof (Z.div_mod j 8) as Dj.
  destruct (decide (i / 8 = j / 8)) as [E|E].
  - rewrite <- E, list_lookup_total_insert_eq by lia. rewrite Ht by lia.
    destruct (Z.eqb_spec (j mod 8) (i mod 8)), (Z.eqb_spec j i); try done; lia.
  - rewrite list_lookup_total_insert_ne by lia.
    destruct (Z.eqb_spec j i); [congruence|done].
Qed.

Lemma RawArray_set_ok {E} bs w v : 0 <= w < Z.of_nat (length bs) ->
  RawArray.set (E:=E) bs w v = Ok (<[Z.to_nat w := v]> bs).
Proof. intros. unfold RawArray.set. zbool; [done|lia]. Qed.

Lemma is_set_zeros n i : 0 <= i < Z.of_nat n * 8 -> is_set (replicate n 0) i = false.
Proof.
  intros Hi. destruct (word_range (replicate n 0) i) as [Hw _];
    rewrite ?length_replicate in *; [done|].
  unfold is_set. rewrite lookup_total_replicate_2 by lia. apply Z.testbit_0_l.
Qed.

(** ** Lemmas on the view *)

Lemma elem_of_view b i :
  i ∈ view b <-> 0 <= i < number_of_bits b /\ is_set (bits b) i = true.
Proof.
  unfold view. rewrite elem_of_list_to_set, list_elem_of_filter, elem_of_seqZ, Z.add_0_l. tauto.
Qed.

Lemma view_subset b : view b ⊆ range 0 (number_of_bits b).
Proof. intros i [Hi _]%elem_of_view. apply elem_of_range. lia. Qed.

(** Changing one bit changes one element of the view. *)
Lemma view_update b b' i v :
  number_of_bits b' = number_of_bits b -> 0 <= i < number_of_bits b ->
  (forall j, 0 <= j < number_of_bits b ->
     is_set (bits b') j = if j =? i then v else is_set (bits b) j) ->
  view b' = if v : bool then {[i]} ∪ view b else view b ∖ {[i]}.
Proof.
  intros Hn Hi H. apply set_eq. intros j. rewrite elem_of_view, Hn.
  destruct v; rewrite ?elem_of_union, ?elem_of_difference, elem_of_singleton, elem_of_view;
    (split; [intros [Hj E]|intros Hj]).
  - rewrite H in E by done. destruct (Z.eqb_spec j i); tauto.
  - assert (0 <= j < number_of_bits b) by (destruct Hj as [->|[? _]]; done).
    split; [done|]. rewrite H by done. destruct (Z.eqb_spec j i); tauto.
  - rewrite H in E by done. destruct (Z.eqb_spec j i); [discriminate|tauto].
  - destruct Hj as [[Hj E] Hne]. split; [done|]. rewrite H by done.
    destruct (Z.eqb_spec j i); tauto.
Qed.

(** ** The loops *)

Lemma blocked_at_spec n bs start offset :
  bytes_ok bs -> Z.of_nat (length bs) * 8 <= usize_max ->
  0 <= start -> 0 <= offset -> start + offset + Z.of_nat n <= Z.of_nat (length bs) * 8 ->
  exists r, blocked_at n bs start offset = Ok r /\
    match r with
    | None => forall j, start + offset <= j < start + offset + Z.of_nat n -> is_set bs j = false
    | Some o => offset <= o < offset + Z.of_nat n /\ is_set bs (start + o) = true
    end.
Proof.
  intros Hb Hm Hs. revert offset. induction n as [|n IH]; intros offset Ho Hl.
  - exists None. split; [done|]. lia.
  - simpl. rewrite (usize_add_ok start offset) by lia. simpl. rewrite bit_at_ok by (try done; lia). simpl.
    destruct (is_set bs (start + offset)) eqn:E.
    + exists (Some offset). split; [done|]. split; [lia|done].
    + rewrite usize_add_ok by lia. simpl.
      destruct (IH (offset + 1)) as (r & -> & Hr); [lia|lia|]. exists r. split; [done|].
      destruct r as [o|].
      * split; [lia|]. apply Hr.
      * intros j Hj. destruct (decide (j = start + offset)) as [->|]; [done|]. apply Hr. lia.
Qed.

Lemma mark_range_spec n bs start offset :
  bytes_ok bs -> Z.of_nat (length bs) * 8 <= usize_max ->
  0 <= start -> 0 <= offset -> start + offset + Z.of_nat n <= Z.of_nat (length bs) * 8 ->
  exists bs', mark_range n bs start offset = Ok bs' /\
    bytes_ok bs' /\ length bs' = length bs /\
    forall j, 0 <= j < Z.of_nat (length bs) * 8 ->
      is_set bs' j = is_set bs j || bool_decide (start + offset <= j < start + offset + Z.of_nat n).
Proof.
  intros Hb Hm Hs. revert bs offset Hb Hm. induction n as [|n IH]; intros bs offset Hb Hm Ho Hl.
  - exists bs. repeat split; try done. intros j Hj.
    rewrite bool_decide_false by lia. by rewrite orb_false_r.
  - cbn [mark_range]. rewrite usize_add_ok by lia. simpl.
    destruct (word_range bs (start + offset)) as [Hw Hk]; [lia|].
    rewrite get_ok by done. simpl. rewrite RawArray_set_ok by done. simpl.
    destruct (update_bit bs (start + offset) _ true Hb ltac:(lia) u8_set_bit) as (Hb' & Hlen & Hset).
    destruct (IH _ (offset + 1) Hb') as (bs' & -> & Hb'' & Hlen' & Hset'); [rewrite ?Hlen; lia..|].
    exists bs'. repeat split; [done..|congruence|].
    intros j Hj. rewrite Hset', Hset by (rewrite ?Hlen; done).
    destruct (Z.eqb_spec j (start + offset)) as [->|].
    + rewrite (bool_decide_true (start + offset <= start + offset < _)) by lia. by rewrite orb_true_r.
    + f_equal. apply bool_decide_ext. lia.
Qed.

Lemma free_run_bits b n p :
  free_run (number_of_bits b) (view b) n p <->
  0 <= p /\ p + n <= number_of_bits b /\ forall j, p <= j < p + n -> is_set (bits b) j = false.
Proof.
  unfold free_run. split; intros (H0 & H1 & H2); (split; [done|split; [done|]]).
  - intros j Hj. destruct (is_set (bits b) j) eqn:E; [|done].
    exfalso. apply (H2 j); [by apply elem_of_range|]. apply elem_of_view. split; [lia|done].
  - intros j Hr%elem_of_range Hv%elem_of_view. rewrite H2 in Hv by done. by destruct Hv.
Qed.

(** The test for a full byte does not panic and means what it says. *)
Lemma full_byte_spec b start : inv b -> 0 <= start < number_of_bits b ->
  exists full,
    (if start mod 8 =? 0
     then byte ← RawArray.get (bits b) (start / 8); Ok (byte =? u8_max)
     else Ok (E:=Error) false) = Ok full /\
    (full = true -> start + 8 <= number_of_bits b /\
       forall j, start <= j < start + 8 -> is_set (bits b) j = true).
Proof.
  intros Hi Hs. pose proof (inv_len b Hi) as Hlen.
  destruct (Z.eqb_spec (start mod 8) 0) as [Ha|Ha]; [|exists false; done].
  destruct (word_range (bits b) start) as [Hw _]; [lia|].
  rewrite get_ok by done. simpl. eexists. split; [done|]. unfold u8_max.
  intros Hf%Z.eqb_eq. pose proof (Z.div_mod start 8). split; [lia|].
  intros j Hj. unfold is_set. replace (j / 8) with (start / 8).
  - apply u8_full; [done|]. apply Z.mod_pos_bound. lia.
  - apply Z.div_unique with (j - start); lia.
Qed.

(** A probe either finds a free run or moves past positions that start none. *)
Lemma probe_spec b n start k :
  inv b -> 0 < n -> 0 <= start -> start + n <= number_of_bits b ->
  probe b n start k = Ok (Some start) /\ free_run (number_of_bits b) (view b) n start \/
  exists start', probe b n start k = k start' /\ start < start' <= number_of_bits b /\
    forall p, free_run (number_of_bits b) (view b) n p -> p < start \/ start' <= p.
Proof.
  intros Hi Hn Hs Hl. pose proof (inv_len b Hi) as Hlen. pose proof (inv_max b Hi) as Hmax.
  unfold probe. destruct (full_byte_spec b start Hi ltac:(lia)) as (full & -> & Hfull). simpl.
  destruct full.
  - destruct Hfull as [Hend Hfull]; [done|]. right. exists (start + 8).
    rewrite usize_add_ok by width. split; [done|]. split; [lia|].
    intros p (_ & _ & Hp)%free_run_bits.
    destruct (decide (p < start \/ start + 8 <= p)); [done|].
    exfalso. specialize (Hp p ltac:(lia)). rewrite Hfull in Hp by lia. done.
  - clear Hfull.
    destruct (blocked_at_spec (Z.to_nat n) (bits b) start 0) as (r & -> & Hr);
      [apply Hi|width|lia|lia|lia|]. simpl.
    destruct r as [o|].
    + right. exists (start + (o + 1)). destruct Hr as [Ho Hset].
      rewrite usize_add_ok by width. simpl. rewrite usize_add_ok by width. simpl.
      split; [done|]. split; [lia|]. intros p (_ & _ & Hp)%free_run_bits.
      destruct (decide (p < start \/ start + (o + 1) <= p)); [done|].
      exfalso. rewrite Hp in Hset by lia. done.
    + left. split; [done|]. apply free_run_bits. split; [done|]. split; [done|].
      intros j Hj. apply Hr. lia.
Qed.

(** Enough fuel for the rest of the search. *)
Definition scan_measure b start (wrapped : bool) : Z :=
  (if wrapped then 0 else number_of_bits b + 2) + (number_of_bits b + 1 - start).

(** Every free run that exists is still ahead of the search. *)
Definition ahead b n initial start (wrapped : bool) : Prop :=
  forall p, free_run (number_of_bits b) (view b) n p ->
    if wrapped then start <= p < initial else p < initial \/ start <= p.

Definition found_post b n (r : option Z) : Prop :=
  match r with
  | Some p => free_run (number_of_bits b) (view b) n p
  | None => forall p, ~ free_run (number_of_bits b) (view b) n p
  end.

Lemma scan_spec fuel b n initial start wrapped :
  inv b -> 0 < n <= number_of_bits b -> 0 <= initial -> 0 <= start <= number_of_bits b ->
  ahead b n initial start wrapped -> scan_measure b start wrapped < Z.of_nat fuel ->
  exists r, scan fuel b n initial start wrapped = Ok r /\
    found_post b n r.
Proof.
  intros Hi Hn Hin. revert start wrapped.
  induction fuel as [|fuel IH]; intros start wrapped Hs Ha Hf.
  { unfold scan_measure in Hf. destruct wrapped; lia. }
  assert (forall start wrapped, 0 <= start -> start + n <= number_of_bits b ->
    ahead b n initial start wrapped -> scan_measure b start wrapped <= Z.of_nat fuel ->
    exists r, probe b n start (fun start => scan fuel b n initial start wrapped) = Ok r /\
      found_post b n r) as Hprobe.
  { clear start wrapped Hs Ha Hf. intros start wrapped Hs Hl Ha Hf.
    destruct (probe_spec b n start (fun start => scan fuel b n initial start wrapped) Hi)
      as [[-> Hfree]|(start' & -> & Hs' & Hskip)]; [lia..| |].
    - by exists (Some start).
    - apply IH; [lia| |unfold scan_measure in *; lia].
      intros p Hp. specialize (Ha p Hp). specialize (Hskip p Hp). destruct wrapped; lia. }
  simpl. rewrite usize_sub_ok by lia. simpl.
  assert (Hpos : forall p, free_run (number_of_bits b) (view b) n p -> 0 <= p /\ p <= number_of_bits b - n).
  { intros p (? & ? & _). lia. }
  destruct (Z.ltb_spec (number_of_bits b - n) start) as [Hlt|Hge].
  - destruct wrapped; simpl.
    + exists None. split; [done|]. intros p Hp. specialize (Ha p Hp). specialize (Hpos p Hp). simpl in Ha. lia.
    + destruct (Z.ltb_spec 0 initial) as [H0|H0]; simpl.
      * rewrite (proj2 (Z.leb_gt initial 0)) by lia. apply Hprobe; [lia|lia| |].
        -- intros p Hp. specialize (Ha p Hp). specialize (Hpos p Hp). simpl in Ha |- *. lia.
        -- unfold scan_measure in *. lia.
      * exists None. split; [done|]. intros p Hp. specialize (Ha p Hp). specialize (Hpos p Hp). simpl in Ha. lia.
  - simpl. destruct (wrapped && (initial <=? start)) eqn:E.
    + apply andb_prop in E as [-> E%Z.leb_le]. exists None. split; [done|].
      intros p Hp. specialize (Ha p Hp). simpl in Ha. lia.
    + apply Hprobe; [lia|lia|done|lia].
Qed.

(** ** The operations *)

Lemma test_ok b i : inv b -> 0 <= i -> test_post (number_of_bits b) i (view b) (test b i).
Proof.
  intros Hi H0. unfold test, index. zbool; simpl; [done|].
  rewrite bit_at_ok by (try apply Hi; rewrite ?inv_len by done; lia). simpl. split; [done|].
  symmetry. destruct (is_set (bits b) i) eqn:E.
  - apply bool_decide_true, elem_of_view. split; [lia|done].
  - apply bool_decide_false. rewrite elem_of_view. intros [_ ?]. congruence.
Qed.

(** [test] on an index in range, for rewriting in the callers. *)
Lemma test_in_range b i : inv b -> 0 <= i < number_of_bits b ->
  test b i = Ok (bool_decide (i ∈ view b)) /\ index b i = Ok (i / 8, i mod 8).
Proof.
  intros Hi Hr. pose proof (test_ok b i Hi ltac:(lia)) as Ht.
  unfold index. zbool; [lia|]. split; [|done].
  destruct (test b i); simpl in Ht; [by destruct Ht as [_ ->]|lia|done].
Qed.

(** Writing one bit, with the bookkeeping of the caller, keeps the invariant. *)
Lemma inv_update b bs' u h i v :
  inv b -> 0 <= i < number_of_bits b -> bytes_ok bs' -> length bs' = length (bits b) ->
  (forall j, 0 <= j < Z.of_nat (length (bits b)) * 8 ->
     is_set bs' j = if j =? i then v else is_set (bits b) j) ->
  let used' := if v : bool then {[i]} ∪ view b else view b ∖ {[i]} in
  u = Z.of_nat (size used') -> 0 <= h <= number_of_bits b ->
  inv (mkBitmap (number_of_bits b) u bs' h) /\
  view (mkBitmap (number_of_bits b) u bs' h) = used'.
Proof.
  intros Hi Hr Hb Hlen Hset used' Hu Hh. rewrite (inv_len b Hi) in Hset.
  assert (view (mkBitmap (number_of_bits b) u bs' h) = used') as Hv
    by (by apply (view_update b _ i v)).
  split; [|done]. destruct Hi. split; simpl; [done..|congruence|done| |done]. by rewrite Hv.
Qed.

Lemma set_ok b i r b' : inv b -> 0 <= i -> set i b = (r, b') ->
  inv b' /\ number_of_bits b' = number_of_bits b /\
  set_post (number_of_bits b) i (view b) (view b') r.
Proof.
  intros Hi H0. unfold set, mbind, M_bind, get, lift. simpl.
  destruct (decide (i < number_of_bits b)) as [Hlt|Hge].
  2: { unfold test, index. rewrite (proj2 (Z.leb_le _ _)) by lia. simpl. intros [= <- <-].
       split; [done|]. split; [done|]. simpl. by rewrite decide_False. }
  destruct (test_in_range b i Hi ltac:(lia)) as [-> ->].
  destruct (bool_decide_reflect (i ∈ view b)) as [Hin|Hni].
  { intros [= <- <-]. split; [done|]. split; [done|]. simpl. by rewrite decide_True. }
  pose proof (inv_len b Hi) as Hlen. pose proof (inv_max b Hi) as Hmax.
  destruct (word_range (bits b) i) as [Hw _]; [lia|].
  rewrite get_ok, RawArray_set_ok by done.
  assert (usage b <= number_of_bits b) as Hule.
  { rewrite (inv_usage b Hi). apply size_used_le; [lia|apply view_subset]. }
  rewrite usize_add_ok by width. intros [= <- <-].
  destruct (update_bit (bits b) i _ true (inv_bytes b Hi) ltac:(lia) u8_set_bit)
    as (Hb & Hl & Hs).
  destruct (inv_update b _ (usage b + 1) (next_free b) i true Hi ltac:(lia) Hb Hl Hs)
    as [? Hv]; [|apply Hi|].
  - rewrite (inv_usage b Hi), size_union, size_singleton by set_solver. lia.
  - split; [done|]. split; [done|]. simpl. split; [done|]. split; [done|exact Hv].
Qed.

Lemma clear_ok b i r b' : inv b -> 0 <= i -> clear i b = (r, b') ->
  inv b' /\ number_of_bits b' = number_of_bits b /\
  clear_post (number_of_bits b) i (view b) (view b') r.
Proof.
  intros Hi H0. unfold clear, mbind, M_bind, get, lift. simpl.
  destruct (decide (i < number_of_bits b)) as [Hlt|Hge].
  2: { unfold test, index. rewrite (proj2 (Z.leb_le _ _)) by lia. simpl. intros [= <- <-].
       split; [done|]. split; [done|]. simpl. by rewrite decide_False. }
  destruct (test_in_range b i Hi ltac:(lia)) as [-> ->].
  destruct (bool_decide_reflect (i ∈ view b)) as [Hin|Hni]; simpl.
  2: { intros [= <- <-]. split; [done|]. split; [done|]. simpl. by rewrite decide_True. }
  pose proof (inv_len b Hi) as Hlen. pose proof (inv_hint b Hi) as Hh.
  destruct (word_range (bits b) i) as [Hw _]; [lia|].
  rewrite get_ok, RawArray_set_ok by done.
  assert (1 <= usage b) as Hu.
  { rewrite (inv_usage b Hi). assert (size (view b) <> 0)%nat; [|lia].
    rewrite size_empty_iff. set_solver. }
  rewrite usize_sub_ok by done. intros [= <- <-].
  destruct (update_bit (bits b) i _ false (inv_bytes b Hi) ltac:(lia) u8_clear_bit)
    as (Hb & Hl & Hs).
  destruct (inv_update b _ (usage b - 1) (if i <? next_free b then i else next_free b)
    i false Hi ltac:(lia) Hb Hl Hs) as [? Hv]; [|zbool; lia|].
  - rewrite (inv_usage b Hi), size_difference, size_singleton by set_solver.
    rewrite (inv_usage b Hi) in Hu. lia.
  - split; [done|]. split; [done|]. simpl. split; [done|]. split; [done|exact Hv].
Qed.

(** The state after a run was found and marked. *)
Lemma inv_mark b bs' p n :
  inv b -> 0 < n -> free_run (number_of_bits b) (view b) n p ->
  bytes_ok bs' -> length bs' = length (bits b) ->
  (forall j, 0 <= j < Z.of_nat (length (bits b)) * 8 ->
     is_set bs' j = is_set (bits b) j || bool_decide (p + 0 <= j < p + 0 + n)) ->
  let b' := mkBitmap (number_of_bits b) (usage b + n) bs' (p + n) in
  inv b' /\ view b' = range p n ∪ view b.
Proof.
  intros Hi Hn Hf Hb Hlen Hset b'. pose proof (inv_len b Hi) as Hl.
  pose proof Hf as (Hp & Hend & Hdis).
  assert (view b' = range p n ∪ view b) as Hv.
  { apply set_eq. intros j. rewrite elem_of_union, elem_of_range, !elem_of_view. simpl. split.
    - intros [Hj E]. rewrite Hset in E by lia.
      destruct (is_set (bits b) j); [by right|]. apply bool_decide_eq_true in E. left. lia.
    - intros Hj. assert (0 <= j < number_of_bits b) by lia. split; [done|].
      rewrite Hset by lia. destruct Hj as [Hj|[_ ->]]; [|done].
      rewrite bool_decide_true by lia. apply orb_true_r. }
  split; [|done]. destruct Hi. split; simpl; [done..|congruence|done| |lia].
  rewrite Hv, size_union by done. pose proof (size_range p n). lia.
Qed.

Lemma alloc_range_ok b n r b' : inv b -> 0 <= n -> alloc_range n b = (r, b') ->
  inv b' /\ number_of_bits b' = number_of_bits b /\
  alloc_range_post (number_of_bits b) n (view b) (view b') r.
Proof.
  intros Hi H0. pose proof (inv_len b Hi) as Hlen. pose proof (inv_max b Hi) as Hmax.
  pose proof (inv_hint b Hi) as Hh. pose proof (inv_pos b Hi) as Hpos.
  unfold alloc_range, mbind, M_bind, get, lift. simpl.
  destruct (decide (n = 0 \/ number_of_bits b < n)) as [Hbad|Hgood].
  { replace ((n =? 0) || (number_of_bits b <? n)) with true by (symmetry; lia).
    intros [= <- <-]. simpl. by rewrite decide_True. }
  replace ((n =? 0) || (number_of_bits b <? n)) with false by (symmetry; lia).
  rewrite usize_sub_ok by lia. rewrite (inv_usage b Hi).
  destruct (Z.ltb_spec (number_of_bits b - n) (Z.of_nat (size (view b)))) as [Hcap|Hcap].
  { intros [= <- <-]. simpl. rewrite decide_False by done.
    split; [done|]. split; [done|]. split; [done|]. split; [done|].
    intros p Hp%free_run_capacity; [lia|lia|lia|apply view_subset]. }
  rewrite (proj2 (Z.eqb_eq _ _)) by done. simpl.
  destruct (scan_spec (scan_fuel b) b n (next_free b) (next_free b) false Hi) as (f & -> & Hf);
    [lia|lia|lia|intros p _; simpl; lia|unfold scan_measure, scan_fuel; lia|].
  destruct f as [p|]; simpl in Hf; intros Heq.
  - pose proof Hf as (Hp & Hend & _).
    destruct (mark_range_spec (Z.to_nat n) (bits b) p 0 (inv_bytes b Hi))
      as (bs' & Hm & Hb' & Hl' & Hs'); [width|lia..|].
    rewrite Hm in Heq. rewrite !usize_add_ok in Heq by width. injection Heq as <- <-.
    rewrite Z2Nat.id in Hs' by lia. rewrite <- (inv_usage b Hi).
    destruct (inv_mark b bs' p n Hi) as [Hi' Hv]; [lia|done..|].
    split; [done|]. split; [done|]. simpl. split; [lia|done].
  - injection Heq as <- <-. simpl. by rewrite decide_False.
Qed.

(** ** Construction *)

Lemma inv_zeros n : 0 < Z.of_nat n * 8 < u32_max ->
  inv (mkBitmap (Z.of_nat n * 8) 0 (replicate n 0) 0) /\
  view (mkBitmap (Z.of_nat n * 8) 0 (replicate n 0) 0) = ∅.
Proof.
  intros Hn. assert (view (mkBitmap (Z.of_nat n * 8) 0 (replicate n 0) 0) = ∅) as Hv.
  { apply set_eq. intros i. rewrite elem_of_view. simpl. split; [|set_solver].
    intros [Hi E]. rewrite is_set_zeros in E; done. }
  split; [|done]. split; simpl; [lia|lia|by rewrite length_replicate| |by rewrite Hv|lia].
  apply Forall_replicate. lia.
Qed.

Lemma from_raw_array_ok n : 0 < Z.of_nat n * 8 < u32_max ->
  exists b, from_raw_array (replicate n 0) = Ok b /\ inv b /\
    number_of_bits b = Z.of_nat n * 8 /\ view b = ∅.
Proof.
  intros Hn. exists (mkBitmap (Z.of_nat n * 8) 0 (replicate n 0) 0).
  destruct (inv_zeros n Hn). split; [|done]. unfold from_raw_array, checked_mul.
  rewrite length_replicate, (proj2 (Z.leb_le _ _)) by width. done.
Qed.

End Bitmap.

(** The bitmap is a bit allocator. *)
#[export] Program Instance Bitmap_BitAlloc : BitAlloc Bitmap := {
  ba_cap := number_of_bits;
  ba_used := Bitmap.view;
  ba_usage := usage;
  ba_inv := Bitmap.inv;
  ba_from_raw := Bitmap.from_raw_array;
  ba_alloc_range := Bitmap.alloc_range;
  ba_set := Bitmap.set;
  ba_clear := Bitmap.clear;
  ba_test := Bitmap.test;
  ba_inv_usage := Bitmap.inv_usage;
  ba_from_raw_ok := Bitmap.from_raw_array_ok;
  ba_alloc_range_ok := Bitmap.alloc_range_ok;
  ba_set_ok := Bitmap.set_ok;
  ba_clear_ok := Bitmap.clear_ok;
  ba_test_ok := Bitmap.test_ok
}.
Next Obligation. intros b Hi. split; apply Hi. Qed.
Next Obligation. intros b _. apply Bitmap.view_subset. Qed.

(** ** Sequences of operations refine a set *)
Module BitmapTrace.

Inductive op :=
| OpAllocRange (n : Z)
| OpSet (i : Z)
| OpClear (i : Z)
| OpTest (i : Z).

Inductive ans :=
| AnsIndex (r : res Error Z)
| AnsUnit (r : res Error unit)
| AnsBool (r : res Error bool).

(** The arguments are of type [usize]. *)
Definition op_wf (o : op) : Prop :=
  match o with OpAllocRange x | OpSet x | OpClear x | OpTest x => 0 <= x end.

Definition step (o : op) (b : Bitmap) : ans * Bitmap :=
  match o with
  | OpAllocRange n => let '(r, b) := Bitmap.alloc_range n b in (AnsIndex r, b)
  | OpSet i => let '(r, b) := Bitmap.set i b in (AnsUnit r, b)
  | OpClear i => let '(r, b) := Bitmap.clear i b in (AnsUnit r, b)
  | OpTest i => (AnsBool (Bitmap.test b i), b)
  end.

Fixpoint run (ops : list op) (b : Bitmap) : list ans * Bitmap :=
  match ops with
  | [] => ([], b)
  | o :: ops =>
    let '(a, b) := step o b in
    let '(tr, b) := run ops b in (a :: tr, b)
  end.

(** The specification: a set of indices below [cap]. *)
Inductive spec_step (cap : Z) : op → ans → gset Z → gset Z → Prop :=
| spec_alloc n r u u' : alloc_range_post cap n u u' r ->
    spec_step cap (OpAllocRange n) (AnsIndex r) u u'
| spec_set i r u u' : set_post cap i u u' r -> spec_step cap (OpSet i) (AnsUnit r) u u'
| spec_clear i r u u' : clear_post cap i u u' r -> spec_step cap (OpClear i) (AnsUnit r) u u'
| spec_test i r u : test_post cap i u r -> spec_step cap (OpTest i) (AnsBool r) u u.

Inductive spec_run (cap : Z) : list op → list ans → gset Z → gset Z → Prop :=
| spec_nil u : spec_run cap [] [] u u
| spec_cons o a ops tr u u' u'' : spec_step cap o a u u' -> spec_run cap ops tr u' u'' ->
    spec_run cap (o :: ops) (a :: tr) u u''.

Lemma step_ok o b a b' : Bitmap.inv b -> op_wf o -> step o b = (a, b') ->
  Bitmap.inv b' /\ number_of_bits b' = number_of_bits b /\
  spec_step (number_of_bits b) o a (Bitmap.view b) (Bitmap.view b').
Proof.
  intros Hi Hw. destruct o as [n|i|i|i]; simpl in *.
  - destruct (Bitmap.alloc_range n b) as [r b1] eqn:E. intros [= <- <-].
    destruct (Bitmap.alloc_range_ok _ _ _ _ Hi Hw E) as (? & ? & ?). splits; done || by constructor.
  - destruct (Bitmap.set i b) as [r b1] eqn:E. intros [= <- <-].
    destruct (Bitmap.set_ok _ _ _ _ Hi Hw E) as (? & ? & ?). splits; done || by constructor.
  - destruct (Bitmap.clear i b) as [r b1] eqn:E. intros [= <- <-].
    destruct (Bitmap.clear_ok _ _ _ _ Hi Hw E) as (? & ? & ?). splits; done || by constructor.
  - intros [= <- <-]. pose proof (Bitmap.test_ok b i Hi Hw). splits; done || by constructor.
Qed.

Lemma run_ok ops b tr b' : Bitmap.inv b -> Forall op_wf ops -> run ops b = (tr, b') ->
  Bitmap.inv b' /\ spec_run (number_of_bits b) ops tr (Bitmap.view b) (Bitmap.view b').
Proof.
  intros Hi Hw. revert b tr Hi. induction Hw as [|o ops Ho Hw IH]; intros b tr Hi; simpl.
  { intros [= <- <-]. split; [done|constructor]. }
  destruct (step o b) as [a b1] eqn:Es, (run ops b1) as [tr1 b2] eqn:Er. intros [= <- <-].
  destruct (step_ok _ _ _ _ Hi Ho Es) as (Hi1 & Hn & Hs).
  destruct (IH _ _ Hi1 Er) as [Hi2 Hr]. rewrite Hn in Hr. split; [done|]. by econstructor.
Qed.

Lemma new_ok alloc_ok n b : 0 <= n -> Bitmap.new alloc_ok n = Ok b ->
  0 < n < u32_max /\ n mod 8 = 0 /\ alloc_ok = true /\
  Bitmap.inv b /\ number_of_bits b = n /\ Bitmap.view b = ∅.
Proof.
  intros Hn. unfold Bitmap.new. destruct ((n =? 0) || (u32_max <=? n)) eqn:E1; [done|].
  destruct (Z.eqb_spec (n mod 8) 0) as [E2|]; simpl; [|done].
  unfold RawArray.new. destruct ((n / 8 =? 0) || (i32_max <=? n / 8)) eqn:E3; [done|].
  destruct (isize_max <? n / 8) eqn:E4; [done|]. destruct alloc_ok; [|done]. simpl.
  intros [= <-]. pose proof (Z.div_mod n 8 ltac:(lia)) as Hd. simpl.
  destruct (Bitmap.inv_zeros (Z.to_nat (n / 8))) as [Hi Hv]; [width|].
  replace (Z.of_nat (Z.to_nat (n / 8)) * 8) with n in * by lia.
  repeat (split; [done || lia|]). done.
Qed.

(** C24: A bitmap created by [Bitmap::new] behaves, under every sequence of
    [alloc_range], [set], [clear] and [test] calls with arbitrary arguments, as a
    set of the indices below its length: no call panics, overflows or fails to
    terminate, a run is handed out only if all its indices were free and is
    refused only if there is no such run, and failing calls change nothing. *)
Theorem bitmap_refines_set n b ops : 0 <= n -> Bitmap.new true n = Ok b -> Forall op_wf ops ->
  spec_run n ops (run ops b).1 ∅ (Bitmap.view (run ops b).2).
Proof.
  intros Hn Hb Hw. destruct (new_ok _ _ _ Hn Hb) as (_ & _ & _ & Hi & <- & <-).
  destruct (run ops b) as [tr b'] eqn:E. by apply (run_ok ops b).
Qed.

Lemma bitmap_refines_set_witness :
  exists b, Bitmap.new true 16 = Ok b /\
    let ops := [OpSet 2; OpAllocRange 3; OpAllocRange 12; OpAllocRange 10; OpClear 2; OpTest 2] in
    spec_run 16 ops (run ops b).1 ∅ (Bitmap.view (run ops b).2) /\
    (run ops b).1 =
      [AnsUnit (Ok tt); AnsIndex (Ok 3); AnsIndex (Err (mkError OutOfMemory "bitmap is full"));
       AnsIndex (Ok 6); AnsUnit (Ok tt); AnsBool (Ok false)] /\
    elements (Bitmap.view (run ops b).2) = elements (range 3 13).
Proof.
  eexists. split; [reflexivity|]. split; [|split; vm_compute; reflexivity].
  apply bitmap_refines_set; [lia|reflexivity|]. repeat constructor; simpl; lia.
Defined.

(** [alloc_range] is complete: for a legal size it succeeds exactly when the
    bitmap holds a run of that many free bits, wherever the search hint points. *)
Theorem alloc_range_complete b n : Bitmap.inv b -> 0 < n <= number_of_bits b ->
  (exists p, free_run (number_of_bits b) (Bitmap.view b) n p) <->
  (exists p b', Bitmap.alloc_range n b = (Ok p, b')).
Proof.
  intros Hi Hn. destruct (Bitmap.alloc_range n b) as [r b'] eqn:E.
  destruct (Bitmap.alloc_range_ok b n _ _ Hi ltac:(lia) E) as (_ & _ & Hp).
  destruct r as [p|e|]; simpl in Hp; [|rewrite decide_False in Hp by lia|done].
  - split; [by eauto|]. intros _. exists p. apply Hp.
  - split; [|by intros (? & ? & ?)]. intros [p Hf]. destruct Hp as (_ & _ & Hno).
    by destruct (Hno p).
Qed.

Lemma alloc_range_complete_witness :
  exists p b', Bitmap.alloc_range 2 (mkBitmap 8 2 [36] 7) = (Ok p, b').
Proof.
  apply alloc_range_complete; [|simpl; lia|].
  - split; simpl; try width; [repeat constructor; lia|vm_compute; reflexivity].
  - exists 6. apply Bitmap.free_run_bits. simpl. split; [lia|]. split; [lia|].
    intros j Hj. assert (j = 6 \/ j = 7) as [->| ->] by lia; reflexivity.
Defined.

(** [Bitmap::new] accepts exactly the non-zero multiples of eight below
    [u32::MAX] and then yields an empty bitmap; otherwise it reports which
    argument or resource was at fault. *)
Theorem bitmap_new_spec alloc_ok n : 0 <= n ->
  match Bitmap.new alloc_ok n with
  | Ok b => Bitmap.inv b /\ number_of_bits b = n /\ Bitmap.view b = ∅ /\
            0 < n < u32_max /\ n mod 8 = 0 /\ alloc_ok = true
  | Err e => if decide (0 < n < u32_max /\ n mod 8 = 0)
             then code e = OutOfMemory /\ alloc_ok = false else code e = InvalidArgument
  | Panic => False
  end.
Proof.
  intros Hn. destruct (Bitmap.new alloc_ok n) as [b|e|] eqn:E.
  - apply new_ok in E; tauto.
  - unfold Bitmap.new, RawArray.new in E. pose proof (Z.div_mod n 8).
    destruct (decide _) as [[H1 H2]|Hd].
    + rewrite H2, Z.eqb_refl in E. simpl in E.
      replace ((n =? 0) || (u32_max <=? n)) with false in E by (symmetry; lia).
      replace ((n / 8 =? 0) || (i32_max <=? n / 8)) with false in E by (symmetry; width).
      replace (isize_max <? n / 8) with false in E by (symmetry; width).
      destruct alloc_ok; [done|]. by injection E as <-.
    + destruct ((n =? 0) || (u32_max <=? n)) eqn:E1; [by injection E as <-|].
      destruct (Z.eqb_spec (n mod 8) 0); [|by injection E as <-]. exfalso. lia.
  - unfold Bitmap.new, RawArray.new in E. repeat case_match; done.
Qed.

Lemma bitmap_new_spec_witness :
  match Bitmap.new true 24 with
  | Ok b => Bitmap.inv b /\ number_of_bits b = 24 /\ Bitmap.view b = ∅ /\
            0 < 24 < u32_max /\ 24 mod 8 = 0 /\ true = true
  | _ => False
  end.
Proof. exact (bitmap_new_spec true 24 ltac:(lia)). Defined.

End BitmapTrace.
