(* ===== verification/Slab.v ===== *)
(** * Slab allocator

    [Slab] ([src/libs/slab/src/lib.rs]): equally sized blocks carved out of a
    memory region whose first blocks hold the bitmap of the rest.  Addresses are
    [usize] values; the memory behind them is not represented.  Everything is
    proved against the contract of the bit allocator. *)

From S2P Require Import Prelude Error BitAlloc Bitmap.
#[local] Open Scope Z_scope.

Record Slab (B : Type) := mkSlab {
  index : B;
  data_addr : Z;
  end_addr : Z;
  block_size : Z
}.
Arguments mkSlab {B} _ _ _ _.
Arguments index {B} _.
Arguments data_addr {B} _.
Arguments end_addr {B} _.
Arguments block_size {B} _.

Module Slab.

Section Definitions.
Context {B : Type} `{BitAlloc B}.

(** [x / y + if x.is_multiple_of(y) { 0 } else { 1 }]. *)
Definition div_ceil (x y : Z) : Z := x / y + if x mod y =? 0 then 0 else 1.

(** [for i in i..i + n { index.set(i)?; }]. *)
Fixpoint set_bits (n : nat) (i : Z) : M B Error unit :=
  match n with
  | O => mret tt
  | S n => ba_set i;; set_bits n (i + 1)
  end.

Definition from_raw_parts (addr len block_size : Z) : res Error (Slab B) :=
  if addr =? 0 then Err (mkError InvalidArgument "null pointer")
  else if (len =? 0) || (i32_max <=? len) || (isize_max <? len)
  then Err (mkError InvalidArgument "invalid slab length")
  else if (addr + len) mod 2 ^ usize_bits <? addr
  then Err (mkError InvalidArgument "wrapping memory region")
  else if (block_size =? 0) || (i32_max <=? block_size)
          || ((usize_max - 1) / 8 <? block_size) || (len <? block_size)
  then Err (mkError InvalidArgument "invalid block size")
  else if negb (addr mod block_size =? 0)
  then Err (mkError InvalidArgument "unaligned start address")
  else
    let total_num_blocks := len / block_size in
    bits ← usize_mul block_size 8;
    divisor ← usize_add bits 1;
    let num_index_blocks := div_ceil total_num_blocks divisor in
    if total_num_blocks <=? num_index_blocks
    then Err (mkError InvalidArgument "insufficient blocks for index")
    else
      index_size ← usize_mul num_index_blocks block_size;
      data_addr ← usize_add addr index_size;
      num_data_blocks ← usize_sub total_num_blocks num_index_blocks;
      let index_len := div_ceil num_data_blocks 8 in
      storage ← RawArray.from_raw_parts addr index_len;
      index ← ba_from_raw storage;
      num_bits ← usize_mul index_len 8;
      index ← (let '(r, index) := set_bits (Z.to_nat (num_bits - num_data_blocks))
                                    num_data_blocks index in _ ← r; Ok index);
      size ← usize_mul total_num_blocks block_size;
      end_addr ← usize_add addr size;
      Ok (mkSlab index data_addr end_addr block_size).

(** Code on the bitmap of the slab. *)
Definition on_index {A} (m : M B Error A) : M (Slab B) Error A :=
  zoom index (fun i s => mkSlab i (data_addr s) (end_addr s) (block_size s)) m.

Definition allocate : M (Slab B) Error Z :=
  block ← on_index ba_alloc;
  s ← get;
  offset ← lift (usize_mul block (block_size s));
  lift (usize_add (data_addr s) offset).

Definition deallocate (ptr : Z) : M (Slab B) Error unit :=
  s ← get;
  if (ptr <? data_addr s) || (end_addr s <=? ptr)
  then fail (mkError BadAddress "pointer out of bounds")
  else if negb (ptr mod block_size s =? 0)
  then fail (mkError BadAddress "pointer unaligned")
  else
    offset ← lift (usize_sub ptr (data_addr s));
    let idx := offset / block_size s in
    used ← lift (ba_test (index s) idx);
    if negb used then fail (mkError BadAddress "block is already free")
    else on_index (ba_clear idx).

(** ** Abstract view *)

(** Number of data blocks. *)
Definition blocks (s : Slab B) : Z := (end_addr s - data_addr s) / block_size s.

(** Address of a block. *)
Definition block_addr (s : Slab B) (i : Z) : Z := data_addr s + i * block_size s.

(** The addresses handed out. *)
Definition allocated (s : Slab B) (p : Z) : Prop :=
  exists i, 0 <= i < blocks s /\ p = block_addr s i /\ i ∈ ba_used (index s).

(** The addresses that name a block. *)
Definition is_block (s : Slab B) (p : Z) : Prop :=
  exists i, 0 <= i < blocks s /\ p = block_addr s i.

Record inv (s : Slab B) : Prop := {
  inv_index : ba_inv (index s);
  inv_size : 0 < block_size s;
  inv_addr : 0 < data_addr s;
  inv_align : data_addr s mod block_size s = 0;
  inv_end : end_addr s = data_addr s + blocks s * block_size s;
  inv_max : end_addr s <= usize_max;
  inv_blocks : 0 < blocks s <= ba_cap (index s);
  inv_tail : forall i, blocks s <= i < ba_cap (index s) -> i ∈ ba_used (index s)
}.

(** Same region, same blocks; only the bitmap may differ. *)
Definition same_layout (s s' : Slab B) : Prop :=
  data_addr s' = data_addr s /\ end_addr s' = end_addr s /\ block_size s' = block_size s /\
  ba_cap (index s') = ba_cap (index s).

End Definitions.

(** ** Arithmetic of the layout *)

Lemma div_ceil_spec x y : 0 <= x -> 0 < y ->
  x <= div_ceil x y * y < x + y /\ 0 <= div_ceil x y.
Proof.
  intros Hx Hy. unfold div_ceil. pose proof (Z.div_mod x y ltac:(lia)) as D.
  pose proof (Z.mod_pos_bound x y Hy). pose proof (Z.div_pos x y Hx Hy).
  destruct (Z.eqb_spec (x mod y) 0); nia.
Qed.

(** The index fits in its blocks, and one data block is left unless there is
    just one block. *)
Lemma layout_fits total bs : 0 < bs -> 2 <= total ->
  let k := div_ceil total (bs * 8 + 1) in
  0 < k < total /\ div_ceil (total - k) 8 <= k * bs.
Proof.
  intros Hb Ht k. destruct (div_ceil_spec total (bs * 8 + 1)) as [H1 H2]; [lia..|].
  fold k in H1, H2. assert (0 < k < total) as Hk by nia. split; [done|].
  destruct (div_ceil_spec (total - k) 8) as [H3 H4]; [lia..|]. nia.
Qed.

Lemma layout_one bs : 0 < bs -> div_ceil 1 (bs * 8 + 1) = 1.
Proof.
  intros. unfold div_ceil. rewrite Z.div_small, Z.mod_small by lia. done.
Qed.

Section Proofs.
Context {B : Type} `{BitAlloc B}.
Implicit Types (s : Slab B) (b : B).

(** ** Construction *)

Lemma set_bits_ok n i b : ba_inv b -> 0 <= i -> i + Z.of_nat n <= ba_cap b ->
  range i (Z.of_nat n) ## ba_used b ->
  exists b', set_bits n i b = (Ok tt, b') /\ ba_inv b' /\ ba_cap b' = ba_cap b /\
    ba_used b' = range i (Z.of_nat n) ∪ ba_used b.
Proof.
  revert i b. induction n as [|n IH]; intros i b Hi H0 Hc Hd.
  { exists b. splits; try done. apply set_eq. intros j.
    rewrite elem_of_union, elem_of_range. split; [by right|]. intros [?|?]; [lia|done]. }
  simpl. unfold mbind at 1, M_bind at 1. destruct (ba_set i b) as [r b1] eqn:E.
  destruct (ba_set_ok b i r b1 Hi H0 E) as (Hi1 & Hc1 & Hp).
  assert (i ∉ ba_used b) as Hni.
  { intros Hin. apply (Hd i); [|done]. apply elem_of_range. lia. }
  destruct r as [[]|e|]; simpl in Hp; [|rewrite decide_True in Hp by lia; tauto|done].
  destruct Hp as (_ & _ & Hu).
  destruct (IH (i + 1) b1) as (b2 & -> & Hi2 & Hc2 & Hu2); [done|lia|lia| |].
  { intros j Hj%elem_of_range. rewrite Hu. intros [->%elem_of_singleton|Hjb]%elem_of_union; [lia|].
    apply (Hd j); [|done]. apply elem_of_range. lia. }
  exists b2. splits; [done|done|congruence|]. rewrite Hu2, Hu. apply set_eq. intros j.
  rewrite !elem_of_union, !elem_of_range, elem_of_singleton.
  assert (i <= j < i + Z.of_nat (S n) <-> i + 1 <= j < i + 1 + Z.of_nat n \/ j = i) by lia. tauto.
Qed.

(** The arguments a slab can be made from. *)
Definition args_ok (addr len bs : Z) : Prop :=
  addr <> 0 /\ 0 < len < i32_max /\ addr + len <= usize_max /\
  0 < bs <= (usize_max - 1) / 8 /\ 2 * bs <= len /\ addr mod bs = 0.

(** The zeroed index on [il] bytes, with the bits behind [n] set. *)
Lemma make_index addr il n :
  0 < addr -> addr + il <= usize_max -> il < i32_max -> 0 < n -> n <= il * 8 < u32_max ->
  exists b0 b, (storage ← RawArray.from_raw_parts addr il; ba_from_raw storage) = Ok b0 /\
    set_bits (Z.to_nat (il * 8 - n)) n b0 = (Ok tt, b) /\ ba_inv b /\ ba_cap b = il * 8 /\
    ba_used b = range n (il * 8 - n).
Proof.
  intros Ha Hw Hl Hn Hb. unfold RawArray.from_raw_parts.
  replace ((il =? 0) || (i32_max <=? il)) with false by (symmetry; lia).
  rewrite (proj2 (Z.ltb_ge _ _)) by (rewrite Z.mod_small; unfold usize_bits; width).
  rewrite (proj2 (Z.eqb_neq addr 0)) by lia. simpl.
  destruct (ba_from_raw_ok (Z.to_nat il)) as (b0 & -> & Hi & Hc & Hu); [width|].
  rewrite Z2Nat.id in Hc by lia.
  destruct (set_bits_ok (Z.to_nat (il * 8 - n)) n b0 Hi) as (b & Hs & Hi' & Hc' & Hu');
    [lia|lia|rewrite Hu; apply disjoint_empty_r|].
  exists b0, b. splits; [done..|congruence|].
  rewrite Hu', Hu, union_empty_r_L, Z2Nat.id by lia. done.
Qed.

(** What [from_raw_parts] computes, once the checks have passed. *)
Lemma from_raw_parts_ok addr len bs :
  0 < addr -> args_ok addr len bs ->
  exists s, from_raw_parts addr len bs = Ok s /\ inv s /\ block_size s = bs /\
    addr + ba_cap (index s) / 8 <= data_addr s /\ end_addr s <= addr + len /\
    forall p, ~ allocated s p.
Proof.
  intros Ha (_ & Hl & Hw & Hb & Hl2 & Hal).
  assert ((usize_max - 1) / 8 = 536870911) as Hq by done.
  unfold from_raw_parts. rewrite Hq in *.
  rewrite (proj2 (Z.eqb_neq addr 0)) by lia.
  replace ((len =? 0) || (i32_max <=? len) || (isize_max <? len)) with false
    by (symmetry; width).
  rewrite (proj2 (Z.ltb_ge _ _)) by (rewrite Z.mod_small; unfold usize_bits; width).
  replace ((bs =? 0) || (i32_max <=? bs) || (536870911 <? bs) || (len <? bs)) with false
    by (symmetry; width).
  rewrite (proj2 (Z.eqb_eq (addr mod bs) 0)) by done. simpl.
  rewrite (usize_mul_ok bs 8) by width. simpl. rewrite (usize_add_ok (bs * 8) 1) by width. simpl.
  pose proof (Z.div_mod len bs ltac:(lia)) as D. pose proof (Z.mod_pos_bound len bs ltac:(lia)).
  set (total := len / bs) in *. assert (2 <= total) as Ht by nia.
  destruct (layout_fits total bs) as [Hk Hfit]; [lia..|].
  set (k := div_ceil total (bs * 8 + 1)) in *.
  assert (bs <= k * bs /\ k * bs + bs <= total * bs <= len /\ total <= len)
    as (Hkb & Htb & Htl) by (clear Hfit; nia).
  rewrite (proj2 (Z.leb_gt _ _)) by lia.
  rewrite (usize_mul_ok k bs) by lia. simpl. rewrite (usize_add_ok addr (k * bs)) by lia. simpl.
  rewrite usize_sub_ok by lia. simpl.
  destruct (div_ceil_spec (total - k) 8) as [Hil Hil0]; [lia..|].
  set (il := div_ceil (total - k) 8) in *.
  destruct (make_index addr il (total - k)) as (b0 & b & Hmk & Hset & Hi & Hc & Hu); [width..|].
  unfold mbind, res_bind in Hmk |- *.
  destruct (RawArray.from_raw_parts addr il) as [st|e|]; [|discriminate..]. rewrite Hmk.
  rewrite (usize_mul_ok il 8) by width. rewrite Hset.
  rewrite (usize_mul_ok total bs) by lia. rewrite usize_add_ok by lia.
  eexists. split; [reflexivity|].
  assert (blocks (mkSlab b (addr + k * bs) (addr + total * bs) bs) = total - k) as Hbl.
  { unfold blocks. simpl. rewrite <- (Z.div_mul (total - k) bs) by lia. f_equal. lia. }
  split; [split; simpl; rewrite ?Hbl; try done; try lia|].
  - rewrite Z.add_mod, Z.mod_mul, Hal by lia. done.
  - intros i Hr. rewrite Hu. apply elem_of_range. lia.
  - simpl. rewrite Hc, Z.div_mul by lia. splits; [done|lia|lia|].
    intros p (i & Hr & _ & Hin). rewrite Hbl in Hr. simpl in Hin.
    rewrite Hu in Hin. apply elem_of_range in Hin. lia.
Qed.

Lemma from_raw_parts_err addr len bs : 0 <= addr <= usize_max -> 0 <= len -> 0 <= bs ->
  ~ args_ok addr len bs ->
  exists e, from_raw_parts addr len bs = Err e /\ code e = InvalidArgument.
Proof.
  intros Ha Hl Hb Hno.
  assert ((usize_max - 1) / 8 = 536870911) as Hq by done.
  unfold from_raw_parts. rewrite Hq.
  destruct (Z.eqb_spec addr 0) as [|H0]; [by eexists|].
  destruct ((len =? 0) || (i32_max <=? len) || (isize_max <? len)) eqn:E1; [by eexists|].
  destruct (Z.ltb_spec ((addr + len) mod 2 ^ usize_bits) addr) as [|E2]; [by eexists|].
  destruct ((bs =? 0) || (i32_max <=? bs) || (536870911 <? bs) || (len <? bs)) eqn:E3;
    [by eexists|].
  destruct (Z.eqb_spec (addr mod bs) 0) as [E4|]; [simpl|by eexists].
  assert (addr + len <= usize_max) as Hw.
  { destruct (decide (addr + len <= usize_max)); [done|]. exfalso.
    rewrite <- (Z.mod_unique (addr + len) (2 ^ usize_bits) 1 (addr + len - 2 ^ usize_bits)) in E2;
      unfold usize_bits in *; width. }
  assert (len / bs = 1) as ->.
  { symmetry. apply Z.div_unique with (len - bs); [|lia]. left.
    destruct (decide (2 * bs <= len)); [|lia].
    exfalso. apply Hno. unfold args_ok. rewrite Hq. splits; try done; width. }
  rewrite (usize_mul_ok bs 8) by width. simpl. rewrite (usize_add_ok (bs * 8) 1) by width. simpl.
  rewrite layout_one by lia. by eexists.
Qed.

(** ** Blocks *)

Lemma block_addr_inj s i j : inv s -> block_addr s i = block_addr s j -> i = j.
Proof. intros Hi. pose proof (inv_size s Hi). unfold block_addr. nia. Qed.

Lemma block_bounds s i : inv s -> 0 <= i < blocks s ->
  data_addr s <= block_addr s i /\ block_addr s i + block_size s <= end_addr s /\
  block_addr s i mod block_size s = 0.
Proof.
  intros Hi Hr. rewrite (inv_end s Hi). pose proof (inv_size s Hi). unfold block_addr.
  splits; [nia|nia|]. rewrite Z.add_mod, Z.mod_mul, (inv_align s Hi) by lia. done.
Qed.

(** An aligned address in the data region is the address of a block. *)
Lemma block_of_addr s p : inv s -> data_addr s <= p < end_addr s -> p mod block_size s = 0 ->
  let i := (p - data_addr s) / block_size s in 0 <= i < blocks s /\ p = block_addr s i.
Proof.
  intros Hi Hr Ha i. pose proof (inv_size s Hi) as Hb. pose proof (inv_end s Hi) as He.
  assert ((p - data_addr s) mod block_size s = 0) as Hm.
  { rewrite Zminus_mod, Ha, (inv_align s Hi). apply Z.mod_0_l. lia. }
  pose proof (Z.div_mod (p - data_addr s) (block_size s) ltac:(lia)) as D.
  rewrite Hm in D. fold i in D. split; [nia|]. unfold block_addr. lia.
Qed.

(** Replacing the bitmap, with the tail bits still set, keeps the invariant. *)
Lemma inv_reindex s b' : inv s -> ba_inv b' -> ba_cap b' = ba_cap (index s) ->
  (forall i, blocks s <= i < ba_cap (index s) -> i ∈ ba_used b') ->
  inv (mkSlab b' (data_addr s) (end_addr s) (block_size s)).
Proof. intros [] Hb Hc Ht. split; try done; simpl; rewrite Hc; done. Qed.

Definition allocate_post s s' (r : res Error Z) : Prop :=
  match r with
  | Ok p => is_block s p /\ ~ allocated s p /\
            forall q, allocated s' q <-> q = p \/ allocated s q
  | Err e => code e = OutOfMemory /\ (forall p, is_block s p -> allocated s p) /\
             forall q, allocated s' q <-> allocated s q
  | Panic => False
  end.

Lemma allocate_ok s r s' : inv s -> allocate s = (r, s') ->
  inv s' /\ same_layout s s' /\ allocate_post s s' r.
Proof.
  intros Hi. unfold allocate, on_index, zoom, mbind, M_bind, get, lift, ba_alloc.
  destruct (ba_alloc_range 1 (index s)) as [r1 b'] eqn:E.
  destruct (ba_alloc_range_ok _ 1 _ _ (inv_index s Hi) ltac:(lia) E) as (Hb & Hc & Hp).
  pose proof (ba_inv_cap _ (inv_index s Hi)) as Hcap.
  destruct r1 as [i|e|]; simpl in Hp; [| |done].
  - destruct Hp as (_ & (Hi0 & Hic & Hd) & Hu). rewrite range_1 in *.
    assert (i < blocks s) as Hbl.
    { destruct (decide (i < blocks s)); [done|]. exfalso.
      apply (Hd i); [set_solver|]. apply (inv_tail s Hi). lia. }
    destruct (block_bounds s i Hi) as (Hlo & Hhi & _); [lia|].
    pose proof (inv_max s Hi). pose proof (inv_size s Hi). unfold block_addr in *. simpl.
    pose proof (inv_addr s Hi).
    rewrite usize_mul_ok by lia. rewrite usize_add_ok by lia. intros [= <- <-].
    split; [apply inv_reindex; try done; intros; rewrite Hu; apply elem_of_union_r, Hi; done|].
    split; [done|]. split; [exists i; split; [lia|done]|]. split.
    + intros (j & Hj & Hij & Hin). apply block_addr_inj in Hij as <-; [|done].
      by apply (Hd i); [apply elem_of_singleton|].
    + intros q. split.
      * intros (j & Hj & -> & Hin). simpl in Hin. rewrite Hu in Hin.
        apply elem_of_union in Hin as [->%elem_of_singleton|Hin]; [by left|].
        right. by exists j.
      * intros [->|(j & Hj & -> & Hin)]; [exists i|exists j]; (split; [done || lia|]);
          (split; [done|]); simpl; rewrite Hu;
          [by apply elem_of_union_l, elem_of_singleton|by apply elem_of_union_r].
  - rewrite decide_False in Hp by lia. destruct Hp as (Hu & Hco & Hno).
    intros [= <- <-]. split; [apply inv_reindex; try done; rewrite Hu; apply Hi|].
    split; [done|]. split; [done|]. split.
    + intros p (i & Hr & ->). exists i. split; [done|]. split; [done|].
      rewrite (no_free_bit (ba_cap (index s)) (ba_used (index s)));
        [|lia|apply ba_inv_used, Hi|done].
      apply elem_of_range. pose proof (inv_blocks s Hi). lia.
    + intros q. unfold allocated. simpl. by rewrite Hu.
Qed.

Definition deallocate_post s s' p (r : res Error unit) : Prop :=
  match r with
  | Ok _ => allocated s p /\ forall q, allocated s' q <-> q <> p /\ allocated s q
  | Err e => code e = BadAddress /\ ~ allocated s p /\ s' = s
  | Panic => False
  end.

Lemma deallocate_ok s p r s' : inv s -> 0 <= p -> deallocate p s = (r, s') ->
  inv s' /\ same_layout s s' /\ deallocate_post s s' p r.
Proof.
  intros Hi Hp0. unfold deallocate, on_index, zoom, mbind, M_bind, get, lift. simpl.
  destruct ((p <? data_addr s) || (end_addr s <=? p)) eqn:E1.
  { intros [= <- <-]. split; [done|]. split; [done|]. split; [done|]. split; [|done].
    intros (i & Hr & -> & _). pose proof (block_bounds s i Hi Hr). pose proof (inv_size s Hi). lia. }
  destruct (Z.eqb_spec (p mod block_size s) 0) as [E2|E2]; simpl.
  2: { intros [= <- <-]. split; [done|]. split; [done|]. split; [done|]. split; [|done].
       intros (i & Hr & -> & _). pose proof (block_bounds s i Hi Hr). lia. }
  rewrite usize_sub_ok by lia.
  destruct (block_of_addr s p Hi ltac:(lia) E2) as [Hr Hpa].
  set (i := (p - data_addr s) / block_size s) in *.
  pose proof (ba_test_ok (index s) i (inv_index s Hi) ltac:(lia)) as Ht.
  pose proof (inv_blocks s Hi) as Hbl.
  destruct (ba_test (index s) i) as [v|e|]; simpl in Ht; [|lia|done]. destruct Ht as [_ ->].
  destruct (bool_decide_reflect (i ∈ ba_used (index s))) as [Hin|Hni]; simpl.
  2: { intros [= <- <-]. split; [done|]. split; [done|]. split; [done|]. split; [|done].
       intros (j & _ & Hj & Hin). rewrite Hpa in Hj. apply block_addr_inj in Hj as <-; done. }
  destruct (ba_clear i (index s)) as [r1 b'] eqn:E. intros [= <- <-].
  destruct (ba_clear_ok _ i _ _ (inv_index s Hi) ltac:(lia) E) as (Hb & Hc & Hp).
  destruct r1 as [[]|e|]; simpl in Hp; [|rewrite decide_True in Hp by lia; tauto|done].
  destruct Hp as (_ & _ & Hu). split; [|split; [done|]].
  - apply inv_reindex; try done. intros j Hj. rewrite Hu.
    pose proof (inv_tail s Hi j Hj). apply elem_of_difference. split; [done|].
    rewrite elem_of_singleton. lia.
  - split; [by exists i|]. intros q. split.
    + intros (j & Hj & -> & Hin'). simpl in Hin'. rewrite Hu in Hin'.
      apply elem_of_difference in Hin' as [Hju Hne]. split; [|by exists j].
      change (block_addr s j <> p). rewrite Hpa. intros ->%block_addr_inj; [|done]. set_solver.
    + intros [Hne (j & Hj & -> & Hju)]. exists j. split; [done|]. split; [done|].
      simpl. rewrite Hu. apply elem_of_difference. split; [done|].
      rewrite elem_of_singleton. congruence.
Qed.

(** Distinct blocks do not overlap. *)
Lemma blocks_disjoint s p q : inv s -> is_block s p -> is_block s q -> p <> q ->
  p + block_size s <= q \/ q + block_size s <= p.
Proof.
  intros Hi (i & _ & ->) (j & _ & ->) Hne. pose proof (inv_size s Hi). unfold block_addr in *.
  destruct (Z.lt_trichotomy i j) as [?|[->|?]]; [left; nia|done|right; nia].
Qed.

End Proofs.

(** ** A slab in use *)

(** The states a slab on [len] bytes at [addr] can reach, with the set of blocks
    its clients hold: every pointer a call returned and no call took back. *)
Inductive reach (addr len bs : Z) : Slab Bitmap → gset Z → Prop :=
| reach_new s : from_raw_parts addr len bs = Ok s -> reach addr len bs s ∅
| reach_alloc s L p s' : reach addr len bs s L -> allocate s = (Ok p, s') ->
    reach addr len bs s' ({[p]} ∪ L)
| reach_full s L e s' : reach addr len bs s L -> allocate s = (Err e, s') ->
    reach addr len bs s' L
| reach_free s L p s' : reach addr len bs s L -> 0 <= p -> deallocate p s = (Ok tt, s') ->
    reach addr len bs s' (L ∖ {[p]})
| reach_bad s L p e s' : reach addr len bs s L -> 0 <= p -> deallocate p s = (Err e, s') ->
    reach addr len bs s' L.

Lemma from_raw_parts_args addr len bs (s : Slab Bitmap) :
  0 <= addr <= usize_max -> 0 <= len -> 0 <= bs -> from_raw_parts addr len bs = Ok s ->
  0 < addr /\ args_ok addr len bs.
Proof.
  intros Ha Hl Hb E.
  assert (args_ok addr len bs) as Ho; [|destruct Ho; split; [lia|by constructor]].
  destruct (decide (addr = 0)) as [->|]; [by destruct len|].
  destruct (decide (args_ok addr len bs)) as [|Hno]; [done|]. exfalso.
  destruct (from_raw_parts_err (B:=Bitmap) addr len bs Ha Hl Hb Hno) as (e & Ee & _).
  congruence.
Qed.

Lemma reach_ok addr len bs s L :
  0 <= addr <= usize_max -> 0 <= len -> 0 <= bs -> reach addr len bs s L ->
  inv s /\ block_size s = bs /\ addr + number_of_bits (index s) / 8 <= data_addr s /\
  end_addr s <= addr + len /\ forall p, p ∈ L <-> allocated s p.
Proof.
  intros Ha Hl Hb Hr.
  induction Hr as [s E|s L p s' _ IH E|s L e s' _ IH E|s L p s' _ IH Hp E|s L p e s' _ IH Hp E].
  - destruct (from_raw_parts_args _ _ _ _ Ha Hl Hb E) as [H0 Ho].
    destruct (from_raw_parts_ok (B:=Bitmap) addr len bs H0 Ho) as (s0 & E0 & ? & ? & ? & ? & Hno).
    assert (s0 = s) as -> by congruence. splits; try done. intros p.
    split; [by intros ?%not_elem_of_empty|by intros ?%Hno].
  - destruct IH as (Hi & Hbs & Hd & He & HL).
    destruct (allocate_ok _ _ _ Hi E) as (Hi' & (-> & -> & -> & Hc) & _ & _ & Hal).
    simpl in Hc. rewrite Hc. splits; try done. intros q.
    by rewrite elem_of_union, elem_of_singleton, Hal, HL.
  - destruct IH as (Hi & Hbs & Hd & He & HL).
    destruct (allocate_ok _ _ _ Hi E) as (Hi' & (-> & -> & -> & Hc) & _ & _ & Hal).
    simpl in Hc. rewrite Hc. splits; try done. intros q. by rewrite Hal.
  - destruct IH as (Hi & Hbs & Hd & He & HL).
    destruct (deallocate_ok _ _ _ _ Hi Hp E) as (Hi' & (-> & -> & -> & Hc) & _ & Hal).
    simpl in Hc. rewrite Hc. splits; try done. intros q.
    rewrite elem_of_difference, elem_of_singleton, Hal, HL. tauto.
  - destruct IH as (Hi & Hbs & Hd & He & HL).
    by destruct (deallocate_ok _ _ _ _ Hi Hp E) as (_ & _ & _ & _ & ->).
Qed.

(** Whatever sequence of allocations and deallocations (with any pointers,
    valid or not) its clients perform on a slab, the blocks they hold lie inside
    the region behind the index, are aligned, and do not overlap one another. *)
Theorem slab_blocks_disjoint addr len bs s L :
  0 <= addr <= usize_max -> 0 <= len -> 0 <= bs -> reach addr len bs s L ->
  (forall p, p ∈ L ->
     addr + number_of_bits (index s) / 8 <= p /\ p + bs <= addr + len /\ p mod bs = 0) /\
  (forall p q, p ∈ L -> q ∈ L -> p <> q -> p + bs <= q \/ q + bs <= p).
Proof.
  intros Ha Hl Hb Hr.
  destruct (reach_ok _ _ _ _ _ Ha Hl Hb Hr) as (Hi & <- & Hd & He & HL). split.
  - intros p (i & Hin & -> & _)%HL. destruct (block_bounds s i Hi Hin) as (? & ? & ?). splits; lia.
  - intros p q (i & Hin & -> & _)%HL (j & Hjn & -> & _)%HL Hne.
    apply (blocks_disjoint s _ _ Hi); [by exists i|by exists j|done].
Qed.

(** A slab of 16-byte blocks on 64 bytes at address 4096: one index block and
    three data blocks. *)
Lemma slab_blocks_disjoint_witness :
  exists s0 s1 s2 : Slab Bitmap, from_raw_parts 4096 64 16 = Ok s0 /\
    allocate s0 = (Ok 4112, s1) /\ allocate s1 = (Ok 4128, s2) /\
    4112 + 16 <= 4128 /\ 4128 + 16 <= 4096 + 64.
Proof.
  set (s0 := mkSlab (mkBitmap 8 5 [248] 0) 4112 4160 16).
  set (s1 := mkSlab (mkBitmap 8 6 [249] 1) 4112 4160 16).
  set (s2 := mkSlab (mkBitmap 8 7 [251] 2) 4112 4160 16).
  exists s0, s1, s2.
  assert (from_raw_parts 4096 64 16 = Ok s0) as E0 by (vm_compute; reflexivity).
  assert (allocate s0 = (Ok 4112, s1)) as E1 by (vm_compute; reflexivity).
  assert (allocate s1 = (Ok 4128, s2)) as E2 by (vm_compute; reflexivity).
  destruct (slab_blocks_disjoint 4096 64 16 s2 ({[4128]} ∪ ({[4112]} ∪ ∅))
    ltac:(width) ltac:(lia) ltac:(lia)) as [Hin Hdis].
  { by apply (reach_alloc _ _ _ s1), E2; apply (reach_alloc _ _ _ s0), E1; apply reach_new. }
  destruct (Hin 4128) as (_ & ? & _); [set_solver|].
  destruct (Hdis 4112 4128); [set_solver|set_solver|lia|by splits|lia].
Defined.

(** C26: A slab is full only when it is: in every reachable state neither
    operation panics, [allocate] fails (with [OutOfMemory]) exactly when the
    clients hold all blocks, and [deallocate] accepts exactly the pointers they
    hold, refusing every other address with [BadAddress] and no change. *)
Theorem slab_complete addr len bs s L :
  0 <= addr <= usize_max -> 0 <= len -> 0 <= bs -> reach addr len bs s L ->
  match (allocate s).1 with
  | Ok p => is_block s p /\ p ∉ L
  | Err e => code e = OutOfMemory /\ forall p, is_block s p -> p ∈ L
  | Panic => False
  end /\
  forall p, 0 <= p ->
  match deallocate p s with
  | (Ok _, _) => p ∈ L
  | (Err e, s') => code e = BadAddress /\ (p ∉ L) /\ s' = s
  | (Panic, _) => False
  end.
Proof.
  intros Ha Hl Hb Hr. destruct (reach_ok _ _ _ _ _ Ha Hl Hb Hr) as (Hi & _ & _ & _ & HL). split.
  - destruct (allocate s) as [r s'] eqn:E. destruct (allocate_ok _ _ _ Hi E) as (_ & _ & Hp).
    destruct r; simpl in *; [|split; [apply Hp|]|done].
    + rewrite HL. tauto.
    + intros p. rewrite HL. apply Hp.
  - intros p Hp0. destruct (deallocate p s) as [r s'] eqn:E.
    destruct (deallocate_ok _ _ _ _ Hi Hp0 E) as (_ & _ & Hp).
    destruct r; simpl in *; [| |done]; rewrite HL; [exact (proj1 Hp)|exact Hp].
Qed.

Lemma slab_complete_witness :
  let s := mkSlab (mkBitmap 8 5 [248] 0) 4112 4160 16 in
  from_raw_parts 4096 64 16 = Ok s /\
  match (allocate s).1 with Ok p => is_block s p /\ p ∉ (∅ : gset Z) | _ => True end /\
  (deallocate 4112 s).1 = Err (mkError BadAddress "block is already free").
Proof.
  intros s. assert (from_raw_parts 4096 64 16 = Ok s) as E0 by (vm_compute; reflexivity).
  split; [exact E0|]. split; [|vm_compute; reflexivity].
  destruct (slab_complete 4096 64 16 s ∅ ltac:(width) ltac:(lia) ltac:(lia)) as [Hal _];
    [by apply reach_new|].
  destruct (allocate s).1; done.
Defined.

(** [from_raw_parts] succeeds exactly on the arguments it documents (a
    non-null, aligned, non-wrapping region of at least two blocks) and then
    yields an empty slab inside the region whose index bytes end before the first
    data block; every other call is refused with [InvalidArgument]. *)
Theorem slab_from_raw_parts_spec addr len bs : 0 <= addr <= usize_max -> 0 <= len -> 0 <= bs ->
  match from_raw_parts (B:=Bitmap) addr len bs with
  | Ok s => args_ok addr len bs /\ inv s /\ block_size s = bs /\
      addr + number_of_bits (index s) / 8 <= data_addr s /\ end_addr s <= addr + len /\
      forall p, ~ allocated s p
  | Err e => ~ args_ok addr len bs /\ code e = InvalidArgument
  | Panic => False
  end.
Proof.
  intros Ha Hl Hb. destruct (decide (args_ok addr len bs)) as [Ho|Hno].
  - destruct (from_raw_parts_ok (B:=Bitmap) addr len bs) as (s & -> & Hs); [|done|done].
    destruct Ho. lia.
  - by destruct (from_raw_parts_err (B:=Bitmap) addr len bs Ha Hl Hb Hno) as (e & -> & ?).
Qed.

Lemma slab_from_raw_parts_spec_witness :
  exists s, from_raw_parts (B:=Bitmap) 8192 100 10 = Err s /\ code s = InvalidArgument.
Proof.
  pose proof (slab_from_raw_parts_spec 8192 100 10 ltac:(width) ltac:(lia) ltac:(lia)) as H.
  destruct (from_raw_parts (B:=Bitmap) 8192 100 10) as [s|e|] eqn:E.
  - vm_compute in E. discriminate.
  - exists e. split; [reflexivity|apply H].
  - destruct H.
Defined.

End Slab.
