(* ===== verification/Config.v ===== *)
(** * Build-time configuration

    [libs/config/build.rs] turns a TOML file into Rust constants.  The values are
    not part of the repository's Rust code: they are the fields of [Config], and
    the development is generic in them.  [config_ok] is what the build script
    asserts of them before it writes the constants. *)

From S2P Require Import Prelude.
#[local] Open Scope Z_scope.

Class Config := {
  MEMORY_SIZE : Z;
  KERNEL_WATERMARK : Z;
  KSTACK_SIZE : Z;
  KREDZONE_SIZE : Z;
  MAX_THREADS : Z;
  MAX_PROCESSES : Z;
  SCHEDULER_FREQ : Z
}.

Definition PAGE_SIZE : Z := 4096.
Definition PGTAB_SIZE : Z := Z.shiftl 1 22.
Definition WORD_SIZE : Z := 4.

(** The assertions of the build script; all values are of type [usize]. *)
Definition config_checks `{Config} : bool :=
  (KSTACK_SIZE mod PAGE_SIZE =? 0) && (2 * PAGE_SIZE <=? KSTACK_SIZE) &&
  (KSTACK_SIZE <=? PGTAB_SIZE) && (KREDZONE_SIZE mod WORD_SIZE =? 0) &&
  negb (KERNEL_WATERMARK =? 0) && (1 <=? MAX_THREADS) &&
  (1 <=? MAX_PROCESSES) && (MAX_PROCESSES <=? u8_max).

Class ConfigOk `{Config} : Prop := {
  config_usize : Forall (fun v => 0 <= v <= usize_max)
    [MEMORY_SIZE; KERNEL_WATERMARK; KSTACK_SIZE; KREDZONE_SIZE; MAX_THREADS; MAX_PROCESSES;
     SCHEDULER_FREQ];
  config_checked : config_checks = true
}.

Lemma memory_size_bound `{ConfigOk} : 0 <= MEMORY_SIZE <= usize_max.
Proof. exact (Forall_inv config_usize). Qed.

Lemma watermark_bound `{ConfigOk} : 0 < KERNEL_WATERMARK <= usize_max.
Proof.
  pose proof (Forall_inv (Forall_inv_tail config_usize)) as Hw. simpl in Hw.
  pose proof config_checked as Hc. unfold config_checks in Hc.
  destruct (Z.eqb_spec KERNEL_WATERMARK 0); [|lia]. rewrite !andb_false_r in Hc. done.
Qed.

Lemma max_processes_bound `{ConfigOk} : 1 <= MAX_PROCESSES <= 255.
Proof.
  pose proof config_checked as Hc. unfold config_checks in Hc.
  apply andb_prop in Hc as [Hc ?]. apply andb_prop in Hc as [Hc ?]. width.
Qed.

Lemma max_threads_bound `{ConfigOk} : 1 <= MAX_THREADS <= usize_max.
Proof.
  pose proof config_checked as Hc. unfold config_checks in Hc.
  do 2 apply andb_prop in Hc as [Hc _]. apply andb_prop in Hc as [_ Hc].
  pose proof (Forall_lookup_1 _ _ 4 MAX_THREADS config_usize eq_refl) as Ht. simpl in Ht. lia.
Qed.

(** A small configuration the examples are evaluated in: sixteen frames. *)
Definition sample_config : Config := {|
  MEMORY_SIZE := 65536;
  KERNEL_WATERMARK := 2;
  KSTACK_SIZE := 8192;
  KREDZONE_SIZE := 16;
  MAX_THREADS := 8;
  MAX_PROCESSES := 4;
  SCHEDULER_FREQ := 10
|}.

Lemma sample_config_ok : @ConfigOk sample_config.
Proof. split; [repeat constructor; vm_compute; discriminate|reflexivity]. Qed.
