(* ===== verification/Addr.v ===== *)
(** * Addresses and memory regions

    [libs/sys/src/sys/mm/alignment.rs], [libs/sys/src/sys/mm/address/virt.rs],
    [libs/arch/src/x86/mem/paging/frame/number.rs] and [kernel/src/hal/mem/types/]:
    alignment on [usize], virtual and physical addresses, page-aligned addresses,
    frame numbers and addresses, and memory regions.  The trait [Address] is a
    type class with the same instances. *)

From S2P Require Import Prelude Error Config.
#[local] Open Scope Z_scope.

(** ** Alignment *)

Inductive Alignment :=
| Align4 | Align8 | Align16 | Align32 | Align64 | Align128 | Align256 | Align512 | Align1024
| Align2048 | Align4096 | Align8192 | Align16384 | Align32768 | Align65536 | Align131072
| Align262144 | Align524288 | Align1048576 | Align2097152 | Align4194304.

#[export] Instance Alignment_eq_dec : EqDecision Alignment.
Proof. solve_decision. Defined.

(** [align as usize]. *)
Definition Alignment_value (a : Alignment) : Z :=
  match a with
  | Align4 => 4 | Align8 => 8 | Align16 => 16 | Align32 => 32 | Align64 => 64
  | Align128 => 128 | Align256 => 256 | Align512 => 512 | Align1024 => 1024
  | Align2048 => 2048 | Align4096 => 4096 | Align8192 => 8192 | Align16384 => 16384
  | Align32768 => 32768 | Align65536 => 65536 | Align131072 => 131072
  | Align262144 => 262144 | Align524288 => 524288 | Align1048576 => 1048576
  | Align2097152 => 2097152 | Align4194304 => 4194304
  end.

Definition Alignment_try_from (value : Z) : res Error Alignment :=
  match value with
  | 4 => Ok Align4
  | 8 => Ok Align8
  | 16 => Ok Align16
  | 32 => Ok Align32
  | 64 => Ok Align64
  | 128 => Ok Align128
  | 256 => Ok Align256
  | 512 => Ok Align512
  | 1024 => Ok Align1024
  | 2048 => Ok Align2048
  | 4096 => Ok Align4096
  | 8192 => Ok Align8192
  | 16384 => Ok Align16384
  | 32768 => Ok Align32768
  | 65536 => Ok Align65536
  | 131072 => Ok Align131072
  | 262144 => Ok Align262144
  | 524288 => Ok Align524288
  | 1048576 => Ok Align1048576
  | 2097152 => Ok Align2097152
  | 4194304 => Ok Align4194304
  | _ => Err (mkError InvalidArgument "invalid alignment")
  end.

(** [!x] on [usize]. *)
Definition usize_not (x : Z) : Z := Z.lxor x usize_max.

Definition align_up (value : Z) (align : Alignment) : option Z :=
  let align_val := Alignment_value align in
  match checked_add value (align_val - 1) with
  | Some v => Some (Z.land v (usize_not (align_val - 1)))
  | None => None
  end.

Definition align_down (value : Z) (align : Alignment) : Z :=
  Z.land value (usize_not (Alignment_value align - 1)).

Definition is_aligned (value : Z) (align : Alignment) : bool :=
  Z.land value (Alignment_value align - 1) =? 0.

Definition PAGE_ALIGNMENT : Alignment := Align4096.
Definition FRAME_SHIFT : Z := 12.
Definition FRAME_SIZE : Z := PAGE_SIZE.
Definition MAX_ADDRESS : Z := usize_max.

(** ** The trait *)

Class Address (T : Type) := {
  into_raw_value : T → Z;
  from_raw_value : Z → res Error T;
  addr_align_down : T → Alignment → res Error T;
  addr_is_aligned : T → Alignment → res Error bool;
  max_addr : Z
}.

(** ** Virtual addresses *)

Record VirtualAddress := mkVirtualAddress { va_raw : Z }.

#[export] Instance VirtualAddress_Address : Address VirtualAddress := {
  into_raw_value := va_raw;
  from_raw_value raw := Ok (mkVirtualAddress raw);
  addr_align_down v a := Ok (mkVirtualAddress (align_down (va_raw v) a));
  addr_is_aligned v a := Ok (is_aligned (va_raw v) a);
  max_addr := usize_max
}.

(** ** Frame numbers *)

Record FrameNumber := mkFrameNumber { fn_raw : Z }.

Definition FrameNumber_MAX : Z := MAX_ADDRESS / FRAME_SIZE - 1.

Definition FrameNumber_from_raw_value (value : Z) : option FrameNumber :=
  if FrameNumber_MAX <? value then None else Some (mkFrameNumber value).

(** ** Physical addresses *)

Record PhysicalAddress := mkPhysicalAddress { pa_virt : VirtualAddress }.

Section Physical.
Context `{Config}.

(** [hal::platform::is_valid_physical_address] and [max_physical_address]. *)
Definition is_valid_physical_address (addr : VirtualAddress) : bool :=
  va_raw addr <? MEMORY_SIZE.
Definition max_physical_address : Z := MEMORY_SIZE - 1.

Definition from_virtual_address (addr : VirtualAddress) : res Error PhysicalAddress :=
  if negb (is_valid_physical_address addr)
  then Err (mkError BadAddress "address out of bounds of physical memory")
  else Ok (mkPhysicalAddress addr).

Definition from_mmio_address (addr : VirtualAddress) : res Error PhysicalAddress :=
  Ok (mkPhysicalAddress addr).

#[export] Instance PhysicalAddress_Address : Address PhysicalAddress := {
  into_raw_value p := va_raw (pa_virt p);
  from_raw_value value := from_virtual_address (mkVirtualAddress value);
  addr_align_down p a :=
    from_virtual_address (mkVirtualAddress (align_down (va_raw (pa_virt p)) a));
  addr_is_aligned p a := Ok (is_aligned (va_raw (pa_virt p)) a);
  max_addr := max_physical_address
}.

End Physical.

Definition from_number (frame : FrameNumber) : res Error PhysicalAddress :=
  addr ← usize_mul (fn_raw frame) FRAME_SIZE;
  Ok (mkPhysicalAddress (mkVirtualAddress addr)).

(** The [unwrap] panics when the page is not numbered. *)
Definition into_frame_number (p : PhysicalAddress) : res Error FrameNumber :=
  match FrameNumber_from_raw_value (Z.shiftr (va_raw (pa_virt p)) FRAME_SHIFT) with
  | Some n => Ok n
  | None => Panic
  end.

(** ** Page-aligned addresses *)

Record PageAligned (T : Type) := mkPageAligned { pg_inner : T }.
Arguments mkPageAligned {T} _.
Arguments pg_inner {T} _.

Definition PageAligned_from_address {T} `{Address T} (addr : T) : res Error (PageAligned T) :=
  aligned ← addr_is_aligned addr PAGE_ALIGNMENT;
  if negb aligned then Err (mkError BadAddress "unaligned virtual address")
  else Ok (mkPageAligned addr).

#[export] Instance PageAligned_Address {T} `{Address T} : Address (PageAligned T) := {
  into_raw_value p := into_raw_value (pg_inner p);
  from_raw_value raw := a ← from_raw_value raw; PageAligned_from_address a;
  addr_align_down p a := d ← addr_align_down (pg_inner p) a; PageAligned_from_address d;
  addr_is_aligned p a := addr_is_aligned (pg_inner p) a;
  max_addr := max_addr (T:=T)
}.

(** ** Frame addresses *)

Record FrameAddress := mkFrameAddress { fa_inner : PageAligned PhysicalAddress }.

#[export] Instance FrameAddress_eq_dec : EqDecision FrameAddress.
Proof.
  intros [[[[x]]]] [[[[y]]]]. destruct (decide (x = y)) as [->|]; [by left|right; congruence].
Defined.

Definition FrameAddress_raw (f : FrameAddress) : Z := va_raw (pa_virt (pg_inner (fa_inner f))).

Definition FrameAddress_from_frame_number `{Config} (n : FrameNumber) : res Error FrameAddress :=
  p ← from_number n;
  a ← PageAligned_from_address p;
  Ok (mkFrameAddress a).

Definition FrameAddress_into_frame_number (f : FrameAddress) : res Error FrameNumber :=
  into_frame_number (pg_inner (fa_inner f)).

Definition FrameAddress_from_raw_value `{Config} (raw : Z) : res Error FrameAddress :=
  p ← from_raw_value (T:=PhysicalAddress) raw;
  a ← PageAligned_from_address p;
  Ok (mkFrameAddress a).

(** ** Memory regions *)

Inductive ReadPermission := ReadDeny | ReadAllow.
Inductive WritePermission := WriteDeny | WriteAllow.
Inductive ExecutePermission := ExecuteDeny | ExecuteAllow.

Record AccessPermission := mkAccessPermission {
  perm_read : ReadPermission;
  perm_write : WritePermission;
  perm_execute : ExecutePermission
}.

Definition RDWR : AccessPermission := mkAccessPermission ReadAllow WriteAllow ExecuteDeny.

Inductive MemoryRegionType := Usable | Reserved | Mmio | Bad.

Record MmioCachePolicy := mkMmioCachePolicy {
  write_through : bool;
  cache_enabled : bool
}.

Record MemoryRegion (T : Type) := mkMemoryRegion {
  mr_name : string;
  mr_start : T;
  mr_size : Z;
  mr_typ : MemoryRegionType;
  mr_perm : AccessPermission;
  mr_cache_policy : option MmioCachePolicy
}.
Arguments mkMemoryRegion {T} _ _ _ _ _ _.
Arguments mr_name {T} _.
Arguments mr_start {T} _.
Arguments mr_size {T} _.
Arguments mr_typ {T} _.
Arguments mr_perm {T} _.
Arguments mr_cache_policy {T} _.

Definition MEMORY_REGION_NAME_MAX : Z := 32.

Section Regions.
Context {T : Type} `{Address T}.

Definition MemoryRegion_new (name : string) (start : T) (size : Z) (typ : MemoryRegionType)
    (perm : AccessPermission) : res Error (MemoryRegion T) :=
  if MEMORY_REGION_NAME_MAX <? Z.of_nat (String.length name)
  then Err (mkError InvalidArgument "memory region name is too long")
  else if size =? 0 then Err (mkError InvalidArgument "invalid memory region size")
  else
    match checked_add (into_raw_value start) (size - 1) with
    | None => Err (mkError TooBig "memory region is too big")
    | Some end_raw_addr =>
      if max_addr (T:=T) <? end_raw_addr
      then Err (mkError InvalidArgument "memory region spans outside the address space")
      else Ok (mkMemoryRegion name start size typ perm None)
    end.

Definition set_cache_policy (policy : MmioCachePolicy) (r : MemoryRegion T) : MemoryRegion T :=
  mkMemoryRegion (mr_name r) (mr_start r) (mr_size r) (mr_typ r) (mr_perm r) (Some policy).

End Regions.

(** A region with a page-aligned start and a size in pages. *)
Definition TruncatedMemoryRegion (T : Type) : Type := MemoryRegion (PageAligned T).

Section Truncated.
Context {T : Type} `{Address T}.

Definition TruncatedMemoryRegion_new (name : string) (start : PageAligned T) (size : Z)
    (typ : MemoryRegionType) (perm : AccessPermission) : res Error (TruncatedMemoryRegion T) :=
  match align_up size PAGE_ALIGNMENT with
  | None => Err (mkError InvalidArgument "align_up overflow")
  | Some size => MemoryRegion_new name start size typ perm
  end.

Definition new_mmio (name : string) (start : PageAligned T) (size : Z)
    (perm : AccessPermission) (cache_policy : MmioCachePolicy)
    : res Error (TruncatedMemoryRegion T) :=
  region ← TruncatedMemoryRegion_new name start size Mmio perm;
  Ok (set_cache_policy cache_policy region).

Definition from_memory_region (region : MemoryRegion T) : res Error (TruncatedMemoryRegion T) :=
  start ← addr_align_down (mr_start region) PAGE_ALIGNMENT;
  start ← PageAligned_from_address start;
  truncated ← TruncatedMemoryRegion_new (mr_name region) start (mr_size region)
                (mr_typ region) (mr_perm region);
  match mr_cache_policy region with
  | Some policy => Ok (set_cache_policy policy truncated)
  | None => Ok truncated
  end.

End Truncated.

Definition from_virtual_memory_region `{Config} (region : MemoryRegion VirtualAddress)
    : res Error (TruncatedMemoryRegion PhysicalAddress) :=
  phys ← from_virtual_address (mr_start region);
  start ← PageAligned_from_address phys;
  TruncatedMemoryRegion_new (mr_name region) start (mr_size region)
    (mr_typ region) (mr_perm region).

(** ** Lemmas on alignment *)

Lemma Alignment_pow a : exists k, 2 <= k <= 22 /\ Alignment_value a = 2 ^ k.
Proof.
  exists (Z.log2 (Alignment_value a)). by destruct a; vm_compute.
Qed.

Lemma Alignment_pos a : 4 <= Alignment_value a <= 4194304.
Proof. destruct a; simpl; lia. Qed.

Lemma Alignment_divides a : exists q, 2 ^ 32 = q * Alignment_value a.
Proof. exists (2 ^ 32 / Alignment_value a). by destruct a. Qed.

Lemma is_aligned_mod v a : is_aligned v a = (v mod Alignment_value a =? 0).
Proof.
  unfold is_aligned. destruct (Alignment_pow a) as (k & Hk & ->).
  rewrite <- Z.land_ones by lia. by rewrite Z.ones_equiv.
Qed.

Lemma align_down_mod v a : 0 <= v <= usize_max -> align_down v a = v - v mod Alignment_value a.
Proof.
  intros Hv. unfold align_down. destruct (Alignment_pow a) as (k & Hk & ->).
  assert (Z.land v (usize_not (2 ^ k - 1)) = Z.ldiff v (Z.ones k)) as ->.
  { rewrite Z.ones_equiv, <- Z.sub_1_r. apply Z.bits_inj'. intros i Hi.
    unfold usize_not. change usize_max with (Z.ones 32).
    rewrite Z.land_spec, Z.lxor_spec, Z.ldiff_spec.
    destruct (decide (i < 32)).
    - rewrite (Z.ones_spec_low 32) by lia. by rewrite xorb_true_r.
    - rewrite (Z.bits_above_log2 v); [done|lia|].
      destruct (decide (v = 0)) as [->|]; [simpl; lia|].
      apply Z.log2_lt_pow2; [lia|]. apply Z.le_lt_trans with usize_max; [lia|].
      apply Z.lt_le_trans with (2 ^ 32); [done|]. apply Z.pow_le_mono_r; lia. }
  rewrite Z.ldiff_ones_r, Z.shiftl_mul_pow2, Z.shiftr_div_pow2 by lia.
  pose proof (Z.div_mod v (2 ^ k)). lia.
Qed.

Lemma align_up_ceil v a : 0 <= v -> v + (Alignment_value a - 1) <= usize_max ->
  exists m, align_up v a = Some m /\ m mod Alignment_value a = 0 /\
    v <= m < v + Alignment_value a /\ m <= usize_max.
Proof.
  intros Hv Hmax. unfold align_up, checked_add. pose proof (Alignment_pos a) as Ha.
  rewrite (proj2 (Z.leb_le _ _)) by done.
  exists (align_down (v + (Alignment_value a - 1)) a). split; [done|].
  rewrite align_down_mod by lia.
  set (x := v + (Alignment_value a - 1)) in *. set (d := Alignment_value a) in *.
  pose proof (Z.mod_pos_bound x d ltac:(lia)). splits; [|lia..].
  rewrite (Zmod_eq x d) by lia. replace (x - (x - x / d * d)) with (x / d * d) by lia.
  apply Z.mod_mul. lia.
Qed.

(** ** Physical frames *)

Lemma frame_number_max : FrameNumber_MAX = 1048574.
Proof. reflexivity. Qed.

Lemma page_aligned_ok {T} `{Address T} (a : T) :
  addr_is_aligned a PAGE_ALIGNMENT = Ok (is_aligned (into_raw_value a) PAGE_ALIGNMENT) ->
  into_raw_value a mod PAGE_SIZE = 0 -> PageAligned_from_address a = Ok (mkPageAligned a).
Proof.
  intros Ha Hm. unfold PageAligned_from_address. rewrite Ha, is_aligned_mod. unfold mbind, res_bind.
  change (Alignment_value PAGE_ALIGNMENT) with PAGE_SIZE. by rewrite Hm.
Qed.

(** The address of frame [n]. *)
Definition frame_at (n : Z) : FrameAddress :=
  mkFrameAddress (mkPageAligned (mkPhysicalAddress (mkVirtualAddress (n * FRAME_SIZE)))).

Lemma frame_at_inj m n : frame_at m = frame_at n -> m = n.
Proof. unfold frame_at, FRAME_SIZE, PAGE_SIZE. intros [= ?]. lia. Qed.

Lemma frame_from_number `{Config} n : 0 <= n <= FrameNumber_MAX ->
  FrameNumber_from_raw_value n = Some (mkFrameNumber n) /\
  FrameAddress_from_frame_number (mkFrameNumber n) = Ok (frame_at n).
Proof.
  intros Hn. rewrite frame_number_max in Hn. split.
  - unfold FrameNumber_from_raw_value. rewrite frame_number_max. zbool; [lia|done].
  - unfold FrameAddress_from_frame_number, from_number.
    rewrite usize_mul_ok by (unfold FRAME_SIZE, PAGE_SIZE; cbn [fn_raw]; width). simpl.
    rewrite page_aligned_ok; [done|done|]. simpl. apply Z.mod_mul. done.
Qed.

Lemma frame_into_number n : 0 <= n <= FrameNumber_MAX ->
  FrameAddress_into_frame_number (frame_at n) = Ok (mkFrameNumber n).
Proof.
  intros Hn. unfold FrameAddress_into_frame_number, into_frame_number, frame_at. simpl.
  rewrite Z.shiftr_div_pow2 by done. change (2 ^ FRAME_SHIFT) with FRAME_SIZE.
  rewrite Z.div_mul by done. unfold FrameNumber_from_raw_value. zbool; [lia|done].
Qed.

Lemma frame_from_raw `{Config} n : 0 <= n -> n * FRAME_SIZE < MEMORY_SIZE ->
  FrameAddress_from_raw_value (n * FRAME_SIZE) = Ok (frame_at n).
Proof.
  intros Hn Hm. unfold FrameAddress_from_raw_value. simpl.
  unfold from_virtual_address, is_valid_physical_address. simpl. zbool; [|lia]. simpl.
  rewrite page_aligned_ok; [done|done|]. simpl. apply Z.mod_mul. done.
Qed.

(** Rounding up is exact: the result is the least multiple of the alignment
    that is not below the value, and there is no result precisely when no such
    multiple fits in a [usize]. *)
Theorem align_up_least v a : 0 <= v <= usize_max ->
  match align_up v a with
  | Some m => m mod Alignment_value a = 0 /\ v <= m <= usize_max /\
              forall k, v <= k * Alignment_value a -> m <= k * Alignment_value a
  | None => forall k, v <= k * Alignment_value a -> usize_max < k * Alignment_value a
  end.
Proof.
  intros Hv. pose proof (Alignment_pos a) as Ha.
  destruct (decide (v + (Alignment_value a - 1) <= usize_max)) as [Hle|Hgt].
  - destruct (align_up_ceil v a) as (m & -> & Hm & Hr & Hx); [lia|done|].
    splits; [done|lia|lia|]. intros k Hk.
    destruct (proj1 (Z.mod_divide m (Alignment_value a) ltac:(lia)) Hm) as [q ->].
    destruct (decide (q <= k)); nia.
  - unfold align_up, checked_add. rewrite (proj2 (Z.leb_gt _ _)) by lia.
    intros k Hk. destruct (Alignment_divides a) as [q Hq].
    destruct (decide (q <= k)).
    + assert (2 ^ 32 <= k * Alignment_value a) by nia. width.
    + assert (k * Alignment_value a <= 2 ^ 32 - Alignment_value a) by nia. width.
Qed.

Lemma align_up_least_witness :
  align_up 4097 Align4096 = Some 8192 /\ 8192 mod 4096 = 0 /\
  (forall k, 4097 <= k * 4096 -> 8192 <= k * 4096) /\
  align_up 4294963201 Align4096 = None.
Proof.
  destruct (align_up_least 4097 Align4096 ltac:(width)) as (? & _ & ?).
  split; [reflexivity|]. split; [assumption|]. split; [assumption|reflexivity].
Defined.

(** A physical address has a frame number exactly when it lies below the last
    page of the address space, and the number leads back to the base of its page;
    for the last page the conversion panics. *)
Theorem into_frame_number_spec raw : 0 <= raw <= usize_max ->
  match into_frame_number (mkPhysicalAddress (mkVirtualAddress raw)) with
  | Ok n => raw < 4294963200 /\
            from_number n =
              Ok (mkPhysicalAddress (mkVirtualAddress (align_down raw PAGE_ALIGNMENT)))
  | Err _ => False
  | Panic => 4294963200 <= raw
  end.
Proof.
  intros Hr. unfold into_frame_number, FrameNumber_from_raw_value. simpl.
  rewrite Z.shiftr_div_pow2 by done. change (2 ^ FRAME_SHIFT) with 4096.
  rewrite frame_number_max. pose proof (Z.div_mod raw 4096 ltac:(done)) as D.
  pose proof (Z.mod_pos_bound raw 4096 ltac:(done)) as B.
  destruct (Z.ltb_spec 1048574 (raw / 4096)); [lia|]. split; [lia|].
  unfold from_number. simpl. change FRAME_SIZE with 4096.
  rewrite usize_mul_ok by width. simpl.
  rewrite align_down_mod by done. simpl. do 3 f_equal. lia.
Qed.

Lemma into_frame_number_spec_witness :
  from_number (mkFrameNumber 3) =
    Ok (mkPhysicalAddress (mkVirtualAddress (align_down 12345 PAGE_ALIGNMENT))) /\
  into_frame_number (mkPhysicalAddress (mkVirtualAddress 4294967295)) = Panic.
Proof.
  split; [|reflexivity]. exact (proj2 (into_frame_number_spec 12345 ltac:(width))).
Defined.

(** ** Truncated regions *)

Lemma from_memory_region_start (r : MemoryRegion VirtualAddress) :
  0 <= va_raw (mr_start r) <= usize_max ->
  let base := align_down (va_raw (mr_start r)) PAGE_ALIGNMENT in
  exists s, (a ← addr_align_down (mr_start r) PAGE_ALIGNMENT; PageAligned_from_address a) = Ok s /\
    into_raw_value s = base /\ base mod PAGE_SIZE = 0 /\
    base = va_raw (mr_start r) - va_raw (mr_start r) mod PAGE_SIZE.
Proof.
  intros Hr base. pose proof (align_down_mod (va_raw (mr_start r)) PAGE_ALIGNMENT Hr) as Hb.
  fold base in Hb. change (Alignment_value PAGE_ALIGNMENT) with PAGE_SIZE in Hb.
  assert (base mod PAGE_SIZE = 0) as Hm.
  { rewrite Hb, Zminus_mod_idemp_r, Z.sub_diag. done. }
  exists (mkPageAligned (mkVirtualAddress base)). split; [|done]. simpl. fold base.
  by apply page_aligned_ok.
Qed.

(** Truncating a region keeps its name, type, permissions and cache policy,
    starts at the page of its first byte and has the least number of pages for its
    size.  It covers the region exactly when the offset of the start in its page
    still fits in the last page: for other regions the tail is left out. *)
Theorem from_memory_region_spec (r : MemoryRegion VirtualAddress) t :
  0 <= va_raw (mr_start r) <= usize_max -> 0 <= mr_size r ->
  from_memory_region r = Ok t ->
  let start := into_raw_value (mr_start t) in
  mr_name t = mr_name r /\ mr_typ t = mr_typ r /\ mr_perm t = mr_perm r /\
  mr_cache_policy t = mr_cache_policy r /\
  start mod PAGE_SIZE = 0 /\ mr_size t mod PAGE_SIZE = 0 /\
  start <= va_raw (mr_start r) < start + PAGE_SIZE /\
  mr_size r <= mr_size t < mr_size r + PAGE_SIZE /\
  (va_raw (mr_start r) + mr_size r <= start + mr_size t <->
   va_raw (mr_start r) mod PAGE_SIZE + mr_size r <= mr_size t).
Proof.
  intros Hr Hs0. destruct (from_memory_region_start r Hr) as (s & Hs & Hraw & Hm & Hb).
  unfold from_memory_region. unfold mbind, res_bind in *.
  destruct (addr_align_down (mr_start r) PAGE_ALIGNMENT) as [a|e|]; [|discriminate..].
  rewrite Hs. unfold TruncatedMemoryRegion_new.
  destruct (align_up (mr_size r) PAGE_ALIGNMENT) as [m|] eqn:Em; [|discriminate].
  assert (m mod PAGE_SIZE = 0 /\ mr_size r <= m < mr_size r + PAGE_SIZE) as [Hmm Hmr].
  { destruct (decide (mr_size r + (Alignment_value PAGE_ALIGNMENT - 1) <= usize_max)) as [Hle|Hgt].
    - destruct (align_up_ceil (mr_size r) PAGE_ALIGNMENT) as (m' & Em' & ? & ? & _); [done..|].
      assert (m' = m) as -> by congruence. done.
    - unfold align_up, checked_add in Em. by rewrite (proj2 (Z.leb_gt _ _)) in Em by lia. }
  pose proof (Z.mod_pos_bound (va_raw (mr_start r)) PAGE_SIZE ltac:(done)).
  simpl in Hraw. unfold MemoryRegion_new.
  repeat (case_match; try discriminate); intros [= <-]; simplify_eq; simpl;
    rewrite Hraw; splits; done || lia.
Qed.

(** A region of 32 bytes across a page boundary loses its last 16 bytes. *)
Lemma from_memory_region_spec_witness :
  let perm := mkAccessPermission ReadAllow WriteDeny ExecuteDeny in
  let r := mkMemoryRegion "acpi" (mkVirtualAddress 8176) 32 Reserved perm None in
  let t := mkMemoryRegion "acpi" (mkPageAligned (mkVirtualAddress 4096)) 4096 Reserved perm None in
  from_memory_region r = Ok t /\ ~ 8176 + 32 <= 4096 + 4096.
Proof.
  intros perm r t. assert (from_memory_region r = Ok t) as E by reflexivity.
  split; [exact E|].
  destruct (from_memory_region_spec r t ltac:(simpl; width) ltac:(simpl; lia) E)
    as (_ & _ & _ & _ & _ & _ & _ & _ & Hcov).
  simpl in Hcov. intros Hle. apply Hcov in Hle. vm_compute in Hle. congruence.
Defined.
