(* ===== verification/MmioAlloc.v ===== *)
(** * The allocator of memory-mapped regions

    [kernel/src/hal/io/mmio/allocator.rs] and [region.rs].  Regions are registered under
    tags and handed out one holder at a time.  A handle that is dropped puts its region
    on a channel that it shares with the allocator; the allocator takes the regions back
    when it is called the next time. *)

From S2P Require Import Prelude Error Addr SortedVec MmioTag.
#[local] Open Scope Z_scope.

Definition MmioRegion : Type := TruncatedMemoryRegion VirtualAddress.

Record MmioEntry := mkMmioEntry { me_tag : MmioTag; me_region : MmioRegion }.

(** The handle of an allocated region; the channel is the one of the allocator. *)
Record IoMemoryRegion := mkIoMemoryRegion { io_tag : MmioTag; io_region : MmioRegion }.

Record IoMemoryAllocator := mkIoMemoryAllocator {
  available : list MmioEntry;
  allocated : list MmioEntry;
  return_channel : list (MmioTag * MmioRegion)
}.

Module Mmio.

Definition with_available l s := mkIoMemoryAllocator l (allocated s) (return_channel s).
Definition with_allocated l s := mkIoMemoryAllocator (available s) l (return_channel s).
Definition with_channel l s := mkIoMemoryAllocator (available s) (allocated s) l.

Definition new : IoMemoryAllocator := mkIoMemoryAllocator SortedVec.new SortedVec.new [].

Definition compute_inclusive_end (start size : Z) : res Error Z :=
  match checked_sub size 1 with
  | None => Err (mkError InvalidArgument "region size underflow")
  | Some size_minus_one =>
    match checked_add start size_minus_one with
    | Some last => Ok last
    | None => Err (mkError InvalidArgument "region end address overflow")
    end
  end.

(** [while let Some((tag, region)) = channel.pop_front()] of [reclaim]. *)
Fixpoint reclaim_loop (channel : list (MmioTag * MmioRegion)) : M IoMemoryAllocator Error unit :=
  match channel with
  | [] => mret tt
  | (tag, region) :: channel =>
    modify (with_channel channel);;
    removed ← zoom allocated with_allocated (SortedVec.remove_by me_tag tag);
    match removed with
    | None => fail (mkError NoSuchEntry "region not found in allocated")
    | Some _ =>
      old ← zoom available with_available (SortedVec.insert me_tag (mkMmioEntry tag region));
      match old with
      | Some _ => fail (mkError EntryExists "region already in available")
      | None => reclaim_loop channel
      end
    end
  end.

Definition reclaim : M IoMemoryAllocator Error unit :=
  s ← get;
  reclaim_loop (return_channel s).

(** The loop of [register] over all entries. *)
Fixpoint check_overlaps (start last : Z) (entries : list MmioEntry) : res Error unit :=
  match entries with
  | [] => Ok tt
  | entry :: entries =>
    let reg_start := into_raw_value (mr_start (me_region entry)) in
    reg_end ← compute_inclusive_end reg_start (mr_size (me_region entry));
    if negb ((last <? reg_start) || (reg_end <? start))
    then Err (mkError EntryExists "region overlaps existing entry")
    else check_overlaps start last entries
  end.

Definition register (tag : MmioTag) (region : MmioRegion) : M IoMemoryAllocator Error unit :=
  reclaim;;
  s ← get;
  av ← lift (SortedVec.lookup_by me_tag tag (available s));
  al ← lift (match av with Some _ => Ok av | None => SortedVec.lookup_by me_tag tag (allocated s) end);
  match al with
  | Some _ => fail (mkError EntryExists "tag already registered")
  | None =>
    let start := into_raw_value (mr_start region) in
    last ← lift (compute_inclusive_end start (mr_size region));
    lift (check_overlaps start last (available s ++ allocated s));;
    old ← zoom available with_available (SortedVec.insert me_tag (mkMmioEntry tag region));
    match old with
    | Some _ => fail (mkError EntryExists "tag already registered")
    | None => mret tt
    end
  end.

Definition allocate (tag : MmioTag) : M IoMemoryAllocator Error IoMemoryRegion :=
  reclaim;;
  removed ← zoom available with_available (SortedVec.remove_by me_tag tag);
  match removed with
  | Some entry =>
    old ← zoom allocated with_allocated (SortedVec.insert me_tag entry);
    match old with
    | Some _ => fail (mkError EntryExists "tag already allocated")
    | None => mret (mkIoMemoryRegion tag (me_region entry))
    end
  | None =>
    s ← get;
    al ← lift (SortedVec.lookup_by me_tag tag (allocated s));
    match al with
    | Some _ => fail (mkError EntryExists "region already allocated")
    | None => fail (mkError NoSuchEntry "region not registered")
    end
  end.

(** [Drop] of a handle. *)
Definition drop_region (r : IoMemoryRegion) (s : IoMemoryAllocator) : IoMemoryAllocator :=
  with_channel (return_channel s ++ [(io_tag r, io_region r)]) s.

(** ** The contract

    A table of registered regions and the handles in use. *)

Record Spec := mkSpec { registered : gmap MmioTag MmioRegion; handles : list IoMemoryRegion }.

Definition first_address (r : MmioRegion) : Z := into_raw_value (mr_start r).
Definition last_address (r : MmioRegion) : Z := into_raw_value (mr_start r) + mr_size r - 1.

Definition overlap (r1 r2 : MmioRegion) : bool :=
  (first_address r1 <=? last_address r2) && (first_address r2 <=? last_address r1).

Inductive Op := Register (tag : MmioTag) (region : MmioRegion) | Allocate (tag : MmioTag) | Drop (i : nat).
Inductive Answer := Registered (r : res Error unit) | Allocated (r : res Error IoMemoryRegion) | Dropped.

Definition spec_call (o : Op) (sp : Spec) : Answer * Spec :=
  match o with
  | Register tag r =>
    match registered sp !! tag with
    | Some _ => (Registered (Err (mkError EntryExists "tag already registered")), sp)
    | None =>
      if mr_size r <? 1 then (Registered (Err (mkError InvalidArgument "region size underflow")), sp)
      else if usize_max <? last_address r
      then (Registered (Err (mkError InvalidArgument "region end address overflow")), sp)
      else if existsb (fun p => overlap r p.2) (map_to_list (registered sp))
      then (Registered (Err (mkError EntryExists "region overlaps existing entry")), sp)
      else (Registered (Ok tt), mkSpec (<[tag := r]> (registered sp)) (handles sp))
    end
  | Allocate tag =>
    match registered sp !! tag with
    | None => (Allocated (Err (mkError NoSuchEntry "region not registered")), sp)
    | Some r =>
      if existsb (fun h => bool_decide (io_tag h = tag)) (handles sp)
      then (Allocated (Err (mkError EntryExists "region already allocated")), sp)
      else (Allocated (Ok (mkIoMemoryRegion tag r)), mkSpec (registered sp) (handles sp ++ [mkIoMemoryRegion tag r]))
    end
  | Drop i => (Dropped, mkSpec (registered sp) (delete i (handles sp)))
  end.

Fixpoint spec_calls (os : list Op) (sp : Spec) : list Answer * Spec :=
  match os with
  | [] => ([], sp)
  | o :: os => let '(a, sp) := spec_call o sp in let '(l, sp) := spec_calls os sp in (a :: l, sp)
  end.

(** The allocator and the handles it gave out. *)
Definition World : Type := IoMemoryAllocator * list IoMemoryRegion.

Definition call (o : Op) (w : World) : Answer * World :=
  let '(s, held) := w in
  match o with
  | Register tag r => let '(a, s) := register tag r s in (Registered a, (s, held))
  | Allocate tag =>
    let '(a, s) := allocate tag s in
    (Allocated a, (s, match a with Ok h => held ++ [h] | _ => held end))
  | Drop i => (Dropped, (match held !! i with Some h => drop_region h s | None => s end, delete i held))
  end.

Fixpoint calls (os : list Op) (w : World) : list Answer * World :=
  match os with
  | [] => ([], w)
  | o :: os => let '(a, w) := call o w in let '(l, w) := calls os w in (a :: l, w)
  end.

(** ** Proofs *)

Definition of_pair (p : MmioTag * MmioRegion) : MmioEntry := mkMmioEntry p.1 p.2.
Definition to_pair (e : MmioEntry) : MmioTag * MmioRegion := (me_tag e, me_region e).
Definition of_handle (h : IoMemoryRegion) : MmioEntry := mkMmioEntry (io_tag h) (io_region h).

(** A state of the allocator and the handles in use implement a table. *)
Record implements (s : IoMemoryAllocator) (sp : Spec) : Prop := {
  im_available : SortedVec.sorted (key:=me_tag) (available s);
  im_allocated : SortedVec.sorted (key:=me_tag) (allocated s);
  im_used : allocated s ≡ₚ (of_handle <$> handles sp) ++ (of_pair <$> return_channel s);
  im_registered : map_to_list (registered sp) ≡ₚ to_pair <$> (available s ++ allocated s)
}.

(** What the table promises. *)
Record spec_ok (sp : Spec) : Prop := {
  so_valid tag r : registered sp !! tag = Some r -> 1 <= mr_size r /\ last_address r <= usize_max;
  so_disjoint t1 r1 t2 r2 : registered sp !! t1 = Some r1 -> registered sp !! t2 = Some r2 -> t1 <> t2 -> overlap r1 r2 = false;
  so_registered h : h ∈ handles sp -> registered sp !! io_tag h = Some (io_region h);
  so_distinct : NoDup (io_tag <$> handles sp)
}.

Lemma implements_nodup s sp : implements s sp -> NoDup (me_tag <$> available s ++ allocated s).
Proof.
  intros Hi. pose proof (NoDup_fst_map_to_list (registered sp)) as Hn. rewrite (im_registered _ _ Hi) in Hn.
  by rewrite <- list_fmap_compose in Hn.
Qed.

Lemma implements_lookup s sp tag r : implements s sp ->
  registered sp !! tag = Some r <-> mkMmioEntry tag r ∈ available s ++ allocated s.
Proof.
  intros Hi. rewrite <- elem_of_map_to_list, (im_registered _ _ Hi), list_elem_of_fmap. split.
  - intros ([t' r'] & [= -> ->] & H). done.
  - intros H. by exists (mkMmioEntry tag r).
Qed.

#[local] Notation sorted := (SortedVec.sorted (key:=me_tag)).
#[local] Notation find_key := (SortedVec.find_key (key:=me_tag)).

Lemma find_entry l tag r : sorted l -> mkMmioEntry tag r ∈ l -> find_key tag l = Some (mkMmioEntry tag r).
Proof. intros Hs. apply (SortedVec.find_key_elem (key:=me_tag) l (mkMmioEntry tag r)). by apply SortedVec.sorted_unique. Qed.

Lemma find_absent l tag : find_key tag l = None <-> tag ∉ me_tag <$> l.
Proof. rewrite SortedVec.find_key_none, list_elem_of_fmap. naive_solver. Qed.

(** An entry that is in one of the two vectors is not in the other. *)
Lemma nodup_other (l1 l2 : list MmioEntry) e : NoDup (me_tag <$> l1 ++ l2) -> e ∈ l2 -> me_tag e ∉ me_tag <$> l1.
Proof. rewrite fmap_app, NoDup_app. intros (_ & Hd & _) He Hin. apply (Hd _ Hin). by apply list_elem_of_fmap_2. Qed.

(** Regions that come back are available again. *)
Lemma wp_reclaim s sp (Q : res Error unit → IoMemoryAllocator → Prop) : implements s sp ->
  (forall s', implements s' sp -> return_channel s' = [] -> Q (Ok tt) s') -> wp reclaim s Q.
Proof.
  intros Hi HQ. unfold reclaim. do 2 wstep. remember (return_channel s) as ch eqn:Hch. revert s Hi Hch.
  induction ch as [|[tag r] ch IH]; intros s Hi Hch; cbn [reclaim_loop]; [wstep; by apply HQ|].
  pose proof (implements_nodup _ _ Hi) as Hn. destruct Hi as [H1 H2 Hu Hr]. rewrite <- Hch in Hu.
  assert (mkMmioEntry tag r ∈ allocated s) as Hin by (rewrite Hu; set_solver).
  do 4 wstep. apply SortedVec.wp_remove_by; [done|]. intros al' Hal'. cbn [allocated with_channel].
  rewrite (find_entry _ _ _ H2 Hin). intros [_ Hal]. do 2 wstep. apply SortedVec.wp_insert; [done|]. intros av' Hav'.
  cbn [available with_channel with_allocated me_tag].
  rewrite (proj2 (find_absent (available s) tag)) by by apply (nodup_other _ _ (mkMmioEntry tag r) Hn).
  intros Hav. apply IH; [|done]. split; try done.
  - simpl. apply (Permutation_cons_inv (a:=mkMmioEntry tag r)). rewrite <- Hal, Hu. simpl. by rewrite Permutation_middle.
  - simpl. rewrite Hr, Hav, Hal. f_equiv. by rewrite <- Permutation_middle.
Qed.

Lemma inclusive_end_spec r : compute_inclusive_end (first_address r) (mr_size r) =
  if mr_size r <? 1 then Err (mkError InvalidArgument "region size underflow")
  else if usize_max <? last_address r then Err (mkError InvalidArgument "region end address overflow")
  else Ok (last_address r).
Proof.
  unfold compute_inclusive_end, checked_sub, checked_add, last_address, first_address.
  destruct (Z.leb_spec 1 (mr_size r)), (Z.ltb_spec (mr_size r) 1); try lia; [|done].
  replace (into_raw_value (mr_start r) + (mr_size r - 1)) with (into_raw_value (mr_start r) + mr_size r - 1) by lia.
  zbool; try lia; done.
Qed.

Lemma check_overlaps_spec r l : (forall e, e ∈ l -> 1 <= mr_size (me_region e) /\ last_address (me_region e) <= usize_max) ->
  check_overlaps (first_address r) (last_address r) l =
  if existsb (fun e => overlap r (me_region e)) l then Err (mkError EntryExists "region overlaps existing entry") else Ok tt.
Proof.
  induction l as [|e l IH]; intros Hl; [done|]. cbn [check_overlaps existsb].
  destruct (Hl e) as [H1 H2]; [set_solver|]. change (into_raw_value (mr_start ?x)) with (first_address x).
  rewrite inclusive_end_spec, (proj2 (Z.ltb_ge _ _) H1), (proj2 (Z.ltb_ge _ _) H2). cbn [mbind res_bind].
  rewrite IH by set_solver. unfold overlap. rewrite !Z.leb_antisym, negb_orb. rewrite (andb_comm (negb _)).
  by destruct (negb (last_address (me_region e) <? first_address r) && _).
Qed.

Lemma existsb_perm {A B} (f : A → bool) (g : B → bool) (h : A → B) l l' :
  (forall x, f x = g (h x)) -> l' ≡ₚ h <$> l -> existsb f l = existsb g l'.
Proof.
  intros Hf Hp. apply eq_true_iff_eq. rewrite !existsb_exists. setoid_rewrite <- list_elem_of_In. setoid_rewrite Hp.
  setoid_rewrite list_elem_of_fmap. split; [intros (x & Hx & Hfx); exists (h x); rewrite <- Hf; eauto|].
  intros (y & (x & -> & Hx) & Hg). exists x. by rewrite Hf.
Qed.

Lemma registered_none s sp tag : implements s sp -> registered sp !! tag = None <->
  find_key tag (available s) = None /\ find_key tag (allocated s) = None.
Proof.
  intros Hi. rewrite !find_absent, <- not_elem_of_app, <- fmap_app, list_elem_of_fmap. split.
  - intros Hn ([t r] & -> & H). apply (implements_lookup _ _ _ _ Hi) in H. simpl in Hn. congruence.
  - intros Hn. apply eq_None_not_Some. intros [r Hr]. apply Hn. exists (mkMmioEntry tag r).
    by rewrite <- (implements_lookup _ _ _ _ Hi).
Qed.

(** Both operations do what the table says. *)
Lemma wp_register s sp tag r : implements s sp -> spec_ok sp ->
  wp (register tag r) s (fun o s' => Registered o = (spec_call (Register tag r) sp).1 /\
    implements s' (spec_call (Register tag r) sp).2).
Proof.
  intros Hi Hok. unfold register. wstep. apply (wp_reclaim _ sp); [done|]. clear s Hi. intros s Hi Hch.
  pose proof (registered_none s sp tag Hi) as Hnone. do 4 wstep.
  rewrite (SortedVec.lookup_by_ok _ _ (im_available _ _ Hi)). do 2 wstep.
  rewrite (SortedVec.lookup_by_ok _ _ (im_allocated _ _ Hi)). cbn [spec_call].
  destruct (registered sp !! tag) as [r0|] eqn:Hr.
  { destruct (find_key tag (available s)) as [e|]; [by wstep|].
    destruct (find_key tag (allocated s)) as [e|]; [by wstep|]. by discriminate (proj2 Hnone (conj eq_refl eq_refl)). }
  destruct (proj1 Hnone eq_refl) as [-> ->]. do 2 wstep. change (into_raw_value (mr_start r)) with (first_address r).
  rewrite inclusive_end_spec. destruct (mr_size r <? 1); [done|]. destruct (usize_max <? last_address r); [done|].
  do 2 wstep. rewrite check_overlaps_spec.
  2: { intros [t' r'] He. apply (so_valid _ Hok t'). by apply (implements_lookup _ _ _ _ Hi). }
  rewrite (existsb_perm _ (fun p => overlap r p.2) to_pair _ (map_to_list (registered sp))) by (done || apply (im_registered _ _ Hi)).
  destruct (existsb _ _); [done|]. do 2 wstep. apply SortedVec.wp_insert; [apply Hi|]. intros av' Hav'.
  destruct (proj1 Hnone eq_refl) as [Hf _]. cbn [me_tag]. rewrite Hf. intros Hav. wstep. split; [done|].
  destruct Hi as [H1 H2 Hu Hm]. split; try done. simpl. by rewrite map_to_list_insert, Hav, Hm.
Qed.

Lemma existsb_handle (hs : list IoMemoryRegion) tag :
  existsb (fun h => bool_decide (io_tag h = tag)) hs = bool_decide (tag ∈ me_tag <$> (of_handle <$> hs)).
Proof.
  apply eq_true_iff_eq. rewrite existsb_exists, bool_decide_eq_true. setoid_rewrite <- list_elem_of_In.
  rewrite <- list_fmap_compose, list_elem_of_fmap. setoid_rewrite bool_decide_eq_true. naive_solver.
Qed.

Lemma wp_allocate s sp tag : implements s sp ->
  wp (allocate tag) s (fun o s' => Allocated o = (spec_call (Allocate tag) sp).1 /\
    implements s' (spec_call (Allocate tag) sp).2).
Proof.
  intros Hi. unfold allocate. wstep. apply (wp_reclaim _ sp); [done|]. clear s Hi. intros s Hi Hch.
  pose proof (registered_none s sp tag Hi) as Hnone. pose proof (implements_nodup _ _ Hi) as Hn.
  pose proof (im_used _ _ Hi) as Hu. rewrite Hch, app_nil_r in Hu.
  cbn [spec_call]. rewrite existsb_handle. do 2 wstep. apply SortedVec.wp_remove_by; [apply Hi|]. intros av' Hav' Hrem.
  destruct (find_key tag (available s)) as [[t r]|] eqn:Hf.
  - destruct (SortedVec.find_key_some _ _ _ Hf) as [Hin Ht]. destruct Hrem as [_ Hav]. simpl in Ht. subst t.
    rewrite (proj2 (implements_lookup _ _ tag r Hi)) by set_solver. rewrite Permutation_app_comm in Hn.
    pose proof (nodup_other _ _ (mkMmioEntry tag r) Hn Hin) as Hfree. cbn [me_tag] in Hfree.
    rewrite bool_decide_eq_false_2 by by rewrite <- Hu. do 2 wstep. apply SortedVec.wp_insert; [apply Hi|]. intros al' Hal'.
    cbn [me_tag allocated with_available]. rewrite (proj2 (find_absent _ _) Hfree). intros Hal. wstep. split; [done|].
    destruct Hi as [H1 H2 _ Hm]. split; try done; simpl.
    + rewrite Hch, fmap_app, app_nil_r, Hal, Hu. by rewrite Permutation_app_comm.
    + rewrite Hm, Hav, Hal. by rewrite <- Permutation_middle.
  - subst av'. do 4 wstep. cbn [allocated with_available]. rewrite (SortedVec.lookup_by_ok _ _ (im_allocated _ _ Hi)).
    assert (implements (with_available (available s) s) sp) as Hi' by by destruct s.
    destruct (find_key tag (allocated s)) as [[t r]|] eqn:Ha.
    + destruct (SortedVec.find_key_some _ _ _ Ha) as [Hin Ht]. simpl in Ht. subst t.
      rewrite (proj2 (implements_lookup _ _ tag r Hi)) by set_solver. rewrite bool_decide_eq_true_2; [by wstep|].
      rewrite <- Hu. by apply (list_elem_of_fmap_2 me_tag _ (mkMmioEntry tag r)).
    + rewrite (proj2 Hnone) by done. by wstep.
Qed.

Lemma delete_out {A} (l : list A) i : l !! i = None -> delete i l = l.
Proof. revert i. induction l as [|x l IH]; intros [|i] H; simpl; try done. f_equal. by apply IH. Qed.

Lemma drop_implements s sp i h : implements s sp -> handles sp !! i = Some h ->
  implements (drop_region h s) (mkSpec (registered sp) (delete i (handles sp))).
Proof.
  intros [H1 H2 Hu Hm] Hh. split; try done. simpl. rewrite Hu, fmap_app. simpl. change (of_pair (io_tag h, io_region h)) with (of_handle h).
  rewrite (delete_Permutation _ _ _ Hh) at 1. simpl. rewrite app_assoc. by rewrite <- Permutation_cons_append.
Qed.

Lemma spec_call_ok o sp : spec_ok sp -> spec_ok (spec_call o sp).2.
Proof.
  intros [Hv Hd Hr Hn]. destruct o as [tag r|tag|i]; cbn [spec_call].
  - destruct (registered sp !! tag) eqn:Ht; [by split|]. repeat (case_match; [by split|]). split; simpl; [| | |done].
    + intros t r' [(<- & <-)|[_ ?]]%lookup_insert_Some; [|by eapply Hv]. zbool; try done; lia.
    + assert (forall t2 r2, registered sp !! t2 = Some r2 -> overlap r r2 = false) as Ho.
      { intros t2 r2 H2. destruct (overlap r r2) eqn:Ho; [|done]. enough (existsb (fun p => overlap r p.2) (map_to_list (registered sp)) = true) by congruence.
        apply existsb_exists. exists (t2, r2). rewrite <- list_elem_of_In, elem_of_map_to_list. done. }
      intros t1 r1 t2 r2 [(<- & <-)|[? ?]]%lookup_insert_Some [(<- & <-)|[? ?]]%lookup_insert_Some Hne; [done|by eapply Ho| |by eapply Hd].
      unfold overlap in *. rewrite andb_comm. by eapply Ho.
    + intros h Hh. rewrite lookup_insert_ne; [by apply Hr|]. intros ->. apply Hr in Hh. congruence.
  - destruct (registered sp !! tag) as [r|] eqn:Ht; [|by split]. case_match eqn:He; [by split|]. split; simpl; [done|done| |].
    + intros h [Hh| ->%list_elem_of_singleton]%elem_of_app; [by apply Hr|done].
    + rewrite fmap_app, NoDup_app. split; [done|]. split; [|apply NoDup_singleton]. simpl.
      rewrite existsb_handle, bool_decide_eq_false, <- list_fmap_compose in He. intros t Ht' ->%list_elem_of_singleton. done.
  - split; simpl; [done|done| |].
    + intros h Hh. apply Hr. eapply elem_of_submseteq; [done|]. apply sublist_submseteq, sublist_delete.
    + destruct (handles sp !! i) as [h|] eqn:Hh; [|by rewrite delete_out].
      rewrite (delete_Permutation _ _ _ Hh) in Hn. by apply NoDup_cons in Hn as [_ Hn].
Qed.

Lemma call_refines o s sp a w : implements s sp -> spec_ok sp -> call o (s, handles sp) = (a, w) ->
  a = (spec_call o sp).1 /\ implements w.1 (spec_call o sp).2 /\ w.2 = handles (spec_call o sp).2.
Proof.
  intros Hi Hok. destruct o as [tag r|tag|i]; cbn [call].
  - pose proof (wp_register s sp tag r Hi Hok) as Hw. destruct (register tag r s) as [o s'] eqn:Hc. unfold wp in Hw. rewrite Hc in Hw.
    intros [= <- <-]. split; [apply Hw|]. split; [apply Hw|]. simpl. by repeat case_match.
  - pose proof (wp_allocate s sp tag Hi) as Hw. destruct (allocate tag s) as [o s'] eqn:Hc. unfold wp in Hw. rewrite Hc in Hw.
    destruct Hw as [Ha Hs]. intros [= <- <-]. split; [done|]. split; [done|]. simpl in *. clear Hs.
    repeat case_match; simplify_eq/=; done.
  - intros [= <- <-]. split; [done|]. split; [|done]. simpl. destruct (handles sp !! i) as [h|] eqn:Hh; [by apply drop_implements|].
    rewrite delete_out by done. by destruct sp.
Qed.

Lemma calls_refine os s sp as_ w : implements s sp -> spec_ok sp -> calls os (s, handles sp) = (as_, w) ->
  exists sp', spec_calls os sp = (as_, sp') /\ w.2 = handles sp' /\ spec_ok sp'.
Proof.
  revert s sp as_ w. induction os as [|o os IH]; intros s sp as_ w Hi Hok; cbn [calls spec_calls].
  - intros [= <- <-]. by exists sp.
  - destruct (call o (s, handles sp)) as [a [s1 held]] eqn:Hc. destruct (call_refines _ _ _ _ _ Hi Hok Hc) as (-> & Hi1 & Hh). simpl in Hi1, Hh. subst held.
    pose proof (spec_call_ok o sp Hok) as Hok1. destruct (spec_call o sp) as [a sp1]. simpl in *.
    destruct (calls os (s1, handles sp1)) as [l w'] eqn:Hcs. intros [= <- <-].
    destruct (IH _ _ _ _ Hi1 Hok1 Hcs) as (sp' & Hsp & ? & ?). exists sp'. by rewrite Hsp.
Qed.

Lemma implements_new : implements new (mkSpec ∅ []).
Proof. split; try done; by intros i j x y _ Hx. Qed.

Lemma spec_ok_new : spec_ok (mkSpec ∅ []).
Proof. split; simpl; try done; [set_solver|apply NoDup_nil_2]. Qed.

(** C23: the allocator answers every sequence of calls as a table of registered regions
    does: it registers a region exactly when its tag is new and no registered region
    overlaps it, and hands out a region exactly when it is registered and nobody holds
    it.  Regions that were dropped are found again, so that no call fails for another
    reason or panics.  The handles in use have different tags and their regions share
    no address. *)
Theorem mmio_refines os as_ s held : calls os (new, []) = (as_, (s, held)) ->
  exists table, spec_calls os (mkSpec ∅ []) = (as_, mkSpec table held) /\
    (forall h, h ∈ held -> table !! io_tag h = Some (io_region h)) /\
    (forall i j h1 h2, held !! i = Some h1 -> held !! j = Some h2 -> i <> j ->
       io_tag h1 <> io_tag h2 /\ overlap (io_region h1) (io_region h2) = false).
Proof.
  intros Hc. destruct (calls_refine os new (mkSpec ∅ []) _ _ implements_new spec_ok_new Hc) as ([table hs] & Hsp & Hh & [_ Hd Hr Hn]).
  simpl in *. subst hs. exists table. split; [done|]. split; [done|]. intros i j h1 h2 H1 H2 Hij.
  assert (io_tag h1 <> io_tag h2) as Hne.
  { intros Heq. apply Hij. apply (proj1 (NoDup_alt _) Hn i j (io_tag h1)); rewrite list_lookup_fmap; [by rewrite H1|by rewrite H2, Heq]. }
  split; [done|]. eapply Hd; [apply Hr; by eapply list_elem_of_lookup_2..|done].
Qed.

#[local] Definition page (a : Z) : MmioRegion :=
  mkMemoryRegion "page" (mkPageAligned (mkVirtualAddress a)) 4096 Mmio RDWR None.

(** Two devices; the first is used, dropped and used again. *)
Lemma mmio_refines_witness :
  let apic := MmioTag.from_name [97; 112; 105; 99] in
  let ramfs := MmioTag.from_name [114; 97; 109] in
  let os := [Register apic (page 4096); Register ramfs (page 8000); Register ramfs (page 8192); Allocate apic;
             Allocate apic; Drop 0; Allocate apic; Allocate ramfs] in
  exists table, spec_calls os (mkSpec ∅ []) =
    ([Registered (Ok tt); Registered (Err (mkError EntryExists "region overlaps existing entry")); Registered (Ok tt);
      Allocated (Ok (mkIoMemoryRegion apic (page 4096))); Allocated (Err (mkError EntryExists "region already allocated"));
      Dropped; Allocated (Ok (mkIoMemoryRegion apic (page 4096))); Allocated (Ok (mkIoMemoryRegion ramfs (page 8192)))],
     mkSpec table [mkIoMemoryRegion apic (page 4096); mkIoMemoryRegion ramfs (page 8192)]).
Proof.
  intros apic ramfs os.
  destruct (mmio_refines os _ (calls os (new, [])).2.1 [mkIoMemoryRegion apic (page 4096); mkIoMemoryRegion ramfs (page 8192)]
    ltac:(vm_compute; reflexivity)) as (table & H & _).
  exists table. exact H.
Defined.
End Mmio.
