(* ===== verification/Perm.v ===== *)
(** * Permutations

    Lists of references are compared up to order: concatenation is associative and
    commutative there, and [perm] decides equations between concatenations. *)

From AAC_tactics Require Import AAC.
From S2P Require Import Prelude.

#[export] Instance app_assoc_perm {A} : Associative (≡ₚ) (app (A:=A)).
Proof. intros x y z. by rewrite app_assoc. Qed.
#[export] Instance app_comm_perm {A} : Commutative (≡ₚ) (app (A:=A)).
Proof. intros x y. apply Permutation_app_comm. Qed.
#[export] Instance app_unit_perm {A} : Unit (≡ₚ) (app (A:=A)) [].
Proof. split; intros x; by rewrite ?app_nil_r. Qed.
#[export] Instance lift_perm {A} : AAC_lift (Permutation (A:=A)) (Permutation (A:=A)) :=
  {| aac_lift_equivalence := _; aac_list_proper := _ |}.

(** The parts of a concatenation become variables. *)
Ltac hide t := tryif is_var t then idtac else (let z := fresh in generalize t; intros z).
Ltac hide_parts t :=
  lazymatch t with
  | [] => idtac
  | ?x :: ?l => hide_parts l; hide x
  | ?a ++ ?b => hide_parts a; hide_parts b
  | _ => hide t
  end.

Ltac perm :=
  cbn [app];
  lazymatch goal with |- ?l ≡ₚ _ => hide_parts l end;
  lazymatch goal with |- _ ≡ₚ ?r => hide_parts r end;
  repeat match goal with
  | |- context [?x :: ?l] =>
    lazymatch l with [] => fail | _ => change (x :: l) with ([x] ++ l) end
  end; aac_reflexivity.
