(* ===== verification/Paging.v ===== *)
(** * Page tables

    [libs/arch/src/x86/mem/paging/{flags,pte,pde}.rs]: the flags of page table and
    page directory entries and their encoding in a 32-bit word, and
    [kernel/src/hal/arch/shared/mem/mmu/{page_table,page_directory}.rs]: tables of
    1024 such words, with the operations that change one entry.

    The words of a table live in a frame of physical memory that belongs to the
    table; a table is that frame and the list of its words.  Invalidating the
    translation cache of the processor has no effect on the model. *)

From S2P Require Import Prelude Error Config Addr.
#[local] Open Scope Z_scope.

Definition PAGE_SHIFT : Z := 12.
Definition PGTAB_SHIFT : Z := 22.
Definition PAGE_MASK : Z := usize_not (PAGE_SIZE - 1).
Definition PGTAB_MASK : Z := usize_not (PGTAB_SIZE - 1).
Definition PAGE_TABLE_LENGTH : Z := PGTAB_SIZE / PAGE_SIZE.
Definition PGTAB_ALIGNMENT : Alignment := Align4194304.

(** ** Flags *)

Inductive PresentFlag := NotPresent | Present.
Inductive ReadWriteFlag := ReadOnly | ReadWrite.
Inductive UserSupervisorFlag := Supervisor | User.
Inductive PageWriteThroughFlag := NotWriteThrough | WriteThrough.
Inductive PageCacheDisableFlag := CacheEnabled | CacheDisabled.
Inductive AccessedFlag := NotAccessed | Accessed.
Inductive DirtyFlag := NotDirty | Dirty.
Inductive PageSizeFlag := Standard | Large.
Inductive CopyOnWriteFlag := NotCopyOnWrite | CopyOnWrite.

Module PresentFlag.
Definition SHIFT : Z := 0.
Definition from_raw_value (value : Z) : PresentFlag :=
  if Z.land value (Z.shiftl 1 SHIFT) =? 0 then NotPresent else Present.
Definition into_raw_value (f : PresentFlag) : Z :=
  match f with NotPresent => 0 | Present => Z.shiftl 1 SHIFT end.
Definition is_set (raw_entry : Z) : bool := negb (Z.land raw_entry (Z.shiftl 1 SHIFT) =? 0).
End PresentFlag.

Module ReadWriteFlag.
Definition SHIFT : Z := 1.
Definition from_raw_value (value : Z) : ReadWriteFlag :=
  if Z.land value (Z.shiftl 1 SHIFT) =? 0 then ReadOnly else ReadWrite.
Definition into_raw_value (f : ReadWriteFlag) : Z :=
  match f with ReadOnly => 0 | ReadWrite => Z.shiftl 1 SHIFT end.
End ReadWriteFlag.

Module UserSupervisorFlag.
Definition SHIFT : Z := 2.
Definition from_raw_value (value : Z) : UserSupervisorFlag :=
  if Z.land value (Z.shiftl 1 SHIFT) =? 0 then Supervisor else User.
Definition into_raw_value (f : UserSupervisorFlag) : Z :=
  match f with Supervisor => 0 | User => Z.shiftl 1 SHIFT end.
End UserSupervisorFlag.

Module PageWriteThroughFlag.
Definition SHIFT : Z := 3.
Definition from_raw_value (value : Z) : PageWriteThroughFlag :=
  if Z.land value (Z.shiftl 1 SHIFT) =? 0 then NotWriteThrough else WriteThrough.
Definition into_raw_value (f : PageWriteThroughFlag) : Z :=
  match f with NotWriteThrough => 0 | WriteThrough => Z.shiftl 1 SHIFT end.
End PageWriteThroughFlag.

Module PageCacheDisableFlag.
Definition SHIFT : Z := 4.
Definition from_raw_value (value : Z) : PageCacheDisableFlag :=
  if Z.land value (Z.shiftl 1 SHIFT) =? 0 then CacheEnabled else CacheDisabled.
Definition into_raw_value (f : PageCacheDisableFlag) : Z :=
  match f with CacheEnabled => 0 | CacheDisabled => Z.shiftl 1 SHIFT end.
End PageCacheDisableFlag.

Module AccessedFlag.
Definition SHIFT : Z := 5.
Definition from_raw_value (value : Z) : AccessedFlag :=
  if Z.land value (Z.shiftl 1 SHIFT) =? 0 then NotAccessed else Accessed.
Definition into_raw_value (f : AccessedFlag) : Z :=
  match f with NotAccessed => 0 | Accessed => Z.shiftl 1 SHIFT end.
End AccessedFlag.

Module DirtyFlag.
Definition SHIFT : Z := 6.
Definition from_raw_value (value : Z) : DirtyFlag :=
  if Z.land value (Z.shiftl 1 SHIFT) =? 0 then NotDirty else Dirty.
Definition into_raw_value (f : DirtyFlag) : Z :=
  match f with NotDirty => 0 | Dirty => Z.shiftl 1 SHIFT end.
End DirtyFlag.

Module PageSizeFlag.
Definition SHIFT : Z := 7.
Definition from_raw_value (value : Z) : PageSizeFlag :=
  if Z.land value (Z.shiftl 1 SHIFT) =? 0 then Standard else Large.
Definition into_raw_value (f : PageSizeFlag) : Z :=
  match f with Standard => 0 | Large => Z.shiftl 1 SHIFT end.
End PageSizeFlag.

Module CopyOnWriteFlag.
Definition SHIFT : Z := 9.
Definition from_raw_value (value : Z) : CopyOnWriteFlag :=
  if Z.land value (Z.shiftl 1 SHIFT) =? 0 then NotCopyOnWrite else CopyOnWrite.
Definition into_raw_value (f : CopyOnWriteFlag) : Z :=
  match f with NotCopyOnWrite => 0 | CopyOnWrite => Z.shiftl 1 SHIFT end.
End CopyOnWriteFlag.

(** ** Page table entries *)

Record PageTableEntryFlags := mkPteFlags {
  present : PresentFlag;
  read_write : ReadWriteFlag;
  user_supervisor : UserSupervisorFlag;
  page_write_through : PageWriteThroughFlag;
  page_cache_disable : PageCacheDisableFlag;
  accessed : AccessedFlag;
  dirty : DirtyFlag;
  cow : CopyOnWriteFlag
}.

Module PageTableEntryFlags.

Definition new (p : PresentFlag) (rw : ReadWriteFlag) (us : UserSupervisorFlag)
    (wt : PageWriteThroughFlag) (cd : PageCacheDisableFlag) (a : AccessedFlag) (d : DirtyFlag)
    : PageTableEntryFlags := mkPteFlags p rw us wt cd a d NotCopyOnWrite.

Definition from_raw_value (value : Z) : PageTableEntryFlags :=
  mkPteFlags (PresentFlag.from_raw_value value) (ReadWriteFlag.from_raw_value value)
    (UserSupervisorFlag.from_raw_value value) (PageWriteThroughFlag.from_raw_value value)
    (PageCacheDisableFlag.from_raw_value value) (AccessedFlag.from_raw_value value)
    (DirtyFlag.from_raw_value value) (CopyOnWriteFlag.from_raw_value value).

Definition into_raw_value (f : PageTableEntryFlags) : Z :=
  let value := 0 in
  let value := Z.lor value (PresentFlag.into_raw_value (present f)) in
  let value := Z.lor value (ReadWriteFlag.into_raw_value (read_write f)) in
  let value := Z.lor value (UserSupervisorFlag.into_raw_value (user_supervisor f)) in
  let value := Z.lor value (PageWriteThroughFlag.into_raw_value (page_write_through f)) in
  let value := Z.lor value (PageCacheDisableFlag.into_raw_value (page_cache_disable f)) in
  let value := Z.lor value (AccessedFlag.into_raw_value (accessed f)) in
  let value := Z.lor value (DirtyFlag.into_raw_value (dirty f)) in
  Z.lor value (CopyOnWriteFlag.into_raw_value (cow f)).

Definition is_present (f : PageTableEntryFlags) : bool :=
  match present f with Present => true | NotPresent => false end.
Definition is_user (f : PageTableEntryFlags) : bool :=
  match user_supervisor f with User => true | Supervisor => false end.
Definition is_writable (f : PageTableEntryFlags) : bool :=
  match read_write f with ReadWrite => true | ReadOnly => false end.
Definition is_cow (f : PageTableEntryFlags) : bool :=
  match cow f with CopyOnWrite => true | NotCopyOnWrite => false end.

Definition set_read_write (rw : ReadWriteFlag) (f : PageTableEntryFlags) : PageTableEntryFlags :=
  mkPteFlags (present f) rw (user_supervisor f) (page_write_through f) (page_cache_disable f)
    (accessed f) (dirty f) (cow f).
Definition set_user_supervisor (us : UserSupervisorFlag) (f : PageTableEntryFlags)
    : PageTableEntryFlags :=
  mkPteFlags (present f) (read_write f) us (page_write_through f) (page_cache_disable f)
    (accessed f) (dirty f) (cow f).
Definition set_cow (c : CopyOnWriteFlag) (f : PageTableEntryFlags) : PageTableEntryFlags :=
  mkPteFlags (present f) (read_write f) (user_supervisor f) (page_write_through f)
    (page_cache_disable f) (accessed f) (dirty f) c.

End PageTableEntryFlags.

Record PageTableEntry := mkPte { flags : PageTableEntryFlags; pte_frame : FrameNumber }.

(** The shift of a frame number drops the bits that leave the word. *)
Definition frame_word (n : FrameNumber) : Z := Z.land (Z.shiftl (fn_raw n) FRAME_SHIFT) u32_max.

Module PageTableEntry.

Definition from_raw_value (value : Z) : option PageTableEntry :=
  frame ← FrameNumber_from_raw_value (Z.shiftr value FRAME_SHIFT);
  Some (mkPte (PageTableEntryFlags.from_raw_value value) frame).

Definition into_raw_value (e : PageTableEntry) : Z :=
  Z.lor (Z.lor 0 (PageTableEntryFlags.into_raw_value (flags e))) (frame_word (pte_frame e)).

Definition frame_address (e : PageTableEntry) : Z := frame_word (pte_frame e).
Definition is_present (e : PageTableEntry) : bool := PageTableEntryFlags.is_present (flags e).
Definition is_cow (e : PageTableEntry) : bool := PageTableEntryFlags.is_cow (flags e).
Definition set_read_write (rw : ReadWriteFlag) (e : PageTableEntry) : PageTableEntry :=
  mkPte (PageTableEntryFlags.set_read_write rw (flags e)) (pte_frame e).
Definition set_user_supervisor (us : UserSupervisorFlag) (e : PageTableEntry) : PageTableEntry :=
  mkPte (PageTableEntryFlags.set_user_supervisor us (flags e)) (pte_frame e).
Definition set_cow (c : CopyOnWriteFlag) (e : PageTableEntry) : PageTableEntry :=
  mkPte (PageTableEntryFlags.set_cow c (flags e)) (pte_frame e).

End PageTableEntry.

(** ** Page directory entries *)

Record PageDirectoryEntryFlags := mkPdeFlags {
  pd_present : PresentFlag;
  pd_read_write : ReadWriteFlag;
  pd_user_supervisor : UserSupervisorFlag;
  pd_write_through : PageWriteThroughFlag;
  pd_cache_disable : PageCacheDisableFlag;
  pd_accessed : AccessedFlag;
  pd_dirty : DirtyFlag;
  pd_page_size : PageSizeFlag
}.

Module PageDirectoryEntryFlags.

Definition from_raw_value (value : Z) : PageDirectoryEntryFlags :=
  mkPdeFlags (PresentFlag.from_raw_value value) (ReadWriteFlag.from_raw_value value)
    (UserSupervisorFlag.from_raw_value value) (PageWriteThroughFlag.from_raw_value value)
    (PageCacheDisableFlag.from_raw_value value) (AccessedFlag.from_raw_value value)
    (DirtyFlag.from_raw_value value) (PageSizeFlag.from_raw_value value).

Definition into_raw_value (f : PageDirectoryEntryFlags) : Z :=
  let value := 0 in
  let value := Z.lor value (PresentFlag.into_raw_value (pd_present f)) in
  let value := Z.lor value (ReadWriteFlag.into_raw_value (pd_read_write f)) in
  let value := Z.lor value (UserSupervisorFlag.into_raw_value (pd_user_supervisor f)) in
  let value := Z.lor value (PageWriteThroughFlag.into_raw_value (pd_write_through f)) in
  let value := Z.lor value (PageCacheDisableFlag.into_raw_value (pd_cache_disable f)) in
  let value := Z.lor value (AccessedFlag.into_raw_value (pd_accessed f)) in
  let value := Z.lor value (DirtyFlag.into_raw_value (pd_dirty f)) in
  Z.lor value (PageSizeFlag.into_raw_value (pd_page_size f)).

Definition is_present (f : PageDirectoryEntryFlags) : bool :=
  match pd_present f with Present => true | NotPresent => false end.

End PageDirectoryEntryFlags.

Record PageDirectoryEntry := mkPde { pd_flags : PageDirectoryEntryFlags; pd_frame : FrameNumber }.

Module PageDirectoryEntry.

Definition from_raw_value (value : Z) : option PageDirectoryEntry :=
  frame ← FrameNumber_from_raw_value (Z.shiftr value FRAME_SHIFT);
  Some (mkPde (PageDirectoryEntryFlags.from_raw_value value) frame).

Definition into_raw_value (e : PageDirectoryEntry) : Z :=
  Z.lor (Z.lor 0 (PageDirectoryEntryFlags.into_raw_value (pd_flags e))) (frame_word (pd_frame e)).

Definition is_present (e : PageDirectoryEntry) : bool :=
  PageDirectoryEntryFlags.is_present (pd_flags e).
Definition frame_address (e : PageDirectoryEntry) : Z := frame_word (pd_frame e).

End PageDirectoryEntry.

(** ** Addresses of pages and of page tables

    [kernel/src/hal/mem/types/address/aligned/pgtab.rs] and [page.rs]. *)

Record PageTableAligned (T : Type) := mkPageTableAligned { ptg_inner : T }.
Arguments mkPageTableAligned {T} _.
Arguments ptg_inner {T} _.

Definition PageTableAligned_from_address {T} `{Address T} (addr : T)
    : res Error (PageTableAligned T) :=
  aligned ← addr_is_aligned addr PGTAB_ALIGNMENT;
  if negb aligned then Err (mkError BadAddress "unaligned virtual address")
  else Ok (mkPageTableAligned addr).

#[export] Instance PageTableAligned_Address {T} `{Address T} : Address (PageTableAligned T) := {
  into_raw_value p := into_raw_value (ptg_inner p);
  from_raw_value raw := a ← from_raw_value raw; PageTableAligned_from_address a;
  addr_align_down p a := d ← addr_align_down (ptg_inner p) a; PageTableAligned_from_address d;
  addr_is_aligned p a := addr_is_aligned (ptg_inner p) a;
  max_addr := max_addr (T:=T)
}.

Definition PageAddress : Type := PageAligned VirtualAddress.
Definition PageTableAddress : Type := PageTableAligned VirtualAddress.

Definition get_pte_index (a : PageAddress) : Z :=
  Z.shiftr (Z.land (into_raw_value a) (Z.lxor PGTAB_MASK PAGE_MASK)) PAGE_SHIFT.
Definition get_pde_index (a : PageTableAddress) : Z :=
  Z.shiftr (Z.land (into_raw_value a) PGTAB_MASK) PGTAB_SHIFT.

(** ** Page tables *)

Definition is_writable (a : AccessPermission) : bool :=
  match perm_write a with WriteAllow => true | WriteDeny => false end.

Record PageTable := mkPageTable {
  pt_base : FrameAddress;
  nmapped : Z;
  pt_entries : list Z
}.

Module PageTable.

(** [new] clears the words, whatever they were. *)
Definition new (base : FrameAddress) : PageTable :=
  mkPageTable base 0 (replicate (Z.to_nat PAGE_TABLE_LENGTH) 0).

Definition read_pte (pt : PageTable) (vaddr : PageAddress) : res Error (option PageTableEntry) :=
  match pt_entries pt !! Z.to_nat (get_pte_index vaddr) with
  | Some w => Ok (PageTableEntry.from_raw_value w)
  | None => Panic
  end.

Definition write_pte (vaddr : PageAddress) (pte : PageTableEntry) : M PageTable Error unit :=
  pt ← get;
  let i := Z.to_nat (get_pte_index vaddr) in
  if (i <? length (pt_entries pt))%nat
  then put (mkPageTable (pt_base pt) (nmapped pt)
              (<[i := PageTableEntry.into_raw_value pte]> (pt_entries pt)))
  else panic.

(** [read_pte], with the error of a word that is no entry. *)
Definition the_pte (vaddr : PageAddress) : M PageTable Error PageTableEntry :=
  pt ← get;
  o ← lift (read_pte pt vaddr);
  match o with
  | Some pte => mret pte
  | None => fail (mkError TryAgain "failed to read page table entry")
  end.

Definition set_nmapped (n : Z) : M PageTable Error unit :=
  modify (fun pt => mkPageTable (pt_base pt) n (pt_entries pt)).

Definition map (vaddr : PageAddress) (paddr : FrameAddress)
    (supervisor writethrough cache : bool) (access : AccessPermission) : M PageTable Error unit :=
  pte ← the_pte vaddr;
  if PageTableEntry.is_present pte then fail (mkError ResourceBusy "page table entry is busy")
  else
    frame ← lift (FrameAddress_into_frame_number paddr);
    write_pte vaddr
      (mkPte (PageTableEntryFlags.new Present
                (if is_writable access then ReadWrite else ReadOnly)
                (if supervisor then Supervisor else User)
                (if writethrough then WriteThrough else NotWriteThrough)
                (if cache then CacheEnabled else CacheDisabled) NotAccessed NotDirty) frame);;
    pt ← get;
    n ← lift (usize_add (nmapped pt) 1);
    set_nmapped n.

(** [FrameNumber::NULL]. *)
Definition NULL : FrameNumber := mkFrameNumber 0.

Definition unmap `{Config} (page_address : PageAddress) : M PageTable Error FrameAddress :=
  pte ← the_pte page_address;
  if negb (PageTableEntry.is_present pte) then fail (mkError ResourceBusy "page is not present")
  else
    paddr ← lift (FrameAddress_from_frame_number (pte_frame pte));
    write_pte page_address
      (mkPte (PageTableEntryFlags.new NotPresent ReadOnly User NotWriteThrough CacheDisabled
                NotAccessed NotDirty) NULL);;
    pt ← get;
    n ← lift (usize_sub (nmapped pt) 1);
    set_nmapped n;;
    mret paddr.

Definition lookup `{Config} (page_address : PageAddress) : M PageTable Error FrameAddress :=
  pte ← the_pte page_address;
  if negb (PageTableEntry.is_present pte) then fail (mkError NoSuchEntry "page is not present")
  else lift (FrameAddress_from_frame_number (pte_frame pte)).

Definition is_page_present (page_address : PageAddress) : M PageTable Error bool :=
  pte ← the_pte page_address;
  mret (PageTableEntry.is_present pte).

Definition ctrl (supervisor : bool) (page_address : PageAddress) (access : AccessPermission)
    : M PageTable Error unit :=
  pte ← the_pte page_address;
  if negb (PageTableEntry.is_present pte) then fail (mkError NoSuchEntry "page is not present")
  else
    let pte := PageTableEntry.set_read_write
                 (if is_writable access then ReadWrite else ReadOnly) pte in
    let pte := PageTableEntry.set_user_supervisor (if supervisor then Supervisor else User) pte in
    write_pte page_address pte.

Definition mark_cow (page_address : PageAddress) : M PageTable Error unit :=
  pte ← the_pte page_address;
  if negb (PageTableEntry.is_present pte) then fail (mkError NoSuchEntry "page is not present")
  else if negb (PageTableEntryFlags.is_writable (flags pte))
  then fail (mkError InvalidArgument "page is already read-only")
  else
    write_pte page_address
      (PageTableEntry.set_cow CopyOnWrite (PageTableEntry.set_read_write ReadOnly pte)).

Definition unmark_cow (page_address : PageAddress) : M PageTable Error unit :=
  pte ← the_pte page_address;
  if negb (PageTableEntry.is_present pte) then fail (mkError NoSuchEntry "page is not present")
  else if negb (PageTableEntry.is_cow pte)
  then fail (mkError InvalidArgument "page is not copy-on-write")
  else
    write_pte page_address
      (PageTableEntry.set_read_write ReadWrite (PageTableEntry.set_cow NotCopyOnWrite pte)).

Definition replace_cow_frame `{Config} (page_address : PageAddress) (new_frame : FrameAddress)
    : M PageTable Error FrameAddress :=
  pte ← the_pte page_address;
  if negb (PageTableEntry.is_present pte) then fail (mkError NoSuchEntry "page is not present")
  else if negb (PageTableEntry.is_cow pte)
  then fail (mkError InvalidArgument "page is not copy-on-write")
  else if PageTableEntryFlags.is_writable (flags pte)
  then fail (mkError InvalidArgument "copy-on-write page is unexpectedly writable")
  else
    old_frame ← lift (FrameAddress_from_frame_number (pte_frame pte));
    frame ← lift (FrameAddress_into_frame_number new_frame);
    write_pte page_address
      (mkPte (PageTableEntryFlags.set_cow NotCopyOnWrite
                (PageTableEntryFlags.set_read_write ReadWrite (flags pte))) frame);;
    mret old_frame.

(** The present entry of a page. *)
Definition read_pte_at (pt : PageTable) (page_address : PageAddress)
    : res Error (option PageTableEntry) :=
  o ← read_pte pt page_address;
  Ok (match o with Some pte => if PageTableEntry.is_present pte then Some pte else None | None => None end).

(** Present entries with their index, from the [n]-th word on. *)
Fixpoint present_from (n : nat) (words : list Z) : list (nat * PageTableEntry) :=
  match words with
  | [] => []
  | w :: words =>
    match PageTableEntry.from_raw_value w with
    | Some pte => if PageTableEntry.is_present pte then (n, pte) :: present_from (S n) words
                  else present_from (S n) words
    | None => present_from (S n) words
    end
  end.

Definition iter_present_ptes (pt : PageTable) : list (nat * PageTableEntry) :=
  present_from 0 (pt_entries pt).

Definition physical_address `{Config} (pt : PageTable) : res Error FrameAddress :=
  FrameAddress_from_raw_value (FrameAddress_raw (pt_base pt)).

End PageTable.

(** ** Page directories *)

Record PageDirectory := mkPageDirectory {
  pd_base : FrameAddress;
  pd_entries : list Z
}.

Module PageDirectory.

Definition new (base : FrameAddress) : PageDirectory :=
  mkPageDirectory base (replicate (Z.to_nat PAGE_TABLE_LENGTH) 0).

Definition read_pde (pd : PageDirectory) (vaddr : PageTableAddress)
    : res Error (option PageDirectoryEntry) :=
  match pd_entries pd !! Z.to_nat (get_pde_index vaddr) with
  | Some w => Ok (PageDirectoryEntry.from_raw_value w)
  | None => Panic
  end.

Definition write_pde (vaddr : PageTableAddress) (pde : PageDirectoryEntry)
    : M PageDirectory Error unit :=
  pd ← get;
  let i := Z.to_nat (get_pde_index vaddr) in
  if (i <? length (pd_entries pd))%nat
  then put (mkPageDirectory (pd_base pd) (<[i := PageDirectoryEntry.into_raw_value pde]> (pd_entries pd)))
  else panic.

Definition the_pde (vaddr : PageTableAddress) : M PageDirectory Error PageDirectoryEntry :=
  pd ← get;
  o ← lift (read_pde pd vaddr);
  match o with
  | Some pde => mret pde
  | None => fail (mkError TryAgain "failed to read page directory entry")
  end.

Definition map (vaddr : PageTableAddress) (paddr : FrameAddress) (supervisor : bool)
    (access : AccessPermission) : M PageDirectory Error unit :=
  pde ← the_pde vaddr;
  if PageDirectoryEntry.is_present pde
  then fail (mkError ResourceBusy "page directory entry is busy")
  else
    frame ← lift (FrameAddress_into_frame_number paddr);
    write_pde vaddr
      (mkPde (mkPdeFlags Present (if is_writable access then ReadWrite else ReadOnly)
                (if supervisor then Supervisor else User) NotWriteThrough CacheEnabled NotAccessed
                NotDirty Standard) frame).

Definition unmap `{Config} (pgtable_address : PageTableAddress) : M PageDirectory Error FrameAddress :=
  pde ← the_pde pgtable_address;
  if negb (PageDirectoryEntry.is_present pde)
  then fail (mkError ResourceBusy "page directory entry is not present")
  else
    paddr ← lift (FrameAddress_from_frame_number (pd_frame pde));
    write_pde pgtable_address
      (mkPde (mkPdeFlags NotPresent ReadOnly User WriteThrough CacheDisabled NotAccessed NotDirty
                Standard) PageTable.NULL);;
    mret paddr.

Definition physical_address `{Config} (pd : PageDirectory) : res Error FrameAddress :=
  FrameAddress_from_raw_value (FrameAddress_raw (pd_base pd)).

End PageDirectory.

(** ** Encoding and decoding *)

(** The flags of an entry are below its frame. *)
Lemma land_low c f k : 0 <= k < 12 -> Z.land (Z.lor c (Z.shiftl f 12)) (Z.shiftl 1 k) = Z.land c (Z.shiftl 1 k).
Proof.
  intros Hk. apply Z.bits_inj'. intros n Hn. rewrite !Z.land_spec, Z.lor_spec.
  destruct (decide (n = k)) as [->|Hne].
  - rewrite (Z.shiftl_spec_low f) by lia. by rewrite orb_false_r.
  - rewrite Z.shiftl_1_l, Z.pow2_bits_false by lia. by rewrite !andb_false_r.
Qed.

Lemma shiftr_high c f : 0 <= c < 4096 -> Z.shiftr (Z.lor c (Z.shiftl f 12)) 12 = f.
Proof.
  intros Hc. rewrite Z.shiftr_lor, Z.shiftr_shiftl_l by lia. rewrite Z.shiftr_div_pow2, Z.sub_diag by lia.
  rewrite Z.div_small by lia. by rewrite Z.shiftl_0_r.
Qed.

(** A frame number that fits. *)
Definition numbered (n : FrameNumber) : Prop := 0 <= fn_raw n <= FrameNumber_MAX.

Lemma frame_word_fits n : numbered n -> frame_word n = Z.shiftl (fn_raw n) 12.
Proof.
  unfold numbered. intros Hn. unfold frame_word, FRAME_SHIFT. change u32_max with (Z.ones 32).
  rewrite Z.land_ones by lia. rewrite Z.mod_small; [done|]. rewrite Z.shiftl_mul_pow2 by lia.
  change FrameNumber_MAX with 1048574 in Hn. change (2 ^ 12) with 4096. change (2 ^ 32) with 4294967296. lia.
Qed.

Lemma pte_flags_low f : 0 <= PageTableEntryFlags.into_raw_value f < 4096.
Proof. destruct f as [[] [] [] [] [] [] [] []]; vm_compute; split; (discriminate || reflexivity). Qed.

Lemma pte_flags_roundtrip f n :
  PageTableEntryFlags.from_raw_value (Z.lor (PageTableEntryFlags.into_raw_value f) (Z.shiftl n 12)) = f.
Proof.
  unfold PageTableEntryFlags.from_raw_value, PresentFlag.from_raw_value, ReadWriteFlag.from_raw_value,
    UserSupervisorFlag.from_raw_value, PageWriteThroughFlag.from_raw_value,
    PageCacheDisableFlag.from_raw_value, AccessedFlag.from_raw_value, DirtyFlag.from_raw_value,
    CopyOnWriteFlag.from_raw_value.
  rewrite !land_low by done. destruct f as [[] [] [] [] [] [] [] []]; vm_compute; reflexivity.
Qed.

Lemma pte_roundtrip e : numbered (pte_frame e) ->
  PageTableEntry.from_raw_value (PageTableEntry.into_raw_value e) = Some e.
Proof.
  intros Hn. unfold PageTableEntry.from_raw_value, PageTableEntry.into_raw_value.
  rewrite frame_word_fits, Z.lor_0_l by done. unfold FRAME_SHIFT.
  rewrite shiftr_high by apply pte_flags_low. rewrite pte_flags_roundtrip.
  unfold FrameNumber_from_raw_value. unfold numbered in Hn.
  destruct (Z.ltb_spec FrameNumber_MAX (fn_raw (pte_frame e))); [lia|]. simpl. by destruct e as [? []].
Qed.

Lemma pde_flags_low f : 0 <= PageDirectoryEntryFlags.into_raw_value f < 4096.
Proof. destruct f as [[] [] [] [] [] [] [] []]; vm_compute; split; (discriminate || reflexivity). Qed.

Lemma pde_flags_roundtrip f n :
  PageDirectoryEntryFlags.from_raw_value (Z.lor (PageDirectoryEntryFlags.into_raw_value f) (Z.shiftl n 12)) = f.
Proof.
  unfold PageDirectoryEntryFlags.from_raw_value, PresentFlag.from_raw_value, ReadWriteFlag.from_raw_value,
    UserSupervisorFlag.from_raw_value, PageWriteThroughFlag.from_raw_value,
    PageCacheDisableFlag.from_raw_value, AccessedFlag.from_raw_value, DirtyFlag.from_raw_value,
    PageSizeFlag.from_raw_value.
  rewrite !land_low by done. destruct f as [[] [] [] [] [] [] [] []]; vm_compute; reflexivity.
Qed.

Lemma pde_roundtrip e : numbered (pd_frame e) ->
  PageDirectoryEntry.from_raw_value (PageDirectoryEntry.into_raw_value e) = Some e.
Proof.
  intros Hn. unfold PageDirectoryEntry.from_raw_value, PageDirectoryEntry.into_raw_value.
  rewrite frame_word_fits, Z.lor_0_l by done. unfold FRAME_SHIFT.
  rewrite shiftr_high by apply pde_flags_low. rewrite pde_flags_roundtrip.
  unfold FrameNumber_from_raw_value. unfold numbered in Hn.
  destruct (Z.ltb_spec FrameNumber_MAX (fn_raw (pd_frame e))); [lia|]. simpl. by destruct e as [? []].
Qed.

(** C39: Entries of page tables and of page directories survive being written to memory and
    read back. *)
Theorem entry_roundtrip e d : numbered (pte_frame e) -> numbered (pd_frame d) ->
  PageTableEntry.from_raw_value (PageTableEntry.into_raw_value e) = Some e /\
  PageDirectoryEntry.from_raw_value (PageDirectoryEntry.into_raw_value d) = Some d.
Proof. intros He Hd. split; [by apply pte_roundtrip|by apply pde_roundtrip]. Qed.

(** A writable user page in frame 77, and the table at frame 1048574 that maps it. *)
Lemma entry_roundtrip_witness :
  let e := mkPte (PageTableEntryFlags.new Present ReadWrite User NotWriteThrough CacheEnabled NotAccessed NotDirty) (mkFrameNumber 77) in
  let d := mkPde (mkPdeFlags Present ReadWrite User WriteThrough CacheDisabled Accessed NotDirty Standard) (mkFrameNumber 1048574) in
  PageTableEntry.from_raw_value (PageTableEntry.into_raw_value e) = Some e /\
  PageDirectoryEntry.from_raw_value (PageDirectoryEntry.into_raw_value d) = Some d.
Proof. intros e d. apply (entry_roundtrip e d); vm_compute; split; discriminate. Defined.

(** ** Indices *)

Lemma pte_index_eq a : 0 <= into_raw_value a <= usize_max ->
  get_pte_index a = (into_raw_value a / PAGE_SIZE) mod PAGE_TABLE_LENGTH.
Proof.
  intros Ha. unfold get_pte_index. set (x := into_raw_value a) in *.
  change (Z.lxor PGTAB_MASK PAGE_MASK) with (Z.shiftl (Z.ones 10) 12). unfold PAGE_SHIFT.
  rewrite Z.shiftr_land, Z.shiftr_shiftl_l, Z.sub_diag, Z.shiftl_0_r by lia.
  rewrite Z.land_ones, Z.shiftr_div_pow2 by lia. done.
Qed.

Lemma pte_index_bound a : 0 <= into_raw_value a <= usize_max -> 0 <= get_pte_index a < PAGE_TABLE_LENGTH.
Proof. intros Ha. rewrite pte_index_eq by done. apply Z.mod_pos_bound. done. Qed.

Lemma pde_index_eq a : 0 <= into_raw_value a <= usize_max -> get_pde_index a = into_raw_value a / PGTAB_SIZE.
Proof.
  intros Ha. unfold get_pde_index. set (x := into_raw_value a) in *.
  change PGTAB_MASK with (Z.shiftl (Z.ones 10) 22). unfold PGTAB_SHIFT.
  rewrite Z.shiftr_land, Z.shiftr_shiftl_l, Z.sub_diag, Z.shiftl_0_r by lia.
  rewrite Z.land_ones, Z.shiftr_div_pow2 by lia. rewrite Z.mod_small; [done|].
  split; [apply Z.div_pos; lia|]. apply Z.div_lt_upper_bound; [done|]. change (2 ^ 22 * 2 ^ 10) with (2 ^ 32). width.
Qed.

Lemma pde_index_bound a : 0 <= into_raw_value a <= usize_max -> 0 <= get_pde_index a < PAGE_TABLE_LENGTH.
Proof.
  intros Ha. rewrite pde_index_eq by done. split; [apply Z.div_pos; [lia|done]|].
  apply Z.div_lt_upper_bound; [done|]. change (PGTAB_SIZE * PAGE_TABLE_LENGTH) with (2 ^ 32). width.
Qed.

(** ** What a table means *)

(** The entry behind a word, when it is present. *)
Definition word_pte (w : Z) : option PageTableEntry :=
  e ← PageTableEntry.from_raw_value w; if PageTableEntry.is_present e then Some e else None.

(** The present entry at an index. *)
Definition entry (pt : PageTable) (i : Z) : option PageTableEntry :=
  w ← pt_entries pt !! Z.to_nat i; word_pte w.

Definition count_words (l : list Z) : nat := length (PageTable.present_from 0 l).

(** A word that is an entry. *)
Definition decodes (w : Z) : Prop :=
  exists e, PageTableEntry.from_raw_value w = Some e /\ numbered (pte_frame e).

Record pt_ok (pt : PageTable) : Prop := {
  pt_length : length (pt_entries pt) = Z.to_nat PAGE_TABLE_LENGTH;
  pt_decodes : Forall decodes (pt_entries pt);
  pt_count : nmapped pt = Z.of_nat (count_words (pt_entries pt))
}.

Lemma pt_frames pt i e : pt_ok pt -> entry pt i = Some e -> numbered (pte_frame e).
Proof.
  intros Hok. unfold entry, word_pte. destruct (pt_entries pt !! Z.to_nat i) as [w|] eqn:Hw; [|done]. simpl.
  destruct (Forall_lookup_1 _ _ _ _ (pt_decodes _ Hok) Hw) as (x & -> & Hx). simpl.
  destruct (PageTableEntry.is_present x); [|done]. by intros [= <-].
Qed.

Lemma present_from_S n l : PageTable.present_from (S n) l = prod_map S id <$> PageTable.present_from n l.
Proof.
  revert n. induction l as [|w l IH]; intros n; simpl; [done|].
  destruct (PageTableEntry.from_raw_value w) as [e|]; [|apply IH].
  destruct (PageTableEntry.is_present e); [|apply IH]. by rewrite IH.
Qed.

Lemma count_words_cons w l :
  count_words (w :: l) = ((if word_pte w then 1 else 0) + count_words l)%nat.
Proof.
  unfold count_words, word_pte. cbn [PageTable.present_from]. rewrite present_from_S.
  destruct (PageTableEntry.from_raw_value w) as [e|]; simpl; [|by rewrite length_fmap].
  destruct (PageTableEntry.is_present e); simpl; by rewrite length_fmap.
Qed.

Lemma count_words_insert l i w w' : l !! i = Some w ->
  (count_words (<[i := w']> l) + (if word_pte w then 1 else 0) =
   count_words l + (if word_pte w' then 1 else 0))%nat.
Proof.
  revert i. induction l as [|x l IH]; intros [|i]; [done..| |].
  - intros [= ->]. change (<[0%nat := w']> (w :: l)) with (w' :: l). rewrite !count_words_cons. lia.
  - intros H. change (<[S i := w']> (x :: l)) with (x :: <[i := w']> l). specialize (IH _ H).
    rewrite !count_words_cons. lia.
Qed.

Lemma count_words_bound l : (count_words l <= length l)%nat.
Proof.
  induction l as [|w l IH]; [done|]. rewrite count_words_cons. simpl. destruct (word_pte w); lia.
Qed.

Lemma entry_count pt i e : entry pt i = Some e -> (0 < count_words (pt_entries pt))%nat.
Proof.
  unfold entry. destruct (pt_entries pt !! Z.to_nat i) as [w|] eqn:Ew; [|done]. simpl. intros He.
  pose proof (count_words_insert _ _ _ 0 Ew) as H. rewrite He in H. simpl in H. lia.
Qed.

(** ** Operations on tables *)

(** Addresses of the address space of a process: one per word of the machine. *)
Definition in_word (a : PageAddress) : Prop := 0 <= into_raw_value a <= usize_max.

Lemma null_numbered : numbered PageTable.NULL.
Proof. unfold numbered. cbn. split; [lia|done]. Qed.

Lemma into_number f n : FrameAddress_into_frame_number f = Ok n -> 0 <= FrameAddress_raw f -> numbered n.
Proof.
  unfold FrameAddress_into_frame_number, into_frame_number, FrameNumber_from_raw_value. intros H Hf.
  destruct (Z.ltb_spec FrameNumber_MAX (Z.shiftr (va_raw (pa_virt (pg_inner (fa_inner f)))) FRAME_SHIFT));
    [done|]. injection H as <-. split; [|done]. apply Z.shiftr_nonneg. exact Hf.
Qed.

Lemma entry_lookup pt a : pt_ok pt -> in_word a -> exists w e,
  pt_entries pt !! Z.to_nat (get_pte_index a) = Some w /\ PageTableEntry.from_raw_value w = Some e /\
  entry pt (get_pte_index a) = if PageTableEntry.is_present e then Some e else None.
Proof.
  intros Hok Ha. destruct (pte_index_bound a Ha) as [H0 H1].
  destruct (lookup_lt_is_Some_2 (pt_entries pt) (Z.to_nat (get_pte_index a))) as [w Hw].
  { rewrite (pt_length _ Hok). lia. }
  pose proof (Forall_lookup_1 _ _ _ _ (pt_decodes _ Hok) Hw) as (e & He & _).
  exists w, e. splits; [done..|]. unfold entry, word_pte. by rewrite Hw; simpl; rewrite He.
Qed.

Lemma wp_the_pte pt a (Q : res Error PageTableEntry → PageTable → Prop) : pt_ok pt -> in_word a ->
  (forall e, entry pt (get_pte_index a) = (if PageTableEntry.is_present e then Some e else None) ->
     Q (Ok e) pt) -> wp (PageTable.the_pte a) pt Q.
Proof.
  intros Hok Ha HQ. destruct (entry_lookup pt a Hok Ha) as (w & e & Hw & He & Hen).
  unfold PageTable.the_pte, PageTable.read_pte. wsteps. rewrite Hw. wsteps. rewrite He. wsteps. by apply HQ.
Qed.

(** The table after one entry has been written; [o] is the entry when it is present. *)
Record written (a : PageAddress) (o : option PageTableEntry) (pt pt' : PageTable) : Prop := {
  wr_base : pt_base pt' = pt_base pt;
  wr_entry i : 0 <= i < PAGE_TABLE_LENGTH ->
    entry pt' i = if i =? get_pte_index a then o else entry pt i
}.

(** Whether an entry counts. *)
Definition if_present (e : PageTableEntry) : option PageTableEntry :=
  if PageTableEntry.is_present e then Some e else None.

Lemma wp_write_pte pt a e (Q : res Error unit → PageTable → Prop) : pt_ok pt -> in_word a ->
  numbered (pte_frame e) ->
  (forall pt', written a (if_present e) pt pt' -> nmapped pt' = nmapped pt ->
     (forall n, n + (if entry pt (get_pte_index a) then 1 else 0) =
        nmapped pt + (if PageTableEntry.is_present e then 1 else 0) ->
        pt_ok (mkPageTable (pt_base pt') n (pt_entries pt'))) -> Q (Ok tt) pt') ->
  wp (PageTable.write_pte a e) pt Q.
Proof.
  intros Hok Ha Hn HQ. destruct (entry_lookup pt a Hok Ha) as (w & e0 & Hw & He0 & Hen).
  destruct (pte_index_bound a Ha) as [H0 H1]. pose proof (lookup_lt_Some _ _ _ Hw) as Hlt.
  assert (word_pte (PageTableEntry.into_raw_value e) = if PageTableEntry.is_present e then Some e else None) as Hwe.
  { unfold word_pte. by rewrite pte_roundtrip. }
  unfold PageTable.write_pte. wsteps. destruct (Nat.ltb_spec (Z.to_nat (get_pte_index a)) (length (pt_entries pt)));
    [|lia]. wsteps.
  set (pt' := mkPageTable _ _ _). assert (written a (if_present e) pt pt') as Hwr.
  { split; [done|]. intros i Hi. unfold entry, pt'. cbn [pt_entries].
    destruct (Z.eqb_spec i (get_pte_index a)) as [->|Hne].
    - rewrite list_lookup_insert_eq by done. exact Hwe.
    - by rewrite list_lookup_insert_ne by lia. }
  apply HQ; [done|done|]. intros n Hcount. destruct Hok as [Hl Hd Hc]. constructor; cbn [pt_entries nmapped pt' pt_base].
  - by rewrite length_insert.
  - apply Forall_insert; [done|]. exists e. split; [by apply pte_roundtrip|done].
  - pose proof (count_words_insert (pt_entries pt) _ w (PageTableEntry.into_raw_value e) Hw) as Hci.
    assert (entry pt (get_pte_index a) = word_pte w) as Hew by (unfold entry; by rewrite Hw).
    rewrite Hew in Hcount. rewrite Hwe in Hci.
    destruct (word_pte w), (PageTableEntry.is_present e); lia.
Qed.

Section TableSpecs.
Context {CF : Config}.
Implicit Types (pt : PageTable) (a : PageAddress).

Lemma from_numbered n : numbered n -> FrameAddress_from_frame_number n = Ok (frame_at (fn_raw n)).
Proof. destruct n as [n]. intros Hn. by destruct (frame_from_number n Hn). Qed.

(** An entry takes the place of a present one. *)
Lemma wp_rewrite_pte pt a e0 e (Q : res Error unit → PageTable → Prop) : pt_ok pt -> in_word a ->
  entry pt (get_pte_index a) = Some e0 -> PageTableEntry.is_present e = true -> numbered (pte_frame e) ->
  (forall pt', pt_ok pt' -> written a (Some e) pt pt' -> Q (Ok tt) pt') -> wp (PageTable.write_pte a e) pt Q.
Proof.
  intros Hok Ha He0 He Hn HQ. apply wp_write_pte; [done..|]. intros pt' Hw Hm Hok'. unfold if_present in Hw.
  rewrite He in Hw. apply HQ; [|done]. rewrite He0, He in Hok'. specialize (Hok' (nmapped pt') ltac:(lia)). by destruct pt'.
Qed.

Lemma present_of pt a e : entry pt (get_pte_index a) = (if PageTableEntry.is_present e then Some e else None) ->
  PageTableEntry.is_present e = bool_decide (is_Some (entry pt (get_pte_index a))) /\
  forall x, entry pt (get_pte_index a) = Some x -> x = e.
Proof.
  intros ->. destruct (PageTableEntry.is_present e).
  - split; [by rewrite bool_decide_eq_true_2 by by eexists|]. by intros x [= ->].
  - split; [rewrite bool_decide_eq_false_2; [done|by intros [? ?]]|done].
Qed.

(** Reading the entry of a page, by whether it is mapped. *)
Lemma wp_pte_cases pt a (Q : res Error PageTableEntry → PageTable → Prop) : pt_ok pt -> in_word a ->
  (forall e, entry pt (get_pte_index a) = Some e -> PageTableEntry.is_present e = true ->
     numbered (pte_frame e) -> Q (Ok e) pt) ->
  (forall e, entry pt (get_pte_index a) = None -> PageTableEntry.is_present e = false -> Q (Ok e) pt) ->
  wp (PageTable.the_pte a) pt Q.
Proof.
  intros Hok Ha H1 H2. apply wp_the_pte; [done..|]. intros e He. destruct (PageTableEntry.is_present e) eqn:Hp.
  - apply H1; [done..|]. by eapply pt_frames.
  - by apply H2.
Qed.

(** The entry that [map] makes. *)
Definition mapped_pte (n : Z) (supervisor writethrough cache : bool) (access : AccessPermission)
    : PageTableEntry :=
  mkPte (PageTableEntryFlags.new Present (if is_writable access then ReadWrite else ReadOnly)
           (if supervisor then Supervisor else User)
           (if writethrough then WriteThrough else NotWriteThrough)
           (if cache then CacheEnabled else CacheDisabled) NotAccessed NotDirty) (mkFrameNumber n).

Lemma wp_pt_map pt a n sup wt ca acc (Q : res Error unit → PageTable → Prop) :
  pt_ok pt -> in_word a -> 0 <= n <= FrameNumber_MAX ->
  (entry pt (get_pte_index a) = None -> forall pt', pt_ok pt' ->
     written a (Some (mapped_pte n sup wt ca acc)) pt pt' -> Q (Ok tt) pt') ->
  (forall e, entry pt (get_pte_index a) = Some e ->
     Q (Err (mkError ResourceBusy "page table entry is busy")) pt) ->
  wp (PageTable.map a (frame_at n) sup wt ca acc) pt Q.
Proof.
  intros Hok Ha Hn H1 H2. unfold PageTable.map. wstep. apply wp_pte_cases; [done..| |]; intros e He Hp.
  { intros _. rewrite Hp. cbn [negb]. wsteps. by eapply H2. }
  rewrite Hp. cbn [negb]. wsteps. rewrite frame_into_number by done. wsteps.
  apply wp_write_pte; [done..|]. intros pt' Hw Hm Hok'. wsteps. rewrite He in Hok'.
  pose proof (count_words_bound (pt_entries pt)) as Hb. rewrite (pt_length _ Hok) in Hb.
  pose proof (pt_count _ Hok) as Hc. change (Z.to_nat PAGE_TABLE_LENGTH) with 1024%nat in Hb.
  rewrite usize_add_ok by (rewrite Hm; width). wsteps. apply H1; [done| |by destruct Hw].
  apply Hok'. rewrite Hm. simpl. lia.
Qed.

Lemma wp_pt_unmap pt a (Q : res Error FrameAddress → PageTable → Prop) : pt_ok pt -> in_word a ->
  (forall e, entry pt (get_pte_index a) = Some e -> forall pt', pt_ok pt' ->
     written a None pt pt' -> Q (Ok (frame_at (fn_raw (pte_frame e)))) pt') ->
  (entry pt (get_pte_index a) = None -> Q (Err (mkError ResourceBusy "page is not present")) pt) ->
  wp (PageTable.unmap a) pt Q.
Proof.
  intros Hok Ha H1 H2. unfold PageTable.unmap. wstep. apply wp_pte_cases; [done..| |]; intros e He Hp.
  2: { rewrite Hp. cbn [negb]. wsteps. by apply H2. }
  intros Hn. rewrite Hp. cbn [negb]. wsteps. rewrite from_numbered by done. wsteps.
  apply wp_write_pte; [done..|apply null_numbered|]. intros pt' Hw Hm Hok'. wsteps. rewrite He in Hok'.
  pose proof (entry_count _ _ _ He) as Hpos. pose proof (pt_count _ Hok) as Hc.
  rewrite usize_sub_ok by lia. wsteps.
  apply (H1 e He); [apply Hok'; simpl; lia|]. by destruct Hw.
Qed.

Lemma wp_pt_lookup pt a (Q : res Error FrameAddress → PageTable → Prop) : pt_ok pt -> in_word a ->
  (forall e, entry pt (get_pte_index a) = Some e -> numbered (pte_frame e) ->
     Q (Ok (frame_at (fn_raw (pte_frame e)))) pt) ->
  (entry pt (get_pte_index a) = None -> Q (Err (mkError NoSuchEntry "page is not present")) pt) ->
  wp (PageTable.lookup a) pt Q.
Proof.
  intros Hok Ha H1 H2. unfold PageTable.lookup. wstep. apply wp_pte_cases; [done..| |]; intros e He Hp.
  2: { rewrite Hp. cbn [negb]. wsteps. by apply H2. }
  intros Hn. rewrite Hp. cbn [negb]. wsteps. rewrite from_numbered by done. wsteps. by apply H1.
Qed.

Lemma wp_pt_is_present pt a (Q : res Error bool → PageTable → Prop) : pt_ok pt -> in_word a ->
  Q (Ok (bool_decide (is_Some (entry pt (get_pte_index a))))) pt -> wp (PageTable.is_page_present a) pt Q.
Proof.
  intros Hok Ha HQ. unfold PageTable.is_page_present. wstep. apply wp_the_pte; [done..|]. intros e He. wsteps.
  destruct (present_of pt a e He) as [-> _]. exact HQ.
Qed.

Lemma pt_read_pte_at pt a : pt_ok pt -> in_word a ->
  PageTable.read_pte_at pt a = Ok (entry pt (get_pte_index a)).
Proof.
  intros Hok Ha. destruct (entry_lookup pt a Hok Ha) as (w & e & Hw & He & ->).
  unfold PageTable.read_pte_at, PageTable.read_pte. rewrite Hw. simpl. by rewrite He.
Qed.

(** Operations that rewrite a present entry, with what they ask of it. *)
Lemma wp_pt_ctrl pt a sup acc (Q : res Error unit → PageTable → Prop) : pt_ok pt -> in_word a ->
  (forall e, entry pt (get_pte_index a) = Some e -> forall pt', pt_ok pt' ->
     written a (Some (PageTableEntry.set_user_supervisor (if sup : bool then Supervisor else User)
       (PageTableEntry.set_read_write (if is_writable acc then ReadWrite else ReadOnly) e))) pt pt' ->
     Q (Ok tt) pt') ->
  (entry pt (get_pte_index a) = None -> Q (Err (mkError NoSuchEntry "page is not present")) pt) ->
  wp (PageTable.ctrl sup a acc) pt Q.
Proof.
  intros Hok Ha H1 H2. unfold PageTable.ctrl. wstep. apply wp_pte_cases; [done..| |]; intros e He Hp.
  2: { rewrite Hp. cbn [negb]. wsteps. by apply H2. }
  intros Hn. rewrite Hp. cbn [negb]. by apply (wp_rewrite_pte _ _ e); [..|by apply H1].
Qed.

Definition cow_of (e : PageTableEntry) : PageTableEntry :=
  PageTableEntry.set_cow CopyOnWrite (PageTableEntry.set_read_write ReadOnly e).
Definition private_of (e : PageTableEntry) : PageTableEntry :=
  PageTableEntry.set_read_write ReadWrite (PageTableEntry.set_cow NotCopyOnWrite e).
Definition pte_writable (e : PageTableEntry) : bool := PageTableEntryFlags.is_writable (flags e).

Lemma wp_pt_mark_cow pt a (Q : res Error unit → PageTable → Prop) : pt_ok pt -> in_word a ->
  (forall e, entry pt (get_pte_index a) = Some e -> pte_writable e = true -> forall pt', pt_ok pt' ->
     written a (Some (cow_of e)) pt pt' -> Q (Ok tt) pt') ->
  (forall err, from_option pte_writable false (entry pt (get_pte_index a)) = false -> Q (Err err) pt) ->
  wp (PageTable.mark_cow a) pt Q.
Proof.
  intros Hok Ha H1 H2. unfold PageTable.mark_cow. wstep. apply wp_pte_cases; [done..| |]; intros e He Hp.
  2: { rewrite Hp. cbn [negb]. wsteps. apply H2. by rewrite He. }
  intros Hn. rewrite Hp. cbn [negb]. fold (pte_writable e). destruct (pte_writable e) eqn:Hw; cbn [negb].
  - by apply (wp_rewrite_pte _ _ e); [..|by apply H1].
  - wsteps. apply H2. by rewrite He.
Qed.

Lemma wp_pt_unmark_cow pt a (Q : res Error unit → PageTable → Prop) : pt_ok pt -> in_word a ->
  (forall e, entry pt (get_pte_index a) = Some e -> PageTableEntry.is_cow e = true -> forall pt', pt_ok pt' ->
     written a (Some (private_of e)) pt pt' -> Q (Ok tt) pt') ->
  (forall err, from_option PageTableEntry.is_cow false (entry pt (get_pte_index a)) = false -> Q (Err err) pt) ->
  wp (PageTable.unmark_cow a) pt Q.
Proof.
  intros Hok Ha H1 H2. unfold PageTable.unmark_cow. wstep. apply wp_pte_cases; [done..| |]; intros e He Hp.
  2: { rewrite Hp. cbn [negb]. wsteps. apply H2. by rewrite He. }
  intros Hn. rewrite Hp. cbn [negb]. destruct (PageTableEntry.is_cow e) eqn:Hw; cbn [negb].
  - by apply (wp_rewrite_pte _ _ e); [..|by apply H1].
  - wsteps. apply H2. by rewrite He.
Qed.

Lemma wp_pt_replace pt a n (Q : res Error FrameAddress → PageTable → Prop) : pt_ok pt -> in_word a ->
  0 <= n <= FrameNumber_MAX ->
  (forall e, entry pt (get_pte_index a) = Some e -> PageTableEntry.is_cow e = true ->
     pte_writable e = false -> numbered (pte_frame e) -> forall pt', pt_ok pt' ->
     written a (Some (mkPte (flags (private_of e)) (mkFrameNumber n))) pt pt' ->
     Q (Ok (frame_at (fn_raw (pte_frame e)))) pt') ->
  (forall err, from_option (fun e => PageTableEntry.is_cow e && negb (pte_writable e)) false
     (entry pt (get_pte_index a)) = false -> Q (Err err) pt) ->
  wp (PageTable.replace_cow_frame a (frame_at n)) pt Q.
Proof.
  intros Hok Ha Hn0 H1 H2. unfold PageTable.replace_cow_frame. wstep.
  apply wp_pte_cases; [done..| |]; intros e He Hp.
  2: { rewrite Hp. cbn [negb]. wsteps. apply H2. by rewrite He. }
  intros Hn. rewrite Hp. cbn [negb]. rewrite He in H2. cbn [from_option] in H2. fold (pte_writable e).
  destruct (PageTableEntry.is_cow e) eqn:Hc; cbn [negb]; [|wsteps; by apply H2].
  destruct (pte_writable e) eqn:Hw; [wsteps; by apply H2|].
  wsteps. rewrite from_numbered by done. wsteps. rewrite frame_into_number by done. wsteps.
  apply (wp_rewrite_pte _ _ e); [done..|]. intros pt' Hok' Hw'. wsteps. by apply H1.
Qed.

End TableSpecs.

(** ** A fresh table *)

Lemma replicate_words n : Forall decodes (replicate n 0) /\ count_words (replicate n 0) = 0%nat.
Proof.
  split.
  - apply Forall_replicate. exists (mkPte (PageTableEntryFlags.from_raw_value 0) (mkFrameNumber 0)).
    split; [by vm_compute|]. apply null_numbered.
  - induction n as [|n IH]; [done|]. cbn [replicate]. rewrite count_words_cons, IH. by vm_compute.
Qed.

Lemma pt_new_ok base : pt_ok (PageTable.new base).
Proof.
  destruct (replicate_words (Z.to_nat PAGE_TABLE_LENGTH)) as [Hd Hc]. constructor; [|done|].
  - apply length_replicate.
  - unfold PageTable.new. cbn [pt_entries nmapped]. by rewrite Hc.
Qed.

Lemma pt_new_entry base i : entry (PageTable.new base) i = None.
Proof.
  unfold entry, PageTable.new. cbn [pt_entries].
  destruct (replicate _ 0 !! Z.to_nat i) as [w|] eqn:Hw; [|done].
  apply lookup_replicate in Hw as [-> _]. by vm_compute.
Qed.

(** ** Page directories *)

(** The present entry of a page table address. *)
Definition word_pde (w : Z) : option PageDirectoryEntry :=
  e ← PageDirectoryEntry.from_raw_value w; if PageDirectoryEntry.is_present e then Some e else None.

Definition pd_entry (pd : PageDirectory) (i : Z) : option PageDirectoryEntry :=
  w ← pd_entries pd !! Z.to_nat i; word_pde w.

Definition pd_decodes (w : Z) : Prop :=
  exists e, PageDirectoryEntry.from_raw_value w = Some e /\ numbered (pd_frame e).

Record pd_ok (pd : PageDirectory) : Prop := {
  pd_length : length (pd_entries pd) = Z.to_nat PAGE_TABLE_LENGTH;
  pd_all_decode : Forall pd_decodes (pd_entries pd)
}.

Section DirectorySpecs.
Context {CF : Config}.
Implicit Types (pd : PageDirectory) (a : PageTableAddress).

Definition pt_in_word a : Prop := 0 <= into_raw_value a <= usize_max.

Lemma pd_entry_lookup pd a : pd_ok pd -> pt_in_word a -> exists w e,
  pd_entries pd !! Z.to_nat (get_pde_index a) = Some w /\ PageDirectoryEntry.from_raw_value w = Some e /\
  numbered (pd_frame e) /\
  pd_entry pd (get_pde_index a) = if PageDirectoryEntry.is_present e then Some e else None.
Proof.
  intros Hok Ha. destruct (pde_index_bound a Ha) as [H0 H1].
  destruct (lookup_lt_is_Some_2 (pd_entries pd) (Z.to_nat (get_pde_index a))) as [w Hw].
  { rewrite (pd_length _ Hok). lia. }
  pose proof (Forall_lookup_1 _ _ _ _ (pd_all_decode _ Hok) Hw) as (e & He & Hn).
  exists w, e. splits; [done..|]. unfold pd_entry, word_pde. by rewrite Hw; simpl; rewrite He.
Qed.

Lemma pd_read pd a : pd_ok pd -> pt_in_word a -> exists e, PageDirectory.read_pde pd a = Ok (Some e) /\
  numbered (pd_frame e) /\ PageDirectoryEntry.is_present e = bool_decide (is_Some (pd_entry pd (get_pde_index a))) /\
  forall x, pd_entry pd (get_pde_index a) = Some x -> x = e.
Proof.
  intros Hok Ha. destruct (pd_entry_lookup pd a Hok Ha) as (w & e & Hw & He & Hn & Hen). exists e.
  unfold PageDirectory.read_pde. rewrite Hw, He. split; [done|]. split; [done|]. rewrite Hen.
  destruct (PageDirectoryEntry.is_present e).
  - split; [by rewrite bool_decide_eq_true_2 by by eexists|]. by intros x [= ->].
  - split; [rewrite bool_decide_eq_false_2; [done|by intros [? ?]]|done].
Qed.

(** The directory after one entry has been written. *)
Definition pd_written a (o : option PageDirectoryEntry) pd pd' : Prop :=
  pd_base pd' = pd_base pd /\
  forall i, 0 <= i < PAGE_TABLE_LENGTH -> pd_entry pd' i = if i =? get_pde_index a then o else pd_entry pd i.

Lemma wp_write_pde pd a e (Q : res Error unit → PageDirectory → Prop) : pd_ok pd -> pt_in_word a ->
  numbered (pd_frame e) ->
  (forall pd', pd_ok pd' -> pd_written a (if PageDirectoryEntry.is_present e then Some e else None) pd pd' ->
     Q (Ok tt) pd') -> wp (PageDirectory.write_pde a e) pd Q.
Proof.
  intros Hok Ha Hn HQ. destruct (pd_entry_lookup pd a Hok Ha) as (w & e0 & Hw & _).
  destruct (pde_index_bound a Ha) as [H0 H1]. pose proof (lookup_lt_Some _ _ _ Hw) as Hlt.
  unfold PageDirectory.write_pde. wsteps.
  destruct (Nat.ltb_spec (Z.to_nat (get_pde_index a)) (length (pd_entries pd))); [|lia]. wsteps.
  apply HQ.
  - destruct Hok as [Hl Hd]. constructor; cbn [pd_entries]; [by rewrite length_insert|].
    apply Forall_insert; [done|]. exists e. split; [by apply pde_roundtrip|done].
  - split; [done|]. intros i Hi. unfold pd_entry. cbn [pd_entries].
    destruct (Z.eqb_spec i (get_pde_index a)) as [->|Hne].
    + rewrite list_lookup_insert_eq by done. simpl. unfold word_pde. by rewrite pde_roundtrip.
    + by rewrite list_lookup_insert_ne by lia.
Qed.

Lemma wp_the_pde pd a (Q : res Error PageDirectoryEntry → PageDirectory → Prop) : pd_ok pd -> pt_in_word a ->
  (forall e, PageDirectoryEntry.is_present e = bool_decide (is_Some (pd_entry pd (get_pde_index a))) ->
     numbered (pd_frame e) -> (forall x, pd_entry pd (get_pde_index a) = Some x -> x = e) -> Q (Ok e) pd) ->
  wp (PageDirectory.the_pde a) pd Q.
Proof.
  intros Hok Ha HQ. destruct (pd_read pd a Hok Ha) as (e & He & Hn & Hp & Hx).
  unfold PageDirectory.the_pde. wsteps. rewrite He. wsteps. by apply HQ.
Qed.

(** The entry that [map] makes. *)
Definition mapped_pde (n : Z) (supervisor : bool) (access : AccessPermission) : PageDirectoryEntry :=
  mkPde (mkPdeFlags Present (if is_writable access then ReadWrite else ReadOnly)
           (if supervisor then Supervisor else User) NotWriteThrough CacheEnabled NotAccessed NotDirty
           Standard) (mkFrameNumber n).

Lemma wp_pd_map pd a n sup acc (Q : res Error unit → PageDirectory → Prop) : pd_ok pd -> pt_in_word a ->
  0 <= n <= FrameNumber_MAX ->
  (pd_entry pd (get_pde_index a) = None -> forall pd', pd_ok pd' ->
     pd_written a (Some (mapped_pde n sup acc)) pd pd' -> Q (Ok tt) pd') ->
  (forall e, pd_entry pd (get_pde_index a) = Some e ->
     Q (Err (mkError ResourceBusy "page directory entry is busy")) pd) ->
  wp (PageDirectory.map a (frame_at n) sup acc) pd Q.
Proof.
  intros Hok Ha Hn H1 H2. unfold PageDirectory.map. wstep. apply wp_the_pde; [done..|]. intros e Hp _ _. rewrite Hp.
  destruct (pd_entry pd (get_pde_index a)) as [x|] eqn:Hx; simpl.
  - wsteps. by eapply H2.
  - wsteps. rewrite frame_into_number by done. wsteps.
    apply wp_write_pde; [done..|]. intros pd' Hok' Hw. by apply H1.
Qed.

Lemma wp_pd_unmap pd a (Q : res Error FrameAddress → PageDirectory → Prop) : pd_ok pd -> pt_in_word a ->
  (forall e, pd_entry pd (get_pde_index a) = Some e -> forall pd', pd_ok pd' -> pd_written a None pd pd' ->
     Q (Ok (frame_at (fn_raw (pd_frame e)))) pd') ->
  (pd_entry pd (get_pde_index a) = None ->
     Q (Err (mkError ResourceBusy "page directory entry is not present")) pd) ->
  wp (PageDirectory.unmap a) pd Q.
Proof.
  intros Hok Ha H1 H2. unfold PageDirectory.unmap. wstep. apply wp_the_pde; [done..|]. intros e Hp Hn Hx. rewrite Hp.
  destruct (pd_entry pd (get_pde_index a)) as [x|] eqn:Ex; simpl.
  - rewrite (Hx x eq_refl) in *. wsteps. rewrite from_numbered by done. wsteps.
    apply wp_write_pde; [done..|apply null_numbered|]. intros pd' Hok' Hw. wsteps. by apply H1.
  - wsteps. by apply H2.
Qed.

End DirectorySpecs.

Lemma pd_new_ok base : pd_ok (PageDirectory.new base).
Proof.
  constructor; [apply length_replicate|]. apply Forall_replicate.
  exists (mkPde (PageDirectoryEntryFlags.from_raw_value 0) (mkFrameNumber 0)).
  split; [by vm_compute|]. apply null_numbered.
Qed.

Lemma pd_new_entry base i : pd_entry (PageDirectory.new base) i = None.
Proof.
  unfold pd_entry, PageDirectory.new. cbn [pd_entries].
  destruct (replicate _ 0 !! Z.to_nat i) as [w|] eqn:Hw; [|done].
  apply lookup_replicate in Hw as [-> _]. by vm_compute.
Qed.
