(* ===== verification/Frame.v ===== *)
(** * Physical frame allocator

    [kernel/src/mm/phys/frame.rs]: a bitmap of the frames in use and a table of
    8-bit reference counts, kept in step.  The singleton is the state of the
    monad; [debug_assert_eq!] is checked.  The theorems describe every operation
    by its effect on the reference counts, and then the counts by the handles the
    rest of the kernel holds. *)

From S2P Require Import Prelude Error BitAlloc Bitmap Config Addr.
#[local] Open Scope Z_scope.

Record Inner (B : Type) := mkInner {
  bitmap : B;
  refcount : list Z
}.
Arguments mkInner {B} _ _.
Arguments bitmap {B} _.
Arguments refcount {B} _.

Module Frame.

Section Definitions.
Context `{Config} {B : Type} `{BitAlloc B}.

Definition NFRAMES : Z := MEMORY_SIZE / FRAME_SIZE.

Definition on_bitmap {A} (m : M B Error A) : M (Inner B) Error A :=
  zoom bitmap (fun b s => mkInner b (refcount s)) m.

(** [self.refcount[i]] and [self.refcount[i] = v]. *)
Definition rc_get (i : Z) : M (Inner B) Error Z :=
  s ← get; lift (RawArray.get (refcount s) i).
Definition rc_set (i v : Z) : M (Inner B) Error unit :=
  s ← get; l ← lift (RawArray.set (refcount s) i v); put (mkInner (bitmap s) l).

(** [debug_assert_eq!(self.refcount[i], 0); self.refcount[i] = 1]. *)
Definition rc_init (i : Z) : M (Inner B) Error unit :=
  rc ← rc_get i;
  if negb (rc =? 0) then panic else rc_set i 1.

Fixpoint rc_init_range (n : nat) (i : Z) : M (Inner B) Error unit :=
  match n with
  | O => mret tt
  | S n => rc_init i;; rc_init_range n (i + 1)
  end.

(** The conversion at the end of [alloc] and [alloc_contiguous]. *)
Definition to_frame_address (frame_number : Z) : M (Inner B) Error FrameAddress :=
  match FrameNumber_from_raw_value frame_number with
  | None => fail (mkError OutOfMemory "frame number is out of bounds")
  | Some n => lift (FrameAddress_from_frame_number n)
  end.

Definition alloc : M (Inner B) Error FrameAddress :=
  frame_number ← on_bitmap ba_alloc;
  rc_init frame_number;;
  to_frame_address frame_number.

Definition alloc_contiguous (count : Z) : M (Inner B) Error FrameAddress :=
  frame_number ← on_bitmap (ba_alloc_range count);
  _ ← lift (usize_add frame_number count);
  rc_init_range (Z.to_nat count) frame_number;;
  to_frame_address frame_number.

Definition free (frame : FrameAddress) : M (Inner B) Error unit :=
  n ← lift (FrameAddress_into_frame_number frame);
  let frame_number := fn_raw n in
  s ← get;
  if Z.of_nat (length (refcount s)) <=? frame_number
  then fail (mkError BadAddress "frame number out of bounds")
  else
    rc ← rc_get frame_number;
    if rc =? 0 then fail (mkError BadAddress "frame is already free")
    else
      rc_set frame_number (rc - 1);;
      if rc - 1 =? 0 then on_bitmap (ba_clear frame_number) else mret tt.

Definition share (frame : FrameAddress) : M (Inner B) Error unit :=
  n ← lift (FrameAddress_into_frame_number frame);
  let frame_number := fn_raw n in
  s ← get;
  if Z.of_nat (length (refcount s)) <=? frame_number
  then fail (mkError BadAddress "frame number out of bounds")
  else
    rc ← rc_get frame_number;
    if rc =? 0 then fail (mkError BadAddress "cannot share an unallocated frame")
    else if rc + 1 <=? u8_max then rc_set frame_number (rc + 1)
    else fail (mkError OutOfMemory "frame reference count overflow").

Definition refcount_of (frame : FrameAddress) : M (Inner B) Error Z :=
  n ← lift (FrameAddress_into_frame_number frame);
  let frame_number := fn_raw n in
  s ← get;
  if Z.of_nat (length (refcount s)) <=? frame_number
  then fail (mkError BadAddress "frame number out of bounds")
  else
    rc ← rc_get frame_number;
    if rc =? 0 then fail (mkError BadAddress "frame is not allocated") else mret rc.

Definition book (phys_addr : PageAligned PhysicalAddress) : M (Inner B) Error unit :=
  n ← lift (into_frame_number (pg_inner phys_addr));
  on_bitmap (ba_set (fn_raw n));;
  rc_init (fn_raw n).

Definition is_covered (phys_addr : PageAligned PhysicalAddress) : M (Inner B) Error bool :=
  n ← lift (into_frame_number (pg_inner phys_addr));
  s ← get;
  mret (fn_raw n <? ba_cap (bitmap s)).

(** First loop of [alloc_range]: every frame is tracked and free. *)
Fixpoint check_range (n : nat) (index : Z) : M (Inner B) Error unit :=
  match n with
  | O => mret tt
  | S n =>
    s ← get;
    if ba_cap (bitmap s) <=? index then
      _ ← lift (usize_mul index FRAME_SIZE);
      fail (mkError InvalidArgument "frame index not covered by the bitmap")
    else
      used ← lift (ba_test (bitmap s) index);
      if used : bool then
        _ ← lift (usize_mul index FRAME_SIZE);
        fail (mkError OutOfMemory "frame is already allocated")
      else check_range n (index + 1)
  end.

(** Second loop of [alloc_range]. *)
Fixpoint book_range (n : nat) (index : Z) : M (Inner B) Error unit :=
  match n with
  | O => mret tt
  | S n => on_bitmap (ba_set index);; rc_init index;; book_range n (index + 1)
  end.

Definition alloc_range (region : TruncatedMemoryRegion PhysicalAddress)
    : M (Inner B) Error unit :=
  start ← lift (into_frame_number (pg_inner (mr_start region)));
  let start_frame_number := fn_raw start in
  past ← lift (usize_add start_frame_number (mr_size region / FRAME_SIZE));
  end_frame_number ← lift (usize_sub past 1);
  let n := Z.to_nat (end_frame_number - start_frame_number + 1) in
  check_range n start_frame_number;;
  book_range n start_frame_number.

(** The state of the singleton before and after [init]. *)
Definition init (bm : B) : M (option (Inner B)) Error unit :=
  inst ← get;
  match inst with
  | Some _ => fail (mkError InvalidArgument "frame allocator already initialized")
  | None =>
    _ ← lift (usize_mul (ba_cap bm) FRAME_SIZE);
    let nframes := ba_cap bm in
    if NFRAMES <? nframes
    then fail (mkError InvalidArgument
                 "frame bitmap is larger than the configured refcount storage")
    else
      let slot i x := match ba_test bm (Z.of_nat i) with
                      | Ok true => if Z.of_nat i <? nframes then 1 else x
                      | _ => x
                      end in
      put (Some (mkInner bm (imap slot (replicate (Z.to_nat NFRAMES) 0))))
  end.

Definition free_count : M (Inner B) Error Z :=
  s ← get; lift (usize_sub (ba_cap (bitmap s)) (ba_usage (bitmap s))).

(** ** Abstract view *)

(** The number of owners of frame [n]. *)
Definition rc (s : Inner B) (n : Z) : Z := default 0 (refcount s !! Z.to_nat n).

Record inv (s : Inner B) : Prop := {
  inv_bitmap : ba_inv (bitmap s);
  inv_len : Z.of_nat (length (refcount s)) = NFRAMES;
  inv_cap : ba_cap (bitmap s) <= NFRAMES;
  inv_rc n : 0 <= n -> 0 <= rc s n <= u8_max;
  inv_used n : 0 <= n -> n ∈ ba_used (bitmap s) <-> 1 <= rc s n
}.

(** Only the counts [f] says changed have changed. *)
Definition rc_becomes (s s' : Inner B) (f : Z → Z) : Prop :=
  ba_cap (bitmap s') = ba_cap (bitmap s) /\ forall n, 0 <= n -> rc s' n = f n.

Definition upd (f : Z → Z) (n v : Z) : Z → Z := fun m => if m =? n then v else f m.

End Definitions.

Section Proofs.
Context {CF : Config} {HC : ConfigOk} {B : Type} {HB : BitAlloc B}.
Implicit Types (s : Inner B) (b : B) (l : list Z).

(** ** The table *)

Lemma rc_get_wp s i Q : 0 <= i < Z.of_nat (length (refcount s)) ->
  Q (Ok (rc s i)) s -> wp (rc_get i) s Q.
Proof.
  intros Hi HQ. unfold rc_get. wsteps. unfold RawArray.get, rc in *.
  by destruct (lookup_lt_is_Some_2 (refcount s) (Z.to_nat i) ltac:(lia)) as [x Hx];
    rewrite Hx in *.
Qed.

Lemma rc_set_wp s i v Q : 0 <= i < Z.of_nat (length (refcount s)) ->
  Q (Ok tt) (mkInner (bitmap s) (<[Z.to_nat i := v]> (refcount s))) -> wp (rc_set i v) s Q.
Proof.
  intros Hi HQ. unfold rc_set. wsteps. unfold RawArray.set.
  rewrite (proj2 (Z.ltb_lt _ _)) by lia. by wsteps.
Qed.

Lemma rc_insert s b i v n : 0 <= i < Z.of_nat (length (refcount s)) -> 0 <= n ->
  rc (mkInner b (<[Z.to_nat i := v]> (refcount s))) n = upd (rc s) i v n.
Proof.
  intros Hi Hn. unfold rc, upd. simpl. destruct (Z.eqb_spec n i) as [->|].
  - by rewrite list_lookup_insert_eq by lia.
  - by rewrite list_lookup_insert_ne by lia.
Qed.

Lemma rc_out s n : inv s -> NFRAMES <= n -> rc s n = 0.
Proof. intros Hi Hn. unfold rc. rewrite lookup_ge_None_2; [done|]. pose proof (inv_len s Hi). lia. Qed.

(** A used frame is tracked. *)
Lemma used_range s n : inv s -> 0 <= n -> 1 <= rc s n -> n < ba_cap (bitmap s).
Proof.
  intros Hi Hn Hr. apply (inv_used s Hi) in Hr; [|done].
  apply (ba_inv_used _ (inv_bitmap s Hi)) in Hr. apply elem_of_range in Hr. lia.
Qed.

Lemma nframes_bound : 0 <= NFRAMES <= FrameNumber_MAX + 1.
Proof.
  pose proof memory_size_bound. unfold NFRAMES, FrameNumber_MAX, MAX_ADDRESS.
  change FRAME_SIZE with 4096. split; [apply Z.div_pos; lia|].
  assert (MEMORY_SIZE / 4096 <= usize_max / 4096); [|lia]. apply Z.div_le_mono; lia.
Qed.

Lemma covered_number s n : inv s -> n < ba_cap (bitmap s) -> n <= FrameNumber_MAX.
Proof. intros Hi Hn. pose proof (inv_cap s Hi). pose proof nframes_bound. lia. Qed.

(** Changing one count, and the bitmap to match. *)
Lemma inv_change s b' i v :
  inv s -> ba_inv b' -> ba_cap b' = ba_cap (bitmap s) -> 0 <= i < NFRAMES -> 0 <= v <= u8_max ->
  (forall n, 0 <= n -> n ∈ ba_used b' <-> 1 <= upd (rc s) i v n) ->
  let s' := mkInner b' (<[Z.to_nat i := v]> (refcount s)) in
  inv s' /\ rc_becomes s s' (upd (rc s) i v).
Proof.
  intros Hi Hb Hc Hr Hv Hu s'. pose proof (inv_len s Hi) as Hl.
  assert (forall n, 0 <= n -> rc s' n = upd (rc s) i v n) as Hrc.
  { intros n Hn. apply rc_insert; [lia|done]. }
  split; [|by split]. split; simpl; [done|by rewrite length_insert|rewrite Hc; apply Hi| |].
  - intros n Hn. rewrite Hrc by done. unfold upd. destruct (n =? i); [done|by apply Hi].
  - intros n Hn. by rewrite Hrc, Hu by done.
Qed.

(** Replacing the bitmap by one with the same bits. *)
Lemma inv_rebitmap s b' : inv s -> ba_inv b' -> ba_cap b' = ba_cap (bitmap s) ->
  ba_used b' = ba_used (bitmap s) ->
  inv (mkInner b' (refcount s)) /\ rc_becomes s (mkInner b' (refcount s)) (rc s).
Proof.
  intros Hi Hb Hc Hu. split; [|by split].
  split; simpl; rewrite ?Hc, ?Hu; done || apply Hi.
Qed.

(** A frame whose bit is clear has no owner. *)
Lemma unused_rc s n : inv s -> 0 <= n -> n ∉ ba_used (bitmap s) -> rc s n = 0.
Proof.
  intros Hi Hn Hu. pose proof (inv_rc s Hi n Hn). destruct (decide (1 <= rc s n)) as [Hr|]; [|lia].
  by apply (inv_used s Hi) in Hr.
Qed.

(** The table is in step with the bitmap except at the frames of [R], whose bits
    are set already. *)
Definition ahead (s : Inner B) (R : gset Z) : Prop :=
  ba_inv (bitmap s) /\ Z.of_nat (length (refcount s)) = NFRAMES /\
  ba_cap (bitmap s) <= NFRAMES /\ R ⊆ ba_used (bitmap s) /\
  (forall n, 0 <= n -> 0 <= rc s n <= u8_max) /\
  (forall n, 0 <= n -> n ∈ R -> rc s n = 0) /\
  (forall n, 0 <= n -> n ∉ R -> n ∈ ba_used (bitmap s) <-> 1 <= rc s n).

Lemma ahead_inv s : ahead s ∅ -> inv s.
Proof.
  intros (? & ? & ? & _ & ? & _ & Hu). split; try done. intros n Hn. apply Hu; [done|set_solver].
Qed.

(** Setting bits first gets the bitmap ahead. *)
Lemma inv_ahead s b' R : inv s -> ba_inv b' -> ba_cap b' = ba_cap (bitmap s) ->
  ba_used b' = R ∪ ba_used (bitmap s) -> R ## ba_used (bitmap s) ->
  ahead (mkInner b' (refcount s)) R.
Proof.
  intros Hi Hb Hc Hu Hd. split; [done|]. split; [apply Hi|]. simpl. rewrite Hc.
  split; [apply Hi|]. split; [set_solver|]. split; [apply Hi|]. split.
  - intros n Hn HR. change (rc s n = 0). apply unused_rc; [done|done|]. set_solver.
  - intros n Hn HR. change (rc (mkInner b' (refcount s)) n) with (rc s n).
    rewrite Hu, elem_of_union, <- (inv_used s Hi n Hn). tauto.
Qed.

Lemma rc_init_wp s i R Q : ahead s R -> 0 <= i -> i ∈ R ->
  (forall s', ahead s' (R ∖ {[i]}) -> rc_becomes s s' (upd (rc s) i 1) -> Q (Ok tt) s') ->
  wp (rc_init i) s Q.
Proof.
  intros (Hb & Hl & Hc & HR & Hr & Hz & Hu) H0 Hi HQ.
  assert (0 <= i < NFRAMES) as Hrng.
  { apply HR, (ba_inv_used _ Hb), elem_of_range in Hi. lia. }
  unfold rc_init. wstep. apply rc_get_wp; [lia|]. rewrite Hz by done. simpl.
  apply rc_set_wp; [lia|].
  assert (forall n, 0 <= n ->
    rc (mkInner (bitmap s) (<[Z.to_nat i := 1]> (refcount s))) n = upd (rc s) i 1 n) as Hrc.
  { intros n Hn. apply rc_insert; [lia|done]. }
  apply HQ; [|by split]. split; [done|]. split; [simpl; by rewrite length_insert|].
  split; [done|]. split; [set_solver|]. unfold upd in Hrc. splits; intros n Hn.
  - rewrite Hrc by done. zbool; [unfold u8_max; lia|by apply Hr].
  - intros [HnR Hne]%elem_of_difference. rewrite Hrc by done. zbool; [set_solver|by apply Hz].
  - intros HnR. rewrite Hrc by done. zbool; [set_solver|]. apply Hu; [done|]. set_solver.
Qed.

Definition alloc_post s s' (r : res Error FrameAddress) : Prop :=
  match r with
  | Ok f => exists n, f = frame_at n /\ 0 <= n < ba_cap (bitmap s) /\ rc s n = 0 /\
                      rc_becomes s s' (upd (rc s) n 1)
  | Err e => code e = OutOfMemory /\ rc_becomes s s' (rc s) /\
             forall n, 0 <= n < ba_cap (bitmap s) -> 1 <= rc s n
  | Panic => False
  end.

Lemma alloc_wp s : inv s -> wp alloc s (fun r s' => inv s' /\ alloc_post s s' r).
Proof.
  intros Hi. unfold alloc, on_bitmap, ba_alloc. do 2 wstep.
  apply ba_alloc_range_wp; [apply Hi|lia|]. intros r b' Hb Hc Hp.
  pose proof (ba_inv_cap _ (inv_bitmap s Hi)).
  destruct r as [n|e|]; simpl in Hp; [| |done].
  - destruct Hp as (_ & (Hn0 & Hn & Hd) & Hu). rewrite range_1 in *.
    wstep. apply (rc_init_wp _ n {[n]}); [by apply inv_ahead|done|set_solver|].
    intros s' Ha [Hc' Hrc]. simpl in Hc'. rewrite difference_diag_L in Ha. apply ahead_inv in Ha.
    unfold to_frame_address.
    destruct (frame_from_number n) as [-> Hfa].
    { split; [done|]. apply (covered_number s); [done|lia]. }
    wstep. rewrite Hfa. split; [done|]. exists n. splits; [done|lia|lia| |split; [congruence|done]].
    apply unused_rc; [done|done|]. set_solver.
  - rewrite decide_False in Hp by lia. destruct Hp as (Hu & Hco & Hno).
    destruct (inv_rebitmap s b' Hi Hb Hc Hu). split; [done|].
    split; [done|]. split; [done|]. intros n Hn.
    apply (inv_used s Hi); [lia|].
    rewrite (no_free_bit (ba_cap (bitmap s)) (ba_used (bitmap s)));
      [by apply elem_of_range|lia|apply ba_inv_used, Hi|done].
Qed.

(** ** Contiguous frames *)

Lemma rc_init_range_wp n s i Q : ahead s (range i (Z.of_nat n)) -> 0 <= i ->
  (forall s', inv s' ->
     rc_becomes s s' (fun m => if bool_decide (i <= m < i + Z.of_nat n) then 1 else rc s m) ->
     Q (Ok tt) s') ->
  wp (rc_init_range n i) s Q.
Proof.
  revert s i. induction n as [|n IH]; intros s i Ha H0 HQ; simpl.
  { wstep. apply HQ.
    - apply ahead_inv. replace (range i (Z.of_nat 0)) with (∅ : gset Z) in Ha; [done|].
      apply set_eq. intros j. rewrite elem_of_range. set_solver by lia.
    - split; [done|]. intros m Hm. by rewrite bool_decide_false by lia. }
  wstep. apply (rc_init_wp _ _ _ _ Ha); [done|apply elem_of_range; lia|].
  intros s1 Ha1 [Hc1 Hr1]. apply IH; [|lia|].
  - replace (range (i + 1) (Z.of_nat n)) with (range i (Z.of_nat (S n)) ∖ {[i]}); [done|].
    apply set_eq. intros j. rewrite elem_of_difference, !elem_of_range, elem_of_singleton. lia.
  - intros s2 Hi2 [Hc2 Hr2]. apply HQ; [done|]. split; [congruence|]. intros m Hm.
    rewrite Hr2, Hr1 by done. unfold upd. destruct (Z.eqb_spec m i) as [->|].
    + by rewrite bool_decide_false, bool_decide_true by lia.
    + case_bool_decide; case_bool_decide; done || lia.
Qed.

Definition alloc_contiguous_post s s' count (r : res Error FrameAddress) : Prop :=
  match r with
  | Ok f => exists n, f = frame_at n /\ 0 <= n /\ 0 < count /\ n + count <= ba_cap (bitmap s) /\
      (forall m, n <= m < n + count -> rc s m = 0) /\
      rc_becomes s s' (fun m => if bool_decide (n <= m < n + count) then 1 else rc s m)
  | Err e => rc_becomes s s' (rc s) /\
      (0 < count <= ba_cap (bitmap s) -> code e = OutOfMemory /\
       forall n, 0 <= n -> n + count <= ba_cap (bitmap s) ->
         exists m, n <= m < n + count /\ 1 <= rc s m)
  | Panic => False
  end.

(** If every frame of a run had no owner, the run would be free. *)
Lemma no_free_frames s n count : inv s -> 0 <= n -> n + count <= ba_cap (bitmap s) ->
  ~ free_run (ba_cap (bitmap s)) (ba_used (bitmap s)) count n ->
  exists m, n <= m < n + count /\ 1 <= rc s m.
Proof.
  intros Hi Hn Hc Hno.
  destruct (decide (Exists (fun m => 1 <= rc s m) (seqZ n count))) as [He|He].
  - apply Exists_exists in He as (m & Hm & Hr). apply elem_of_seqZ in Hm. by exists m.
  - exfalso. apply Hno. split; [done|]. split; [done|]. intros m Hm Hu.
    apply elem_of_range in Hm. apply He, Exists_exists. exists m.
    split; [by apply elem_of_seqZ|]. apply (inv_used s Hi); [lia|done].
Qed.

Lemma alloc_contiguous_wp s count : inv s -> 0 <= count ->
  wp (alloc_contiguous count) s (fun r s' => inv s' /\ alloc_contiguous_post s s' count r).
Proof.
  intros Hi Hcount. unfold alloc_contiguous, on_bitmap. do 2 wstep.
  apply ba_alloc_range_wp; [apply Hi|done|]. intros r b' Hb Hc Hp.
  pose proof (ba_inv_cap _ (inv_bitmap s Hi)).
  destruct r as [n|e|]; simpl in Hp; [| |done].
  - destruct Hp as (Hpos & (Hn0 & Hn & Hd) & Hu). do 2 wstep.
    rewrite usize_add_ok by width. wstep.
    apply rc_init_range_wp; [rewrite Z2Nat.id by lia; by apply inv_ahead|done|].
    rewrite Z2Nat.id by lia. intros s' Hi' [Hc' Hrc]. simpl in Hc'. unfold to_frame_address.
    destruct (frame_from_number n) as [-> Hfa].
    { split; [done|]. apply (covered_number s); [done|lia]. }
    wstep. rewrite Hfa. split; [done|]. exists n.
    splits; [done|done|done|done| |split; [congruence|done]].
    intros m Hm. apply unused_rc; [done|lia|]. intros Hmu. apply (Hd m); [|done].
    by apply elem_of_range.
  - destruct Hp as [Hu He]. destruct (inv_rebitmap s b' Hi Hb Hc Hu). split; [done|].
    split; [done|]. intros Hr. rewrite decide_False in He by lia. destruct He as [He Hno].
    split; [done|]. intros n Hn0 Hn. by apply no_free_frames.
Qed.

(** ** Owners *)

Definition free_post s s' n (r : res Error unit) : Prop :=
  match r with
  | Ok _ => 1 <= rc s n /\ rc_becomes s s' (upd (rc s) n (rc s n - 1))
  | Err e => rc s n = 0 /\ code e = BadAddress /\ s' = s
  | Panic => False
  end.

Lemma free_wp s n : inv s -> 0 <= n <= FrameNumber_MAX ->
  wp (free (frame_at n)) s (fun r s' => inv s' /\ free_post s s' n r).
Proof.
  intros Hi Hn. unfold free. do 2 wstep. rewrite frame_into_number by done. do 2 wstep. simpl.
  pose proof (inv_len s Hi) as Hl. rewrite Hl.
  destruct (Z.leb_spec NFRAMES n) as [Hge|Hlt].
  { wstep. split; [done|]. split; [by apply rc_out|done]. }
  wstep. apply rc_get_wp; [lia|]. destruct (Z.eqb_spec (rc s n) 0) as [Hz|Hnz].
  { by wstep. }
  pose proof (inv_rc s Hi n ltac:(lia)) as Hr. pose proof (inv_bitmap s Hi) as Hb.
  assert (n < ba_cap (bitmap s)) as Hcov by (apply used_range; [done|lia|lia]).
  wstep. apply rc_set_wp; [lia|]. destruct (Z.eqb_spec (rc s n - 1) 0) as [Hone|Hmore].
  - unfold on_bitmap. wstep. simpl. apply ba_clear_wp; [done|lia|]. intros r b' Hb' Hc' Hp.
    assert (n ∈ ba_used (bitmap s)) as Hin by (apply (inv_used s Hi); lia).
    destruct r as [[]|e|]; simpl in Hp; [|rewrite decide_True in Hp by done; tauto|done].
    destruct Hp as (_ & _ & Hu).
    destruct (inv_change s b' n (rc s n - 1) Hi Hb' Hc') as [Hi' Hbec]; [lia|lia| |].
    { intros m Hm. rewrite Hu, elem_of_difference, elem_of_singleton, (inv_used s Hi m Hm).
      unfold upd. zbool; lia. }
    split; [done|]. split; [lia|done].
  - wstep. destruct (inv_change s (bitmap s) n (rc s n - 1) Hi Hb eq_refl) as [Hi' Hbec];
      [lia|lia| |].
    { intros m Hm. rewrite (inv_used s Hi m Hm). unfold upd. zbool; subst; lia. }
    split; [done|]. split; [lia|done].
Qed.

Definition share_post s s' n (r : res Error unit) : Prop :=
  match r with
  | Ok _ => 1 <= rc s n < u8_max /\ rc_becomes s s' (upd (rc s) n (rc s n + 1))
  | Err e => s' = s /\ (rc s n = 0 /\ code e = BadAddress \/
                         rc s n = u8_max /\ code e = OutOfMemory)
  | Panic => False
  end.

Lemma share_wp s n : inv s -> 0 <= n <= FrameNumber_MAX ->
  wp (share (frame_at n)) s (fun r s' => inv s' /\ share_post s s' n r).
Proof.
  intros Hi Hn. unfold share. do 2 wstep. rewrite frame_into_number by done. do 2 wstep. simpl.
  pose proof (inv_len s Hi) as Hl. rewrite Hl.
  destruct (Z.leb_spec NFRAMES n) as [Hge|Hlt].
  { wstep. split; [done|]. split; [done|]. left. split; [by apply rc_out|done]. }
  wstep. apply rc_get_wp; [lia|]. destruct (Z.eqb_spec (rc s n) 0) as [Hz|Hnz].
  { wstep. split; [done|]. split; [done|]. by left. }
  pose proof (inv_rc s Hi n ltac:(lia)) as Hr.
  destruct (Z.leb_spec (rc s n + 1) u8_max) as [Hle|Hgt].
  - apply rc_set_wp; [lia|].
    destruct (inv_change s (bitmap s) n (rc s n + 1) Hi (inv_bitmap s Hi) eq_refl) as [Hi' Hbec];
      [lia|lia| |].
    { intros m Hm. rewrite (inv_used s Hi m Hm). unfold upd. zbool; subst; lia. }
    split; [done|]. split; [lia|done].
  - wstep. split; [done|]. split; [done|]. right. split; [lia|done].
Qed.

Lemma refcount_of_wp s n : inv s -> 0 <= n <= FrameNumber_MAX ->
  wp (refcount_of (frame_at n)) s (fun r s' => s' = s /\
    match r with
    | Ok c => c = rc s n /\ 1 <= c
    | Err e => rc s n = 0 /\ code e = BadAddress
    | Panic => False
    end).
Proof.
  intros Hi Hn. unfold refcount_of. do 2 wstep. rewrite frame_into_number by done.
  do 2 wstep. simpl. pose proof (inv_len s Hi) as Hl. rewrite Hl.
  destruct (Z.leb_spec NFRAMES n) as [Hge|Hlt].
  { wstep. split; [done|]. split; [by apply rc_out|done]. }
  wstep. apply rc_get_wp; [lia|]. destruct (Z.eqb_spec (rc s n) 0) as [Hz|Hnz].
  { by wstep. }
  wstep. pose proof (inv_rc s Hi n ltac:(lia)). splits; done || lia.
Qed.

(** The number of free frames. *)
Lemma free_count_wp s Q : inv s ->
  Q (Ok (ba_cap (bitmap s) - Z.of_nat (size (ba_used (bitmap s))))) s -> wp free_count s Q.
Proof.
  intros Hi HQ. unfold free_count. wsteps. pose proof (inv_bitmap s Hi) as Hb.
  pose proof (ba_inv_cap _ Hb). rewrite (ba_inv_usage _ Hb), usize_sub_ok; [done|].
  apply size_used_le; [lia|by apply ba_inv_used].
Qed.

(** ** Booking *)

Definition book_post s s' n (r : res Error unit) : Prop :=
  match r with
  | Ok _ => n < ba_cap (bitmap s) /\ rc s n = 0 /\ rc_becomes s s' (upd (rc s) n 1)
  | Err e => rc_becomes s s' (rc s) /\
      if decide (n < ba_cap (bitmap s)) then (code e = ResourceBusy /\ 1 <= rc s n)
      else code e = InvalidArgument
  | Panic => False
  end.

(** [self.bitmap.set(i)] and, if that succeeds, a first owner. *)
Lemma book_step_wp s n : inv s -> 0 <= n ->
  wp (on_bitmap (ba_set n);; rc_init n) s (fun r s' => inv s' /\ book_post s s' n r).
Proof.
  intros Hi Hn. unfold on_bitmap. do 2 wstep. apply ba_set_wp; [apply Hi|done|].
  intros r b' Hb Hc Hp. destruct r as [[]|e|]; simpl in Hp; [| |done].
  - destruct Hp as (Hlt & Hni & Hu).
    apply (rc_init_wp _ n {[n]}); [apply inv_ahead; try done; set_solver|done|set_solver|].
    intros s' Ha [Hc' Hrc]. simpl in Hc'. rewrite difference_diag_L in Ha.
    split; [by apply ahead_inv|]. split; [done|]. split; [by apply unused_rc|].
    split; [congruence|done].
  - destruct Hp as [Hu He]. destruct (inv_rebitmap s b' Hi Hb Hc Hu). split; [done|].
    split; [done|]. destruct (decide _); [|done]. split; [apply He|]. apply (inv_used s Hi); tauto.
Qed.

Lemma check_range_wp n s i : inv s -> 0 <= i -> i + Z.of_nat n <= 1048576 ->
  wp (check_range n i) s (fun r s' => s' = s /\
    match r with
    | Ok _ => forall m, i <= m < i + Z.of_nat n -> m < ba_cap (bitmap s) /\ rc s m = 0
    | Err e => exists m, i <= m < i + Z.of_nat n /\
        (ba_cap (bitmap s) <= m /\ code e = InvalidArgument \/
         1 <= rc s m /\ code e = OutOfMemory)
    | Panic => False
    end).
Proof.
  intros Hi. revert i. induction n as [|n IH]; intros i H0 Hmax; cbn [check_range].
  { wstep. split; [done|]. lia. }
  do 2 wstep. destruct (Z.leb_spec (ba_cap (bitmap s)) i) as [Hge|Hlt].
  { do 2 wstep. rewrite usize_mul_ok by (unfold FRAME_SIZE, PAGE_SIZE; width). wstep.
    split; [done|]. exists i. split; [lia|]. by left. }
  do 2 wstep. pose proof (ba_test_ok (bitmap s) i (inv_bitmap s Hi) H0) as Ht.
  destruct (ba_test (bitmap s) i) as [v|e|]; simpl in Ht; [|lia|done]. destruct Ht as [_ ->].
  case_bool_decide as Hin.
  - do 2 wstep. rewrite usize_mul_ok by (unfold FRAME_SIZE, PAGE_SIZE; width). wstep.
    split; [done|]. exists i. split; [lia|]. right. split; [by apply (inv_used s Hi)|done].
  - eapply wp_mono; [apply IH; lia|]. intros r s' [-> Hr]. split; [done|].
    destruct r as [[]|e|]; [| |done].
    + intros m Hm. destruct (decide (m = i)) as [->|]; [|apply Hr; lia].
      split; [done|by apply unused_rc].
    + destruct Hr as (m & Hm & ?). exists m. split; [lia|done].
Qed.

Definition booked_range s i n (m : Z) : Z := if bool_decide (i <= m < i + n) then 1 else rc s m.

Lemma book_range_wp n s i : inv s -> 0 <= i ->
  (forall m, i <= m < i + Z.of_nat n -> m < ba_cap (bitmap s) /\ rc s m = 0) ->
  wp (book_range n i) s (fun r s' => r = Ok tt /\ inv s' /\
    rc_becomes s s' (booked_range s i (Z.of_nat n))).
Proof.
  revert s i. induction n as [|n IH]; intros s i Hi H0 Hfree; cbn [book_range].
  { wstep. splits; [done|done|]. split; [done|]. intros m Hm. unfold booked_range.
    by rewrite bool_decide_false by lia. }
  assert (wp ((on_bitmap (ba_set i);; rc_init i);; book_range n (i + 1)) s
    (fun r s' => r = Ok tt /\ inv s' /\ rc_becomes s s' (booked_range s i (Z.of_nat (S n))))) as Hw.
  2: { revert Hw. unfold wp, mbind, M_bind. by destruct (on_bitmap _ s) as [[] ?]. }
  wstep. eapply wp_mono; [by apply book_step_wp|]. intros r s1 [Hi1 Hp].
  destruct (Hfree i ltac:(lia)) as [Hic Hiz].
  destruct r as [[]|e|]; simpl in Hp; [|rewrite decide_True in Hp by done; lia|done].
  destruct Hp as (_ & _ & Hc1 & Hr1).
  eapply wp_mono; [apply IH; [done|lia|]|].
  - intros m Hm. rewrite Hc1, Hr1 by lia. unfold upd. zbool; [lia|]. apply Hfree. lia.
  - intros r s2 (-> & Hi2 & Hc2 & Hr2). splits; [done|done|]. split; [congruence|].
    intros m Hm. rewrite Hr2 by done. unfold booked_range. rewrite Hr1 by done. unfold upd.
    destruct (Z.eqb_spec m i) as [->|].
    + by rewrite bool_decide_false, bool_decide_true by lia.
    + case_bool_decide; case_bool_decide; done || lia.
Qed.

(** The frames of a region: [k] frames from [n] on. *)
Definition region_frames (region : TruncatedMemoryRegion PhysicalAddress) (n k : Z) : Prop :=
  fa_inner (frame_at n) = mr_start region /\ mr_size region = k * FRAME_SIZE /\
  0 <= n <= FrameNumber_MAX /\ 0 < k /\ n + k <= 1048576.

(** Booking a memory region at boot is all or nothing: either every frame of
    the region was tracked and free and now has one owner, or nothing changed and
    some frame of the region is untracked or taken. *)
Theorem frame_alloc_range_atomic s region n k : inv s -> region_frames region n k ->
  wp (alloc_range region) s (fun r s' => inv s' /\
    match r with
    | Ok _ => (forall m, n <= m < n + k -> m < ba_cap (bitmap s) /\ rc s m = 0) /\
              rc_becomes s s' (booked_range s n k)
    | Err e => s' = s /\ exists m, n <= m < n + k /\
        (ba_cap (bitmap s) <= m /\ code e = InvalidArgument \/
         1 <= rc s m /\ code e = OutOfMemory)
    | Panic => False
    end).
Proof.
  intros Hi (Hst & Hsz & Hn & Hk & Hmax). unfold alloc_range.
  pose proof (frame_into_number n Hn) as Hfn. unfold FrameAddress_into_frame_number in Hfn.
  rewrite Hst in Hfn. do 2 wstep. rewrite Hfn. do 2 wstep. simpl.
  rewrite Hsz, Z.div_mul by done. rewrite usize_add_ok by width. do 2 wstep.
  rewrite usize_sub_ok by lia. wstep.
  replace (Z.to_nat (n + k - 1 - n + 1)) with (Z.to_nat k) by lia.
  eapply wp_mono; [apply check_range_wp; [done|lia|lia]|]. rewrite Z2Nat.id by lia.
  intros r s1 [-> Hr]. destruct r as [[]|e|]; [| |done].
  - eapply wp_mono; [apply book_range_wp; [done|lia|by rewrite Z2Nat.id by lia]|].
    rewrite Z2Nat.id by lia. intros r s2 (-> & ? & ?). done.
  - done.
Qed.

Lemma init_wp bm : ba_inv bm -> ba_cap bm * FRAME_SIZE <= usize_max ->
  wp (init bm) None (fun r o =>
    match r with
    | Ok _ => ba_cap bm <= NFRAMES /\ exists s, o = Some s /\ inv s /\ bitmap s = bm /\
        forall n, 0 <= n -> rc s n = if bool_decide (n ∈ ba_used bm) then 1 else 0
    | Err e => NFRAMES < ba_cap bm /\ code e = InvalidArgument /\ o = None
    | Panic => False
    end).
Proof.
  intros Hb Hmax. unfold init. do 4 wstep. rewrite usize_mul_ok by done.
  destruct (Z.ltb_spec NFRAMES (ba_cap bm)) as [Hlt|Hge]; wstep; [done|].
  split; [done|]. eexists. split; [done|]. pose proof nframes_bound as HN.
  match goal with |- inv ?x /\ _ => set (s := x) end.
  assert (forall n, 0 <= n -> rc s n = if bool_decide (n ∈ ba_used bm) then 1 else 0) as Hrc.
  { intros n Hn. unfold rc, s. simpl. rewrite list_lookup_imap.
    destruct (decide (n < NFRAMES)) as [Hr|Hr].
    - rewrite lookup_replicate_2 by lia. simpl. rewrite Z2Nat.id by done.
      pose proof (ba_test_ok bm n Hb Hn) as Ht.
      destruct (ba_test bm n) as [v|e|]; simpl in Ht; [| |done].
      + destruct Ht as [Hc ->]. case_bool_decide; [|done]. zbool; [done|lia].
      + rewrite bool_decide_false; [done|]. intros Hin%(ba_inv_used _ Hb)%elem_of_range. lia.
    - rewrite lookup_ge_None_2 by (rewrite length_replicate; lia). simpl.
      rewrite bool_decide_false; [done|]. intros Hin%(ba_inv_used _ Hb)%elem_of_range. lia. }
  splits; [|done|done]. split; [done|simpl; rewrite length_imap, length_replicate; lia|done| |];
    intros n Hn; rewrite Hrc by done; case_bool_decide; unfold u8_max; split; done || lia.
Qed.

End Proofs.

(** ** Handles *)

Section Handles.
Context {CF : Config}.

(** The frames of a contiguous allocation. *)
Definition frames_from (f : FrameAddress) (count : Z) : list FrameAddress :=
  (fun i => frame_at (FrameAddress_raw f / FRAME_SIZE + i)) <$> seqZ 0 count.

(** The states reachable from [s0], with the handles the kernel holds.  A handle
    is got from [alloc], [alloc_contiguous] or [share] and given up through
    [free]; only handles that are held are shared or given up. *)
Inductive reach (s0 : Inner Bitmap) : Inner Bitmap → list FrameAddress → Prop :=
| reach_start : reach s0 s0 []
| reach_alloc s L f s' : reach s0 s L -> alloc s = (Ok f, s') -> reach s0 s' (f :: L)
| reach_alloc_err s L e s' : reach s0 s L -> alloc s = (Err e, s') -> reach s0 s' L
| reach_contiguous s L count f s' : reach s0 s L -> 0 <= count ->
    alloc_contiguous count s = (Ok f, s') -> reach s0 s' (frames_from f count ++ L)
| reach_contiguous_err s L count e s' : reach s0 s L -> 0 <= count ->
    alloc_contiguous count s = (Err e, s') -> reach s0 s' L
| reach_share s L f s' : reach s0 s L -> f ∈ L -> share f s = (Ok tt, s') ->
    reach s0 s' (f :: L)
| reach_share_err s L f e s' : reach s0 s L -> f ∈ L -> share f s = (Err e, s') ->
    reach s0 s' L
| reach_drop s L L' f r s' : reach s0 s L -> L ≡ₚ f :: L' -> free f s = (r, s') ->
    reach s0 s' L'.

(** How many of the handles are to frame [n]. *)
Definition occ (n : Z) (L : list FrameAddress) : Z :=
  Z.of_nat (length (filter (fun f => f = frame_at n) L)).

#[global] Instance occ_proper n : Proper ((≡ₚ) ==> (=)) (occ n).
Proof. intros L L' HL. unfold occ. by rewrite HL. Qed.

Lemma occ_cons n m L : occ n (frame_at m :: L) = occ n L + if n =? m then 1 else 0.
Proof.
  unfold occ. rewrite filter_cons. destruct (Z.eqb_spec n m) as [->|Hne].
  - rewrite decide_True by done. simpl. lia.
  - rewrite decide_False; [lia|]. intros ?%frame_at_inj. congruence.
Qed.

Lemma occ_app n L L' : occ n (L ++ L') = occ n L + occ n L'.
Proof. unfold occ. rewrite filter_app, length_app. lia. Qed.

Lemma occ_nonneg n L : 0 <= occ n L.
Proof. unfold occ. lia. Qed.

Lemma occ_zero n L : occ n L = 0 <-> frame_at n ∉ L.
Proof.
  unfold occ. split.
  - intros Hz Hin. assert (frame_at n ∈ filter (fun f => f = frame_at n) L) as Hf
      by (by apply list_elem_of_filter).
    destruct (filter _ L); [by apply not_elem_of_nil in Hf|simpl in Hz; lia].
  - intros Hni. destruct (filter _ L) as [|f l] eqn:E; [done|]. exfalso.
    assert (f ∈ filter (fun f => f = frame_at n) L) as Hf by (rewrite E; left).
    apply list_elem_of_filter in Hf as [-> ?]. done.
Qed.

Lemma frames_from_at n count : frames_from (frame_at n) count =
  (fun i => frame_at (n + i)) <$> seqZ 0 count.
Proof.
  unfold frames_from. apply list_fmap_ext. intros _ i _. f_equal. f_equal.
  unfold FrameAddress_raw. simpl. by rewrite Z.div_mul by done.
Qed.

Lemma occ_frames_from n m count : 0 <= count ->
  occ m (frames_from (frame_at n) count) = if bool_decide (n <= m < n + count) then 1 else 0.
Proof.
  intros Hc. rewrite frames_from_at. replace count with (Z.of_nat (Z.to_nat count)) by lia.
  generalize (Z.to_nat count). clear Hc count. intros k. induction k as [|k IH].
  { rewrite bool_decide_false by lia. done. }
  replace (Z.of_nat (S k)) with (Z.of_nat k + 1) by lia.
  rewrite seqZ_app, fmap_app, occ_app, IH by lia.
  change (seqZ (0 + Z.of_nat k) 1) with [0 + Z.of_nat k]. simpl (_ <$> [_]).
  rewrite occ_cons. unfold occ at 1. simpl.
  case_bool_decide; case_bool_decide; zbool; lia.
Qed.

(** Every handle is to a tracked frame. *)
Definition tracked (cap : Z) (f : FrameAddress) : Prop := exists n, f = frame_at n /\ 0 <= n < cap.

(** The counts are what was booked at the start plus the handles. *)
Definition accounted (s0 s : Inner Bitmap) (L : list FrameAddress) : Prop :=
  inv s /\ number_of_bits (bitmap s) = number_of_bits (bitmap s0) /\
  Forall (tracked (number_of_bits (bitmap s0))) L /\
  forall n, 0 <= n -> rc s n = rc s0 n + occ n L.

Context {HC : ConfigOk}.

Lemma accounted_bound s0 s L n : accounted s0 s L -> 0 <= n < number_of_bits (bitmap s0) ->
  0 <= n <= FrameNumber_MAX.
Proof.
  intros (Hi & Hc & _) Hn. split; [lia|]. apply (covered_number s); [done|]. simpl. lia.
Qed.

Lemma alloc_accounted s0 s L r s' : accounted s0 s L -> alloc s = (r, s') ->
  accounted s0 s' (match r with Ok f => f :: L | _ => L end) /\ alloc_post s s' r.
Proof.
  intros (Hi & Hc & HL & Hrc) E. destruct (wp_run _ _ _ _ _ (alloc_wp s Hi) E) as [Hi' Hp].
  split; [|done]. destruct r as [f|e|]; simpl in Hp; [| |done].
  - destruct Hp as (n & -> & Hn & Hz & Hc' & Hr'). simpl in *. unfold accounted; splits; [done|congruence| |].
    + constructor; [exists n; split; [done|lia]|done].
    + intros m Hm. rewrite Hr', occ_cons by done. unfold upd.
      specialize (Hrc m Hm). zbool; subst; lia.
  - destruct Hp as (_ & [Hc' Hr'] & _). simpl in *. unfold accounted; splits; [done|congruence|done|].
    intros m Hm. rewrite Hr'; auto.
Qed.

Lemma contiguous_accounted s0 s L count r s' : accounted s0 s L -> 0 <= count ->
  alloc_contiguous count s = (r, s') ->
  accounted s0 s' (match r with Ok f => frames_from f count ++ L | _ => L end).
Proof.
  intros (Hi & Hc & HL & Hrc) H0 E.
  destruct (wp_run _ _ _ _ _ (alloc_contiguous_wp s count Hi H0) E) as [Hi' Hp].
  destruct r as [f|e|]; simpl in Hp; [| |done].
  - destruct Hp as (n & -> & Hn & Hcount & Hend & Hz & Hc' & Hr'). simpl in *.
    unfold accounted; splits; [done|congruence| |].
    + apply Forall_app. split; [|done]. rewrite frames_from_at. apply Forall_fmap, Forall_forall.
      intros i Hin%elem_of_seqZ. exists (n + i). split; [done|lia].
    + intros m Hm. rewrite Hr', occ_app, occ_frames_from by done. specialize (Hrc m Hm).
      case_bool_decide as Hb; [|lia]. rewrite Hz in Hrc by done. lia.
  - destruct Hp as [[Hc' Hr'] _]. simpl in *. unfold accounted; splits; [done|congruence|done|].
    intros m Hm. rewrite Hr'; auto.
Qed.

Lemma share_accounted s0 s L f r s' : accounted s0 s L -> f ∈ L -> share f s = (r, s') ->
  accounted s0 s' (match r with Ok _ => f :: L | _ => L end).
Proof.
  intros Ha Hin E. pose proof Ha as (Hi & Hc & HL & Hrc).
  destruct (proj1 (Forall_forall _ _) HL f Hin) as (n & -> & Hn).
  pose proof (accounted_bound _ _ _ _ Ha Hn) as Hb.
  destruct (wp_run _ _ _ _ _ (share_wp s n Hi Hb) E) as [Hi' Hp].
  destruct r as [[]|e|]; simpl in Hp; [|by destruct Hp as [-> _]|done].
  destruct Hp as (_ & Hc' & Hr'). simpl in *. unfold accounted; splits; [done|congruence| |].
  - constructor; [by exists n|done].
  - intros m Hm. rewrite Hr', occ_cons by done. unfold upd. specialize (Hrc m Hm).
    zbool; subst; lia.
Qed.

Lemma drop_accounted s0 s L L' f r s' : inv s0 -> accounted s0 s L -> L ≡ₚ f :: L' ->
  free f s = (r, s') -> accounted s0 s' L' /\ r = Ok tt.
Proof.
  intros Hi0 Ha HP E. pose proof Ha as (Hi & Hc & HL & Hrc).
  assert (f ∈ L) as Hin by (rewrite HP; left). rewrite HP in HL.
  destruct (Forall_inv HL) as (n & -> & Hn). pose proof (accounted_bound _ _ _ _ Ha Hn) as Hb.
  destruct (wp_run _ _ _ _ _ (free_wp s n Hi Hb) E) as [Hi' Hp].
  assert (forall m, 0 <= m -> rc s m = rc s0 m + (occ m L' + if m =? n then 1 else 0)) as Hocc.
  { intros m Hm. by rewrite Hrc, HP, occ_cons. }
  pose proof (inv_rc s0 Hi0 n ltac:(lia)). pose proof (occ_nonneg n L').
  destruct r as [[]|e|]; simpl in Hp.
  - destruct Hp as (_ & Hc' & Hr'). simpl in *. split; [|done]. unfold accounted; splits; [done|congruence| |].
    + by apply Forall_inv_tail in HL.
    + intros m Hm. rewrite Hr' by done. unfold upd. specialize (Hocc m Hm). zbool; subst; lia.
  - exfalso. specialize (Hocc n ltac:(lia)). rewrite Z.eqb_refl in Hocc. lia.
  - done.
Qed.

Lemma reach_accounted s0 s L : inv s0 -> reach s0 s L -> accounted s0 s L.
Proof.
  intros Hi0. induction 1 as [|s L f s' _ IH E|s L e s' _ IH E|s L c f s' _ IH Hc E
    |s L c e s' _ IH Hc E|s L f s' _ IH Hin E|s L f e s' _ IH Hin E|s L L' f r s' _ IH HP E].
  - unfold accounted; splits; [done|done|constructor|]. intros n Hn. unfold occ. simpl. lia.
  - by apply (alloc_accounted _ _ _ _ _ IH) in E as [? _].
  - by apply (alloc_accounted _ _ _ _ _ IH) in E as [? _].
  - by apply (contiguous_accounted _ _ _ _ _ _ IH Hc) in E.
  - by apply (contiguous_accounted _ _ _ _ _ _ IH Hc) in E.
  - by apply (share_accounted _ _ _ _ _ _ IH Hin) in E.
  - by apply (share_accounted _ _ _ _ _ _ IH Hin) in E.
  - by apply (drop_accounted _ _ _ _ _ _ _ Hi0 IH HP) in E as [? _].
Qed.


(** Frames are never handed out twice and never leak: in every reachable
    state [alloc] returns a frame no handle refers to and that was not booked, or
    fails because every tracked frame is booked or held; and giving up a handle
    that is held always succeeds. *)
Theorem frame_alloc_exclusive s0 s L : inv s0 -> reach s0 s L ->
  match (alloc s).1 with
  | Ok f => exists n, f = frame_at n /\ 0 <= n < number_of_bits (bitmap s0) /\
                      rc s0 n = 0 /\ frame_at n ∉ L
  | Err e => code e = OutOfMemory /\
      forall n, 0 <= n < number_of_bits (bitmap s0) -> 1 <= rc s0 n \/ frame_at n ∈ L
  | Panic => False
  end /\
  forall f, f ∈ L -> (free f s).1 = Ok tt.
Proof.
  intros Hi0 Hr. pose proof (reach_accounted _ _ _ Hi0 Hr) as Ha.
  pose proof Ha as (Hi & Hc & _ & Hrc). split.
  - destruct (alloc s) as [r s'] eqn:E.
    destruct (alloc_accounted _ _ _ _ _ Ha E) as [_ Hp].
    destruct r as [f|e|]; simpl in *; [| |done].
    + destruct Hp as (n & -> & Hn & Hz & _). exists n. rewrite Hrc in Hz by lia.
      pose proof (inv_rc s0 Hi0 n ltac:(lia)). pose proof (occ_nonneg n L).
      splits; [done|lia|lia|lia|]. apply occ_zero. lia.
    + destruct Hp as (Hco & _ & Hall). split; [done|]. intros n Hn.
      specialize (Hall n ltac:(lia)). rewrite Hrc in Hall by lia.
      destruct (decide (frame_at n ∈ L)) as [|Hni]; [by right|left].
      apply occ_zero in Hni. lia.
  - intros f Hin. apply elem_of_Permutation in Hin as [L' HP].
    destruct (free f s) as [r s'] eqn:E.
    by destruct (drop_accounted _ _ _ _ _ _ _ Hi0 Ha HP E) as [_ ->].
Qed.

End Handles.

(** ** Examples *)

(** Sixteen frames, none in use. *)
Definition sample_frames : Inner Bitmap :=
  mkInner (mkBitmap 16 0 [0; 0] 0) (replicate 16 0).

Lemma sample_rc n : rc sample_frames n = 0.
Proof.
  unfold rc, sample_frames. cbn [refcount]. destruct (decide (Z.to_nat n < 16)%nat).
  - by rewrite lookup_replicate_2.
  - rewrite lookup_ge_None_2; [done|]. rewrite length_replicate. lia.
Qed.

Lemma sample_frames_inv : @inv sample_config Bitmap _ sample_frames.
Proof.
  pose proof (Bitmap.inv_zeros 2 ltac:(width)) as [Hb Hv].
  split; [exact Hb|done|done| |]; intros n Hn; rewrite sample_rc; [done|].
  change (n ∈ Bitmap.view (bitmap sample_frames) <-> 1 <= 0).
  change (Bitmap.view (bitmap sample_frames) = ∅) in Hv. rewrite Hv, elem_of_empty. lia.
Qed.

(** One frame is allocated and shared. *)
Definition sample_shared : Inner Bitmap :=
  mkInner (mkBitmap 16 1 [1; 0] 1) (2 :: replicate 15 0).

Lemma sample_reach :
  @reach sample_config sample_frames sample_shared [frame_at 0; frame_at 0].
Proof.
  apply (@reach_share sample_config _ (@mkInner Bitmap (mkBitmap 16 1 [1; 0] 1) (1 :: replicate 15 0))).
  - eapply (@reach_alloc sample_config); [apply reach_start|]. vm_compute. reflexivity.
  - left.
  - vm_compute. reflexivity.
Qed.


Lemma frame_alloc_exclusive_witness :
  (@alloc sample_config _ _ sample_shared).1 = Ok (frame_at 1) /\
  (@free Bitmap _ (frame_at 0) sample_shared).1 = Ok tt /\
  frame_at 1 ∉ [frame_at 0; frame_at 0].
Proof.
  destruct (@frame_alloc_exclusive sample_config sample_config_ok sample_frames
    sample_shared _ sample_frames_inv sample_reach) as [Hal Hfree].
  split; [vm_compute; reflexivity|]. split; [apply Hfree; left|].
  destruct Hal as (n & Hn & _ & _ & Hni).
  assert (n = 1) as -> by (apply frame_at_inj; rewrite <- Hn; reflexivity). exact Hni.
Defined.

(** Frames 2 and 3. *)
Definition sample_region : TruncatedMemoryRegion PhysicalAddress :=
  mkMemoryRegion "boot" (fa_inner (frame_at 2)) 8192 Reserved
    (mkAccessPermission ReadAllow WriteDeny ExecuteDeny) None.

Lemma frame_alloc_range_atomic_witness :
  exists s', alloc_range sample_region sample_frames = (Ok tt, s') /\
    rc_becomes sample_frames s' (booked_range sample_frames 2 2).
Proof.
  eexists. split; [vm_compute; reflexivity|].
  refine (proj2 (proj2 (@frame_alloc_range_atomic sample_config sample_config_ok Bitmap _
    sample_frames sample_region 2 2 sample_frames_inv _))).
  split; [reflexivity|]. split; [reflexivity|]. rewrite frame_number_max. lia.
Defined.

End Frame.
