(* ===== verification/Phys.v ===== *)
(** * Physical memory manager

    [kernel/src/mm/phys/manager.rs], [upool.rs], [kframe.rs] and the boot-time
    booking of [mod.rs]: user and kernel frames as handles that free their frame
    when dropped, bulk allocations with roll-back, and the watermark that keeps
    frames in reserve for the kernel.

    Wrapping a frame for kernel use maps it in the kernel page tables.  The tables
    are a component of their own: here they are a type of states with an operation
    that may succeed or fail, [IdentityMap]. *)

From S2P Require Import Prelude Error BitAlloc Bitmap Config Addr Frame.
#[local] Open Scope Z_scope.

(** [mm::virt::identity_map_page], as the frame wrappers see it. *)
Class IdentityMap (P : Type) := {
  identity_map_page : PageAligned PhysicalAddress → M P Error unit;
  identity_map_returns p t : (identity_map_page p t).1 <> Panic
}.

(** The frame allocator, the page tables and the vector a caller passes in. *)
Record PhysState (P : Type) := mkPhysState {
  frames : Inner Bitmap;
  tables : P;
  vec : list FrameAddress
}.
Arguments mkPhysState {P} _ _ _.
Arguments frames {P} _.
Arguments tables {P} _.
Arguments vec {P} _.

Module Phys.

Section Definitions.
Context {CF : Config} {P : Type} {IM : IdentityMap P}.

Definition on_frames {A} (m : M (Inner Bitmap) Error A) : M (PhysState P) Error A :=
  zoom frames (fun f s => mkPhysState f (tables s) (vec s)) m.
Definition on_tables {A} (m : M P Error A) : M (PhysState P) Error A :=
  zoom tables (fun t s => mkPhysState (frames s) t (vec s)) m.
Definition set_vec (v : list FrameAddress) : M (PhysState P) Error unit :=
  modify (fun s => mkPhysState (frames s) (tables s) v).

(** [drop] of [UserFrame] and of [KernelFrame]: errors are logged only. *)
Definition drop_frame (f : FrameAddress) : M (PhysState P) Error unit :=
  on_frames (catch (Frame.free f) (fun _ => mret tt)).

(** Dropping the elements of a vector, in order. *)
Fixpoint drop_frames (fs : list FrameAddress) : M (PhysState P) Error unit :=
  match fs with
  | [] => mret tt
  | f :: fs => drop_frame f;; drop_frames fs
  end.

(** [frames.clear()]. *)
Definition vec_clear : M (PhysState P) Error unit :=
  s ← get; set_vec [];; drop_frames (vec s).
Definition vec_push (f : FrameAddress) : M (PhysState P) Error unit :=
  s ← get; set_vec (vec s ++ [f]).

(** ** User frames *)

Definition upool_alloc : M (PhysState P) Error FrameAddress := on_frames Frame.alloc.

Definition UserFrame_share (f : FrameAddress) : M (PhysState P) Error FrameAddress :=
  on_frames (Frame.share f);; mret f.

Definition check_user_watermark (count : Z) : M (PhysState P) Error unit :=
  match checked_add KERNEL_WATERMARK count with
  | None => fail (mkError InvalidArgument "watermark + count overflow")
  | Some watermark_threshold =>
    free_frames ← on_frames Frame.free_count;
    if free_frames <? watermark_threshold
    then fail (mkError OutOfMemory "would breach kernel watermark")
    else mret tt
  end.

Definition alloc_user_frame : M (PhysState P) Error FrameAddress :=
  check_user_watermark 1;; upool_alloc.

Fixpoint user_frames_loop (n : nat) : M (PhysState P) Error unit :=
  match n with
  | O => mret tt
  | S n =>
    frame ← catch upool_alloc (fun error => vec_clear;; fail error);
    vec_push frame;;
    user_frames_loop n
  end.

(** The checks on the vector a caller passes in. *)
Definition check_vec (capacity count : Z) : M (PhysState P) Error unit :=
  s ← get;
  if negb (bool_decide (vec s = []))
  then fail (mkError InvalidArgument "frames vector is not empty")
  else if capacity <? count
  then fail (mkError InvalidArgument "frames vector has insufficient capacity")
  else mret tt.

Definition alloc_many_user_frames (capacity count : Z) : M (PhysState P) Error unit :=
  check_vec capacity count;;
  if count =? 0 then mret tt
  else
    check_user_watermark count;;
    user_frames_loop (Z.to_nat count).

(** ** Kernel frames *)

Definition KernelFrame_new (base : FrameAddress) : M (PhysState P) Error FrameAddress :=
  phys_addr ← lift (from_raw_value (T:=PageAligned PhysicalAddress) (FrameAddress_raw base));
  on_tables (identity_map_page phys_addr);;
  mret base.

Definition alloc_kernel_frame : M (PhysState P) Error FrameAddress :=
  frame_addr ← on_frames Frame.alloc;
  catch (KernelFrame_new frame_addr)
    (fun e => catch (on_frames (Frame.free frame_addr)) (fun _ => mret tt);; fail e).

(** [for j in j..j + n]: free the frames that were not wrapped. *)
Fixpoint free_unwrapped (n : nat) (base_raw j : Z) : M (PhysState P) Error unit :=
  match n with
  | O => mret tt
  | S n =>
    offset ← lift (usize_mul j PAGE_SIZE);
    leak_raw ← lift (usize_add base_raw offset);
    match FrameAddress_from_raw_value leak_raw with
    | Ok fa => catch (on_frames (Frame.free fa)) (fun _ => mret tt)
    | Err _ => mret tt
    | Panic => panic
    end;;
    free_unwrapped n base_raw (j + 1)
  end.

(** [for i in i..i + n]: wrap the frames, or undo everything. *)
Fixpoint wrap_loop (n : nat) (base_raw i count : Z) : M (PhysState P) Error unit :=
  match n with
  | O => mret tt
  | S n =>
    offset ← lift (usize_mul i PAGE_SIZE);
    raw_addr ← lift (usize_add base_raw offset);
    kf ← catch (fa ← lift (FrameAddress_from_raw_value raw_addr); KernelFrame_new fa)
           (fun e => vec_clear;; free_unwrapped (Z.to_nat (count - i)) base_raw i;; fail e);
    vec_push kf;;
    wrap_loop n base_raw (i + 1) count
  end.

Definition alloc_many_kernel_frames (capacity count : Z) : M (PhysState P) Error unit :=
  check_vec capacity count;;
  base_addr ← on_frames (Frame.alloc_contiguous count);
  wrap_loop (Z.to_nat count) (FrameAddress_raw base_addr) 0 count.

(** ** Boot *)

Fixpoint book_physical_memory_regions (regions : list (TruncatedMemoryRegion PhysicalAddress))
    : M (PhysState P) Error unit :=
  match regions with
  | [] => mret tt
  | region :: regions =>
    on_frames (Frame.alloc_range region);; book_physical_memory_regions regions
  end.

(** [while start < end] of [book_mmio_regions]; [gva_to_gpa] is the identity. *)
Fixpoint book_mmio_pages (fuel : nat) (start past : Z) : M (PhysState P) Error unit :=
  match fuel with
  | O => panic
  | S fuel =>
    if past <=? start then mret tt
    else
      phys ← lift (from_mmio_address (mkVirtualAddress start));
      phys_addr ← lift (PageAligned_from_address phys);
      covered ← on_frames (Frame.is_covered phys_addr);
      (if covered : bool then on_frames (Frame.book phys_addr) else mret tt);;
      start ← lift (usize_add start FRAME_SIZE);
      book_mmio_pages fuel start past
  end.

Fixpoint book_mmio_regions (regions : list (TruncatedMemoryRegion VirtualAddress))
    : M (PhysState P) Error unit :=
  match regions with
  | [] => mret tt
  | region :: regions =>
    let start := into_raw_value (mr_start region) in
    size1 ← lift (usize_sub (mr_size region) 1);
    past ← lift (usize_add start size1);
    book_mmio_pages (Z.to_nat (mr_size region / FRAME_SIZE + 2)) start past;;
    book_mmio_regions regions
  end.

End Definitions.

Section Proofs.
Context {CF : Config} {HC : ConfigOk} {P : Type} {IM : IdentityMap P}.
Implicit Types (s : PhysState P) (x : Inner Bitmap) (f : FrameAddress) (fs L : list FrameAddress).

(** ** Dropping handles *)

Lemma accounted_perm x0 x L L' : L ≡ₚ L' -> Frame.accounted x0 x L -> Frame.accounted x0 x L'.
Proof.
  intros HP (Hi & Hc & HL & Hr). split; [done|]. split; [done|]. split; [by rewrite <- HP|].
  intros n Hn. by rewrite Hr, HP.
Qed.

Lemma accounted_nil x0 x : Frame.accounted x0 x [] ->
  Frame.inv x /\ Frame.rc_becomes x0 x (Frame.rc x0).
Proof.
  intros (Hi & Hc & _ & Hr). split; [done|]. split; [done|]. intros n Hn. rewrite Hr by done.
  unfold Frame.occ. simpl. lia.
Qed.

Lemma free_held x0 s f L L' : Frame.inv x0 -> Frame.accounted x0 (frames s) L -> L ≡ₚ f :: L' ->
  wp (on_frames (Frame.free f)) s (fun r s' => r = Ok tt /\
    Frame.accounted x0 (frames s') L' /\ vec s' = vec s).
Proof.
  intros Hi Ha HP. unfold on_frames. wstep. apply wp_intro. intros r x E.
  by destruct (Frame.drop_accounted _ _ _ _ _ _ _ Hi Ha HP E) as [? ->].
Qed.

Lemma catch_free_held x0 s f L L' : Frame.inv x0 -> Frame.accounted x0 (frames s) L ->
  L ≡ₚ f :: L' ->
  wp (catch (F:=Error) (on_frames (Frame.free f)) (fun _ => mret tt)) s (fun r s' => r = Ok tt /\
    Frame.accounted x0 (frames s') L' /\ vec s' = vec s).
Proof.
  intros Hi Ha HP. wstep. eapply wp_mono; [by eapply free_held|].
  by intros r s' (-> & ? & ?).
Qed.

Lemma drop_frames_wp x0 fs s L L' : Frame.inv x0 -> Frame.accounted x0 (frames s) L ->
  L ≡ₚ fs ++ L' ->
  wp (drop_frames fs) s (fun r s' => r = Ok tt /\
    Frame.accounted x0 (frames s') L' /\ vec s' = vec s).
Proof.
  intros Hi. revert s L. induction fs as [|f fs IH]; intros s L Ha HP; cbn [drop_frames].
  { wstep. splits; [done| |done]. by eapply accounted_perm. }
  wstep. unfold drop_frame, on_frames. wstep. wstep. apply wp_intro. intros r x E.
  destruct (Frame.drop_accounted _ _ _ (fs ++ L') _ _ _ Hi Ha HP E) as [Ha' ->].
  eapply wp_mono; [by eapply IH|]. by intros r s' (-> & ? & ->).
Qed.

Lemma vec_clear_wp x0 s L' : Frame.inv x0 -> Frame.accounted x0 (frames s) (vec s ++ L') ->
  wp vec_clear s (fun r s' => r = Ok tt /\
    Frame.accounted x0 (frames s') L' /\ vec s' = []).
Proof.
  intros Hi Ha. unfold vec_clear, set_vec. do 4 wstep. by eapply drop_frames_wp.
Qed.

(** ** The number of free frames *)

Definition free_frames (x : Inner Bitmap) : Z :=
  number_of_bits (bitmap x) - Z.of_nat (size (Bitmap.view (bitmap x))).

(** Which frames are used follows from the counts. *)
Lemma used_of_rc x y n : Frame.inv x -> Frame.inv y ->
  Frame.rc_becomes x y (Frame.upd (Frame.rc x) n 1) -> 0 <= n -> Frame.rc x n = 0 ->
  free_frames y = free_frames x - 1.
Proof.
  intros Hx Hy [Hc Hr] Hn Hz. unfold free_frames. simpl in Hc. rewrite Hc.
  assert (Bitmap.view (bitmap y) = {[n]} ∪ Bitmap.view (bitmap x)) as ->.
  { apply set_eq. intros m. rewrite elem_of_union, elem_of_singleton.
    destruct (decide (0 <= m)) as [Hm|Hm].
    - pose proof (Frame.inv_used x Hx m Hm) as Hux. pose proof (Frame.inv_used y Hy m Hm) as Huy.
      simpl in Hux, Huy. rewrite Hux, Huy, Hr by done. unfold Frame.upd. zbool; lia.
    - rewrite !Bitmap.elem_of_view. lia. }
  rewrite size_union, size_singleton; [lia|].
  intros m ->%elem_of_singleton Hin. apply (Frame.inv_used x Hx n Hn) in Hin. lia.
Qed.

Lemma free_frames_none x : Frame.inv x ->
  (forall n, 0 <= n < number_of_bits (bitmap x) -> 1 <= Frame.rc x n) -> free_frames x <= 0.
Proof.
  intros Hx Hall. unfold free_frames. pose proof (Bitmap.inv_pos _ (Frame.inv_bitmap x Hx)).
  rewrite <- (size_range 0 (number_of_bits (bitmap x))) at 1 by lia.
  assert (size (range 0 (number_of_bits (bitmap x))) <= size (Bitmap.view (bitmap x)))%nat; [|lia].
  apply subseteq_size. intros n Hn%elem_of_range.
  apply (Frame.inv_used x Hx); [lia|]. apply Hall. lia.
Qed.

Lemma check_user_watermark_wp s count Q : Frame.inv (frames s) -> 0 <= count ->
  (KERNEL_WATERMARK + count <= usize_max -> KERNEL_WATERMARK + count <= free_frames (frames s) ->
     Q (Ok tt) s) ->
  (forall e, usize_max < KERNEL_WATERMARK + count /\ code e = InvalidArgument \/
     free_frames (frames s) < KERNEL_WATERMARK + count /\ code e = OutOfMemory -> Q (Err e) s) ->
  wp (check_user_watermark count) s Q.
Proof.
  intros Hi Hc Hok Herr. unfold check_user_watermark, checked_add.
  destruct (Z.leb_spec (KERNEL_WATERMARK + count) usize_max); [|wstep; apply Herr; by left].
  wstep. unfold on_frames. wstep. apply Frame.free_count_wp; [done|].
  change (ba_cap (bitmap (frames s)) - Z.of_nat (size (ba_used (bitmap (frames s)))))
    with (free_frames (frames s)).
  destruct s as [x t v]. simpl in *.
  destruct (Z.ltb_spec (free_frames x) (KERNEL_WATERMARK + count)); wstep.
  - apply Herr. by right.
  - by apply Hok.
Qed.

(** ** User frames *)

(** The handles in [L] are distinct and to frames that had no owner in [x0]. *)
Definition fresh (x0 : Inner Bitmap) L : Prop :=
  NoDup L /\ Forall (fun f => exists n, f = frame_at n /\ 0 <= n /\ Frame.rc x0 n = 0) L.

Lemma user_frames_loop_wp x0 n s : Frame.inv x0 ->
  Frame.accounted x0 (frames s) (vec s) -> fresh x0 (vec s) ->
  Z.of_nat n <= free_frames (frames s) ->
  wp (user_frames_loop n) s (fun r s' => r = Ok tt /\
    Frame.accounted x0 (frames s') (vec s') /\ fresh x0 (vec s') /\
    length (vec s') = (length (vec s) + n)%nat /\
    free_frames (frames s') = free_frames (frames s) - Z.of_nat n).
Proof.
  intros Hi0. revert s. induction n as [|n IH]; intros s Ha Hf Hfree; cbn [user_frames_loop].
  { wstep. splits; try done; lia. }
  wstep. wstep. unfold upool_alloc, on_frames. wstep. apply wp_intro. intros r x E.
  destruct (Frame.alloc_accounted _ _ _ _ _ Ha E) as [Ha' Hp].
  pose proof Ha as (Hi & Hc & _ & Hrc).
  destruct r as [f|e|]; simpl in Hp; [| |done].
  - destruct Hp as (m & -> & Hm & Hz & Hbec). unfold vec_push, set_vec. do 4 wstep. simpl.
    pose proof (Hrc m ltac:(lia)) as Hrm. rewrite Hz in Hrm.
    pose proof (Frame.inv_rc x0 Hi0 m ltac:(lia)). pose proof (Frame.occ_nonneg m (vec s)).
    destruct Hf as [Hnd Hfr].
    eapply wp_mono; [apply IH; simpl|].
    + eapply accounted_perm; [|exact Ha']. by rewrite Permutation_app_comm.
    + split.
      * apply NoDup_app. splits; [done| |by apply NoDup_singleton].
        intros f Hin ->%list_elem_of_singleton. apply Frame.occ_zero in Hin; [done|lia].
      * apply Forall_app. split; [done|]. constructor; [|done]. exists m. splits; [done|lia|lia].
    + rewrite (used_of_rc (frames s) x m Hi (proj1 Ha') Hbec); lia.
    + simpl. intros r s' (-> & ? & ? & Hlen & Hff). splits; try done.
      * rewrite Hlen, length_app. simpl. lia.
      * rewrite Hff, (used_of_rc (frames s) x m Hi (proj1 Ha') Hbec); lia.
  - exfalso. destruct Hp as (_ & _ & Hall).
    pose proof (free_frames_none (frames s) Hi Hall). lia.
Qed.

(** ** Kernel frames *)

(** Frames [b + i .. b + count - 1]. *)
Definition rest (b i count : Z) : list FrameAddress :=
  (fun j => frame_at (b + j)) <$> seqZ i (count - i).

Lemma rest_cons b i count : i < count ->
  rest b i count = frame_at (b + i) :: rest b (i + 1) count.
Proof.
  intros Hi. unfold rest. rewrite seqZ_cons by lia. simpl.
  do 2 f_equal. unfold Z.succ. f_equal; lia.
Qed.

Lemma rest_nil b count : rest b count count = [].
Proof. unfold rest. by rewrite Z.sub_diag. Qed.

Lemma accounted_number x0 x L b : Frame.accounted x0 x L -> frame_at b ∈ L -> 0 <= b ->
  b * FRAME_SIZE < MEMORY_SIZE.
Proof.
  intros (Hi & Hc & HL & _) Hin Hb.
  destruct (proj1 (Forall_forall _ _) HL _ Hin) as (n & ->%frame_at_inj & Hn).
  pose proof (Frame.inv_cap x Hi) as Hcap. simpl in Hcap. unfold Frame.NFRAMES in Hcap.
  assert (n < MEMORY_SIZE / FRAME_SIZE) as Hlt by lia.
  change FRAME_SIZE with 4096 in *. pose proof (Z.div_mod MEMORY_SIZE 4096 ltac:(lia)).
  pose proof (Z.mod_pos_bound MEMORY_SIZE 4096 ltac:(lia)). lia.
Qed.

(** [base_raw + i * PAGE_SIZE] is the address of the frame. *)
Lemma raw_addr_ok x0 x b i L : Frame.accounted x0 x L -> frame_at (b + i) ∈ L ->
  0 <= b -> 0 <= i ->
  usize_mul (E:=Error) i PAGE_SIZE = Ok (i * PAGE_SIZE) /\
  usize_add (E:=Error) (b * FRAME_SIZE) (i * PAGE_SIZE) = Ok ((b + i) * FRAME_SIZE) /\
  FrameAddress_from_raw_value ((b + i) * FRAME_SIZE) = Ok (frame_at (b + i)) /\
  (b + i) * FRAME_SIZE < MEMORY_SIZE.
Proof.
  intros Ha Hin Hb Hi. pose proof (accounted_number _ _ _ _ Ha Hin ltac:(lia)) as Hlt.
  pose proof memory_size_bound. split; [|split; [|split; [|done]]].
  - apply usize_mul_ok. change PAGE_SIZE with 4096 in *. change FRAME_SIZE with 4096 in *. lia.
  - rewrite usize_add_ok; change FRAME_SIZE with 4096 in *; change PAGE_SIZE with 4096 in *;
      [f_equal; lia|lia].
  - apply frame_from_raw; [lia|done].
Qed.

Lemma KernelFrame_new_wp s n : 0 <= n -> n * FRAME_SIZE < MEMORY_SIZE ->
  wp (KernelFrame_new (frame_at n)) s (fun r s' => frames s' = frames s /\ vec s' = vec s /\
    match r with Ok f => f = frame_at n | Err _ => True | Panic => False end).
Proof.
  intros Hn Hm. unfold KernelFrame_new, on_tables. do 2 wstep.
  assert (from_raw_value (T:=PageAligned PhysicalAddress) (FrameAddress_raw (frame_at n)) =
    Ok (fa_inner (frame_at n))) as ->.
  { pose proof (frame_from_raw n Hn Hm) as E. unfold FrameAddress_from_raw_value in E.
    change (FrameAddress_raw (frame_at n)) with (n * FRAME_SIZE). revert E. simpl.
    unfold mbind, res_bind. repeat case_match; try discriminate. by intros [= <-]. }
  do 2 wstep. apply wp_intro. intros r t E.
  pose proof (identity_map_returns (fa_inner (frame_at n)) (tables s)) as Hnp.
  rewrite E in Hnp. destruct r as [[]|e|]; [by wstep|done|done].
Qed.

Lemma free_unwrapped_wp x0 n s b i count : Frame.inv x0 ->
  Frame.accounted x0 (frames s) (rest b i count) -> 0 <= b -> 0 <= i -> count - i = Z.of_nat n ->
  wp (free_unwrapped n (b * FRAME_SIZE) i) s (fun r s' => r = Ok tt /\
    Frame.accounted x0 (frames s') [] /\ vec s' = vec s).
Proof.
  intros Hi0. revert s i. induction n as [|n IH]; intros s i Ha Hb Hi Hn; cbn [free_unwrapped].
  { wstep. replace i with count in Ha by lia. rewrite rest_nil in Ha. done. }
  rewrite rest_cons in Ha by lia.
  destruct (raw_addr_ok _ _ b i _ Ha ltac:(left) Hb Hi) as (E1 & E2 & E3 & _).
  do 2 wstep. rewrite E1. do 2 wstep. rewrite E2, E3. wstep.
  eapply wp_mono; [eapply catch_free_held; [done|exact Ha|reflexivity]|].
  intros r s' (-> & Ha' & Hv). eapply wp_mono; [apply IH; [done|lia|lia|lia]|].
  intros r2 s2 (-> & ? & Hv2). splits; [done|done|congruence].
Qed.

Lemma wrap_loop_wp x0 n s b i count : Frame.inv x0 ->
  Frame.accounted x0 (frames s) (vec s ++ rest b i count) ->
  0 <= b -> 0 <= i -> count - i = Z.of_nat n ->
  wp (wrap_loop n (b * FRAME_SIZE) i count) s (fun r s' =>
    match r with
    | Ok _ => vec s' = vec s ++ rest b i count /\ Frame.accounted x0 (frames s') (vec s')
    | Err _ => vec s' = [] /\ Frame.accounted x0 (frames s') []
    | Panic => False
    end).
Proof.
  intros Hi0. revert s i. induction n as [|n IH]; intros s i Ha Hb Hi Hn; cbn [wrap_loop].
  { wstep. replace i with count in * by lia. by rewrite rest_nil, app_nil_r in *. }
  pose proof Ha as Ha0. rewrite rest_cons in Ha by lia.
  destruct (raw_addr_ok _ _ b i _ Ha) as (E1 & E2 & E3 & Hlt); [set_solver|done|done|].
  do 2 wstep. rewrite E1. do 2 wstep. rewrite E2. do 4 wstep. rewrite E3.
  eapply wp_mono; [apply KernelFrame_new_wp; [lia|done]|]. intros r s1 (Hf & Hv & Hr).
  destruct r as [f|e|]; [| |done].
  - subst f. unfold vec_push, set_vec. do 4 wstep. eapply wp_mono; [apply IH; [|lia..]|].
    + simpl. rewrite Hf, Hv, <- app_assoc. exact Ha.
    + simpl. rewrite Hv. intros r s2 Hr. destruct r; [|done..].
      rewrite rest_cons by lia. rewrite <- app_assoc in Hr. exact Hr.
  - wstep. eapply wp_mono; [apply (vec_clear_wp x0 s1 (rest b i count)); [done|]|].
    { by rewrite Hf, Hv. }
    intros r s2 (-> & Ha2 & Hv2). wstep.
    eapply wp_mono; [apply (free_unwrapped_wp x0 _ s2 b i count); [done|done|done|done|lia]|].
    intros r s3 (-> & Ha3 & Hv3). wstep. split; [congruence|done].
Qed.

Lemma check_vec_wp s capacity count Q :
  (vec s = [] -> count <= capacity -> Q (Ok tt) s) ->
  (forall e, code e = InvalidArgument -> vec s <> [] \/ capacity < count -> Q (Err e) s) ->
  wp (check_vec capacity count) s Q.
Proof.
  intros Hok Herr. unfold check_vec. do 2 wstep.
  case_bool_decide as Hv; simpl; [|wstep; apply Herr; auto].
  destruct (Z.ltb_spec capacity count); wstep; [apply Herr|apply Hok]; auto.
Qed.

(** Nothing is held at first. *)
Lemma accounted_start x : Frame.inv x -> Frame.accounted x x [].
Proof.
  intros Hi. split; [done|]. split; [done|]. split; [constructor|].
  intros n Hn. unfold Frame.occ. simpl. lia.
Qed.

(** Handles obtained from a state in which [L] were held. *)
Lemma accounted_app x0 x y L L' : Frame.inv x0 -> Frame.accounted x0 x L -> Frame.accounted x y L' ->
  Frame.accounted x0 y (L' ++ L).
Proof.
  intros Hi (Hx & Hc & HL & Hr) (Hy & Hc' & HL' & Hr'). split; [done|]. split; [congruence|]. split.
  - apply Forall_app. split; [|done]. rewrite <- Hc. done.
  - intros n Hn. rewrite Hr', Hr, Frame.occ_app by done. lia.
Qed.

Lemma alloc_many_user_wp x0 s capacity count L : Frame.inv x0 -> Frame.accounted x0 (frames s) L -> vec s = [] ->
  0 < count ->
  wp (alloc_many_user_frames capacity count) s (fun r s' =>
    match r with
    | Ok _ => count <= capacity /\ KERNEL_WATERMARK + count <= free_frames (frames s) /\
        Z.of_nat (length (vec s')) = count /\ fresh (frames s) (vec s') /\
        Frame.accounted (frames s) (frames s') (vec s') /\
        KERNEL_WATERMARK <= free_frames (frames s') /\ Frame.accounted x0 (frames s') (vec s' ++ L)
    | Err e => s' = s /\
        (code e = InvalidArgument /\
           (capacity < count \/ usize_max < KERNEL_WATERMARK + count) \/
         code e = OutOfMemory /\ free_frames (frames s) < KERNEL_WATERMARK + count)
    | Panic => False
    end).
Proof.
  intros Hi0 HL Hv Hc. pose proof HL as (Hi & _). unfold alloc_many_user_frames. wstep. apply check_vec_wp.
  2: { intros e He [?|?]; [done|]. split; [done|]. left. auto. }
  intros _ Hcap. rewrite (proj2 (Z.eqb_neq count 0)) by lia. wstep.
  apply check_user_watermark_wp; [done|lia| |].
  - intros Hov Hfree. eapply wp_mono; [apply (user_frames_loop_wp (frames s)); [done| | |]|].
    + rewrite Hv. by apply accounted_start.
    + rewrite Hv. split; constructor.
    + pose proof watermark_bound. lia.
    + intros r s' (-> & Ha & Hf & Hlen & Hff). rewrite Hv in Hlen. simpl in Hlen.
      splits; try done; [lia|lia|by eapply accounted_app].
  - intros e [[? ?]|[? ?]]; (split; [done|]); [left|right]; auto.
Qed.

(** User allocations respect the reserve of the kernel and are all or
    nothing.  A request for [count] frames succeeds exactly when the vector can
    take them and [count] frames plus the watermark are free; it then yields
    [count] distinct frames without owners, accounts for each of them once, and
    leaves at least the watermark free.  Otherwise nothing at all changes. *)
Theorem alloc_many_user_frames_spec s capacity count :
  Frame.inv (frames s) -> vec s = [] -> 0 < count ->
  wp (alloc_many_user_frames capacity count) s (fun r s' =>
    match r with
    | Ok _ => count <= capacity /\ KERNEL_WATERMARK + count <= free_frames (frames s) /\
        Z.of_nat (length (vec s')) = count /\ fresh (frames s) (vec s') /\
        Frame.accounted (frames s) (frames s') (vec s') /\
        KERNEL_WATERMARK <= free_frames (frames s')
    | Err e => s' = s /\
        (code e = InvalidArgument /\
           (capacity < count \/ usize_max < KERNEL_WATERMARK + count) \/
         code e = OutOfMemory /\ free_frames (frames s) < KERNEL_WATERMARK + count)
    | Panic => False
    end).
Proof.
  intros Hi Hv Hc. eapply wp_mono; [by apply (alloc_many_user_wp (frames s) s capacity count []); [|apply accounted_start|..]|].
  intros r s' H. destruct r; tauto.
Qed.

Lemma alloc_many_kernel_wp x0 s capacity count L : Frame.inv x0 -> Frame.accounted x0 (frames s) L -> vec s = [] ->
  0 <= count ->
  wp (alloc_many_kernel_frames capacity count) s (fun r s' =>
    match r with
    | Ok _ => exists n, 0 <= n /\ n + count <= number_of_bits (bitmap (frames s)) /\
        vec s' = rest n 0 count /\ Frame.accounted (frames s) (frames s') (vec s') /\
        (forall m, n <= m < n + count -> Frame.rc (frames s) m = 0) /\
        Frame.accounted x0 (frames s') (vec s' ++ L)
    | Err _ => vec s' = [] /\ Frame.rc_becomes (frames s) (frames s') (Frame.rc (frames s)) /\
        Frame.accounted x0 (frames s') L
    | Panic => False
    end).
Proof.
  intros Hi0 HL Hv Hc. pose proof HL as (Hi & _). unfold alloc_many_kernel_frames. wstep. apply check_vec_wp.
  2: { intros e He _. split; [done|]. by split. }
  intros _ Hcap. do 1 wstep. unfold on_frames. wstep. apply wp_intro. intros r x E.
  pose proof (Frame.contiguous_accounted _ _ _ _ _ _ (accounted_start _ Hi) Hc E) as Ha.
  destruct (wp_run _ _ _ _ _ (Frame.alloc_contiguous_wp (frames s) count Hi Hc) E) as [Hi' Hp].
  destruct r as [f|e|]; [| |done].
  - destruct Hp as (n & -> & Hn & Hpos & Hend & Hz & _).
    change (FrameAddress_raw (frame_at n)) with (n * FRAME_SIZE).
    eapply wp_mono; [apply (wrap_loop_wp (frames s) _ _ n 0 count); [done| |done|done|lia]|].
    + simpl. rewrite Hv. rewrite Frame.frames_from_at, app_nil_r in Ha.
      unfold rest. by rewrite Z.sub_0_r.
    + simpl. rewrite Hv. intros r s' Hr. destruct r as [[]|e|]; [| |done].
      * destruct Hr as [Hvec Hacc]. exists n. splits; try done. by eapply accounted_app.
      * destruct Hr as [Hvec Hacc]. split; [done|]. split; [by apply accounted_nil|]. by apply (accounted_app x0 (frames s) _ L []).
  - simpl. split; [done|]. split; [by apply accounted_nil|]. by apply (accounted_app x0 (frames s) _ L []).
Qed.

(** Kernel stacks get contiguous frames or nothing: a successful request
    yields the frames [n .. n + count - 1] for some [n], all without owners
    before; if any page cannot be mapped, the frames wrapped so far and those not
    yet wrapped are all given back, and every reference count is as before. *)
Theorem alloc_many_kernel_frames_spec s capacity count :
  Frame.inv (frames s) -> vec s = [] -> 0 <= count ->
  wp (alloc_many_kernel_frames capacity count) s (fun r s' =>
    match r with
    | Ok _ => exists n, 0 <= n /\ n + count <= number_of_bits (bitmap (frames s)) /\
        vec s' = rest n 0 count /\ Frame.accounted (frames s) (frames s') (vec s') /\
        forall m, n <= m < n + count -> Frame.rc (frames s) m = 0
    | Err _ => vec s' = [] /\ Frame.rc_becomes (frames s) (frames s') (Frame.rc (frames s))
    | Panic => False
    end).
Proof.
  intros Hi Hv Hc. eapply wp_mono; [by apply (alloc_many_kernel_wp (frames s) s capacity count []); [|apply accounted_start|..]|].
  intros r s' H. destruct r as [[]|e|]; [|tauto|done]. destruct H as (n & H). exists n. tauto.
Qed.

End Proofs.

(** Page tables that are never touched, or that are full. *)
#[local] Program Instance no_tables : IdentityMap bool := {
  identity_map_page _ := fun full : bool =>
    (if full then Err (mkError OutOfMemory "out of page tables") else Ok tt, full)
}.
Next Obligation. intros _ []; discriminate. Qed.

Lemma alloc_many_user_frames_spec_witness :
  let s := mkPhysState Frame.sample_frames false [] in
  exists s', @alloc_many_user_frames sample_config bool 8 3 s = (Ok tt, s') /\
    vec s' = [frame_at 0; frame_at 1; frame_at 2] /\
    @KERNEL_WATERMARK sample_config <= free_frames (frames s') /\
    (@alloc_many_user_frames sample_config bool 20 15 s).1 =
      Err (mkError OutOfMemory "would breach kernel watermark").
Proof.
  intros s.
  pose proof (@alloc_many_user_frames_spec sample_config sample_config_ok bool s 8 3
    Frame.sample_frames_inv eq_refl ltac:(lia)) as H.
  set (s' := (@alloc_many_user_frames sample_config bool 8 3 s).2). exists s'.
  assert (@alloc_many_user_frames sample_config bool 8 3 s = (Ok tt, s')) as E
    by (vm_compute; reflexivity).
  split; [exact E|]. split; [vm_compute; reflexivity|]. split; [|vm_compute; reflexivity].
  apply (wp_run _ _ _ _ _ H E).
Defined.

Lemma alloc_many_kernel_frames_spec_witness :
  let s := mkPhysState Frame.sample_frames true [] in
  exists s', @alloc_many_kernel_frames sample_config bool _ 4 2 s =
    (Err (mkError OutOfMemory "out of page tables"), s') /\
    vec s' = [] /\ Frame.rc_becomes (frames s) (frames s') (Frame.rc (frames s)).
Proof.
  intros s.
  pose proof (@alloc_many_kernel_frames_spec sample_config sample_config_ok bool _ s 4 2
    Frame.sample_frames_inv eq_refl ltac:(lia)) as H.
  set (s' := (@alloc_many_kernel_frames sample_config bool _ 4 2 s).2). exists s'.
  assert (@alloc_many_kernel_frames sample_config bool _ 4 2 s =
    (Err (mkError OutOfMemory "out of page tables"), s')) as E by (vm_compute; reflexivity).
  split; [exact E|]. exact (wp_run _ _ _ _ _ H E).
Defined.

End Phys.
