(* ===== verification/KMem.v ===== *)
(** * Kernel accesses to physical memory

    [memcpy] and [memset] of [kernel/src/mm/virt/identity_map.rs], the way the
    kernel reads and writes frames: both make sure that the pages they touch are
    identity-mapped, then move the bytes.  Also [KernelFrame::clear] of
    [kernel/src/mm/phys/kframe.rs] and the page-table allocator that the virtual
    memory manager passes around.

    The contents of memory are a function from addresses to bytes.  The switch to
    the kernel page directory and back ([with_kernel_address_space]) changes how
    addresses are translated, not what a physical address holds. *)

From S2P Require Import Prelude Error BitAlloc Bitmap Config Addr Paging Frame Phys.
#[local] Open Scope Z_scope.

(** Physical memory, with its manager. *)
Record MemState (P : Type) := mkMem {
  phys : PhysState P;
  memory : Z → Z
}.
Arguments mkMem {P} _ _.
Arguments phys {P} _.
Arguments memory {P} _ _.

(** [usize::checked_next_multiple_of]. *)
Definition checked_next_multiple_of (x n : Z) : option Z :=
  if x mod n =? 0 then Some x else checked_add x (n - x mod n).

(** What the routines behind [fast_memcpy] and [fast_memset] leave in memory. *)
Definition copy_bytes (dst src size : Z) (m : Z → Z) : Z → Z :=
  fun a => if (dst <=? a) && (a <? dst + size) then m (src + (a - dst)) else m a.
Definition fill_bytes (base value size : Z) (m : Z → Z) : Z → Z :=
  fun a => if (base <=? a) && (a <? base + size) then value else m a.

Module KMem.

Section Definitions.
Context {CF : Config} {P : Type} {IM : IdentityMap P}.

Definition on_phys {A} (m : M (PhysState P) Error A) : M (MemState P) Error A :=
  zoom phys (fun p s => mkMem p (memory s)) m.
Definition on_memory (f : (Z → Z) → Z → Z) : M (MemState P) Error unit :=
  modify (fun s => mkMem (phys s) (f (memory s))).

Definition page_aligned_cover (addr : PhysicalAddress) (size : Z)
    : res Error (PageAligned PhysicalAddress * Z) :=
  if negb (0 <? size) then Panic
  else
    d ← addr_align_down addr PAGE_ALIGNMENT;
    start ← PageAligned_from_address d;
    match checked_add (into_raw_value addr) size with
    | None => Err (mkError BadAddress "physical range overflow")
    | Some exclusive_end =>
      match checked_next_multiple_of exclusive_end PAGE_SIZE with
      | None => Err (mkError BadAddress "aligned end overflow")
      | Some aligned_end =>
        aligned_size ← usize_sub aligned_end (into_raw_value start);
        Ok (start, aligned_size)
      end
    end.

(** [for i in i..i + n]. *)
Fixpoint ensure_pages (n : nat) (start_raw i : Z) : M (PhysState P) Error unit :=
  match n with
  | O => mret tt
  | S n =>
    offset ← lift (usize_mul i PAGE_SIZE);
    raw ← lift (usize_add start_raw offset);
    page_addr ← lift (from_raw_value (T:=PageAligned PhysicalAddress) raw);
    Phys.on_tables (identity_map_page page_addr);;
    ensure_pages n start_raw (i + 1)
  end.

Definition ensure_identity_mapped_range (start : PageAligned PhysicalAddress) (size : Z)
    : M (PhysState P) Error unit :=
  if negb (size mod PAGE_SIZE =? 0) then panic
  else if size =? 0 then mret tt
  else ensure_pages (Z.to_nat (size / PAGE_SIZE)) (into_raw_value start) 0.

(** Both routines prepare their ranges in this way. *)
Definition ensure_range (addr size : Z) : M (PhysState P) Error unit :=
  a ← lift (from_raw_value (T:=PhysicalAddress) addr);
  '(start, aligned_size) ← lift (page_aligned_cover a size);
  ensure_identity_mapped_range start aligned_size.

Definition memcpy (dst src size : Z) : M (MemState P) Error unit :=
  if size =? 0 then mret tt
  else
    match checked_add dst size with
    | None => fail (mkError BadAddress "memcpy(): destination range overflows")
    | Some dst_end =>
      match checked_add src size with
      | None => fail (mkError BadAddress "memcpy(): source range overflows")
      | Some src_end =>
        if ((dst <=? src) && (src <? dst_end)) || ((src <=? dst) && (dst <? src_end))
        then fail (mkError BadAddress "memcpy(): source and destination ranges overlap")
        else
          on_phys (ensure_range src size);;
          on_phys (ensure_range dst size);;
          on_memory (copy_bytes dst src size)
      end
    end.

Definition memset (base value size : Z) : M (MemState P) Error unit :=
  if size =? 0 then mret tt
  else
    match checked_add base size with
    | None => fail (mkError BadAddress "memset(): target range overflows")
    | Some _ =>
      on_phys (ensure_range base size);;
      on_memory (fill_bytes base value size)
    end.

(** [KernelFrame::clear]. *)
Definition KernelFrame_clear (f : FrameAddress) : M (MemState P) Error unit :=
  memset (FrameAddress_raw f) 0 PAGE_SIZE.

(** [page_table_allocator] of [link_user_pages] and [alloc_upages]; a frame that
    cannot be cleared is dropped. *)
Definition page_table_allocator : M (MemState P) Error PageTable :=
  kframe ← on_phys Phys.alloc_kernel_frame;
  catch (KernelFrame_clear kframe) (fun e => on_phys (Phys.drop_frame kframe);; fail e);;
  mret (PageTable.new kframe).

End Definitions.

(** ** Specifications *)

(** After start-up the kernel directory has a table for every page of memory, so
    mapping one more page cannot fail. *)
Class PreMapped {CF : Config} (P : Type) {IM : IdentityMap P} : Prop := {
  identity_map_ok (p : PageAligned PhysicalAddress) (t : P) :
    0 <= into_raw_value p < MEMORY_SIZE -> (identity_map_page p t).1 = Ok tt
}.

Section Proofs.
Context {CF : Config} {HC : ConfigOk} {P : Type} {IM : IdentityMap P}.
Implicit Types (s : MemState P) (p : PhysState P) (L : list FrameAddress).

(** Only the kernel's own page tables have changed. *)
Definition kept_phys p p' : Prop := frames p' = frames p /\ vec p' = vec p.
Definition kept s s' : Prop := kept_phys (phys s) (phys s').

#[global] Instance kept_phys_preorder : PreOrder kept_phys.
Proof. split; [done|]. intros x y z [? ?] [? ?]. split; congruence. Qed.
#[global] Instance kept_preorder : PreOrder kept.
Proof. split; [done|]. intros x y z Hx Hy. unfold kept in *. by etrans. Qed.

Lemma next_multiple_spec x n : 0 <= x -> n = PAGE_SIZE ->
  match checked_next_multiple_of x n with
  | Some y => y mod n = 0 /\ x <= y < x + n /\ (x <= usize_max -> y <= usize_max)
  | None => True
  end.
Proof.
  intros Hx ->. unfold checked_next_multiple_of, checked_add, PAGE_SIZE.
  pose proof (Z.mod_pos_bound x 4096 ltac:(lia)). destruct (Z.eqb_spec (x mod 4096) 0); [lia|].
  zbool; [|done]. split; [|lia].
  replace (x + (4096 - x mod 4096)) with ((x / 4096 + 1) * 4096); [by apply Z.mod_mul|].
  pose proof (Z.div_mod x 4096). lia.
Qed.

Lemma ensure_pages_wp n p start i : 0 <= i -> 0 <= start ->
  start + (i + Z.of_nat n) * PAGE_SIZE <= usize_max ->
  wp (ensure_pages n start i) p (fun r p' => r <> Panic /\ kept_phys p p').
Proof.
  revert p i. induction n as [|n IH]; intros p i Hi Hs Hb; cbn [ensure_pages].
  { wstep. by split. }
  change PAGE_SIZE with 4096 in *. do 2 wstep. rewrite usize_mul_ok by lia. do 2 wstep.
  rewrite usize_add_ok by lia. do 2 wstep.
  destruct (from_raw_value (T:=PageAligned PhysicalAddress) (start + i * 4096)) as [a|e|] eqn:Ea; [|by split|].
  - wstep. unfold Phys.on_tables. wstep. apply wp_intro. intros r t E.
    pose proof (identity_map_returns a (tables p)) as Hr. rewrite E in Hr. simpl in Hr.
    destruct r as [[]|e|]; [|by split|done]. eapply wp_mono; [apply IH; lia|].
    intros r p' [? ?]. split; [done|]. etrans; [|eassumption]. done.
  - exfalso. revert Ea. simpl. unfold from_virtual_address. destruct (negb _); [done|]. simpl.
    unfold PageAligned_from_address. simpl. by destruct (negb _).
Qed.

(** The pages that cover a range. *)
Lemma cover_spec addr size : 0 < size -> 0 <= addr <= usize_max ->
  match page_aligned_cover (mkPhysicalAddress (mkVirtualAddress addr)) size with
  | Ok (start, n) => n mod PAGE_SIZE = 0 /\ 0 <= into_raw_value start <= addr /\
      addr + size <= into_raw_value start + n <= usize_max /\ into_raw_value start mod PAGE_SIZE = 0 /\
      addr - into_raw_value start < PAGE_SIZE /\ into_raw_value start + n < addr + size + PAGE_SIZE
  | Err _ => True
  | Panic => False
  end.
Proof.
  intros Hs Ha. unfold page_aligned_cover. zbool; [|lia]. simpl.
  rewrite align_down_mod by done. change (Alignment_value PAGE_ALIGNMENT) with PAGE_SIZE.
  unfold from_virtual_address. destruct (negb _); [done|]. simpl.
  pose proof (Z.mod_pos_bound addr PAGE_SIZE ltac:(done)) as Hm.
  pose proof (Z.mod_le addr PAGE_SIZE ltac:(lia) ltac:(done)) as Hle.
  assert ((addr - addr mod PAGE_SIZE) mod PAGE_SIZE = 0) as Hz.
  { rewrite Zminus_mod, Z.mod_mod, Z.sub_diag by done. done. }
  rewrite page_aligned_ok; [|done|done]. simpl. unfold checked_add at 1.
  destruct (Z.leb_spec (addr + size) usize_max); [|done].
  pose proof (next_multiple_spec (addr + size) PAGE_SIZE ltac:(lia) eq_refl) as Hn.
  destruct (checked_next_multiple_of (addr + size) PAGE_SIZE) as [y|]; [|done]. destruct Hn as (Hy & Hxy & Hb).
  rewrite usize_sub_ok by lia. simpl. change PAGE_SIZE with 4096 in *. splits; try lia.
  rewrite Zminus_mod, Hy, Hz. done.
Qed.

Lemma ensure_range_wp p addr size : 0 < size -> 0 <= addr <= usize_max ->
  wp (ensure_range addr size) p (fun r p' => r <> Panic /\ kept_phys p p').
Proof.
  intros Hs Ha. unfold ensure_range. do 2 wstep. simpl. unfold from_virtual_address.
  destruct (negb _); [by split|]. do 2 wstep. pose proof (cover_spec addr size Hs Ha) as Hc.
  destruct (page_aligned_cover _ size) as [[start n]|e|]; [|by split|done].
  destruct Hc as (Hm & Hst & Hend & _). unfold ensure_identity_mapped_range. rewrite Hm. simpl.
  destruct (Z.eqb_spec n 0); [wstep; by split|]. apply ensure_pages_wp; [lia|apply Hst|].
  pose proof (Z.div_mod n PAGE_SIZE ltac:(done)). simpl in Hst, Hend. change PAGE_SIZE with 4096 in *.
  rewrite Z2Nat.id by (apply Z.div_pos; lia). simpl. lia.
Qed.

Lemma on_range_wp s addr size (Q : res Error unit → MemState P → Prop) : 0 < size -> 0 <= addr <= usize_max ->
  (forall s', kept s s' -> memory s' = memory s -> Q (Ok tt) s') ->
  (forall e s', kept s s' -> memory s' = memory s -> Q (Err e) s') ->
  wp (on_phys (ensure_range addr size)) s Q.
Proof.
  intros Hs Ha H1 H2. unfold on_phys. wstep. eapply wp_mono; [by apply ensure_range_wp|].
  intros r p' [Hr Hk]. destruct r as [[]|e|]; [apply H1|apply H2|done]; done.
Qed.

Definition disjoint (a b size : Z) : Prop := a + size <= b \/ b + size <= a.

Lemma memcpy_wp s dst src size (Q : res Error unit → MemState P → Prop) :
  0 < size -> 0 <= dst <= usize_max -> 0 <= src <= usize_max ->
  (forall s', disjoint dst src size -> kept s s' -> memory s' = copy_bytes dst src size (memory s) ->
     Q (Ok tt) s') ->
  (forall e s', kept s s' -> memory s' = memory s -> Q (Err e) s') ->
  wp (memcpy dst src size) s Q.
Proof.
  intros Hs Hd Hr H1 H2. unfold memcpy, checked_add. destruct (Z.eqb_spec size 0); [lia|].
  destruct (Z.leb_spec (dst + size) usize_max); [|wstep; by apply H2].
  destruct (Z.leb_spec (src + size) usize_max); [|wstep; by apply H2].
  destruct ((dst <=? src) && (src <? dst + size) || (src <=? dst) && (dst <? src + size)) eqn:Ho;
    [wstep; by apply H2|].
  wstep. apply on_range_wp; [done..| |]; intros; [|by apply H2].
  wstep. apply on_range_wp; [done..| |]; intros.
  - unfold on_memory. wstep. apply H1; [|by etrans|simpl; congruence].
    unfold disjoint. apply orb_false_iff in Ho as [Ho1 Ho2]. rewrite andb_false_iff in Ho1, Ho2. lia.
  - apply H2; [by etrans|congruence].
Qed.

Lemma memset_wp s base value size (Q : res Error unit → MemState P → Prop) :
  0 < size -> 0 <= base <= usize_max ->
  (forall s', kept s s' -> memory s' = fill_bytes base value size (memory s) -> Q (Ok tt) s') ->
  (forall e s', kept s s' -> memory s' = memory s -> Q (Err e) s') ->
  wp (memset base value size) s Q.
Proof.
  intros Hs Hb H1 H2. unfold memset, checked_add. destruct (Z.eqb_spec size 0); [lia|].
  destruct (Z.leb_spec (base + size) usize_max); [|wstep; by apply H2].
  wstep. apply on_range_wp; [done..| |]; intros; [|by apply H2].
  unfold on_memory. wstep. apply H1; [done|simpl; congruence].
Qed.

(** ** Frames *)

(** A frame nobody else refers to. *)
Definition new_frame (x0 : Inner Bitmap) L (n : Z) : Prop :=
  0 <= n <= FrameNumber_MAX /\ n * FRAME_SIZE < MEMORY_SIZE /\ Frame.rc x0 n = 0 /\ frame_at n ∉ L.

Lemma alloc_frame_wp x0 p L (Q : res Error FrameAddress → PhysState P → Prop) : Frame.inv x0 ->
  Frame.accounted x0 (frames p) L ->
  (forall n p', new_frame x0 L n -> Frame.accounted x0 (frames p') (frame_at n :: L) -> vec p' = vec p ->
     Q (Ok (frame_at n)) p') ->
  (forall e p', Frame.accounted x0 (frames p') L -> vec p' = vec p -> Q (Err e) p') ->
  wp (Phys.on_frames Frame.alloc) p Q.
Proof.
  intros Hi0 Ha H1 H2. unfold Phys.on_frames. wstep. apply wp_intro. intros r x E.
  destruct (Frame.alloc_accounted _ _ _ _ _ Ha E) as [Ha' Hp]. pose proof Ha as (Hi & Hc & _ & Hrc).
  destruct r as [f|e|]; simpl in Hp; [|by apply H2|done].
  destruct Hp as (n & -> & Hn & Hz & _). apply H1; [|done..]. rewrite Hrc in Hz by lia.
  pose proof (Frame.inv_rc x0 Hi0 n ltac:(lia)). pose proof (Frame.occ_nonneg n L). simpl in Hn.
  split; [eapply Frame.accounted_bound; [exact Ha|lia]|]. splits; [|lia|apply Frame.occ_zero; lia].
  eapply Phys.accounted_number; [exact Ha'|left|lia].
Qed.

Lemma alloc_user_frame_wp x0 p L (Q : res Error FrameAddress → PhysState P → Prop) : Frame.inv x0 ->
  Frame.accounted x0 (frames p) L ->
  (forall n p', new_frame x0 L n -> Frame.accounted x0 (frames p') (frame_at n :: L) -> vec p' = vec p ->
     Q (Ok (frame_at n)) p') ->
  (forall e p', Frame.accounted x0 (frames p') L -> vec p' = vec p -> Q (Err e) p') ->
  wp Phys.alloc_user_frame p Q.
Proof.
  intros Hi0 Ha H1 H2. unfold Phys.alloc_user_frame. wstep.
  apply Phys.check_user_watermark_wp; [apply Ha|lia| |by intros; apply H2].
  intros _ _. by eapply alloc_frame_wp.
Qed.

Lemma alloc_kernel_frame_wp x0 p L (Q : res Error FrameAddress → PhysState P → Prop) : Frame.inv x0 ->
  Frame.accounted x0 (frames p) L ->
  (forall n p', new_frame x0 L n -> Frame.accounted x0 (frames p') (frame_at n :: L) -> vec p' = vec p ->
     Q (Ok (frame_at n)) p') ->
  (forall e p', Frame.accounted x0 (frames p') L -> vec p' = vec p -> Q (Err e) p') ->
  wp Phys.alloc_kernel_frame p Q.
Proof.
  intros Hi0 Ha H1 H2. unfold Phys.alloc_kernel_frame. wstep. eapply alloc_frame_wp; [done..| |done].
  intros n p' Hn Ha' Hv. wstep. pose proof Hn as (Hb & Hm & _).
  eapply wp_mono; [apply Phys.KernelFrame_new_wp; [lia|done]|]. intros r p2 (Hf & Hv2 & Hr).
  rewrite <- Hf in Ha'. rewrite <- Hv2 in Hv. destruct r as [f|e|]; [subst f; by apply H1| |done].
  wstep. eapply wp_mono; [eapply (Phys.catch_free_held x0 p2); [done|exact Ha'|done]|].
  intros r p3 (-> & Ha3 & Hv3). wstep. apply H2; [done|congruence].
Qed.

Lemma drop_frame_wp x0 p f L L' (Q : res Error unit → PhysState P → Prop) : Frame.inv x0 ->
  Frame.accounted x0 (frames p) L -> L ≡ₚ f :: L' ->
  (forall p', Frame.accounted x0 (frames p') L' -> vec p' = vec p -> Q (Ok tt) p') ->
  wp (Phys.drop_frame f) p Q.
Proof.
  intros Hi Ha HP HQ. unfold Phys.drop_frame, Phys.on_frames. wstep. wstep. apply wp_intro. intros r x E.
  destruct (Frame.drop_accounted _ _ _ _ _ _ _ Hi Ha HP E) as [? ->]. by apply HQ.
Qed.

Lemma frame_raw n : FrameAddress_raw (frame_at n) = n * FRAME_SIZE.
Proof. done. Qed.

Lemma new_frame_raw x0 L n : new_frame x0 L n -> 0 <= n * FRAME_SIZE <= usize_max.
Proof. intros (? & ? & _). pose proof memory_size_bound. change FRAME_SIZE with 4096 in *. lia. Qed.

(** What the callers of the allocators know of the state afterwards. *)
Record held (x0 : Inner Bitmap) L s s' : Prop := {
  held_frames : Frame.accounted x0 (frames (phys s')) L;
  held_vec : vec (phys s') = vec (phys s)
}.

Lemma held_kept x0 L s1 s2 s3 : held x0 L s1 s2 -> kept s2 s3 -> held x0 L s1 s3.
Proof. intros [? ?] [Hf Hv]. split; [by rewrite Hf|congruence]. Qed.

Lemma page_table_allocator_wp x0 s L (Q : res Error PageTable → MemState P → Prop) : Frame.inv x0 ->
  Frame.accounted x0 (frames (phys s)) L ->
  (forall n s', new_frame x0 L n -> held x0 (frame_at n :: L) s s' ->
     memory s' = fill_bytes (n * FRAME_SIZE) 0 PAGE_SIZE (memory s) -> Q (Ok (PageTable.new (frame_at n))) s') ->
  (forall e s', held x0 L s s' -> memory s' = memory s -> Q (Err e) s') ->
  wp page_table_allocator s Q.
Proof.
  intros Hi0 Ha H1 H2. unfold page_table_allocator, on_phys. do 2 wstep.
  eapply alloc_kernel_frame_wp; [done..| |].
  - intros n p' Hn Ha' Hv. do 2 wstep. unfold KernelFrame_clear. rewrite frame_raw.
    apply memset_wp; [done|by eapply new_frame_raw| |].
    + intros s' Hk Hm. wstep. eapply H1; [done| |done]. by eapply held_kept; [|exact Hk].
    + intros e s' [Hf Hv'] Hm. do 2 wstep. simpl in Hf, Hv', Hm. eapply drop_frame_wp; [done|by rewrite Hf|done|].
      intros p2 Ha2 Hv2. wstep. apply H2; [|done]. split; simpl; congruence.
  - intros e p' Ha' Hv. by apply H2.
Qed.

End Proofs.

End KMem.
