(* ===== verification/UserSpace.v ===== *)
(** * The user part of the address range

    The constants of [libs/config] that bound the user part of every address space
    and the tests of [kernel/src/mm/virt/vmem.rs] on it, with the user stacks of
    [kernel/src/mm/ustack.rs]. *)

From S2P Require Import Prelude Error Addr Config.
#[local] Open Scope Z_scope.

(** [kernel/src/mm/ustack.rs]: a user stack is its base address. *)
Record UserStack := mkUserStack { us_base : PageAligned VirtualAddress }.

Definition USER_STACK_SIZE : Z := 4 * 1024 * 1024.
Definition USER_STACK_MIN_SIZE : Z := 32 * 1024.

(** [UserStack::top]: the addition and the conversion may panic. *)
Definition us_top (u : UserStack) : res Error (PageAligned VirtualAddress) :=
  t ← usize_add (into_raw_value (us_base u)) USER_STACK_SIZE;
  match from_raw_value t with Ok a => Ok a | _ => Panic end.

(** ** The user address range *)

Definition USER_BASE_RAW : Z := 0x40000000.
Definition USER_END_RAW : Z := 0xf0000000.
Definition USER_STACK_TOP_RAW : Z := USER_END_RAW - USER_STACK_SIZE.

Definition is_user_addr (a : VirtualAddress) : bool :=
  (USER_BASE_RAW <=? va_raw a) && (va_raw a <? USER_END_RAW).

Definition is_user_region (start : VirtualAddress) (size : Z) : bool :=
  if size =? 0 then false
  else
    match checked_add (va_raw start) (size - 1) with
    | Some e => is_user_addr start && is_user_addr (mkVirtualAddress e)
    | None => false
    end.

(** Every byte of a user region is a user address. *)
Lemma is_user_region_spec start size : 0 <= size ->
  is_user_region start size = true <->
  0 < size /\ USER_BASE_RAW <= va_raw start /\ va_raw start + size <= USER_END_RAW.
Proof.
  intros Hs. unfold is_user_region, checked_add, is_user_addr, USER_BASE_RAW, USER_END_RAW, usize_max.
  destruct (Z.eqb_spec size 0); [split; [done|lia]|].
  destruct (Z.leb_spec (va_raw start + (size - 1)) (2 ^ 32 - 1)); [|split; [done|lia]].
  cbn [va_raw]. rewrite !andb_true_iff. lia.
Qed.
