(* ===== verification/AddrSpace.v ===== *)
(** * Address spaces

    [kernel/src/mm/virt/vmem.rs]: an address space is a page directory with the
    list of the user page tables it points to.  This file holds the operations; what
    they do to the mappings of an address space is proved in [Mappings.v], copying
    between address spaces and the kernel in [UserCopy.v].

    The tables of the kernel are shared by reference between all address spaces and
    outlive them; an address space keeps their addresses.  The routines that change
    kernel mappings ([map_kpage], [kctrl]) are not part of the model. *)

From S2P Require Import Prelude Error BitAlloc Bitmap Config Addr Paging Frame Phys KMem UserSpace.
#[local] Open Scope Z_scope.

Definition RDONLY : AccessPermission := mkAccessPermission ReadAllow WriteDeny ExecuteDeny.

(** Where the words of a page directory live: in the image of the kernel, or in a
    kernel page that is freed with the directory. *)
Inductive PageDirectoryStorage :=
| Bss (base : FrameAddress)
| KernelPage (kframe : FrameAddress).

Definition storage_base (st : PageDirectoryStorage) : FrameAddress :=
  match st with Bss base => base | KernelPage kframe => kframe end.

Record Vmem := mkVmem {
  pgdir : PageDirectory;
  pgdir_storage : PageDirectoryStorage;
  kernel_page_tables : list (PageTableAddress * FrameAddress);
  kernel_pages : list FrameAddress;
  private_kernel_pages : list FrameAddress;
  user_page_tables : list (PageTableAddress * PageTable)
}.

(** What [sync_kernel_pdes] reads of the kernel's page tables: the directory, once
    the identity map has been set up. *)
Class KernelDirectory (P : Type) := {
  kernel_pd : P → option PageDirectory;
  kernel_pd_ok t pd : kernel_pd t = Some pd -> pd_ok pd
}.

#[export] Instance PageTableAddress_eq_dec : EqDecision PageTableAddress.
Proof.
  intros [[x]] [[y]]. destruct (decide (x = y)) as [->|]; [by left|right; congruence].
Defined.

Module Vmem.

Section Definitions.
Context {CF : Config} {P : Type} {IM : IdentityMap P} {KD : KernelDirectory P}.

(** Code that works on an address space and on memory. *)
Definition V (A : Type) : Type := M (Vmem * MemState P) Error A.

Definition on_vmem {A} (m : M Vmem Error A) : V A := zoom fst (fun v s => (v, s.2)) m.
Definition on_mem {A} (m : M (MemState P) Error A) : V A := zoom snd (fun x s => (s.1, x)) m.

Definition set_tables (l : list (PageTableAddress * PageTable)) (v : Vmem) : Vmem :=
  mkVmem (pgdir v) (pgdir_storage v) (kernel_page_tables v) (kernel_pages v)
    (private_kernel_pages v) l.
Definition set_pgdir (pd : PageDirectory) (v : Vmem) : Vmem :=
  mkVmem pd (pgdir_storage v) (kernel_page_tables v) (kernel_pages v) (private_kernel_pages v)
    (user_page_tables v).
Definition on_pgdir {A} (m : M PageDirectory Error A) : M Vmem Error A := zoom pgdir set_pgdir m.

(** ** Creation *)

(** [for entry in from.kernel_page_tables.iter()] of [clone]. *)
Fixpoint map_kernel_tables (l : list (PageTableAddress * FrameAddress))
    : M PageDirectory Error unit :=
  match l with
  | [] => mret tt
  | (vaddr, base) :: l =>
    page_table_address ← lift (FrameAddress_from_raw_value (FrameAddress_raw base));
    PageDirectory.map vaddr page_table_address false RDWR;;
    map_kernel_tables l
  end.

(** The table address of [paging::pd_index(i * PGTAB_SIZE)]. *)
Definition pde_address (i : Z) : PageTableAddress :=
  mkPageTableAligned (mkVirtualAddress (i * PGTAB_SIZE)).

Definition read_or_fail (pd : PageDirectory) (a : PageTableAddress) : res Error PageDirectoryEntry :=
  o ← PageDirectory.read_pde pd a;
  match o with Some pde => Ok pde | None => Err (mkError InvalidArgument "invalid PDE index") end.

(** [for i in i..i + n] of [sync_kernel_pdes]. *)
Fixpoint sync_pdes (n : nat) (i : Z) (kernel : PageDirectory) : M PageDirectory Error unit :=
  match n with
  | O => mret tt
  | S n =>
    kernel_pde ← lift (read_or_fail kernel (pde_address i));
    (if PageDirectoryEntry.is_present kernel_pde then
       target ← get;
       target_pde ← lift (read_or_fail target (pde_address i));
       if PageDirectoryEntry.is_present target_pde then mret tt
       else PageDirectory.write_pde (pde_address i) kernel_pde
     else mret tt);;
    sync_pdes n (i + 1) kernel
  end.

Definition sync_kernel_pdes (t : P) : M PageDirectory Error unit :=
  match kernel_pd t with
  | None => mret tt
  | Some kernel => sync_pdes (Z.to_nat (MEMORY_SIZE / PGTAB_SIZE)) 0 kernel
  end.

(** [Vmem::clone]: the page of the directory is dropped when it fails. *)
Definition clone (from : Vmem) (pgdir_page : FrameAddress) : M (MemState P) Error Vmem :=
  s ← get;
  let fill : M PageDirectory Error unit :=
    map_kernel_tables (kernel_page_tables from);;
    pd ← get;
    lift (PageDirectory.physical_address pd);;
    sync_kernel_pdes (tables (phys s)) in
  let '(r, pd) := fill (PageDirectory.new pgdir_page) in
  catch (lift r) (fun e => KMem.on_phys (Phys.drop_frame pgdir_page);; fail e);;
  mret (mkVmem pd (KernelPage pgdir_page) (kernel_page_tables from) (kernel_pages from) [] []).

(** ** Looking up *)

(** [for (addr, page_table) in self.user_page_tables.iter()]: the table found. *)
Fixpoint find_table (l : list (PageTableAddress * PageTable)) (a : PageTableAddress)
    : option PageTable :=
  match l with
  | [] => None
  | (addr, pt) :: l => if decide (addr = a) then Some pt else find_table l a
  end.

(** The address of the page table of a page. *)
Definition table_address (vaddr : PageAddress) : res Error PageTableAddress :=
  from_raw_value (align_down (into_raw_value vaddr) PGTAB_ALIGNMENT).

(** [cursor.remove_current()]: the first entry at [a], and the others. *)
Fixpoint remove_table (l : list (PageTableAddress * PageTable)) (a : PageTableAddress)
    : option ((PageTableAddress * PageTable) * list (PageTableAddress * PageTable)) :=
  match l with
  | [] => None
  | (addr, pt) :: l =>
    if decide (addr = a) then Some ((addr, pt), l)
    else match remove_table l a with
         | Some (found, rest) => Some (found, (addr, pt) :: rest)
         | None => None
         end
  end.

(** The table is moved to the front of the list, where [on_front] works on it. *)
Definition lookup_user_page_table (pt_vaddr : PageTableAddress) : M Vmem Error unit :=
  v ← get;
  match remove_table (user_page_tables v) pt_vaddr with
  | Some (entry, rest) => put (set_tables (entry :: rest) v)
  | None => fail (mkError NoSuchEntry "page table not found")
  end.

Definition on_front {A} (m : M PageTable Error A) : M Vmem Error A :=
  v ← get;
  match user_page_tables v with
  | (a, pt) :: l => zoom (fun _ => pt) (fun pt' v => set_tables ((a, pt') :: l) v) m
  | [] => panic
  end.

Definition find_user_frame (v : Vmem) (vaddr : PageAddress) : res Error FrameAddress :=
  pgtab_addr ← table_address vaddr;
  match find_table (user_page_tables v) pgtab_addr with
  | Some page_table => (PageTable.lookup vaddr page_table).1
  | None => Err (mkError NoSuchEntry "page not found")
  end.

Definition try_find_user_frame (v : Vmem) (vaddr : PageAddress) : res Error (option FrameAddress) :=
  pgtab_addr ← table_address vaddr;
  match find_table (user_page_tables v) pgtab_addr with
  | Some page_table =>
    present ← (PageTable.is_page_present vaddr page_table).1;
    if present : bool then Some <$> (PageTable.lookup vaddr page_table).1 else Ok None
  | None => Ok None
  end.

Definition try_find_user_pte (v : Vmem) (vaddr : PageAddress) : res Error (option PageTableEntry) :=
  pgtab_addr ← table_address vaddr;
  match find_table (user_page_tables v) pgtab_addr with
  | Some page_table => PageTable.read_pte_at page_table vaddr
  | None => Ok None
  end.

Definition is_user_page_mapped (v : Vmem) (vaddr : PageAddress) : res Error bool :=
  if negb (is_user_addr (pg_inner vaddr)) then Err (mkError BadAddress "address is not in user space")
  else o ← try_find_user_frame v vaddr; Ok (bool_decide (is_Some o)).

(** [for_each_user_mapping]; the callback has a state of its own. *)
Fixpoint for_each_pte {S} (base : Z) (l : list (nat * PageTableEntry))
    (f : PageAddress → PageTableEntry → M S Error unit) : M S Error unit :=
  match l with
  | [] => mret tt
  | (pte_idx, pte) :: l =>
    match checked_mul (Z.of_nat pte_idx) PAGE_SIZE with
    | None => fail (mkError BadAddress "pte offset overflow")
    | Some offset =>
      match checked_add base offset with
      | None => fail (mkError BadAddress "user mapping vaddr overflow")
      | Some raw_vaddr =>
        vaddr ← lift (from_raw_value (T:=PageAddress) raw_vaddr);
        f vaddr pte;;
        for_each_pte base l f
      end
    end
  end.

Fixpoint for_each_table {S} (l : list (PageTableAddress * PageTable))
    (f : PageAddress → PageTableEntry → M S Error unit) : M S Error unit :=
  match l with
  | [] => mret tt
  | (pgtab_addr, page_table) :: l =>
    for_each_pte (into_raw_value pgtab_addr) (PageTable.iter_present_ptes page_table) f;;
    for_each_table l f
  end.

Definition for_each_user_mapping {S} (v : Vmem) (f : PageAddress → PageTableEntry → M S Error unit)
    : M S Error unit := for_each_table (user_page_tables v) f.

(** ** Mapping and unmapping *)

(** The page table at [pgtable_vaddr], made when it does not exist yet. *)
Definition ensure_user_table (pgtable_vaddr : PageTableAddress) : V unit :=
  pde ← on_vmem (on_pgdir (PageDirectory.the_pde pgtable_vaddr));
  if PageDirectoryEntry.is_present pde then mret tt
  else
    page_table ← on_mem KMem.page_table_allocator;
    catch
      (page_table_address ← lift (PageTable.physical_address page_table);
       on_vmem (on_pgdir (PageDirectory.map pgtable_vaddr page_table_address false RDWR)))
      (fun e => on_mem (KMem.on_phys (Phys.drop_frame (pt_base page_table)));; fail e);;
    on_vmem (modify (fun v => set_tables ((pgtable_vaddr, page_table) :: user_page_tables v) v)).

(** [Vmem::map]: the frame is dropped on every error and owned by the table otherwise. *)
Definition map (uframe : FrameAddress) (vaddr : PageAddress) (access : AccessPermission) : V unit :=
  catch
    (if negb (is_user_addr (pg_inner vaddr))
     then fail (mkError BadAddress "address is not in user space")
     else
       pgtable_vaddr ← lift (table_address vaddr);
       ensure_user_table pgtable_vaddr;;
       on_vmem (lookup_user_page_table pgtable_vaddr);;
       on_vmem (on_front (PageTable.map vaddr uframe false false true access)))
    (fun e => on_mem (KMem.on_phys (Phys.drop_frame uframe));; fail e).

(** Take the table at [a] out of the list and the directory, and drop it. *)
Definition release_table (a : PageTableAddress) : V unit :=
  v ← on_vmem get;
  match remove_table (user_page_tables v) a with
  | None => panic
  | Some ((_, page_table), rest) =>
    on_vmem (put (set_tables rest v));;
    let drop := on_mem (KMem.on_phys (Phys.drop_frame (pt_base page_table))) in
    catch (on_vmem (on_pgdir (PageDirectory.unmap a))) (fun e => drop;; fail e);;
    drop
  end.

(** [Vmem::unmap]: the frame of the page, which the caller now owns. *)
Definition unmap (vaddr : PageAddress) : V (option FrameAddress) :=
  if negb (is_user_addr (pg_inner vaddr))
  then fail (mkError BadAddress "address is not in user space")
  else
    v ← on_vmem get;
    found ← lift (try_find_user_frame v vaddr);
    match found with
    | None => mret None
    | Some frame_address =>
      pgtable_vaddr ← lift (table_address vaddr);
      pde ← on_vmem (on_pgdir (PageDirectory.the_pde pgtable_vaddr));
      if negb (PageDirectoryEntry.is_present pde)
      then fail (mkError NoSuchEntry "page table not present")
      else
        on_vmem (lookup_user_page_table pgtable_vaddr);;
        f ← on_vmem (on_front (PageTable.lookup vaddr));
        if negb (bool_decide (f = frame_address)) then panic
        else
          on_vmem (on_front (PageTable.unmap vaddr));;
          n ← on_vmem (on_front (pt ← get; mret (nmapped pt)));
          (if n =? 0 then release_table pgtable_vaddr else mret tt);;
          mret (Some frame_address)
    end.

(** [Vmem::uctrl]. *)
Definition uctrl (vaddr : PageAddress) (access : AccessPermission) : M Vmem Error unit :=
  if negb (is_user_addr (pg_inner vaddr))
  then fail (mkError BadAddress "address is not in user space")
  else
    pgtable_vaddr ← lift (table_address vaddr);
    pde ← on_pgdir (PageDirectory.the_pde pgtable_vaddr);
    if negb (PageDirectoryEntry.is_present pde)
    then fail (mkError NoSuchEntry "page table not present")
    else
      lookup_user_page_table pgtable_vaddr;;
      on_front (PageTable.ctrl false vaddr access).

(** [Drop for Vmem]: the user page tables, the private pages and the directory go;
    what the kernel shares stays. *)
Definition drop (v : Vmem) : M (MemState P) Error unit :=
  KMem.on_phys (Phys.drop_frames ((fun t => pt_base t.2) <$> user_page_tables v));;
  KMem.on_phys (Phys.drop_frames (private_kernel_pages v));;
  match pgdir_storage v with
  | Bss _ => mret tt
  | KernelPage kframe => KMem.on_phys (Phys.drop_frame kframe)
  end.

(** ** Copy-on-write *)

(** [mark_user_page_cow], [unmark_user_page_cow] and [replace_user_page_cow_frame]
    find the table in the same way. *)
Definition on_user_table {A} (vaddr : PageAddress) (m : M PageTable Error A) : M Vmem Error A :=
  if negb (is_user_addr (pg_inner vaddr))
  then fail (mkError BadAddress "address is not in user space")
  else
    pgtable_vaddr ← lift (table_address vaddr);
    lookup_user_page_table pgtable_vaddr;;
    on_front m.

Definition mark_user_page_cow (vaddr : PageAddress) : M Vmem Error unit :=
  on_user_table vaddr (PageTable.mark_cow vaddr).
Definition unmark_user_page_cow (vaddr : PageAddress) : M Vmem Error unit :=
  on_user_table vaddr (PageTable.unmark_cow vaddr).
Definition replace_user_page_cow_frame (vaddr : PageAddress) (new_frame : FrameAddress)
    : M Vmem Error FrameAddress :=
  on_user_table vaddr (PageTable.replace_cow_frame vaddr new_frame).

(** [PageTableEntry::frame_address]. *)
Definition pte_frame_address (pte : PageTableEntry) : res Error Z :=
  usize_mul (fn_raw (pte_frame pte)) PAGE_SIZE.

Definition resolve_cow_at (vaddr : PageAddress) : V bool :=
  if negb (is_user_addr (pg_inner vaddr)) then mret false
  else
    v ← on_vmem get;
    found ← lift (try_find_user_pte v vaddr);
    match found with
    | None => mret false
    | Some pte =>
      if negb (PageTableEntry.is_cow pte) then mret false
      else
        src_frame ← lift (FrameAddress_from_frame_number (pte_frame pte));
        refcount ← on_mem (KMem.on_phys (Phys.on_frames (Frame.refcount_of src_frame)));
        if refcount =? 1 then on_vmem (unmark_user_page_cow vaddr);; mret true
        else
          new_frame ← on_mem (KMem.on_phys Phys.alloc_user_frame);
          old_frame ← catch
            (src_paddr ← lift (pte_frame_address pte);
             on_mem (KMem.memcpy (FrameAddress_raw new_frame) src_paddr PAGE_SIZE);;
             on_vmem (replace_user_page_cow_frame vaddr new_frame))
            (fun e => on_mem (KMem.on_phys (Phys.drop_frame new_frame));; fail e);
          on_mem (KMem.on_phys (Phys.drop_frame old_frame));;
          mret true
    end.

(** The loop of [resolve_cow_for_region], over at most [fuel] pages. *)
Fixpoint resolve_pages (fuel : nat) (page last_page : Z) : V unit :=
  match fuel with
  | O => panic
  | S fuel =>
    vaddr ← lift (from_raw_value (T:=PageAddress) page);
    resolve_cow_at vaddr;;
    if page =? last_page then mret tt
    else
      match checked_add page PAGE_SIZE with
      | None => fail (mkError BadAddress "resolve_cow_for_region: page overflow")
      | Some page => resolve_pages fuel page last_page
      end
  end.

Definition resolve_cow_for_region (addr : VirtualAddress) (size : Z) : V unit :=
  if size =? 0 then mret tt
  else
    let start := align_down (va_raw addr) PAGE_ALIGNMENT in
    match checked_add (va_raw addr) (size - 1) with
    | None => fail (mkError BadAddress "resolve_cow_for_region: overflow")
    | Some end_inclusive =>
      resolve_pages (Z.to_nat (size / PAGE_SIZE + 2)) start (align_down end_inclusive PAGE_ALIGNMENT)
    end.

(** [Vmem::memset] fills a page. *)
Definition memset (dst : PageAddress) (value : Z) : V unit :=
  v ← on_vmem get;
  uframe ← lift (find_user_frame v dst);
  on_mem (KMem.memset (FrameAddress_raw uframe) (value mod 256) PAGE_SIZE).

End Definitions.

End Vmem.
