(* ===== verification/IdentityMap.v ===== *)
(** * The identity map of the kernel

    [kernel/src/mm/virt/identity_map.rs] and [page_table_allocator.rs]: the kernel
    reaches physical memory through a directory and page tables of its own, which map
    pages to themselves.  The tables come from a pool in the image of the kernel; [init]
    takes one for every part of memory at boot, and [identity_map_page] enters a page
    when it is first used.

    The directory and the tables are overlapping views of one array of words, which is
    indexed by physical address here.  The end of the file makes the map an instance of
    the interfaces [IdentityMap], [KernelDirectory] and [PreMapped] that the rest of
    memory management is built on. *)

From stdpp Require Import gmap.
From S2P Require Import Prelude Error BumpAlloc Config Addr Paging Frame Phys KMem UserSpace AddrSpace.
#[local] Open Scope Z_scope.

(** [arch::mem::paging::Table]: entries of one type, at the address of a table. *)
Class TableEntry (E : Type) := {
  from_raw : Z → option E;
  raw : E → Z
}.

#[export] Instance PageDirectoryEntry_TableEntry : TableEntry PageDirectoryEntry := {
  from_raw := PageDirectoryEntry.from_raw_value;
  raw := PageDirectoryEntry.into_raw_value
}.

#[export] Instance PageTableEntry_TableEntry : TableEntry PageTableEntry := {
  from_raw := PageTableEntry.from_raw_value;
  raw := PageTableEntry.into_raw_value
}.

Definition PTE_WORD_SIZE_LOG2 : Z := 2.

Definition pd_index (vaddr : Z) : Z := Z.land (Z.shiftr vaddr PGTAB_SHIFT) (PAGE_TABLE_LENGTH - 1).
Definition pt_index (vaddr : Z) : Z := Z.land (Z.shiftr vaddr PAGE_SHIFT) (PAGE_TABLE_LENGTH - 1).

(** The pool of tables, and what lies in memory. *)
Definition NUM_PAGE_TABLES `{Config} : Z := MEMORY_SIZE / PGTAB_SIZE.
Definition NUM_HIERARCHY_PAGES : Z := 1.
Definition NUM_KERNEL_PAGE_TABLES `{Config} : Z := NUM_PAGE_TABLES + NUM_HIERARCHY_PAGES.
Definition PAGE_TABLE_SLOT_SIZE : Z := PAGE_TABLE_LENGTH * Z.shiftl 1 PTE_WORD_SIZE_LOG2.
Definition PAGE_TABLE_SLOT_ALIGN : Z := PAGE_SIZE.
Definition PAGE_TABLE_SLOT_STRIDE : Z :=
  match Bump.align_up PAGE_TABLE_SLOT_SIZE PAGE_TABLE_SLOT_ALIGN with Some v => v | None => 0 end.
Definition PAGE_TABLE_STORAGE_SIZE `{Config} : Z := NUM_KERNEL_PAGE_TABLES * PAGE_TABLE_SLOT_STRIDE.

(** Where the linker put the pool.  It lies in memory; the size of memory is a multiple
    of what a table maps, which the kernel asserts when it is built. *)
Class PageTablePool `{Config} := {
  PAGE_TABLE_STORAGE : Z;
  pool_address : 0 < PAGE_TABLE_STORAGE /\ PAGE_TABLE_STORAGE mod PAGE_SIZE = 0;
  pool_in_memory : PAGE_TABLE_STORAGE + PAGE_TABLE_STORAGE_SIZE <= MEMORY_SIZE;
  memory_multiple : MEMORY_SIZE mod PGTAB_SIZE = 0
}.

#[export] Instance PageTableBss `{PageTablePool} : BssStorage := {
  NUM_UNITS := NUM_KERNEL_PAGE_TABLES;
  STORAGE_SIZE := PAGE_TABLE_STORAGE_SIZE;
  as_mut_ptr := PAGE_TABLE_STORAGE
}.

Record KernelTables := mkKernelTables {
  words : Z → Z;
  pool_next : Z;
  KERNEL_PD_PADDR : Z;
  KERNEL_CR3 : Z
}.

Module IdMap.

Section Definitions.
Context {CF : Config} {PTP : PageTablePool}.

Definition set_pool (n : Z) (t : KernelTables) : KernelTables :=
  mkKernelTables (words t) n (KERNEL_PD_PADDR t) (KERNEL_CR3 t).

Definition set_word (ptr w : Z) (t : KernelTables) : KernelTables :=
  mkKernelTables (fun a => if a =? ptr then w else words t a) (pool_next t) (KERNEL_PD_PADDR t)
    (KERNEL_CR3 t).

(** [Table::read] and [Table::write] of the table at [base]. *)
Definition read {E} `{TableEntry E} (base index : Z) : M KernelTables Error (option E) :=
  ptr ← lift (usize_add base (Z.shiftl index PTE_WORD_SIZE_LOG2));
  t ← get;
  mret (from_raw (words t ptr)).

Definition write {E} `{TableEntry E} (base index : Z) (e : E) : M KernelTables Error unit :=
  ptr ← lift (usize_add base (Z.shiftl index PTE_WORD_SIZE_LOG2));
  t ← get;
  put (set_word ptr (raw e) t).

(** [PAGE_TABLE_ALLOCATOR.alloc_as::<[PteWord; PAGE_TABLE_LENGTH]>()], with its error
    turned into one of the kernel. *)
Definition alloc_table : M KernelTables Error Z :=
  t ← get;
  let '(r, n) := Bump.alloc_as PAGE_TABLE_SLOT_SIZE PAGE_TABLE_SLOT_ALIGN PAGE_TABLE_SLOT_SIZE 4 (pool_next t) in
  put (set_pool n t);;
  match r with
  | Ok slot => mret slot
  | Err _ => fail (mkError OutOfMemory "BSS page table allocation failed")
  | Panic => panic
  end.

Definition ensure_pt (pd pde_idx : Z) : M KernelTables Error Z :=
  o ← read pd pde_idx;
  match o with
  | None => fail (mkError InvalidArgument "invalid PDE read from kernel PD")
  | Some pde =>
    if PageDirectoryEntry.is_present pde then mret (PageDirectoryEntry.frame_address pde)
    else
      pt_paddr ← alloc_table;
      match FrameNumber_from_raw_value (pt_paddr / PAGE_SIZE) with
      | None => fail (mkError BadAddress "BSS page table frame number out of range")
      | Some pt_frame =>
        write pd pde_idx
          (mkPde (mkPdeFlags Present ReadWrite Supervisor NotWriteThrough CacheEnabled NotAccessed
                    NotDirty Standard) pt_frame);;
        mret pt_paddr
      end
  end.

Definition ensure_pte (pt pte_idx phys_addr : Z) : M KernelTables Error unit :=
  o ← read pt pte_idx;
  match o with
  | None => fail (mkError InvalidArgument "invalid PTE read from page table")
  | Some pte =>
    if PageTableEntry.is_present pte then mret tt
    else
      match FrameNumber_from_raw_value (phys_addr / PAGE_SIZE) with
      | None => fail (mkError BadAddress "frame number out of range")
      | Some frame =>
        write pt pte_idx
          (mkPte (PageTableEntryFlags.new Present ReadWrite Supervisor NotWriteThrough CacheEnabled
                    NotAccessed NotDirty) frame)
      end
  end.

(** [identity_map_page].  An address is a [usize]. *)
Definition identity_map_page (addr : PageAligned PhysicalAddress) : M KernelTables Error unit :=
  let phys_addr := into_raw_value addr mod 2 ^ 32 in
  t ← get;
  let pd_paddr := KERNEL_PD_PADDR t in
  if pd_paddr =? 0 then mret tt
  else
    pt_paddr ← ensure_pt pd_paddr (pd_index phys_addr);
    ensure_pte pt_paddr (pt_index phys_addr) phys_addr.

(** [for i in i..i + n] of [init]. *)
Fixpoint ensure_pts (n : nat) (i pd_paddr : Z) : M KernelTables Error unit :=
  match n with
  | O => mret tt
  | S n =>
    a ← lift (usize_mul i PGTAB_SIZE);
    ensure_pt pd_paddr (pd_index a);;
    ensure_pts n (i + 1) pd_paddr
  end.

Definition publish (pd cr3 : Z) (t : KernelTables) : KernelTables :=
  mkKernelTables (words t) (pool_next t) pd cr3.

Definition init (kernel_pd_paddr kernel_cr3 : Z) : M KernelTables Error unit :=
  ensure_pts (Z.to_nat (MEMORY_SIZE / PGTAB_SIZE)) 0 kernel_pd_paddr;;
  t ← get;
  put (publish kernel_pd_paddr kernel_cr3 t).

End Definitions.

(** ** What the tables mean *)

Section Proofs.
Context {CF : Config} {HC : ConfigOk} {PTP : PageTablePool}.
Implicit Types (t : KernelTables) (pd : Z).

Definition slot (k : Z) : Z := PAGE_TABLE_STORAGE + k * PAGE_SIZE.
Definition pde_at pd t (i : Z) : option PageDirectoryEntry := word_pde (words t (pd + 4 * i)).
Definition pte_at t (pt j : Z) : option PageTableEntry := word_pte (words t (pt + 4 * j)).

(** The directory and the tables it names are different slots of the pool in use, every
    word of theirs is an entry, the tables of memory map pages to themselves, and the
    slots not in use are clear. *)
Record tables_ok pd t : Prop := {
  to_next : 0 <= pool_next t <= NUM_KERNEL_PAGE_TABLES;
  to_pd : exists k, 0 <= k < pool_next t /\ pd = slot k;
  to_pdes i : 0 <= i < 1024 -> pd_decodes (words t (pd + 4 * i));
  to_table i e : 0 <= i < 1024 -> pde_at pd t i = Some e ->
    exists k, 0 <= k < pool_next t /\ PageDirectoryEntry.frame_address e = slot k /\ slot k <> pd;
  to_inj i j e f : 0 <= i < 1024 -> 0 <= j < 1024 -> pde_at pd t i = Some e -> pde_at pd t j = Some f ->
    PageDirectoryEntry.frame_address e = PageDirectoryEntry.frame_address f -> i = j;
  to_ptes i e j : 0 <= i < 1024 -> 0 <= j < 1024 -> pde_at pd t i = Some e ->
    decodes (words t (PageDirectoryEntry.frame_address e + 4 * j));
  to_identity i e j p : 0 <= i < NUM_PAGE_TABLES -> 0 <= j < 1024 -> pde_at pd t i = Some e ->
    pte_at t (PageDirectoryEntry.frame_address e) j = Some p -> fn_raw (pte_frame p) = i * 1024 + j;
  to_clear k j : pool_next t <= k < NUM_KERNEL_PAGE_TABLES -> 0 <= j < 1024 -> words t (slot k + 4 * j) = 0
}.

(** What the processor makes of an address under the directory. *)
Definition translate pd t (a : Z) : option Z :=
  e ← pde_at pd t (pd_index a);
  p ← pte_at t (PageDirectoryEntry.frame_address e) (pt_index a);
  Some (frame_word (pte_frame p) + a mod PAGE_SIZE).

Lemma pd_index_eq a : pd_index a = (a / PGTAB_SIZE) mod 1024.
Proof.
  unfold pd_index. change (PAGE_TABLE_LENGTH - 1) with (Z.ones 10). unfold PGTAB_SHIFT.
  rewrite Z.land_ones, Z.shiftr_div_pow2 by lia. done.
Qed.

Lemma pt_index_eq a : pt_index a = (a / PAGE_SIZE) mod 1024.
Proof.
  unfold pt_index. change (PAGE_TABLE_LENGTH - 1) with (Z.ones 10). unfold PAGE_SHIFT.
  rewrite Z.land_ones, Z.shiftr_div_pow2 by lia. done.
Qed.

Lemma index_bounds a : 0 <= pd_index a < 1024 /\ 0 <= pt_index a < 1024.
Proof. rewrite pd_index_eq, pt_index_eq. split; by apply Z.mod_pos_bound. Qed.

(** The slots of the pool have valid addresses below the end of memory. *)
Lemma memory_tables : MEMORY_SIZE = NUM_PAGE_TABLES * PGTAB_SIZE /\ 0 <= NUM_PAGE_TABLES <= 1023.
Proof.
  pose proof memory_size_bound as Hm. pose proof memory_multiple as Hd. unfold NUM_PAGE_TABLES.
  pose proof (Z.div_mod MEMORY_SIZE PGTAB_SIZE ltac:(done)) as He. change PGTAB_SIZE with 4194304 in *. width.
Qed.

Lemma slot_bounds k : 0 <= k < NUM_KERNEL_PAGE_TABLES ->
  0 < slot k /\ slot k + PAGE_SIZE <= MEMORY_SIZE /\ slot k = PAGE_SIZE * (slot k / PAGE_SIZE).
Proof.
  intros Hk. destruct pool_address as [Hp Ha]. pose proof pool_in_memory as Hm. unfold PAGE_TABLE_STORAGE_SIZE in Hm.
  change PAGE_TABLE_SLOT_STRIDE with 4096 in Hm. unfold slot. change PAGE_SIZE with 4096 in *. splits; [lia|lia|].
  rewrite Z.div_add by done. pose proof (Z.div_mod PAGE_TABLE_STORAGE 4096). lia.
Qed.

Lemma pool_ok : @Bump.storage_ok PAGE_TABLE_SLOT_SIZE PAGE_TABLE_SLOT_ALIGN PageTableBss.
Proof.
  destruct pool_address as [Hp Ha]. pose proof pool_in_memory as Hm. pose proof memory_size_bound. destruct memory_tables as [_ ?].
  split; simpl; [done|done|split; [lia|done]| |lia]. unfold NUM_KERNEL_PAGE_TABLES, NUM_HIERARCHY_PAGES. split; [lia|].
  unfold PAGE_TABLE_STORAGE_SIZE, NUM_KERNEL_PAGE_TABLES, NUM_HIERARCHY_PAGES. change PAGE_TABLE_SLOT_STRIDE with 4096.
  change (@Bump.stride PAGE_TABLE_SLOT_SIZE PAGE_TABLE_SLOT_ALIGN) with 4096. lia.
Qed.

(** Taking a slot. *)
Lemma wp_alloc_table t (Q : res Error Z → KernelTables → Prop) : 0 <= pool_next t <= NUM_KERNEL_PAGE_TABLES ->
  (pool_next t < NUM_KERNEL_PAGE_TABLES -> Q (Ok (slot (pool_next t))) (set_pool (pool_next t + 1) t)) ->
  (pool_next t = NUM_KERNEL_PAGE_TABLES -> Q (Err (mkError OutOfMemory "BSS page table allocation failed")) t) ->
  wp alloc_table t Q.
Proof.
  intros Hn H1 H2. unfold alloc_table, Bump.alloc_as. do 2 wstep. change (negb (_ =? _)) with false. change (PAGE_TABLE_SLOT_ALIGN <? 4) with false.
  destruct memory_tables as [_ Hb]. cbn match.
  enough (wp (Bump.alloc PAGE_TABLE_SLOT_SIZE PAGE_TABLE_SLOT_ALIGN) (pool_next t) (fun r n =>
    wp (put (set_pool n t);; match r with Ok slot => mret slot
      | Err _ => fail (mkError OutOfMemory "BSS page table allocation failed") | Panic => panic end) t Q)) as Hw.
  { unfold wp at 1 in Hw. by destruct (Bump.alloc _ _ _) as [r n]. }
  apply (Bump.bump_alloc_wp _ _ pool_ok); [done|simpl; unfold NUM_KERNEL_PAGE_TABLES, NUM_HIERARCHY_PAGES; width| |].
  - intros Hlt. wsteps. by apply H1.
  - intros He. wsteps. destruct t. by apply H2.
Qed.

(** Words of different tables, or at different indices, are different words. *)
Lemma slot_inj k l i j : 0 <= i < 1024 -> 0 <= j < 1024 -> slot k + 4 * i = slot l + 4 * j -> k = l /\ i = j.
Proof. unfold slot. change PAGE_SIZE with 4096. lia. Qed.

Lemma slot_eq k l : slot k = slot l -> k = l.
Proof. unfold slot. change PAGE_SIZE with 4096. lia. Qed.

Lemma word_address k i : 0 <= k < NUM_KERNEL_PAGE_TABLES -> 0 <= i < 1024 ->
  usize_add (E:=Error) (slot k) (Z.shiftl i PTE_WORD_SIZE_LOG2) = Ok (slot k + 4 * i).
Proof.
  intros Hk Hi. destruct (slot_bounds k Hk) as (? & ? & _). pose proof memory_size_bound. change PAGE_SIZE with 4096 in *.
  unfold PTE_WORD_SIZE_LOG2. rewrite Z.shiftl_mul_pow2 by lia. rewrite usize_add_ok by lia. f_equal. lia.
Qed.

Lemma wp_read {E} `{TableEntry E} t k i (Q : res Error (option E) → KernelTables → Prop) :
  0 <= k < NUM_KERNEL_PAGE_TABLES -> 0 <= i < 1024 -> Q (Ok (from_raw (words t (slot k + 4 * i)))) t ->
  wp (read (slot k) i) t Q.
Proof. intros Hk Hi HQ. unfold read. do 2 wstep. rewrite word_address by done. by wsteps. Qed.

Lemma wp_write {E} `{TableEntry E} t k i (e : E) (Q : res Error unit → KernelTables → Prop) :
  0 <= k < NUM_KERNEL_PAGE_TABLES -> 0 <= i < 1024 -> Q (Ok tt) (set_word (slot k + 4 * i) (raw e) t) ->
  wp (write (slot k) i e) t Q.
Proof. intros Hk Hi HQ. unfold write. do 2 wstep. rewrite word_address by done. by wsteps. Qed.

Lemma pde_decoded w : pd_decodes w -> exists e, PageDirectoryEntry.from_raw_value w = Some e /\ numbered (pd_frame e) /\
  word_pde w = if PageDirectoryEntry.is_present e then Some e else None.
Proof. intros (e & He & Hn). exists e. splits; [done..|]. unfold word_pde. by rewrite He. Qed.

Lemma pte_decoded w : decodes w -> exists e, PageTableEntry.from_raw_value w = Some e /\ numbered (pte_frame e) /\
  word_pte w = if PageTableEntry.is_present e then Some e else None.
Proof. intros (e & He & Hn). exists e. splits; [done..|]. unfold word_pte. by rewrite He. Qed.

(** The entry [ensure_pt] writes for the table in slot [k]. *)
Definition table_pde (k : Z) : PageDirectoryEntry :=
  mkPde (mkPdeFlags Present ReadWrite Supervisor NotWriteThrough CacheEnabled NotAccessed NotDirty Standard)
    (mkFrameNumber (slot k / PAGE_SIZE)).

Lemma table_pde_ok k : 0 <= k < NUM_KERNEL_PAGE_TABLES ->
  FrameNumber_from_raw_value (slot k / PAGE_SIZE) = Some (mkFrameNumber (slot k / PAGE_SIZE)) /\
  numbered (pd_frame (table_pde k)) /\ PageDirectoryEntry.frame_address (table_pde k) = slot k.
Proof.
  intros Hk. destruct (slot_bounds k Hk) as (H1 & H2 & H3). destruct memory_tables as [Hm Hb]. change PGTAB_SIZE with 4194304 in Hm.
  change PAGE_SIZE with 4096 in *. assert (numbered (mkFrameNumber (slot k / 4096))) as Hn.
  { unfold numbered. simpl. rewrite frame_number_max. lia. }
  splits; [|done|].
  - unfold FrameNumber_from_raw_value. unfold numbered in Hn. simpl in Hn. zbool; [lia|done].
  - unfold PageDirectoryEntry.frame_address. rewrite frame_word_fits by done. cbn [table_pde pd_frame fn_raw].
    rewrite Z.shiftl_mul_pow2 by lia. change PAGE_SIZE with 4096. change (2 ^ 12) with 4096. lia.
Qed.

(** The state after a table has been taken from the pool for index [i]. *)
Definition with_table pd i t : KernelTables :=
  set_word (pd + 4 * i) (PageDirectoryEntry.into_raw_value (table_pde (pool_next t))) (set_pool (pool_next t + 1) t).

Lemma with_table_next pd i t : pool_next (with_table pd i t) = pool_next t + 1.
Proof. done. Qed.

Lemma with_table_pde pd i j t : 0 <= i < 1024 -> 0 <= j < 1024 -> 0 <= pool_next t < NUM_KERNEL_PAGE_TABLES ->
  pde_at pd (with_table pd i t) j = if j =? i then Some (table_pde (pool_next t)) else pde_at pd t j.
Proof.
  intros Hi Hj Hn. unfold pde_at, with_table. simpl. destruct (table_pde_ok _ Hn) as (_ & Hk & _).
  destruct (Z.eqb_spec j i) as [->|Hne].
  - rewrite Z.eqb_refl. unfold word_pde. by rewrite pde_roundtrip.
  - by destruct (Z.eqb_spec (pd + 4 * j) (pd + 4 * i)); [lia|].
Qed.

Lemma with_table_word pd i t k j : tables_ok pd t -> 0 <= i < 1024 -> 0 <= j < 1024 -> slot k <> pd ->
  words (with_table pd i t) (slot k + 4 * j) = words t (slot k + 4 * j).
Proof.
  intros Hok Hi Hj Hne. destruct (to_pd _ _ Hok) as (l & _ & ->). unfold with_table. simpl.
  destruct (Z.eqb_spec (slot k + 4 * j) (slot l + 4 * i)) as [He|]; [|done]. apply slot_inj in He as [-> ->]; done.
Qed.

Lemma fresh_slot pd t i e : tables_ok pd t -> 0 <= i < 1024 -> pde_at pd t i = Some e ->
  PageDirectoryEntry.frame_address e <> slot (pool_next t).
Proof.
  intros Hok Hi He. destruct (to_table _ _ Hok i e Hi He) as (k & Hk & -> & _). intros Hs.
  apply slot_eq in Hs; lia.
Qed.

Lemma clear_pte w : w = 0 -> decodes w /\ word_pte w = None.
Proof. intros ->. split; [|done]. exists (mkPte (PageTableEntryFlags.from_raw_value 0) (mkFrameNumber 0)). done. Qed.

Lemma with_table_ok pd i t : tables_ok pd t -> 0 <= i < 1024 -> pool_next t < NUM_KERNEL_PAGE_TABLES ->
  pde_at pd t i = None -> tables_ok pd (with_table pd i t).
Proof.
  intros Hok Hi Hlt Hnone. pose proof Hok as [Hn (l & Hl & Hpd) Hd Ht Hinj Hp Hid Hc].
  assert (0 <= pool_next t < NUM_KERNEL_PAGE_TABLES) as Hb by lia. destruct (table_pde_ok _ Hb) as (_ & Hnum & Hfa).
  assert (slot (pool_next t) <> pd) as Hfresh by (rewrite Hpd; intros Hs; apply slot_eq in Hs; lia).
  assert (forall j e, 0 <= j < 1024 -> pde_at pd (with_table pd i t) j = Some e ->
    (j = i /\ e = table_pde (pool_next t)) \/ (j <> i /\ pde_at pd t j = Some e)) as Hcases.
  { intros j e Hj. rewrite with_table_pde by done. destruct (Z.eqb_spec j i); intros ?; simplify_eq; auto. }
  split; rewrite ?with_table_next.
  - lia.
  - exists l. split; [lia|done].
  - intros j Hj. simpl. destruct (Z.eqb_spec (pd + 4 * j) (pd + 4 * i)); [|by apply Hd].
    eexists. split; [by apply pde_roundtrip|done].
  - intros j e Hj [[-> ->]|[_ He]]%Hcases; [| |done].
    + exists (pool_next t). splits; [lia|lia|done|done].
    + destruct (Ht j e Hj He) as (k & ? & ? & ?). exists k. splits; [lia|lia|done|done].
  - intros j j' e f Hj Hj' [[-> ->]|[Hne He]]%Hcases [[-> ->]|[Hne' Hf]]%Hcases; try done.
    + rewrite Hfa. intros Hs. by destruct (fresh_slot _ _ _ _ Hok Hj' Hf).
    + rewrite Hfa. intros Hs. by destruct (fresh_slot _ _ _ _ Hok Hj He).
    + by apply Hinj.
  - intros j e m Hj Hm [[-> ->]|[_ He]]%Hcases; [| |done].
    + rewrite Hfa, with_table_word by done. by apply clear_pte, Hc.
    + destruct (Ht j e Hj He) as (k & _ & Hk & Hne). pose proof (Hp j e m Hj Hm He) as Hdec. rewrite Hk in *. by rewrite with_table_word.
  - intros j e m p Hj Hm. destruct memory_tables. intros [[-> ->]|[_ He]]%Hcases; [| |lia]; unfold pte_at.
    + rewrite Hfa, with_table_word, (Hc (pool_next t) m) by (done || lia). done.
    + destruct (Ht j e ltac:(lia) He) as (k & _ & Hk & Hne). pose proof (Hid j e m p Hj Hm He) as Hi'. unfold pte_at in Hi'. rewrite Hk in *. by rewrite with_table_word.
  - intros k j Hk Hj. rewrite with_table_word; [apply Hc; lia|done..|]. rewrite Hpd. intros Hs. apply slot_eq in Hs; lia.
Qed.

Definition no_slots : Error := mkError OutOfMemory "BSS page table allocation failed".

(** The table for index [i]: the one there is, or the next of the pool. *)
Lemma wp_ensure_pt pd t i (Q : res Error Z → KernelTables → Prop) : tables_ok pd t -> 0 <= i < 1024 ->
  (forall e, pde_at pd t i = Some e -> Q (Ok (PageDirectoryEntry.frame_address e)) t) ->
  (pde_at pd t i = None -> pool_next t < NUM_KERNEL_PAGE_TABLES -> Q (Ok (slot (pool_next t))) (with_table pd i t)) ->
  (pde_at pd t i = None -> pool_next t = NUM_KERNEL_PAGE_TABLES -> Q (Err no_slots) t) ->
  wp (ensure_pt pd i) t Q.
Proof.
  intros Hok Hi H1 H2 H3. destruct (to_pd _ _ Hok) as (l & Hl & Hpd). pose proof (to_next _ _ Hok) as Hn.
  pose proof (to_pdes _ _ Hok i Hi) as (e & He & _ & Hw)%pde_decoded. unfold pde_at in *. rewrite Hw in *. rewrite Hpd in He |- *.
  unfold ensure_pt. wstep. apply wp_read; [lia|done|]. cbn [from_raw PageDirectoryEntry_TableEntry]. rewrite He.
  destruct (PageDirectoryEntry.is_present e); [wstep; by apply H1|].
  wstep. apply wp_alloc_table; [done| |by intros; apply H3]. intros Hlt.
  destruct (table_pde_ok (pool_next t) ltac:(lia)) as (-> & _ & _).
  wstep. apply wp_write; [lia|done|]. wstep. rewrite <- Hpd. by apply H2.
Qed.

(** Taking a table from the pool does not change what is mapped. *)
Lemma with_table_translate pd i t a : tables_ok pd t -> 0 <= i < 1024 -> pool_next t < NUM_KERNEL_PAGE_TABLES ->
  pde_at pd t i = None -> translate pd (with_table pd i t) a = translate pd t a.
Proof.
  intros Hok Hi Hlt Hnone. pose proof (to_next _ _ Hok) as Hn. destruct (index_bounds a) as [H1 H2].
  assert (0 <= pool_next t < NUM_KERNEL_PAGE_TABLES) as Hb by lia. destruct (table_pde_ok _ Hb) as (_ & _ & Hfa).
  unfold translate. rewrite with_table_pde by done. destruct (Z.eqb_spec (pd_index a) i) as [->|].
  - rewrite Hnone. cbn [mbind option_bind]. rewrite Hfa. unfold pte_at. rewrite with_table_word; [|done..|].
    + by rewrite (to_clear _ _ Hok) by lia.
    + destruct (to_pd _ _ Hok) as (l & ? & ->). intros Hs%slot_eq. lia.
  - destruct (pde_at pd t (pd_index a)) as [e|] eqn:He; [|done]. cbn [mbind option_bind].
    destruct (to_table _ _ Hok _ e H1 He) as (k & _ & -> & Hne). unfold pte_at. by rewrite with_table_word.
Qed.

(** The entry [ensure_pte] writes. *)
Definition page_pte (n : Z) : PageTableEntry :=
  mkPte (PageTableEntryFlags.new Present ReadWrite Supervisor NotWriteThrough CacheEnabled NotAccessed NotDirty)
    (mkFrameNumber n).

Definition with_page (pt j n : Z) t : KernelTables :=
  set_word (pt + 4 * j) (PageTableEntry.into_raw_value (page_pte n)) t.

Lemma wp_ensure_pte pd t i e j x (Q : res Error unit → KernelTables → Prop) : tables_ok pd t ->
  0 <= i < 1024 -> 0 <= j < 1024 -> pde_at pd t i = Some e -> 
  (forall p, pte_at t (PageDirectoryEntry.frame_address e) j = Some p -> Q (Ok tt) t) ->
  (pte_at t (PageDirectoryEntry.frame_address e) j = None -> x / PAGE_SIZE <= FrameNumber_MAX ->
     Q (Ok tt) (with_page (PageDirectoryEntry.frame_address e) j (x / PAGE_SIZE) t)) ->
  (FrameNumber_MAX < x / PAGE_SIZE -> Q (Err (mkError BadAddress "frame number out of range")) t) ->
  wp (ensure_pte (PageDirectoryEntry.frame_address e) j x) t Q.
Proof.
  intros Hok Hi Hj He H1 H2 H3. pose proof (to_ptes _ _ Hok i e j Hi Hj He) as (p & Hp & _ & Hw)%pte_decoded.
  unfold pte_at in *. rewrite Hw in *. destruct (to_table _ _ Hok i e Hi He) as (k & Hk & Hka & _). pose proof (to_next _ _ Hok).
  unfold ensure_pte. wstep. rewrite Hka. apply wp_read; [lia|done|]. cbn [from_raw PageTableEntry_TableEntry]. rewrite <- Hka, Hp.
  destruct (PageTableEntry.is_present p); [wstep; by eapply H1|].
  unfold FrameNumber_from_raw_value. destruct (Z.ltb_spec FrameNumber_MAX (x / PAGE_SIZE)); [wstep; by apply H3|].
  rewrite Hka. apply wp_write; [lia|done|]. rewrite <- Hka. by apply H2.
Qed.

Lemma page_pte_ok n : 0 <= n <= FrameNumber_MAX ->
  decodes (PageTableEntry.into_raw_value (page_pte n)) /\
  word_pte (PageTableEntry.into_raw_value (page_pte n)) = Some (page_pte n).
Proof.
  intros Hn. assert (numbered (pte_frame (page_pte n))) as Hnum by done. unfold decodes, word_pte.
  rewrite pte_roundtrip by done. split; [by eexists|done].
Qed.

(** Words of other tables and of the directory are as before. *)
Lemma with_page_word k j n t l m : 0 <= j < 1024 -> 0 <= m < 1024 -> (l, m) <> (k, j) ->
  words (with_page (slot k) j n t) (slot l + 4 * m) = words t (slot l + 4 * m).
Proof.
  intros Hj Hm Hne. unfold with_page. simpl. destruct (Z.eqb_spec (slot l + 4 * m) (slot k + 4 * j)) as [He|]; [|done].
  apply slot_inj in He as [-> ->]; done.
Qed.

Lemma with_page_at k j n t : words (with_page (slot k) j n t) (slot k + 4 * j) = PageTableEntry.into_raw_value (page_pte n).
Proof. unfold with_page. cbn [words set_word]. by rewrite Z.eqb_refl. Qed.

Lemma with_page_pde pd t i e j n a : tables_ok pd t -> 0 <= i < 1024 -> 0 <= j < 1024 -> pde_at pd t i = Some e ->
  0 <= a < 1024 -> pde_at pd (with_page (PageDirectoryEntry.frame_address e) j n t) a = pde_at pd t a.
Proof.
  intros Hok Hi Hj He Ha. destruct (to_table _ _ Hok i e Hi He) as (k & Hk & -> & Hne). destruct (to_pd _ _ Hok) as (l & _ & Hl).
  unfold pde_at. rewrite Hl. rewrite with_page_word; [done..|]. rewrite Hl in Hne. congruence.
Qed.

(** Entering one page changes one word. *)
Lemma with_page_pte pd t i e j n a f m : tables_ok pd t -> 0 <= i < 1024 -> 0 <= j < 1024 -> pde_at pd t i = Some e ->
  0 <= a < 1024 -> 0 <= m < 1024 -> pde_at pd t a = Some f ->
  words (with_page (PageDirectoryEntry.frame_address e) j n t) (PageDirectoryEntry.frame_address f + 4 * m) =
    if (a =? i) && (m =? j) then PageTableEntry.into_raw_value (page_pte n)
    else words t (PageDirectoryEntry.frame_address f + 4 * m).
Proof.
  intros Hok Hi Hj He Ha Hm Hf. pose proof (to_inj _ _ Hok i a e f Hi Ha He Hf) as Hinj.
  destruct (to_table _ _ Hok i e Hi He) as (k & Hk & Hke & _). destruct (to_table _ _ Hok a f Ha Hf) as (l & Hl & Hlf & _).
  destruct (Z.eqb_spec a i) as [->|Hai], (Z.eqb_spec m j) as [->|Hmj]; cbn [andb].
  - simplify_eq. rewrite Hke. apply with_page_at.
  - rewrite Hke, Hlf. apply with_page_word; [done..|congruence].
  - rewrite Hke, Hlf. apply with_page_word; [done..|]. rewrite Hke, Hlf in Hinj. intros ?. simplify_eq. by apply Hai, eq_sym, Hinj.
  - rewrite Hke, Hlf. apply with_page_word; [done..|congruence].
Qed.

Lemma with_page_ok pd t i e j n : tables_ok pd t -> 0 <= i < 1024 -> 0 <= j < 1024 -> pde_at pd t i = Some e ->
  0 <= n <= FrameNumber_MAX -> (i < NUM_PAGE_TABLES -> n = i * 1024 + j) ->
  tables_ok pd (with_page (PageDirectoryEntry.frame_address e) j n t).
Proof.
  intros Hok Hi Hj He Hn Hid. pose proof Hok as [H1 H2 H3 H4 H5 H6 H7 H8]. destruct (page_pte_ok n Hn) as [Hd Hw].
  assert (forall a f, 0 <= a < 1024 -> pde_at pd (with_page (PageDirectoryEntry.frame_address e) j n t) a = Some f -> pde_at pd t a = Some f) as Hpde.
  { intros a f Ha. by rewrite (with_page_pde pd t i) by done. }
  destruct (to_table _ _ Hok i e Hi He) as (k & Hk & Hke & Hkpd). split; [done|done| | | | | |].
  - intros a Ha. destruct H2 as (l & _ & Hl). rewrite Hke, Hl, with_page_word; [rewrite <- Hl; by apply H3|done..|]. rewrite Hl in Hkpd. congruence.
  - intros a f Ha Hf. apply (H4 a f Ha). by apply Hpde.
  - intros a b f g Ha Hb Hf%Hpde Hg%Hpde; [|done..]. by apply H5.
  - intros a f m Ha Hm Hf%Hpde; [|done]. rewrite (with_page_pte pd t i e j n a f m) by done.
    destruct ((a =? i) && (m =? j)); [done|by apply (H6 a f m)].
  - intros a f m p Ha Hm Hf%Hpde; [|destruct memory_tables; lia]. destruct memory_tables as [_ ?]. unfold pte_at.
    rewrite (with_page_pte pd t i e j n a f m) by (done || lia).
    destruct (Z.eqb_spec a i) as [Hai|], (Z.eqb_spec m j) as [Hmj|]; cbn [andb]; [|by apply (H7 a f m)..].
    rewrite Hw. intros ?. subst a m; simplify_eq. cbn [pte_frame page_pte fn_raw]. apply Hid. lia.
  - intros l m Hl Hm. rewrite Hke, with_page_word; [by apply H8|done..|]. change (pool_next t <= l < NUM_KERNEL_PAGE_TABLES) in Hl. intros ?. simplify_eq. lia.
Qed.

Lemma same_entry a x : 0 <= a < 2 ^ 32 -> 0 <= x < 2 ^ 32 ->
  (pd_index a =? pd_index x) && (pt_index a =? pt_index x) = (a / PAGE_SIZE =? x / PAGE_SIZE).
Proof.
  intros Ha Hx. rewrite !pd_index_eq, !pt_index_eq. change PGTAB_SIZE with (PAGE_SIZE * 1024). change PAGE_SIZE with 4096 in *.
  rewrite <- !Z.div_div by done. change (2 ^ 32) with 4294967296 in *.
  rewrite !(Z.mod_small (_ / 4096 / 1024)) by (split; [apply Z.div_pos; [apply Z.div_pos; lia|done]|do 2 (apply Z.div_lt_upper_bound; [done|]); lia]).
  destruct (Z.eqb_spec (a / 4096) (x / 4096)) as [->|Hne]; [by rewrite !Z.eqb_refl|].
  destruct (Z.eqb_spec (a / 4096 / 1024) (x / 4096 / 1024)) as [H1|], (Z.eqb_spec ((a / 4096) mod 1024) ((x / 4096) mod 1024)) as [H2|]; [|done..].
  pose proof (Z.div_mod (a / 4096) 1024 ltac:(done)). pose proof (Z.div_mod (x / 4096) 1024 ltac:(done)). lia.
Qed.

(** The page of [x] is mapped to itself unless it was mapped before; no other translation
    changes. *)
Definition entered pd x t t' : Prop := forall a, 0 <= a < 2 ^ 32 ->
  translate pd t' a =
    if a / PAGE_SIZE =? x / PAGE_SIZE then Some (default a (translate pd t a)) else translate pd t a.

Lemma with_page_translate pd t x e : tables_ok pd t -> 0 <= x < 2 ^ 32 -> pde_at pd t (pd_index x) = Some e ->
  x / PAGE_SIZE <= FrameNumber_MAX -> pte_at t (PageDirectoryEntry.frame_address e) (pt_index x) = None ->
  entered pd x t (with_page (PageDirectoryEntry.frame_address e) (pt_index x) (x / PAGE_SIZE) t).
Proof.
  intros Hok Hx He Hn Hnone a Ha. destruct (index_bounds x) as [Hi Hj], (index_bounds a) as [Hai Haj].
  assert (0 <= x / PAGE_SIZE <= FrameNumber_MAX) as Hb by (split; [apply Z.div_pos; [lia|done]|done]).
  unfold translate. rewrite (with_page_pde pd t (pd_index x)) by done. rewrite <- same_entry by done.
  destruct (pde_at pd t (pd_index a)) as [f|] eqn:Hf; cbn [mbind option_bind].
  - unfold pte_at at 1. rewrite (with_page_pte pd t (pd_index x) e _ _ (pd_index a) f) by done.
    destruct (Z.eqb_spec (pd_index a) (pd_index x)) as [H1|], (Z.eqb_spec (pt_index a) (pt_index x)) as [H2|]; cbn [andb]; [|done..].
    destruct (page_pte_ok _ Hb) as [_ ->]. cbn [mbind option_bind]. assert (f = e) as -> by congruence. rewrite H2, Hnone. cbn [mbind option_bind default].
    rewrite frame_word_fits by done. cbn [page_pte pte_frame fn_raw]. rewrite Z.shiftl_mul_pow2 by lia.
    assert (a / PAGE_SIZE = x / PAGE_SIZE) as <- by (apply Z.eqb_eq; rewrite <- same_entry by done; by rewrite H1, H2, !Z.eqb_refl).
    change (2 ^ 12) with PAGE_SIZE. f_equal. pose proof (Z.div_mod a PAGE_SIZE ltac:(done)). unfold from_option. lia.
  - destruct (Z.eqb_spec (pd_index a) (pd_index x)) as [H1|]; [|done]. congruence.
Qed.

Lemma entered_present pd t x e p : 0 <= x < 2 ^ 32 -> pde_at pd t (pd_index x) = Some e ->
  pte_at t (PageDirectoryEntry.frame_address e) (pt_index x) = Some p -> entered pd x t t.
Proof.
  intros Hx He Hp a Ha. rewrite <- same_entry by done.
  destruct (Z.eqb_spec (pd_index a) (pd_index x)) as [H1|], (Z.eqb_spec (pt_index a) (pt_index x)) as [H2|]; cbn [andb]; [|done..].
  unfold translate. rewrite H1, He. cbn [mbind option_bind]. rewrite H2, Hp. done.
Qed.

(** The word an address is. *)
Definition usize_of (addr : PageAligned PhysicalAddress) : Z := into_raw_value addr mod 2 ^ 32.

(** What an attempt to map a page can do. *)
Record mapped pd x (r : res Error unit) t t' : Prop := {
  mp_ok : tables_ok pd t';
  mp_pd : KERNEL_PD_PADDR t' = KERNEL_PD_PADDR t /\ KERNEL_CR3 t' = KERNEL_CR3 t;
  mp_kept i e : 0 <= i < 1024 -> pde_at pd t i = Some e -> pde_at pd t' i = Some e;
  mp_pool : is_Some (pde_at pd t (pd_index x)) -> pool_next t' = pool_next t;
  mp_returns : r <> Panic;
  mp_effect : match r with
    | Ok _ => entered pd x t t'
    | _ => forall a, translate pd t' a = translate pd t a
    end
}.

(** The page of an address is below the limit of its table. *)
Lemma page_number x : 0 <= x < 2 ^ 32 -> x / PAGE_SIZE = pd_index x * 1024 + pt_index x.
Proof.
  intros Hx. rewrite pd_index_eq, pt_index_eq. change PGTAB_SIZE with (PAGE_SIZE * 1024). rewrite <- Z.div_div by done. change PAGE_SIZE with 4096.
  rewrite (Z.mod_small (_ / 4096 / 1024)); [pose proof (Z.div_mod (x / 4096) 1024 ltac:(done)); lia|].
  change (2 ^ 32) with 4294967296 in Hx. split; [apply Z.div_pos; [apply Z.div_pos; lia|done]|do 2 (apply Z.div_lt_upper_bound; [done|]); lia].
Qed.

Lemma wp_enter_page pd t t0 x e (Q : res Error unit → KernelTables → Prop) : tables_ok pd t -> 0 <= x < 2 ^ 32 ->
  pde_at pd t (pd_index x) = Some e -> (forall a, translate pd t a = translate pd t0 a) ->
  (forall r t', (forall y f, 0 <= y < 1024 -> pde_at pd t y = Some f -> pde_at pd t' y = Some f) -> tables_ok pd t' ->
     KERNEL_PD_PADDR t' = KERNEL_PD_PADDR t -> KERNEL_CR3 t' = KERNEL_CR3 t -> pool_next t' = pool_next t ->
     (r = Ok tt /\ entered pd x t0 t' \/
      r = Err (mkError BadAddress "frame number out of range") /\ t' = t /\ FrameNumber_MAX < x / PAGE_SIZE) -> Q r t') ->
  wp (ensure_pte (PageDirectoryEntry.frame_address e) (pt_index x) x) t Q.
Proof.
  intros Hok Hx He Htr HQ. destruct (index_bounds x) as [Hi Hj].
  assert (forall t', entered pd x t t' -> entered pd x t0 t') as Hfrom by (intros t' Ht' a Ha; rewrite Ht' by done; by rewrite Htr).
  apply (wp_ensure_pte pd t (pd_index x)); [done..| | |].
  - intros p Hp. apply HQ; [done..|]. left. split; [done|]. by eapply Hfrom, entered_present.
  - intros Hnone Hle. assert (0 <= x / PAGE_SIZE) by (apply Z.div_pos; [lia|done]). apply HQ; [|by eapply with_page_ok; [..|intros; apply page_number]|done..|].
    + intros y f Hy Hf. by rewrite (with_page_pde pd t (pd_index x)).
    + left. split; [done|]. by apply Hfrom, with_page_translate.
  - intros Hlt. apply HQ; [done..|]. by right.
Qed.

Lemma map_page_wp pd t (addr : PageAligned PhysicalAddress) : tables_ok pd t -> KERNEL_PD_PADDR t = pd ->
  wp (identity_map_page addr) t (fun r t' => mapped pd (usize_of addr) r t t' /\
    (is_Some (pde_at pd t (pd_index (usize_of addr))) -> usize_of addr / PAGE_SIZE <= FrameNumber_MAX -> r = Ok tt)).
Proof.
  intros Hok Hpd. pose proof (to_next _ _ Hok). destruct (to_pd _ _ Hok) as (l & Hl & Hle). destruct (slot_bounds l ltac:(lia)) as (? & _ & _).
  assert (0 <= usize_of addr < 2 ^ 32) as Hx by (by apply Z.mod_pos_bound). unfold identity_map_page. fold (usize_of addr). set (x := usize_of addr) in *.
  destruct (index_bounds x) as [Hi Hj]. do 2 wstep. rewrite Hpd. destruct (Z.eqb_spec pd 0); [lia|].
  wstep. apply wp_ensure_pt; [done..| | |].
  - intros e He. apply (wp_enter_page pd t t); [done..|]. intros r t' Hkept Hok' Hp Hc Hn Hr.
    destruct Hr as [[-> Hent]|(-> & -> & Hlt)]; (split; [split|]); try done. by intros _ ?; lia.
  - intros Hnone Hlt. assert (0 <= pool_next t < NUM_KERNEL_PAGE_TABLES) as Hb by lia.
    assert (pde_at pd (with_table pd (pd_index x) t) (pd_index x) = Some (table_pde (pool_next t))) as Hnew
      by (rewrite with_table_pde by done; by rewrite Z.eqb_refl).
    destruct (table_pde_ok _ Hb) as (_ & _ & <-).
    apply (wp_enter_page pd _ t); [by apply with_table_ok|done|done|by intros; apply with_table_translate|].
    intros r t' Hkept Hok' Hp Hc Hn Hr. split; [|by intros [? ?]; congruence]. split; [done|by rewrite Hp, Hc| |by intros [? ?]; congruence| |].
    + intros y f Hy Hf. apply Hkept; [done|]. rewrite with_table_pde by done. by destruct (Z.eqb_spec y (pd_index x)); [congruence|].
    + by destruct Hr as [[-> _]|(-> & _)].
    + destruct Hr as [[-> Hent]|(-> & -> & _)]; [done|]. intros a. by apply with_table_translate.
  - intros Hnone Hfull. split; [by split|]. intros [? ?]. congruence.
Qed.

(** ** Setting up the map *)

(** How many tables are missing for the indices [i], ..., [i + n - 1]. *)
Fixpoint missing pd t (n : nat) (i : Z) : Z :=
  match n with
  | O => 0
  | S n => (if pde_at pd t i is Some _ then 0 else 1) + missing pd t n (i + 1)
  end.

Lemma missing_nonneg pd t n i : 0 <= missing pd t n i.
Proof. revert i. induction n as [|n IH]; intros i; simpl; [lia|]. specialize (IH (i + 1)). destruct (pde_at pd t i); lia. Qed.

Lemma missing_same pd t t' n i : (forall j, i <= j < i + Z.of_nat n -> is_Some (pde_at pd t' j) <-> is_Some (pde_at pd t j)) ->
  missing pd t' n i = missing pd t n i.
Proof.
  revert i. induction n as [|n IH]; intros i Hj; simpl; [done|]. rewrite IH by (intros; apply Hj; lia). f_equal.
  specialize (Hj i ltac:(lia)). destruct (pde_at pd t' i), (pde_at pd t i); [done| | |done].
  - by destruct (proj1 Hj (mk_is_Some _ _ eq_refl)).
  - by destruct (proj2 Hj (mk_is_Some _ _ eq_refl)).
Qed.

(** What setting up tables for a range of indices does to the rest. *)
Record extended pd t t' : Prop := {
  ex_ok : tables_ok pd t';
  ex_pd : KERNEL_PD_PADDR t' = KERNEL_PD_PADDR t /\ KERNEL_CR3 t' = KERNEL_CR3 t;
  ex_kept j e : 0 <= j < 1024 -> pde_at pd t j = Some e -> pde_at pd t' j = Some e;
  ex_same a : translate pd t' a = translate pd t a
}.

Lemma extended_step pd t i : tables_ok pd t -> 0 <= i < 1024 -> pde_at pd t i = None -> pool_next t < NUM_KERNEL_PAGE_TABLES ->
  extended pd t (with_table pd i t) /\
  forall n, i + 1 + Z.of_nat n <= 1024 -> missing pd (with_table pd i t) n (i + 1) = missing pd t n (i + 1).
Proof.
  intros Hok Hi Hnone Hlt. pose proof (to_next _ _ Hok). split.
  - split; [by apply with_table_ok|done| |by intros; apply with_table_translate].
    intros j e Hj He. rewrite with_table_pde by lia. by destruct (Z.eqb_spec j i); [congruence|].
  - intros n Hn. apply missing_same. intros j Hj.
    rewrite with_table_pde by lia. by destruct (Z.eqb_spec j i); [lia|].
Qed.

Lemma extended_refl pd t : tables_ok pd t -> extended pd t t.
Proof. done. Qed.

Lemma extended_trans pd t1 t2 t3 : extended pd t1 t2 -> extended pd t2 t3 -> extended pd t1 t3.
Proof. intros [_ [H1 H2] H3 H4] [H5 [H6 H7] H8 H9]. split; [done|split; congruence|auto|intros a; by rewrite H9]. Qed.

(** The loop takes as many tables as are missing, or fails when the pool is empty. *)
Lemma wp_ensure_pts n : forall i pd t (Q : res Error unit → KernelTables → Prop), tables_ok pd t -> 0 <= i -> i + Z.of_nat n <= 1023 ->
  (forall t', extended pd t t' -> pool_next t + missing pd t n i <= NUM_KERNEL_PAGE_TABLES ->
     pool_next t' = pool_next t + missing pd t n i -> (forall j, i <= j < i + Z.of_nat n -> is_Some (pde_at pd t' j)) -> Q (Ok tt) t') ->
  (forall t', extended pd t t' -> NUM_KERNEL_PAGE_TABLES < pool_next t + missing pd t n i -> Q (Err no_slots) t') ->
  wp (ensure_pts n i pd) t Q.
Proof.
  induction n as [|n IH]; intros i pd t Q Hok Hi Hn H1 H2; cbn [ensure_pts missing] in *.
  - wstep. pose proof (to_next _ _ Hok). apply H1; [done|lia|lia|intros; lia].
  - do 2 wstep. rewrite usize_mul_ok by (change PGTAB_SIZE with 4194304; width).
    assert (pd_index (i * PGTAB_SIZE) = i) as -> by (rewrite pd_index_eq, Z.div_mul by done; apply Z.mod_small; lia).
    wstep. apply wp_ensure_pt; [done|lia| | |].
    + intros e He. rewrite He in *. apply IH; [done|lia|lia| |].
      * intros t' Ht' Hle Hnx Hall. apply H1; [done|lia|lia|]. intros j Hj. destruct (Z.eq_dec j i) as [->|]; [|apply Hall; lia].
        exists e. by apply Ht'; [lia|].
      * intros t' Ht' Hlt. apply H2; [done|lia].
    + intros Hnone Hlt. rewrite Hnone in *. destruct (extended_step pd t i Hok ltac:(lia) Hnone Hlt) as [Hex Hms]. specialize (Hms n ltac:(lia)).
      assert (0 <= pool_next t < NUM_KERNEL_PAGE_TABLES) as Hb by (pose proof (to_next _ _ Hok); lia).
      apply IH; [apply with_table_ok; (done || lia)|lia|lia| |]; rewrite with_table_next, Hms.
      * intros t' Ht' Hle Hnx Hall. apply H1; [by eapply extended_trans|lia|lia|]. intros j Hj. destruct (Z.eq_dec j i) as [->|]; [|apply Hall; lia].
        exists (table_pde (pool_next t)). apply Ht'; [lia|]. rewrite with_table_pde by lia. by rewrite Z.eqb_refl.
      * intros t' Ht' Hlt'. apply H2; [by eapply extended_trans|lia].
    + intros Hnone Hfull. rewrite Hnone in *. pose proof (missing_nonneg pd t n (i + 1)). apply H2; [done|lia].
Qed.

(** The map has been set up: every part of memory has a table. *)
Record ready t : Prop := {
  rd_ok : tables_ok (KERNEL_PD_PADDR t) t;
  rd_all i : 0 <= i < NUM_PAGE_TABLES -> is_Some (pde_at (KERNEL_PD_PADDR t) t i)
}.

Lemma publish_ok pd cr3 t : tables_ok pd t -> tables_ok pd (publish pd cr3 t).
Proof. intros [H1 H2 H3 H4 H5 H6 H7 H8]. by split. Qed.

Lemma map_init_wp pd cr3 t (Q : res Error unit → KernelTables → Prop) : tables_ok pd t ->
  (forall t', extended pd t t' -> pool_next t + missing pd t (Z.to_nat NUM_PAGE_TABLES) 0 <= NUM_KERNEL_PAGE_TABLES ->
     ready (publish pd cr3 t') -> Q (Ok tt) (publish pd cr3 t')) ->
  (forall t', extended pd t t' -> NUM_KERNEL_PAGE_TABLES < pool_next t + missing pd t (Z.to_nat NUM_PAGE_TABLES) 0 -> Q (Err no_slots) t') ->
  wp (init pd cr3) t Q.
Proof.
  intros Hok H1 H2. destruct memory_tables as [_ Hb]. unfold init. fold NUM_PAGE_TABLES. wstep. apply wp_ensure_pts; [done|lia|lia| |].
  - intros t' Ht' Hle _ Hall. wsteps. apply H1; [done|done|]. split; [apply publish_ok, Ht'|]. intros i Hi. apply Hall. lia.
  - intros t' Ht' Hlt. by apply H2.
Qed.

Lemma memory_index a : 0 <= a < MEMORY_SIZE -> 0 <= a < 2 ^ 32 /\ 0 <= pd_index a < NUM_PAGE_TABLES.
Proof.
  intros Ha. destruct memory_tables as [Hm Hb]. pose proof memory_size_bound as Hw. rewrite pd_index_eq.
  change PGTAB_SIZE with 4194304 in *. split; [width|].
  rewrite Z.mod_small; (split; [apply Z.div_pos; lia|apply Z.div_lt_upper_bound; [done|lia]]).
Qed.

(** The kernel sees memory at its physical address. *)
Lemma translate_identity pd t a b : tables_ok pd t -> 0 <= a < MEMORY_SIZE -> translate pd t a = Some b -> b = a.
Proof.
  intros Hok Ha. destruct (memory_index a Ha) as [Hw Hlt]. destruct (index_bounds a) as [Hi Hj]. pose proof (page_number a Hw) as Hpn.
  unfold translate. destruct (pde_at pd t (pd_index a)) as [e|] eqn:He; cbn [mbind option_bind]; [|done].
  destruct (pte_at t (PageDirectoryEntry.frame_address e) (pt_index a)) as [p|] eqn:Hp; cbn [mbind option_bind]; [|done].
  pose proof (to_identity _ _ Hok _ e _ p Hlt Hj He Hp) as Hid. intros [= <-].
  assert (numbered (pte_frame p)) as Hnum.
  { destruct (pte_decoded _ (to_ptes _ _ Hok _ e _ Hi Hj He)) as (q & _ & Hq & Hwq). unfold pte_at in Hp. rewrite Hwq in Hp.
    destruct (PageTableEntry.is_present q); by simplify_eq. }
  rewrite frame_word_fits by done. rewrite Hid, <- Hpn, Z.shiftl_mul_pow2 by lia. change (2 ^ 12) with PAGE_SIZE.
  pose proof (Z.div_mod a PAGE_SIZE ltac:(done)). lia.
Qed.

Lemma ready_step t addr : ready t -> ready (identity_map_page addr t).2.
Proof.
  intros [Hok Hall]. pose proof (map_page_wp _ t addr Hok eq_refl) as [Hm _]. unfold wp in Hm. destruct (identity_map_page addr t) as [r t'].
  destruct Hm as [Hok' [Hp _] Hkept _ _ _]. simpl in *. split; rewrite Hp; [done|]. intros i Hi. destruct (Hall i Hi) as [e He].
  destruct memory_tables. exists e. apply Hkept; [lia|done].
Qed.

(** Entering a page of memory cannot fail. *)
Lemma memory_page_ok t (addr : PageAligned PhysicalAddress) : ready t -> 0 <= into_raw_value addr < MEMORY_SIZE ->
  (identity_map_page addr t).1 = Ok tt /\
  mapped (KERNEL_PD_PADDR t) (into_raw_value addr) (Ok tt) t (identity_map_page addr t).2 /\
  pool_next (identity_map_page addr t).2 = pool_next t.
Proof.
  intros [Hok Hall] Hx. destruct (memory_index _ Hx) as [Hw Hi]. destruct memory_tables as [Hm Hb].
  assert (usize_of addr = into_raw_value addr) as Hu by (by apply Z.mod_small). pose proof (Hall _ Hi) as Hsome.
  pose proof (map_page_wp _ t addr Hok eq_refl) as Hwp. unfold wp in Hwp. rewrite Hu in Hwp. destruct Hwp as [Hmp Hgood].
  assert ((identity_map_page addr t).1 = Ok tt) as Hr.
  { apply Hgood; [done|]. apply Zlt_succ_le, Z.div_lt_upper_bound; [done|]. change PGTAB_SIZE with 4194304 in Hm. rewrite frame_number_max. unfold PAGE_SIZE. lia. }
  rewrite Hr in Hmp. splits; [done|done|]. by apply (mp_pool _ _ _ _ _ Hmp).
Qed.

(** Setting up the identity map either takes a table from the pool for every part of
    memory that has none, and publishes the directory, or fails because the pool is too
    small and publishes nothing.  No translation changes, and no table that was there is
    replaced. *)
Theorem identity_init_spec pd cr3 t : tables_ok pd t ->
  wp (init pd cr3) t (fun r t' =>
    (forall a, translate pd t' a = translate pd t a) /\
    (forall j e, 0 <= j < 1024 -> pde_at pd t j = Some e -> pde_at pd t' j = Some e) /\
    if pool_next t + missing pd t (Z.to_nat NUM_PAGE_TABLES) 0 <=? NUM_KERNEL_PAGE_TABLES
    then r = Ok tt /\ ready t' /\ KERNEL_PD_PADDR t' = pd /\ KERNEL_CR3 t' = cr3
    else r = Err no_slots /\ KERNEL_PD_PADDR t' = KERNEL_PD_PADDR t /\ KERNEL_CR3 t' = KERNEL_CR3 t).
Proof.
  intros Hok. apply map_init_wp; [done| |].
  - intros t' Ht' Hle Hr. rewrite (proj2 (Z.leb_le _ _)) by done. splits; [apply Ht'|apply Ht'|done|done|done|done].
  - intros t' Ht' Hlt. rewrite (proj2 (Z.leb_gt _ _)) by done. splits; [apply Ht'|apply Ht'|done|apply Ht'|apply Ht'].
Qed.

(** C21: once the map is set up, entering a page of memory succeeds and takes no table from
    the pool; afterwards the page is mapped to itself, and the kernel translates every
    other address as before. *)
Theorem identity_map_page_spec t (addr : PageAligned PhysicalAddress) : ready t -> 0 <= into_raw_value addr < MEMORY_SIZE ->
  wp (identity_map_page addr) t (fun r t' => r = Ok tt /\ ready t' /\ pool_next t' = pool_next t /\
    forall a, 0 <= a < 2 ^ 32 -> translate (KERNEL_PD_PADDR t) t' a =
      if a / PAGE_SIZE =? into_raw_value addr / PAGE_SIZE then Some a else translate (KERNEL_PD_PADDR t) t a).
Proof.
  intros Hr Hx. destruct (memory_page_ok t addr Hr Hx) as (Hok & Hmp & Hpool). destruct (memory_index _ Hx) as [Hw _]. unfold wp.
  splits; [done|by apply ready_step|done|]. intros a Ha. rewrite (mp_effect _ _ _ _ _ Hmp) by done.
  destruct (Z.eqb_spec (a / PAGE_SIZE) (into_raw_value addr / PAGE_SIZE)) as [He|]; [|done]. f_equal.
  destruct (translate (KERNEL_PD_PADDR t) t a) as [b|] eqn:Hb; [|done]. simpl.
  apply (translate_identity _ _ _ _ (rd_ok _ Hr)) in Hb; [done|]. split; [lia|]. destruct memory_tables as [Hm _].
  change PGTAB_SIZE with (PAGE_SIZE * 1024) in Hm. change PAGE_SIZE with 4096 in *.
  pose proof (Z.div_mod a 4096 ltac:(done)). pose proof (Z.div_mod (into_raw_value addr) 4096 ltac:(done)).
  pose proof (Z.mod_pos_bound a 4096 ltac:(done)). pose proof (Z.mod_pos_bound (into_raw_value addr) 4096 ltac:(done)). lia.
Qed.

End Proofs.

(** ** The interfaces of memory management *)

Section Instances.
Context {CF : Config} {HC : ConfigOk} {PTP : PageTablePool}.

(** The tables from the end of boot on. *)
Definition Tables : Type := {t : KernelTables | ready t}.

#[export] Program Instance Tables_IdentityMap : IdentityMap Tables := {
  identity_map_page addr t :=
    ((identity_map_page addr (proj1_sig t)).1,
     exist _ (identity_map_page addr (proj1_sig t)).2 (ready_step _ addr (proj2_sig t)))
}.
Next Obligation.
  intros addr [t [Hok Hall]]. simpl. destruct (map_page_wp _ t addr Hok eq_refl) as [[_ _ _ _ Hr _] _]. exact Hr.
Qed.

(** The directory [sync_kernel_pdes] copies from. *)
Definition directory (t : KernelTables) : PageDirectory :=
  mkPageDirectory (frame_at (KERNEL_PD_PADDR t / PAGE_SIZE))
    ((fun i => words t (KERNEL_PD_PADDR t + 4 * i)) <$> seqZ 0 PAGE_TABLE_LENGTH).

#[export] Program Instance Tables_KernelDirectory : KernelDirectory Tables := {
  kernel_pd t := Some (directory (proj1_sig t))
}.
Next Obligation.
  intros [t [Hok Hall]] pd [= <-]. split; cbn [pd_entries directory proj1_sig].
  - by rewrite length_fmap, length_seqZ.
  - apply Forall_fmap, Forall_forall. intros i Hi%elem_of_seqZ. apply (to_pdes _ _ Hok). exact Hi.
Qed.

#[export] Instance Tables_PreMapped : KMem.PreMapped Tables.
Proof.
  split. intros addr [t Hr] Hx. by destruct (memory_page_ok t addr Hr Hx).
Qed.

End Instances.

(** ** An example: four megabytes, so one table besides the directory *)

Definition sample_memory : Config := {|
  MEMORY_SIZE := 4194304;
  KERNEL_WATERMARK := 2;
  KSTACK_SIZE := 8192;
  KREDZONE_SIZE := 16;
  MAX_THREADS := 8;
  MAX_PROCESSES := 4;
  SCHEDULER_FREQ := 10
|}.

#[local] Existing Instance sample_memory.

#[local] Instance sample_memory_ok : ConfigOk.
Proof. split; [repeat constructor; vm_compute; discriminate|reflexivity]. Qed.

#[local] Program Instance sample_pool : PageTablePool := {
  PAGE_TABLE_STORAGE := 65536
}.
Next Obligation. done. Qed.
Next Obligation. by vm_compute. Qed.
Next Obligation. done. Qed.

(** The directory is in the first slot and names no table yet. *)
Definition sample_boot_tables : KernelTables := mkKernelTables (fun _ => 0) 1 0 0.

Lemma sample_boot_pde i : pde_at 65536 sample_boot_tables i = None.
Proof. done. Qed.

Lemma sample_tables_ok : tables_ok 65536 sample_boot_tables.
Proof.
  split.
  - by vm_compute.
  - exists 0. by vm_compute.
  - intros i _. by exists (mkPde (PageDirectoryEntryFlags.from_raw_value 0) (mkFrameNumber 0)).
  - intros i e _. by rewrite sample_boot_pde.
  - intros i j e f _ _. by rewrite sample_boot_pde.
  - intros i e j _ _. by rewrite sample_boot_pde.
  - intros i e j p _ _. by rewrite sample_boot_pde.
  - done.
Qed.

Lemma identity_init_spec_witness : exists t, ready t /\ KERNEL_PD_PADDR t = 65536.
Proof.
  pose proof (identity_init_spec 65536 65536 sample_boot_tables sample_tables_ok) as H. unfold wp in H.
  destruct H as (_ & _ & H).
  change (pool_next sample_boot_tables + missing 65536 sample_boot_tables (Z.to_nat NUM_PAGE_TABLES) 0 <=? NUM_KERNEL_PAGE_TABLES) with true in H.
  cbv iota in H. destruct H as (_ & Hr & Hp & _). eexists. split; [exact Hr|exact Hp].
Defined.

Lemma sample_ready : ready (mkKernelTables (words (init 65536 65536 sample_boot_tables).2) 2 65536 65536).
Proof.
  assert (wp (init 65536 65536) sample_boot_tables (fun r t => ready t)) as H; [|exact H].
  apply map_init_wp; [apply sample_tables_ok|done|]. intros t' _ Hlt. exfalso. revert Hlt. vm_compute. done.
Qed.

Lemma identity_map_page_spec_witness : exists t, ready t /\ translate 65536 t 8195 = Some 8195 /\ translate 65536 t 4096 = None.
Proof.
  destruct (identity_map_page_spec _ (mkPageAligned (mkPhysicalAddress (mkVirtualAddress 8192))) sample_ready ltac:(by vm_compute))
    as (_ & Hr & _ & Htr).
  eexists. split; [exact Hr|]. split; [apply (Htr 8195); by vm_compute|].
  etransitivity; [apply (Htr 4096); by vm_compute|]. vm_compute. reflexivity.
Defined.

End IdMap.
