(* ===== verification/Mappings.v ===== *)
(** * What address spaces mean

    An address space maps pages to page-table entries ([mapping]).  This file has
    the invariant that ties the list of user page tables to the page directory, and
    what each operation of [AddrSpace.v] does to the mappings, to the contents of
    memory and to the reference counts of the frames: every mapping owns one
    reference to its frame, every page table and the directory own theirs. *)

From S2P Require Import Prelude Error BitAlloc Bitmap Config Addr Paging Frame Phys KMem UserSpace AddrSpace.
#[local] Open Scope Z_scope.

(** ** Lists of tables *)

Section Tables.
Implicit Types (l : list (PageTableAddress * PageTable)) (a : PageTableAddress).

Lemma find_table_elem l a pt : NoDup l.*1 -> (a, pt) ∈ l <-> Vmem.find_table l a = Some pt.
Proof.
  induction l as [|[b q] l IH]; intros Hnd; simpl.
  { split; [by intros ?%elem_of_nil|done]. }
  apply NoDup_cons in Hnd as [Hni Hnd]. rewrite elem_of_cons, IH by done. destruct (decide (b = a)) as [->|Hne].
  - split; [|by intros [= ->]; left]. intros [[= ->]|H]; [done|]. exfalso. apply Hni.
    apply IH in H; [|done]. apply (list_elem_of_fmap_2 fst) in H. exact H.
  - split; [intros [[= -> ->]|]; [done|done]|by right].
Qed.

Lemma find_table_perm l l' a : NoDup l.*1 -> l ≡ₚ l' -> Vmem.find_table l a = Vmem.find_table l' a.
Proof.
  intros Hnd HP. assert (NoDup l'.*1) as Hnd' by (by rewrite <- HP).
  apply option_eq. intros pt. rewrite <- !find_table_elem by done. by rewrite HP.
Qed.

Lemma find_table_keys l a : is_Some (Vmem.find_table l a) <-> a ∈ l.*1.
Proof.
  induction l as [|[b q] l IH]; simpl.
  { split; [by intros [? ?]|by intros ?%elem_of_nil]. }
  rewrite elem_of_cons, <- IH. destruct (decide (b = a)) as [->|Hne]; [|naive_solver].
  split; [by left|by eexists].
Qed.

Lemma remove_table_Some l a pt : Vmem.find_table l a = Some pt -> exists rest,
  Vmem.remove_table l a = Some ((a, pt), rest) /\ l ≡ₚ (a, pt) :: rest.
Proof.
  induction l as [|[b q] l IH]; simpl; [done|]. destruct (decide (b = a)) as [->|Hne].
  - intros [= ->]. by exists l.
  - intros H. destruct (IH H) as (rest & -> & HP). exists ((b, q) :: rest). split; [done|].
    rewrite HP. apply Permutation_swap.
Qed.

Lemma remove_table_None l a : Vmem.find_table l a = None -> Vmem.remove_table l a = None.
Proof.
  induction l as [|[b q] l IH]; simpl; [done|]. destruct (decide (b = a)) as [->|Hne]; [done|].
  intros H. by rewrite IH.
Qed.

End Tables.

(** ** Page numbers *)

(** The pages of the user part, by number. *)
Definition USER_FIRST : Z := USER_BASE_RAW / PAGE_SIZE.
Definition USER_PAST : Z := USER_END_RAW / PAGE_SIZE.
Definition user_page (p : Z) : Prop := USER_FIRST <= p < USER_PAST.
Definition user_pages : list Z := seqZ USER_FIRST (USER_PAST - USER_FIRST).

Definition page_of (a : PageAddress) : Z := into_raw_value a / PAGE_SIZE.
(** The address of the table that has page [p]. *)
Definition table_of (p : Z) : PageTableAddress :=
  mkPageTableAligned (mkVirtualAddress (p / PAGE_TABLE_LENGTH * PGTAB_SIZE)).

(** Tables of the user part. *)
Definition user_table (a : PageTableAddress) : Prop :=
  exists k, a = mkPageTableAligned (mkVirtualAddress (k * PGTAB_SIZE)) /\
    USER_FIRST <= k * PAGE_TABLE_LENGTH < USER_PAST.

Ltac pages :=
  unfold user_page in *; change USER_FIRST with 262144 in *; change USER_PAST with 983040 in *;
  change USER_BASE_RAW with 1073741824 in *; change USER_END_RAW with 4026531840 in *;
  change PAGE_SIZE with 4096 in *; change FRAME_SIZE with 4096 in *;
  change PAGE_TABLE_LENGTH with 1024 in *; change PGTAB_SIZE with 4194304 in *;
  change usize_max with 4294967295 in *.

Lemma elem_of_user_pages p : p ∈ user_pages <-> user_page p.
Proof. unfold user_pages. rewrite elem_of_seqZ. pages. lia. Qed.

Lemma NoDup_user_pages : NoDup user_pages.
Proof. apply NoDup_seqZ. Qed.

Lemma length_user_pages : Z.of_nat (length user_pages) = 720896.
Proof. unfold user_pages. rewrite length_seqZ, Z2Nat.id; pages; lia. Qed.

#[global] Opaque user_pages.

Lemma user_addr_page (a : PageAddress) : is_user_addr (pg_inner a) = true -> in_word a /\ user_page (page_of a).
Proof.
  unfold is_user_addr, in_word, page_of. simpl. rewrite andb_true_iff, Z.leb_le, Z.ltb_lt. pages. intros H.
  split; [lia|]. split; [apply Z.div_le_lower_bound|apply Z.div_lt_upper_bound]; lia.
Qed.

(** The address of page [p]. *)
Definition page_at (p : Z) : PageAddress := mkPageAligned (mkVirtualAddress (p * PAGE_SIZE)).

Lemma page_raw (p : Z) : 0 <= p -> from_raw_value (T:=PageAddress) (p * PAGE_SIZE) =
  Ok (page_at p) /\
  page_of (page_at p) = p.
Proof.
  intros Hp. split; [|unfold page_of; simpl; by apply Z.div_mul]. simpl.
  apply page_aligned_ok; [done|]. simpl. by apply Z.mod_mul.
Qed.

(** Numbers of user pages are those of user addresses. *)
Lemma page_user p : is_user_addr (pg_inner (page_at p)) = true <-> user_page p.
Proof. unfold is_user_addr. simpl. rewrite andb_true_iff, Z.leb_le, Z.ltb_lt. pages. lia. Qed.

Lemma page_table_index (a : PageAddress) : in_word a -> get_pte_index a = page_of a mod PAGE_TABLE_LENGTH.
Proof. intros Ha. by rewrite pte_index_eq. Qed.

Lemma table_address_ok (a : PageAddress) : in_word a ->
  Vmem.table_address a = Ok (table_of (page_of a)).
Proof.
  intros Ha. unfold Vmem.table_address, table_of, page_of. unfold in_word in Ha. simpl in *.
  set (x := va_raw (pg_inner a)) in *. rewrite align_down_mod by done.
  change (Alignment_value PGTAB_ALIGNMENT) with PGTAB_SIZE.
  unfold PageTableAligned_from_address. simpl. rewrite is_aligned_mod.
  change (Alignment_value PGTAB_ALIGNMENT) with PGTAB_SIZE.
  rewrite Zminus_mod, Z.mod_mod, Z.sub_diag by done. simpl. do 3 f_equal.
  rewrite Z.div_div by done. change (PAGE_SIZE * PAGE_TABLE_LENGTH) with PGTAB_SIZE.
  pose proof (Z.div_mod x PGTAB_SIZE ltac:(done)). lia.
Qed.

Lemma table_of_user p : user_page p -> user_table (table_of p).
Proof.
  intros Hp. exists (p / PAGE_TABLE_LENGTH). split; [done|]. pages.
  pose proof (Z.div_mod p 1024 ltac:(lia)). pose proof (Z.mod_pos_bound p 1024 ltac:(lia)). lia.
Qed.

Lemma table_of_eq p q : table_of p = table_of q -> p mod PAGE_TABLE_LENGTH = q mod PAGE_TABLE_LENGTH -> p = q.
Proof.
  unfold table_of. intros [= H] Hm. pages. pose proof (Z.div_mod p 1024 ltac:(lia)).
  pose proof (Z.div_mod q 1024 ltac:(lia)). lia.
Qed.

Lemma user_table_index a : user_table a -> pt_in_word a /\
  exists k, a = Vmem.pde_address k /\ get_pde_index a = k /\ USER_FIRST <= k * PAGE_TABLE_LENGTH < USER_PAST.
Proof.
  intros (k & -> & Hk). assert (pt_in_word (mkPageTableAligned (mkVirtualAddress (k * PGTAB_SIZE)))) as Hw.
  { unfold pt_in_word. simpl. pages. lia. }
  split; [done|]. exists k. split; [done|]. split; [|done]. rewrite pde_index_eq by done. simpl. by apply Z.div_mul.
Qed.

Lemma user_table_inj a b : user_table a -> user_table b -> get_pde_index a = get_pde_index b -> a = b.
Proof.
  intros Ha Hb E. destruct (user_table_index _ Ha) as (_ & k & -> & Hk & _).
  destruct (user_table_index _ Hb) as (_ & k' & -> & Hk' & _). congruence.
Qed.

Lemma user_table_range a : user_table a -> 0 <= get_pde_index a < PAGE_TABLE_LENGTH.
Proof. intros Ha. apply pde_index_bound. by apply user_table_index in Ha as [? _]. Qed.

(** ** The invariant *)

(** A frame of memory. *)
Definition real_frame `{Config} (f : FrameAddress) : Prop :=
  exists n, f = frame_at n /\ 0 <= n <= FrameNumber_MAX /\ n * FRAME_SIZE < MEMORY_SIZE.

Section Invariant.
Context {CF : Config}.
Implicit Types (v : Vmem).

Record tbl_ok (t : PageTableAddress * PageTable) : Prop := {
  tbl_user : user_table t.1;
  tbl_pt : pt_ok t.2;
  tbl_base : real_frame (pt_base t.2)
}.

(** The entry of the directory for a user table. *)
Definition points_to (pd : PageDirectory) (t : PageTableAddress * PageTable) : Prop :=
  exists n, pt_base t.2 = frame_at n /\ pd_entry pd (get_pde_index t.1) = Some (mapped_pde n false RDWR).

(** Kernel tables are outside the user part. *)
Definition kernel_ok (t : PageTableAddress * FrameAddress) : Prop :=
  pt_in_word t.1 /\ real_frame t.2 /\ forall a, user_table a -> get_pde_index a <> get_pde_index t.1.

Record vm_ok v : Prop := {
  vm_pd : pd_ok (pgdir v);
  vm_base : pd_base (pgdir v) = storage_base (pgdir_storage v);
  vm_real : real_frame (storage_base (pgdir_storage v));
  vm_nodup : NoDup (user_page_tables v).*1;
  vm_tables : Forall tbl_ok (user_page_tables v);
  vm_points : Forall (points_to (pgdir v)) (user_page_tables v);
  vm_pdes a : user_table a -> is_Some (pd_entry (pgdir v) (get_pde_index a)) -> a ∈ (user_page_tables v).*1;
  vm_kernel : Forall kernel_ok (kernel_page_tables v)
}.

(** No table is empty. *)
Definition vm_used v : Prop := Forall (fun t => 0 < nmapped t.2) (user_page_tables v).
Definition vm_inv v : Prop := vm_ok v /\ vm_used v.

(** ** The mappings *)

Definition mapping v (p : Z) : option PageTableEntry :=
  pt ← Vmem.find_table (user_page_tables v) (table_of p); entry pt (p mod PAGE_TABLE_LENGTH).

Definition view : Type := Z → option PageTableEntry.
Definition view_set (W : view) (p : Z) (o : option PageTableEntry) : view :=
  fun q => if q =? p then o else W q.

(** The frame a page is mapped to. *)
Definition handle (e : PageTableEntry) : FrameAddress := frame_at (fn_raw (pte_frame e)).

Definition ref_of (o : option PageTableEntry) : list FrameAddress :=
  match o with Some e => [handle e] | None => [] end.

(** The references an address space owns: one per mapping, one per table and the
    one of the page that holds its directory. *)
Definition user_frames (W : view) : list FrameAddress := omap (fun p => handle <$> W p) user_pages.
Definition table_frames v : list FrameAddress := (fun t => pt_base t.2) <$> user_page_tables v.
Definition own_frames v : list FrameAddress :=
  private_kernel_pages v ++ match pgdir_storage v with Bss _ => [] | KernelPage f => [f] end.
Definition handles v : list FrameAddress := user_frames (mapping v) ++ table_frames v ++ own_frames v.

(** What an operation leaves alone. *)
Definition shell v :=
  (pgdir_storage v, kernel_page_tables v, kernel_pages v, private_kernel_pages v).

(** An operation that makes the mappings [W] and the tables [T] of an address space. *)
Record effect v (W : view) (T : list FrameAddress) v' : Prop := {
  ef_ok : vm_ok v';
  ef_used : vm_used v -> vm_used v';
  ef_view p : user_page p -> mapping v' p = W p;
  ef_tables : table_frames v' ≡ₚ T;
  ef_shell : shell v' = shell v
}.

Lemma user_frames_ext W W' : (forall p, user_page p -> W p = W' p) -> user_frames W = user_frames W'.
Proof.
  intros H. unfold user_frames. apply list_omap_ext, Forall2_same_length_lookup_2; [done|].
  intros i p q Hp Hq. rewrite Hp in Hq. injection Hq as <-. rewrite H; [done|].
  apply elem_of_user_pages. by eapply list_elem_of_lookup_2.
Qed.

Lemma omap_cons_app (W : view) p l :
  omap (fun q => handle <$> W q) (p :: l) = ref_of (W p) ++ omap (fun q => handle <$> W q) l.
Proof. simpl. by destruct (W p). Qed.

Lemma user_frames_none W : (forall p, W p = None) -> user_frames W = [].
Proof.
  intros H. unfold user_frames. generalize user_pages. intros l. induction l as [|p l IH]; [done|].
  rewrite omap_cons_app, H. exact IH.
Qed.

(** Changing one page changes one reference. *)
Lemma user_frames_set W p : user_page p -> exists X,
  user_frames W ≡ₚ ref_of (W p) ++ X /\
  forall o, user_frames (view_set W p o) ≡ₚ ref_of o ++ X.
Proof.
  intros Hp%elem_of_user_pages. apply elem_of_Permutation in Hp as [k Hk].
  assert (p ∉ k) as Hni.
  { assert (NoDup (p :: k)) as Hnd by (rewrite <- Hk; apply NoDup_user_pages). by apply NoDup_cons in Hnd as [? _]. }
  exists (omap (fun q => handle <$> W q) k). unfold user_frames. split.
  - by rewrite Hk, (omap_cons_app W).
  - intros o. rewrite Hk, (omap_cons_app (view_set W p o)). f_equiv.
    + unfold view_set. by rewrite Z.eqb_refl.
    + apply reflexive_eq, list_omap_ext, Forall2_same_length_lookup_2; [done|]. intros i q q' Hq Hq'. rewrite Hq in Hq'.
      injection Hq' as <-. unfold view_set. destruct (Z.eqb_spec q p) as [->|]; [|done].
      by apply list_elem_of_lookup_2 in Hq.
Qed.

Lemma user_frames_elem W f : f ∈ user_frames W <-> exists p e, user_page p /\ W p = Some e /\ f = handle e.
Proof.
  unfold user_frames. rewrite list_elem_of_omap. split.
  - intros (p & Hp%elem_of_user_pages & He). destruct (W p) as [e|] eqn:E; [|done]. injection He as <-. by exists p, e.
  - intros (p & e & Hp & He & ->). exists p. rewrite elem_of_user_pages, He. done.
Qed.

#[global] Opaque user_frames.

Lemma handles_effect v W T v' : effect v W T v' -> handles v' ≡ₚ user_frames W ++ T ++ own_frames v.
Proof.
  intros [Hok _ Hv HT Hs]. unfold handles. rewrite (user_frames_ext _ _ Hv), HT.
  unfold own_frames. by injection Hs as -> _ _ ->.
Qed.

Lemma effect_refl v : vm_ok v -> effect v (mapping v) (table_frames v) v.
Proof. by split. Qed.

Lemma effect_trans v1 W T v2 W' T' v3 : effect v1 W T v2 -> effect v2 W' T' v3 -> effect v1 W' T' v3.
Proof. intros [? ? ? ? Hs] [? ? ? ? Hs']. split; [done|tauto|done|done|congruence]. Qed.

Lemma effect_view v W W' T v' : effect v W T v' -> (forall p, user_page p -> W p = W' p) -> effect v W' T v'.
Proof. intros [? ? Hv ? ?] H. split; [done..| |done|done]. intros p Hp. by rewrite Hv, H. Qed.

Lemma effect_same v v' : effect v (mapping v) (table_frames v) v' -> handles v' ≡ₚ handles v.
Proof. intros H. by rewrite (handles_effect _ _ _ _ H). Qed.

(** ** Changing a table *)

Lemma swap_table v a pt pt' rest : vm_ok v -> user_page_tables v ≡ₚ (a, pt) :: rest ->
  pt_ok pt' -> pt_base pt' = pt_base pt ->
  let v' := Vmem.set_tables ((a, pt') :: rest) v in
  vm_ok v' /\ table_frames v' ≡ₚ table_frames v /\
  forall p, mapping v' p = if decide (table_of p = a) then entry pt' (p mod PAGE_TABLE_LENGTH) else mapping v p.
Proof.
  intros Hok HP Hpt Hb v'. pose proof Hok as [Hpd Hba Hre Hnd Ht Hpo Hpdes Hk].
  assert ((user_page_tables v').*1 ≡ₚ (user_page_tables v).*1) as Hkeys by (by rewrite HP).
  rewrite HP in Ht, Hpo. apply Forall_cons in Ht as [[Hu _ Hbase] Ht]. apply Forall_cons in Hpo as [Hp0 Hpo].
  splits.
  - split; [done|done|done|by rewrite Hkeys| | | |done].
    + constructor; [|done]. split; [done|done|]. simpl. by rewrite Hb.
    + constructor; [|done]. unfold points_to in *. simpl in *. by rewrite Hb.
    + intros b Hb1 Hb2. rewrite Hkeys. by apply Hpdes.
  - unfold table_frames. rewrite HP. simpl. by rewrite Hb.
  - intros p. unfold mapping. rewrite (find_table_perm _ _ _ Hnd HP). simpl.
    destruct (decide (a = table_of p)) as [->|Hne]; [by rewrite decide_True|]. by rewrite decide_False.
Qed.

Lemma mapping_table v p pt : vm_ok v -> Vmem.find_table (user_page_tables v) (table_of p) = Some pt ->
  mapping v p = entry pt (p mod PAGE_TABLE_LENGTH) /\ pt_ok pt.
Proof.
  intros Hok Hf. unfold mapping. rewrite Hf. split; [done|]. apply find_table_elem in Hf; [|apply Hok].
  by apply (proj1 (Forall_forall _ _) (vm_tables v Hok)) in Hf as [].
Qed.

(** One entry of one table: one page. *)
Lemma written_view v x o pt pt' rest : vm_ok v -> in_word x ->
  Vmem.find_table (user_page_tables v) (table_of (page_of x)) = Some pt ->
  user_page_tables v ≡ₚ (table_of (page_of x), pt) :: rest -> pt_ok pt' -> written x o pt pt' ->
  let v' := Vmem.set_tables ((table_of (page_of x), pt') :: rest) v in
  vm_ok v' /\ table_frames v' ≡ₚ table_frames v /\ forall p, mapping v' p = view_set (mapping v) (page_of x) o p.
Proof.
  intros Hok Hx Hf HP Hpt [Hb Hw] v'. destruct (swap_table v _ pt pt' rest Hok HP Hpt Hb) as (Hok' & HT & Hv).
  splits; [done..|]. intros p. unfold v'. rewrite Hv. unfold view_set. rewrite page_table_index in Hw by done.
  destruct (decide (table_of p = table_of (page_of x))) as [He|Hne].
  - rewrite Hw by (apply Z.mod_pos_bound; done).
    destruct (Z.eqb_spec (p mod PAGE_TABLE_LENGTH) (page_of x mod PAGE_TABLE_LENGTH)) as [Hm|Hm].
    + rewrite (table_of_eq _ _ He Hm). by rewrite Z.eqb_refl.
    + destruct (Z.eqb_spec p (page_of x)) as [->|]; [done|]. unfold mapping. by rewrite He, Hf.
  - destruct (Z.eqb_spec p (page_of x)) as [->|]; done.
Qed.

Lemma wp_lookup_table v a (Q : res Error unit → Vmem → Prop) : vm_ok v ->
  (forall pt rest, Vmem.find_table (user_page_tables v) a = Some pt ->
     user_page_tables v ≡ₚ (a, pt) :: rest -> Q (Ok tt) (Vmem.set_tables ((a, pt) :: rest) v)) ->
  (forall e, Vmem.find_table (user_page_tables v) a = None -> Q (Err e) v) ->
  wp (Vmem.lookup_user_page_table a) v Q.
Proof.
  intros Hok H1 H2. unfold Vmem.lookup_user_page_table. wsteps.
  destruct (Vmem.find_table (user_page_tables v) a) as [pt|] eqn:Hf.
  - destruct (remove_table_Some _ _ _ Hf) as (rest & -> & HP). wsteps. by apply H1.
  - rewrite remove_table_None by done. wsteps. by apply H2.
Qed.

Lemma wp_on_front {A} v a pt l (m : M PageTable Error A) (Q : res Error A → Vmem → Prop) :
  user_page_tables v = (a, pt) :: l -> wp m pt (fun r pt' => Q r (Vmem.set_tables ((a, pt') :: l) v)) ->
  wp (Vmem.on_front m) v Q.
Proof. intros Hl Hm. unfold Vmem.on_front. wsteps. rewrite Hl. by wsteps. Qed.

(** No table is empty, but perhaps that at [a]. *)
Definition vm_used_but a v : Prop := Forall (fun t => t.1 = a \/ 0 < nmapped t.2) (user_page_tables v).

Lemma used_used_but a v : vm_used v -> vm_used_but a v.
Proof. intros H. eapply Forall_impl; [exact H|]. auto. Qed.

Lemma used_written v x e pt pt' rest : vm_ok v -> vm_used_but (table_of (page_of x)) v ->
  user_page_tables v ≡ₚ (table_of (page_of x), pt) :: rest -> in_word x -> pt_ok pt' -> written x (Some e) pt pt' ->
  vm_used (Vmem.set_tables ((table_of (page_of x), pt') :: rest) v).
Proof.
  unfold vm_used, vm_used_but. intros Hok Hu HP Hx Hpt [_ Hw]. pose proof (vm_nodup v Hok) as Hnd.
  rewrite HP in Hu, Hnd. apply Forall_cons in Hu as [_ Hu]. apply NoDup_cons in Hnd as [Hni _].
  constructor; [simpl; rewrite (pt_count _ Hpt)|].
  2: { apply Forall_forall. intros t Ht. destruct (proj1 (Forall_forall _ _) Hu t Ht) as [He|]; [|done].
       exfalso. apply Hni. simpl. rewrite <- He. by apply list_elem_of_fmap_2. }
  assert (entry pt' (get_pte_index x) = Some e) as He.
  { rewrite Hw by (by apply pte_index_bound). by rewrite Z.eqb_refl. }
  apply entry_count in He. lia.
Qed.

(** Operations on the entry of a page: they change it or leave it alone. *)
Lemma wp_on_page {A} v x (m : M PageTable Error A) (Q : res Error A → Vmem → Prop) :
  vm_ok v -> is_user_addr (pg_inner x) = true ->
  (forall pt, mapping v (page_of x) = entry pt (get_pte_index x) -> pt_ok pt ->
     wp m pt (fun r pt' => forall v',
       (pt' = pt -> effect v (mapping v) (table_frames v) v') ->
       (forall e, pt_ok pt' -> written x (Some e) pt pt' ->
          effect v (view_set (mapping v) (page_of x) (Some e)) (table_frames v) v' /\
          (vm_used_but (table_of (page_of x)) v -> vm_used v')) -> Q r v')) ->
  (forall e, Vmem.find_table (user_page_tables v) (table_of (page_of x)) = None -> Q (Err e) v) ->
  wp (Vmem.lookup_user_page_table (table_of (page_of x));; Vmem.on_front m) v Q.
Proof.
  intros Hok Hx H1 H2. destruct (user_addr_page x Hx) as [Hw Hp]. wstep. apply wp_lookup_table; [done| |].
  - intros pt rest Hf HP. destruct (mapping_table v _ pt Hok Hf) as [Hm Hpt]. rewrite <- page_table_index in Hm by done.
    eapply wp_on_front; [done|]. eapply wp_mono; [by apply (H1 pt)|]. simpl. intros r pt' HQ. apply HQ.
    + intros ->. destruct (swap_table v _ pt pt rest Hok HP Hpt eq_refl) as (Hok' & HT & Hv).
      split; [done| | |done|done]; simpl.
      * unfold vm_used. simpl. by rewrite HP.
      * intros p Hp'. etrans; [apply Hv|]. case_decide as Hd; [|done]. unfold mapping. by rewrite Hd, Hf.
    + intros e Hpt' Hwr. destruct (written_view v x _ pt pt' rest Hok Hw Hf HP Hpt' Hwr) as (Hok' & HT & Hv).
      assert (vm_used_but (table_of (page_of x)) v ->
        vm_used (Vmem.set_tables ((table_of (page_of x), pt') :: rest) v)) as Hu'.
      { intros Hu. by apply (used_written v x e pt). }
      split; [|done]. split; [done| |intros p _; exact (Hv p)|done|done]. intros Hu. by apply Hu', used_used_but.
  - intros e Hf. by apply H2.
Qed.

End Invariant.
