(* ===== verification/Enumerate.v ===== *)
(** * Visiting the mappings of an address space

    [for_each_user_mapping] of [kernel/src/mm/virt/vmem.rs] visits every mapped user
    page once, with its entry, whatever the order of the tables. *)

From S2P Require Import Prelude Error Config Addr Paging UserSpace AddrSpace.
From S2P Require Import Mappings.
#[local] Open Scope Z_scope.

(** The first page of a table. *)
Definition table_page (a : PageTableAddress) : Z := into_raw_value a / PAGE_SIZE.

Definition entries (t : PageTableAddress * PageTable) : list (Z * PageTableEntry) :=
  (fun ie => (table_page t.1 + Z.of_nat ie.1, ie.2)) <$> PageTable.iter_present_ptes t.2.

(** The pages with their entries, in the order of the visit. *)
Definition enum (v : Vmem) : list (Z * PageTableEntry) := user_page_tables v ≫= entries.

(** Calling [f] on each. *)
Fixpoint each {S} (l : list (Z * PageTableEntry)) (f : PageAddress → PageTableEntry → M S Error unit)
    : M S Error unit :=
  match l with
  | [] => mret tt
  | (p, e) :: l => f (page_at p) e;; each l f
  end.

Section Enumerate.
Context {CF : Config}.
Implicit Types (v : Vmem) (t : PageTableAddress * PageTable).

Lemma each_app {S} l l' (f : PageAddress → PageTableEntry → M S Error unit) s :
  each (l ++ l') f s = (each l f;; each l' f) s.
Proof.
  revert s. induction l as [|[p e] l IH]; intros s; [done|]. simpl. unfold mbind, M_bind in *.
  destruct (f (page_at p) e s) as [[[]|er|] s']; [apply IH|done|done].
Qed.

(** ** One table *)

Lemma present_elem n l i e : (i, e) ∈ PageTable.present_from n l <->
  exists j w, l !! j = Some w /\ i = (n + j)%nat /\ word_pte w = Some e.
Proof.
  revert n. induction l as [|w l IH]; intros n; simpl.
  { split; [by intros ?%elem_of_nil|by intros (j & w & ? & _)]. }
  assert ((i, e) ∈ PageTable.present_from (S n) l <->
    exists j w', (w :: l) !! S j = Some w' /\ i = (n + S j)%nat /\ word_pte w' = Some e) as IH'.
  { rewrite IH. simpl. split; intros (j & w' & ? & ? & ?); exists j, w'; (split; [done|split; [lia|done]]). }
  unfold word_pte in *. destruct (PageTableEntry.from_raw_value w) as [x|] eqn:Ew; simpl.
  2: { rewrite IH'. split; [intros (j & w' & H); by exists (S j), w'|].
       intros ([|j] & w' & Hl & Hi & He); [|by exists j, w']. injection Hl as <-. by rewrite Ew in He. }
  destruct (PageTableEntry.is_present x) eqn:Hp.
  - rewrite elem_of_cons, IH'. split.
    + intros [[= -> ->]|(j & w' & H)]; [|by exists (S j), w']. exists 0%nat, w. rewrite Ew. simpl. rewrite Hp. split; [done|split; [lia|done]].
    + intros ([|j] & w' & Hl & Hi & He); [|right; by exists j, w']. left. injection Hl as <-. rewrite Ew in He. simpl in He.
      rewrite Hp in He. injection He as ->. f_equal. lia.
  - rewrite IH'. split; [intros (j & w' & H); by exists (S j), w'|].
    intros ([|j] & w' & Hl & Hi & He); [|by exists j, w']. injection Hl as <-. rewrite Ew in He. simpl in He. by rewrite Hp in He.
Qed.

Lemma present_nodup n l : NoDup (PageTable.present_from n l).*1.
Proof.
  revert n. induction l as [|w l IH]; intros n; cbn [PageTable.present_from]; [constructor|].
  destruct (PageTableEntry.from_raw_value w) as [x|]; [|apply IH]. destruct (PageTableEntry.is_present x); [|apply IH].
  rewrite fmap_cons. constructor; [|apply IH]. intros ([i e] & Hi & Hin)%list_elem_of_fmap.
  apply present_elem in Hin as (j & _ & _ & -> & _). simpl in Hi. lia.
Qed.

Lemma table_page_of t : tbl_ok t -> exists k, t.1 = table_of (k * PAGE_TABLE_LENGTH) /\
  table_page t.1 = k * PAGE_TABLE_LENGTH /\ into_raw_value t.1 = k * PAGE_TABLE_LENGTH * PAGE_SIZE /\
  USER_FIRST <= k * PAGE_TABLE_LENGTH < USER_PAST.
Proof.
  intros [(k & Hk & Hr) _ _]. exists k. unfold table_page. rewrite Hk. simpl. split; [|split; [|split; [|done]]].
  - unfold table_of. by rewrite Z.div_mul.
  - change PGTAB_SIZE with (PAGE_TABLE_LENGTH * PAGE_SIZE). rewrite Z.mul_assoc. by rewrite Z.div_mul.
  - change PGTAB_SIZE with (PAGE_TABLE_LENGTH * PAGE_SIZE). lia.
Qed.

Lemma table_of_page k i : 0 <= i < PAGE_TABLE_LENGTH ->
  table_of (k * PAGE_TABLE_LENGTH + i) = table_of (k * PAGE_TABLE_LENGTH) /\
  (k * PAGE_TABLE_LENGTH + i) mod PAGE_TABLE_LENGTH = i.
Proof.
  intros Hi. unfold table_of. rewrite Z.div_add_l, Z.div_mul by done. rewrite (Z.div_small i) by done.
  rewrite Z.add_0_r. split; [done|]. rewrite Z.add_comm, Z.mod_add by done. by apply Z.mod_small.
Qed.

Lemma entries_elem t p e : tbl_ok t -> (p, e) ∈ entries t <->
  user_page p /\ t.1 = table_of p /\ entry t.2 (p mod PAGE_TABLE_LENGTH) = Some e.
Proof.
  intros Ht. destruct (table_page_of t Ht) as (k & Ek & Hk & _ & Hr). pose proof (pt_length _ (tbl_pt t Ht)) as Hlen.
  unfold entries, PageTable.iter_present_ptes. rewrite list_elem_of_fmap. setoid_rewrite Hk. split.
  - intros ([i x] & [= -> ->] & (j & w & Hj & -> & Hw)%present_elem). cbn [fst snd] in *. rewrite Nat.add_0_l in *.
    pose proof (lookup_lt_Some _ _ _ Hj) as Hlt. rewrite Hlen in Hlt. change (Z.to_nat PAGE_TABLE_LENGTH) with 1024%nat in Hlt.
    destruct (table_of_page k (Z.of_nat j)) as [E1 E2]; [pages; lia|]. rewrite E1, E2. split; [pages; lia|]. split; [done|].
    unfold entry. by rewrite Nat2Z.id, Hj.
  - intros (Hp & E & He). unfold entry in He. destruct (pt_entries t.2 !! _) as [w|] eqn:Hj; [|done]. simpl in He.
    exists (Z.to_nat (p mod PAGE_TABLE_LENGTH), e). split.
    + simpl. f_equal. rewrite Z2Nat.id by (apply Z.mod_pos_bound; done). rewrite Ek in E. unfold table_of in E. injection E as E.
      rewrite Z.div_mul in E by done. pose proof (Z.div_mod p PAGE_TABLE_LENGTH ltac:(done)). pages. lia.
    + apply present_elem. exists (Z.to_nat (p mod PAGE_TABLE_LENGTH)), w. done.
Qed.

Lemma entries_nodup t : NoDup (entries t).*1.
Proof.
  unfold entries. rewrite <- list_fmap_compose.
  assert (fst ∘ (fun ie : nat * PageTableEntry => (table_page t.1 + Z.of_nat ie.1, ie.2)) =
    (fun i : nat => table_page t.1 + Z.of_nat i) ∘ fst) as -> by done.
  rewrite list_fmap_compose. assert (Inj eq eq (fun i : nat => table_page t.1 + Z.of_nat i)) by (intros i j H; lia).
  apply (NoDup_fmap_2 _), present_nodup.
Qed.

(** ** All tables *)

Lemma enum_elem v p e : vm_ok v -> (p, e) ∈ enum v <-> user_page p /\ mapping v p = Some e.
Proof.
  intros Hok. unfold enum. rewrite list_elem_of_bind. split.
  - intros ([a pt] & Hin & Ht). pose proof (proj1 (Forall_forall _ _) (vm_tables v Hok) _ Ht) as Hto.
    apply (entries_elem _ _ _ Hto) in Hin as (Hp & E & He). simpl in E, He. split; [done|]. subst a.
    apply find_table_elem in Ht; [|apply Hok]. unfold mapping. by rewrite Ht.
  - intros [Hp Hm]. unfold mapping in Hm. destruct (Vmem.find_table _ _) as [pt|] eqn:Hf; [|done]. simpl in Hm.
    apply find_table_elem in Hf; [|apply Hok]. exists (table_of p, pt). split; [|done].
    apply entries_elem; [by apply (proj1 (Forall_forall _ _) (vm_tables v Hok))|done].
Qed.

Lemma enum_nodup v : vm_ok v -> NoDup (enum v).*1.
Proof.
  intros Hok. pose proof (vm_nodup v Hok) as Hnd. pose proof (vm_tables v Hok) as Ht. unfold enum.
  induction (user_page_tables v) as [|t l IH]; [constructor|]. rewrite fmap_cons in Hnd.
  apply NoDup_cons in Hnd as [Hni Hnd]. apply Forall_cons in Ht as [Hto Ht].
  change ((t :: l) ≫= entries) with (entries t ++ (l ≫= entries)). rewrite fmap_app.
  apply NoDup_app. split; [apply entries_nodup|]. split; [|by apply IH].
  intros p ([q e] & -> & Hin)%list_elem_of_fmap ([q' e'] & Hq & (t' & Hin' & Ht')%list_elem_of_bind)%list_elem_of_fmap.
  simpl in Hq. subst q'. apply (entries_elem _ _ _ Hto) in Hin as (_ & E & _).
  apply (entries_elem _ _ _ (proj1 (Forall_forall _ _) Ht _ Ht')) in Hin' as (_ & E' & _).
  apply Hni. rewrite E, <- E'. by apply list_elem_of_fmap_2.
Qed.

Lemma for_each_pte_eq {S} t (f : PageAddress → PageTableEntry → M S Error unit) s : tbl_ok t ->
  Vmem.for_each_pte (into_raw_value t.1) (PageTable.iter_present_ptes t.2) f s = each (entries t) f s.
Proof.
  intros Ht. destruct (table_page_of t Ht) as (k & _ & Hk & Hb & Hr). pose proof (pt_length _ (tbl_pt t Ht)) as Hlen.
  unfold entries. rewrite Hk, Hb.
  assert (Forall (fun ie : nat * PageTableEntry => Z.of_nat ie.1 < PAGE_TABLE_LENGTH) (PageTable.iter_present_ptes t.2)) as Hall.
  { apply Forall_forall. intros [i e] (j & w & Hj & -> & _)%present_elem. apply lookup_lt_Some in Hj. rewrite Hlen in Hj.
    change (Z.to_nat PAGE_TABLE_LENGTH) with 1024%nat in Hj. simpl. pages. lia. }
  revert s. induction Hall as [|[i e] l Hi _ IH]; intros s; [done|]. cbn [Vmem.for_each_pte fst snd] in *.
  rewrite fmap_cons. cbn [each fst snd]. unfold checked_mul, checked_add.
  destruct (Z.leb_spec (Z.of_nat i * PAGE_SIZE) usize_max); [|pages; lia].
  destruct (Z.leb_spec (k * PAGE_TABLE_LENGTH * PAGE_SIZE + Z.of_nat i * PAGE_SIZE) usize_max); [|pages; lia].
  rewrite <- Z.mul_add_distr_r. destruct (page_raw (k * PAGE_TABLE_LENGTH + Z.of_nat i)) as [-> _]; [pages; lia|].
  unfold mbind, M_bind, lift in *. destruct (f _ e s) as [[[]|er|] s']; [apply IH|done|done].
Qed.

Lemma for_each_eq {S} v (f : PageAddress → PageTableEntry → M S Error unit) s : vm_ok v ->
  Vmem.for_each_user_mapping v f s = each (enum v) f s.
Proof.
  intros Hok. pose proof (vm_tables v Hok) as Ht. unfold Vmem.for_each_user_mapping, enum. revert s.
  induction (user_page_tables v) as [|[a pt] l IH]; intros s; [done|]. apply Forall_cons in Ht as [Hto Ht].
  change (((a, pt) :: l) ≫= entries) with (entries (a, pt) ++ (l ≫= entries)). rewrite each_app.
  cbn [Vmem.for_each_table]. unfold mbind at 1 2, M_bind.
  pose proof (for_each_pte_eq (a, pt) f s Hto) as E. cbn [fst snd] in E. rewrite E.
  destruct (each (entries (a, pt)) f s) as [[[]|er|] s']; [by apply IH|done|done].
Qed.

End Enumerate.
