(* ===== verification/VmemSpec.v ===== *)
(** * What the operations on address spaces do

    For every operation of [AddrSpace.v]: the mappings it makes, the frames it
    takes and gives back, and the memory it leaves alone. *)

From S2P Require Import Prelude Error BitAlloc Bitmap Config Addr Paging Frame Phys KMem UserSpace AddrSpace.
From S2P Require Import Perm Mappings.
#[local] Open Scope Z_scope.

(** ** Looking up *)

Section Lookup.
Context {CF : Config}.
Implicit Types (v : Vmem) (x : PageAddress).

Lemma try_find_pte v x : vm_ok v -> in_word x -> Vmem.try_find_user_pte v x = Ok (mapping v (page_of x)).
Proof.
  intros Hok Hx. unfold Vmem.try_find_user_pte, mapping. rewrite table_address_ok by done. simpl.
  destruct (Vmem.find_table _ _) as [pt|] eqn:Hf; [|done]. destruct (mapping_table v _ pt Hok Hf) as [_ Hpt].
  by rewrite pt_read_pte_at, page_table_index.
Qed.

Lemma mapping_numbered v p e : vm_ok v -> mapping v p = Some e -> numbered (pte_frame e).
Proof.
  intros Hok Hm. unfold mapping in Hm. destruct (Vmem.find_table _ _) as [pt|] eqn:Hf; [|done].
  destruct (mapping_table v _ pt Hok Hf) as [_ Hpt]. by eapply pt_frames.
Qed.

Lemma find_frame v x : vm_ok v -> in_word x ->
  match mapping v (page_of x) with
  | Some e => Vmem.find_user_frame v x = Ok (handle e)
  | None => exists err, Vmem.find_user_frame v x = Err err
  end.
Proof.
  intros Hok Hx. unfold Vmem.find_user_frame, mapping. rewrite table_address_ok by done. simpl.
  destruct (Vmem.find_table _ _) as [pt|] eqn:Hf; [|by eexists].
  destruct (mapping_table v _ pt Hok Hf) as [_ Hpt]. simpl. rewrite <- page_table_index by done.
  pose proof (wp_pt_lookup pt x (fun r _ =>
    match entry pt (get_pte_index x) with Some e => r = Ok (handle e) | None => exists err, r = Err err end) Hpt Hx) as H.
  apply H; [by intros e -> _|]. intros ->. by eexists.
Qed.

Lemma try_find_frame v x : vm_ok v -> in_word x ->
  Vmem.try_find_user_frame v x = Ok (handle <$> mapping v (page_of x)).
Proof.
  intros Hok Hx. unfold Vmem.try_find_user_frame, mapping. rewrite table_address_ok by done. simpl.
  destruct (Vmem.find_table _ _) as [pt|] eqn:Hf; [|done].
  destruct (mapping_table v _ pt Hok Hf) as [_ Hpt]. simpl. rewrite <- page_table_index by done.
  assert ((PageTable.is_page_present x pt).1 = Ok (bool_decide (is_Some (entry pt (get_pte_index x))))) as ->.
  { by apply (wp_pt_is_present pt x (fun r _ => r = Ok (bool_decide (is_Some (entry pt (get_pte_index x)))))). }
  simpl. pose proof (wp_pt_lookup pt x (fun r _ =>
    forall e, entry pt (get_pte_index x) = Some e -> r = Ok (handle e)) Hpt Hx) as H.
  destruct (entry pt (get_pte_index x)) as [e|] eqn:He.
  - rewrite bool_decide_eq_true_2 by done. simpl.
    assert ((PageTable.lookup x pt).1 = Ok (handle e)) as ->; [|done].
    by apply H; [intros e' [= ->] _ e'' [= ->]|..].
  - rewrite bool_decide_eq_false_2 by by intros [? ?]. done.
Qed.

Lemma is_mapped v x : vm_ok v -> is_user_addr (pg_inner x) = true ->
  Vmem.is_user_page_mapped v x = Ok (bool_decide (is_Some (mapping v (page_of x)))).
Proof.
  intros Hok Hx. destruct (user_addr_page x Hx) as [Hw _]. unfold Vmem.is_user_page_mapped. rewrite Hx. simpl.
  rewrite try_find_frame by done. simpl. f_equal. apply bool_decide_ext. apply fmap_is_Some.
Qed.

(** ** Changing entries *)

Lemma wp_on_user_table {A} v x (m : M PageTable Error A) (Q : res Error A → Vmem → Prop) :
  vm_ok v -> is_user_addr (pg_inner x) = true ->
  (forall pt, mapping v (page_of x) = entry pt (get_pte_index x) -> pt_ok pt ->
     wp m pt (fun r pt' => forall v',
       (pt' = pt -> effect v (mapping v) (table_frames v) v') ->
       (forall e, pt_ok pt' -> written x (Some e) pt pt' ->
          effect v (view_set (mapping v) (page_of x) (Some e)) (table_frames v) v') -> Q r v')) ->
  (forall e v', mapping v (page_of x) = None -> effect v (mapping v) (table_frames v) v' -> Q (Err e) v') ->
  wp (Vmem.on_user_table x m) v Q.
Proof.
  intros Hok Hx H1 H2. destruct (user_addr_page x Hx) as [Hw _]. unfold Vmem.on_user_table. rewrite Hx. cbn [negb].
  do 2 wstep. rewrite table_address_ok by done. apply wp_on_page; [done..| |].
  - intros pt Hm Hpt. eapply wp_mono; [by apply H1|]. simpl. intros r pt' HQ v' Ha Hb. apply HQ; [done|].
    intros e He Hwr. by destruct (Hb e He Hwr).
  - intros e Hf. apply H2; [unfold mapping; by rewrite Hf|by apply effect_refl].
Qed.

Lemma wp_mark v x (Q : res Error unit → Vmem → Prop) : vm_ok v -> is_user_addr (pg_inner x) = true ->
  (forall e v', mapping v (page_of x) = Some e -> pte_writable e = true ->
     effect v (view_set (mapping v) (page_of x) (Some (cow_of e))) (table_frames v) v' -> Q (Ok tt) v') ->
  (forall err v', from_option pte_writable false (mapping v (page_of x)) = false ->
     effect v (mapping v) (table_frames v) v' -> Q (Err err) v') ->
  wp (Vmem.mark_user_page_cow x) v Q.
Proof.
  intros Hok Hx H1 H2. destruct (user_addr_page x Hx) as [Hw _]. unfold Vmem.mark_user_page_cow.
  apply wp_on_user_table; [done..| |].
  - intros pt Hm Hpt. rewrite Hm in H1, H2. apply wp_pt_mark_cow; [done..| |].
    + intros e He Hwr pt' Hpt' Hw' v' _ Hb. by eapply H1; [..|apply Hb].
    + intros err He v' Ha _. by apply H2; [|apply Ha].
  - intros e v' Hm Hv. apply H2; [by rewrite Hm|done].
Qed.

Lemma wp_unmark v x (Q : res Error unit → Vmem → Prop) : vm_ok v -> is_user_addr (pg_inner x) = true ->
  (forall e v', mapping v (page_of x) = Some e -> PageTableEntry.is_cow e = true ->
     effect v (view_set (mapping v) (page_of x) (Some (private_of e))) (table_frames v) v' -> Q (Ok tt) v') ->
  (forall err v', from_option PageTableEntry.is_cow false (mapping v (page_of x)) = false ->
     effect v (mapping v) (table_frames v) v' -> Q (Err err) v') ->
  wp (Vmem.unmark_user_page_cow x) v Q.
Proof.
  intros Hok Hx H1 H2. destruct (user_addr_page x Hx) as [Hw _]. unfold Vmem.unmark_user_page_cow.
  apply wp_on_user_table; [done..| |].
  - intros pt Hm Hpt. rewrite Hm in H1, H2. apply wp_pt_unmark_cow; [done..| |].
    + intros e He Hc pt' Hpt' Hw' v' _ Hb. by eapply H1; [..|apply Hb].
    + intros err He v' Ha _. by apply H2; [|apply Ha].
  - intros e v' Hm Hv. apply H2; [by rewrite Hm|done].
Qed.

(** A page that may be repointed: copy-on-write and not writable. *)
Definition replaceable (e : PageTableEntry) : bool := PageTableEntry.is_cow e && negb (pte_writable e).

Definition repointed (e : PageTableEntry) (n : Z) : PageTableEntry :=
  mkPte (flags (private_of e)) (mkFrameNumber n).

Lemma wp_replace v x n (Q : res Error FrameAddress → Vmem → Prop) : vm_ok v ->
  is_user_addr (pg_inner x) = true -> 0 <= n <= FrameNumber_MAX ->
  (forall e v', mapping v (page_of x) = Some e -> replaceable e = true ->
     effect v (view_set (mapping v) (page_of x) (Some (repointed e n))) (table_frames v) v' ->
     Q (Ok (handle e)) v') ->
  (forall err v', from_option replaceable false (mapping v (page_of x)) = false ->
     effect v (mapping v) (table_frames v) v' -> Q (Err err) v') ->
  wp (Vmem.replace_user_page_cow_frame x (frame_at n)) v Q.
Proof.
  intros Hok Hx Hn H1 H2. destruct (user_addr_page x Hx) as [Hw _]. unfold Vmem.replace_user_page_cow_frame.
  apply wp_on_user_table; [done..| |].
  - intros pt Hm Hpt. rewrite Hm in H1, H2. apply wp_pt_replace; [done..| |].
    + intros e He Hc Hnw _ pt' Hpt' Hw' v' _ Hb. apply H1; [done| |by apply Hb]. unfold replaceable. by rewrite Hc, Hnw.
    + intros err He v' Ha _. by apply H2; [|apply Ha].
  - intros e v' Hm Hv. apply H2; [by rewrite Hm|done].
Qed.

(** Whether the directory has the table of a page. *)
Lemma wp_pde v p (Q : res Error PageDirectoryEntry → Vmem → Prop) : vm_ok v -> user_page p ->
  (forall pde, PageDirectoryEntry.is_present pde =
     bool_decide (is_Some (Vmem.find_table (user_page_tables v) (table_of p))) -> Q (Ok pde) v) ->
  wp (Vmem.on_pgdir (PageDirectory.the_pde (table_of p))) v Q.
Proof.
  intros Hok Hp HQ. pose proof (table_of_user p Hp) as Hu. destruct (user_table_index _ Hu) as [Hw _].
  unfold Vmem.on_pgdir. wstep. apply wp_the_pde; [apply Hok|done|]. intros pde Hpr _ _.
  assert (Vmem.set_pgdir (pgdir v) v = v) as -> by by destruct v. apply HQ. rewrite Hpr.
  apply bool_decide_ext. rewrite find_table_keys. split; [by apply (vm_pdes v Hok)|].
  intros ([a pt] & -> & Hin)%list_elem_of_fmap.
  destruct (proj1 (Forall_forall _ _) (vm_points v Hok) _ Hin) as (n & _ & He). simpl in *. by rewrite He.
Qed.

Definition ctrl_of (access : AccessPermission) (e : PageTableEntry) : PageTableEntry :=
  PageTableEntry.set_user_supervisor User
    (PageTableEntry.set_read_write (if is_writable access then ReadWrite else ReadOnly) e).

Lemma wp_uctrl v x access (Q : res Error unit → Vmem → Prop) : vm_ok v ->
  (forall e v', is_user_addr (pg_inner x) = true -> mapping v (page_of x) = Some e ->
     effect v (view_set (mapping v) (page_of x) (Some (ctrl_of access e))) (table_frames v) v' -> Q (Ok tt) v') ->
  (forall err v', (is_user_addr (pg_inner x) = true -> mapping v (page_of x) = None) ->
     effect v (mapping v) (table_frames v) v' -> Q (Err err) v') ->
  wp (Vmem.uctrl x access) v Q.
Proof.
  intros Hok H1 H2. unfold Vmem.uctrl. destruct (is_user_addr (pg_inner x)) eqn:Hx; cbn [negb].
  2: { wstep. by apply H2; [|apply effect_refl]. }
  destruct (user_addr_page x Hx) as [Hw Hp]. do 2 wstep. rewrite table_address_ok by done. wstep.
  apply wp_pde; [done..|]. intros pde ->. case_bool_decide as Hf; cbn [negb].
  2: { wstep. apply H2; [|by apply effect_refl]. intros _. unfold mapping.
       destruct (Vmem.find_table _ _); [|done]. exfalso. apply Hf. by eexists. }
  apply wp_on_page; [done..| |].
  - intros pt Hm Hpt. rewrite Hm in H1, H2. apply wp_pt_ctrl; [done..| |].
    + intros e He pt' Hpt' Hw' v' _ Hb. by eapply H1; [..|apply Hb].
    + intros He v' Ha _. by apply H2; [|apply Ha].
  - intros e Hn. exfalso. rewrite Hn in Hf. by destruct Hf.
Qed.

End Lookup.

(** ** Frames and memory *)

Section Operations.
Context {CF : Config} {HC : ConfigOk} {P : Type} {IM : IdentityMap P}.
Variable x0 : Inner Bitmap.
Hypothesis Hi0 : Frame.inv x0.
Implicit Types (v : Vmem) (s : MemState P) (x : PageAddress) (L R : list FrameAddress).

(** The bytes of the frames in use, booked at boot or held through [L], are the same. *)
Definition mem_same L (m m' : Z → Z) : Prop :=
  forall a, 0 <= a -> 1 <= Frame.rc x0 (a / FRAME_SIZE) + Frame.occ (a / FRAME_SIZE) L -> m' a = m a.

#[global] Instance mem_same_preorder L : PreOrder (mem_same L).
Proof. split; [by intros m a|]. intros m1 m2 m3 H1 H2 a Ha Hu. by rewrite H2, H1. Qed.

Lemma mem_same_sub L L' m m' : L ⊆+ L' -> mem_same L' m m' -> mem_same L m m'.
Proof.
  intros [K HP]%submseteq_Permutation H a Ha Hu. apply H; [done|]. rewrite HP, Frame.occ_app.
  pose proof (Frame.occ_nonneg (a / FRAME_SIZE) K). lia.
Qed.

Lemma mem_same_perm L L' m m' : L ≡ₚ L' -> mem_same L' m m' -> mem_same L m m'.
Proof. intros HP. apply mem_same_sub. by rewrite HP. Qed.

Lemma in_frame a n : n * FRAME_SIZE <= a < n * FRAME_SIZE + PAGE_SIZE -> a / FRAME_SIZE = n.
Proof.
  intros H. change FRAME_SIZE with 4096 in *. change PAGE_SIZE with 4096 in *.
  symmetry. apply (Z.div_unique _ _ _ (a - n * 4096)); lia.
Qed.

(** Bytes written to a new frame. *)
Lemma mem_same_new L n m m' : KMem.new_frame x0 L n ->
  (forall a, ~ (n * FRAME_SIZE <= a < n * FRAME_SIZE + PAGE_SIZE) -> m' a = m a) -> mem_same L m m'.
Proof.
  intros (_ & _ & Hr & Hni) H a Ha Hu. apply H. intros Hin%in_frame. rewrite Hin in Hu.
  apply Frame.occ_zero in Hni. lia.
Qed.

Lemma fill_outside base value size m a : ~ (base <= a < base + size) -> fill_bytes base value size m a = m a.
Proof. intros H. unfold fill_bytes. destruct ((base <=? a) && (a <? base + size)) eqn:E; [lia|done]. Qed.

Lemma copy_outside dst src size m a : ~ (dst <= a < dst + size) -> copy_bytes dst src size m a = m a.
Proof. intros H. unfold copy_bytes. destruct ((dst <=? a) && (a <? dst + size)) eqn:E; [lia|done]. Qed.

(** An address space and memory that fit together; [R] are the references held
    elsewhere. *)
Definition sound R v s : Prop := vm_inv v /\ Frame.accounted x0 (frames (phys s)) (handles v ++ R).

(** No frame gets more references; no frame in use does. *)
Definition falls s s' : Prop := forall n, 0 <= n ->
  Frame.rc (frames (phys s')) n <= Frame.rc (frames (phys s)) n.
Definition calm s s' : Prop := forall n, 0 <= n -> 1 <= Frame.rc (frames (phys s)) n ->
  Frame.rc (frames (phys s')) n <= Frame.rc (frames (phys s)) n.

#[global] Instance falls_preorder : PreOrder falls.
Proof. split; [by intros s n|]. intros s1 s2 s3 H1 H2 n Hn. specialize (H1 n Hn). specialize (H2 n Hn). lia. Qed.

Lemma falls_calm s s' : falls s s' -> calm s s'.
Proof. intros H n Hn _. by apply H. Qed.

Lemma falls_sub s s' L L' : Frame.accounted x0 (frames (phys s)) L -> Frame.accounted x0 (frames (phys s')) L' ->
  L' ⊆+ L -> falls s s'.
Proof.
  intros (_ & _ & _ & H) (_ & _ & _ & H') [K HP]%submseteq_Permutation n Hn. rewrite H, H', HP, Frame.occ_app by done.
  pose proof (Frame.occ_nonneg n K). lia.
Qed.

Record outcome R R' v s (W : view) v' s' : Prop := {
  oc_sound : sound R' v' s';
  oc_view p : user_page p -> mapping v' p = W p;
  oc_shell : shell v' = shell v;
  oc_vec : vec (phys s') = vec (phys s);
  oc_mem : mem_same (handles v ++ R) (memory s) (memory s');
  oc_calm : calm s s'
}.

(** The outcome of a change to the mappings. *)
Lemma effect_outcome R R' v s W T v' s' L : vm_inv v -> effect v W T v' ->
  Frame.accounted x0 (frames (phys s')) L -> vec (phys s') = vec (phys s) ->
  L ≡ₚ user_frames W ++ T ++ own_frames v ++ R' ->
  mem_same (handles v ++ R) (memory s) (memory s') -> calm s s' -> outcome R R' v s W v' s'.
Proof.
  intros [Hok Hu] He Ha Hv HL Hm Hc. split; [|apply He|apply He|done|done|done].
  split; [split; [apply He|by apply He]|]. eapply Phys.accounted_perm; [|exact Ha].
  rewrite HL, (handles_effect _ _ _ _ He). by rewrite <- !app_assoc.
Qed.

(** Steps on the address space and on memory. *)
Lemma wp_on_vmem {A} v s (m : M Vmem Error A) (Q : res Error A → Vmem * MemState P → Prop) :
  wp m v (fun r v' => Q r (v', s)) -> wp (Vmem.on_vmem m) (v, s) Q.
Proof. intros H. unfold Vmem.on_vmem. wstep. exact H. Qed.

Lemma wp_on_mem {A} v s (m : M (MemState P) Error A) (Q : res Error A → Vmem * MemState P → Prop) :
  wp m s (fun r s' => Q r (v, s')) -> wp (Vmem.on_mem m) (v, s) Q.
Proof. intros H. unfold Vmem.on_mem. wstep. exact H. Qed.

Lemma wp_on_phys {A} s (m : M (PhysState P) Error A) (Q : res Error A → MemState P → Prop) :
  wp m (phys s) (fun r p => Q r (mkMem p (memory s))) -> wp (KMem.on_phys m) s Q.
Proof. intros H. unfold KMem.on_phys. wstep. exact H. Qed.

Lemma wp_vmem_seq {A B} v s (m : M Vmem Error A) (k : M Vmem Error B) (Q : res Error B → Vmem * MemState P → Prop) :
  wp (m;; k) v (fun r v' => Q r (v', s)) -> wp (Vmem.on_vmem m;; Vmem.on_vmem k) (v, s) Q.
Proof.
  unfold wp, Vmem.on_vmem, zoom, mbind, M_bind. cbn [fst snd].
  destruct (m v) as [[a|e|] v1]; [|done..]. cbn [fst snd]. by destruct (k v1).
Qed.

(** ** Tables *)

(** A new table, empty. *)
Lemma add_table v p n pd' : vm_ok v -> user_page p ->
  Vmem.find_table (user_page_tables v) (table_of p) = None ->
  real_frame (frame_at n) -> pd_ok pd' -> pd_written (table_of p) (Some (mapped_pde n false RDWR)) (pgdir v) pd' ->
  let v' := Vmem.set_tables ((table_of p, PageTable.new (frame_at n)) :: user_page_tables v) (Vmem.set_pgdir pd' v) in
  vm_ok v' /\ (forall q, mapping v' q = mapping v q) /\ (vm_used v -> vm_used_but (table_of p) v').
Proof.
  intros [Hpd Hba Hre Hnd Ht Hpo Hpdes Hk] Hp Hf Hn Hpd' [Hb Hw] v'.
  assert (table_of p ∉ (user_page_tables v).*1) as Hni.
  { rewrite <- find_table_keys, Hf. by intros [? ?]. }
  pose proof (table_of_user p Hp) as Hu. splits.
  - split; simpl; [done|by rewrite Hb|done|by constructor| | | |done].
    + constructor; [|done]. split; [done|apply pt_new_ok|done].
    + constructor; [exists n; split; [done|]; simpl|].
      { rewrite Hw by by apply user_table_range. by rewrite Z.eqb_refl. }
      apply Forall_forall. intros t Hin'. pose proof (proj1 (Forall_forall _ _) Hpo t Hin') as (m & Hm & He).
      pose proof (proj1 (Forall_forall _ _) Ht t Hin') as [Hut _ _]. exists m. split; [done|].
      rewrite Hw by by apply user_table_range. destruct (Z.eqb_spec (get_pde_index t.1) (get_pde_index (table_of p))) as [E|]; [|done].
      exfalso. apply Hni. rewrite <- (user_table_inj _ _ Hut Hu E). by apply list_elem_of_fmap_2.
    + intros a Ha. rewrite Hw by by apply user_table_range. destruct (Z.eqb_spec (get_pde_index a) (get_pde_index (table_of p))) as [E|].
      * intros _. rewrite (user_table_inj _ _ Ha Hu E). left.
      * intros Hs. right. by apply Hpdes.
  - intros q. unfold mapping. simpl. destruct (decide (table_of p = table_of q)) as [E|]; [|done].
    rewrite <- E, Hf. simpl. apply pt_new_entry.
  - intros Hus. constructor; [by left|]. exact (used_used_but _ v Hus).
Qed.

Lemma wp_ensure_table v s p R (Q : res Error unit → Vmem * MemState P → Prop) : vm_inv v -> user_page p ->
  Frame.accounted x0 (frames (phys s)) R ->
  (is_Some (Vmem.find_table (user_page_tables v) (table_of p)) -> Q (Ok tt) (v, s)) ->
  (forall n v' s', Vmem.find_table (user_page_tables v) (table_of p) = None -> KMem.new_frame x0 R n ->
     vm_ok v' -> (forall q, mapping v' q = mapping v q) -> vm_used_but (table_of p) v' ->
     table_frames v' = frame_at n :: table_frames v -> shell v' = shell v ->
     is_Some (Vmem.find_table (user_page_tables v') (table_of p)) -> KMem.held x0 (frame_at n :: R) s s' ->
     mem_same R (memory s) (memory s') -> Q (Ok tt) (v', s')) ->
  (forall e s', KMem.held x0 R s s' -> memory s' = memory s -> Q (Err e) (v, s')) ->
  wp (Vmem.ensure_user_table (table_of p)) (v, s) Q.
Proof.
  intros [Hok Hus] Hp Ha H1 H2 H3. unfold Vmem.ensure_user_table, Vmem.on_vmem, Vmem.on_mem. do 2 wstep. cbn [fst snd].
  apply wp_pde; [done..|]. intros pde ->. case_bool_decide as Hf; [by wstep; apply H1|].
  assert (Vmem.find_table (user_page_tables v) (table_of p) = None) as Hn.
  { destruct (Vmem.find_table _ _); [|done]. exfalso. apply Hf. by eexists. }
  do 2 wstep. cbn [fst snd]. eapply KMem.page_table_allocator_wp; [done|exact Ha| |by intros; apply H3].
  intros n s' Hnew Hh Hm. pose proof Hnew as (Hb & Hlt & _). do 4 wstep. unfold PageTable.physical_address.
  cbn [pt_base PageTable.new]. rewrite KMem.frame_raw, frame_from_raw by lia. unfold Vmem.on_pgdir. do 2 wstep. cbn [fst].
  destruct (user_table_index _ (table_of_user p Hp)) as [Hin _].
  apply wp_pd_map; [apply Hok|done|done| |].
  - intros He pd' Hpd' Hw. wsteps. cbn [fst snd].
    destruct (add_table v p n pd' Hok Hp Hn) as (Hok' & Hv & Hu); [by exists n|done|done|].
    apply (H2 n); [done..|by apply Hu|done|done| |done|].
    + simpl. rewrite decide_True by done. by eexists.
    + rewrite Hm. apply (mem_same_new _ n); [done|]. intros a. apply fill_outside.
  - intros e He. exfalso. apply Hf, find_table_keys, (vm_pdes v Hok); [by apply table_of_user|]. by rewrite He.
Qed.

(** Frames in use keep their counts. *)
Definition steady s s' : Prop := forall n, 0 <= n -> 1 <= Frame.rc (frames (phys s)) n ->
  Frame.rc (frames (phys s')) n = Frame.rc (frames (phys s)) n.

Lemma steady_new s s' L n : Frame.accounted x0 (frames (phys s)) L ->
  Frame.accounted x0 (frames (phys s')) (frame_at n :: L) -> KMem.new_frame x0 L n -> steady s s'.
Proof.
  intros (_ & _ & _ & H) (_ & _ & _ & H') (_ & _ & Hz & Hni%Frame.occ_zero) k Hk Hu.
  rewrite H', Frame.occ_cons by done. rewrite H in * by done. destruct (Z.eqb_spec k n) as [->|]; lia.
Qed.

Lemma steady_calm s s' : steady s s' -> calm s s'.
Proof. intros H n Hn Hu. by rewrite H. Qed.

(** ** Mapping *)

Lemma handle_mapped n sup wt ca access : handle (mapped_pte n sup wt ca access) = frame_at n.
Proof. done. Qed.

(** What the errors of [map] leave behind. *)
Lemma wp_map_fail R v s n v' s' e (Q : res Error unit → Vmem * MemState P → Prop) : sound (frame_at n :: R) v s ->
  effect v (mapping v) (table_frames v) v' ->
  Frame.accounted x0 (frames (phys s')) (handles v ++ frame_at n :: R) -> vec (phys s') = vec (phys s) ->
  mem_same (handles v ++ frame_at n :: R) (memory s) (memory s') ->
  (forall e v' s', outcome (frame_at n :: R) R v s (mapping v) v' s' -> Q (Err e) (v', s')) ->
  wp (Vmem.on_mem (KMem.on_phys (Phys.drop_frame (frame_at n)));; fail e) (v', s') Q.
Proof.
  intros [Hinv Ha0] He Ha Hv Hm HQ. unfold Vmem.on_mem, KMem.on_phys. do 3 wstep. cbn [snd fst phys].
  eapply (KMem.drop_frame_wp x0 _ _ _ (handles v ++ R)); [done|exact Ha|by rewrite Permutation_middle|].
  intros p' Ha' Hv'. wstep. apply HQ. eapply effect_outcome; [done|exact He|exact Ha'|simpl; congruence| |done|].
  - unfold handles. perm.
  - eapply falls_calm, falls_sub; [exact Ha0|exact Ha'|]. apply submseteq_app; [done|by apply submseteq_cons].
Qed.

Lemma wp_map R v s n x access (Q : res Error unit → Vmem * MemState P → Prop) :
  sound (frame_at n :: R) v s -> 0 <= n <= FrameNumber_MAX ->
  (forall v' s', is_user_addr (pg_inner x) = true -> mapping v (page_of x) = None ->
     outcome (frame_at n :: R) R v s
       (view_set (mapping v) (page_of x) (Some (mapped_pte n false false true access))) v' s' ->
     steady s s' -> Q (Ok tt) (v', s')) ->
  (forall e v' s', outcome (frame_at n :: R) R v s (mapping v) v' s' -> Q (Err e) (v', s')) ->
  wp (Vmem.map (frame_at n) x access) (v, s) Q.
Proof.
  intros [Hinv Ha] Hn H1 H2. pose proof Hinv as [Hok Hus]. unfold Vmem.map. wstep.
  destruct (is_user_addr (pg_inner x)) eqn:Hx; cbn [negb].
  2: { wstep. by eapply wp_map_fail; [..|exact H2]; [|apply effect_refl|..]. }
  destruct (user_addr_page x Hx) as [Hw Hp]. do 2 wstep. rewrite table_address_ok by done. wstep.
  destruct (user_frames_set (mapping v) (page_of x) Hp) as (X & HX & HX').
  eapply wp_ensure_table; [done|done|exact Ha| | |].
  - intros _. apply wp_vmem_seq, wp_on_page; [done..| |].
    + intros pt Hm Hpt. apply wp_pt_map; [done..| |].
      * intros He pt' Hpt' Hwr v' _ Hb. destruct (Hb _ Hpt' Hwr) as [Hef _]. rewrite He in Hm. apply H1; [done..| |done].
        eapply effect_outcome; [done|exact Hef|exact Ha|done| |done|by apply falls_calm].
        unfold handles. rewrite HX, HX', Hm. cbn [ref_of]. rewrite handle_mapped. perm.
      * intros e He v' Hb _. by eapply wp_map_fail; [..|exact H2]; [|apply Hb|..].
    + intros e _. by eapply wp_map_fail; [..|exact H2]; [|apply effect_refl|..].
  - intros k v1 s1 Hf Hk Hok1 Hv1 Hu1 HT1 Hs1 Hf1 [Ha1 Hvec1] Hm1.
    assert (mapping v (page_of x) = None) as Hnone by (unfold mapping; by rewrite Hf).
    apply wp_vmem_seq, wp_on_page; [done..| |].
    + intros pt Hm Hpt. rewrite Hv1, Hnone in Hm. apply wp_pt_map; [done..| |by rewrite <- Hm].
      intros He pt' Hpt' Hwr v' _ Hb. destruct (Hb _ Hpt' Hwr) as [[Hok' _ Hv' HT' Hs'] Hu'].
      apply H1; [done..| |by eapply steady_new].
      eapply (effect_outcome _ _ _ _ _ (table_frames v1)); [done| |exact Ha1|done| |done|by eapply steady_calm, steady_new].
      * split; [done|by intros _; apply Hu'| |done|congruence]. intros q Hq. rewrite Hv' by done.
        unfold view_set. by rewrite Hv1.
      * rewrite HX', HT1. unfold handles. rewrite HX, Hnone. cbn [ref_of]. rewrite handle_mapped. perm.
    + intros e Hn'. rewrite Hn' in Hf1. by destruct Hf1.
  - intros e s' [Ha' Hvec'] Hm'. eapply wp_map_fail; [..|exact H2]; [done|by apply effect_refl|done|done|].
    by rewrite Hm'.
Qed.

(** ** Unmapping *)

(** An empty table goes. *)
Lemma empty_entries pt i : pt_ok pt -> nmapped pt = 0 -> entry pt i = None.
Proof.
  intros Hok Hn. destruct (entry pt i) as [e|] eqn:He; [|done]. exfalso.
  apply entry_count in He. pose proof (pt_count _ Hok). lia.
Qed.

Lemma remove_empty v a pt rest pd' : vm_ok v -> user_page_tables v = (a, pt) :: rest -> nmapped pt = 0 ->
  pd_ok pd' -> pd_written a None (pgdir v) pd' -> vm_used_but a v ->
  let v' := Vmem.set_pgdir pd' (Vmem.set_tables rest v) in
  vm_ok v' /\ vm_used v' /\ forall q, mapping v' q = mapping v q.
Proof.
  intros [Hpd Hba Hre Hnd Ht Hpo Hpdes Hk] Hl Hn Hpd' [Hb Hw] Hus v'. unfold vm_used_but in Hus.
  rewrite Hl in Hnd, Ht, Hpo, Hus. apply NoDup_cons in Hnd as [Hni Hnd].
  apply Forall_cons in Ht as [[Hu Hpt _] Ht]. apply Forall_cons in Hpo as [_ Hpo].
  apply Forall_cons in Hus as [_ Hus]. simpl in Hu, Hpt.
  assert (forall t, t ∈ rest -> t.1 <> a) as Hne.
  { intros t Hin <-. apply Hni. exact (list_elem_of_fmap_2 fst _ _ Hin). }
  splits.
  - split; simpl; [done|by rewrite Hb|done|done|done| | |done].
    + apply Forall_forall. intros t Hin. pose proof (proj1 (Forall_forall _ _) Hpo t Hin) as (m & Hm & He).
      pose proof (proj1 (Forall_forall _ _) Ht t Hin) as [Hut _ _]. exists m. split; [done|].
      rewrite Hw by by apply user_table_range.
      destruct (Z.eqb_spec (get_pde_index t.1) (get_pde_index a)) as [E|]; [|done].
      exfalso. exact (Hne t Hin (user_table_inj _ _ Hut Hu E)).
    + intros b Hub. rewrite Hw by by apply user_table_range.
      destruct (Z.eqb_spec (get_pde_index b) (get_pde_index a)) as [E|Hne']; [by intros [? ?]|].
      intros Hs. apply Hpdes in Hs; [|done]. rewrite Hl in Hs. apply elem_of_cons in Hs as [->|]; [done|done].
  - apply Forall_forall. intros t Hin. destruct (proj1 (Forall_forall _ _) Hus t Hin) as [E|]; [|done].
    exfalso. by apply (Hne t Hin).
  - intros q. unfold mapping. rewrite Hl. simpl. destruct (decide (a = table_of q)) as [<-|]; [|done].
    simpl. rewrite (empty_entries pt) by done.
    destruct (Vmem.find_table rest a) as [pt'|] eqn:Hf; [|done]. exfalso.
    apply find_table_elem in Hf; [|done]. by apply (Hne _ Hf).
Qed.

(** The page has been taken out of its table [pt]; the table goes too when nothing is left. *)
Lemma wp_release R v s p pt rest (W : view) e (Q : res Error (option FrameAddress) → Vmem * MemState P → Prop) v0 :
  vm_ok v -> vm_used_but (table_of p) v -> user_page p -> user_page_tables v = (table_of p, pt) :: rest ->
  (forall q, mapping v q = W q) -> shell v = shell v0 ->
  Frame.accounted x0 (frames (phys s)) (handles v ++ R) ->
  (forall v' s', vm_inv v' -> (forall q, mapping v' q = W q) -> shell v' = shell v0 ->
     Frame.accounted x0 (frames (phys s')) (handles v' ++ R) -> vec (phys s') = vec (phys s) ->
     memory s' = memory s -> falls s s' -> Q (Ok (Some (handle e))) (v', s')) ->
  wp ((if nmapped pt =? 0 then Vmem.release_table (table_of p) else mret tt);; mret (Some (handle e))) (v, s) Q.
Proof.
  intros Hok Hus Hp Hl Hv Hs Ha HQ. pose proof (vm_tables v Hok) as Ht. rewrite Hl in Ht.
  apply Forall_cons in Ht as [[Hu Hpt _] _]. simpl in Hu, Hpt. pose proof (pt_count _ Hpt) as Hc. wstep.
  destruct (Z.eqb_spec (nmapped pt) 0) as [Hz|Hnz].
  2: { do 2 wstep. apply HQ; [split; [done|]|done..]. unfold vm_used_but in Hus. unfold vm_used. rewrite Hl in *.
       apply Forall_cons in Hus as [_ Hus]. constructor; [simpl; lia|]. apply Forall_forall. intros t Hin.
       destruct (proj1 (Forall_forall _ _) Hus t Hin) as [E|]; [|done]. exfalso.
       pose proof (vm_nodup v Hok) as Hnd. rewrite Hl in Hnd. apply NoDup_cons in Hnd as [Hni _].
       apply Hni. simpl. rewrite <- E. exact (list_elem_of_fmap_2 fst _ _ Hin). }
  unfold Vmem.release_table, Vmem.on_vmem, Vmem.on_mem, KMem.on_phys, Vmem.on_pgdir. do 3 wstep. cbn [fst snd].
  rewrite Hl. cbn [Vmem.remove_table]. rewrite decide_True by done. do 7 wstep. cbn [fst snd].
  destruct (user_table_index _ Hu) as [Hin _]. apply wp_pd_unmap; [apply Hok|done| |].
  - intros pde Hpde pd' Hpd' Hw. do 2 wstep. cbn [fst snd].
    destruct (remove_empty v _ pt rest pd' Hok Hl Hz Hpd' Hw Hus) as (Hok' & Hus' & Hv').
    set (v' := Vmem.set_pgdir pd' (Vmem.set_tables rest v)) in *.
    assert (handles v ++ R ≡ₚ pt_base pt :: handles v' ++ R) as HP.
    { unfold handles, table_frames. rewrite Hl, fmap_cons. cbn [snd]. change (user_page_tables v') with rest.
      rewrite (user_frames_ext (mapping v') (mapping v)) by (intros; apply Hv').
      change (own_frames v') with (own_frames v). perm. }
    eapply KMem.drop_frame_wp; [done|exact Ha|exact HP|]. intros p' Ha' Hvec. wstep. apply HQ; [done|..|done|done|done|].
    + intros q. by rewrite Hv', Hv.
    + done.
    + eapply falls_sub; [exact Ha|exact Ha'|]. rewrite HP. by apply submseteq_cons.
  - intros Hn. exfalso. pose proof (vm_points v Hok) as Hpo. rewrite Hl in Hpo.
    apply Forall_cons in Hpo as [(n & _ & Hpde) _].
    cbn [pgdir Vmem.set_tables fst snd] in Hn, Hpde. congruence.
Qed.

Lemma wp_unmap R v s x (Q : res Error (option FrameAddress) → Vmem * MemState P → Prop) : sound R v s ->
  (is_user_addr (pg_inner x) = true -> mapping v (page_of x) = None -> Q (Ok None) (v, s)) ->
  (forall e v' s', is_user_addr (pg_inner x) = true -> mapping v (page_of x) = Some e ->
     outcome R (handle e :: R) v s (view_set (mapping v) (page_of x) None) v' s' -> memory s' = memory s ->
     falls s s' -> Q (Ok (Some (handle e))) (v', s')) ->
  (is_user_addr (pg_inner x) = false -> Q (Err (mkError BadAddress "address is not in user space")) (v, s)) ->
  wp (Vmem.unmap x) (v, s) Q.
Proof.
  intros [[Hok Hus] Ha] H1 H2 H3. unfold Vmem.unmap. destruct (is_user_addr (pg_inner x)) eqn:Hx; cbn [negb].
  2: { wstep. by apply H3. }
  destruct (user_addr_page x Hx) as [Hw Hp]. wstep. apply wp_on_vmem. do 3 wstep.
  rewrite try_find_frame by done. destruct (mapping v (page_of x)) as [e|] eqn:Hm; simpl; [|by wstep; apply H1].
  do 2 wstep. rewrite table_address_ok by done. wstep. apply wp_on_vmem.
  apply wp_pde; [done..|]. intros pde ->.
  destruct (Vmem.find_table (user_page_tables v) (table_of (page_of x))) as [pt|] eqn:Hf.
  2: { exfalso. unfold mapping in Hm. by rewrite Hf in Hm. }
  rewrite bool_decide_eq_true_2 by done. cbn [negb]. wstep. apply wp_on_vmem.
  apply wp_lookup_table; [done| |by rewrite Hf]. intros pt0 rest Hf0 HP. rewrite Hf in Hf0. injection Hf0 as <-.
  destruct (mapping_table v _ pt Hok Hf) as [Hent Hpt]. rewrite <- page_table_index, Hm in Hent by done.
  wstep. apply wp_on_vmem. eapply wp_on_front; [done|].
  apply wp_pt_lookup; [done..| |by rewrite <- Hent]. intros e' He' Hn. rewrite <- Hent in He'. injection He' as <-.
  rewrite bool_decide_eq_true_2 by done. cbn [negb]. wstep. apply wp_on_vmem.
  eapply wp_on_front; [done|]. apply wp_pt_unmap; [done..| |by rewrite <- Hent].
  intros e' He' pt' Hpt' Hwr. rewrite <- Hent in He'. injection He' as <-.
  wstep. apply wp_on_vmem. eapply wp_on_front; [done|]. do 3 wstep.
  destruct (written_view v x None pt pt' rest Hok Hw Hf HP Hpt' Hwr) as (Hok' & HT & Hv).
  destruct (user_frames_set (mapping v) (page_of x) Hp) as (X & HX & HX').
  lazymatch goal with |- wp ?m (_, s) ?Q' =>
    change (wp m (Vmem.set_tables ((table_of (page_of x), pt') :: rest) v, s) Q') end.
  eapply (wp_release (handle e :: R) _ _ (page_of x) pt' rest _ e); [exact Hok'| |done|done|exact Hv|done| |].
  - unfold vm_used_but. constructor; [by left|]. unfold vm_used in Hus. rewrite HP in Hus.
    apply Forall_cons in Hus as [_ Hus]. eapply Forall_impl; [exact Hus|]. auto.
  - eapply Phys.accounted_perm; [|exact Ha]. unfold handles. rewrite HT.
    rewrite (user_frames_ext _ _ (fun q _ => Hv q)), HX, HX', Hm. cbn [ref_of]. change (own_frames (Vmem.set_tables _ v)) with (own_frames v). perm.
  - intros v' s' Hinv' Hv' Hs' Ha' Hvec Hmem Hfa. apply H2; [done..| |done|done].
    split; [by split|by intros; apply Hv'|done|done|by rewrite Hmem|by apply falls_calm].
Qed.

(** ** Dropping *)

(** The tables, the private pages and the directory are freed; the frames the
    pages were mapped to are not. *)
Lemma wp_drop R v s (Q : res Error unit → MemState P → Prop) : sound R v s ->
  (forall s', Frame.accounted x0 (frames (phys s')) (user_frames (mapping v) ++ R) ->
     vec (phys s') = vec (phys s) -> memory s' = memory s -> falls s s' -> Q (Ok tt) s') ->
  wp (Vmem.drop v) s Q.
Proof.
  intros [Hinv Ha] HQ0.
  assert (forall s', Frame.accounted x0 (frames (phys s')) (user_frames (mapping v) ++ R) ->
     vec (phys s') = vec (phys s) -> memory s' = memory s -> Q (Ok tt) s') as HQ.
  { intros s' Ha' Hv' Hm'. apply HQ0; [done..|]. eapply falls_sub; [exact Ha|exact Ha'|].
    unfold handles. rewrite <- app_assoc. apply submseteq_app; [done|]. by apply submseteq_inserts_l. }
  unfold Vmem.drop, KMem.on_phys. do 2 wstep. eapply wp_mono.
  { eapply (Phys.drop_frames_wp x0 _ _ _ (user_frames (mapping v) ++ own_frames v ++ R)); [done|exact Ha|].
    unfold handles, table_frames. perm. }
  intros r p1 (-> & Ha1 & Hv1). do 2 wstep. eapply wp_mono.
  { eapply (Phys.drop_frames_wp x0 (private_kernel_pages v) _ _ (user_frames (mapping v) ++
      match pgdir_storage v with Bss _ => [] | KernelPage f => [f] end ++ R)); [done|exact Ha1|].
    unfold own_frames. perm. }
  intros r p2 (-> & Ha2 & Hv2). simpl in Hv1, Hv2. destruct (pgdir_storage v) as [b|f].
  - wstep. apply HQ; [done|simpl; congruence|done].
  - wstep. eapply (KMem.drop_frame_wp x0 _ f _ (user_frames (mapping v) ++ R)); [done|exact Ha2|perm|]. intros p3 Ha3 Hv3.
    apply HQ; [done|simpl in *; congruence|done].
Qed.

End Operations.
