(* ===== verification/Cow.v ===== *)
(** * Copy-on-write

    [resolve_cow_at] and [resolve_cow_for_region] of [kernel/src/mm/virt/vmem.rs]:
    a page shared copy-on-write gets a frame of its own, with the same contents, and
    becomes writable; nothing else changes, in this address space or in any other. *)

From S2P Require Import Prelude Error BitAlloc Bitmap Config Addr Paging Frame Phys KMem UserSpace AddrSpace.
From S2P Require Import Perm Mappings VmemSpec.
#[local] Open Scope Z_scope.

(** The bytes behind a mapping. *)
Definition page_byte (m : Z → Z) (e : PageTableEntry) (off : Z) : Z :=
  m (fn_raw (pte_frame e) * PAGE_SIZE + off).

Section Resolve.
Context {CF : Config} {HC : ConfigOk} {P : Type} {IM : IdentityMap P}.
Variable x0 : Inner Bitmap.
Hypothesis Hi0 : Frame.inv x0.
Implicit Types (v : Vmem) (s : MemState P) (x : PageAddress) (L R : list FrameAddress).

(** The references to a frame, all told. *)
Definition owners s (e : PageTableEntry) : Z := Frame.rc (frames (phys s)) (fn_raw (pte_frame e)).

(** No frame in use is freed or shared further. *)
Definition lighter s s' : Prop := forall n, 0 <= n -> 1 <= Frame.rc (frames (phys s)) n ->
  1 <= Frame.rc (frames (phys s')) n <= Frame.rc (frames (phys s)) n.

Lemma lighter_calm s s' : lighter s s' -> calm s s'.
Proof. intros H n Hn Hu. by apply H. Qed.

(** The entry of a page that has been resolved. *)
Record resolved (m m' : Z → Z) (e e' : PageTableEntry) : Prop := {
  rs_flags : flags e' = flags (private_of e);
  rs_bytes off : 0 <= off < PAGE_SIZE -> page_byte m' e' off = page_byte m e off
}.

Lemma mapped_owned R v s p e : sound x0 R v s -> user_page p -> mapping v p = Some e ->
  numbered (pte_frame e) /\ fn_raw (pte_frame e) * FRAME_SIZE < MEMORY_SIZE /\ handle e ∈ handles v ++ R.
Proof.
  intros [[Hok _] Ha] Hp Hm. assert (handle e ∈ handles v ++ R) as Hin.
  { unfold handles. rewrite <- app_assoc. apply elem_of_app. left. apply user_frames_elem. by exists p, e. }
  pose proof (mapping_numbered v p e Hok Hm) as Hn. splits; [done| |done].
  eapply Phys.accounted_number; [exact Ha|exact Hin|apply Hn].
Qed.

Lemma wp_refcount R v s p e (Q : res Error Z → PhysState P → Prop) : sound x0 R v s -> user_page p ->
  mapping v p = Some e -> Q (Ok (owners s e)) (phys s) ->
  wp (Phys.on_frames (Frame.refcount_of (handle e))) (phys s) Q.
Proof.
  intros Hs Hp Hm HQ. destruct (mapped_owned _ _ _ _ _ Hs Hp Hm) as (Hn & _ & Hin). destruct Hs as [_ (Hi & _ & _ & Hrc)].
  unfold Phys.on_frames. wstep. eapply wp_mono; [apply Frame.refcount_of_wp; [done|exact Hn]|].
  intros r x [-> Hr]. pose proof (Hrc _ (proj1 Hn)) as Hc. apply elem_of_Permutation in Hin as [L HL].
  rewrite HL in Hc. unfold handle in Hc. rewrite Frame.occ_cons, Z.eqb_refl in Hc.
  pose proof (Frame.inv_rc x0 Hi0 _ (proj1 Hn)). pose proof (Frame.occ_nonneg (fn_raw (pte_frame e)) L).
  destruct r as [c|err|]; [|lia|done]. destruct Hr as [-> _]. by destruct s as [[? ? ?] ?].
Qed.

(** The new frame is given back when something fails. *)
Lemma lighter_same s s' L : Frame.accounted x0 (frames (phys s)) L ->
  Frame.accounted x0 (frames (phys s')) L -> lighter s s'.
Proof. intros (_ & _ & _ & H) (_ & _ & _ & H') n Hn Hu. rewrite H' by done. rewrite H in * by done. lia. Qed.

Lemma wp_undo {A} R v s n v' s' e (Q : res Error A → Vmem * MemState P → Prop) : sound x0 R v s ->
  effect v (mapping v) (table_frames v) v' ->
  Frame.accounted x0 (frames (phys s')) (frame_at n :: handles v ++ R) -> vec (phys s') = vec (phys s) ->
  mem_same x0 (handles v ++ R) (memory s) (memory s') ->
  (forall err v' s', lighter s s' -> outcome x0 R R v s (mapping v) v' s' -> Q (Err err) (v', s')) ->
  wp (Vmem.on_mem (KMem.on_phys (Phys.drop_frame (frame_at n)));; fail e) (v', s') Q.
Proof.
  intros [Hinv Ha0] He Ha Hv Hm HQ. wstep. apply wp_on_mem, wp_on_phys.
  eapply KMem.drop_frame_wp; [done|exact Ha|done|]. intros p' Ha' Hv'. wstep. apply HQ; [by eapply lighter_same|].
  eapply effect_outcome; [done|exact He|exact Ha'|simpl; congruence| |done|by eapply lighter_calm, lighter_same].
  unfold handles. perm.
Qed.

Lemma copied n e m off : 0 <= off < PAGE_SIZE ->
  copy_bytes (n * FRAME_SIZE) (fn_raw (pte_frame e) * PAGE_SIZE) PAGE_SIZE m (n * FRAME_SIZE + off) =
  page_byte m e off.
Proof.
  intros Ho. unfold copy_bytes, page_byte. destruct (_ && _) eqn:E; [f_equal; lia|]. lia.
Qed.

(** One reference to a shared frame is replaced by one to a new frame. *)
Lemma lighter_swap s s' e n L X : Frame.accounted x0 (frames (phys s)) L ->
  Frame.accounted x0 (frames (phys s')) (frame_at n :: X) -> L ≡ₚ handle e :: X -> owners s e <> 1 ->
  KMem.new_frame x0 L n -> 0 <= fn_raw (pte_frame e) -> lighter s s'.
Proof.
  intros (Hi & _ & _ & Hrc) (_ & _ & _ & Hrc') HP Ho (_ & _ & Hz & Hni) He k Hk H1.
  apply Frame.occ_zero in Hni. rewrite HP in Hni. unfold handle in *. rewrite Frame.occ_cons in Hni.
  pose proof (Frame.occ_nonneg n X). unfold owners in Ho. rewrite Hrc', Frame.occ_cons by done.
  rewrite Hrc, HP, Frame.occ_cons in * by done. pose proof (Frame.inv_rc x0 Hi0 k Hk).
  pose proof (Frame.occ_nonneg k X). rewrite Z.eqb_refl in Ho.
  destruct (Z.eqb_spec k n) as [->|]; [lia|destruct (Z.eqb_spec k (fn_raw (pte_frame e))) as [E|]; [rewrite <- E in Ho|]; lia].
Qed.

Lemma wp_resolve_cow_at R v s x (Q : res Error bool → Vmem * MemState P → Prop) : sound x0 R v s ->
  (is_user_addr (pg_inner x) = false \/ from_option PageTableEntry.is_cow false (mapping v (page_of x)) = false ->
     Q (Ok false) (v, s)) ->
  (forall e e' v' s', is_user_addr (pg_inner x) = true -> mapping v (page_of x) = Some e ->
     PageTableEntry.is_cow e = true -> resolved (memory s) (memory s') e e' -> owners s' e' = 1 ->
     lighter s s' -> outcome x0 R R v s (view_set (mapping v) (page_of x) (Some e')) v' s' ->
     Q (Ok true) (v', s')) ->
  (forall err v' s', lighter s s' -> outcome x0 R R v s (mapping v) v' s' -> Q (Err err) (v', s')) ->
  wp (Vmem.resolve_cow_at x) (v, s) Q.
Proof.
  intros Hs H1 H2 H3. pose proof Hs as [Hinv Ha]. pose proof Hinv as [Hok Hus].
  unfold Vmem.resolve_cow_at. destruct (is_user_addr (pg_inner x)) eqn:Hx; cbn [negb]; [|wstep; apply H1; by left].
  destruct (user_addr_page x Hx) as [Hw Hp]. wstep. apply wp_on_vmem. do 3 wstep. rewrite try_find_pte by done.
  destruct (mapping v (page_of x)) as [e|] eqn:Hm; [|wstep; apply H1; by right].
  destruct (PageTableEntry.is_cow e) eqn:Hc; cbn [negb]; [|wstep; apply H1; by right].
  destruct (mapped_owned _ _ _ _ _ Hs Hp Hm) as (Hn & Hlt & Hin).
  destruct (user_frames_set (mapping v) (page_of x) Hp) as (X & HX & HX'). rewrite Hm in HX. cbn [ref_of] in HX.
  do 2 wstep. rewrite from_numbered by done. wstep. apply wp_on_mem, wp_on_phys.
  eapply wp_refcount; [done..|]. destruct (Z.eqb_spec (owners s e) 1) as [H1o|Hmore].
  - wstep. apply wp_on_vmem, wp_unmark; [done|done| |].
    + intros e0 v' He0 _ Hef. rewrite Hm in He0. injection He0 as <-. wstep.
      eapply (H2 e (private_of e)); [done..|by split|exact H1o|done|].
      eapply effect_outcome; [done|exact Hef|exact Ha|done| |done|by apply lighter_calm]. unfold handles. rewrite HX, HX'. cbn [ref_of].
      change (handle (private_of e)) with (handle e). perm.
    + intros err v' Hnc. rewrite Hm in Hnc. simpl in Hnc. congruence.
  - wstep. apply wp_on_mem, wp_on_phys. eapply KMem.alloc_user_frame_wp; [done|exact Ha| |].
    2: { intros err p' Ha' Hv'. apply H3; [by eapply lighter_same|]. eapply effect_outcome; [done|by apply effect_refl|exact Ha'|done| |done|].
         1: unfold handles; perm. by eapply lighter_calm, lighter_same. }
    intros n p' Hnew Ha' Hv'. simpl in Hv'. pose proof Hnew as (Hb & Hltn & Hr0 & Hni). do 4 wstep. unfold Vmem.pte_frame_address.
    pose proof (proj2 Hn) as Hmax. rewrite frame_number_max in Hmax.
    rewrite usize_mul_ok by (change PAGE_SIZE with 4096; width). wstep. apply wp_on_mem. rewrite KMem.frame_raw.
    apply KMem.memcpy_wp; [done|by eapply KMem.new_frame_raw| | |].
    { destruct Hn. change PAGE_SIZE with 4096. width. }
    2: { intros err s' [Hf Hv2] Hm2. simpl in Hf, Hv2, Hm2. eapply (wp_undo R v s n); [exact Hs|by apply effect_refl|by rewrite Hf|congruence|by rewrite Hm2|done]. }
    intros s' _ [Hf Hv2] Hm2. simpl in Hf, Hv2, Hm2.
    assert (mem_same x0 (handles v ++ R) (memory s) (memory s')) as Hsame.
    { rewrite Hm2. apply (mem_same_new _ _ n); [done|]. intros a. apply copy_outside. }
    apply wp_on_vmem, wp_replace; [done..| |].
    2: { intros err v' _ Hef. eapply (wp_undo R v s n); [exact Hs|exact Hef|by rewrite Hf|congruence|done|done]. }
    intros e0 v' He0 _ Hef. rewrite Hm in He0. injection He0 as <-. wstep. apply wp_on_mem, wp_on_phys.
    eapply (KMem.drop_frame_wp x0 _ _ _ (frame_at n :: X ++ table_frames v ++ own_frames v ++ R)); [done|by rewrite Hf| |].
    { unfold handles. rewrite HX. perm. }
    intros p2 Ha2 Hvec2. assert (lighter s (mkMem p2 (memory s'))) as Hli.
    { eapply (lighter_swap s _ e n); [exact Ha|exact Ha2| |exact Hmore|exact Hnew|apply Hn].
      unfold handles. rewrite HX. perm. }
    wstep. apply (H2 e (repointed e n)); [done..| | | |].
    + split; [done|]. intros off Ho. simpl. rewrite Hm2. by apply copied.
    + unfold owners. simpl. destruct Ha2 as (_ & _ & _ & Hrc). rewrite Hrc by lia. rewrite Hr0, Frame.occ_cons, Z.eqb_refl.
      assert (Frame.occ n (X ++ table_frames v ++ own_frames v ++ R) = 0) as ->; [|done].
      apply Frame.occ_zero. intros Hin2. apply Hni. unfold handles. rewrite HX, <- !app_assoc. by right.
    + exact Hli.
    + eapply effect_outcome; [done|exact Hef|exact Ha2|simpl; congruence| |done|by apply lighter_calm].
      rewrite HX'. cbn [ref_of]. change (handle (repointed e n)) with (frame_at n). perm.
Qed.

(** ** Regions *)

Lemma mem_same_rc (fr : Inner Bitmap) L m m' : Frame.accounted x0 fr L ->
  mem_same x0 L m m' <-> forall a, 0 <= a -> 1 <= Frame.rc fr (a / FRAME_SIZE) -> m' a = m a.
Proof.
  intros (_ & _ & _ & Hrc). unfold mem_same. split; intros H a Ha Hu; (apply H; [done|]).
  - rewrite <- Hrc; [done|]. by apply Z.div_pos.
  - rewrite Hrc; [done|]. by apply Z.div_pos.
Qed.

(** What became of a page. *)
Definition settled s s' (o o' : option PageTableEntry) : Prop :=
  match o with
  | Some e => if PageTableEntry.is_cow e
              then exists e', o' = Some e' /\ resolved (memory s) (memory s') e e' /\ owners s' e' = 1
              else o' = o
  | None => o' = None
  end.

(** The pages [p..q] have been settled and nothing else has changed. *)
Record settling R v s (p q : Z) v' s' : Prop := {
  st_sound : sound x0 R v' s';
  st_shell : shell v' = shell v;
  st_vec : vec (phys s') = vec (phys s);
  st_mem : mem_same x0 (handles v ++ R) (memory s) (memory s');
  st_light : lighter s s';
  st_in r : user_page r -> p <= r <= q -> settled s s' (mapping v r) (mapping v' r);
  st_out r : user_page r -> ~ (p <= r <= q) -> mapping v' r = mapping v r
}.

Lemma settling_none R v s p : sound x0 R v s -> (forall e, user_page p -> mapping v p = Some e -> PageTableEntry.is_cow e = false) ->
  settling R v s p p v s.
Proof.
  intros Hs H. split; [done..| |done]. intros r Hr ?. replace r with p in * by lia. unfold settled.
  destruct (mapping v p) as [e|] eqn:E; [|done]. by rewrite (H e).
Qed.

(** The bytes of a page that stays mapped. *)
Lemma kept_bytes R v s m' p e off : sound x0 R v s -> user_page p -> mapping v p = Some e ->
  mem_same x0 (handles v ++ R) (memory s) m' -> 0 <= off < PAGE_SIZE -> page_byte m' e off = page_byte (memory s) e off.
Proof.
  intros Hs Hp Hm Hk Ho. destruct (mapped_owned _ _ _ _ _ Hs Hp Hm) as ([Hn _] & _ & Hin). unfold page_byte. apply Hk.
  { change PAGE_SIZE with 4096 in *. lia. }
  rewrite (in_frame _ (fn_raw (pte_frame e))) by (change FRAME_SIZE with PAGE_SIZE; lia).
  pose proof (Frame.inv_rc x0 Hi0 _ Hn). apply elem_of_Permutation in Hin as [L ->]. unfold handle.
  rewrite Frame.occ_cons, Z.eqb_refl. pose proof (Frame.occ_nonneg (fn_raw (pte_frame e)) L). lia.
Qed.

Lemma settled_later s s1 s2 o o1 : settled s s1 o o1 -> lighter s1 s2 ->
  (forall e, o1 = Some e -> 0 <= fn_raw (pte_frame e) /\
     forall off, 0 <= off < PAGE_SIZE -> page_byte (memory s2) e off = page_byte (memory s1) e off) ->
  settled s s2 o o1.
Proof.
  intros H Hl Hb. unfold settled in *. destruct o as [e|]; [|done]. destruct (PageTableEntry.is_cow e); [|done].
  destruct H as (e' & -> & [Hf Hby] & Ho). destruct (Hb e' eq_refl) as [Hn Hb']. exists e'. splits; [done| |].
  - split; [done|]. intros off Hoff. by rewrite Hb', Hby.
  - unfold owners in *. specialize (Hl _ Hn ltac:(lia)). lia.
Qed.

Lemma settled_earlier s s1 s2 o o2 : settled s1 s2 o o2 ->
  (forall e, o = Some e -> forall off, 0 <= off < PAGE_SIZE -> page_byte (memory s1) e off = page_byte (memory s) e off) ->
  settled s s2 o o2.
Proof.
  intros H Hb. unfold settled in *. destruct o as [e|]; [|done]. destruct (PageTableEntry.is_cow e); [|done].
  destruct H as (e' & -> & [Hf Hby] & Ho). exists e'. splits; [done| |done]. split; [done|]. intros off Hoff.
  by rewrite Hby, Hb.
Qed.

Lemma settling_trans R v s p k q v1 s1 v2 s2 : sound x0 R v s -> p <= k <= q -> settling R v s p k v1 s1 ->
  settling R v1 s1 (k + 1) q v2 s2 -> settling R v s p q v2 s2.
Proof.
  intros Hs Hk [Hs1 Hsh1 Hv1 Hm1 Hl1 Hin1 Hout1] [Hs2 Hsh2 Hv2 Hm2 Hl2 Hin2 Hout2].
  split; [done|congruence|congruence| | | |].
  - rewrite (mem_same_rc (frames (phys s))) in * by apply Hs. rewrite (mem_same_rc (frames (phys s1))) in Hm2 by apply Hs1.
    intros a Ha Hu. rewrite Hm2, Hm1; [done..|]. apply Hl1; [by apply Z.div_pos|done].
  - intros n Hn Hu. destruct (Hl1 n Hn Hu) as [Hu1 Hle1]. destruct (Hl2 n Hn Hu1). lia.
  - intros r Hr Hin. destruct (decide (r <= k)) as [Hle|Hgt].
    + rewrite Hout2 by (done || lia). eapply settled_later; [apply Hin1; [done|lia]|done|]. intros e He.
      split; [by apply (mapped_owned _ _ _ _ _ Hs1 Hr He)|]. intros off Ho. by eapply kept_bytes.
    + eapply settled_earlier; [rewrite <- Hout1 by (done || lia); apply Hin2; [done|lia]|]. intros e He off Ho.
      by eapply kept_bytes.
  - intros r Hr Hn. rewrite Hout2, Hout1 by (done || lia). done.
Qed.

Lemma settling_fail R v s p v' s' : outcome x0 R R v s (mapping v) v' s' -> lighter s s' ->
  settling R v s p (p - 1) v' s'.
Proof. intros [Hs Hv Hsh Hvec Hm _] Hl. split; [done..| |by intros; apply Hv]. intros r Hr ?. lia. Qed.

Lemma settling_one R v s p e e' v' s' : outcome x0 R R v s (view_set (mapping v) p (Some e')) v' s' -> lighter s s' ->
  user_page p -> mapping v p = Some e -> PageTableEntry.is_cow e = true -> resolved (memory s) (memory s') e e' ->
  owners s' e' = 1 -> settling R v s p p v' s'.
Proof.
  intros [Hs Hv Hsh Hvec Hm _] Hl Hp He Hc Hr Ho. split; [done..| |].
  - intros r Hu Hin. replace r with p in * by lia. rewrite Hv by done. unfold view_set, settled. rewrite Z.eqb_refl, He, Hc.
    by exists e'.
  - intros r Hu Hn. rewrite Hv by done. unfold view_set. destruct (Z.eqb_spec r p); [lia|done].
Qed.

Lemma wp_resolve_pages R fuel v s p q (Q : res Error unit → Vmem * MemState P → Prop) : sound x0 R v s ->
  0 <= p <= q -> q * PAGE_SIZE <= usize_max -> q - p < Z.of_nat fuel ->
  (forall v' s', settling R v s p q v' s' -> Q (Ok tt) (v', s')) ->
  (forall err k v' s', k < q -> settling R v s p k v' s' -> Q (Err err) (v', s')) ->
  wp (Vmem.resolve_pages fuel (p * PAGE_SIZE) (q * PAGE_SIZE)) (v, s) Q.
Proof.
  revert v s p. induction fuel as [|fuel IH]; intros v s p Hs Hp Hq Hf H1 H2; cbn [Vmem.resolve_pages]; [lia|].
  destruct (page_raw p ltac:(lia)) as [-> Hpage]. do 3 wstep. set (x := page_at p) in *.
  assert (forall v1 s1, settling R v s p p v1 s1 -> wp
    (if p * PAGE_SIZE =? q * PAGE_SIZE then mret tt else
      match checked_add (p * PAGE_SIZE) PAGE_SIZE with
      | Some page => Vmem.resolve_pages fuel page (q * PAGE_SIZE)
      | None => fail (mkError BadAddress "resolve_cow_for_region: page overflow")
      end) (v1, s1) Q) as Hnext.
  { intros v1 s1 Hst. destruct (Z.eqb_spec (p * PAGE_SIZE) (q * PAGE_SIZE)) as [E|E].
    - wstep. apply H1. replace q with p by (change PAGE_SIZE with 4096 in *; lia). done.
    - unfold checked_add. change PAGE_SIZE with 4096 in *. destruct (Z.leb_spec (p * 4096 + 4096) usize_max); [|lia].
      replace (p * 4096 + 4096) with ((p + 1) * 4096) by lia.
      apply IH; [apply Hst|lia|lia|lia| |].
      + intros v2 s2 Hst2. apply H1. eapply (settling_trans _ _ _ _ p); [done|lia|done|done].
      + intros err k v2 s2 Hk Hst2. destruct (decide (p <= k)) as [Hle|Hgt].
        * apply (H2 err k); [done|]. eapply (settling_trans _ _ _ _ p); [done|lia|done|done].
        * apply (H2 err p); [lia|]. eapply (settling_trans _ _ _ _ p p); [done|lia|done|].
          destruct Hst2. split; [done..| |]; intros; [lia|]. apply st_out0; [done|lia]. }
  eapply wp_resolve_cow_at; [done| | |].
  - intros Hno. apply Hnext, settling_none; [done|]. intros e Hu He. rewrite Hpage, He in Hno.
    destruct Hno as [Hno|Hno]; [|done]. exfalso. unfold x in Hno. by rewrite (proj2 (page_user p)) in Hno.
  - intros e e' v1 s1 Hx He Hc Hr Ho Hl Hoc. rewrite Hpage in *. apply Hnext. eapply settling_one; [done..| |done|done|done|done].
    apply page_user. exact Hx.
  - intros err v1 s1 Hl Hoc. apply (H2 err (p - 1)); [lia|]. by apply settling_fail.
Qed.

Lemma align_down_page a : 0 <= a <= usize_max -> align_down a PAGE_ALIGNMENT = a / PAGE_SIZE * PAGE_SIZE.
Proof.
  intros Ha. rewrite align_down_mod by done. change (Alignment_value PAGE_ALIGNMENT) with PAGE_SIZE.
  pose proof (Z.div_mod a PAGE_SIZE ltac:(done)). lia.
Qed.

Lemma wp_resolve_region R v s (a : VirtualAddress) size (Q : res Error unit → Vmem * MemState P → Prop) : sound x0 R v s ->
  0 < size -> 0 <= va_raw a -> va_raw a + size - 1 <= usize_max ->
  let p := va_raw a / PAGE_SIZE in let q := (va_raw a + size - 1) / PAGE_SIZE in
  (forall v' s', settling R v s p q v' s' -> Q (Ok tt) (v', s')) ->
  (forall err k v' s', k < q -> settling R v s p k v' s' -> Q (Err err) (v', s')) ->
  wp (Vmem.resolve_cow_for_region a size) (v, s) Q.
Proof.
  intros Hs Hsz Ha Hb p q H1 H2. unfold Vmem.resolve_cow_for_region. destruct (Z.eqb_spec size 0); [lia|].
  unfold checked_add. destruct (Z.leb_spec (va_raw a + (size - 1)) usize_max); [|lia].
  rewrite !align_down_page by lia. replace (va_raw a + (size - 1)) with (va_raw a + size - 1) by lia. fold p q.
  assert (p <= q) as Hpq by (apply Z.div_le_mono; [done|lia]).
  assert (0 <= p) by (apply Z.div_pos; done).
  pose proof (Z.div_mod (va_raw a) PAGE_SIZE ltac:(done)) as E1. fold p in E1.
  pose proof (Z.mod_pos_bound (va_raw a) PAGE_SIZE ltac:(done)).
  pose proof (Z.div_mod (va_raw a + size - 1) PAGE_SIZE ltac:(done)) as E2. fold q in E2.
  pose proof (Z.mod_pos_bound (va_raw a + size - 1) PAGE_SIZE ltac:(done)).
  pose proof (Z.div_mod size PAGE_SIZE ltac:(done)). pose proof (Z.mod_pos_bound size PAGE_SIZE ltac:(done)).
  change PAGE_SIZE with 4096 in *. apply (wp_resolve_pages R); [done|lia|change PAGE_SIZE with 4096; lia| |done|done].
  rewrite Z2Nat.id by (pose proof (Z.div_pos size 4096); lia). lia.
Qed.

End Resolve.
