(* ===== verification/NewVmem.v ===== *)
(** * Creating address spaces

    [Vmem::clone] of [kernel/src/mm/virt/vmem.rs], [sync_kernel_pdes] of
    [identity_map.rs] and [new_vmem] of [manager.rs]: a new address space has the
    kernel's tables and no user page. *)

From S2P Require Import Prelude Error BitAlloc Bitmap Config Addr Paging Frame Phys KMem UserSpace AddrSpace.
From S2P Require Import Perm Mappings VmemSpec.
#[local] Open Scope Z_scope.

(** The kernel identity-maps all of memory, and user addresses start above it. *)
Class UserAbove {CF : Config} : Prop := {
  user_above : MEMORY_SIZE <= USER_BASE_RAW
}.

Section Create.
Context {CF : Config} {HC : ConfigOk} {UA : UserAbove} {P : Type} {IM : IdentityMap P} {KD : KernelDirectory P}.

(** [VirtMemoryManager::new_vmem]. *)
Definition new_vmem (vmem : Vmem) : M (MemState P) Error Vmem :=
  kframe ← KMem.on_phys Phys.alloc_kernel_frame;
  Vmem.clone vmem kframe.

(** Directories that are good and have no user table. *)
Definition no_user (base : FrameAddress) (pd : PageDirectory) : Prop :=
  pd_ok pd /\ pd_base pd = base /\ forall a, user_table a -> pd_entry pd (get_pde_index a) = None.

Lemma new_no_user base : no_user base (PageDirectory.new base).
Proof. split; [apply pd_new_ok|]. split; [done|]. intros a _. apply pd_new_entry. Qed.

Lemma written_no_user base pd pd' a o : no_user base pd -> pd_ok pd' -> pd_written a o pd pd' ->
  (forall b, user_table b -> get_pde_index b <> get_pde_index a) -> no_user base pd'.
Proof.
  intros (Hok & Hb & Hn) Hok' [Hb' Hw] Hne. split; [done|]. split; [congruence|]. intros b Hu.
  rewrite Hw by by apply user_table_range. specialize (Hne b Hu). zbool; [done|by apply Hn].
Qed.

Lemma real_frame_raw f : real_frame f -> FrameAddress_from_raw_value (FrameAddress_raw f) = Ok f.
Proof. intros (n & -> & Hn & Hlt). apply frame_from_raw; lia. Qed.

Lemma wp_map_kernel_tables base l pd : Forall kernel_ok l -> no_user base pd ->
  wp (Vmem.map_kernel_tables l) pd (fun r pd' => r <> Panic /\ no_user base pd').
Proof.
  revert pd. induction l as [|[a f] l IH]; intros pd Hl Hn; cbn [Vmem.map_kernel_tables]; [by wstep|].
  apply Forall_cons in Hl as [(Hw & Hf & Hne) Hl]. simpl in Hw, Hf, Hne. do 2 wstep. rewrite real_frame_raw by done.
  destruct Hf as (n & -> & Hb & Hlt). wstep. apply wp_pd_map; [apply Hn|done|done| |].
  - intros _ pd' Hok' Hwr. apply IH; [done|]. by eapply written_no_user.
  - intros e _. by split.
Qed.

Lemma pde_address_index i : 0 <= i -> i * PGTAB_SIZE <= usize_max ->
  pt_in_word (Vmem.pde_address i) /\ get_pde_index (Vmem.pde_address i) = i.
Proof.
  intros Hi Hb. assert (pt_in_word (Vmem.pde_address i)) as Hw.
  { unfold pt_in_word. simpl. change PGTAB_SIZE with 4194304 in *. lia. }
  split; [done|]. rewrite pde_index_eq by done. simpl. by apply Z.div_mul.
Qed.

(** The entries of the kernel directory, as they are read back. *)
Lemma read_present pd a : pd_ok pd -> pt_in_word a -> exists e, Vmem.read_or_fail pd a = Ok e /\ numbered (pd_frame e).
Proof. intros Hok Ha. destruct (pd_read pd a Hok Ha) as (e & He & Hn & _). exists e. unfold Vmem.read_or_fail. by rewrite He. Qed.

Lemma wp_sync_pdes base kernel n i pd : pd_ok kernel -> no_user base pd -> 0 <= i ->
  (i + Z.of_nat n) * PGTAB_SIZE <= USER_BASE_RAW ->
  wp (Vmem.sync_pdes n i kernel) pd (fun r pd' => r <> Panic /\ no_user base pd').
Proof.
  intros Hk. revert i pd. induction n as [|n IH]; intros i pd Hn Hi Hb; cbn [Vmem.sync_pdes]; [by wstep|].
  destruct (pde_address_index i Hi) as [Hw Hidx]; [pages; lia|].
  destruct (read_present kernel _ Hk Hw) as (ke & Hke & Hkn). do 2 wstep. rewrite Hke. wstep.
  destruct (PageDirectoryEntry.is_present ke); [|wstep; apply IH; [done|lia|lia]].
  destruct (read_present pd _ (proj1 Hn) Hw) as (te & Hte & _). do 4 wstep. rewrite Hte.
  destruct (PageDirectoryEntry.is_present te); [wstep; apply IH; [done|lia|lia]|].
  apply wp_write_pde; [apply Hn|done|done|]. intros pd' Hok' Hwr. apply IH; [|lia|lia].
  eapply written_no_user; [done..|]. intros b Hu. destruct (user_table_index _ Hu) as (_ & k & _ & -> & Hk').
  rewrite Hidx. pages. lia.
Qed.

Lemma wp_sync base t pd : no_user base pd ->
  wp (Vmem.sync_kernel_pdes t) pd (fun r pd' => r <> Panic /\ no_user base pd').
Proof.
  intros Hn. unfold Vmem.sync_kernel_pdes. destruct (kernel_pd t) as [kernel|] eqn:Hk; [|by wstep].
  apply wp_sync_pdes; [by eapply kernel_pd_ok|done|lia|]. pose proof user_above. pose proof memory_size_bound.
  rewrite Z2Nat.id by (apply Z.div_pos; [lia|done]). pose proof (Z.div_mod MEMORY_SIZE PGTAB_SIZE ltac:(done)).
  pose proof (Z.mod_pos_bound MEMORY_SIZE PGTAB_SIZE ltac:(done)). pages. lia.
Qed.

(** ** The new space *)

Variable x0 : Inner Bitmap.
Hypothesis Hi0 : Frame.inv x0.
Implicit Types (v : Vmem) (s : MemState P) (R : list FrameAddress).

Lemma empty_vmem_ok pd st k kp : no_user (storage_base st) pd -> real_frame (storage_base st) -> Forall kernel_ok k ->
  vm_inv (mkVmem pd st k kp [] []).
Proof.
  intros (Hok & Hb & Hn) Hr Hk. split; [|constructor]. split; simpl; [done..|constructor|constructor|constructor| |done].
  intros a Hu. rewrite Hn by done. by intros [? ?].
Qed.

Lemma empty_handles pd f k kp : handles (mkVmem pd (KernelPage f) k kp [] []) = [f].
Proof.
  unfold handles. by rewrite user_frames_none.
Qed.

(** A new address space: no page is mapped, and its directory is all it owns. *)
Lemma wp_new_vmem R v s (Q : res Error Vmem → MemState P → Prop) :
  Forall kernel_ok (kernel_page_tables v) -> Frame.accounted x0 (frames (phys s)) R ->
  (forall n v' s', KMem.new_frame x0 R n -> sound x0 R v' s' -> (forall p, mapping v' p = None) ->
     handles v' = [frame_at n] -> kernel_page_tables v' = kernel_page_tables v ->
     vec (phys s') = vec (phys s) -> memory s' = memory s -> Q (Ok v') s') ->
  (forall e s', Frame.accounted x0 (frames (phys s')) R -> vec (phys s') = vec (phys s) ->
     memory s' = memory s -> Q (Err e) s') ->
  wp (new_vmem v) s Q.
Proof.
  intros Hk Ha H1 H2. unfold new_vmem. wstep. apply wp_on_phys.
  eapply KMem.alloc_kernel_frame_wp; [done|exact Ha| |by intros; apply H2].
  intros n p' Hnew Ha' Hv'. pose proof Hnew as (Hb & Hlt & _). unfold Vmem.clone. do 2 wstep.
  set (fill := _ ≫= _). assert (wp fill (PageDirectory.new (frame_at n))
    (fun r pd => r <> Panic /\ no_user (frame_at n) pd)) as Hfill.
  { unfold fill. wstep. eapply wp_mono; [by apply (wp_map_kernel_tables (frame_at n)); [|apply new_no_user]|].
    intros r pd [Hr Hn]. destruct r as [[]|e|]; [|done|done]. do 4 wstep. unfold PageDirectory.physical_address.
    rewrite (proj1 (proj2 Hn)), real_frame_raw by by exists n. by apply wp_sync. }
  destruct (fill (PageDirectory.new (frame_at n))) as [r pd] eqn:E.
  destruct (wp_run _ _ _ _ _ Hfill E) as [Hr Hn]. do 2 wstep. destruct r as [[]|e|]; wstep; [|wstep|done].
  - wstep. eapply (H1 n); [done| |done| |done|done|done].
    + split; [apply empty_vmem_ok; [done|by exists n|done]|]. by rewrite empty_handles.
    + apply empty_handles.
  - apply wp_on_phys. eapply KMem.drop_frame_wp; [done|exact Ha'|done|]. intros p2 Ha2 Hv2. wstep.
    apply H2; [done|simpl in *; congruence|done].
Qed.

End Create.
