(* ===== verification/VirtManager.v ===== *)
(** * The virtual memory manager

    [kernel/src/mm/virt/manager.rs]: allocating and freeing user pages, sharing all
    pages of an address space copy-on-write with a new one, and the page-fault
    handler for copy-on-write.  Creating address spaces is in [NewVmem.v]. *)

From S2P Require Import Prelude Error BitAlloc Bitmap Config Addr Paging Frame Phys KMem UserSpace AddrSpace.
#[local] Open Scope Z_scope.

Definition LINK_CHUNK : Z := 32.

(** The bits of the x86 page-fault error code that [try_resolve_cow_fault] tests. *)
Record FaultCode := mkFaultCode {
  fault_present : bool;
  fault_write : bool;
  fault_user : bool
}.

Module VirtManager.

Section Definitions.
Context {CF : Config} {P : Type} {IM : IdentityMap P}.

Notation V := (Vmem.V (P:=P)).

(** The error of [m], as a value. *)
Definition attempt {S} (m : M S Error unit) : M S Error (option Error) :=
  catch (m;; mret None) (fun e => mret (Some e)).

(** ** User pages *)

Definition try_unmap_upage (vaddr : PageAddress) : V bool :=
  o ← Vmem.unmap vaddr;
  match o with
  | Some frame => Vmem.on_mem (KMem.on_phys (Phys.drop_frame frame));; mret true
  | None => mret false
  end.

Definition ctrl_upage (vaddr : PageAddress) (access : AccessPermission) : V unit :=
  Vmem.on_vmem (Vmem.uctrl vaddr access).

(** [for _ in 0..nframes]: none of the pages is mapped. *)
Fixpoint check_unmapped (n : nat) (v : Vmem) (check_addr : PageAddress) : res Error unit :=
  match n with
  | O => Ok tt
  | S n =>
    mapped ← Vmem.is_user_page_mapped v check_addr;
    if mapped : bool then Err (mkError ResourceBusy "page already mapped in range")
    else
      match checked_add (into_raw_value check_addr) PAGE_SIZE with
      | None => Err (mkError BadAddress "address overflow in range check")
      | Some raw => next ← from_raw_value raw; check_unmapped n v next
      end
  end.

(** [for uframe in uframes.drain(..)]: the first error, if any, and the number of
    pages mapped.  The frames not reached are dropped. *)
Fixpoint map_frames (uframes : list FrameAddress) (vaddr : PageAddress) (access : AccessPermission)
    (clear : bool) (mapped_count : Z) : V (option Error * Z) :=
  match uframes with
  | [] => mret (None, mapped_count)
  | uframe :: uframes =>
    let stop e n := Vmem.on_mem (KMem.on_phys (Phys.drop_frames uframes));; mret (Some e, n) in
    r ← attempt (Vmem.map uframe vaddr access);
    match r with
    | Some e => stop e mapped_count
    | None =>
      let mapped_count := mapped_count + 1 in
      r ← attempt (if clear then Vmem.memset vaddr 0 else mret tt);
      match r with
      | Some e => stop e mapped_count
      | None =>
        raw ← lift (usize_add (into_raw_value vaddr) PAGE_SIZE);
        match from_raw_value raw with
        | Ok next => map_frames uframes next access clear mapped_count
        | Err e => stop e mapped_count
        | Panic => panic
        end
      end
    end
  end.

(** [for _ in 0..mapped_count] of the roll-back. *)
Fixpoint unmap_pages (n : nat) (rollback_addr : PageAddress) : V unit :=
  match n with
  | O => mret tt
  | S n =>
    attempt (try_unmap_upage rollback_addr;; mret tt);;
    raw ← lift (usize_add (into_raw_value rollback_addr) PAGE_SIZE);
    match from_raw_value raw with
    | Ok next => unmap_pages n next
    | Err _ => mret tt
    | Panic => panic
    end
  end.

(** The vector [uframes] of the caller is [vec] of the physical memory manager. *)
Definition alloc_upages (capacity : Z) (vaddr : PageAddress) (access : AccessPermission)
    (clear : bool) (nframes : Z) : V unit :=
  s ← Vmem.on_mem get;
  if negb (bool_decide (vec (phys s) = []))
  then fail (mkError InvalidArgument "caller-supplied uframes vector is not empty")
  else if capacity <? nframes
  then fail (mkError InvalidArgument "caller-supplied uframes vector has insufficient capacity")
  else
    match checked_mul nframes PAGE_SIZE with
    | None => fail (mkError InvalidArgument "range size overflow")
    | Some range_size =>
      if negb (is_user_region (pg_inner vaddr) range_size)
      then fail (mkError BadAddress "range is not entirely in user space")
      else
        v ← Vmem.on_vmem get;
        lift (check_unmapped (Z.to_nat nframes) v vaddr);;
        Vmem.on_mem (KMem.on_phys (catch (Phys.alloc_many_user_frames capacity nframes)
          (fun e => Phys.vec_clear;; fail e)));;
        uframes ← Vmem.on_mem (KMem.on_phys (p ← get; Phys.set_vec [];; mret (vec p)));
        '(map_error, mapped_count) ← map_frames uframes vaddr access clear 0;
        match map_error with
        | Some e => unmap_pages (Z.to_nat mapped_count) vaddr;; fail e
        | None => mret tt
        end
    end.

(** ** Kernel pages *)

Definition alloc_kpage (clear : bool) : M (MemState P) Error FrameAddress :=
  kframe ← KMem.on_phys Phys.alloc_kernel_frame;
  (if clear
   then catch (KMem.KernelFrame_clear kframe) (fun e => KMem.on_phys (Phys.drop_frame kframe);; fail e)
   else mret tt);;
  mret kframe.

(** [kframes.iter_mut().try_for_each(|kframe| kframe.clear())]. *)
Fixpoint clear_frames (kframes : list FrameAddress) : M (MemState P) Error unit :=
  match kframes with
  | [] => mret tt
  | kframe :: kframes => KMem.KernelFrame_clear kframe;; clear_frames kframes
  end.

Definition alloc_kpages (clear : bool) (capacity count : Z) : M (MemState P) Error unit :=
  s ← get;
  if negb (bool_decide (vec (phys s) = []))
  then fail (mkError InvalidArgument "caller-supplied kframes vector is not empty")
  else if capacity <? count
  then fail (mkError InvalidArgument "caller-supplied kframes vector has insufficient capacity")
  else
    KMem.on_phys (Phys.alloc_many_kernel_frames capacity count);;
    if clear then
      s ← get;
      catch (clear_frames (vec (phys s))) (fun e => KMem.on_phys Phys.vec_clear;; fail e)
    else mret tt.

(** ** Copy-on-write faults *)

Definition try_resolve_cow_fault (fault_addr : Z) (error_code : FaultCode) : V bool :=
  if negb (fault_present error_code) || negb (fault_write error_code) || negb (fault_user error_code)
  then mret false
  else
    match from_raw_value (T:=PageAddress) (align_down fault_addr PAGE_ALIGNMENT) with
    | Ok vaddr => Vmem.resolve_cow_at vaddr
    | Err _ => mret false
    | Panic => panic
    end.

(** ** Sharing an address space *)

(** Code on the parent, the child and memory. *)
Definition L (A : Type) : Type := M (Vmem * Vmem * MemState P) Error A.
Definition on_parent {A} (m : M Vmem Error A) : L A :=
  zoom (fun s => s.1.1) (fun v s => (v, s.1.2, s.2)) m.
Definition on_child {A} (m : V A) : L A :=
  zoom (fun s => (s.1.2, s.2)) (fun t s => (s.1.1, t.1, t.2)) m.

(** A page that has been selected: its address, its frame, whether it is writable. *)
Definition Link : Type := PageAddress * FrameAddress * bool.

Definition link_one_user_page (vaddr : PageAddress) (frame : FrameAddress) (writable : bool) : L unit :=
  child_handle ← on_child (Vmem.on_mem (KMem.on_phys (Phys.UserFrame_share frame)));
  on_child (Vmem.map child_handle vaddr (if writable then RDWR else RDONLY));;
  if writable then
    catch (on_parent (Vmem.mark_user_page_cow vaddr))
      (fun e => attempt (on_child (try_unmap_upage vaddr;; mret tt));; fail e);;
    catch (on_child (Vmem.on_vmem (Vmem.mark_user_page_cow vaddr)))
      (fun e => attempt (on_parent (Vmem.unmark_user_page_cow vaddr));;
                attempt (on_child (try_unmap_upage vaddr;; mret tt));; fail e)
  else mret tt.

(** The callback that fills the buffer of a chunk: pages the child does not have. *)
Definition select_page (child : Vmem) (vaddr : PageAddress) (pte : PageTableEntry)
    : M (list Link) Error unit :=
  buf ← get;
  if Z.of_nat (length buf) <? LINK_CHUNK then
    o ← lift (Vmem.try_find_user_pte child vaddr);
    match o with
    | None =>
      frame ← lift (FrameAddress_from_frame_number (pte_frame pte));
      put (buf ++ [(vaddr, frame, PageTableEntryFlags.is_writable (flags pte))])
    | Some _ => mret tt
    end
  else mret tt.

(** The callback of the roll-back. *)
Definition select_linked (vaddr : PageAddress) (pte : PageTableEntry)
    : M (list (PageAddress * bool)) Error unit :=
  buf ← get;
  if Z.of_nat (length buf) <? LINK_CHUNK then put (buf ++ [(vaddr, PageTableEntry.is_cow pte)])
  else mret tt.

Fixpoint unlink_pages (buf : list (PageAddress * bool)) : L unit :=
  match buf with
  | [] => mret tt
  | (vaddr, was_cow) :: buf =>
    (if was_cow : bool then attempt (on_parent (Vmem.unmark_user_page_cow vaddr));; mret tt
     else mret tt);;
    attempt (on_child (try_unmap_upage vaddr;; mret tt));;
    unlink_pages buf
  end.

(** [rollback_linked_pages]: [fuel] bounds the number of chunks. *)
Fixpoint rollback_linked_pages (fuel : nat) : L unit :=
  match fuel with
  | O => panic
  | S fuel =>
    s ← get;
    match Vmem.for_each_user_mapping s.1.2 select_linked [] with
    | (Err _, _) => mret tt
    | (Panic, _) => panic
    | (Ok _, buf) =>
      if (length buf =? 0)%nat then mret tt
      else
        unlink_pages buf;;
        if Z.of_nat (length buf) <? LINK_CHUNK then mret tt
        else rollback_linked_pages fuel
    end
  end.

(** The pages of one chunk; everything linked so far is undone on an error. *)
Fixpoint link_pages (fuel : nat) (buf : list Link) : L unit :=
  match buf with
  | [] => mret tt
  | (vaddr, frame, writable) :: buf =>
    catch (link_one_user_page vaddr frame writable)
      (fun e => rollback_linked_pages fuel;; fail e);;
    link_pages fuel buf
  end.

Fixpoint link_chunks (fuel rollback_fuel : nat) : L unit :=
  match fuel with
  | O => panic
  | S fuel =>
    s ← get;
    match Vmem.for_each_user_mapping s.1.1 (select_page s.1.2) [] with
    | (Err e, _) => fail e
    | (Panic, _) => panic
    | (Ok _, buf) =>
      if (length buf =? 0)%nat then mret tt
      else
        link_pages rollback_fuel buf;;
        if Z.of_nat (length buf) <? LINK_CHUNK then mret tt
        else link_chunks fuel rollback_fuel
    end
  end.

(** The user part has 720896 pages, so there are at most 22529 chunks. *)
Definition LINK_FUEL : nat := Z.to_nat ((USER_END_RAW - USER_BASE_RAW) / PAGE_SIZE / LINK_CHUNK + 1).

Definition link_user_pages : L unit := link_chunks LINK_FUEL LINK_FUEL.

End Definitions.

End VirtManager.
