(* ===== verification/PageAlloc.v ===== *)
(** * Allocating user pages

    [alloc_upages] of [kernel/src/mm/virt/manager.rs] maps new frames at a range of
    pages, or changes nothing. *)

From S2P Require Import Prelude Error BitAlloc Bitmap Config Addr Paging Frame Phys KMem UserSpace AddrSpace.
From S2P Require Import Perm Mappings VmemSpec Cow VirtManager.
#[local] Open Scope Z_scope.

Section PageAlloc.
Context {CF : Config} {HC : ConfigOk} {P : Type} {IM : IdentityMap P}.
Variable x0 : Inner Bitmap.
Hypothesis Hi0 : Frame.inv x0.
Implicit Types (v : Vmem) (s : MemState P) (x : PageAddress) (L R : list FrameAddress) (ns : list Z).

(** ** Single pages *)

Lemma wp_try_unmap R v s x (Q : res Error bool → Vmem * MemState P → Prop) : sound x0 R v s ->
  (is_user_addr (pg_inner x) = true -> mapping v (page_of x) = None -> Q (Ok false) (v, s)) ->
  (forall e v' s', is_user_addr (pg_inner x) = true -> mapping v (page_of x) = Some e ->
     outcome x0 R R v s (view_set (mapping v) (page_of x) None) v' s' -> memory s' = memory s ->
     falls s s' -> Q (Ok true) (v', s')) ->
  (forall e, is_user_addr (pg_inner x) = false -> Q (Err e) (v, s)) ->
  wp (VirtManager.try_unmap_upage x) (v, s) Q.
Proof.
  intros Hs H1 H2 H3. unfold VirtManager.try_unmap_upage. wstep. eapply (wp_unmap x0 Hi0 R); [done| | |].
  - intros Hx Hm. wstep. by apply H1.
  - intros e v' s' Hx Hm [[Hinv Ha] Hv Hsh Hvec Hme _] Hmem Hfa. wstep. apply wp_on_mem, wp_on_phys.
    eapply (KMem.drop_frame_wp x0 _ _ _ (handles v' ++ R)); [done|exact Ha|by rewrite Permutation_middle|].
    intros p2 Ha2 Hv2. assert (falls s (mkMem p2 (memory s'))) as Hfa'.
    { etrans; [exact Hfa|]. eapply falls_sub; [exact Ha|exact Ha2|]. apply submseteq_app; [done|by apply submseteq_cons]. }
    wstep. apply (H2 e); [done..| |done|done]. split; [by split|done|done|simpl; congruence| |by apply falls_calm].
    simpl. by rewrite Hmem.
  - intros Hx. by apply H3.
Qed.

Lemma wp_attempt {S} (m : M S Error unit) (t : S) (Q : res Error (option Error) → S → Prop) :
  wp m t (fun r t' => match r with Ok _ => Q (Ok None) t' | Err e => Q (Ok (Some e)) t' | Panic => Q Panic t' end) ->
  wp (VirtManager.attempt m) t Q.
Proof.
  intros H. unfold VirtManager.attempt. do 2 wstep. eapply wp_mono; [exact H|]. simpl.
  intros [[]|e|] t' HQ; [by wstep|by wstep|done].
Qed.

(** Memory, but for the frames [ns] and those not in use. *)
Definition mem_but s ns (m m' : Z → Z) : Prop :=
  forall a, 0 <= a -> 1 <= Frame.rc (frames (phys s)) (a / FRAME_SIZE) -> a / FRAME_SIZE ∉ ns -> m' a = m a.

Lemma wp_vmem_memset v s x e value (Q : res Error unit → Vmem * MemState P → Prop) : vm_ok v -> in_word x ->
  mapping v (page_of x) = Some e -> fn_raw (pte_frame e) * FRAME_SIZE < MEMORY_SIZE ->
  (forall s', KMem.kept s s' ->
     memory s' = fill_bytes (fn_raw (pte_frame e) * FRAME_SIZE) (value mod 256) PAGE_SIZE (memory s) ->
     Q (Ok tt) (v, s')) ->
  (forall err s', KMem.kept s s' -> memory s' = memory s -> Q (Err err) (v, s')) ->
  wp (Vmem.memset x value) (v, s) Q.
Proof.
  intros Hok Hx Hm Hlt H1 H2. unfold Vmem.memset. wstep. apply wp_on_vmem. do 3 wstep.
  pose proof (find_frame v x Hok Hx) as Hf. rewrite Hm in Hf. rewrite Hf. apply wp_on_mem. unfold handle.
  rewrite KMem.frame_raw. pose proof (mapping_numbered v _ e Hok Hm) as [? ?]. pose proof memory_size_bound.
  apply KMem.memset_wp; [done|change FRAME_SIZE with 4096 in *; lia|done|done].
Qed.

(** ** The loop *)

(** The pages from [p] on, mapped to the frames [ns]. *)
Definition view_map (W : view) (p : Z) ns (access : AccessPermission) : view :=
  fun q => if p <=? q then
    match ns !! Z.to_nat (q - p) with
    | Some n => Some (mapped_pte n false false true access)
    | None => W q
    end else W q.

Lemma view_map_cons W p n ns access q :
  view_map W p (n :: ns) access q =
  view_map (view_set W p (Some (mapped_pte n false false true access))) (p + 1) ns access q.
Proof.
  unfold view_map, view_set. destruct (Z.leb_spec p q); destruct (Z.leb_spec (p + 1) q); try lia.
  - replace (Z.to_nat (q - p)) with (S (Z.to_nat (q - (p + 1)))) by lia. simpl.
    destruct (Z.eqb_spec q p); [lia|done].
  - replace q with p by lia. by rewrite Z.sub_diag, Z.eqb_refl.
  - destruct (Z.eqb_spec q p); [lia|done].
Qed.

Definition zeroed ns (m : Z → Z) : Prop :=
  forall n off, n ∈ ns -> 0 <= off < PAGE_SIZE -> m (n * FRAME_SIZE + off) = 0.

(** Frames held once, by the caller. *)
Definition single s (n : Z) : Prop := 0 <= n <= FrameNumber_MAX /\ Frame.rc (frames (phys s)) n = 1.

(** A step of the loop, and the rest. *)
Lemma steady_step s s1 s2 s' : steady s s1 -> KMem.kept s1 s2 -> steady s2 s' -> steady s s'.
Proof. intros H1 [Hf _] H2 n Hn Hu. rewrite H2, Hf, H1 by (rewrite ?Hf, ?H1; done). done. Qed.

Lemma calm_step s s1 s2 s' : steady s s1 -> KMem.kept s1 s2 -> calm s2 s' -> calm s s'.
Proof.
  intros H1 [Hf _] H2 n Hn Hu. rewrite <- (H1 n Hn Hu), <- Hf. apply H2; [done|]. by rewrite Hf, H1.
Qed.

Lemma calm_falls s s1 s' : calm s s1 -> falls s1 s' -> calm s s'.
Proof. intros H1 H2 n Hn Hu. specialize (H1 n Hn Hu). specialize (H2 n Hn). lia. Qed.

(** What the loop leaves when it stops after [j] pages. *)
Record stopped R v s (p j : Z) ns v' s' : Prop := {
  sp_sound : sound x0 R v' s';
  sp_out q : user_page q -> ~ (p <= q < p + j) -> mapping v' q = mapping v q;
  sp_shell : shell v' = shell v;
  sp_vec : vec (phys s') = vec (phys s);
  sp_mem : mem_but s ns (memory s) (memory s');
  sp_calm : calm s s'
}.

Record filled R v s (p : Z) ns access (clear : bool) v' s' : Prop := {
  fl_sound : sound x0 R v' s';
  fl_view q : user_page q -> mapping v' q = view_map (mapping v) p ns access q;
  fl_shell : shell v' = shell v;
  fl_vec : vec (phys s') = vec (phys s);
  fl_mem : mem_but s ns (memory s) (memory s');
  fl_steady : steady s s';
  fl_zero : clear = true -> zeroed ns (memory s')
}.

Lemma wp_stop R fs v s (e : Error) (n : Z) (Q : res Error (option Error * Z) → Vmem * MemState P → Prop) :
  sound x0 (fs ++ R) v s ->
  (forall s', sound x0 R v s' -> vec (phys s') = vec (phys s) -> memory s' = memory s ->
     falls s s' -> Q (Ok (Some e, n)) (v, s')) ->
  wp (Vmem.on_mem (KMem.on_phys (Phys.drop_frames fs));; mret (Some e, n)) (v, s) Q.
Proof.
  intros [Hinv Ha] HQ. wstep. apply wp_on_mem, wp_on_phys.
  eapply wp_mono; [eapply (Phys.drop_frames_wp x0 fs _ _ (handles v ++ R)); [done|exact Ha|perm]|].
  intros r p' (-> & Ha' & Hv). wstep. apply HQ; [by split|done|done|].
  eapply falls_sub; [exact Ha|exact Ha'|]. rewrite (app_assoc _ fs R), (Permutation_app_comm _ fs), <- app_assoc. by apply submseteq_inserts_l.
Qed.

(** Clearing the page, when asked to. *)
Lemma wp_clear v s p n access (clear : bool) (Q : res Error (option Error) → Vmem * MemState P → Prop) :
  vm_ok v -> user_page p -> mapping v p = Some (mapped_pte n false false true access) ->
  0 <= n -> n * FRAME_SIZE < MEMORY_SIZE ->
  (forall o s', KMem.kept s s' -> (forall a, a / FRAME_SIZE <> n -> memory s' a = memory s a) ->
     (o = None -> clear = true -> zeroed [n] (memory s')) -> Q (Ok o) (v, s')) ->
  wp (VirtManager.attempt (if clear then Vmem.memset (page_at p) 0 else mret tt)) (v, s) Q.
Proof.
  intros Hok Hp Hm Hn Hlt HQ. apply wp_attempt. destruct clear; [|wstep; by apply HQ].
  destruct (user_addr_page (page_at p) (proj2 (page_user p) Hp)) as [Hw _].
  pose proof (page_raw p) as Hpr. destruct Hpr as [_ Hpo]; [pages; lia|].
  eapply wp_vmem_memset; [done|done|by rewrite Hpo|done| |].
  - intros s' Hk Hmem. simpl in Hmem. apply HQ; [done| |].
    + intros a Ha. rewrite Hmem. apply fill_outside. intros Hin. apply Ha. by apply in_frame.
    + intros _ _ k off ->%list_elem_of_singleton Ho. rewrite Hmem. unfold fill_bytes.
      destruct (_ && _) eqn:E; [done|]. change FRAME_SIZE with 4096 in *. change PAGE_SIZE with 4096 in *. lia.
  - intros err s' Hk Hmem. apply HQ; [done|by rewrite Hmem|done].
Qed.

Lemma mem_but_step s s1 s2 n ns (m m1 m2 m3 : Z → Z) : steady s s1 -> KMem.kept s1 s2 ->
  mem_but s [] m m1 -> (forall a, a / FRAME_SIZE <> n -> m2 a = m1 a) -> mem_but s2 ns m2 m3 -> mem_but s (n :: ns) m m3.
Proof.
  intros Hst [Hf _] H1 H2 H3 a Ha Hu Hni. apply not_elem_of_cons in Hni as [Hne Hni].
  assert (0 <= a / FRAME_SIZE) as Hpos by by apply Z.div_pos.
  rewrite H3, H2, H1; [done..|by intros ?%elem_of_nil|done|done| |done]. rewrite Hf, Hst; done.
Qed.

Lemma filled_step R v s p n ns access clear v1 s1 s2 v' s' : user_page p ->
  outcome x0 (frame_at n :: (frame_at <$> ns) ++ R) ((frame_at <$> ns) ++ R) v s
    (view_set (mapping v) p (Some (mapped_pte n false false true access))) v1 s1 ->
  steady s s1 -> KMem.kept s1 s2 -> mem_but s [] (memory s) (memory s1) ->
  (forall a, a / FRAME_SIZE <> n -> memory s2 a = memory s1 a) -> (clear = true -> zeroed [n] (memory s2)) ->
  n ∉ ns -> single s n -> filled R v1 s2 (p + 1) ns access clear v' s' -> filled R v s p (n :: ns) access clear v' s'.
Proof.
  intros Hp [_ Hv1 Hsh1 Hvec1 _ _] Hst Hk Hm1 Hm2 Hz Hni [Hnn Hn] [Hs Hv Hsh Hvec Hm Hsd Hzero]. pose proof Hk as [Hf Hvk].
  split; [done| |congruence|congruence| |by eapply steady_step|].
  - intros q Hq. rewrite Hv, view_map_cons by done. unfold view_map.
    destruct (p + 1 <=? q); [|by apply Hv1]. destruct (ns !! _); [done|by apply Hv1].
  - by eapply mem_but_step.
  - intros Hc k off [->|Hin]%elem_of_cons Ho; [|by apply Hzero].
    assert ((n * FRAME_SIZE + off) / FRAME_SIZE = n) as E by (apply in_frame; change FRAME_SIZE with PAGE_SIZE; lia).
    rewrite Hm; rewrite ?E; [|change FRAME_SIZE with 4096; lia| |done].
    + apply Hz; [done|left|done].
    + rewrite Hf, Hst; rewrite ?Hn; lia.
Qed.

Lemma wp_map_frames ns R v s p access clear k (Q : res Error (option Error * Z) → Vmem * MemState P → Prop) :
  sound x0 ((frame_at <$> ns) ++ R) v s -> Forall (single s) ns -> NoDup ns -> USER_FIRST <= p ->
  p + Z.of_nat (length ns) <= USER_PAST ->
  (forall v' s', filled R v s p ns access clear v' s' -> Q (Ok (None, k + Z.of_nat (length ns))) (v', s')) ->
  (forall e j v' s', 0 <= j <= Z.of_nat (length ns) -> stopped R v s p j ns v' s' -> Q (Ok (Some e, k + j)) (v', s')) ->
  wp (VirtManager.map_frames (frame_at <$> ns) (page_at p) access clear k) (v, s) Q.
Proof.
  revert v s p k. induction ns as [|n ns IH]; intros v s p k Hs Hsi Hnd Hp0 Hp1 H1 H2.
  { cbn [fmap list_fmap VirtManager.map_frames]. wstep. replace k with (k + Z.of_nat (length (A:=Z) [])) by (simpl; lia).
    apply H1. split; [done| |done|done|by intros a|by intros n|by intros _ n off ?%elem_of_nil].
    intros q Hq. unfold view_map. by destruct (p <=? q). }
  rewrite fmap_cons in *. cbn [VirtManager.map_frames]. apply Forall_cons in Hsi as [Hn Hsi].
  apply NoDup_cons in Hnd as [Hni Hnd]. simpl length in *.
  assert (user_page p) as Hp by (pages; lia). pose proof (proj2 (page_user p) Hp) as Hpu.
  destruct (page_raw p) as [_ Hpo]; [pages; lia|]. pose proof Hs as [[Hok _] Ha].
  wstep. apply wp_attempt. eapply (wp_map x0 Hi0 ((frame_at <$> ns) ++ R)); [exact Hs|apply Hn| |]; rewrite ?Hpo.
  - intros v1 s1 _ Hnone Hoc Hst. wstep. pose proof Hoc as [Hs1 Hv1 Hsh1 Hvec1 Hm1 _].
    pose proof (proj1 (mem_same_rc x0 (frames (phys s)) _ _ _ Ha) Hm1) as Hm1'.
    assert (mem_but s [] (memory s) (memory s1)) as Hb1 by (intros a ? ? _; by apply Hm1').
    assert (mapping v1 p = Some (mapped_pte n false false true access)) as Hmp.
    { rewrite Hv1 by done. unfold view_set. by rewrite Z.eqb_refl. }
    destruct (mapped_owned _ _ _ _ _ _ Hs1 Hp Hmp) as (_ & Hlt & _).
    eapply (wp_clear v1 s1 p n); [apply Hs1|done|done|apply Hn|done|].
    intros o s2 Hk Hm2 Hz. pose proof Hk as [Hf Hvk].
    assert (sound x0 ((frame_at <$> ns) ++ R) v1 s2) as Hs2.
    { destruct Hs1 as [? Ha1]. split; [done|]. by rewrite Hf. }
    destruct o as [e|].
    + eapply wp_stop; [done|]. intros s3 Hs3 Hv3 Hm3 Hf3. apply (H2 e 1); [lia|].
      split; [done| |done|congruence| |by eapply calm_step; [..|apply falls_calm]].
      * intros q Hq Hout. rewrite Hv1 by done. unfold view_set. destruct (Z.eqb_spec q p); [lia|done].
      * eapply (mem_but_step s s1 s2 n ns _ (memory s1) (memory s2)); [done..|]. rewrite Hm3. by intros a.
    + do 2 wstep. change (into_raw_value (page_at p)) with (p * PAGE_SIZE).
      rewrite usize_add_ok by (pages; lia). replace (p * PAGE_SIZE + PAGE_SIZE) with ((p + 1) * PAGE_SIZE) by lia.
      destruct (page_raw (p + 1)) as [-> _]; [pages; lia|].
      apply IH; [done| |done|lia|lia| |].
      * eapply Forall_impl; [exact Hsi|]. intros m [Hmm Hm]. split; [done|]. rewrite Hf, Hst; rewrite ?Hm; lia.
      * intros v' s' Hfl. replace (k + 1 + Z.of_nat (length ns)) with (k + Z.of_nat (S (length ns))) by lia.
        apply H1. eapply (filled_step R v s p n ns access clear v1 s1 s2); try done. by apply Hz.
      * intros e j v' s' Hj [Hs' Ho' Hsh' Hvec' Hm' Hc']. replace (k + 1 + j) with (k + (j + 1)) by lia. apply H2; [lia|].
        split; [done| |congruence|congruence|by eapply mem_but_step|by eapply calm_step].
        intros q Hq Hout. rewrite Ho', Hv1 by (done || lia). unfold view_set. destruct (Z.eqb_spec q p); [lia|done].
  - intros e v1 s1 [Hs1 Hv1 Hsh1 Hvec1 Hm1 Hc1]. eapply wp_stop; [done|]. intros s3 Hs3 Hv3 Hm3 Hf3.
    replace k with (k + 0) by lia. apply H2; [lia|]. split; [done|by intros; apply Hv1|done|congruence| |by eapply calm_falls].
    rewrite Hm3. intros a ? ? _. by apply (proj1 (mem_same_rc x0 (frames (phys s)) _ _ _ Ha) Hm1).
Qed.

(** ** Undoing *)

Lemma wp_unmap_pages R n v s p (Q : res Error unit → Vmem * MemState P → Prop) : sound x0 R v s ->
  USER_FIRST <= p -> p + Z.of_nat n <= USER_PAST ->
  (forall v' s', sound x0 R v' s' ->
     (forall q, user_page q -> mapping v' q = if bool_decide (p <= q < p + Z.of_nat n) then None else mapping v q) ->
     shell v' = shell v -> vec (phys s') = vec (phys s) -> memory s' = memory s -> falls s s' -> Q (Ok tt) (v', s')) ->
  wp (VirtManager.unmap_pages n (page_at p)) (v, s) Q.
Proof.
  revert v s p. induction n as [|n IH]; intros v s p Hs Hp0 Hp1 HQ; cbn [VirtManager.unmap_pages].
  { wstep. apply HQ; [done| |done..]. intros q Hq. by rewrite bool_decide_eq_false_2 by lia. }
  assert (user_page p) as Hp by (pages; lia). pose proof (proj2 (page_user p) Hp) as Hpu.
  destruct (page_raw p) as [_ Hpo]; [pages; lia|].
  assert (forall v1 s1, sound x0 R v1 s1 -> (forall q, user_page q -> mapping v1 q = view_set (mapping v) p None q) ->
    shell v1 = shell v -> vec (phys s1) = vec (phys s) -> memory s1 = memory s -> falls s s1 -> wp
    (raw ← lift (usize_add (into_raw_value (page_at p)) PAGE_SIZE);
     match from_raw_value raw with
     | Ok next => VirtManager.unmap_pages n next | Err _ => mret tt | Panic => panic end) (v1, s1) Q) as Hnext.
  { intros v1 s1 Hs1 Hv1 Hsh1 Hvec1 Hm1 Hf1. do 2 wstep. change (into_raw_value (page_at p)) with (p * PAGE_SIZE).
    rewrite usize_add_ok by (pages; lia). replace (p * PAGE_SIZE + PAGE_SIZE) with ((p + 1) * PAGE_SIZE) by lia.
    destruct (page_raw (p + 1)) as [-> _]; [pages; lia|]. apply IH; [done|lia|lia|].
    intros v' s' Hs' Hv' Hsh' Hvec' Hm' Hf'. apply HQ; [done| |congruence..|by etrans]. intros q Hq. rewrite Hv', Hv1 by done.
    unfold view_set. case_bool_decide; [by rewrite bool_decide_eq_true_2 by lia|].
    destruct (Z.eqb_spec q p); [by rewrite bool_decide_eq_true_2 by lia|by rewrite bool_decide_eq_false_2 by lia]. }
  wstep. apply wp_attempt. wstep. eapply (wp_try_unmap R); [done| | |by rewrite Hpu]; rewrite Hpo.
  - intros _ Hm. wstep. apply Hnext; [done| |done..]. intros q Hq. unfold view_set. by destruct (Z.eqb_spec q p) as [->|].
  - intros e v' s' _ Hm [Hs1 Hv1 Hsh1 Hvec1 _ _] Hmem Hf1. wstep. by apply Hnext.
Qed.

(** ** The whole request *)

Lemma check_unmapped_spec n v p : vm_ok v -> USER_FIRST <= p -> p + Z.of_nat n <= USER_PAST ->
  match VirtManager.check_unmapped n v (page_at p) with
  | Ok _ => forall q, p <= q < p + Z.of_nat n -> mapping v q = None
  | Err _ => True
  | Panic => False
  end.
Proof.
  intros Hok. revert p. induction n as [|n IH]; intros p Hp0 Hp1; cbn [VirtManager.check_unmapped]; [lia|].
  assert (user_page p) as Hp by (pages; lia). rewrite is_mapped; [|done|by apply page_user].
  destruct (page_raw p) as [_ Hpo]; [pages; lia|]. rewrite Hpo. simpl. case_bool_decide as Hm; [done|].
  unfold checked_add. change (va_raw (pg_inner (page_at p))) with (p * PAGE_SIZE).
  destruct (Z.leb_spec (p * PAGE_SIZE + PAGE_SIZE) usize_max); [|done].
  replace (p * PAGE_SIZE + PAGE_SIZE) with ((p + 1) * PAGE_SIZE) by lia.
  destruct (page_raw (p + 1)) as [E _]; [pages; lia|]. simpl in E. rewrite E. simpl.
  specialize (IH (p + 1) ltac:(lia) ltac:(lia)).
  destruct (VirtManager.check_unmapped n v (page_at (p + 1))); [|done|done]. intros q Hq.
  destruct (decide (q = p)) as [->|]; [|apply IH; lia]. by apply eq_None_not_Some.
Qed.

Lemma outcome_refl R v s : sound x0 R v s -> outcome x0 R R v s (mapping v) v s.
Proof. intros Hs. split; [done..|by apply falls_calm]. Qed.

Lemma numbers_of (A : Z → Prop) fs : Forall (fun f => exists n, f = frame_at n /\ A n) fs ->
  exists ns, fs = frame_at <$> ns /\ Forall A ns.
Proof.
  induction 1 as [|f fs (n & -> & Hn) _ (ns & -> & IH)]; [by exists []|]. exists (n :: ns). split; [done|by constructor].
Qed.

(** The frames of a successful request. *)
Lemma alloc_many_single s p' R fs L : Frame.accounted x0 (frames (phys s)) L ->
  Phys.fresh (frames (phys s)) fs -> Frame.accounted (frames (phys s)) (frames p') fs ->
  Frame.accounted x0 (frames p') (fs ++ L) ->
  exists ns, fs = frame_at <$> ns /\ NoDup ns /\ Forall (single (mkMem p' (memory s))) ns /\
    Forall (KMem.new_frame x0 L) ns /\ (forall n, n ∈ ns -> Frame.rc (frames (phys s)) n = 0) /\
    steady s (mkMem p' (memory s)).
Proof.
  intros Ha [Hnd Hfr] (_ & _ & _ & Hrc) Ha'. destruct (numbers_of _ _ Hfr) as (ns & -> & Hns).
  assert (forall n, n ∈ ns -> 0 <= n /\ Frame.rc (frames (phys s)) n = 0) as Hz by (by apply Forall_forall).
  assert (NoDup ns) as Hnd' by (by apply NoDup_fmap_1 in Hnd). exists ns.
  assert (forall n, n ∈ ns -> 0 <= n <= FrameNumber_MAX) as Hb.
  { intros n Hin. pose proof Ha' as (_ & _ & HL & _). apply (list_elem_of_fmap_2 frame_at) in Hin.
    apply (proj1 (Forall_forall _ _)) with (x := frame_at n) in HL; [|apply elem_of_app; by left].
    destruct HL as (m & ->%frame_at_inj & Hm). by eapply Frame.accounted_bound. }
  pose proof (Frame.inv_rc x0 Hi0) as Hpos. pose proof Ha as (_ & _ & _ & Hrc0).
  splits; [done|done| | |intros n Hin; by apply Hz|].
  - apply Forall_forall. intros n Hin. split; [by apply Hb|]. destruct (Hz n Hin) as [Hn H0]. simpl. rewrite Hrc, H0 by done.
    apply (list_elem_of_fmap_2 frame_at) in Hin. apply elem_of_Permutation in Hin as [K HK]. rewrite HK in Hnd |- *.
    apply NoDup_cons in Hnd as [Hni _]. apply Frame.occ_zero in Hni. rewrite Frame.occ_cons, Z.eqb_refl. lia.
  - apply Forall_forall. intros n Hin. destruct (Hz n Hin) as [Hn H0]. rewrite Hrc0 in H0 by done.
    specialize (Hpos n Hn). pose proof (Frame.occ_nonneg n L). split; [by apply Hb|]. splits; [|lia|apply Frame.occ_zero; lia].
    eapply Phys.accounted_number; [exact Ha'| |done]. apply elem_of_app. left. by apply list_elem_of_fmap_2.
  - intros n Hn H1. simpl. rewrite Hrc by done. assert (Frame.occ n (frame_at <$> ns) = 0); [|lia].
    apply Frame.occ_zero. intros (m & ->%frame_at_inj & Hm)%list_elem_of_fmap. apply Hz in Hm. lia.
Qed.

(** Nothing but the new pages. *)
Lemma mem_but_same s s1 L ns m m' : Frame.accounted x0 (frames (phys s)) L -> steady s s1 ->
  (forall n, n ∈ ns -> Frame.rc (frames (phys s)) n = 0) -> mem_but s1 ns m m' -> mem_same x0 L m m'.
Proof.
  intros Ha Hst Hz Hm. apply (mem_same_rc x0 (frames (phys s)) _ _ _ Ha). intros a H0 Hu.
  apply Hm; [done| |intros Hin; apply Hz in Hin; lia]. rewrite Hst; [done|by apply Z.div_pos|done].
Qed.

Record allocated R v s (p : Z) ns access (clear : bool) v' s' : Prop := {
  al_sound : sound x0 R v' s';
  al_new : NoDup ns /\ Forall (KMem.new_frame x0 (handles v ++ R)) ns;
  al_free q : p <= q < p + Z.of_nat (length ns) -> user_page q /\ mapping v q = None;
  al_view q : user_page q -> mapping v' q = view_map (mapping v) p ns access q;
  al_shell : shell v' = shell v;
  al_mem : mem_same x0 (handles v ++ R) (memory s) (memory s');
  al_steady : steady s s';
  al_single : Forall (single s') ns;
  al_zero : clear = true -> zeroed ns (memory s')
}.

Lemma wp_alloc_upages R v s p access clear n capacity (Q : res Error unit → Vmem * MemState P → Prop) :
  sound x0 R v s -> 0 <= p -> 0 <= n ->
  (forall ns v' s', Z.of_nat (length ns) = n -> allocated R v s p ns access clear v' s' ->
     vec (phys s') = vec (phys s) -> Q (Ok tt) (v', s')) ->
  (forall e v' s', outcome x0 R R v s (mapping v) v' s' -> Q (Err e) (v', s')) ->
  wp (VirtManager.alloc_upages capacity (page_at p) access clear n) (v, s) Q.
Proof.
  intros Hs Hp Hn H1 H2. pose proof (outcome_refl _ _ _ Hs) as Hrefl. pose proof Hs as [[Hok Hus] Ha].
  unfold VirtManager.alloc_upages. wstep. apply wp_on_mem. wstep.
  case_bool_decide as Hv; cbn [negb]; [|wstep; by apply H2].
  destruct (Z.ltb_spec capacity n); [wstep; by apply H2|]. unfold checked_mul.
  destruct (Z.leb_spec (n * PAGE_SIZE) usize_max); [|wstep; by apply H2].
  destruct (is_user_region (pg_inner (page_at p)) (n * PAGE_SIZE)) eqn:Hr; cbn [negb]; [|wstep; by apply H2].
  apply is_user_region_spec in Hr as (Hpos & Hlo & Hhi); [|change PAGE_SIZE with 4096; lia]. simpl in Hlo, Hhi.
  assert (USER_FIRST <= p /\ p + n <= USER_PAST /\ 0 < n) as (Hp0 & Hp1 & Hn0) by (pages; lia).
  wstep. apply wp_on_vmem. do 3 wstep. pose proof (check_unmapped_spec (Z.to_nat n) v p Hok Hp0 ltac:(lia)) as Hc.
  destruct (VirtManager.check_unmapped _ v _) as [[]|e|]; [|by apply H2|done]. rewrite Z2Nat.id in Hc by done.
  wstep. apply wp_on_mem, wp_on_phys. wstep.
  eapply wp_mono; [apply (Phys.alloc_many_user_wp x0 (phys s) capacity n (handles v ++ R)); [done..|lia]|].
  intros r p1 Hr. destruct r as [[]|e|]; [| |done].
  2: { destruct Hr as [-> _]. wstep. eapply wp_mono; [apply (Phys.vec_clear_wp x0 (phys s) (handles v ++ R)); [done|rewrite Hv, app_nil_l; exact Ha]|].
       intros r p2 (-> & Ha2 & Hv2). wstep. apply H2. split; [by split|done|done|simpl; congruence|done|].
       by eapply falls_calm, falls_sub. }
  destruct Hr as (_ & _ & Hlen & Hfr & Hacc & _ & Ha1).
  destruct (alloc_many_single s p1 R (vec p1) _ Ha Hfr Hacc Ha1) as (ns & Hvec & Hnd & Hsi & Hnew & Hz & Hst).
  wstep. apply wp_on_mem, wp_on_phys. unfold Phys.set_vec. do 5 wstep.
  cbn [phys frames tables vec memory]. rewrite Hvec in *. rewrite length_fmap in Hlen.
  set (s1 := mkMem (mkPhysState (frames p1) (tables p1) []) (memory s)).
  assert (steady s s1) as Hst1 by exact Hst.
  wstep. eapply (wp_map_frames ns R v s1); [|exact Hsi|done|done|lia| |].
  - split; [done|]. eapply Phys.accounted_perm; [|exact Ha1]. perm.
  - intros v' s' [Hs' Hv' Hsh' Hvec' Hm' Hst' Hz']. wstep. apply (H1 ns); [done| |by rewrite Hvec'].
    split; [done|done| |done|done| |by eapply steady_step| |done].
    + intros q Hq. split; [pages; lia|]. apply Hc. lia.
    + by eapply mem_but_same.
    + eapply Forall_impl; [exact Hsi|]. intros m [? Hm]. split; [done|]. change (Frame.rc (frames (phys s1)) m = 1) in Hm.
      rewrite Hst'; lia.
  - intros e j v' s' Hj [Hs' Ho' Hsh' Hvec' Hm' Hc']. wstep. replace (0 + j) with j by lia.
    eapply (wp_unmap_pages R); [done|done|lia|]. intros v2 s2 Hs2 Hv2 Hsh2 Hvec2 Hm2 Hf2. wstep. apply H2.
    split; [done| |congruence|by rewrite Hvec2, Hvec'|rewrite Hm2; by eapply mem_but_same|
      by eapply calm_falls; [eapply calm_step|]].
    intros q Hq. rewrite Hv2 by done. rewrite Z2Nat.id by lia. case_bool_decide; [symmetry; apply Hc; lia|by apply Ho'].
Qed.

End PageAlloc.
