(* ===== verification/UserMap.v ===== *)
(** * Mapping memory for processes

    [mmap], [munmap] and [mctrl] of [kernel/src/pm/process/manager/mod.rs], on the
    address space of the process: [mmap] maps every page it is asked for, or none. *)

From S2P Require Import Prelude Error BitAlloc Bitmap Config Addr Paging Frame Phys KMem UserSpace AddrSpace.
From S2P Require Import Perm Mappings VmemSpec Cow VirtManager PageAlloc.
#[local] Open Scope Z_scope.

Definition MMAP_BATCH_SIZE : Z := 16.

(** What the kernel heap has for the vector of a batch: room for all frames, for
    one, or none. *)
Inductive Reserve := ReserveAll | ReserveOne | ReserveNone.

Module UserMap.

Section Definitions.
Context {CF : Config} {P : Type} {IM : IdentityMap P}.
Notation V := (Vmem.V (P:=P)).

(** [rollback_mmap]; [n] bounds the number of pages. *)
Fixpoint rollback_pages (n : nat) (raw last : Z) : V unit :=
  if raw <? last then
    match n with
    | O => panic
    | S n =>
      match from_raw_value raw with
      | Ok addr => VirtManager.attempt (VirtManager.try_unmap_upage addr;; mret tt);; mret tt
      | Err _ => mret tt
      | Panic => panic
      end;;
      raw ← lift (usize_add raw PAGE_SIZE);
      rollback_pages n raw last
    end
  else mret tt.

Definition rollback_mmap (base_vaddr failed_vaddr : PageAddress) : V unit :=
  let raw := into_raw_value base_vaddr in
  let last := into_raw_value failed_vaddr in
  rollback_pages (Z.to_nat ((last - raw) / PAGE_SIZE)) raw last.

(** [while remaining > 0]; [heap i] is what batch [i] gets from the heap. *)
Fixpoint mmap_batches (fuel i : nat) (heap : nat → Reserve) (vaddr current_vaddr : PageAddress)
    (remaining : Z) (access : AccessPermission) : V unit :=
  if 0 <? remaining then
    match fuel with
    | O => panic
    | S fuel =>
      let count := Z.min remaining MMAP_BATCH_SIZE in
      let batch := match heap i with ReserveAll => count | ReserveOne => 1 | ReserveNone => 0 end in
      if batch =? 0 then
        rollback_mmap vaddr current_vaddr;;
        fail (mkError OutOfMemory "kheap: cannot allocate uframes vec for mmap")
      else
        Vmem.on_mem (KMem.on_phys (Phys.set_vec []));;
        catch (VirtManager.alloc_upages batch current_vaddr access true batch)
          (fun e => rollback_mmap vaddr current_vaddr;; fail e);;
        size ← lift (usize_mul batch PAGE_SIZE);
        raw ← lift (usize_add (into_raw_value current_vaddr) size);
        current_vaddr ← lift (from_raw_value raw);
        mmap_batches fuel (S i) heap vaddr current_vaddr (remaining - batch) access
    end
  else mret tt.

Definition mmap (heap : nat → Reserve) (vaddr : PageAddress) (npages : Z) (access : AccessPermission) : V unit :=
  mmap_batches (Z.to_nat npages) 0 heap vaddr vaddr npages access.

Definition munmap (vaddr : PageAddress) : V unit :=
  unmapped ← VirtManager.try_unmap_upage vaddr;
  if unmapped : bool then mret tt else fail (mkError NoSuchEntry "page is not mapped").

Definition mctrl (vaddr : PageAddress) (access : AccessPermission) : V unit :=
  VirtManager.ctrl_upage vaddr access.

End Definitions.

End UserMap.

Section Proofs.
Context {CF : Config} {HC : ConfigOk} {P : Type} {IM : IdentityMap P}.
Variable x0 : Inner Bitmap.
Hypothesis Hi0 : Frame.inv x0.
Implicit Types (v : Vmem) (s : MemState P) (x : PageAddress) (R : list FrameAddress) (ns : list Z).

(** Rolling back is what [alloc_upages] does when it fails. *)
Lemma rollback_pages_eq n p (st : Vmem * MemState P) : 0 <= p -> (p + Z.of_nat n) * PAGE_SIZE <= usize_max ->
  UserMap.rollback_pages n (p * PAGE_SIZE) ((p + Z.of_nat n) * PAGE_SIZE) st = VirtManager.unmap_pages n (page_at p) st.
Proof.
  revert p st. induction n as [|n IH]; intros p st Hp Hb; cbn [UserMap.rollback_pages VirtManager.unmap_pages].
  { by rewrite (proj2 (Z.ltb_ge _ _)) by (pages; lia). }
  rewrite (proj2 (Z.ltb_lt _ _)) by (pages; lia). destruct (page_raw p Hp) as [-> _].
  change (into_raw_value (page_at p)) with (p * PAGE_SIZE). unfold mbind, M_bind, mret, M_ret, lift.
  destruct (VirtManager.attempt _ st) as [[o|e|] st1]; [|done..].
  rewrite usize_add_ok by (pages; lia). replace (p * PAGE_SIZE + PAGE_SIZE) with ((p + 1) * PAGE_SIZE) by lia.
  destruct (page_raw (p + 1)) as [-> _]; [lia|]. replace (p + Z.of_nat (S n)) with (p + 1 + Z.of_nat n) by lia.
  apply IH; lia.
Qed.

Lemma wp_rollback_mmap R n v s p (Q : res Error unit → Vmem * MemState P → Prop) : sound x0 R v s ->
  0 <= n -> USER_FIRST <= p -> p + n <= USER_PAST ->
  (forall v' s', sound x0 R v' s' ->
     (forall q, user_page q -> mapping v' q = if bool_decide (p <= q < p + n) then None else mapping v q) ->
     shell v' = shell v -> vec (phys s') = vec (phys s) -> memory s' = memory s -> falls s s' -> Q (Ok tt) (v', s')) ->
  wp (UserMap.rollback_mmap (page_at p) (page_at (p + n))) (v, s) Q.
Proof.
  intros Hs Hn Hp0 Hp1 HQ. unfold UserMap.rollback_mmap, wp. change (into_raw_value (page_at ?q)) with (q * PAGE_SIZE).
  replace ((p + n) * PAGE_SIZE - p * PAGE_SIZE) with (n * PAGE_SIZE) by lia. rewrite Z.div_mul by done.
  replace n with (Z.of_nat (Z.to_nat n)) at 2 4 by lia. rewrite rollback_pages_eq by (pages; lia).
  apply (wp_unmap_pages x0 Hi0 R); [done|done|lia|]. by rewrite Z2Nat.id.
Qed.

(** ** Batches *)

Lemma view_map_app W p ns ns' access q :
  view_map W p (ns ++ ns') access q =
  view_map (view_map W p ns access) (p + Z.of_nat (length ns)) ns' access q.
Proof.
  unfold view_map. destruct (Z.leb_spec p q) as [Hpq|Hpq]; [|by rewrite (proj2 (Z.leb_gt _ _)) by lia].
  destruct (Z.leb_spec (p + Z.of_nat (length ns)) q) as [Hl|Hl].
  - rewrite lookup_app_r by lia. replace (Z.to_nat (q - p) - length ns)%nat with (Z.to_nat (q - (p + Z.of_nat (length ns)))) by lia.
    destruct (ns' !! _); [done|]. by rewrite lookup_ge_None_2 by lia.
  - by rewrite lookup_app_l by lia.
Qed.

Lemma view_map_ext W W' p ns access q : W q = W' q -> view_map W p ns access q = view_map W' p ns access q.
Proof. unfold view_map. by intros ->. Qed.

Lemma allocated_nil R v s p access clear : sound x0 R v s -> allocated x0 R v s p [] access clear v s.
Proof.
  intros Hs. split; [done|by split; constructor|simpl; intros; lia| |done|done|by intros n|constructor|by intros _ n off ?%elem_of_nil].
  intros q Hq. unfold view_map. by destruct (p <=? q).
Qed.

(** Memory that stays the same while frames in use keep their counts. *)
Lemma mem_same_step L L' s s1 m : Frame.accounted x0 (frames (phys s)) L -> Frame.accounted x0 (frames (phys s1)) L' ->
  steady s s1 -> mem_same x0 L' (memory s1) m -> mem_same x0 L (memory s1) m.
Proof.
  intros Ha Ha' Hst Hm. apply (mem_same_rc x0 (frames (phys s)) _ _ _ Ha). intros a H0 Hu.
  apply (proj1 (mem_same_rc x0 (frames (phys s1)) _ _ _ Ha') Hm); [done|]. rewrite Hst; [done|by apply Z.div_pos|done].
Qed.

Lemma allocated_app R v s p ns1 v1 s1 ns2 access clear v2 s2 : sound x0 R v s ->
  allocated x0 R v s p ns1 access clear v1 s1 ->
  allocated x0 R v1 s1 (p + Z.of_nat (length ns1)) ns2 access clear v2 s2 ->
  allocated x0 R v s p (ns1 ++ ns2) access clear v2 s2.
Proof.
  intros Hs [Hs1 [Hnd1 Hn1] Hf1 Hv1 Hsh1 Hm1 Hst1 Hsi1 Hz1] [Hs2 [Hnd2 Hn2] Hf2 Hv2 Hsh2 Hm2 Hst2 Hsi2 Hz2].
  assert (forall n, n ∈ ns2 -> 0 <= n /\ Frame.rc (frames (phys s1)) n = 0) as Hfree.
  { intros n Hin. destruct (proj1 (Forall_forall _ _) Hn2 n Hin) as (Hb & _ & Hr & Hni%Frame.occ_zero).
    destruct Hs1 as [_ (_ & _ & _ & Hrc)]. split; [lia|]. rewrite Hrc; lia. }
  split; [done| | | |congruence| | | |].
  - split.
    + apply NoDup_app. splits; [done| |done]. intros n Hin1 Hin2. destruct (proj1 (Forall_forall _ _) Hsi1 n Hin1) as [_ H1].
      apply Hfree in Hin2. lia.
    + apply Forall_app. split; [done|]. apply Forall_forall. intros n Hin. pose proof (Hfree n Hin) as [Hn H0].
      destruct (proj1 (Forall_forall _ _) Hn2 n Hin) as (Hb & Hlt & Hr & _). do 3 (split; [done|]).
      apply Frame.occ_zero. destruct Hs as [_ (_ & _ & _ & Hrc)]. pose proof (Frame.occ_nonneg n (handles v ++ R)).
      destruct (decide (1 <= Frame.rc (frames (phys s)) n)) as [Hu|Hu]; [rewrite Hst1 in H0; lia|]. rewrite Hrc in Hu; lia.
  - rewrite length_app. intros q Hq. destruct (decide (q < p + Z.of_nat (length ns1))); [apply Hf1; lia|].
    destruct (Hf2 q ltac:(lia)) as [Hu Hm]. split; [done|]. rewrite Hv1 in Hm by done. unfold view_map in Hm.
    destruct (p <=? q); [|done]. by destruct (ns1 !! _).
  - intros q Hq. rewrite Hv2, view_map_app by done. by apply view_map_ext, Hv1.
  - etrans; [exact Hm1|]. eapply mem_same_step; [apply Hs|apply Hs1|done|done].
  - intros n Hn Hu. rewrite Hst2, Hst1; [done..|]. by rewrite Hst1.
  - apply Forall_app. split; [|done]. eapply Forall_impl; [exact Hsi1|]. intros n [Hb H1]. split; [done|]. rewrite Hst2; lia.
  - intros Hc n off [Hin|Hin]%elem_of_app Ho; [|by apply Hz2]. destruct (proj1 (Forall_forall _ _) Hsi1 n Hin) as [Hb H1].
    rewrite (proj1 (mem_same_rc x0 (frames (phys s1)) _ _ _ (proj2 Hs1)) Hm2); [by apply Hz1|pages; lia|].
    rewrite (in_frame _ n) by (pages; lia). lia.
Qed.

(** Undoing the batches that were mapped. *)
Lemma wp_undo_batches {A} R v s p ns access clear v1 s1 v2 s2 e (Q : res Error A → Vmem * MemState P → Prop) :
  sound x0 R v s -> allocated x0 R v s p ns access clear v1 s1 -> vec (phys s1) = vec (phys s) ->
  outcome x0 R R v1 s1 (mapping v1) v2 s2 ->
  (forall v' s', outcome x0 R R v s (mapping v) v' s' -> Q (Err e) (v', s')) ->
  wp (UserMap.rollback_mmap (page_at p) (page_at (p + Z.of_nat (length ns)));; fail e) (v2, s2) Q.
Proof.
  intros Hs [Hs1 _ Hf1 Hv1 Hsh1 Hm1 Hst1 _ _] Hvec1 [Hs2 Hv2 Hsh2 Hvec2 Hm2 Hc2] HQ. wstep.
  assert (forall v' s', sound x0 R v' s' -> (forall q, user_page q -> mapping v' q =
      if bool_decide (p <= q < p + Z.of_nat (length ns)) then None else mapping v2 q) ->
    shell v' = shell v2 -> vec (phys s') = vec (phys s2) -> memory s' = memory s2 -> falls s2 s' ->
    wp (fail e) (v', s') Q) as Hend.
  { intros v' s' Hs' Hv' Hsh' Hvec' Hm' Hfa. wstep. apply HQ. split; [done| |congruence..| |].
    - intros q Hq. rewrite Hv' by done. case_bool_decide as Hin; [symmetry; by apply Hf1|]. rewrite Hv2, Hv1 by done.
      unfold view_map. destruct (Z.leb_spec p q); [|done]. by rewrite lookup_ge_None_2 by lia.
    - rewrite Hm'. etrans; [exact Hm1|]. eapply mem_same_step; [apply Hs|apply Hs1|done|done].
    - eapply calm_falls; [|exact Hfa]. intros n Hn Hu. rewrite <- (Hst1 n Hn Hu). apply Hc2; [done|]. by rewrite Hst1. }
  destruct ns as [|n ns].
  - replace (p + Z.of_nat (length (A:=Z) [])) with p by (simpl; lia). unfold UserMap.rollback_mmap. rewrite Z.sub_diag.
    change (Z.to_nat (0 / PAGE_SIZE)) with 0%nat. cbn [UserMap.rollback_pages]. rewrite Z.ltb_irrefl. wstep. apply Hend; [done| |done..].
    intros q Hq. by rewrite bool_decide_eq_false_2 by (simpl; lia).
  - destruct (Hf1 p ltac:(simpl; lia)) as [Hp0 _]. destruct (Hf1 (p + Z.of_nat (length ns)) ltac:(simpl; lia)) as [Hp1 _].
    apply (wp_rollback_mmap R (Z.of_nat (length (n :: ns)))); [done|lia|apply Hp0|simpl; pages; lia|done].
Qed.

Lemma wp_mmap_batches R fuel i heap v s p access ns v1 s1 r (Q : res Error unit → Vmem * MemState P → Prop) :
  sound x0 R v s -> vec (phys s) = [] -> 0 <= p -> 0 <= r <= Z.of_nat fuel ->
  allocated x0 R v s p ns access true v1 s1 -> vec (phys s1) = [] ->
  (forall ns' v' s', Z.of_nat (length ns') = Z.of_nat (length ns) + r -> allocated x0 R v s p ns' access true v' s' ->
     vec (phys s') = [] -> Q (Ok tt) (v', s')) ->
  (forall e v' s', outcome x0 R R v s (mapping v) v' s' -> Q (Err e) (v', s')) ->
  wp (UserMap.mmap_batches fuel i heap (page_at p) (page_at (p + Z.of_nat (length ns))) r access) (v1, s1) Q.
Proof.
  intros Hs Hvec Hp. revert i ns v1 s1 r. induction fuel as [|fuel IH]; intros i ns v1 s1 r Hr Hal Hvec1 H1 H2;
    cbn [UserMap.mmap_batches].
  { rewrite (proj2 (Z.ltb_ge _ _)) by lia. wstep. apply (H1 ns); [lia|done|done]. }
  destruct (Z.ltb_spec 0 r) as [Hpos|?]; [|wstep; apply (H1 ns); [lia|done|done]].
  set (batch := match heap i with ReserveAll => _ | _ => _ end).
  assert (0 <= batch <= Z.min r MMAP_BATCH_SIZE) as Hb by (unfold batch, MMAP_BATCH_SIZE; destruct (heap i); lia).
  pose proof (al_sound _ _ _ _ _ _ _ _ _ _ Hal) as Hs1.
  destruct (Z.eqb_spec batch 0) as [_|Hnz].
  { eapply (wp_undo_batches R v s); [done|exact Hal|congruence|by apply outcome_refl|]. intros; by apply H2. }
  wstep. apply wp_on_mem, wp_on_phys. unfold Phys.set_vec. do 2 wstep.
  assert (mkMem (mkPhysState (frames (phys s1)) (tables (phys s1)) []) (memory s1) = s1) as ->.
  { destruct s1 as [[? ? ?] ?]. simpl in Hvec1. by subst. }
  wstep. eapply (wp_alloc_upages x0 Hi0 R); [done|lia|lia| |].
  2: { intros e v2 s2 Hoc. eapply (wp_undo_batches R v s); [done|exact Hal|congruence|done|]. intros; by apply H2. }
  intros ns2 v2 s2 Hlen Hal2 Hvec2. pose proof (al_free _ _ _ _ _ _ _ _ _ _ Hal2 (p + Z.of_nat (length ns) + batch - 1) ltac:(lia)) as [Hu _].
  do 2 wstep. rewrite usize_mul_ok by (pages; unfold MMAP_BATCH_SIZE in *; lia). do 2 wstep.
  change (into_raw_value (page_at ?q)) with (q * PAGE_SIZE). rewrite usize_add_ok by (pages; unfold MMAP_BATCH_SIZE in *; lia).
  rewrite <- Z.mul_add_distr_r. do 2 wstep. destruct (page_raw (p + Z.of_nat (length ns) + batch)) as [-> _]; [lia|].
  assert (Z.of_nat (length (ns ++ ns2)) = Z.of_nat (length ns) + batch) as Happ by (rewrite length_app; lia).
  replace (p + Z.of_nat (length ns) + batch) with (p + Z.of_nat (length (ns ++ ns2))) by lia.
  apply IH; [lia|by eapply allocated_app|congruence| |done].
  intros ns' v' s' Hl. apply H1. lia.
Qed.

(** [mmap] maps all pages, zeroed, or changes nothing. *)
Lemma wp_mmap R heap v s p n access (Q : res Error unit → Vmem * MemState P → Prop) :
  sound x0 R v s -> vec (phys s) = [] -> 0 <= p -> 0 <= n ->
  (forall ns v' s', Z.of_nat (length ns) = n -> allocated x0 R v s p ns access true v' s' ->
     vec (phys s') = [] -> Q (Ok tt) (v', s')) ->
  (forall e v' s', outcome x0 R R v s (mapping v) v' s' -> Q (Err e) (v', s')) ->
  wp (UserMap.mmap heap (page_at p) n access) (v, s) Q.
Proof.
  intros Hs Hvec Hp Hn H1 H2. unfold UserMap.mmap. replace (page_at p) with (page_at (p + Z.of_nat (length (A:=Z) []))) at 2.
  - eapply (wp_mmap_batches R); [done|done|done|lia|by apply allocated_nil|done| |done].
    intros ns v' s' Hl. apply H1. simpl in Hl. lia.
  - f_equal. simpl. lia.
Qed.

End Proofs.
