(* ===== verification/Fork.v ===== *)
(** * Sharing an address space copy-on-write

    [link_user_pages] of [kernel/src/mm/virt/manager.rs], the memory side of
    [duplicate]: every page of the parent is mapped in the child, both become
    read-only where they were writable, or everything is undone. *)

From S2P Require Import Prelude Error BitAlloc Bitmap Config Addr Paging Frame Phys KMem UserSpace AddrSpace.
From S2P Require Import Perm Mappings Enumerate VmemSpec Cow VirtManager PageAlloc.
#[local] Open Scope Z_scope.

(** The entries of a shared page: in the parent, in the child, and in the parent
    when sharing is undone. *)
Definition parent_pte (e : PageTableEntry) : PageTableEntry := if pte_writable e then cow_of e else e.
Definition child_pte (e : PageTableEntry) : PageTableEntry :=
  let n := fn_raw (pte_frame e) in
  if pte_writable e then cow_of (mapped_pte n false false true RDWR)
  else mapped_pte n false false true RDONLY.
Definition undone (e : PageTableEntry) : PageTableEntry :=
  if pte_writable e then private_of (cow_of e) else e.

Lemma parent_handle e : handle (parent_pte e) = handle e.
Proof. unfold parent_pte. by destruct (pte_writable e). Qed.
Lemma child_handle e : handle (child_pte e) = handle e.
Proof. unfold child_pte. by destruct (pte_writable e). Qed.
Lemma undone_handle e : handle (undone e) = handle e.
Proof. unfold undone. by destruct (pte_writable e). Qed.

Lemma child_cow e : PageTableEntry.is_cow (child_pte e) = pte_writable e.
Proof. unfold child_pte. by destruct (pte_writable e). Qed.

(** A page that is writable and not copy-on-write gets its entry back. *)
Lemma undone_same e : (pte_writable e = true -> PageTableEntry.is_cow e = false) -> undone e = e.
Proof.
  unfold undone. destruct e as [[pr [] us wt ca ac di []] f]; simpl; intros H; (done || by specialize (H eq_refl)).
Qed.

Section Fork.
Context {CF : Config} {HC : ConfigOk} {P : Type} {IM : IdentityMap P}.
Variable x0 : Inner Bitmap.
Hypothesis Hi0 : Frame.inv x0.
Implicit Types (v pv cv : Vmem) (s : MemState P) (x : PageAddress) (R : list FrameAddress).

Lemma wp_on_child {A} pv cv s (m : Vmem.V A) (Q : res Error A → Vmem * Vmem * MemState P → Prop) :
  wp m (cv, s) (fun r t => Q r (pv, t.1, t.2)) -> wp (VirtManager.on_child m) (pv, cv, s) Q.
Proof. intros H. unfold VirtManager.on_child. wstep. exact H. Qed.

Lemma wp_on_parent {A} pv cv s (m : M Vmem Error A) (Q : res Error A → Vmem * Vmem * MemState P → Prop) :
  wp m pv (fun r v => Q r (v, cv, s)) -> wp (VirtManager.on_parent m) (pv, cv, s) Q.
Proof. intros H. unfold VirtManager.on_parent. wstep. exact H. Qed.

(** Rewriting an entry keeps the references. *)
Lemma rewrite_handles v p e e' v' : effect v (view_set (mapping v) p (Some e')) (table_frames v) v' ->
  user_page p -> mapping v p = Some e -> handle e' = handle e -> handles v' ≡ₚ handles v.
Proof.
  intros Hef Hp Hm Hh. rewrite (handles_effect _ _ _ _ Hef). destruct (user_frames_set (mapping v) p Hp) as (X & HX & HX').
  unfold handles. rewrite HX, HX', Hm. cbn [ref_of]. by rewrite Hh.
Qed.

(** Frames held elsewhere only get no new reference. *)
Definition aside R pv s s' : Prop := forall n, 0 <= n -> frame_at n ∈ R -> frame_at n ∉ handles pv ->
  Frame.rc (frames (phys s')) n <= Frame.rc (frames (phys s)) n.

Lemma calm_aside R L pv s s' : Frame.accounted x0 (frames (phys s)) L -> R ⊆ L -> calm s s' -> aside R pv s s'.
Proof.
  intros (_ & _ & _ & Hrc) HL Hc n Hn Hin _. apply Hc; [done|]. apply HL, elem_of_Permutation in Hin as [K HK].
  rewrite Hrc, HK, Frame.occ_cons, Z.eqb_refl by done. pose proof (Frame.inv_rc x0 Hi0 n Hn). pose proof (Frame.occ_nonneg n K). lia.
Qed.

(** Parent [pv], child [cv] and memory, on the way from [pv0], [cv0] and [s0]. *)
Record linv R pv0 cv0 s0 pv cv s : Prop := {
  li_parent : vm_inv pv;
  li_child : vm_inv cv;
  li_frames : Frame.accounted x0 (frames (phys s)) (handles pv ++ handles cv ++ R);
  li_handles : handles pv ≡ₚ handles pv0;
  li_pshell : shell pv = shell pv0;
  li_cshell : shell cv = shell cv0;
  li_vec : vec (phys s) = vec (phys s0);
  li_mem : mem_same x0 (handles pv0 ++ R) (memory s0) (memory s);
  li_calm : aside R pv0 s0 s
}.

Lemma linv_child R pv0 cv0 s0 pv cv s : linv R pv0 cv0 s0 pv cv s -> sound x0 (handles pv ++ R) cv s.
Proof. intros H. split; [apply H|]. eapply Phys.accounted_perm; [|apply H]. perm. Qed.

Lemma linv_parent R pv0 cv0 s0 pv cv s : linv R pv0 cv0 s0 pv cv s -> sound x0 (handles cv ++ R) pv s.
Proof. intros H. split; apply H. Qed.

Lemma linv_aside R pv0 cv0 s0 pv cv s s' : linv R pv0 cv0 s0 pv cv s -> aside R pv s s' -> aside R pv0 s0 s'.
Proof.
  intros H Ha n Hn Hin Hni. assert (frame_at n ∉ handles pv) as Hni' by (by rewrite (li_handles _ _ _ _ _ _ _ H)).
  pose proof (li_calm _ _ _ _ _ _ _ H n Hn Hin Hni). specialize (Ha n Hn Hin Hni'). lia.
Qed.

(** The child has changed. *)
Lemma linv_new_child R pv0 cv0 s0 pv cv s cv' s' : linv R pv0 cv0 s0 pv cv s -> sound x0 (handles pv ++ R) cv' s' ->
  shell cv' = shell cv -> vec (phys s') = vec (phys s) -> mem_same x0 (handles pv ++ R) (memory s) (memory s') ->
  aside R pv s s' -> linv R pv0 cv0 s0 pv cv' s'.
Proof.
  intros H [Hinv Ha] Hsh Hvec Hm Hc. split; [apply H|done| |apply H|apply H| | | |by eapply linv_aside].
  - eapply Phys.accounted_perm; [|exact Ha]. perm.
  - rewrite Hsh. apply H.
  - rewrite Hvec. apply H.
  - etrans; [apply H|]. eapply mem_same_perm; [|exact Hm]. by rewrite (li_handles _ _ _ _ _ _ _ H).
Qed.

Lemma linv_elsewhere R pv0 cv0 s0 pv cv s s' : linv R pv0 cv0 s0 pv cv s -> calm s s' -> aside R pv s s'.
Proof. intros H. apply (calm_aside _ _ _ _ _ (li_frames _ _ _ _ _ _ _ H)). set_solver. Qed.

(** An entry of the parent has been rewritten. *)
Lemma linv_new_parent R pv0 cv0 s0 pv cv s p e e' pv' : linv R pv0 cv0 s0 pv cv s ->
  effect pv (view_set (mapping pv) p (Some e')) (table_frames pv) pv' -> user_page p -> mapping pv p = Some e ->
  handle e' = handle e -> linv R pv0 cv0 s0 pv' cv s.
Proof.
  intros H Hef Hp Hm Hh. pose proof (rewrite_handles _ _ _ _ _ Hef Hp Hm Hh) as HP. destruct (li_parent _ _ _ _ _ _ _ H) as [Hok Hu].
  split; [split; [apply Hef|by apply Hef]|apply H| | | |apply H|apply H|apply H|apply H].
  - eapply Phys.accounted_perm; [|apply H]. by rewrite HP.
  - rewrite HP. apply H.
  - rewrite (ef_shell _ _ _ _ Hef). apply H.
Qed.

Lemma linv_new_child_entry R pv0 cv0 s0 pv cv s p e e' cv' : linv R pv0 cv0 s0 pv cv s ->
  effect cv (view_set (mapping cv) p (Some e')) (table_frames cv) cv' -> user_page p -> mapping cv p = Some e ->
  handle e' = handle e -> linv R pv0 cv0 s0 pv cv' s.
Proof.
  intros H Hef Hp Hm Hh. pose proof (rewrite_handles _ _ _ _ _ Hef Hp Hm Hh) as HP. destruct (li_child _ _ _ _ _ _ _ H) as [Hok Hu].
  split; [apply H|split; [apply Hef|by apply Hef]| |apply H|apply H| |apply H|apply H|apply H].
  - eapply Phys.accounted_perm; [|apply H]. by rewrite HP.
  - rewrite (ef_shell _ _ _ _ Hef). apply H.
Qed.

(** ** One page *)

Lemma wp_share R pv0 cv0 s0 pv cv s p e (Q : res Error FrameAddress → MemState P → Prop) :
  linv R pv0 cv0 s0 pv cv s -> user_page p -> mapping pv p = Some e ->
  (forall s', sound x0 (handle e :: handles pv ++ R) cv s' -> vec (phys s') = vec (phys s) -> memory s' = memory s ->
     aside R pv s s' -> Q (Ok (handle e)) s') ->
  (forall err s', linv R pv0 cv0 s0 pv cv s' -> Q (Err err) s') ->
  wp (KMem.on_phys (Phys.UserFrame_share (handle e))) s Q.
Proof.
  intros H Hp Hm H1 H2. destruct (mapped_owned _ _ _ _ _ _ (linv_parent _ _ _ _ _ _ _ H) Hp Hm) as (Hn & _ & Hin).
  apply wp_on_phys. unfold Phys.UserFrame_share, Phys.on_frames. do 2 wstep. apply wp_intro. intros r fr E.
  pose proof (Frame.share_accounted _ _ _ _ _ _ (li_frames _ _ _ _ _ _ _ H) Hin E) as Ha.
  destruct (wp_run _ _ _ _ _ (Frame.share_wp _ _ (proj1 (li_frames _ _ _ _ _ _ _ H)) Hn) E) as [_ Hpost].
  destruct r as [[]|err|]; [| |done].
  - wstep. apply H1; [|done|done|].
    + split; [apply H|]. eapply Phys.accounted_perm; [|exact Ha]. perm.
    + intros k Hk Hink Hnik. simpl. destruct Ha as (_ & _ & _ & Hrc'). destruct (li_frames _ _ _ _ _ _ _ H) as (_ & _ & _ & Hrc).
      rewrite Hrc', Hrc by done. unfold handle. rewrite Frame.occ_cons. destruct (Z.eqb_spec k (fn_raw (pte_frame e))) as [->|]; [|lia].
      exfalso. apply Hnik. unfold handles. apply elem_of_app. left. apply user_frames_elem. by exists p, e.
  - apply H2. destruct Hpost as [-> _]. destruct H. by split.
Qed.

Lemma wp_link_one R pv0 cv0 s0 pv cv s p e (Q : res Error unit → Vmem * Vmem * MemState P → Prop) :
  linv R pv0 cv0 s0 pv cv s -> user_page p -> mapping pv p = Some e -> mapping cv p = None ->
  (forall pv' cv' s', linv R pv0 cv0 s0 pv' cv' s' ->
     (forall q, user_page q -> mapping pv' q = view_set (mapping pv) p (Some (parent_pte e)) q) ->
     (forall q, user_page q -> mapping cv' q = view_set (mapping cv) p (Some (child_pte e)) q) ->
     Q (Ok tt) (pv', cv', s')) ->
  (forall err cv' s', linv R pv0 cv0 s0 pv cv' s' -> (forall q, user_page q -> mapping cv' q = mapping cv q) ->
     Q (Err err) (pv, cv', s')) ->
  wp (VirtManager.link_one_user_page (page_at p) (handle e) (pte_writable e)) (pv, cv, s) Q.
Proof.
  intros H Hp Hm Hcm H1 H2. pose proof (proj2 (page_user p) Hp) as Hpu. destruct (page_raw p) as [_ Hpo]; [pages; lia|].
  unfold VirtManager.link_one_user_page. wstep. apply wp_on_child, wp_on_mem. eapply wp_share; [done..| |].
  2: { intros err s' H'. by apply H2. }
  intros s1 Hs1 Hvec1 Hm1 Has1. wstep. apply wp_on_child. cbn [fst snd].
  destruct (mapped_owned _ _ _ _ _ _ (linv_parent _ _ _ _ _ _ _ H) Hp Hm) as (Hn & _ & _).
  assert (linv R pv0 cv0 s0 pv cv s) as H0 by done.
  assert (forall W cv' s', outcome x0 (handle e :: handles pv ++ R) (handles pv ++ R) cv s1 W cv' s' ->
    linv R pv0 cv0 s0 pv cv' s') as Hlink.
  { intros W cv' s' [Hs Hv Hsh Hvec Hme Hc]. apply (linv_new_child _ _ _ _ _ cv s); [done|exact Hs|done|congruence| |].
    - rewrite <- Hm1. eapply mem_same_sub; [|exact Hme]. by apply submseteq_inserts_l, submseteq_cons.
    - assert (aside R pv s1 s') as Has2 by (eapply calm_aside; [apply Hs1| |exact Hc]; set_solver).
      intros k Hk Hin Hni. specialize (Has1 k Hk Hin Hni). specialize (Has2 k Hk Hin Hni). lia. }
  eapply (wp_map x0 Hi0 (handles pv ++ R)); [exact Hs1|exact Hn| |]; rewrite ?Hpo.
  2: { intros err cv' s' Hoc. apply H2; [by eapply Hlink|apply Hoc]. }
  intros cv1 s2 _ _ Hoc Hst. pose proof (Hlink _ _ _ Hoc) as HL1. cbn [fst snd].
  pose proof (oc_view _ _ _ _ _ _ _ _ Hoc) as Hv1. unfold parent_pte, child_pte in H1.
  destruct (pte_writable e) eqn:Hwr.
  2: { wstep. apply H1; [done| |exact Hv1]. intros q Hq. unfold view_set. by destruct (Z.eqb_spec q p) as [->|]. }
  assert (mapping cv1 p = Some (mapped_pte (fn_raw (pte_frame e)) false false true RDWR)) as Hcm1.
  { rewrite Hv1 by done. unfold view_set. by rewrite Z.eqb_refl. }
  wstep. wstep. apply wp_on_parent, wp_mark; [apply H|done| |]; rewrite ?Hpo, ?Hm.
  2: { simpl. intros err v' Hno. congruence. }
  intros e0 pv' [= <-] _ Hef. pose proof (linv_new_parent _ _ _ _ _ _ _ _ _ _ _ HL1 Hef Hp Hm eq_refl) as HL2.
  wstep. apply wp_on_child, wp_on_vmem, wp_mark; [apply HL1|done| |]; rewrite ?Hpo, ?Hcm1; [|done].
  intros e1 cv' [= <-] _ Hef'. apply H1.
  - by eapply linv_new_child_entry; [exact HL2|exact Hef'|..].
  - apply Hef.
  - intros q Hq. rewrite (ef_view _ _ _ _ Hef') by done. unfold view_set. destruct (Z.eqb_spec q p); [done|].
    rewrite Hv1 by done. unfold view_set. by destruct (Z.eqb_spec q p).
Qed.

(** ** Undoing one page *)

Lemma wp_unlink_one R pv0 cv0 s0 pv cv s p e (Q : res Error unit → Vmem * Vmem * MemState P → Prop) k :
  linv R pv0 cv0 s0 pv cv s -> user_page p -> mapping pv p = Some (parent_pte e) -> mapping cv p = Some (child_pte e) ->
  (forall pv' cv' s', linv R pv0 cv0 s0 pv' cv' s' ->
     (forall q, user_page q -> mapping pv' q = view_set (mapping pv) p (Some (undone e)) q) ->
     (forall q, user_page q -> mapping cv' q = view_set (mapping cv) p None q) -> wp k (pv', cv', s') Q) ->
  wp ((if PageTableEntry.is_cow (child_pte e)
       then VirtManager.attempt (VirtManager.on_parent (Vmem.unmark_user_page_cow (page_at p)));; mret tt else mret tt);;
      VirtManager.attempt (VirtManager.on_child (VirtManager.try_unmap_upage (page_at p);; mret tt));; k) (pv, cv, s) Q.
Proof.
  intros H Hp Hm Hcm HQ. pose proof (proj2 (page_user p) Hp) as Hpu. destruct (page_raw p) as [_ Hpo]; [pages; lia|].
  assert (forall pv1, linv R pv0 cv0 s0 pv1 cv s ->
    (forall q, user_page q -> mapping pv1 q = view_set (mapping pv) p (Some (undone e)) q) ->
    wp (VirtManager.attempt (VirtManager.on_child (VirtManager.try_unmap_upage (page_at p);; mret tt));; k) (pv1, cv, s) Q) as Hnext.
  { intros pv1 H1 Hv1. wstep. apply wp_attempt, wp_on_child. wstep.
    eapply (wp_try_unmap x0 Hi0 (handles pv1 ++ R)); [by eapply linv_child|by rewrite Hpo, Hcm| |by rewrite Hpu].
    rewrite Hpo. intros c cv' s' _ _ Hoc _ Hfa. wstep. cbn [fst snd]. apply HQ; [|done|apply Hoc].
    eapply (linv_new_child _ _ _ _ _ cv s); [exact H1|apply Hoc..| |].
    { eapply mem_same_sub; [|apply Hoc]. by apply submseteq_inserts_l. }
    eapply linv_elsewhere; [exact H1|apply Hoc]. }
  wstep. rewrite child_cow. unfold parent_pte, undone in *. destruct (pte_writable e) eqn:Hwr.
  - wstep. apply wp_attempt, wp_on_parent, wp_unmark; [apply H|done| |]; rewrite ?Hpo, ?Hm; [|done].
    intros e0 pv' [= <-] _ Hef. wstep. apply Hnext; [by eapply linv_new_parent|]. apply Hef.
  - wstep. apply Hnext; [done|]. intros q Hq. unfold view_set. by destruct (Z.eqb_spec q p) as [->|].
Qed.

(** ** Counting pages *)

Lemma filter_ext_in {A} (F G : A → Prop) `{!forall y, Decision (F y), !forall y, Decision (G y)} (l : list A) :
  (forall y, y ∈ l -> F y <-> G y) -> filter F l = filter G l.
Proof.
  induction l as [|y l IH]; intros Hfg; [done|]. rewrite !filter_cons, IH by (intros; apply Hfg; by right).
  destruct (Hfg y) as [? ?]; [left|]. case_decide; case_decide; tauto.
Qed.

Definition count (f : option PageTableEntry → bool) (W : view) : nat :=
  length (filter (fun q => f (W q) = true) user_pages).

Lemma count_ext f W W' : (forall q, user_page q -> W q = W' q) -> count f W = count f W'.
Proof.
  intros H. unfold count. f_equal. apply filter_ext_in. intros q Hq%elem_of_user_pages. by rewrite H.
Qed.

Lemma count_set f W p o : user_page p -> f (W p) = true -> f o = false -> count f W = S (count f (view_set W p o)).
Proof.
  intros Hp%elem_of_user_pages Ht Hf. unfold count. apply elem_of_Permutation in Hp as [k Hk].
  assert (p ∉ k) as Hni.
  { assert (NoDup (p :: k)) as Hnd by (rewrite <- Hk; apply NoDup_user_pages). by apply NoDup_cons in Hnd as [? _]. }
  rewrite !Hk, !filter_cons, decide_True by done. rewrite decide_False by (unfold view_set; rewrite Z.eqb_refl; congruence).
  simpl. do 2 f_equal. apply filter_ext_in. intros q Hq. unfold view_set. destruct (Z.eqb_spec q p) as [->|]; done.
Qed.

Lemma count_bound f W : Z.of_nat (count f W) <= 720896.
Proof.
  unfold count. rewrite <- length_user_pages. apply inj_le, length_filter.
Qed.

(** ** Selecting pages *)

Definition link_of (pe : Z * PageTableEntry) : VirtManager.Link := (page_at pe.1, handle pe.2, pte_writable pe.2).
Definition linked_of (pe : Z * PageTableEntry) : PageAddress * bool := (page_at pe.1, PageTableEntry.is_cow pe.2).

(** The chunk size, as a length. *)
Definition CHUNK : nat := Z.to_nat LINK_CHUNK.

Lemma each_ok {S} p e l (f : PageAddress → PageTableEntry → M S Error unit) t t' :
  f (page_at p) e t = (Ok tt, t') -> each ((p, e) :: l) f t = each l f t'.
Proof. intros E. cbn [each]. unfold mbind, M_bind. by rewrite E. Qed.

Lemma select_linked_all l buf : (length buf <= CHUNK)%nat ->
  each l VirtManager.select_linked buf = (Ok tt, buf ++ (linked_of <$> take (CHUNK - length buf) l)).
Proof.
  revert buf. induction l as [|[p e] l IH]; intros buf Hb; [by rewrite take_nil, app_nil_r|].
  assert (VirtManager.select_linked (page_at p) e buf = (Ok tt,
    if Z.of_nat (length buf) <? LINK_CHUNK then buf ++ [linked_of (p, e)] else buf)) as E.
  { unfold VirtManager.select_linked. unfold mbind, M_bind, get. by destruct (_ <? _). }
  rewrite (each_ok _ _ _ _ _ _ E).
  destruct (Z.ltb_spec (Z.of_nat (length buf)) LINK_CHUNK) as [Hlt|Hge]; unfold CHUNK, LINK_CHUNK in *.
  - rewrite IH by (rewrite length_app; simpl; lia). rewrite length_app. simpl (length [_]).
    replace (Z.to_nat 32 - length buf)%nat with (S (Z.to_nat 32 - (length buf + 1)))%nat by lia.
    cbn [take]. rewrite fmap_cons, <- app_assoc. done.
  - rewrite IH by lia. replace (Z.to_nat 32 - length buf)%nat with 0%nat by lia. by rewrite !take_0.
Qed.

Lemma select_page_all cv l buf : vm_ok cv -> Forall (fun pe => user_page pe.1 /\ numbered (pte_frame pe.2)) l ->
  (length buf <= CHUNK)%nat ->
  each l (VirtManager.select_page cv) buf =
  (Ok tt, buf ++ (link_of <$> take (CHUNK - length buf) (filter (fun pe => mapping cv pe.1 = None) l))).
Proof.
  intros Hok Hl. revert buf. induction Hl as [|[p e] l [Hp Hn] Hl IH]; intros buf Hb;
    [by rewrite filter_nil, take_nil, app_nil_r|].
  cbn [fst snd] in Hp, Hn. destruct (user_addr_page _ (proj2 (page_user p) Hp)) as [Hw _].
  destruct (page_raw p) as [_ Hpo]; [pages; lia|].
  assert (VirtManager.select_page cv (page_at p) e buf = (Ok tt, if Z.of_nat (length buf) <? LINK_CHUNK then
    match mapping cv p with None => buf ++ [link_of (p, e)] | Some _ => buf end else buf)) as E.
  { unfold VirtManager.select_page. unfold mbind, M_bind, get, lift. rewrite try_find_pte, Hpo by done.
    destruct (_ <? _); [|done]. destruct (mapping cv p); [done|]. by rewrite from_numbered. }
  rewrite (each_ok _ _ _ _ _ _ E).
  rewrite filter_cons. cbn [fst snd].
  destruct (Z.ltb_spec (Z.of_nat (length buf)) LINK_CHUNK) as [Hlt|Hge]; unfold CHUNK, LINK_CHUNK in *.
  - destruct (mapping cv p) as [c|]; [rewrite decide_False by done; by apply IH|]. rewrite decide_True by done.
    rewrite IH by (rewrite length_app; simpl; lia). rewrite length_app. simpl (length [_]).
    replace (Z.to_nat 32 - length buf)%nat with (S (Z.to_nat 32 - (length buf + 1)))%nat by lia.
    cbn [take]. rewrite fmap_cons, <- app_assoc. done.
  - rewrite IH by lia. replace (Z.to_nat 32 - length buf)%nat with 0%nat by lia. by rewrite !take_0.
Qed.

(** ** Undoing everything *)

(** The parent has its page back. *)
Definition back (o o' : option PageTableEntry) : Prop := o' = o \/ o' = undone <$> o.

(** A page that is shared, or is not. *)
Definition shared (o0 o oc : option PageTableEntry) : Prop :=
  exists e, o0 = Some e /\ o = Some (parent_pte e) /\ oc = Some (child_pte e).

Definition unlinking pv0 pv cv : Prop := forall q, user_page q ->
  shared (mapping pv0 q) (mapping pv q) (mapping cv q) \/ mapping cv q = None /\ back (mapping pv0 q) (mapping pv q).

Definition is_some (o : option PageTableEntry) : bool := if o then true else false.

Lemma wp_unlink_pages R pv0 cv0 s0 l pv cv s (Q : res Error unit → Vmem * Vmem * MemState P → Prop) :
  linv R pv0 cv0 s0 pv cv s -> unlinking pv0 pv cv -> NoDup l.*1 ->
  Forall (fun pe => user_page pe.1 /\ mapping cv pe.1 = Some pe.2) l ->
  (forall pv' cv' s', linv R pv0 cv0 s0 pv' cv' s' -> unlinking pv0 pv' cv' ->
     (forall q, user_page q -> q ∈ l.*1 -> mapping cv' q = None) ->
     (forall q, user_page q -> q ∉ l.*1 -> mapping cv' q = mapping cv q) ->
     count is_some (mapping cv) = (length l + count is_some (mapping cv'))%nat -> Q (Ok tt) (pv', cv', s')) ->
  wp (VirtManager.unlink_pages (linked_of <$> l)) (pv, cv, s) Q.
Proof.
  revert pv cv s Q. induction l as [|[p c] l IH]; intros pv cv s Q H Hu Hnd Hl HQ.
  { cbn [fmap list_fmap VirtManager.unlink_pages]. wstep. apply HQ; [done|done|by intros q _ ?%elem_of_nil|done|done]. }
  rewrite fmap_cons in *. cbn [VirtManager.unlink_pages linked_of fst snd] in *.
  apply NoDup_cons in Hnd as [Hni Hnd]. apply Forall_cons in Hl as [[Hp Hc] Hl]. cbn [fst snd] in *.
  destruct (Hu p Hp) as [(e & He0 & He & Hce)|[Hn _]]; [|congruence]. rewrite Hc in Hce. injection Hce as ->.
  eapply wp_unlink_one; [done..|]. intros pv1 cv1 s1 H1 Hv1 Hcv1.
  assert (count is_some (mapping cv) = S (count is_some (mapping cv1))) as Hcnt.
  { rewrite (count_ext _ (mapping cv1) _ Hcv1). apply count_set; [done| |done]. by rewrite Hc. }
  apply IH; [done| |done| |].
  - intros q Hq. rewrite Hv1, Hcv1 by done. unfold view_set. destruct (Z.eqb_spec q p) as [->|]; [|by apply Hu].
    right. split; [done|]. right. by rewrite He0.
  - apply Forall_forall. intros [q d] Hin. pose proof (proj1 (Forall_forall _ _) Hl _ Hin) as [Hq Hd]. cbn [fst snd] in *.
    split; [done|]. rewrite Hcv1 by done. unfold view_set. destruct (Z.eqb_spec q p) as [->|]; [|done].
    exfalso. apply Hni. exact (list_elem_of_fmap_2 fst _ _ Hin).
  - intros pv' cv' s' H' Hu' Hin' Hout' Hcnt'. apply HQ; [done|done| | |].
    + intros q Hq [->|Hin]%elem_of_cons; [|by apply Hin']. rewrite Hout' by done. rewrite Hcv1 by done.
      unfold view_set. by rewrite Z.eqb_refl.
    + intros q Hq [Hne Hout]%not_elem_of_cons. rewrite Hout', Hcv1 by done. unfold view_set.
      by destruct (Z.eqb_spec q p).
    + rewrite Hcnt, Hcnt'. done.
Qed.

Lemma enum_mapped v : vm_ok v -> Forall (fun pe => user_page pe.1 /\ mapping v pe.1 = Some pe.2) (enum v).
Proof. intros Hok. apply Forall_forall. intros [p e] Hin. by apply enum_elem. Qed.

Lemma NoDup_take_keys {A B} (l : list (A * B)) n : NoDup l.*1 -> NoDup (take n l).*1.
Proof. intros H. rewrite <- (take_drop n l), fmap_app in H. by apply NoDup_app in H as [? _]. Qed.

Lemma wp_rollback fuel R pv0 cv0 s0 pv cv s (Q : res Error unit → Vmem * Vmem * MemState P → Prop) :
  linv R pv0 cv0 s0 pv cv s -> unlinking pv0 pv cv -> (count is_some (mapping cv) < fuel * CHUNK)%nat ->
  (forall pv' cv' s', linv R pv0 cv0 s0 pv' cv' s' -> unlinking pv0 pv' cv' ->
     (forall q, user_page q -> mapping cv' q = None) -> Q (Ok tt) (pv', cv', s')) ->
  wp (VirtManager.rollback_linked_pages fuel) (pv, cv, s) Q.
Proof.
  revert pv cv s. induction fuel as [|fuel IH]; intros pv cv s H Hu Hf HQ; [simpl in Hf; lia|].
  cbn [VirtManager.rollback_linked_pages]. do 2 wstep. cbn [fst snd]. pose proof (li_child _ _ _ _ _ _ _ H) as [Hok _].
  rewrite for_each_eq, select_linked_all by (done || simpl; lia). cbn [app length]. rewrite Nat.sub_0_r, length_fmap.
  destruct (Nat.eqb_spec (length (take CHUNK (enum cv))) 0) as [Hz|Hnz].
  { wstep. apply HQ; [done|done|]. intros q Hq. destruct (mapping cv q) as [c|] eqn:Hc; [|done]. exfalso.
    assert ((q, c) ∈ enum cv) as Hin by (by apply enum_elem). rewrite length_take in Hz.
    destruct (enum cv); [by apply elem_of_nil in Hin|]. simpl in Hz. change CHUNK with 32%nat in Hz. lia. }
  wstep. apply (wp_unlink_pages R pv0 cv0 s0); [done|done|by apply NoDup_take_keys, enum_nodup|by apply Forall_take, enum_mapped|].
  intros pv' cv' s' H' Hu' Hin' Hout' Hcnt.
  destruct (Z.ltb_spec (Z.of_nat (length (take CHUNK (enum cv)))) LINK_CHUNK) as [Hlt|Hge].
  - wstep. apply HQ; [done|done|]. intros q Hq. rewrite take_ge in Hin', Hout' by
      (rewrite length_take in Hlt; unfold LINK_CHUNK in Hlt; change CHUNK with 32%nat in *; lia).
    destruct (decide (q ∈ (enum cv).*1)) as [Hin|Hout]; [by apply Hin'|]. rewrite Hout' by done.
    destruct (mapping cv q) as [c|] eqn:Hc; [|done]. exfalso. apply Hout.
    assert ((q, c) ∈ enum cv) as Hin by (by apply enum_elem). exact (list_elem_of_fmap_2 fst _ _ Hin).
  - apply IH; [done|done| |done]. unfold LINK_CHUNK in Hge. change CHUNK with 32%nat in *. simpl in Hf. lia.
Qed.

(** ** Sharing everything *)

Definition linking pv0 pv cv : Prop := forall q, user_page q ->
  shared (mapping pv0 q) (mapping pv q) (mapping cv q) \/ mapping cv q = None /\ mapping pv q = mapping pv0 q.

Lemma linking_unlinking pv0 pv cv : linking pv0 pv cv -> unlinking pv0 pv cv.
Proof. intros H q Hq. destruct (H q Hq) as [?|[? ?]]; [by left|right]. split; [done|]. by left. Qed.

Definition is_none (o : option PageTableEntry) : bool := if o then false else true.

(** What a failed request leaves. *)
Definition gave_up R pv0 cv0 s0 pv cv s : Prop :=
  linv R pv0 cv0 s0 pv cv s /\ forall q, user_page q -> mapping cv q = None /\ back (mapping pv0 q) (mapping pv q).

Lemma wp_link_pages R pv0 cv0 s0 fuel l pv cv s (Q : res Error unit → Vmem * Vmem * MemState P → Prop) :
  linv R pv0 cv0 s0 pv cv s -> linking pv0 pv cv -> NoDup l.*1 -> 720896 < Z.of_nat (fuel * CHUNK) ->
  Forall (fun pe => user_page pe.1 /\ mapping pv pe.1 = Some pe.2 /\ mapping cv pe.1 = None) l ->
  (forall pv' cv' s', linv R pv0 cv0 s0 pv' cv' s' -> linking pv0 pv' cv' ->
     (forall q, user_page q -> mapping cv' q = None <-> mapping cv q = None /\ q ∉ l.*1) ->
     count is_none (mapping cv) = (length l + count is_none (mapping cv'))%nat -> Q (Ok tt) (pv', cv', s')) ->
  (forall e pv' cv' s', gave_up R pv0 cv0 s0 pv' cv' s' -> Q (Err e) (pv', cv', s')) ->
  wp (VirtManager.link_pages fuel (link_of <$> l)) (pv, cv, s) Q.
Proof.
  revert pv cv s Q. induction l as [|[p e] l IH]; intros pv cv s Q H Hk Hnd Hfu Hl H1 H2.
  { cbn [fmap list_fmap VirtManager.link_pages]. wstep. apply H1; [done|done| |done].
    intros q _. split; [|by intros [? _]]. intros Hn. split; [done|by intros ?%elem_of_nil]. }
  rewrite fmap_cons in *. cbn [VirtManager.link_pages link_of fst snd] in *.
  apply NoDup_cons in Hnd as [Hni Hnd]. apply Forall_cons in Hl as [(Hp & Hm & Hc) Hl]. cbn [fst snd] in *.
  do 2 wstep. eapply wp_link_one; [done..| |].
  2: { intros err cv' s' H' Hv'. wstep. eapply wp_rollback; [done| | |].
       - apply linking_unlinking. intros q Hq. rewrite Hv' by done. by apply Hk.
       - apply Nat2Z.inj_lt. eapply Z.le_lt_trans; [apply count_bound|done].
       - intros pv2 cv2 s2 H2' Hu2 Hn2. wstep. apply H2. split; [done|]. intros q Hq.
         destruct (Hu2 q Hq) as [(? & _ & _ & E)|]; [|done]. rewrite Hn2 in E by done. done. }
  intros pv1 cv1 s1 H' Hv1 Hcv1.
  assert (count is_none (mapping cv) = S (count is_none (mapping cv1))) as Hcnt.
  { rewrite (count_ext _ (mapping cv1) _ Hcv1). apply count_set; [done| |done]. by rewrite Hc. }
  assert (mapping pv0 p = Some e) as He0.
  { destruct (Hk p Hp) as [(? & _ & _ & E)|[_ E]]; [congruence|]. by rewrite <- E. }
  apply IH; [done| |done|done| | |done].
  - intros q Hq. rewrite Hv1, Hcv1 by done. unfold view_set. destruct (Z.eqb_spec q p) as [->|]; [|by apply Hk].
    left. by exists e.
  - apply Forall_forall. intros [q d] Hin. pose proof (proj1 (Forall_forall _ _) Hl _ Hin) as (Hq & Hd & Hcd). cbn [fst snd] in *.
    split; [done|]. rewrite Hv1, Hcv1 by done. unfold view_set. destruct (Z.eqb_spec q p) as [->|]; [|done].
    exfalso. apply Hni. exact (list_elem_of_fmap_2 fst _ _ Hin).
  - intros pv' cv' s' H3 Hk3 Hn3 Hcnt3. apply H1; [done|done| |by rewrite Hcnt, Hcnt3].
    intros q Hq. rewrite Hn3, Hcv1 by done. unfold view_set. split.
    + destruct (Z.eqb_spec q p) as [->|Hne]; [by intros [? _]|]. intros [Hn Hq']. split; [done|]. by apply not_elem_of_cons.
    + intros [Hn [Hne Hq']%not_elem_of_cons]. by destruct (Z.eqb_spec q p).
Qed.

(** The pages of a chunk. *)
Lemma chunk_pages v cv l : vm_ok v -> l = take CHUNK (filter (fun pe => mapping cv pe.1 = None) (enum v)) ->
  NoDup l.*1 /\ Forall (fun pe => user_page pe.1 /\ mapping v pe.1 = Some pe.2 /\ mapping cv pe.1 = None) l /\
  ((length l < CHUNK)%nat -> forall p e, user_page p -> mapping v p = Some e -> mapping cv p = None -> p ∈ l.*1).
Proof.
  intros Hok ->. splits.
  - apply NoDup_take_keys. pose proof (enum_nodup v Hok) as Hnd. clear Hok.
    induction (enum v) as [|[p e] l IH]; [constructor|]. rewrite fmap_cons in Hnd. apply NoDup_cons in Hnd as [Hni Hnd].
    rewrite filter_cons. case_decide; [|by apply IH]. rewrite fmap_cons. constructor; [|by apply IH].
    intros ([q d] & Hq & [_ Hin]%list_elem_of_filter)%list_elem_of_fmap. simpl in Hq. subst. apply Hni.
    exact (list_elem_of_fmap_2 fst _ _ Hin).
  - apply Forall_take, Forall_forall. intros [p e] [Hc Hin]%list_elem_of_filter. apply enum_elem in Hin as [? ?]; done.
  - intros Hlt p e Hp Hm Hc. rewrite take_ge by (rewrite length_take in Hlt; lia).
    apply (list_elem_of_fmap_2' fst _ (p, e)); [|done]. apply list_elem_of_filter. split; [done|]. by apply enum_elem.
Qed.

Lemma wp_link_chunks R pv0 cv0 s0 fuel rfuel pv cv s (Q : res Error unit → Vmem * Vmem * MemState P → Prop) :
  linv R pv0 cv0 s0 pv cv s -> linking pv0 pv cv -> 720896 < Z.of_nat (rfuel * CHUNK) ->
  (count is_none (mapping cv) < fuel * CHUNK)%nat ->
  (forall pv' cv' s', linv R pv0 cv0 s0 pv' cv' s' ->
     (forall q, user_page q -> mapping pv' q = parent_pte <$> mapping pv0 q /\
        mapping cv' q = child_pte <$> mapping pv0 q) -> Q (Ok tt) (pv', cv', s')) ->
  (forall e pv' cv' s', gave_up R pv0 cv0 s0 pv' cv' s' -> Q (Err e) (pv', cv', s')) ->
  wp (VirtManager.link_chunks fuel rfuel) (pv, cv, s) Q.
Proof.
  intros H Hk Hrf. revert pv cv s H Hk. induction fuel as [|fuel IH]; intros pv cv s H Hk Hf H1 H2; [simpl in Hf; lia|].
  cbn [VirtManager.link_chunks]. do 2 wstep. cbn [fst snd]. pose proof (li_child _ _ _ _ _ _ _ H) as [Hokc _].
  pose proof (li_parent _ _ _ _ _ _ _ H) as [Hok _]. rewrite for_each_eq by done.
  rewrite select_page_all; [|done| |simpl; lia].
  2: { eapply Forall_impl; [by apply enum_mapped|]. intros [p e] [Hp Hm]. split; [done|]. by eapply mapping_numbered. }
  cbn [app length]. rewrite Nat.sub_0_r, length_fmap. set (l := take CHUNK _).
  destruct (chunk_pages pv cv l Hok eq_refl) as (Hnd & Hall & Hrest).
  assert (forall pv' cv' s', linv R pv0 cv0 s0 pv' cv' s' -> linking pv0 pv' cv' -> (length l < CHUNK)%nat ->
    (forall q, user_page q -> mapping cv' q = None <-> mapping cv q = None /\ q ∉ l.*1) -> Q (Ok tt) (pv', cv', s')) as Hdone.
  { intros pv' cv' s' H' Hk' Hlt Hn. apply H1; [done|]. intros q Hq.
    destruct (Hk' q Hq) as [(e & -> & -> & ->)|[Hnone ->]]; [done|]. rewrite Hnone. pose proof (proj1 (Hn q Hq) Hnone) as [Hc Hni].
    destruct (mapping pv0 q) as [e|] eqn:He; [|done]. exfalso. apply Hni, (Hrest Hlt q e); [done| |done].
    destruct (Hk q Hq) as [(? & _ & _ & E)|[_ ->]]; [congruence|done]. }
  destruct (Nat.eqb_spec (length l) 0) as [Hz|Hnz].
  { wstep. apply Hdone; [done|done|change CHUNK with 32%nat; lia|]. intros q Hq.
    destruct l; [|done]. split; [|by intros [? _]]. intros ?. split; [done|by intros ?%elem_of_nil]. }
  wstep. apply (wp_link_pages R pv0 cv0 s0); [done..| |done]. intros pv' cv' s' H' Hk' Hn Hcnt.
  destruct (Z.ltb_spec (Z.of_nat (length l)) LINK_CHUNK) as [Hlt|Hge]; unfold LINK_CHUNK in *.
  - wstep. apply Hdone; [done|done|change CHUNK with 32%nat; lia|done].
  - apply IH; [done|done| |done|done]. change CHUNK with 32%nat in *. simpl in Hf. lia.
Qed.

Lemma link_fuel : 720896 < Z.of_nat (VirtManager.LINK_FUEL * CHUNK).
Proof. unfold VirtManager.LINK_FUEL, CHUNK. rewrite Nat2Z.inj_mul, !Z2Nat.id by done. done. Qed.

(** Either every page is shared, or the child is empty again and the parent has its
    pages back. *)
Lemma wp_link_user_pages R pv cv s (Q : res Error unit → Vmem * Vmem * MemState P → Prop) :
  vm_inv pv -> vm_inv cv -> (forall q, user_page q -> mapping cv q = None) ->
  Frame.accounted x0 (frames (phys s)) (handles pv ++ handles cv ++ R) ->
  (forall pv' cv' s', linv R pv cv s pv' cv' s' ->
     (forall q, user_page q -> mapping pv' q = parent_pte <$> mapping pv q /\
        mapping cv' q = child_pte <$> mapping pv q) -> Q (Ok tt) (pv', cv', s')) ->
  (forall e pv' cv' s', gave_up R pv cv s pv' cv' s' -> Q (Err e) (pv', cv', s')) ->
  wp VirtManager.link_user_pages (pv, cv, s) Q.
Proof.
  intros Hp Hc Hn Ha H1 H2. unfold VirtManager.link_user_pages.
  apply (wp_link_chunks R pv cv s); [|by right; rewrite Hn|apply link_fuel| |done|done].
  - split; [done..|by intros n].
  - apply Nat2Z.inj_lt. eapply Z.le_lt_trans; [apply count_bound|apply link_fuel].
Qed.

End Fork.
