(* ===== verification/Spaces.v ===== *)
(** * The address spaces of all processes

    The operations of the process manager that touch user memory, on all address
    spaces at once: creating a process, [duplicate], [mmap], [munmap], [mctrl], page
    faults and the end of a process, with the stores of the processes between them
    ([kernel/src/pm/process/manager/mod.rs] and the exception handler of
    [kernel/src/event/manager.rs]).

    [abs_step] says what each of them means for a process: memory is a map from
    pages to bytes, and a duplicate starts with a copy of its parent's.  The kernel
    shares frames copy-on-write instead; [MemorySafety.v] shows that no process can
    tell. *)

From stdpp Require Import gmap.
From S2P Require Import Prelude Error BitAlloc Bitmap Config Addr Paging Frame Phys KMem UserSpace AddrSpace.
From S2P Require Import Perm Mappings VmemSpec Cow NewVmem VirtManager PageAlloc UserMap Fork.
#[local] Open Scope Z_scope.

(** The address spaces, by process, and memory. *)
Record Machine (P : Type) := mkMachine {
  spaces : gmap Z Vmem;
  mem : MemState P
}.
Arguments mkMachine {P} _ _.
Arguments spaces {P} _.
Arguments mem {P} _.

(** ** Operations *)

(** What processes and the process manager do. *)
Inductive Event :=
| Create (parent child : Z)
| Duplicate (parent child : Z)
| Mmap (pid : Z) (heap : nat → Reserve) (page npages : Z) (access : AccessPermission)
| Munmap (pid page : Z)
| Mctrl (pid page : Z) (access : AccessPermission)
| PageFault (pid : Z) (heap : nat → Reserve) (fault_addr : Z) (error_code : FaultCode)
| Store (pid page offset value : Z)
| Exit (pid : Z).

Section Events.
Context {CF : Config} {P : Type} {IM : IdentityMap P} {KD : KernelDirectory P}.

Definition no_process : Error := mkError NoSuchProcess "process not found".

(** Code that runs on the address space of process [pid]. *)
Definition on_space {A} (pid : Z) (m : Vmem.V (P:=P) A) : M (Machine P) Error A := fun st =>
  match spaces st !! pid with
  | None => (Err no_process, st)
  | Some v => let '(r, (v', s')) := m (v, mem st) in (r, mkMachine (<[pid := v']> (spaces st)) s')
  end.

(** The address space of a new process. *)
Definition create (parent child : Z) : M (Machine P) Error unit := fun st =>
  match spaces st !! parent with
  | None => (Err no_process, st)
  | Some pv =>
    match new_vmem pv (mem st) with
    | (Ok cv, s) => (Ok tt, mkMachine (<[child := cv]> (spaces st)) s)
    | (Err e, s) => (Err e, mkMachine (spaces st) s)
    | (Panic, s) => (Panic, mkMachine (spaces st) s)
    end
  end.

(** The memory of [duplicate]: the new address space is dropped when sharing fails. *)
Definition duplicate (parent child : Z) : M (Machine P) Error unit := fun st =>
  match spaces st !! parent with
  | None => (Err no_process, st)
  | Some pv =>
    match new_vmem pv (mem st) with
    | (Ok cv, s) =>
      match VirtManager.link_user_pages (pv, cv, s) with
      | (Ok _, (pv, cv, s)) => (Ok tt, mkMachine (<[child := cv]> (<[parent := pv]> (spaces st))) s)
      | (Err e, (pv, cv, s)) =>
        let '(r, s) := Vmem.drop cv s in
        (match r with Panic => Panic | _ => Err e end, mkMachine (<[parent := pv]> (spaces st)) s)
      | (Panic, (pv, cv, s)) => (Panic, mkMachine (<[parent := pv]> (spaces st)) s)
      end
    | (Err e, s) => (Err e, mkMachine (spaces st) s)
    | (Panic, s) => (Panic, mkMachine (spaces st) s)
    end
  end.

(** ** Page faults *)

Definition handle_cow_page_fault (pid fault_addr : Z) (error_code : FaultCode) : M (Machine P) Error bool :=
  on_space pid (VirtManager.try_resolve_cow_fault fault_addr error_code).

(** A page of the stack of the main thread that is not there yet. *)
Definition on_stack (fault_addr : Z) (error_code : FaultCode) : bool :=
  negb (fault_present error_code || negb (fault_user error_code)) &&
  ((USER_STACK_TOP_RAW <=? fault_addr) && (fault_addr <? USER_STACK_TOP_RAW + USER_STACK_SIZE)).

Definition handle_stack_page_fault (pid : Z) (heap : nat → Reserve) (fault_addr : Z) (error_code : FaultCode)
    : M (Machine P) Error bool :=
  if on_stack fault_addr error_code then
    vaddr ← lift (from_raw_value (Z.land fault_addr (usize_not (PAGE_SIZE - 1))));
    on_space pid (UserMap.mmap heap vaddr 1 RDWR);;
    mret true
  else mret false.

(** The page faults of the exception handler: whether the fault has been dealt with. *)
Definition handle_page_fault (pid : Z) (heap : nat → Reserve) (fault_addr : Z) (error_code : FaultCode)
    : M (Machine P) Error bool :=
  if fault_present error_code then handle_cow_page_fault pid fault_addr error_code
  else handle_stack_page_fault pid heap fault_addr error_code.

(** The end of a process: its address space is dropped. *)
Definition destroy (pid : Z) : M (Machine P) Error unit := fun st =>
  match spaces st !! pid with
  | None => (Err no_process, st)
  | Some v => let '(r, s) := Vmem.drop v (mem st) in (r, mkMachine (delete pid (spaces st)) s)
  end.

(** A store of a process, as the paging unit does it: the page must be writable. *)
Definition store (pid page offset value : Z) : M (Machine P) Error unit := fun st =>
  match v ← spaces st !! pid; mapping v page with
  | Some e =>
    if pte_writable e then
      let a := fn_raw (pte_frame e) * PAGE_SIZE + offset in
      (Ok tt, mkMachine (spaces st) (mkMem (phys (mem st)) (fun b => if b =? a then value else memory (mem st) b)))
    else (Err (mkError PermissionDenied "page fault"), st)
  | None => (Err (mkError BadAddress "page fault"), st)
  end.

Definition exec (ev : Event) : M (Machine P) Error unit :=
  match ev with
  | Create parent child => create parent child
  | Duplicate parent child => duplicate parent child
  | Mmap pid heap page npages access => on_space pid (UserMap.mmap heap (page_at page) npages access)
  | Munmap pid page => on_space pid (UserMap.munmap (page_at page))
  | Mctrl pid page access => on_space pid (UserMap.mctrl (page_at page) access)
  | PageFault pid heap fault_addr error_code => handle_page_fault pid heap fault_addr error_code;; mret tt
  | Store pid page offset value => store pid page offset value
  | Exit pid => destroy pid
  end.

Fixpoint exec_all (evs : list Event) (st : Machine P) : Machine P :=
  match evs with [] => st | ev :: evs => exec_all evs (exec ev st).2 end.

End Events.

(** ** Meaning *)

(** The bytes of processes: process, page, offset. *)
Definition Abs : Type := Z → Z → Z → option Z.

(** What an event that succeeds means. *)
Definition abs_step (ev : Event) (a : Abs) : Abs := fun i p off =>
  match ev with
  | Create _ child => if i =? child then None else a i p off
  | Duplicate parent child => if i =? child then a parent p off else a i p off
  | Mmap pid _ page npages _ =>
    if (i =? pid) && (page <=? p) && (p <? page + npages) then Some 0 else a i p off
  | Munmap pid page => if (i =? pid) && (p =? page) then None else a i p off
  | Store pid page offset value =>
    if (i =? pid) && (p =? page) && (off =? offset) then Some value else a i p off
  | Exit pid => if i =? pid then None else a i p off
  | Mctrl _ _ _ => a i p off
  | PageFault pid _ fault_addr error_code =>
    if (i =? pid) && on_stack fault_addr error_code && (p =? fault_addr / PAGE_SIZE) then Some 0 else a i p off
  end.

(** The bytes of the processes of a machine. *)
Definition peek {P} (st : Machine P) : Abs := fun i p off =>
  v ← spaces st !! i; e ← mapping v p; Some (page_byte (memory (mem st)) e off).

(** Events with arguments the system calls pass on: new identifiers for new
    processes, page addresses of 32 bits; and [mctrl] takes rights away. *)
Definition proper {P} (st : Machine P) (ev : Event) : Prop :=
  match ev with
  | Create _ child | Duplicate _ child => spaces st !! child = None
  | Mmap _ _ page npages _ => 0 <= page /\ page * PAGE_SIZE <= usize_max /\ 0 <= npages
  | Munmap _ page => 0 <= page /\ page * PAGE_SIZE <= usize_max
  | Mctrl _ page access => 0 <= page /\ page * PAGE_SIZE <= usize_max /\ is_writable access = false
  | PageFault _ _ fault_addr _ => 0 <= fault_addr <= usize_max
  | Store _ page offset _ => user_page page /\ 0 <= offset < PAGE_SIZE
  | Exit _ => True
  end.
