(* ===== verification/MemorySafety.v ===== *)
(** * No process sees another's memory

    Whatever the processes do, a frame that one of them can write is in nobody
    else's hands, and every process finds in its memory what it would find if
    [duplicate] copied all of it. *)

From stdpp Require Import gmap.
From S2P Require Import Prelude Error BitAlloc Bitmap Config Addr Paging Frame Phys KMem UserSpace AddrSpace.
From S2P Require Import Perm Mappings VmemSpec Cow NewVmem VirtManager PageAlloc UserMap Fork Spaces.
#[local] Open Scope Z_scope.

(** The references of all address spaces. *)
Definition all_handles (sp : gmap Z Vmem) : list FrameAddress := map_to_list sp ≫= (fun kv => handles kv.2).

Lemma all_handles_insert sp i v : sp !! i = None -> all_handles (<[i := v]> sp) ≡ₚ handles v ++ all_handles sp.
Proof. intros H. unfold all_handles. by rewrite map_to_list_insert. Qed.

Lemma all_handles_update sp i v : all_handles (<[i := v]> sp) ≡ₚ handles v ++ all_handles (delete i sp).
Proof. rewrite <- insert_delete_eq. apply all_handles_insert, lookup_delete_eq. Qed.

Lemma all_handles_split sp i v : sp !! i = Some v -> all_handles sp ≡ₚ handles v ++ all_handles (delete i sp).
Proof. intros H. rewrite <- (insert_id sp i v) at 1 by done. apply all_handles_update. Qed.

Lemma all_handles_elem sp i v f : sp !! i = Some v -> f ∈ handles v -> f ∈ all_handles sp.
Proof. intros H Hf. rewrite (all_handles_split _ _ _ H). set_solver. Qed.

Section Safety.
Context {CF : Config} {HC : ConfigOk} {UA : UserAbove} {P : Type} {IM : IdentityMap P} {KD : KernelDirectory P}.
Variable x0 : Inner Bitmap.
Hypothesis Hi0 : Frame.inv x0.
Implicit Types (st : Machine P) (v : Vmem) (s : MemState P) (R K L : list FrameAddress).

(** Pages that can be written have their frames to themselves. *)
Definition exclusive s v : Prop := forall p e, user_page p -> mapping v p = Some e -> pte_writable e = true ->
  owners s e = 1.

(** The frames of pages are not those set aside at boot. *)
Definition unbooked v : Prop := forall p e, user_page p -> mapping v p = Some e -> Frame.rc x0 (fn_raw (pte_frame e)) = 0.

(** [K]: references nobody has any more. *)
Record good K st : Prop := {
  gd_spaces : map_Forall (fun _ => vm_inv) (spaces st);
  gd_frames : Frame.accounted x0 (frames (phys (mem st))) (all_handles (spaces st) ++ K);
  gd_vec : vec (phys (mem st)) = [];
  gd_excl : map_Forall (fun _ => exclusive (mem st)) (spaces st);
  gd_user : map_Forall (fun _ => unbooked) (spaces st)
}.

Lemma frames_sound K (sp : gmap Z Vmem) s i v : map_Forall (fun _ => vm_inv) sp ->
  Frame.accounted x0 (frames (phys s)) (all_handles sp ++ K) -> sp !! i = Some v ->
  sound x0 (all_handles (delete i sp) ++ K) v s.
Proof.
  intros Hok Ha Hi. split; [by apply (Hok i)|]. eapply Phys.accounted_perm; [|exact Ha].
  by rewrite (all_handles_split _ _ _ Hi), <- app_assoc.
Qed.

Lemma good_sound K st i v : good K st -> spaces st !! i = Some v ->
  sound x0 (all_handles (delete i (spaces st)) ++ K) v (mem st).
Proof. intros []. by apply frames_sound. Qed.

(** ** Frames *)

Lemma held_rc fr L n : Frame.accounted x0 fr L -> 0 <= n -> frame_at n ∈ L -> 1 <= Frame.rc fr n.
Proof.
  intros (_ & _ & _ & Hrc) Hn [L' HL]%elem_of_Permutation. rewrite Hrc, HL, Frame.occ_cons, Z.eqb_refl by done.
  pose proof (Frame.inv_rc x0 Hi0 n Hn). pose proof (Frame.occ_nonneg n L'). lia.
Qed.

(** A page that stays as it is stays exclusive. *)
Lemma excl_kept R v s v' s' p e : exclusive s v -> calm s s' -> vm_ok v -> sound x0 R v' s' -> user_page p ->
  mapping v p = Some e -> mapping v' p = Some e -> pte_writable e = true -> owners s' e = 1.
Proof.
  intros He Hc Hok Hs Hp Hm Hm' Hw. pose proof (He p e Hp Hm Hw) as H1. unfold owners in *.
  destruct (mapped_owned _ _ _ _ _ _ Hs Hp Hm') as (Hn & _ & Hin).
  pose proof (Hc _ (proj1 Hn) ltac:(lia)). pose proof (held_rc _ _ _ (proj2 Hs) (proj1 Hn) Hin). lia.
Qed.

(** A frame with one owner is not set aside. *)
Lemma owned_unbooked R v s p e : sound x0 R v s -> user_page p -> mapping v p = Some e -> owners s e = 1 ->
  Frame.rc x0 (fn_raw (pte_frame e)) = 0.
Proof.
  intros Hs Hp Hm Ho. destruct (mapped_owned _ _ _ _ _ _ Hs Hp Hm) as ([Hn _] & _ & [X HX]%elem_of_Permutation).
  unfold owners in Ho. destruct Hs as [_ (_ & _ & _ & Hrc)]. rewrite Hrc, HX in Ho by done. unfold handle in Ho.
  rewrite Frame.occ_cons, Z.eqb_refl in Ho. pose proof (Frame.inv_rc x0 Hi0 _ Hn).
  pose proof (Frame.occ_nonneg (fn_raw (pte_frame e)) X). lia.
Qed.

Lemma bytes_same L m m' e off : mem_same x0 L m m' -> numbered (pte_frame e) -> handle e ∈ L -> 0 <= off < PAGE_SIZE ->
  page_byte m' e off = page_byte m e off.
Proof.
  intros Hm [Hn _] Hin Ho. unfold page_byte. apply Hm; [pages; lia|]. rewrite (in_frame _ (fn_raw (pte_frame e))) by (pages; lia).
  apply elem_of_Permutation in Hin as [L' ->]. unfold handle. rewrite Frame.occ_cons, Z.eqb_refl.
  pose proof (Frame.inv_rc x0 Hi0 _ Hn). pose proof (Frame.occ_nonneg (fn_raw (pte_frame e)) L'). lia.
Qed.

Lemma mapped_handle v p e : user_page p -> mapping v p = Some e -> handle e ∈ handles v.
Proof. intros Hp Hm. unfold handles. apply elem_of_app. left. apply user_frames_elem. by exists p, e. Qed.

Definition entry_of (sp : gmap Z Vmem) (i p : Z) : option PageTableEntry := v ← sp !! i; mapping v p.

Lemma peek_mapped st i v p e off : spaces st !! i = Some v -> mapping v p = Some e ->
  peek st i p off = Some (page_byte (memory (mem st)) e off).
Proof. intros Hv He. unfold peek. rewrite Hv. simpl. by rewrite He. Qed.

(** A page that keeps its entry keeps its bytes. *)
Lemma peek_same K st sp' s' i p off : good K st -> entry_of sp' i p = entry_of (spaces st) i p ->
  mem_same x0 (all_handles (spaces st) ++ K) (memory (mem st)) (memory s') -> user_page p -> 0 <= off < PAGE_SIZE ->
  peek (mkMachine sp' s') i p off = peek st i p off.
Proof.
  intros H Hj Hm Hp Ho. unfold peek. simpl.
  assert (forall sp m, (v ← sp !! i; e ← mapping v p; Some (page_byte m e off)) = (e ← entry_of sp i p; Some (page_byte m e off))) as Hr.
  { intros sp m. unfold entry_of. by destruct (sp !! i). }
  rewrite !Hr, Hj. destruct (entry_of (spaces st) i p) as [e|] eqn:E; [|done]. simpl. f_equal.
  unfold entry_of in E. destruct (spaces st !! i) as [v|] eqn:Hi; [|done]. simpl in E. eapply bytes_same; [done| | |done].
  - eapply mapping_numbered; [by apply (gd_spaces _ _ H i)|done].
  - apply elem_of_app. left. eapply all_handles_elem; [done|]. by eapply mapped_handle.
Qed.

(** ** One address space changes *)

(** Address spaces that are new, or that stay as they are. *)
Lemma good_others K K' st (sp : gmap Z Vmem) s : good K st -> map_Forall (fun _ => vm_inv) sp ->
  map_Forall (fun _ => unbooked) sp ->
  Frame.accounted x0 (frames (phys s)) (all_handles sp ++ K') -> vec (phys s) = [] ->
  (forall j w, sp !! j = Some w -> exclusive s w \/ spaces st !! j = Some w /\
     forall p e, user_page p -> mapping w p = Some e -> pte_writable e = true -> owners s e <= owners (mem st) e) ->
  good K' (mkMachine sp s).
Proof.
  intros H Hok Hub Ha Hvec Hex. split; [done|done|done| |done]. intros j w Hj. simpl in *. destruct (Hex j w Hj) as [|[Hold Hle]]; [done|].
  intros p e Hp Hm Hw. pose proof (gd_excl _ _ H j w Hold p e Hp Hm Hw). specialize (Hle p e Hp Hm Hw).
  pose proof (frames_sound _ _ _ _ _ Hok Ha Hj) as Hs. destruct (mapped_owned _ _ _ _ _ _ Hs Hp Hm) as (Hn & _ & Hin).
  pose proof (held_rc _ _ _ (proj2 Hs) (proj1 Hn) Hin). unfold owners in *. lia.
Qed.

(** The frames of a page that can be written, when no frame in use gets shared. *)
Lemma calm_owners K st j w s p e : good K st -> calm (mem st) s -> spaces st !! j = Some w -> user_page p ->
  mapping w p = Some e -> owners s e <= owners (mem st) e.
Proof.
  intros H Hc Hj Hp Hm. destruct (mapped_owned _ _ _ _ _ _ (good_sound _ _ _ _ H Hj) Hp Hm) as (Hn & _ & Hin).
  apply Hc; [apply Hn|]. eapply held_rc; [apply (good_sound _ _ _ _ H Hj)|apply Hn|exact Hin].
Qed.

Lemma good_update K st i v v' s' : good K st -> spaces st !! i = Some v ->
  sound x0 (all_handles (delete i (spaces st)) ++ K) v' s' -> vec (phys s') = [] -> calm (mem st) s' -> exclusive s' v' ->
  unbooked v' -> good K (mkMachine (<[i := v']> (spaces st)) s').
Proof.
  intros H Hi [Hinv Ha] Hv Hc He Hub. eapply good_others; [done| |apply map_Forall_insert_2; [done|apply H]| |done|].
  - apply map_Forall_insert_2; [done|apply H].
  - eapply Phys.accounted_perm; [|exact Ha]. by rewrite all_handles_update, <- app_assoc.
  - intros j w [[<- <-]|[Hne Hj]]%lookup_insert_Some; [by left|right]. split; [done|]. intros. by eapply calm_owners.
Qed.

(** What an event has to do. *)
Definition meets st ev (r : res Error unit) st' : Prop :=
  r <> Panic /\ (exists K, good K st') /\
  forall i p off, user_page p -> 0 <= off < PAGE_SIZE ->
    peek st' i p off = match r with Ok _ => abs_step ev (peek st) i p off | _ => peek st i p off end.

Lemma meets_same K st ev e : good K st -> meets st ev (Err e) st.
Proof. intros H. split; [done|]. split; [by exists K|done]. Qed.

Lemma wp_on_space {A} st i (m : Vmem.V A) (Q : res Error A → Machine P → Prop) :
  (spaces st !! i = None -> Q (Err no_process) st) ->
  (forall v, spaces st !! i = Some v ->
     wp m (v, mem st) (fun r t => Q r (mkMachine (<[i := t.1]> (spaces st)) t.2))) ->
  wp (on_space i m) st Q.
Proof.
  intros H1 H2. unfold wp, on_space. destruct (spaces st !! i) as [v|]; [|by apply H1].
  specialize (H2 v eq_refl). unfold wp in H2. by destruct (m (v, mem st)) as [r [v' s']].
Qed.

(** An operation that fails, or that changes no entry. *)
Lemma unchanged K st i v v' s' ev r : good K st -> spaces st !! i = Some v ->
  let R := all_handles (delete i (spaces st)) ++ K in
  outcome x0 R R v (mem st) (mapping v) v' s' -> r <> Panic ->
  (forall j p off, match r with Ok _ => abs_step ev (peek st) j p off | _ => peek st j p off end = peek st j p off) ->
  meets st ev r (mkMachine (<[i := v']> (spaces st)) s').
Proof.
  intros H Hi R [Hs Hv Hsh Hvec Hm Hc] Hr Ha. split; [done|]. split.
  - exists K. eapply good_update; [done..|by rewrite Hvec; apply H|done| |].
    + intros p e Hp He Hw. eapply excl_kept; [by apply (gd_excl _ _ H i)|done|by apply (gd_spaces _ _ H i)|done|done| |done|done].
      by rewrite <- Hv.
    + intros p e Hp He. apply (gd_user _ _ H i v Hi p); [done|]. by rewrite <- Hv.
  - intros j p off Hp Ho. rewrite Ha. eapply peek_same; [done| | |done|done].
    + unfold entry_of. destruct (decide (j = i)) as [->|]; [|by rewrite lookup_insert_ne].
      rewrite lookup_insert_eq, Hi. simpl. by apply Hv.
    + eapply mem_same_perm; [|exact Hm]. by rewrite (all_handles_split _ _ _ Hi), <- app_assoc.
Qed.

(** An operation that changes some entries. *)
Lemma changed K st i v v' s' ev : good K st -> spaces st !! i = Some v ->
  let R := all_handles (delete i (spaces st)) ++ K in
  sound x0 R v' s' -> vec (phys s') = [] -> calm (mem st) s' ->
  mem_same x0 (handles v ++ R) (memory (mem st)) (memory s') ->
  (forall p, user_page p ->
     mapping v' p = mapping v p /\ (forall off, abs_step ev (peek st) i p off = peek st i p off) \/
     (forall e, mapping v' p = Some e -> Frame.rc x0 (fn_raw (pte_frame e)) = 0 /\ (pte_writable e = true -> owners s' e = 1)) /\
     (forall off, 0 <= off < PAGE_SIZE ->
        (e ← mapping v' p; Some (page_byte (memory s') e off)) = abs_step ev (peek st) i p off)) ->
  (forall j p off, j <> i -> abs_step ev (peek st) j p off = peek st j p off) ->
  meets st ev (Ok tt) (mkMachine (<[i := v']> (spaces st)) s').
Proof.
  intros H Hi R Hs Hvec Hc Hm Hown Hoth. split; [done|]. split.
  - exists K. eapply good_update; [done..| |].
    + intros p e Hp He Hw. destruct (Hown p Hp) as [[Hsame _]|[Hex _]]; [|by apply (Hex e)].
      eapply excl_kept; [by apply (gd_excl _ _ H i)|done|by apply (gd_spaces _ _ H i)|done|done| |done|done]. by rewrite <- Hsame.
    + intros p e Hp He. destruct (Hown p Hp) as [[Hsame _]|[Hex _]]; [|by apply (Hex e)].
      apply (gd_user _ _ H i v Hi p); [done|]. by rewrite <- Hsame.
  - assert (mem_same x0 (all_handles (spaces st) ++ K) (memory (mem st)) (memory s')) as Hm'.
    { eapply mem_same_perm; [|exact Hm]. by rewrite (all_handles_split _ _ _ Hi), <- app_assoc. }
    intros j p off Hp Ho. destruct (decide (j = i)) as [->|Hne].
    + destruct (Hown p Hp) as [[Hsame Habs]|[_ Hby]].
      * rewrite Habs. eapply peek_same; [done| |done|done|done]. unfold entry_of. by rewrite lookup_insert_eq, Hi.
      * rewrite <- Hby by done. unfold peek. simpl. by rewrite lookup_insert_eq.
    + rewrite Hoth by done. eapply peek_same; [done| |done|done|done]. unfold entry_of. by rewrite lookup_insert_ne.
Qed.

(** ** The events *)

Ltac elsewhere := let H := fresh in intros ? ? ? H; apply Z.eqb_neq in H; simpl; by rewrite H.

Lemma munmap_meets K st pid page : good K st -> proper st (Munmap pid page) ->
  wp (exec (Munmap pid page)) st (meets st (Munmap pid page)).
Proof.
  intros H [Hpage _]. cbn [exec]. apply wp_on_space; [intros _; by eapply meets_same|]. intros v Hv.
  pose proof (good_sound _ _ _ _ H Hv) as Hs. destruct (page_raw page Hpage) as [_ Hpo]. unfold UserMap.munmap. wstep.
  eapply (wp_try_unmap x0 Hi0); [exact Hs| | |].
  - intros _ _. wstep. eapply unchanged; [done|done|by apply outcome_refl|done|done].
  - rewrite Hpo. intros e v' s' Hu%page_user Hm [Hs' Hv' Hsh Hvec Hme Hc] _ _. wstep. cbn [fst snd].
    eapply changed; [done|done|exact Hs'|by rewrite Hvec; apply H|done|exact Hme| |].
    + intros p Hp. rewrite Hv' by done. unfold view_set. simpl. rewrite Z.eqb_refl. simpl.
      destruct (Z.eqb_spec p page); [right|by left]. done.
    + elsewhere.
  - intros e _. eapply unchanged; [done|done|by apply outcome_refl|done|done].
Qed.

Lemma mmap_meets K st pid heap page npages access : good K st -> proper st (Mmap pid heap page npages access) ->
  wp (exec (Mmap pid heap page npages access)) st (meets st (Mmap pid heap page npages access)).
Proof.
  intros H (Hp0 & _ & Hn). cbn [exec]. apply wp_on_space; [intros _; by eapply meets_same|]. intros v Hv.
  pose proof (good_sound _ _ _ _ H Hv) as Hs. eapply (wp_mmap x0 Hi0); [exact Hs|apply H|done|done| |].
  2: { intros e v' s' Hoc. by eapply unchanged. }
  intros ns v' s' Hlen [Hs' [_ Hnew] _ Hv' Hsh Hm Hst Hsi Hz] Hvec. cbn [fst snd].
  eapply changed; [done|done|exact Hs'|done|by apply steady_calm|exact Hm| |].
  - intros p Hp. rewrite Hv' by done. simpl. rewrite Z.eqb_refl. simpl. unfold view_map.
    destruct (Z.leb_spec page p) as [Hle|Hgt]; simpl; [|by left].
    destruct (Z.ltb_spec p (page + npages)) as [Hlt|Hge]; [right|left].
    2: { by rewrite lookup_ge_None_2 by lia. }
    destruct (lookup_lt_is_Some_2 ns (Z.to_nat (p - page)) ltac:(lia)) as [n Hnl]. rewrite Hnl.
    pose proof (list_elem_of_lookup_2 _ _ _ Hnl) as Hin. split.
    + intros e [= <-]. split; [by apply (proj1 (Forall_forall _ _) Hnew n Hin)|]. intros _. by apply (proj1 (Forall_forall _ _) Hsi n Hin).
    + intros off Ho. simpl. f_equal. unfold page_byte. simpl. by apply (Hz eq_refl).
  - elsewhere.
Qed.

Lemma mctrl_meets K st pid page access : good K st -> proper st (Mctrl pid page access) ->
  wp (exec (Mctrl pid page access)) st (meets st (Mctrl pid page access)).
Proof.
  intros H (Hp0 & _ & Hacc). cbn [exec]. apply wp_on_space; [intros _; by eapply meets_same|]. intros v Hv.
  pose proof (good_sound _ _ _ _ H Hv) as Hs. destruct (page_raw page Hp0) as [_ Hpo]. pose proof (proj1 Hs) as [Hok Hus].
  unfold UserMap.mctrl, VirtManager.ctrl_upage. apply wp_on_vmem, wp_uctrl; [done| |]; rewrite ?Hpo.
  - intros e v' Hu%page_user Hm Hef. pose proof (rewrite_handles _ _ _ _ _ Hef Hu Hm eq_refl) as HP.
    cbn [fst snd]. eapply changed; [done|done| |apply H|by apply falls_calm|done| |done].
    + split; [split; [apply Hef|by apply Hef]|]. eapply Phys.accounted_perm; [|apply Hs]. by rewrite HP.
    + intros p Hp. rewrite (ef_view _ _ _ _ Hef) by done. unfold view_set. destruct (Z.eqb_spec p page) as [->|]; [right|by left].
      split; [intros e' [= <-]; split|]. { by apply (gd_user _ _ H pid v Hv page e). }
      { unfold ctrl_of. rewrite Hacc. by destruct e as [[] ?]. }
      intros off Ho. simpl. by rewrite (peek_mapped _ _ _ _ _ _ Hv Hm).
  - intros err v' _ Hef. cbn [fst snd]. eapply unchanged; [done|done| |done|done].
    eapply effect_outcome; [done|exact Hef|apply Hs|done| |done|by apply falls_calm]. unfold handles. perm.
Qed.

Lemma cow_fault_meets K st pid fault_addr error_code ev : good K st -> 0 <= fault_addr <= usize_max ->
  (forall i p off, abs_step ev (peek st) i p off = peek st i p off) ->
  wp (handle_cow_page_fault pid fault_addr error_code;; mret tt) st (meets st ev).
Proof.
  intros H Ha Hid. unfold handle_cow_page_fault. wstep. apply wp_on_space; [intros _; by eapply meets_same|].
  intros v Hv. pose proof (good_sound _ _ _ _ H Hv) as Hs.
  assert (wp (mret tt) (mkMachine (<[pid:=v]> (spaces st)) (mem st)) (meets st ev)) as Hno.
  { wstep. eapply unchanged; [done|done|by apply outcome_refl|done|done]. }
  unfold VirtManager.try_resolve_cow_fault. destruct (_ || _ || _); [wstep; by apply Hno|].
  rewrite align_down_page by done. destruct (page_raw (fault_addr / PAGE_SIZE)) as [-> Hpo]; [apply Z.div_pos; [lia|done]|].
  eapply (wp_resolve_cow_at x0 Hi0); [exact Hs|by intros _; apply Hno| |]; rewrite ?Hpo.
  - intros e e' v' s' Hu%page_user Hm Hcow [Hfl Hby] Ho1 Hl [Hs' Hv' Hsh Hvec Hme Hc]. wstep. cbn [fst snd].
    eapply changed; [done|done|exact Hs'|by rewrite Hvec; apply H|done|exact Hme| |done].
    intros p Hp. setoid_rewrite Hid. rewrite Hv' by done. unfold view_set. destruct (Z.eqb_spec p (fault_addr / PAGE_SIZE)) as [->|]; [right|by left].
    split.
    { intros e0 [= <-]. split; [|done]. eapply (owned_unbooked _ v' s'); [exact Hs'|exact Hu| |done].
      rewrite Hv' by done. unfold view_set. by rewrite Z.eqb_refl. }
    intros off Ho. simpl. rewrite Hby by done. by rewrite (peek_mapped _ _ _ _ _ _ Hv Hm).
  - intros err v' s' _ Hoc. cbn [fst snd]. by eapply unchanged.
Qed.

Lemma fault_meets K st pid heap fault_addr error_code : good K st -> proper st (PageFault pid heap fault_addr error_code) ->
  wp (exec (PageFault pid heap fault_addr error_code)) st (meets st (PageFault pid heap fault_addr error_code)).
Proof.
  intros H Ha. cbn [exec proper] in *. unfold handle_page_fault, handle_stack_page_fault.
  destruct (fault_present error_code) eqn:Hpr.
  { eapply cow_fault_meets; [done|done|]. intros i p off. simpl. unfold on_stack. rewrite Hpr. simpl. by rewrite andb_false_r. }
  destruct (on_stack fault_addr error_code) eqn:Hst.
  2: { do 2 wstep. split; [done|]. split; [by exists K|]. intros i p off _ _. simpl. by rewrite Hst, andb_false_r. }
  change (Z.land fault_addr (usize_not (PAGE_SIZE - 1))) with (align_down fault_addr PAGE_ALIGNMENT).
  rewrite align_down_page by done. pose proof (Z.div_pos fault_addr PAGE_SIZE ltac:(lia) ltac:(done)) as Hpos.
  pose proof (Z.div_mod fault_addr PAGE_SIZE ltac:(done)). pose proof (Z.mod_pos_bound fault_addr PAGE_SIZE ltac:(done)).
  destruct (page_raw (fault_addr / PAGE_SIZE)) as [-> _]; [done|]. do 4 wstep.
  eapply wp_mono; [apply (mmap_meets K st pid heap (fault_addr / PAGE_SIZE) 1 RDWR); [done|simpl; lia]|].
  intros r st' (Hr & HK & Hpk). destruct r as [[]|e|]; [do 2 wstep| |done]; (split; [done|]; split; [done|]); intros i p off Hp Ho;
    rewrite Hpk by done; [|done]. simpl. rewrite Hst, andb_true_r, <- andb_assoc. f_equal.
  destruct (Z.leb_spec (fault_addr / PAGE_SIZE) p), (Z.ltb_spec p (fault_addr / PAGE_SIZE + 1)), (Z.eqb_spec p (fault_addr / PAGE_SIZE)); (done || lia).
Qed.

(** The pages of a store belong to one process only. *)
Lemma writable_alone K st i v p e j w q e' : good K st -> spaces st !! i = Some v -> user_page p -> mapping v p = Some e ->
  pte_writable e = true -> spaces st !! j = Some w -> user_page q -> mapping w q = Some e' ->
  fn_raw (pte_frame e') = fn_raw (pte_frame e) -> i = j /\ p = q.
Proof.
  intros H Hi Hp Hm Hw Hj Hq Hm' E. pose proof (gd_excl _ _ H i v Hi p e Hp Hm Hw) as H1. unfold owners in H1.
  pose proof (good_sound _ _ _ _ H Hi) as Hs. destruct (mapped_owned _ _ _ _ _ _ Hs Hp Hm) as ([Hn _] & _ & _).
  destruct Hs as [_ (_ & _ & _ & Hrc)]. rewrite Hrc in H1 by done. pose proof (Frame.inv_rc x0 Hi0 _ Hn) as H0.
  set (n := fn_raw (pte_frame e)) in *. set (R := all_handles _ ++ K) in *.
  assert (handle e' = frame_at n) as Eh by (unfold handle; by rewrite E).
  assert (forall X, handle e :: handle e' :: X ≡ₚ handles v ++ R -> False) as Htwo.
  { intros X HX. rewrite <- HX, Eh in H1. unfold handle in H1. fold n in H1. rewrite !Frame.occ_cons, Z.eqb_refl in H1.
    pose proof (Frame.occ_nonneg n X). lia. }
  destruct (user_frames_set (mapping v) p Hp) as (X & HX & HX'). rewrite Hm in HX. cbn [ref_of] in HX.
  destruct (decide (i = j)) as [<-|Hne].
  - split; [done|]. destruct (decide (p = q)) as [|Hpq]; [done|exfalso]. rewrite Hi in Hj. injection Hj as <-.
    assert (handle e' ∈ X) as [Y HY]%elem_of_Permutation.
    { rewrite <- (app_nil_l X), <- (HX' None). apply user_frames_elem. exists q, e'. splits; [done| |done]. unfold view_set.
      by rewrite (proj2 (Z.eqb_neq q p)). }
    apply (Htwo (Y ++ table_frames v ++ own_frames v ++ R)). unfold handles. rewrite HX, HY. perm.
  - exfalso. assert (handle e' ∈ R) as [Y HY]%elem_of_Permutation.
    { unfold R. apply elem_of_app. left. eapply all_handles_elem; [by rewrite lookup_delete_ne|]. by eapply mapped_handle. }
    apply (Htwo (X ++ table_frames v ++ own_frames v ++ Y)). unfold handles. rewrite HX, HY. perm.
Qed.

Lemma store_meets K st pid page offset value : good K st -> proper st (Store pid page offset value) ->
  wp (exec (Store pid page offset value)) st (meets st (Store pid page offset value)).
Proof.
  intros H [Hpage Hoff]. cbn [exec]. unfold wp, store. fold (entry_of (spaces st) pid page).
  destruct (entry_of (spaces st) pid page) as [e|] eqn:E; [|by eapply meets_same].
  destruct (pte_writable e) eqn:Hw; [|by eapply meets_same].
  unfold entry_of in E. destruct (spaces st !! pid) as [v|] eqn:Hv; [|done]. simpl in E.
  split; [done|]. split; [exists K; destruct H; by split|]. intros i p off Hp Ho. simpl. unfold peek. simpl.
  destruct (spaces st !! i) as [w|] eqn:Hi; simpl.
  2: { destruct (Z.eqb_spec i pid) as [->|]; [congruence|done]. }
  destruct (mapping w p) as [e'|] eqn:He'; simpl.
  2: { destruct (Z.eqb_spec i pid) as [->|]; [|done]. rewrite Hv in Hi. injection Hi as <-.
       destruct (Z.eqb_spec p page) as [->|]; [congruence|done]. }
  unfold page_byte. destruct (Z.eqb_spec (fn_raw (pte_frame e') * PAGE_SIZE + off) (fn_raw (pte_frame e) * PAGE_SIZE + offset)) as [Ea|Ea].
  - destruct (writable_alone K st pid v page e i w p e' H Hv Hpage E Hw Hi Hp He') as [<- <-]; [pages; lia|].
    rewrite !Z.eqb_refl. rewrite Hv in Hi. injection Hi as <-. rewrite E in He'. injection He' as <-.
    rewrite (proj2 (Z.eqb_eq off offset)); [done|lia].
  - destruct (Z.eqb_spec i pid) as [->|]; [|done]. destruct (Z.eqb_spec p page) as [->|]; [|done].
    destruct (Z.eqb_spec off offset) as [->|]; [|done]. rewrite Hv in Hi. injection Hi as <-. congruence.
Qed.

(** A process that ends leaves the frames of its pages behind. *)
Lemma exit_meets K st pid : good K st -> wp (exec (Exit pid)) st (meets st (Exit pid)).
Proof.
  intros H. cbn [exec]. unfold wp, destroy. destruct (spaces st !! pid) as [v|] eqn:Hv; [|by eapply meets_same].
  pose proof (good_sound _ _ _ _ H Hv) as Hs.
  enough (wp (Vmem.drop v) (mem st) (fun r s => meets st (Exit pid) r (mkMachine (delete pid (spaces st)) s))) as Hd.
  { unfold wp in Hd. by destruct (Vmem.drop v (mem st)). }
  eapply (wp_drop x0 Hi0); [exact Hs|]. intros s' Ha Hvec Hm Hf.
  assert (map_Forall (fun _ => vm_inv) (delete pid (spaces st))) as Hok by (apply map_Forall_delete, H).
  assert (Frame.accounted x0 (frames (phys s')) (all_handles (delete pid (spaces st)) ++ user_frames (mapping v) ++ K)) as Ha'.
  { eapply Phys.accounted_perm; [|exact Ha]. perm. }
  split; [done|]. split.
  - exists (user_frames (mapping v) ++ K). eapply good_others; [done|done|apply map_Forall_delete, H|done|by rewrite Hvec; apply H|].
    intros j w [_ Hj]%lookup_delete_Some. right. split; [done|]. intros. by eapply calm_owners; [|apply falls_calm|..].
  - intros i p off Hp Ho. simpl. destruct (Z.eqb_spec i pid) as [->|Hne].
    + unfold peek. simpl. by rewrite lookup_delete_eq.
    + eapply peek_same; [done| |by rewrite Hm|done|done]. unfold entry_of. by rewrite lookup_delete_ne.
Qed.

(** A new address space, empty, beside the others. *)
Lemma wp_new_space K st i v (Q : res Error Vmem → MemState P → Prop) : good K st -> spaces st !! i = Some v ->
  (forall cv s, sound x0 (all_handles (spaces st) ++ K) cv s -> (forall p, mapping cv p = None) ->
     vec (phys s) = [] -> memory s = memory (mem st) -> steady (mem st) s -> Q (Ok cv) s) ->
  (forall e s, good K (mkMachine (spaces st) s) -> memory s = memory (mem st) -> Q (Err e) s) ->
  wp (new_vmem v) (mem st) Q.
Proof.
  intros H Hi H1 H2. eapply (wp_new_vmem x0 Hi0); [by apply (gd_spaces _ _ H i)|apply H| |].
  - intros n cv s Hnew Hs Hnone Hh _ Hvec Hm. apply H1; [done|done|by rewrite Hvec; apply H|done|].
    eapply steady_new; [apply H| |exact Hnew]. destruct Hs as [_ Ha]. by rewrite Hh in Ha.
  - intros e s Ha Hvec Hm. apply H2; [|done]. eapply good_others; [done|apply H|apply H|done|by rewrite Hvec; apply H|].
    intros j w Hj. right. split; [done|]. intros. eapply calm_owners; [done| |done..].
    eapply falls_calm, falls_sub; [apply H|exact Ha|done].
Qed.

Lemma create_meets K st parent child : good K st -> proper st (Create parent child) ->
  wp (exec (Create parent child)) st (meets st (Create parent child)).
Proof.
  intros H Hc. simpl in Hc. cbn [exec]. unfold wp, create. destruct (spaces st !! parent) as [v|] eqn:Hv; [|by eapply meets_same].
  enough (wp (new_vmem v) (mem st) (fun r s => match r with
    | Ok cv => meets st (Create parent child) (Ok tt) (mkMachine (<[child := cv]> (spaces st)) s)
    | Err e => meets st (Create parent child) (Err e) (mkMachine (spaces st) s) | Panic => False end)) as Hd.
  { unfold wp in Hd. by destruct (new_vmem v (mem st)) as [[]]. }
  eapply wp_new_space; [done|done| |].
  - intros cv s Hs Hn Hvec Hm Hst. split; [done|]. split.
    + exists K. eapply good_others; [done| | | |done|].
      * apply map_Forall_insert_2; [apply Hs|apply H].
      * apply map_Forall_insert_2; [|apply H]. intros p e _ He. by rewrite Hn in He.
      * eapply Phys.accounted_perm; [|apply Hs]. by rewrite all_handles_insert, <- app_assoc.
      * intros j w [[<- <-]|[Hne Hj]]%lookup_insert_Some; [left|right].
        { intros p e _ He. by rewrite Hn in He. }
        split; [done|]. intros. by eapply calm_owners; [|apply steady_calm|..].
    + intros i p off Hp Ho. simpl. destruct (Z.eqb_spec i child) as [->|Hne].
      * unfold peek. simpl. rewrite lookup_insert_eq. simpl. by rewrite Hn.
      * eapply peek_same; [done| |by rewrite Hm|done|done]. unfold entry_of. by rewrite lookup_insert_ne.
  - intros e s Hg Hm. split; [done|]. split; [by exists K|]. intros i p off Hp Ho. eapply peek_same; [done|done|by rewrite Hm|done|done].
Qed.

(** ** Duplicating *)

Lemma shared_readonly e : pte_writable (parent_pte e) = false /\ pte_writable (child_pte e) = false.
Proof.
  unfold parent_pte, child_pte. destruct (pte_writable e) eqn:E; split; try done; by destruct e as [[? [] ? ? ? ? ? ?] ?].
Qed.

Lemma shared_bytes m e off : page_byte m (parent_pte e) off = page_byte m e off /\
  page_byte m (child_pte e) off = page_byte m e off /\ page_byte m (undone e) off = page_byte m e off.
Proof. unfold page_byte, parent_pte, child_pte, undone. destruct (pte_writable e); splits; done. Qed.

Section Duplicate.
Variables (K : list FrameAddress) (st : Machine P) (parent child : Z) (v : Vmem).
Hypothesis Hg : good K st.
Hypothesis Hv : spaces st !! parent = Some v.
Hypothesis Hc : spaces st !! child = None.
Let R := all_handles (delete parent (spaces st)) ++ K.

Lemma dup_neq : parent <> child.
Proof. intros <-. congruence. Qed.

Lemma dup_handles : handles v ++ R ≡ₚ all_handles (spaces st) ++ K.
Proof. unfold R. by rewrite (all_handles_split _ _ _ Hv), <- app_assoc. Qed.

(** Frames of other processes that can be written are not touched. *)
Lemma dup_owners s s' j w p e : steady (mem st) s -> aside R v s s' -> j <> parent -> spaces st !! j = Some w ->
  user_page p -> mapping w p = Some e -> pte_writable e = true -> owners s' e <= owners (mem st) e.
Proof.
  intros Hst Has Hne Hj Hp Hm Hw. destruct (mapped_owned _ _ _ _ _ _ (good_sound _ _ _ _ Hg Hj) Hp Hm) as ([Hn _] & _ & _).
  pose proof (gd_excl _ _ Hg j w Hj p e Hp Hm Hw) as H1. unfold owners in *. rewrite <- (Hst _ Hn) by lia.
  assert (handle e ∈ R) as Hin.
  { unfold R. apply elem_of_app. left. eapply all_handles_elem; [by rewrite lookup_delete_ne|]. by eapply mapped_handle. }
  apply Has; [done|done|]. intros [X HX]%elem_of_Permutation. apply elem_of_Permutation in Hin as [Y HY].
  destruct (gd_frames _ _ Hg) as (_ & _ & _ & Hrc). rewrite Hrc, <- dup_handles, HX, HY in H1 by done. simpl in H1. unfold handle in H1.
  rewrite Frame.occ_cons, Frame.occ_app, Frame.occ_cons, Z.eqb_refl in H1. pose proof (Frame.inv_rc x0 Hi0 _ Hn).
  pose proof (Frame.occ_nonneg (fn_raw (pte_frame e)) X). pose proof (Frame.occ_nonneg (fn_raw (pte_frame e)) Y). lia.
Qed.

Lemma dup_shared cv s pv' cv' s' : steady (mem st) s -> vec (phys s) = [] -> memory s = memory (mem st) ->
  linv x0 R v cv s pv' cv' s' -> (forall q, user_page q -> mapping pv' q = parent_pte <$> mapping v q /\
    mapping cv' q = child_pte <$> mapping v q) ->
  meets st (Duplicate parent child) (Ok tt) (mkMachine (<[child := cv']> (<[parent := pv']> (spaces st))) s').
Proof.
  intros Hst Hvec Hm HL Hmap. pose proof dup_neq as Hne. split; [done|]. split.
  - exists K. eapply good_others; [exact Hg| | | | |].
    + apply map_Forall_insert_2; [apply HL|]. apply map_Forall_insert_2; [apply HL|apply Hg].
    + apply map_Forall_insert_2; [|apply map_Forall_insert_2; [|apply Hg]]; intros p e Hp He;
        [rewrite (proj2 (Hmap p Hp)) in He|rewrite (proj1 (Hmap p Hp)) in He]; apply fmap_Some in He as (e0 & He0 & ->);
        rewrite <- (gd_user _ _ Hg parent v Hv p e0 Hp He0); unfold parent_pte, child_pte; by destruct (pte_writable e0).
    + eapply Phys.accounted_perm; [|apply HL]. rewrite all_handles_insert by by rewrite lookup_insert_ne.
      rewrite all_handles_update. unfold R. perm.
    + by rewrite (li_vec _ _ _ _ _ _ _ _ HL).
    + intros j w [[<- <-]|[Hj [[<- <-]|[Hj' Hw]]%lookup_insert_Some]]%lookup_insert_Some; [left|left|right].
      * intros p e Hp He Hwr. rewrite (proj2 (Hmap p Hp)) in He. apply fmap_Some in He as (e0 & _ & ->).
        by rewrite (proj2 (shared_readonly e0)) in Hwr.
      * intros p e Hp He Hwr. rewrite (proj1 (Hmap p Hp)) in He. apply fmap_Some in He as (e0 & _ & ->).
        by rewrite (proj1 (shared_readonly e0)) in Hwr.
      * split; [done|]. intros. by eapply dup_owners; [|apply HL|..].
  - assert (mem_same x0 (all_handles (spaces st) ++ K) (memory (mem st)) (memory s')) as Hm'.
    { rewrite <- Hm. eapply mem_same_perm; [symmetry; apply dup_handles|apply HL]. }
    assert (forall p off, user_page p -> 0 <= off < PAGE_SIZE ->
      (e ← mapping v p; Some (page_byte (memory s') e off)) = peek st parent p off) as Hpar.
    { intros p off Hp Ho. rewrite <- (peek_same K st (spaces st) s' parent p off); [|done..]. unfold peek. simpl. by rewrite Hv. }
    intros i p off Hp Ho. simpl. rewrite <- !Hpar by done. destruct (Hmap p Hp) as [Hmp Hmc]. unfold peek at 1. simpl.
    destruct (Z.eqb_spec i child) as [->|Hi]; [|destruct (decide (i = parent)) as [->|Hi']].
    + rewrite lookup_insert_eq. simpl. rewrite Hmc. destruct (mapping v p) as [e|]; [|done]. simpl. f_equal. apply shared_bytes.
    + rewrite lookup_insert_ne, lookup_insert_eq by done. simpl. rewrite Hmp, <- Hpar by done.
      destruct (mapping v p) as [e|]; [|done]. simpl. f_equal. apply shared_bytes.
    + rewrite !lookup_insert_ne by done. rewrite <- (peek_same K st (spaces st) s' i p off); done.
Qed.

Lemma dup_undone pv' s3 m e : vm_inv pv' -> handles pv' ≡ₚ handles v ->
  (forall q, user_page q -> back (mapping v q) (mapping pv' q)) ->
  Frame.accounted x0 (frames (phys s3)) (handles pv' ++ R) -> vec (phys s3) = [] -> memory s3 = m ->
  mem_same x0 (handles v ++ R) (memory (mem st)) m ->
  meets st (Duplicate parent child) (Err e) (mkMachine (<[parent := pv']> (spaces st)) s3).
Proof.
  intros Hinv HP Hback Ha Hvec Hm3 Hm.
  assert (forall e', 0 <= fn_raw (pte_frame e') -> owners s3 e' = owners (mem st) e') as Hown.
  { intros e' Hn. destruct Ha as (_ & _ & _ & Hrc). destruct (gd_frames _ _ Hg) as (_ & _ & _ & Hrc0). unfold owners.
    by rewrite Hrc, Hrc0, HP, dup_handles. }
  assert (forall p e', user_page p -> mapping pv' p = Some e' -> exists e0, mapping v p = Some e0 /\
    pte_frame e' = pte_frame e0 /\ (pte_writable e' = true -> pte_writable e0 = true)) as Hb.
  { intros p e' Hp He'. destruct (Hback p Hp) as [Heq|Heq]; rewrite He' in Heq; [by exists e'|].
    symmetry in Heq. apply fmap_Some in Heq as (e0 & He0 & ->). exists e0. unfold undone. destruct (pte_writable e0) eqn:E; [done|].
    by rewrite E. }
  split; [done|]. split.
  - exists K. eapply good_others; [exact Hg| | | |done|].
    + apply map_Forall_insert_2; [done|apply Hg].
    + apply map_Forall_insert_2; [|apply Hg]. intros p e' Hp He'. destruct (Hb p e' Hp He') as (e0 & He0 & -> & _).
      by apply (gd_user _ _ Hg parent v Hv p).
    + eapply Phys.accounted_perm; [|exact Ha]. rewrite all_handles_update. unfold R. perm.
    + intros j w [[<- <-]|[Hj Hw]]%lookup_insert_Some; [left|right].
      * intros p e' Hp He' Hwr. destruct (Hb p e' Hp He') as (e0 & He0 & Hf & Hw0).
        pose proof (mapping_numbered v p e0 ltac:(by apply (gd_spaces _ _ Hg parent)) He0) as [Hn _].
        pose proof (gd_excl _ _ Hg parent v Hv p e0 Hp He0 (Hw0 Hwr)) as H1. rewrite <- Hown in H1 by done.
        unfold owners in *. by rewrite Hf.
      * split; [done|]. intros p e' Hp He' _. rewrite Hown; [done|].
        eapply mapping_numbered; [|exact He']. by apply (gd_spaces _ _ Hg j).
  - assert (mem_same x0 (all_handles (spaces st) ++ K) (memory (mem st)) (memory s3)) as Hm'.
    { rewrite Hm3. eapply mem_same_perm; [symmetry; apply dup_handles|done]. }
    intros i p off Hp Ho. rewrite <- (peek_same K st (spaces st) s3 i p off); [|done..]. unfold peek. simpl.
    destruct (decide (i = parent)) as [->|Hi]; [|by rewrite lookup_insert_ne]. rewrite lookup_insert_eq, Hv. simpl.
    destruct (Hback p Hp) as [->| ->]; [done|]. destruct (mapping v p) as [e0|]; [|done]. simpl. f_equal. apply shared_bytes.
Qed.

End Duplicate.

Lemma duplicate_meets K st parent child : good K st -> proper st (Duplicate parent child) ->
  wp (exec (Duplicate parent child)) st (meets st (Duplicate parent child)).
Proof.
  intros H Hc. simpl in Hc. cbn [exec]. set (ev := Duplicate parent child). unfold wp, duplicate.
  destruct (spaces st !! parent) as [v|] eqn:Hv; [|by eapply meets_same].
  enough (wp (new_vmem v) (mem st) (fun r s => match r with
    | Ok cv => wp VirtManager.link_user_pages (v, cv, s) (fun r t => match r with
      | Ok _ => meets st ev (Ok tt) (mkMachine (<[child := t.1.2]> (<[parent := t.1.1]> (spaces st))) t.2)
      | Err e => wp (Vmem.drop t.1.2) t.2 (fun r s =>
          meets st ev (match r with Panic => Panic | _ => Err e end) (mkMachine (<[parent := t.1.1]> (spaces st)) s))
      | Panic => False end)
    | Err e => meets st ev (Err e) (mkMachine (spaces st) s) | Panic => False end)) as Hd.
  { unfold wp in Hd. destruct (new_vmem v (mem st)) as [[cv|e|] s]; cbn [fst snd] in Hd |- *; [|exact Hd|by destruct Hd].
    destruct (VirtManager.link_user_pages (v, cv, s)) as [[|e|] [[pv' cv'] s']]; cbn [fst snd] in Hd |- *; [exact Hd| |by destruct Hd].
    destruct (Vmem.drop cv' s'). exact Hd. }
  eapply wp_new_space; [done|done| |].
  2: { intros e s Hg Hm. split; [done|]. split; [by exists K|]. intros i p off Hp Ho. eapply peek_same; [done|done|by rewrite Hm|done|done]. }
  intros cv s [Hcv Ha] Hn Hvec Hm Hst. apply (wp_link_user_pages x0 Hi0 (all_handles (delete parent (spaces st)) ++ K)).
  - by apply (gd_spaces _ _ H parent).
  - done.
  - intros q _. apply Hn.
  - eapply Phys.accounted_perm; [|exact Ha]. rewrite (all_handles_split _ _ _ Hv). perm.
  - intros pv' cv' s' HL Hmap. by eapply dup_shared.
  - intros e pv' cv' s' [HL Hback]. cbn [fst snd]. eapply (wp_drop x0 Hi0); [by eapply linv_child|].
    intros s3 Ha3 Hvec3 Hm3 _. rewrite (user_frames_ext _ (fun _ => None)), user_frames_none, app_nil_l in Ha3 by (done || apply Hback).
    eapply (dup_undone K st parent child v H Hv); [apply HL|apply HL|intros; by apply Hback|exact Ha3| |exact Hm3|].
    + by rewrite Hvec3, (li_vec _ _ _ _ _ _ _ _ HL).
    + rewrite <- Hm. apply HL.
Qed.

(** Every event does what it means. *)
Lemma exec_meets K st ev : good K st -> proper st ev -> wp (exec ev) st (meets st ev).
Proof.
  intros H Hp. destruct ev; [by eapply create_meets|by eapply duplicate_meets|by eapply mmap_meets|by eapply munmap_meets|
    by eapply mctrl_meets|by eapply fault_meets|by eapply store_meets|by eapply exit_meets].
Qed.

(** ** Runs *)

(** Every event of a run is proper when it happens. *)
Fixpoint proper_all st (evs : list Event) : Prop :=
  match evs with
  | [] => True
  | ev :: evs => proper st ev /\ proper_all (exec ev st).2 evs
  end.

(** What a run means; events that fail mean nothing. *)
Fixpoint abs_all st (evs : list Event) (a : Abs) : Abs :=
  match evs with
  | [] => a
  | ev :: evs => abs_all (exec ev st).2 evs (match (exec ev st).1 with Ok _ => abs_step ev a | _ => a end)
  end.

(** No event of a run stops the kernel. *)
Fixpoint runs st (evs : list Event) : Prop :=
  match evs with
  | [] => True
  | ev :: evs => (exec ev st).1 <> Panic /\ runs (exec ev st).2 evs
  end.

Definition agree (a a' : Abs) : Prop := forall i p off, user_page p -> 0 <= off < PAGE_SIZE -> a i p off = a' i p off.

Lemma agree_step ev a a' : agree a a' -> agree (abs_step ev a) (abs_step ev a').
Proof. intros H i p off Hp Ho. destruct ev; simpl; repeat case_match; try done; by apply H. Qed.

Lemma agree_all st evs a a' : agree a a' -> agree (abs_all st evs a) (abs_all st evs a').
Proof.
  revert st a a'. induction evs as [|ev evs IH]; intros st a a' H; [done|]. simpl. apply IH.
  destruct (exec ev st).1; [by apply agree_step|done|done].
Qed.

Lemma runs_meet K st evs : good K st -> proper_all st evs ->
  runs st evs /\ (exists K', good K' (exec_all evs st)) /\ agree (peek (exec_all evs st)) (abs_all st evs (peek st)).
Proof.
  revert K st. induction evs as [|ev evs IH]; intros K st H Hp; simpl in *; [split; [done|]; split; [by exists K|by intros i p off]|].
  destruct Hp as [Hp Hps]. destruct (exec_meets K st ev H Hp) as (Hr & (K' & HK') & Hpk).
  destruct (IH K' _ HK' Hps) as (Hrs & HK'' & Hpk'). split; [by split|]. split; [done|].
  intros i p off Hu Ho. rewrite Hpk' by done. apply agree_all; [|done|done]. intros i' p' off' Hu' Ho'.
  rewrite Hpk by done. by destruct (exec ev st).1.
Qed.


(** C8: Isolation.  In every state the processes can bring about, a frame behind a page
    that some process can write is mapped by no other page of any process, holds no
    page table and no page directory, and was not set aside at boot. *)
Theorem writable_frames_isolated K st evs i v p e : good K st -> proper_all st evs ->
  spaces (exec_all evs st) !! i = Some v -> user_page p -> mapping v p = Some e -> pte_writable e = true ->
  Frame.rc x0 (fn_raw (pte_frame e)) = 0 /\
  forall j w, spaces (exec_all evs st) !! j = Some w ->
    handle e ∉ table_frames w ++ own_frames w /\
    forall q e', user_page q -> mapping w q = Some e' -> pte_frame e' = pte_frame e -> i = j /\ p = q.
Proof.
  intros H Hpr. destruct (runs_meet K st evs H Hpr) as (_ & (K' & HK) & _). clear H Hpr. revert HK.
  generalize (exec_all evs st). clear st evs K. intros st H Hi Hp Hm Hw.
  pose proof (gd_excl _ _ H i v Hi p e Hp Hm Hw) as H1. unfold owners in H1.
  pose proof (good_sound _ _ _ _ H Hi) as Hs. destruct (mapped_owned _ _ _ _ _ _ Hs Hp Hm) as ([Hn _] & _ & _).
  destruct (gd_frames _ _ H) as (_ & _ & _ & Hrc). rewrite Hrc in H1 by done. pose proof (Frame.inv_rc x0 Hi0 _ Hn) as H0.
  set (n := fn_raw (pte_frame e)) in *. destruct (user_frames_set (mapping v) p Hp) as (X & HX & _).
  rewrite Hm in HX. cbn [ref_of] in HX.
  assert (forall Y, all_handles (spaces st) ++ K' ≡ₚ frame_at n :: Y -> Frame.rc x0 n = 0 /\ frame_at n ∉ Y) as Hone.
  { intros Y HY. rewrite HY, Frame.occ_cons, Z.eqb_refl in H1. pose proof (Frame.occ_nonneg n Y).
    split; [lia|]. apply Frame.occ_zero. lia. }
  set (Z0 := X ++ table_frames v ++ own_frames v ++ all_handles (delete i (spaces st)) ++ K').
  destruct (Hone Z0) as [Hz Hni].
  { rewrite (all_handles_split _ _ _ Hi). unfold handles, Z0. rewrite HX. unfold handle. fold n. perm. }
  split; [done|]. intros j w Hj. split.
  - intros Hin. apply Hni. unfold Z0. destruct (decide (i = j)) as [<-|Hne]; [rewrite Hi in Hj; injection Hj as <-; set_solver|].
    do 3 (apply elem_of_app; right). apply elem_of_app. left. eapply all_handles_elem; [by rewrite lookup_delete_ne|].
    unfold handles. apply elem_of_app. by right.
  - intros q e' Hq Hm' Hf. eapply (writable_alone K' st); [done..|]. by rewrite Hf.
Qed.

End Safety.

(** ** An example *)

(** The kernel's page tables need no change, and its directory has nothing to copy. *)
#[local] Program Instance sample_identity : IdentityMap unit := {
  identity_map_page _ := mret tt
}.
Next Obligation. done. Qed.

#[local] Program Instance sample_directory : KernelDirectory unit := {
  kernel_pd _ := None
}.
Next Obligation. done. Qed.

#[local] Existing Instance sample_config.
#[local] Existing Instance sample_config_ok.

#[local] Instance sample_above : UserAbove.
Proof. split. vm_compute. discriminate. Qed.

(** Sixteen frames, the first of which the kernel has set aside for itself, and the
    kernel's own address space. *)
Definition sample_boot : Inner Bitmap := (Frame.alloc Frame.sample_frames).2.
Definition sample_root : Vmem :=
  mkVmem (PageDirectory.new (frame_at 0)) (Bss (frame_at 0)) [] [] [] [].
Definition sample_machine : Machine unit :=
  mkMachine {[0 := sample_root]} (mkMem (mkPhysState sample_boot tt []) (fun _ => 255)).

Lemma sample_boot_inv : Frame.inv sample_boot.
Proof.
  pose proof (Phys.accounted_start _ Frame.sample_frames_inv) as Ha. unfold sample_boot.
  destruct (Frame.alloc Frame.sample_frames) as [r x] eqn:E. by destruct (Frame.alloc_accounted _ _ _ _ _ Ha E) as [[? _] _].
Qed.

(** Process 1 maps a page and writes to it; process 2 is its duplicate and writes to
    the page after the page fault. *)
Definition sample_events : list Event :=
  let p := USER_FIRST in
  [Create 0 1; Mmap 1 (fun _ => ReserveAll) p 1 RDWR; Store 1 p 8 42; Duplicate 1 2;
   Store 2 p 8 7; PageFault 2 (fun _ => ReserveAll) (p * PAGE_SIZE + 8) (mkFaultCode true true true); Store 2 p 8 7].

Lemma sample_good : good sample_boot [] sample_machine.
Proof.
  assert (vm_inv sample_root) as Hr.
  { apply empty_vmem_ok; [apply new_no_user| |constructor]. exists 0. split; [done|]. rewrite frame_number_max. split; [lia|].
    vm_compute. reflexivity. }
  assert (forall i v, spaces sample_machine !! i = Some v -> v = sample_root) as Hs.
  { intros i v Hi. unfold sample_machine in Hi. cbn [spaces] in Hi. apply lookup_singleton_Some in Hi. by destruct Hi. }
  split.
  - intros i v Hi. by rewrite (Hs i v Hi).
  - unfold all_handles, sample_machine. cbn [spaces]. rewrite map_to_list_singleton. cbn [list_bind mbind app snd].
    unfold handles. rewrite (user_frames_none (mapping sample_root) (fun p => eq_refl)). apply Phys.accounted_start, sample_boot_inv.
  - done.
  - intros i v Hi p e _ He. rewrite (Hs i v Hi) in He. done.
  - intros i v Hi p e _ He. rewrite (Hs i v Hi) in He. done.
Qed.

Lemma sample_proper : proper_all sample_machine sample_events.
Proof. repeat split; vm_compute; (reflexivity || discriminate). Qed.

#[local] Opaque exec_all abs_all.


Lemma writable_frames_isolated_witness :
  let st := exec_all sample_events sample_machine in
  exists v e, spaces st !! 2 = Some v /\ mapping v USER_FIRST = Some e /\ pte_writable e = true /\
    forall j w q e', spaces st !! j = Some w -> user_page q -> mapping w q = Some e' -> pte_frame e' = pte_frame e ->
      2 = j /\ USER_FIRST = q.
Proof.
  intros st.
  assert ((v ← spaces st !! 2; e ← mapping v USER_FIRST; Some (pte_writable e)) = Some true) as E by (vm_compute; reflexivity).
  destruct (spaces st !! 2) as [v|] eqn:Hv; [|discriminate E]. cbn [mbind option_bind] in E.
  destruct (mapping v USER_FIRST) as [e|] eqn:He; [|discriminate E]. injection E as Hw.
  exists v, e. split; [reflexivity|]. split; [exact He|]. split; [exact Hw|].
  destruct (writable_frames_isolated sample_boot sample_boot_inv [] sample_machine sample_events 2 v USER_FIRST e
    sample_good sample_proper Hv ltac:(vm_compute; split; (reflexivity || discriminate)) He Hw) as [_ H].
  intros j w q e' Hj. exact (proj2 (H j w Hj) q e').
Defined.
