(* ===== verification/UserCopy.v ===== *)
(** * Copying between processes and the kernel

    [copy_from_user_unaligned], [copy_to_user_unaligned] and [copy_user_to_user] of
    [kernel/src/mm/virt/vmem.rs] with [vmcopy_from_user], [vmcopy_to_user] and
    [vmcopy_user_to_user] of [kernel/src/pm/process/manager/mod.rs].

    Each of them walks its range twice, page by page: the first pass looks for
    errors and the second one copies (the default build; the feature
    [nightly-performance-optimizations] leaves the first pass out).  Kernel
    addresses are physical addresses ([virt_to_phys] is the identity). *)

From stdpp Require Import gmap.
From S2P Require Import Prelude Error BitAlloc Bitmap Config Addr Paging Frame Phys KMem UserSpace AddrSpace.
From S2P Require Import Perm Mappings VmemSpec Cow NewVmem VirtManager PageAlloc UserMap Fork Spaces MemorySafety.
#[local] Open Scope Z_scope.

(** ** Operations *)

Definition is_kernel_addr (virt_addr : VirtualAddress) : bool := negb (is_user_addr virt_addr).

Definition is_kernel_region (start : VirtualAddress) (size : Z) : bool :=
  if size =? 0 then false
  else
    match checked_add (va_raw start) (size - 1) with
    | Some e => is_kernel_addr start && is_kernel_addr (mkVirtualAddress e)
    | None => false
    end.

(** [is_valid_physical_region] of [kernel/src/hal/platform/microvm/mod.rs]. *)
Definition is_physical_region {CF : Config} (start size : Z) : bool :=
  if size =? 0 then false
  else match checked_add start size with Some e => e <=? MEMORY_SIZE | None => false end.

Definition zero_length : Error := mkError InvalidArgument "zero-length copy".

Module UserCopy.

Section Definitions.
Context {CF : Config} {P : Type} {IM : IdentityMap P}.
Notation V := (Vmem.V (P:=P)).

(** The page of an address, and the offset in it. *)
Definition page_offset (a : Z) : res Error (PageAddress * Z) :=
  vaddr ← PageAligned_from_address (mkVirtualAddress (align_down a PAGE_ALIGNMENT));
  offset ← usize_sub a (into_raw_value vaddr);
  Ok (vaddr, offset).

(** The closure of [copy_from_user_unaligned]; [fuel] bounds the number of pages. *)
Fixpoint copy_from_user_impl (fuel : nat) (dry_run : bool) (src dst size : Z) : V unit :=
  if 0 <? size then
    match fuel with
    | O => panic
    | S fuel =>
      '(vaddr, offset) ← lift (page_offset src);
      avail ← lift (usize_sub PAGE_SIZE offset);
      let copy_size := Z.min size avail in
      v ← Vmem.on_vmem get;
      src_frame ← lift (Vmem.find_user_frame v vaddr);
      (if dry_run then mret tt
       else
         from ← lift (usize_add (FrameAddress_raw src_frame) offset);
         Vmem.on_mem (KMem.memcpy dst from copy_size));;
      src ← lift (usize_add src copy_size);
      dst ← lift (usize_add dst copy_size);
      copy_from_user_impl fuel dry_run src dst (size - copy_size)
    end
  else mret tt.

(** A range of [size] bytes meets at most this many pages. *)
Definition pages_of (size : Z) : nat := Z.to_nat (size / PAGE_SIZE + 2).

Definition copy_from_user_unaligned (dst src size : Z) : V unit :=
  if size =? 0 then fail zero_length
  else if negb (is_user_region (mkVirtualAddress src) size)
  then fail (mkError BadAddress "source memory region does not lie entirely in user space")
  else if negb (is_kernel_region (mkVirtualAddress dst) size)
  then fail (mkError BadAddress "destination region does not lie entirely in kernel space")
  else
    copy_from_user_impl (pages_of size) true src dst size;;
    copy_from_user_impl (pages_of size) false src dst size.

(** [while size > 0] of [copy_to_user_unaligned_unchecked]: errors are panics when it
    is not a dry run. *)
Fixpoint copy_to_user_loop (fuel : nat) (dry_run : bool) (dst src size : Z) : V unit :=
  if 0 <? size then
    match fuel with
    | O => panic
    | S fuel =>
      '(vaddr, offset) ← match page_offset dst with
                         | Ok r => mret r
                         | Err e => if dry_run then fail e else panic
                         | Panic => panic
                         end;
      avail ← lift (usize_sub PAGE_SIZE offset);
      let copy_size := Z.min avail size in
      if negb (is_physical_region src copy_size)
      then if dry_run then fail (mkError BadAddress "source memory region does not lie within physical memory")
           else panic
      else
        (if dry_run then mret tt
         else
           v ← Vmem.on_vmem get;
           match Vmem.find_user_frame v vaddr with
           | Ok dst_frame =>
             to ← lift (usize_add (FrameAddress_raw dst_frame) offset);
             if negb (is_physical_region to copy_size) then panic
             else catch (Vmem.on_mem (KMem.memcpy to src copy_size)) (fun _ => panic)
           | _ => panic
           end);;
        dst ← lift (usize_add dst copy_size);
        src ← lift (usize_add src copy_size);
        copy_to_user_loop fuel dry_run dst src (size - copy_size)
    end
  else mret tt.

Definition copy_to_user_unaligned_unchecked (dst src size : Z) (dry_run : bool) : V unit :=
  if size =? 0 then fail zero_length
  else if negb (is_kernel_region (mkVirtualAddress src) size)
  then fail (mkError BadAddress "source memory region does not lie entirely in kernel space")
  else if negb (is_user_region (mkVirtualAddress dst) size)
  then fail (mkError BadAddress "destination memory region does not lie entirely in user space")
  else
    (if dry_run then mret tt else Vmem.resolve_cow_for_region (mkVirtualAddress dst) size);;
    copy_to_user_loop (pages_of size) dry_run dst src size.

Definition copy_to_user_unaligned (dst src size : Z) : V unit :=
  copy_to_user_unaligned_unchecked dst src size true;;
  copy_to_user_unaligned_unchecked dst src size false.

(** The closure of [copy_user_to_user]: every round reaches the end of a page on one
    of the two sides. *)
Fixpoint copy_user_to_user_impl (fuel : nat) (src_vmem dst_vmem : Vmem) (dry_run : bool)
    (cur_src cur_dst remaining : Z) : M (MemState P) Error unit :=
  if 0 <? remaining then
    match fuel with
    | O => panic
    | S fuel =>
      '(src_page, src_offset) ← lift (page_offset cur_src);
      src_avail ← lift (usize_sub PAGE_SIZE src_offset);
      '(dst_page, dst_offset) ← lift (page_offset cur_dst);
      dst_avail ← lift (usize_sub PAGE_SIZE dst_offset);
      let copy_size := Z.min (Z.min remaining src_avail) dst_avail in
      src_frame ← lift (Vmem.find_user_frame src_vmem src_page);
      dst_frame ← lift (Vmem.find_user_frame dst_vmem dst_page);
      (if dry_run then mret tt
       else
         src_phys_addr ← lift (usize_add (FrameAddress_raw src_frame) src_offset);
         dst_phys_addr ← lift (usize_add (FrameAddress_raw dst_frame) dst_offset);
         KMem.memcpy dst_phys_addr src_phys_addr copy_size);;
      cur_src ← lift (usize_add cur_src copy_size);
      cur_dst ← lift (usize_add cur_dst copy_size);
      copy_user_to_user_impl fuel src_vmem dst_vmem dry_run cur_src cur_dst (remaining - copy_size)
    end
  else mret tt.

Definition copy_user_to_user (src_vmem : Vmem) (src : Z) (dst_vmem : Vmem) (dst size : Z)
    : M (MemState P) Error unit :=
  if size =? 0 then fail zero_length
  else if negb (is_user_region (mkVirtualAddress src) size)
  then fail (mkError BadAddress "source memory region does not lie entirely in user space")
  else if negb (is_user_region (mkVirtualAddress dst) size)
  then fail (mkError BadAddress "destination memory region does not lie entirely in user space")
  else
    let fuel := (pages_of size + pages_of size)%nat in
    copy_user_to_user_impl fuel src_vmem dst_vmem true src dst size;;
    copy_user_to_user_impl fuel src_vmem dst_vmem false src dst size.

(** ** The process manager *)

Definition vmcopy_from_user (pid dst src size : Z) : M (Machine P) Error unit :=
  on_space pid (copy_from_user_unaligned dst src size).

Definition vmcopy_to_user (pid dst src size : Z) : M (Machine P) Error unit :=
  on_space pid (copy_to_user_unaligned dst src size).

(** The copy of [vmcopy_user_to_user], once both processes are found. *)
Definition copy_between (src_pid src dst_pid dst size : Z) : M (Machine P) Error unit := fun st =>
  match spaces st !! src_pid, spaces st !! dst_pid with
  | Some src_vmem, Some dst_vmem =>
    let '(r, s) := copy_user_to_user src_vmem src dst_vmem dst size (mem st) in (r, mkMachine (spaces st) s)
  | _, _ => (Err no_process, st)
  end.

Definition vmcopy_user_to_user (src_pid src dst_pid dst size : Z) : M (Machine P) Error unit :=
  (if 0 <? size then on_space dst_pid (Vmem.resolve_cow_for_region (mkVirtualAddress dst) size) else mret tt);;
  copy_between src_pid src dst_pid dst size.

End Definitions.

End UserCopy.

(** ** Copying in memory *)

Section Proofs.
Context {CF : Config} {HC : ConfigOk} {UA : UserAbove} {P : Type} {IM : IdentityMap P} {PM : KMem.PreMapped P}.
Variable x0 : Inner Bitmap.
Hypothesis Hi0 : Frame.inv x0.
Implicit Types (st : Machine P) (v : Vmem) (s : MemState P).

Lemma ensure_pages_ok n (p : PhysState P) start i : 0 <= i -> 0 <= start -> start mod PAGE_SIZE = 0 ->
  (i < i + Z.of_nat n -> start + (i + Z.of_nat n - 1) * PAGE_SIZE < MEMORY_SIZE) ->
  wp (KMem.ensure_pages n start i) p (fun r p' => r = Ok tt /\ KMem.kept_phys p p').
Proof.
  pose proof user_above as Hu. revert p i. induction n as [|n IH]; intros p i Hi Hs Hm Hb; cbn [KMem.ensure_pages].
  { wstep. by split. }
  pages. do 2 wstep. rewrite usize_mul_ok by (pages; lia). do 2 wstep. rewrite usize_add_ok by (pages; lia). do 2 wstep.
  assert (from_raw_value (T:=PageAligned PhysicalAddress) (start + i * 4096) =
    Ok (mkPageAligned (mkPhysicalAddress (mkVirtualAddress (start + i * 4096))))) as ->.
  { simpl. unfold from_virtual_address, is_valid_physical_address. simpl. zbool; [|pages; lia]. simpl.
    apply page_aligned_ok; [done|]. simpl. change PAGE_SIZE with 4096. by rewrite Z.add_mod, Hm, Z.mod_mul. }
  wstep. unfold Phys.on_tables. wstep. apply wp_intro. intros r t E.
  pose proof (KMem.identity_map_ok (mkPageAligned (mkPhysicalAddress (mkVirtualAddress (start + i * 4096)))) (tables p)) as Hr.
  rewrite E in Hr. simpl in Hr. rewrite Hr by lia. eapply wp_mono; [apply IH; [lia|done|done|lia]|].
  intros r' p' [? ?]. split; [done|]. etrans; [|eassumption]. done.
Qed.

Lemma cover_ok addr size : 0 < size -> 0 <= addr -> addr + size <= MEMORY_SIZE ->
  exists r, KMem.page_aligned_cover (mkPhysicalAddress (mkVirtualAddress addr)) size = Ok r.
Proof.
  intros Hs Ha Hb. pose proof user_above as Hu. unfold KMem.page_aligned_cover. zbool; [|lia]. simpl. rewrite align_down_mod by (pages; lia).
  change (Alignment_value PAGE_ALIGNMENT) with PAGE_SIZE. pose proof (Z.mod_pos_bound addr PAGE_SIZE ltac:(done)) as Hm.
  pose proof (Z.mod_le addr PAGE_SIZE Ha ltac:(done)).
  unfold from_virtual_address, is_valid_physical_address. simpl. zbool; [|lia]. simpl.
  rewrite page_aligned_ok; [|done|by simpl; rewrite Zminus_mod, Z.mod_mod, Z.sub_diag]. simpl.
  unfold checked_add at 1. zbool; [|pages; lia]. unfold checked_next_multiple_of, checked_add.
  pose proof (Z.mod_pos_bound (addr + size) PAGE_SIZE ltac:(done)).
  assert (forall e, addr - addr mod PAGE_SIZE <= e <= usize_max -> exists r, (aligned_size ← usize_sub e (addr - addr mod PAGE_SIZE);
    Ok (mkPageAligned (mkPhysicalAddress (mkVirtualAddress (addr - addr mod PAGE_SIZE))), aligned_size)) = Ok (E:=Error) r) as Hend.
  { intros e He. rewrite usize_sub_ok by lia. by eexists. }
  destruct (Z.eqb_spec ((addr + size) mod PAGE_SIZE) 0); [apply Hend; pages; lia|]. zbool; [apply Hend; pages; lia|pages; lia].
Qed.

Lemma ensure_range_ok (p : PhysState P) addr size : 0 < size -> 0 <= addr -> addr + size <= MEMORY_SIZE ->
  wp (KMem.ensure_range addr size) p (fun r p' => r = Ok tt /\ KMem.kept_phys p p').
Proof.
  intros Hs Ha Hb. pose proof user_above as Hu. unfold KMem.ensure_range. do 2 wstep. simpl.
  unfold from_virtual_address, is_valid_physical_address. simpl. zbool; [|lia]. simpl. do 2 wstep.
  pose proof (KMem.cover_spec addr size Hs ltac:(pages; lia)) as Hc. destruct (cover_ok addr size Hs Ha Hb) as [[start n] E].
  rewrite E in *. destruct Hc as (Hm & Hst & Hend & Hal & Hlo & Hhi). unfold KMem.ensure_identity_mapped_range. rewrite Hm. simpl.
  destruct (Z.eqb_spec n 0) as [->|]; [wstep; by split|].
  pose proof (Z.div_mod n PAGE_SIZE ltac:(done)). simpl in Hst, Hend, Hal, Hlo, Hhi.
  apply ensure_pages_ok; [lia|apply Hst|exact Hal|]. simpl. rewrite Z2Nat.id by (apply Z.div_pos; pages; lia). pages. lia.
Qed.

(** A copy between ranges of memory that do not overlap succeeds. *)
Lemma memcpy_ok s dst src size (Q : res Error unit → MemState P → Prop) : 0 < size ->
  0 <= dst -> dst + size <= MEMORY_SIZE -> 0 <= src -> src + size <= MEMORY_SIZE -> KMem.disjoint dst src size ->
  (forall s', KMem.kept s s' -> memory s' = copy_bytes dst src size (memory s) -> Q (Ok tt) s') ->
  wp (KMem.memcpy dst src size) s Q.
Proof.
  intros Hs Hd Hdm Hr Hrm Hdis HQ. pose proof user_above as Hu. unfold KMem.memcpy, checked_add.
  destruct (Z.eqb_spec size 0); [lia|]. rewrite !(proj2 (Z.leb_le _ usize_max)) by (pages; lia).
  destruct ((dst <=? src) && (src <? dst + size) || (src <=? dst) && (dst <? src + size)) eqn:Ho.
  { exfalso. unfold KMem.disjoint in Hdis. apply orb_true_iff in Ho. rewrite !andb_true_iff in Ho. lia. }
  wstep. apply wp_on_phys. eapply wp_mono; [by apply ensure_range_ok|]. intros r p' [-> Hk].
  wstep. apply wp_on_phys. eapply wp_mono; [by apply ensure_range_ok|]. intros r p'' [-> Hk'].
  unfold KMem.on_memory. wstep. apply HQ; [|done]. unfold KMem.kept. simpl in *. by etrans.
Qed.

(** ** Copying chunk by chunk *)

(** The bytes [k..n] have gone from the addresses [S i] to the addresses [D i]. *)
Definition moved (D S : Z → Z) (k n : Z) (m m' : Z → Z) : Prop :=
  (forall i, k <= i < n -> m' (D i) = m (S i)) /\
  forall b, (forall i, k <= i < n -> b <> D i) -> m' b = m b.

(** Addresses that follow each other. *)
Definition straight (f : Z → Z) (k c : Z) : Prop := forall i, 0 <= i < c -> f (k + i) = f k + i.

(** No byte goes to the place of another one, or to a place that is read. *)
Definition apart (D S : Z → Z) (n : Z) : Prop :=
  (forall i j, 0 <= i < n -> 0 <= j < n -> D i = D j -> i = j) /\
  forall i j, 0 <= i < n -> 0 <= j < n -> D i <> S j.

Lemma moved_nil D S n m : moved D S n n m m.
Proof. split; [lia|done]. Qed.

Lemma moved_step D S k c n m m' : 0 <= k -> 0 <= c -> k + c <= n -> apart D S n -> straight D k c -> straight S k c ->
  moved D S (k + c) n (copy_bytes (D k) (S k) c m) m' -> moved D S k n m m'.
Proof.
  intros Hk Hc Hn [Hinj Hds] HD HS [H1 H2]. split.
  - intros i Hi. destruct (decide (i < k + c)) as [Hlt|Hge].
    + rewrite H2 by (intros j Hj E; apply Hinj in E; lia). pose proof (HD (i - k) ltac:(lia)) as E. pose proof (HS (i - k) ltac:(lia)) as E'.
      replace (k + (i - k)) with i in * by lia. unfold copy_bytes. destruct (_ && _) eqn:Eb; [f_equal; lia|lia].
    + rewrite H1 by lia. apply copy_outside. intros Hin. apply (Hds (k + (S i - D k)) i); [lia|lia|]. rewrite HD; lia.
  - intros b' Hb. rewrite H2 by (intros i Hi; apply Hb; lia). apply copy_outside. intros Hin.
    apply (Hb (k + (b' - D k))); [lia|]. rewrite HD; lia.
Qed.

Lemma straight_disjoint D S k c n : 0 <= k -> 0 < c -> k + c <= n -> apart D S n -> straight D k c -> straight S k c ->
  KMem.disjoint (D k) (S k) c.
Proof.
  intros Hk Hc Hn [_ Hds] HD HS. unfold KMem.disjoint. destruct (decide (D k + c <= S k)); [by left|].
  destruct (decide (S k + c <= D k)); [by right|exfalso]. destruct (decide (D k <= S k)).
  - apply (Hds (k + (S k - D k)) k); [lia|lia|]. rewrite HD; lia.
  - apply (Hds k (k + (D k - S k))); [lia|lia|]. rewrite HS; lia.
Qed.

(** The physical address behind an address of a process. *)
Definition phys_of v (a : Z) : Z :=
  match mapping v (a / PAGE_SIZE) with
  | Some e => fn_raw (pte_frame e) * FRAME_SIZE + a mod PAGE_SIZE
  | None => -1
  end.

(** Pages of memory. *)
Definition fits v (a size : Z) : Prop := forall b, a <= b < a + size ->
  exists e, mapping v (b / PAGE_SIZE) = Some e /\ numbered (pte_frame e) /\
    (fn_raw (pte_frame e) + 1) * FRAME_SIZE <= MEMORY_SIZE.

Lemma page_offset_ok a : 0 <= a <= usize_max ->
  UserCopy.page_offset a = Ok (page_at (a / PAGE_SIZE), a mod PAGE_SIZE).
Proof.
  intros Ha. unfold UserCopy.page_offset. rewrite align_down_page by done. pose proof (Z.div_mod a PAGE_SIZE ltac:(done)).
  pose proof (Z.mod_pos_bound a PAGE_SIZE ltac:(done)). pose proof (Z.div_pos a PAGE_SIZE ltac:(lia) ltac:(done)).
  destruct (page_raw (a / PAGE_SIZE)) as [E _]; [done|]. simpl in E. rewrite E. cbn [mbind res_bind].
  change (into_raw_value (page_at (a / PAGE_SIZE))) with (a / PAGE_SIZE * PAGE_SIZE). rewrite usize_sub_ok by lia.
  simpl. do 2 f_equal. lia.
Qed.

(** A chunk that stays in its page. *)
Lemma phys_straight v a k c : 0 <= a + k -> (a + k) mod PAGE_SIZE + c <= PAGE_SIZE -> mapping v ((a + k) / PAGE_SIZE) <> None ->
  straight (fun i => phys_of v (a + i)) k c.
Proof.
  intros Ha Hc Hm i Hi. replace (a + (k + i)) with (a + k + i) by lia. set (b := a + k) in *.
  pose proof (Z.div_mod b PAGE_SIZE ltac:(done)) as E. pose proof (Z.mod_pos_bound b PAGE_SIZE ltac:(done)).
  assert ((b + i) / PAGE_SIZE = b / PAGE_SIZE) as Ed by (symmetry; apply (Z.div_unique _ _ _ (b mod PAGE_SIZE + i)); lia).
  assert ((b + i) mod PAGE_SIZE = b mod PAGE_SIZE + i) as Em by (symmetry; apply (Z.mod_unique _ _ (b / PAGE_SIZE)); lia).
  unfold phys_of. rewrite Ed, Em. destruct (mapping v (b / PAGE_SIZE)); [lia|done].
Qed.

(** The next chunk of a range of a process. *)
Lemma chunk v a n k : fits v a n -> USER_BASE_RAW <= a -> a + n <= USER_END_RAW -> 0 <= k < n -> vm_ok v ->
  let x := a + k in
  exists e, mapping v (x / PAGE_SIZE) = Some e /\ UserCopy.page_offset x = Ok (page_at (x / PAGE_SIZE), x mod PAGE_SIZE) /\
    Vmem.find_user_frame v (page_at (x / PAGE_SIZE)) = Ok (handle e) /\
    usize_add (FrameAddress_raw (handle e)) (x mod PAGE_SIZE) = Ok (E:=Error) (phys_of v x) /\
    0 <= x mod PAGE_SIZE < PAGE_SIZE /\ 0 <= phys_of v x /\ phys_of v x - x mod PAGE_SIZE + PAGE_SIZE <= MEMORY_SIZE.
Proof.
  intros Hf Hlo Hhi Hk Hok x. destruct (Hf x ltac:(unfold x; lia)) as (e & He & [Hn Hmax] & Hfit). exists e. splits; [done| | | | | | |].
  - apply page_offset_ok. unfold x. pages. lia.
  - pose proof (find_frame v (page_at (x / PAGE_SIZE)) Hok) as H. destruct (page_raw (x / PAGE_SIZE)) as [_ Hpo].
    { apply Z.div_pos; [unfold x; pages; lia|done]. }
    rewrite Hpo, He in H. apply H. unfold in_word. simpl. pose proof (Z.div_mod x PAGE_SIZE ltac:(done)).
    pose proof (Z.mod_pos_bound x PAGE_SIZE ltac:(done)). unfold x in *. pages. lia.
  - unfold handle, phys_of. rewrite He, KMem.frame_raw. pose proof (Z.mod_pos_bound x PAGE_SIZE ltac:(done)).
    pose proof user_above. rewrite usize_add_ok; [done|]. pages. lia.
  - apply Z.mod_pos_bound; done.
  - apply Z.mod_pos_bound; done.
  - unfold phys_of. rewrite He. pose proof (Z.mod_pos_bound x PAGE_SIZE ltac:(done)). pages. lia.
  - unfold phys_of. rewrite He. pages. lia.
Qed.

Lemma chunk_left a n k c fuel : 0 <= a -> 0 <= k < n -> c = Z.min (PAGE_SIZE - (a + k) mod PAGE_SIZE) (n - k) ->
  (a + k) mod PAGE_SIZE + (n - k) <= Z.of_nat (S fuel) * PAGE_SIZE ->
  0 < c /\ k + c <= n /\ (a + k) mod PAGE_SIZE + c <= PAGE_SIZE /\
  (k + c < n -> (a + (k + c)) mod PAGE_SIZE + (n - (k + c)) <= Z.of_nat fuel * PAGE_SIZE).
Proof.
  intros Ha Hk -> Hf. set (x := a + k) in *. pose proof (Z.mod_pos_bound x PAGE_SIZE ltac:(done)) as Hm.
  splits; [pages; lia|lia|lia|]. intros Hlt. replace (Z.min (PAGE_SIZE - x mod PAGE_SIZE) (n - k)) with (PAGE_SIZE - x mod PAGE_SIZE) in * by lia.
  replace (a + (k + (PAGE_SIZE - x mod PAGE_SIZE))) with ((x / PAGE_SIZE + 1) * PAGE_SIZE)
    by (pose proof (Z.div_mod x PAGE_SIZE ltac:(done)); unfold x in *; lia).
  rewrite Z.mod_mul by done. pages. lia.
Qed.

Lemma wp_copy_to fuel v s dst src n k (Q : res Error unit → Vmem * MemState P → Prop) :
  let D := fun i => phys_of v (dst + i) in let S := fun i => src + i in
  vm_ok v -> 0 <= k <= n -> USER_BASE_RAW <= dst -> dst + n <= USER_END_RAW -> 0 <= src -> src + n <= MEMORY_SIZE ->
  fits v dst n -> apart D S n -> (k < n -> (dst + k) mod PAGE_SIZE + (n - k) <= Z.of_nat fuel * PAGE_SIZE) ->
  (forall s', KMem.kept s s' -> moved D S k n (memory s) (memory s') -> Q (Ok tt) (v, s')) ->
  wp (UserCopy.copy_to_user_loop fuel false (dst + k) (src + k) (n - k)) (v, s) Q.
Proof.
  intros D S Hok Hk Hlo Hhi Hs0 Hs1 Hf Hap. revert k s Hk. induction fuel as [|fuel IH]; intros k s Hk Hfu HQ; cbn [UserCopy.copy_to_user_loop].
  { rewrite (proj2 (Z.ltb_ge _ _)); [wstep; apply HQ; [done|]; replace k with n; [apply moved_nil|]|];
      (destruct (decide (k < n)); [|lia]); pose proof (Z.mod_pos_bound (dst + k) PAGE_SIZE ltac:(done)); lia. }
  destruct (Z.ltb_spec 0 (n - k)) as [Hpos|Hz].
  2: { wstep. apply HQ; [done|]. replace k with n by lia. apply moved_nil. }
  destruct (chunk v dst n k Hf Hlo Hhi ltac:(lia) Hok) as (e & He & -> & Hfr & Hadd & Hoff & Hd0 & Hd1).
  set (c := Z.min (PAGE_SIZE - (dst + k) mod PAGE_SIZE) (n - k)).
  destruct (chunk_left dst n k c fuel ltac:(pages; lia) ltac:(lia) eq_refl (Hfu ltac:(lia))) as (Hc & Hkc & Hpg & Hrest).
  pose proof user_above as Hua. do 4 wstep. rewrite usize_sub_ok by (pages; lia). fold c.
  assert (is_physical_region (src + k) c = true) as ->.
  { unfold is_physical_region, checked_add. destruct (Z.eqb_spec c 0); [lia|]. rewrite !(proj2 (Z.leb_le _ _)); pages; lia. }
  cbn [negb]. do 2 wstep. apply wp_on_vmem. wstep. rewrite Hfr. do 2 wstep. rewrite Hadd.
  assert (is_physical_region (phys_of v (dst + k)) c = true) as ->.
  { unfold is_physical_region, checked_add. destruct (Z.eqb_spec c 0); [lia|]. rewrite !(proj2 (Z.leb_le _ _)); pages; lia. }
  cbn [negb]. assert (straight D k c) as HD by (apply phys_straight; [pages; lia|done|by rewrite He]).
  assert (straight S k c) as HS by (intros i Hi; unfold S; lia).
  wstep. apply wp_on_mem. apply memcpy_ok; [lia|done|lia|lia|lia| |].
  { by apply (straight_disjoint D S k c n); [lia|lia|lia|..]. }
  intros s1 Hk1 Hm1. do 2 wstep. rewrite usize_add_ok by (pages; lia). do 2 wstep. rewrite usize_add_ok by (pages; lia).
  replace (n - k - c) with (n - (k + c)) by lia. rewrite <- !Z.add_assoc. apply IH; [lia|done|].
  intros s' Hk' Hmv. apply HQ; [by etrans|]. rewrite Hm1 in Hmv. by eapply (moved_step D S k c n); [lia|lia|lia|..].
Qed.

Lemma copy_to_start fuel dry dst src n : UserCopy.copy_to_user_loop fuel dry dst src n =
  UserCopy.copy_to_user_loop (P:=P) fuel dry (dst + 0) (src + 0) (n - 0).
Proof. by rewrite !Z.add_0_r, Z.sub_0_r. Qed.

Lemma fuel_enough a n : 0 < n -> a mod PAGE_SIZE + (n - 0) <= Z.of_nat (UserCopy.pages_of n) * PAGE_SIZE.
Proof.
  intros Hn. unfold UserCopy.pages_of. pose proof (Z.mod_pos_bound a PAGE_SIZE ltac:(done)). pose proof (Z.div_mod n PAGE_SIZE ltac:(done)).
  pose proof (Z.mod_pos_bound n PAGE_SIZE ltac:(done)). pose proof (Z.div_pos n PAGE_SIZE ltac:(lia) ltac:(done)).
  rewrite Z2Nat.id by lia. pages. lia.
Qed.

(** The first pass looks at the source only. *)
Lemma wp_copy_to_dry fuel v s dst src n k (Q : res Error unit → Vmem * MemState P → Prop) :
  0 <= k <= n -> 0 < n -> USER_BASE_RAW <= dst -> dst + n <= USER_END_RAW -> 0 <= src ->
  (0 < k -> src + k <= MEMORY_SIZE) -> (k < n -> (dst + k) mod PAGE_SIZE + (n - k) <= Z.of_nat fuel * PAGE_SIZE) ->
  (src + n <= MEMORY_SIZE -> Q (Ok tt) (v, s)) -> (forall e, MEMORY_SIZE < src + n -> Q (Err e) (v, s)) ->
  wp (UserCopy.copy_to_user_loop fuel true (dst + k) (src + k) (n - k)) (v, s) Q.
Proof.
  intros Hk Hn Hlo Hhi Hs0. revert k Hk. induction fuel as [|fuel IH]; intros k Hk Hsk Hfu H1 H2; cbn [UserCopy.copy_to_user_loop].
  { rewrite (proj2 (Z.ltb_ge _ _)); [wstep; apply H1; replace n with k; [apply Hsk|]|];
      (destruct (decide (k < n)); [|lia]); pose proof (Z.mod_pos_bound (dst + k) PAGE_SIZE ltac:(done)); lia. }
  destruct (Z.ltb_spec 0 (n - k)) as [Hpos|Hz].
  2: { wstep. apply H1. replace n with k by lia. apply Hsk. lia. }
  set (c := Z.min (PAGE_SIZE - (dst + k) mod PAGE_SIZE) (n - k)).
  destruct (chunk_left dst n k c fuel ltac:(pages; lia) ltac:(lia) eq_refl (Hfu ltac:(lia))) as (Hc & Hkc & Hpg & Hrest).
  pose proof user_above as Hua. rewrite page_offset_ok by (pages; lia). pose proof (Z.mod_pos_bound (dst + k) PAGE_SIZE ltac:(done)).
  do 4 wstep. rewrite usize_sub_ok by (pages; lia). fold c.
  unfold is_physical_region, checked_add. destruct (Z.eqb_spec c 0); [lia|].
  destruct (Z.leb_spec (src + k + c) usize_max); [|cbn [negb]; wstep; apply H2; pages; lia].
  destruct (Z.leb_spec (src + k + c) MEMORY_SIZE); cbn [negb]; [|wstep; apply H2; lia].
  do 4 wstep. rewrite usize_add_ok by (pages; lia). do 2 wstep. rewrite usize_add_ok by (pages; lia).
  replace (n - k - c) with (n - (k + c)) by lia. rewrite <- !Z.add_assoc in *. apply IH; [lia|done|done|done|done].
Qed.

(** ** Resolving copy-on-write in a range *)

(** A page that can be written, perhaps after a page fault. *)
Definition may_write (e : PageTableEntry) : bool := pte_writable e || PageTableEntry.is_cow e.

Definition sees_same st st' : Prop := agree (peek st') (peek st).

Lemma settling_meets K st pid v p q v' s' : good x0 K st -> spaces st !! pid = Some v ->
  settling x0 (all_handles (delete pid (spaces st)) ++ K) v (mem st) p q v' s' ->
  good x0 K (mkMachine (<[pid := v']> (spaces st)) s') /\ sees_same st (mkMachine (<[pid := v']> (spaces st)) s').
Proof.
  intros H Hv [Hs Hsh Hvec Hm Hl Hin Hout].
  assert (forall r, user_page r -> mapping v' r = mapping v r \/ exists e e', mapping v r = Some e /\ mapping v' r = Some e' /\
    resolved (memory (mem st)) (memory s') e e' /\ owners s' e' = 1) as Hcase.
  { intros r Hr. destruct (decide (p <= r <= q)) as [Hrg|Hrg]; [|left; by apply Hout]. specialize (Hin r Hr Hrg). unfold settled in Hin.
    destruct (mapping v r) as [e|]; [|by left]. destruct (PageTableEntry.is_cow e); [right|by left].
    destruct Hin as (e' & He' & Hre & Ho). by exists e, e'. }
  assert (exclusive s' v') as Hex.
  { intros r e Hr He Hw. destruct (Hcase r Hr) as [Hsame|(e1 & e' & _ & He' & _ & Ho)]; [|congruence].
    eapply excl_kept; [done|by apply (gd_excl _ _ _ H pid)|by apply lighter_calm|by apply (gd_spaces _ _ _ H pid)|done|done| |done|done].
    congruence. }
  assert (unbooked x0 v') as Hub.
  { intros r e Hr He. destruct (Hcase r Hr) as [Hsame|(e1 & e' & _ & He' & _ & Ho)].
    - apply (gd_user _ _ _ H pid v Hv r); [done|]. by rewrite <- Hsame.
    - rewrite He' in He. injection He as <-. by eapply (owned_unbooked x0 Hi0 _ v' s'). }
  split; [eapply good_update; [done..|by rewrite Hvec; apply H|by apply lighter_calm|done|done]|].
  intros i r off Hr Ho. destruct (decide (i = pid)) as [->|Hne].
  - unfold peek at 1. simpl. rewrite lookup_insert_eq. simpl. destruct (Hcase r Hr) as [Hsame|(e & e' & He & He' & [_ Hby] & _)].
    + rewrite Hsame. unfold peek. rewrite Hv. simpl. destruct (mapping v r) as [e|] eqn:He; [|done]. simpl. f_equal.
      eapply kept_bytes; [done|eapply (good_sound _ _ _ _ _ H Hv)|done|done|done|done].
    + rewrite He'. rewrite (peek_mapped _ _ _ _ _ _ Hv He). simpl. f_equal. by apply Hby.
  - eapply peek_same; [done|done| | |done|done].
    + unfold entry_of. by rewrite lookup_insert_ne.
    + eapply mem_same_perm; [|exact Hm]. by rewrite (all_handles_split _ _ _ Hv), <- app_assoc.
Qed.

(** The pages of the range [p..q] that a process can write. *)
Definition writable_in v (p q : Z) : Prop := forall r, p <= r <= q -> exists e, mapping v r = Some e /\ pte_writable e = true.

Lemma wp_resolved K st pid v dst size (Q : res Error unit → Vmem * MemState P → Prop) : good x0 K st ->
  spaces st !! pid = Some v -> 0 < size -> USER_BASE_RAW <= dst -> dst + size <= USER_END_RAW ->
  (forall r e, dst / PAGE_SIZE <= r <= (dst + size - 1) / PAGE_SIZE -> mapping v r = Some e -> may_write e = true) ->
  (forall v' s', let st' := mkMachine (<[pid := v']> (spaces st)) s' in good x0 K st' -> sees_same st st' ->
     mem_same x0 [] (memory (mem st)) (memory s') ->
     (forall r, dst / PAGE_SIZE <= r <= (dst + size - 1) / PAGE_SIZE ->
        match mapping v r with
        | Some _ => exists e, mapping v' r = Some e /\ pte_writable e = true
        | None => mapping v' r = None
        end) -> Q (Ok tt) (v', s')) ->
  (forall e v' s', let st' := mkMachine (<[pid := v']> (spaces st)) s' in good x0 K st' -> sees_same st st' -> Q (Err e) (v', s')) ->
  wp (Vmem.resolve_cow_for_region (mkVirtualAddress dst) size) (v, mem st) Q.
Proof.
  intros H Hv Hsz Hlo Hhi Hw H1 H2. pose proof (good_sound _ _ _ _ _ H Hv) as Hs.
  eapply (wp_resolve_region x0 Hi0); [exact Hs|done|simpl; pages; lia|simpl; pages; lia| |]; simpl.
  - intros v' s' Hst. destruct (settling_meets _ _ _ _ _ _ _ _ H Hv Hst) as [Hg Hpk]. apply H1; [done|done| |].
    + eapply mem_same_sub; [|apply Hst]. apply submseteq_nil_l.
    + intros r Hr. assert (user_page r) as Hu.
      { pose proof (Z.div_mod dst PAGE_SIZE ltac:(done)). pose proof (Z.mod_pos_bound dst PAGE_SIZE ltac:(done)).
        pose proof (Z.div_mod (dst + size - 1) PAGE_SIZE ltac:(done)). pose proof (Z.mod_pos_bound (dst + size - 1) PAGE_SIZE ltac:(done)).
        pages. lia. }
      pose proof (st_in _ _ _ _ _ _ _ _ Hst r Hu Hr) as Hset. unfold settled in Hset.
      destruct (mapping v r) as [e|] eqn:He; [|done]. pose proof (Hw r e Hr He) as Hmw. unfold may_write in Hmw.
      destruct (PageTableEntry.is_cow e); [|exists e; split; [done|by rewrite orb_false_r in Hmw]].
      destruct Hset as (e' & -> & [Hfl _] & _). exists e'. split; [done|]. unfold pte_writable. rewrite Hfl. by destruct e as [[] ?].
  - intros err k v' s' _ Hst. destruct (settling_meets _ _ _ _ _ _ _ _ H Hv Hst). by apply H2.
Qed.

(** ** What the processes see of a copy *)

Lemma good_fits K st pid v a n : good x0 K st -> spaces st !! pid = Some v -> USER_BASE_RAW <= a -> a + n <= USER_END_RAW ->
  (forall b, a <= b < a + n -> is_Some (mapping v (b / PAGE_SIZE))) -> fits v a n.
Proof.
  intros H Hv Hlo Hhi Hm b Hb. destruct (Hm b Hb) as [e He]. exists e. split; [done|].
  assert (user_page (b / PAGE_SIZE)) as Hu.
  { pose proof (Z.div_mod b PAGE_SIZE ltac:(done)). pose proof (Z.mod_pos_bound b PAGE_SIZE ltac:(done)). pages. lia. }
  pose proof (good_sound _ _ _ _ _ H Hv) as Hs. destruct (mapped_owned _ _ _ _ _ _ Hs Hu He) as (Hn & _ & Hin).
  split; [done|]. pose proof (held_rc x0 Hi0 _ _ _ (proj2 Hs) (proj1 Hn) Hin) as Hrc.
  destruct (decide (Frame.NFRAMES <= fn_raw (pte_frame e))) as [Hge|Hlt].
  { rewrite Frame.rc_out in Hrc; [lia|apply Hs|done]. }
  unfold Frame.NFRAMES in Hlt. pose proof (Z.div_mod MEMORY_SIZE FRAME_SIZE ltac:(done)).
  pose proof (Z.mod_pos_bound MEMORY_SIZE FRAME_SIZE ltac:(done)). pages. lia.
Qed.

Lemma phys_of_inv v a b : 0 <= b -> phys_of v a = b -> exists e, mapping v (a / PAGE_SIZE) = Some e /\
  (0 <= fn_raw (pte_frame e) -> fn_raw (pte_frame e) = b / FRAME_SIZE /\ a mod PAGE_SIZE = b mod FRAME_SIZE).
Proof.
  intros Hb. unfold phys_of. destruct (mapping v (a / PAGE_SIZE)) as [e|]; [|lia]. intros <-. exists e. split; [done|]. intros Hn.
  pose proof (Z.mod_pos_bound a PAGE_SIZE ltac:(done)). change FRAME_SIZE with PAGE_SIZE.
  split; [apply (Z.div_unique _ _ _ (a mod PAGE_SIZE)); pages; lia|apply (Z.mod_unique _ _ (fn_raw (pte_frame e))); pages; lia].
Qed.

Section Written.
Variables (K : list FrameAddress) (st : Machine P) (pid : Z) (v : Vmem) (dst n : Z).
Hypothesis Hg : good x0 K st.
Hypothesis Hv : spaces st !! pid = Some v.
Hypothesis Hlo : USER_BASE_RAW <= dst.
Hypothesis Hhi : dst + n <= USER_END_RAW.
Hypothesis Hw : writable_in v (dst / PAGE_SIZE) ((dst + n - 1) / PAGE_SIZE).
Let D := fun i => phys_of v (dst + i).

(** A byte of a page of some process that lies where a byte of the range goes. *)
Lemma written_alone i j w q e off : 0 <= i < n -> spaces st !! j = Some w -> user_page q -> mapping w q = Some e ->
  0 <= off < PAGE_SIZE -> D i = fn_raw (pte_frame e) * FRAME_SIZE + off -> j = pid /\ q * PAGE_SIZE + off = dst + i.
Proof.
  intros Hi Hj Hq He Ho E. unfold D in E.
  assert (dst / PAGE_SIZE <= (dst + i) / PAGE_SIZE <= (dst + n - 1) / PAGE_SIZE) as Hr by (split; apply Z.div_le_mono; (done || lia)).
  destruct (Hw _ Hr) as (e0 & He0 & Hwr). pose proof (Z.div_mod (dst + i) PAGE_SIZE ltac:(done)) as Ed.
  pose proof (Z.mod_pos_bound (dst + i) PAGE_SIZE ltac:(done)) as Hm.
  unfold phys_of in E. rewrite He0 in E.
  assert (fn_raw (pte_frame e) = fn_raw (pte_frame e0) /\ off = (dst + i) mod PAGE_SIZE) as [Ef Eo] by (change FRAME_SIZE with PAGE_SIZE in E; pages; lia).
  assert (user_page ((dst + i) / PAGE_SIZE)) as Hu by (pages; lia).
  destruct (writable_alone x0 Hi0 K st pid v _ e0 j w q e Hg Hv Hu He0 Hwr Hj Hq He Ef) as [-> <-]. split; [done|]. lia.
Qed.

Lemma written_fits : fits v dst n.
Proof.
  apply (good_fits K st pid); [done..|]. intros b Hb. destruct (Hw (b / PAGE_SIZE)) as (e & -> & _); [|done].
  split; apply Z.div_le_mono; (done || lia).
Qed.

Lemma written_range i : 0 <= i < n -> exists e, mapping v ((dst + i) / PAGE_SIZE) = Some e /\ user_page ((dst + i) / PAGE_SIZE) /\
  0 <= fn_raw (pte_frame e) /\ D i = fn_raw (pte_frame e) * FRAME_SIZE + (dst + i) mod PAGE_SIZE /\ pte_writable e = true.
Proof.
  intros Hi. assert (dst / PAGE_SIZE <= (dst + i) / PAGE_SIZE <= (dst + n - 1) / PAGE_SIZE) as Hr by (split; apply Z.div_le_mono; (done || lia)).
  destruct (Hw _ Hr) as (e & He & Hwr). exists e. split; [done|].
  pose proof (Z.div_mod (dst + i) PAGE_SIZE ltac:(done)). pose proof (Z.mod_pos_bound (dst + i) PAGE_SIZE ltac:(done)).
  split; [pages; lia|]. split; [|split; [unfold D, phys_of; by rewrite He|done]].
  eapply mapping_numbered; [|exact He]. by apply (gd_spaces _ _ _ Hg pid).
Qed.

Lemma written_inj i j : 0 <= i < n -> 0 <= j < n -> D i = D j -> i = j.
Proof.
  intros Hi Hj E. destruct (written_range j Hj) as (e & He & Hu & _ & Ej & _). rewrite Ej in E.
  destruct (written_alone i pid v _ e ((dst + j) mod PAGE_SIZE) Hi Hv Hu He) as [_ Ea]; [by apply Z.mod_pos_bound|done|].
  pose proof (Z.div_mod (dst + j) PAGE_SIZE ltac:(done)). lia.
Qed.

(** Only the bytes of the range change, for every process. *)
Lemma written_peek S s' : KMem.kept (mem st) s' -> moved D S 0 n (memory (mem st)) (memory s') ->
  let st' := mkMachine (<[pid := v]> (spaces st)) s' in
  good x0 K st' /\ forall i p off, user_page p -> 0 <= off < PAGE_SIZE ->
    peek st' i p off = let k := p * PAGE_SIZE + off - dst in
      if (i =? pid) && (0 <=? k) && (k <? n) then Some (memory (mem st) (S k)) else peek st i p off.
Proof.
  intros [Hf Hvec] [Hin Hout] st'. unfold st'. rewrite insert_id by done. split.
  { destruct Hg as [Hok Ha Hv0 He Hub]. split; simpl; [done|by rewrite Hf|by rewrite Hvec| |done]. intros j w Hj p e Hp He' Hwr. unfold owners.
    rewrite Hf. by eapply (He j). }
  intros i p off Hp Ho. cbv zeta. set (k := p * PAGE_SIZE + off - dst).
  destruct (decide (i = pid /\ 0 <= k < n)) as [[-> Hk]|Hnot].
  - rewrite Z.eqb_refl, (proj2 (Z.leb_le 0 k)), (proj2 (Z.ltb_lt k n)) by lia. simpl. unfold peek. simpl. rewrite Hv. simpl.
    destruct (written_range k Hk) as (e & He & _ & _ & Ek & _). replace (dst + k) with (p * PAGE_SIZE + off) in * by (unfold k; lia).
    rewrite Z.div_add_l, Z.div_small, Z.add_0_r in He by (done || pages; lia). rewrite He. simpl. f_equal. unfold page_byte.
    assert ((p * PAGE_SIZE + off) mod PAGE_SIZE = off) as Em by (rewrite Z.add_comm, Z.mod_add, Z.mod_small; (done || pages; lia)).
    by rewrite <- (Hin k Hk), Ek, Em.
  - replace ((i =? pid) && (0 <=? k) && (k <? n)) with false.
    2: { symmetry. apply not_true_iff_false. rewrite !andb_true_iff, Z.eqb_eq, Z.leb_le, Z.ltb_lt. intros [[? ?] ?]. by apply Hnot. }
    unfold peek. simpl. destruct (spaces st !! i) as [w|] eqn:Hi; [|done]. simpl. destruct (mapping w p) as [e|] eqn:He; [|done].
    simpl. f_equal. unfold page_byte. apply Hout. intros j Hj E. apply Hnot.
    destruct (written_alone j i w p e off Hj Hi Hp He Ho) as [-> Ea]; [by rewrite <- E|]. split; [done|]. unfold k. lia.
Qed.

End Written.

(** ** Copying to a process *)

(** Memory of the kernel: set aside at boot. *)
Definition kernel_range (a size : Z) : Prop := forall b, a <= b < a + size -> 0 <= b /\ 1 <= Frame.rc x0 (b / FRAME_SIZE).

Lemma kernel_apart K st pid v dst n src : good x0 K st -> spaces st !! pid = Some v -> USER_BASE_RAW <= dst -> dst + n <= USER_END_RAW ->
  writable_in v (dst / PAGE_SIZE) ((dst + n - 1) / PAGE_SIZE) -> kernel_range src n ->
  apart (fun i => phys_of v (dst + i)) (fun i => src + i) n.
Proof.
  intros Hg Hv Hlo Hhi Hw Hk. split; [intros i j; by apply (written_inj K st pid v dst n)|]. intros i j Hi Hj E.
  destruct (written_range K st pid v dst n Hg Hv Hlo Hhi Hw i Hi) as (e & He & Hu & Hn & Ei & Hwr). rewrite Ei in E.
  destruct (Hk (src + j) ltac:(lia)) as [H0 H1]. rewrite <- E in H1. rewrite (in_frame _ (fn_raw (pte_frame e))) in H1.
  2: { pose proof (Z.mod_pos_bound (dst + i) PAGE_SIZE ltac:(done)). lia. }
  pose proof (gd_user _ _ _ Hg pid v Hv _ e Hu He). lia.
Qed.

(** C9: Copying to a process.  The kernel writes [size] bytes of its memory to the
    address [dst] of process [pid], whose pages there are writable or copy-on-write.
    The request never panics.  When it succeeds the process finds the bytes there, and
    nothing else has changed for this process or for any other one, also for those that
    shared pages with it; when it fails no process sees a change. *)
Theorem vmcopy_to_user_spec K st pid v dst src size : good x0 K st -> spaces st !! pid = Some v ->
  0 <= src -> 0 <= dst -> 0 <= size -> kernel_range src size ->
  (forall r, dst / PAGE_SIZE <= r <= (dst + size - 1) / PAGE_SIZE -> exists e, mapping v r = Some e /\ may_write e = true) ->
  wp (UserCopy.vmcopy_to_user pid dst src size) st (fun r st' =>
    r <> Panic /\ good x0 K st' /\ forall i p off, user_page p -> 0 <= off < PAGE_SIZE ->
      peek st' i p off = match r with
        | Ok _ => let k := p * PAGE_SIZE + off - dst in
                  if (i =? pid) && (0 <=? k) && (k <? size) then Some (memory (mem st) (src + k)) else peek st i p off
        | _ => peek st i p off
        end).
Proof.
  intros Hg Hv Hs0 Hd0 Hsz Hker Hw. apply wp_on_space; [congruence|]. intros v0 Hv0. rewrite Hv in Hv0. injection Hv0 as <-.
  set (Post := fun (r : res Error unit) (t : Vmem * MemState P) => _).
  assert (forall e, Post (Err e) (v, mem st)) as Hfail.
  { intros e. unfold Post. simpl. rewrite insert_id by done. destruct st. done. }
  unfold UserCopy.copy_to_user_unaligned, UserCopy.copy_to_user_unaligned_unchecked.
  destruct (Z.eqb_spec size 0); [wstep; wstep; apply Hfail|].
  destruct (is_kernel_region (mkVirtualAddress src) size); cbn [negb]; [|wstep; wstep; apply Hfail].
  destruct (is_user_region (mkVirtualAddress dst) size) eqn:Hr; cbn [negb]; [|wstep; wstep; apply Hfail].
  apply is_user_region_spec in Hr as (Hpos & Hlo & Hhi); [|done]. simpl in Hlo, Hhi.
  do 3 wstep. rewrite copy_to_start.
  apply (wp_copy_to_dry _ v (mem st) dst src size 0); [lia|done|done|done|done|lia|intros _; rewrite Z.add_0_r; by apply fuel_enough| |].
  2: { intros e _. apply Hfail. }
  intros Hmem. wstep. eapply (wp_resolved K st pid v); [done|done|done|done|done| | |].
  { intros r e Hr He. destruct (Hw r Hr) as (e0 & He0 & Hmw). congruence. }
  2: { intros e v' s' st' Hg' Hsee. unfold Post. cbn [fst snd]. split; [done|]. split; [done|]. exact Hsee. }
  intros v' s1 st1 Hg1 Hsee1 Hmem1 Hset.
  assert (writable_in v' (dst / PAGE_SIZE) ((dst + size - 1) / PAGE_SIZE)) as Hw1.
  { intros r Hr. specialize (Hset r Hr). destruct (Hw r Hr) as (e & He & _). by rewrite He in Hset. }
  assert (spaces st1 !! pid = Some v') as Hv1 by apply lookup_insert_eq.
  rewrite copy_to_start. apply (wp_copy_to _ v' s1 dst src size 0); [by apply (gd_spaces _ _ _ Hg1 pid)|lia|done|done|done|done|
    by apply (written_fits K st1 pid v' dst size)|by apply (kernel_apart K st1 pid)|intros _; rewrite Z.add_0_r; by apply fuel_enough|].
  intros s2 Hk2 Hmv. destruct (written_peek K st1 pid v' dst size Hg1 Hv1 Hlo Hhi Hw1 _ s2 Hk2 Hmv) as [Hg2 Hp2].
  unfold Post. cbn [fst snd]. replace (<[pid := v']> (spaces st)) with (<[pid := v']> (spaces st1)) by (unfold st1; simpl; by rewrite insert_insert_eq).
  split; [done|]. split; [done|]. intros i p off Hp Ho. rewrite Hp2 by done. cbv zeta. set (k := p * PAGE_SIZE + off - dst).
  destruct ((i =? pid) && (0 <=? k) && (k <? size)) eqn:E; [|by apply Hsee1]. f_equal.
  rewrite !andb_true_iff, Z.leb_le, Z.ltb_lt in E. destruct (Hker (src + k) ltac:(lia)) as [H0 H1]. apply Hmem1; [lia|].
  pose proof (Frame.occ_nonneg ((src + k) / FRAME_SIZE) []). lia.
Qed.

(** ** Copying from a process *)

Lemma copy_from_start fuel dry dst src n : UserCopy.copy_from_user_impl fuel dry src dst n =
  UserCopy.copy_from_user_impl (P:=P) fuel dry (src + 0) (dst + 0) (n - 0).
Proof. by rewrite !Z.add_0_r, Z.sub_0_r. Qed.

Definition mapped_from v (a k n : Z) : Prop := forall b, a + k <= b < a + n -> is_Some (mapping v (b / PAGE_SIZE)).

Lemma user_find v x : vm_ok v -> USER_BASE_RAW <= x < USER_END_RAW ->
  match mapping v (x / PAGE_SIZE) with
  | Some e => Vmem.find_user_frame v (page_at (x / PAGE_SIZE)) = Ok (handle e)
  | None => exists err, Vmem.find_user_frame v (page_at (x / PAGE_SIZE)) = Err err
  end.
Proof.
  intros Hok Hx. pose proof (find_frame v (page_at (x / PAGE_SIZE)) Hok) as H. destruct (page_raw (x / PAGE_SIZE)) as [_ Hpo].
  { apply Z.div_pos; [pages; lia|done]. }
  rewrite Hpo in H. apply H. unfold in_word. simpl. pose proof (Z.div_mod x PAGE_SIZE ltac:(done)).
  pose proof (Z.mod_pos_bound x PAGE_SIZE ltac:(done)). pages. lia.
Qed.

Lemma same_page x c b : 0 <= x -> x mod PAGE_SIZE + c <= PAGE_SIZE -> x <= b < x + c -> b / PAGE_SIZE = x / PAGE_SIZE.
Proof.
  intros Hx Hc Hb. pose proof (Z.div_mod x PAGE_SIZE ltac:(done)). pose proof (Z.mod_pos_bound x PAGE_SIZE ltac:(done)).
  symmetry. apply (Z.div_unique _ _ _ (b - x / PAGE_SIZE * PAGE_SIZE)); lia.
Qed.

(** The first pass finds the pages that are not mapped. *)
Lemma wp_copy_from_dry fuel v s dst src n k (Q : res Error unit → Vmem * MemState P → Prop) : vm_ok v ->
  0 <= k <= n -> USER_BASE_RAW <= src -> src + n <= USER_END_RAW -> 0 <= dst -> dst + n <= MEMORY_SIZE ->
  (k < n -> (src + k) mod PAGE_SIZE + (n - k) <= Z.of_nat fuel * PAGE_SIZE) ->
  (mapped_from v src k n -> Q (Ok tt) (v, s)) -> (forall e, ~ mapped_from v src k n -> Q (Err e) (v, s)) ->
  wp (UserCopy.copy_from_user_impl fuel true (src + k) (dst + k) (n - k)) (v, s) Q.
Proof.
  intros Hok Hk Hlo Hhi Hd0 Hd1. revert k Hk. induction fuel as [|fuel IH]; intros k Hk Hfu H1 H2; cbn [UserCopy.copy_from_user_impl].
  { rewrite (proj2 (Z.ltb_ge _ _)); [wstep; apply H1; intros b Hb; exfalso|];
      (destruct (decide (k < n)); [|lia]); pose proof (Z.mod_pos_bound (src + k) PAGE_SIZE ltac:(done)); lia. }
  destruct (Z.ltb_spec 0 (n - k)) as [Hpos|Hz]; [|wstep; apply H1; intros b Hb; lia].
  set (c := Z.min (n - k) (PAGE_SIZE - (src + k) mod PAGE_SIZE)).
  destruct (chunk_left src n k c fuel ltac:(pages; lia) ltac:(lia) ltac:(unfold c; lia) (Hfu ltac:(lia))) as (Hc & Hkc & Hpg & Hrest).
  pose proof user_above as Hua. rewrite page_offset_ok by (pages; lia). pose proof (Z.mod_pos_bound (src + k) PAGE_SIZE ltac:(done)).
  do 4 wstep. rewrite usize_sub_ok by (pages; lia). fold c. wstep. apply wp_on_vmem. do 3 wstep.
  pose proof (user_find v (src + k) Hok ltac:(lia)) as Hfind.
  destruct (mapping v ((src + k) / PAGE_SIZE)) as [e|] eqn:He.
  2: { destruct Hfind as [err ->]. apply H2. intros Hall. destruct (Hall (src + k) ltac:(lia)) as [? ?]. congruence. }
  rewrite Hfind. do 4 wstep. rewrite usize_add_ok by (pages; lia). do 2 wstep. rewrite usize_add_ok by (pages; lia).
  replace (n - k - c) with (n - (k + c)) by lia. rewrite <- !Z.add_assoc in *. apply IH; [lia|done| |].
  - intros Hall. apply H1. intros b Hb. destruct (decide (b < src + (k + c))); [|apply Hall; lia].
    rewrite (same_page (src + k) c b) by (pages; lia). by rewrite He.
  - intros err Hno. apply H2. intros Hall. apply Hno. intros b Hb. apply Hall. lia.
Qed.

Lemma wp_copy_from fuel v s dst src n k (Q : res Error unit → Vmem * MemState P → Prop) :
  let D := fun i => dst + i in let S := fun i => phys_of v (src + i) in
  vm_ok v -> 0 <= k <= n -> USER_BASE_RAW <= src -> src + n <= USER_END_RAW -> 0 <= dst -> dst + n <= MEMORY_SIZE ->
  fits v src n -> apart D S n -> (k < n -> (src + k) mod PAGE_SIZE + (n - k) <= Z.of_nat fuel * PAGE_SIZE) ->
  (forall s', KMem.kept s s' -> moved D S k n (memory s) (memory s') -> Q (Ok tt) (v, s')) ->
  wp (UserCopy.copy_from_user_impl fuel false (src + k) (dst + k) (n - k)) (v, s) Q.
Proof.
  intros D S Hok Hk Hlo Hhi Hd0 Hd1 Hf Hap. revert k s Hk. induction fuel as [|fuel IH]; intros k s Hk Hfu HQ; cbn [UserCopy.copy_from_user_impl].
  { rewrite (proj2 (Z.ltb_ge _ _)); [wstep; apply HQ; [done|]; replace k with n; [apply moved_nil|]|];
      (destruct (decide (k < n)); [|lia]); pose proof (Z.mod_pos_bound (src + k) PAGE_SIZE ltac:(done)); lia. }
  destruct (Z.ltb_spec 0 (n - k)) as [Hpos|Hz].
  2: { wstep. apply HQ; [done|]. replace k with n by lia. apply moved_nil. }
  destruct (chunk v src n k Hf Hlo Hhi ltac:(lia) Hok) as (e & He & -> & Hfr & Hadd & Hoff & Hp0 & Hp1).
  set (c := Z.min (n - k) (PAGE_SIZE - (src + k) mod PAGE_SIZE)).
  destruct (chunk_left src n k c fuel ltac:(pages; lia) ltac:(lia) ltac:(unfold c; lia) (Hfu ltac:(lia))) as (Hc & Hkc & Hpg & Hrest).
  pose proof user_above as Hua. do 4 wstep. rewrite usize_sub_ok by (pages; lia). fold c. wstep. apply wp_on_vmem. do 3 wstep.
  rewrite Hfr. do 3 wstep. rewrite Hadd.
  assert (straight S k c) as HS by (apply phys_straight; [pages; lia|done|by rewrite He]).
  assert (straight D k c) as HD by (intros i Hi; unfold D; lia).
  apply wp_on_mem. apply memcpy_ok; [lia|lia|lia|done|lia| |].
  { by apply (straight_disjoint D S k c n); [lia|lia|lia|..]. }
  intros s1 Hk1 Hm1. do 2 wstep. rewrite usize_add_ok by (pages; lia). do 2 wstep. rewrite usize_add_ok by (pages; lia).
  replace (n - k - c) with (n - (k + c)) by lia. rewrite <- !Z.add_assoc. apply IH; [lia|done|].
  intros s' Hk' Hmv. apply HQ; [by etrans|]. rewrite Hm1 in Hmv. by eapply (moved_step D S k c n); [lia|lia|lia|..].
Qed.

Lemma kernel_bound a n : 0 < n -> kernel_range a n -> 0 <= a /\ a + n <= MEMORY_SIZE.
Proof.
  intros Hn Hk. destruct (Hk a ltac:(lia)) as [H0 _]. destruct (Hk (a + n - 1) ltac:(lia)) as [_ H1]. split; [done|].
  destruct (decide (Frame.NFRAMES <= (a + n - 1) / FRAME_SIZE)) as [Hge|Hlt]; [rewrite Frame.rc_out in H1; [lia|done|done]|].
  unfold Frame.NFRAMES in Hlt. pose proof (Z.div_mod MEMORY_SIZE FRAME_SIZE ltac:(done)).
  pose proof (Z.mod_pos_bound MEMORY_SIZE FRAME_SIZE ltac:(done)). pose proof (Z.div_mod (a + n - 1) FRAME_SIZE ltac:(done)).
  pose proof (Z.mod_pos_bound (a + n - 1) FRAME_SIZE ltac:(done)). pages. lia.
Qed.

(** Copying from a process.  The kernel reads [size] bytes at the address [src] of
    process [pid] into its memory at [dst].  The request never panics and changes no
    address space.  It succeeds only if every page of the range is mapped, and then the
    kernel has the bytes of the process and the rest of memory is as before; when it
    fails, not a single byte has been copied. *)
Theorem vmcopy_from_user_spec K st pid v dst src size : good x0 K st -> spaces st !! pid = Some v ->
  0 <= src -> 0 <= size -> kernel_range dst size ->
  wp (UserCopy.vmcopy_from_user pid dst src size) st (fun r st' =>
    r <> Panic /\ spaces st' = spaces st /\ KMem.kept (mem st) (mem st') /\
    match r with
    | Ok _ =>
      (forall k, 0 <= k < size ->
         peek st pid ((src + k) / PAGE_SIZE) ((src + k) mod PAGE_SIZE) = Some (memory (mem st') (dst + k))) /\
      forall b, ~ (dst <= b < dst + size) -> memory (mem st') b = memory (mem st) b
    | _ => memory (mem st') = memory (mem st)
    end).
Proof.
  intros Hg Hv Hs0 Hsz Hker. apply wp_on_space; [congruence|]. intros v0 Hv0. rewrite Hv in Hv0. injection Hv0 as <-.
  set (Post := fun (r : res Error unit) (t : Vmem * MemState P) => _).
  assert (forall e, Post (Err e) (v, mem st)) as Hfail.
  { intros e. unfold Post. simpl. rewrite insert_id by done. done. }
  unfold UserCopy.copy_from_user_unaligned. destruct (Z.eqb_spec size 0); [wstep; apply Hfail|].
  destruct (is_user_region (mkVirtualAddress src) size) eqn:Hr; cbn [negb]; [|wstep; apply Hfail].
  apply is_user_region_spec in Hr as (Hpos & Hlo & Hhi); [|done]. simpl in Hlo, Hhi.
  destruct (is_kernel_region (mkVirtualAddress dst) size); cbn [negb]; [|wstep; apply Hfail].
  destruct (kernel_bound dst size Hpos Hker) as [Hd0 Hd1]. pose proof (gd_spaces _ _ _ Hg pid v Hv) as [Hok _].
  wstep. rewrite copy_from_start.
  apply (wp_copy_from_dry _ v (mem st) dst src size 0); [done|lia|done|done|done|done|intros _; rewrite Z.add_0_r; by apply fuel_enough| |].
  2: { intros e _. apply Hfail. }
  intros Hmap. assert (fits v src size) as Hfit.
  { apply (good_fits K st pid); [done..|]. intros b Hb. apply Hmap. lia. }
  assert (apart (fun i => dst + i) (fun i => phys_of v (src + i)) size) as Hap.
  { split; [lia|]. intros i j Hi Hj E. destruct (Hfit (src + j) ltac:(lia)) as (e & He & [Hn _] & _). unfold phys_of in E. rewrite He in E.
    destruct (Hker (dst + i) ltac:(lia)) as [_ H1]. pose proof (Z.mod_pos_bound (src + j) PAGE_SIZE ltac:(done)) as Hm.
    rewrite E, (in_frame _ (fn_raw (pte_frame e))) in H1 by lia. pose proof (Z.div_mod (src + j) PAGE_SIZE ltac:(done)).
    rewrite (gd_user _ _ _ Hg pid v Hv ((src + j) / PAGE_SIZE) e) in H1; [lia|pages; lia|done]. }
  rewrite copy_from_start. apply (wp_copy_from _ v (mem st) dst src size 0); [done|lia|done|done|done|done|done|done|
    intros _; rewrite Z.add_0_r; by apply fuel_enough|].
  intros s' Hk [Hin Hout]. unfold Post. cbn [fst snd]. split; [done|]. split; [simpl; by rewrite insert_id|]. split; [done|]. split.
  - intros k Hk'. destruct (Hfit (src + k) ltac:(lia)) as (e & He & _). rewrite (peek_mapped _ _ _ _ _ _ Hv He). f_equal.
    simpl. rewrite (Hin k Hk'). unfold phys_of. by rewrite He.
  - intros b Hb. apply Hout. intros i Hi E. lia.
Qed.

(** ** Copying between processes *)

(** One side of a round: either it reaches the end of its page or it stays in it. *)
Lemma side_step x c r : 0 <= x -> 0 < c -> x mod PAGE_SIZE + c <= PAGE_SIZE ->
  (x + c) mod PAGE_SIZE + (r - c) = x mod PAGE_SIZE + r - (if c =? PAGE_SIZE - x mod PAGE_SIZE then PAGE_SIZE else 0).
Proof.
  intros Hx Hc Hp. pose proof (Z.div_mod x PAGE_SIZE ltac:(done)) as E.
  pose proof (Z.mod_pos_bound x PAGE_SIZE ltac:(done)). destruct (Z.eqb_spec c (PAGE_SIZE - x mod PAGE_SIZE)) as [->|Hne].
  - replace (x + (PAGE_SIZE - x mod PAGE_SIZE)) with ((x / PAGE_SIZE + 1) * PAGE_SIZE) by lia. rewrite Z.mod_mul by done. lia.
  - replace ((x + c) mod PAGE_SIZE) with (x mod PAGE_SIZE + c); [lia|]. apply (Z.mod_unique _ _ (x / PAGE_SIZE)); lia.
Qed.

Lemma sides_left src dst n k c fuel : 0 <= src -> 0 <= dst -> 0 <= k < n ->
  c = Z.min (Z.min (n - k) (PAGE_SIZE - (src + k) mod PAGE_SIZE)) (PAGE_SIZE - (dst + k) mod PAGE_SIZE) ->
  (src + k) mod PAGE_SIZE + (n - k) + ((dst + k) mod PAGE_SIZE + (n - k)) <= Z.of_nat (S fuel) * PAGE_SIZE ->
  0 < c /\ k + c <= n /\ (src + k) mod PAGE_SIZE + c <= PAGE_SIZE /\ (dst + k) mod PAGE_SIZE + c <= PAGE_SIZE /\
  (k + c < n -> (src + (k + c)) mod PAGE_SIZE + (n - (k + c)) + ((dst + (k + c)) mod PAGE_SIZE + (n - (k + c))) <= Z.of_nat fuel * PAGE_SIZE).
Proof.
  intros Hs Hd Hk Hc Hf. pose proof (Z.mod_pos_bound (src + k) PAGE_SIZE ltac:(done)). pose proof (Z.mod_pos_bound (dst + k) PAGE_SIZE ltac:(done)).
  assert (0 < c) as Hc0 by lia. splits; [done|lia|lia|lia|]. intros Hlt. rewrite !Z.add_assoc.
  replace (n - (k + c)) with (n - k - c) by lia.
  rewrite (side_step (src + k) c), <- (Z.add_assoc _ ((dst + k + c) mod PAGE_SIZE)), (side_step (dst + k) c) by lia.
  destruct (Z.eqb_spec c (PAGE_SIZE - (src + k) mod PAGE_SIZE)); destruct (Z.eqb_spec c (PAGE_SIZE - (dst + k) mod PAGE_SIZE)); pages; lia.
Qed.

Lemma wp_across_dry fuel sv dv s src dst n k (Q : res Error unit → MemState P → Prop) : vm_ok sv -> vm_ok dv ->
  0 <= k <= n -> USER_BASE_RAW <= src -> src + n <= USER_END_RAW -> USER_BASE_RAW <= dst -> dst + n <= USER_END_RAW ->
  (k < n -> (src + k) mod PAGE_SIZE + (n - k) + ((dst + k) mod PAGE_SIZE + (n - k)) <= Z.of_nat fuel * PAGE_SIZE) ->
  (mapped_from sv src k n -> mapped_from dv dst k n -> Q (Ok tt) s) -> (forall e, Q (Err e) s) ->
  wp (UserCopy.copy_user_to_user_impl fuel sv dv true (src + k) (dst + k) (n - k)) s Q.
Proof.
  intros Hok Hok' Hk Hlo Hhi Hlo' Hhi'. revert k Hk. induction fuel as [|fuel IH]; intros k Hk Hfu H1 H2; cbn [UserCopy.copy_user_to_user_impl].
  { pose proof (Z.mod_pos_bound (src + k) PAGE_SIZE ltac:(done)). pose proof (Z.mod_pos_bound (dst + k) PAGE_SIZE ltac:(done)).
    assert (k = n) as -> by (destruct (decide (k < n)); lia). rewrite Z.sub_diag, Z.ltb_irrefl. wstep. apply H1; intros b Hb; lia. }
  destruct (Z.ltb_spec 0 (n - k)) as [Hpos|Hz]; [|wstep; apply H1; intros b Hb; lia].
  set (c := Z.min (Z.min (n - k) (PAGE_SIZE - (src + k) mod PAGE_SIZE)) (PAGE_SIZE - (dst + k) mod PAGE_SIZE)).
  destruct (sides_left src dst n k c fuel ltac:(pages; lia) ltac:(pages; lia) ltac:(lia) eq_refl (Hfu ltac:(lia))) as (Hc & Hkc & Hps & Hpd & Hrest).
  rewrite !page_offset_ok by (pages; lia). pose proof (Z.mod_pos_bound (src + k) PAGE_SIZE ltac:(done)). pose proof (Z.mod_pos_bound (dst + k) PAGE_SIZE ltac:(done)).
  do 4 wstep. rewrite usize_sub_ok by (pages; lia). do 4 wstep. rewrite usize_sub_ok by (pages; lia). fold c. do 2 wstep.
  pose proof (user_find sv (src + k) Hok ltac:(lia)) as Hfs. pose proof (user_find dv (dst + k) Hok' ltac:(lia)) as Hfd.
  destruct (mapping sv ((src + k) / PAGE_SIZE)) as [e|] eqn:He; [|destruct Hfs as [err ->]; apply H2]. rewrite Hfs. do 2 wstep.
  destruct (mapping dv ((dst + k) / PAGE_SIZE)) as [e'|] eqn:He'; [|destruct Hfd as [err ->]; apply H2]. rewrite Hfd.
  do 4 wstep. rewrite usize_add_ok by (pages; lia). do 2 wstep. rewrite usize_add_ok by (pages; lia).
  replace (n - k - c) with (n - (k + c)) by lia.
  rewrite <- (Z.add_assoc src), <- (Z.add_assoc dst). apply IH; [lia|done| |done].
  intros Hms Hmd. apply H1; intros b Hb.
  - destruct (decide (b < src + (k + c))); [|apply Hms; lia]. rewrite (same_page (src + k) c b) by (pages; lia). by rewrite He.
  - destruct (decide (b < dst + (k + c))); [|apply Hmd; lia]. rewrite (same_page (dst + k) c b) by (pages; lia). by rewrite He'.
Qed.

Lemma wp_across fuel sv dv s src dst n k (Q : res Error unit → MemState P → Prop) :
  let D := fun i => phys_of dv (dst + i) in let S := fun i => phys_of sv (src + i) in
  vm_ok sv -> vm_ok dv -> fits sv src n -> fits dv dst n -> apart D S n ->
  0 <= k <= n -> USER_BASE_RAW <= src -> src + n <= USER_END_RAW -> USER_BASE_RAW <= dst -> dst + n <= USER_END_RAW ->
  (k < n -> (src + k) mod PAGE_SIZE + (n - k) + ((dst + k) mod PAGE_SIZE + (n - k)) <= Z.of_nat fuel * PAGE_SIZE) ->
  (forall s', KMem.kept s s' -> moved D S k n (memory s) (memory s') -> Q (Ok tt) s') ->
  wp (UserCopy.copy_user_to_user_impl fuel sv dv false (src + k) (dst + k) (n - k)) s Q.
Proof.
  intros D S Hok Hok' Hfs Hfd Hap Hk Hlo Hhi Hlo' Hhi'. revert k s Hk. induction fuel as [|fuel IH]; intros k s Hk Hfu HQ; cbn [UserCopy.copy_user_to_user_impl].
  { pose proof (Z.mod_pos_bound (src + k) PAGE_SIZE ltac:(done)). pose proof (Z.mod_pos_bound (dst + k) PAGE_SIZE ltac:(done)).
    assert (k = n) as -> by (destruct (decide (k < n)); lia). rewrite Z.sub_diag, Z.ltb_irrefl. wstep. apply HQ; [done|]. apply moved_nil. }
  destruct (Z.ltb_spec 0 (n - k)) as [Hpos|Hz]; [|wstep; apply HQ; [done|]; replace k with n by lia; apply moved_nil].
  set (c := Z.min (Z.min (n - k) (PAGE_SIZE - (src + k) mod PAGE_SIZE)) (PAGE_SIZE - (dst + k) mod PAGE_SIZE)).
  destruct (sides_left src dst n k c fuel ltac:(pages; lia) ltac:(pages; lia) ltac:(lia) eq_refl (Hfu ltac:(lia))) as (Hc & Hkc & Hps & Hpd & Hrest).
  destruct (chunk sv src n k Hfs Hlo Hhi ltac:(lia) Hok) as (e & He & -> & Hfr & Hadd & Hoff & Hp0 & Hp1).
  destruct (chunk dv dst n k Hfd Hlo' Hhi' ltac:(lia) Hok') as (e' & He' & -> & Hfr' & Hadd' & Hoff' & Hp0' & Hp1').
  do 4 wstep. rewrite usize_sub_ok by (pages; lia). do 4 wstep. rewrite usize_sub_ok by (pages; lia). fold c. do 2 wstep.
  rewrite Hfr. do 2 wstep. rewrite Hfr'. do 3 wstep. rewrite Hadd. do 2 wstep. rewrite Hadd'.
  assert (straight S k c) as HS by (apply phys_straight; [pages; lia|done|by rewrite He]).
  assert (straight D k c) as HD by (apply phys_straight; [pages; lia|done|by rewrite He']).
  apply memcpy_ok; [lia|lia|lia|done|lia| |].
  { by apply (straight_disjoint D S k c n); [lia|lia|lia|..]. }
  intros s1 Hk1 Hm1. do 2 wstep. rewrite usize_add_ok by (pages; lia). do 2 wstep. rewrite usize_add_ok by (pages; lia).
  replace (n - k - c) with (n - (k + c)) by lia. rewrite <- (Z.add_assoc src), <- (Z.add_assoc dst). apply IH; [lia|done|].
  intros s' Hk' Hmv. apply HQ; [by etrans|]. rewrite Hm1 in Hmv. by eapply (moved_step D S k c n); [lia|lia|lia|..].
Qed.

Lemma across_apart K st sp sv dp dv src dst n : good x0 K st -> spaces st !! sp = Some sv -> spaces st !! dp = Some dv ->
  USER_BASE_RAW <= src -> src + n <= USER_END_RAW -> USER_BASE_RAW <= dst -> dst + n <= USER_END_RAW ->
  writable_in dv (dst / PAGE_SIZE) ((dst + n - 1) / PAGE_SIZE) -> fits sv src n ->
  (sp = dp -> src + n <= dst \/ dst + n <= src) ->
  apart (fun i => phys_of dv (dst + i)) (fun i => phys_of sv (src + i)) n.
Proof.
  intros Hg Hs Hd Hlo Hhi Hlo' Hhi' Hw Hf Hdis. split; [intros i j; by apply (written_inj K st dp dv dst n)|].
  intros i j Hi Hj E. destruct (Hf (src + j) ltac:(lia)) as (e & He & _). pose proof (Z.mod_pos_bound (src + j) PAGE_SIZE ltac:(done)).
  pose proof (Z.div_mod (src + j) PAGE_SIZE ltac:(done)).
  destruct (written_alone K st dp dv dst n Hg Hd Hlo' Hhi' Hw i sp sv ((src + j) / PAGE_SIZE) e ((src + j) mod PAGE_SIZE) Hi Hs) as [-> Ea];
    [pages; lia|done|done|unfold phys_of in E at 2; by rewrite He in E|]. destruct (Hdis eq_refl); lia.
Qed.

(** C10: Copying between processes.  [size] bytes at the address [src] of process [sp] go
    to the address [dst] of process [dp], which may write the pages it has there.  The
    request never panics.  When it succeeds, [dp] finds the bytes of [sp] and nothing
    else has changed for any process; when it fails no process sees a change. *)
Theorem vmcopy_user_to_user_spec K st sp sv dp dv src dst size : good x0 K st ->
  spaces st !! sp = Some sv -> spaces st !! dp = Some dv -> 0 <= src -> 0 <= dst -> 0 <= size -> dst + size <= USER_END_RAW ->
  USER_BASE_RAW <= dst -> (sp = dp -> src + size <= dst \/ dst + size <= src) ->
  (forall r e, dst / PAGE_SIZE <= r <= (dst + size - 1) / PAGE_SIZE -> mapping dv r = Some e -> may_write e = true) ->
  wp (UserCopy.vmcopy_user_to_user sp src dp dst size) st (fun r st' =>
    r <> Panic /\ good x0 K st' /\ forall i p off, user_page p -> 0 <= off < PAGE_SIZE ->
      peek st' i p off = match r with
        | Ok _ => let k := p * PAGE_SIZE + off - dst in
                  if (i =? dp) && (0 <=? k) && (k <? size)
                  then peek st sp ((src + k) / PAGE_SIZE) ((src + k) mod PAGE_SIZE) else peek st i p off
        | _ => peek st i p off
        end).
Proof.
  intros Hg Hsp Hdp Hs0 Hd0 Hsz Hhi' Hlo' Hdis Hw. unfold UserCopy.vmcopy_user_to_user.
  set (Post := fun (r : res Error unit) (st' : Machine P) => _). wstep.
  destruct (Z.ltb_spec 0 size) as [Hpos|Hz].
  2: { replace size with 0 in * by lia. wstep. unfold wp, UserCopy.copy_between. rewrite Hsp, Hdp. unfold Post. simpl. by destruct st. }
  apply wp_on_space; [congruence|]. intros v0 Hv0. rewrite Hdp in Hv0. injection Hv0 as <-.
  eapply (wp_resolved K st dp dv); [done|done|done|done|done|done| |].
  2: { intros e v' s' st' Hg' Hsee. unfold Post. cbn [fst snd]. by split. }
  intros v' s1 st1 Hg1 Hsee1 _ Hset. cbn [fst snd]. fold st1.
  assert (spaces st1 !! dp = Some v') as Hd1 by apply lookup_insert_eq.
  assert (exists sv1, spaces st1 !! sp = Some sv1) as [sv1 Hs1].
  { unfold st1. simpl. destruct (decide (dp = sp)) as [<-|]; [by rewrite lookup_insert_eq; eexists|]. rewrite lookup_insert_ne by done. by eexists. }
  assert (forall e, Post (Err e) st1) as Hfail by (intros e; unfold Post; by split).
  enough (wp (UserCopy.copy_user_to_user sv1 src v' dst size) (mem st1) (fun r s => Post r (mkMachine (spaces st1) s))) as Hd.
  { unfold wp, UserCopy.copy_between in *. rewrite Hs1, Hd1. by destruct (UserCopy.copy_user_to_user _ _ _ _ _ _). }
  unfold UserCopy.copy_user_to_user. destruct (Z.eqb_spec size 0); [lia|].
  destruct (is_user_region (mkVirtualAddress src) size) eqn:Hr; cbn [negb]; [|wstep; apply Hfail].
  apply is_user_region_spec in Hr as (_ & Hlo & Hhi); [|done]. simpl in Hlo, Hhi.
  destruct (is_user_region (mkVirtualAddress dst) size); cbn [negb]; [|wstep; apply Hfail].
  pose proof (gd_spaces _ _ _ Hg1 dp v' Hd1) as [Hokd _]. pose proof (gd_spaces _ _ _ Hg1 sp sv1 Hs1) as [Hoks _].
  assert (forall fuel dry, UserCopy.copy_user_to_user_impl fuel sv1 v' dry src dst size =
    UserCopy.copy_user_to_user_impl (P:=P) fuel sv1 v' dry (src + 0) (dst + 0) (size - 0)) as Hstart by (intros; by rewrite !Z.add_0_r, Z.sub_0_r).
  assert (0 < size -> (src + 0) mod PAGE_SIZE + (size - 0) + ((dst + 0) mod PAGE_SIZE + (size - 0)) <=
    Z.of_nat (UserCopy.pages_of size + UserCopy.pages_of size) * PAGE_SIZE) as Hfuel.
  { intros _. rewrite !Z.add_0_r, Nat2Z.inj_add. pose proof (fuel_enough src size Hpos). pose proof (fuel_enough dst size Hpos). lia. }
  wstep. rewrite Hstart. apply wp_across_dry; [done|done|lia|done|done|done|done|done| |done].
  intros Hms Hmd. assert (writable_in v' (dst / PAGE_SIZE) ((dst + size - 1) / PAGE_SIZE)) as Hw1.
  { intros r Hr. specialize (Hset r Hr). destruct (mapping dv r) as [e|]; [exact Hset|exfalso].
    pose proof (Z.div_mod dst PAGE_SIZE ltac:(done)).
    pose proof (Z.mod_pos_bound dst PAGE_SIZE ltac:(done)). pose proof (Z.div_mod (dst + size - 1) PAGE_SIZE ltac:(done)).
    pose proof (Z.mod_pos_bound (dst + size - 1) PAGE_SIZE ltac:(done)).
    destruct (Hmd (Z.max dst (r * PAGE_SIZE)) ltac:(pages; lia)) as [e He].
    replace (Z.max dst (r * PAGE_SIZE) / PAGE_SIZE) with r in He; [congruence|].
    apply (Z.div_unique _ _ _ (Z.max dst (r * PAGE_SIZE) - r * PAGE_SIZE)); pages; lia. }
  assert (fits sv1 src size) as Hfs by (apply (good_fits K st1 sp); [done..|]; intros b Hb; apply Hms; lia).
  rewrite Hstart. apply wp_across; [done|done|done|by apply (written_fits K st1 dp)|by apply (across_apart K st1 sp sv1 dp)|lia|done|done|done|done|done|].
  intros s2 Hk2 Hmv. destruct (written_peek K st1 dp v' dst size Hg1 Hd1 Hlo' Hhi' Hw1 _ s2 Hk2 Hmv) as [Hg2 Hp2].
  rewrite insert_id in Hg2, Hp2 by done. unfold Post. split; [done|]. split; [done|]. intros i p off Hp Ho. rewrite Hp2 by done. cbv zeta.
  set (k := p * PAGE_SIZE + off - dst). destruct ((i =? dp) && (0 <=? k) && (k <? size)) eqn:E; [|by apply Hsee1].
  rewrite !andb_true_iff, Z.leb_le, Z.ltb_lt in E. destruct (Hfs (src + k) ltac:(lia)) as (e & He & _).
  pose proof (Z.mod_pos_bound (src + k) PAGE_SIZE ltac:(done)). pose proof (Z.div_mod (src + k) PAGE_SIZE ltac:(done)).
  rewrite <- Hsee1 by (done || pages; lia). fold st1. rewrite (peek_mapped _ _ _ _ _ _ Hs1 He). f_equal. unfold phys_of. by rewrite He.
Qed.

End Proofs.

(** ** An example *)

#[local] Existing Instances sample_config sample_config_ok sample_identity sample_directory sample_above.

#[local] Instance sample_mapped : KMem.PreMapped unit.
Proof. by split. Qed.

(** Process 1 has written 42 to its page, which it shares with process 2. *)
Definition sample_shared : Machine unit :=
  exec_all [Create 0 1; Mmap 1 (fun _ => ReserveAll) USER_FIRST 1 RDWR; Store 1 USER_FIRST 8 42; Duplicate 1 2] sample_machine.

Lemma sample_shared_good : exists K, good sample_boot K sample_shared.
Proof.
  refine (proj1 (proj2 (runs_meet sample_boot sample_boot_inv [] sample_machine _ sample_good _))).
  repeat split; vm_compute; (reflexivity || discriminate).
Qed.

#[local] Opaque sample_shared.

(** The page of process [i], which may be written. *)
Lemma sample_shared_page i : i = 1 \/ i = 2 -> exists v e, spaces sample_shared !! i = Some v /\
  mapping v USER_FIRST = Some e /\ may_write e = true.
Proof.
  intros Hi.
  assert ((v ← spaces sample_shared !! i; e ← mapping v USER_FIRST; Some (may_write e)) = Some true) as E.
  { destruct Hi as [-> | ->]; vm_compute; reflexivity. }
  destruct (spaces sample_shared !! i) as [v|] eqn:Hv; [|discriminate E]. cbn [mbind option_bind] in E.
  destruct (mapping v USER_FIRST) as [e|] eqn:He; [|discriminate E]. injection E as Hw.
  exists v, e. split; [reflexivity|]. split; [exact He|exact Hw].
Qed.

Lemma sample_kernel_range : kernel_range sample_boot 100 3.
Proof.
  intros b Hb. split; [lia|]. replace (b / FRAME_SIZE) with 0; [vm_compute; discriminate|]. symmetry. apply Z.div_small. pages. lia.
Qed.

Lemma sample_range r : (USER_BASE_RAW + 8) / PAGE_SIZE <= r <= (USER_BASE_RAW + 8 + 3 - 1) / PAGE_SIZE -> r = USER_FIRST.
Proof.
  change ((USER_BASE_RAW + 8) / PAGE_SIZE) with USER_FIRST. change ((USER_BASE_RAW + 8 + 3 - 1) / PAGE_SIZE) with USER_FIRST. lia.
Qed.

Lemma vmcopy_to_user_spec_witness :
  let st' := (UserCopy.vmcopy_to_user 2 (USER_BASE_RAW + 8) 100 3 sample_shared).2 in
  peek st' 1 USER_FIRST 8 = Some 42 /\ peek st' 2 USER_FIRST 8 = Some 255.
Proof.
  destruct sample_shared_good as [K Hg]. destruct (sample_shared_page 2) as (v & e & Hv & He & Hw); [by right|].
  pose proof (vmcopy_to_user_spec sample_boot sample_boot_inv K sample_shared 2 v (USER_BASE_RAW + 8) 100 3 Hg Hv
    ltac:(lia) ltac:(vm_compute; discriminate) ltac:(lia) sample_kernel_range
    (fun r Hr => ex_intro _ e (conj (eq_trans (f_equal (mapping v) (sample_range r Hr)) He) Hw))) as H.
  assert ((UserCopy.vmcopy_to_user 2 (USER_BASE_RAW + 8) 100 3 sample_shared).1 = Ok tt) as E by (vm_compute; reflexivity).
  unfold wp in H. rewrite E in H. destruct H as (_ & _ & H).
  split; rewrite H by (vm_compute; split; (reflexivity || discriminate)); vm_compute; reflexivity.
Defined.

Lemma vmcopy_from_user_spec_witness :
  let st' := (UserCopy.vmcopy_from_user 1 100 (USER_BASE_RAW + 8) 3 sample_shared).2 in memory (mem st') 100 = 42.
Proof.
  destruct sample_shared_good as [K Hg]. destruct (sample_shared_page 1) as (v & e & Hv & _); [by left|].
  pose proof (vmcopy_from_user_spec sample_boot sample_boot_inv K sample_shared 1 v 100 (USER_BASE_RAW + 8) 3 Hg Hv
    ltac:(vm_compute; discriminate) ltac:(lia) sample_kernel_range) as H.
  assert ((UserCopy.vmcopy_from_user 1 100 (USER_BASE_RAW + 8) 3 sample_shared).1 = Ok tt) as E by (vm_compute; reflexivity).
  unfold wp in H. rewrite E in H. destruct H as (_ & _ & _ & H & _). specialize (H 0 ltac:(lia)).
  assert (peek sample_shared 1 ((USER_BASE_RAW + 8 + 0) / PAGE_SIZE) ((USER_BASE_RAW + 8 + 0) mod PAGE_SIZE) = Some 42) as Hp
    by (vm_compute; reflexivity).
  rewrite Hp in H. symmetry. exact (inj Some _ _ H).
Defined.

Lemma vmcopy_user_to_user_spec_witness :
  let st' := (UserCopy.vmcopy_user_to_user 1 (USER_BASE_RAW + 8) 2 (USER_BASE_RAW + 8) 3 sample_shared).2 in
  peek st' 2 USER_FIRST 8 = Some 42.
Proof.
  destruct sample_shared_good as [K Hg]. destruct (sample_shared_page 1) as (sv & _ & Hsv & _); [by left|].
  destruct (sample_shared_page 2) as (v & e & Hv & He & Hw); [by right|].
  assert (forall r e0, (USER_BASE_RAW + 8) / PAGE_SIZE <= r <= (USER_BASE_RAW + 8 + 3 - 1) / PAGE_SIZE ->
    mapping v r = Some e0 -> may_write e0 = true) as Hmw.
  { intros r e0 Hr He0. rewrite (sample_range r Hr), He in He0. injection He0 as <-. exact Hw. }
  pose proof (vmcopy_user_to_user_spec sample_boot sample_boot_inv K sample_shared 1 sv 2 v (USER_BASE_RAW + 8) (USER_BASE_RAW + 8) 3
    Hg Hsv Hv ltac:(vm_compute; discriminate) ltac:(vm_compute; discriminate) ltac:(lia) ltac:(vm_compute; discriminate)
    ltac:(vm_compute; discriminate) ltac:(lia) Hmw) as H.
  assert ((UserCopy.vmcopy_user_to_user 1 (USER_BASE_RAW + 8) 2 (USER_BASE_RAW + 8) 3 sample_shared).1 = Ok tt) as E
    by (vm_compute; reflexivity).
  unfold wp in H. rewrite E in H. destruct H as (_ & _ & H).
  intros st'. unfold st'. rewrite H by (vm_compute; split; (reflexivity || discriminate)). vm_compute. reflexivity.
Defined.
