(* ===== verification/Elf.v ===== *)
(** * Loading programs

    [kernel/src/mm/elf.rs] with the headers of [libs/elf/src/elf32.rs].  The image of a
    program lies in memory of the kernel; [elf32_load] maps pages for its loadable
    segments and copies their contents.  A first pass without effects looks for errors
    (the default build). *)

From stdpp Require Import gmap.
From S2P Require Import Prelude Error BitAlloc Bitmap Config Addr Paging Frame Phys KMem UserSpace AddrSpace.
From S2P Require Import Perm Mappings VmemSpec Cow NewVmem VirtManager PageAlloc UserMap Fork Spaces MemorySafety UserCopy.
#[local] Open Scope Z_scope.

(** ** Headers *)

Record Elf32Fhdr := mkElf32Fhdr {
  e_ident : list Z;
  e_type : Z;
  e_machine : Z;
  e_version : Z;
  e_entry : Z;
  e_phoff : Z;
  e_shoff : Z;
  e_flags : Z;
  e_ehsize : Z;
  e_phentsize : Z;
  e_phnum : Z;
  e_shentsize : Z;
  e_shnum : Z;
  e_shstrndx : Z
}.

Record Elf32Phdr := mkElf32Phdr {
  p_type : Z;
  p_offset : Z;
  p_vaddr : Z;
  p_paddr : Z;
  p_filesz : Z;
  p_memsz : Z;
  p_flags : Z;
  p_align : Z
}.

Definition EXEC : AccessPermission := mkAccessPermission ReadAllow WriteDeny ExecuteAllow.

Module Elf.

Definition ET_EXEC : Z := 2.
Definition ET_DYN : Z := 3.
Definition PT_LOAD : Z := 1.
Definition PF_X : Z := 1.
Definition PF_W : Z := 2.
Definition PF_R : Z := 4.

(** Little-endian fields. *)
Definition u16 (m : Z → Z) (a : Z) : Z := m a + 256 * m (a + 1).
Definition u32 (m : Z → Z) (a : Z) : Z := u16 m a + 65536 * u16 m (a + 2).

(** The headers at an address, laid out as in C. *)
Definition read_fhdr (m : Z → Z) (a : Z) : Elf32Fhdr :=
  mkElf32Fhdr ((fun i => m (a + i)) <$> seqZ 0 16) (u16 m (a + 16)) (u16 m (a + 18)) (u32 m (a + 20)) (u32 m (a + 24))
    (u32 m (a + 28)) (u32 m (a + 32)) (u32 m (a + 36)) (u16 m (a + 40)) (u16 m (a + 42)) (u16 m (a + 44)) (u16 m (a + 46))
    (u16 m (a + 48)) (u16 m (a + 50)).

Definition read_phdr (m : Z → Z) (a : Z) : Elf32Phdr :=
  mkElf32Phdr (u32 m a) (u32 m (a + 4)) (u32 m (a + 8)) (u32 m (a + 12)) (u32 m (a + 16)) (u32 m (a + 20)) (u32 m (a + 24))
    (u32 m (a + 28)).

Definition PHDR_SIZE : Z := 32.

Definition is_valid (h : Elf32Fhdr) : bool :=
  bool_decide (take 4 (e_ident h) = [0x7f; 0x45; 0x4c; 0x46]).

(** [Elf32Fhdr::validate]: the reason, when the header is not valid. *)
Definition validate (h : Elf32Fhdr) : option string :=
  if negb (is_valid h) then Some "invalid ELF magic"%string
  else if negb (bool_decide (e_ident h !! 4%nat = Some 1)) then Some "invalid ELF class"%string
  else if negb (bool_decide (e_ident h !! 5%nat = Some 1)) then Some "invalid data encoding"%string
  else if negb (e_version h =? 1) then Some "invalid ELF version"%string
  else if negb (e_phentsize h =? PHDR_SIZE) then Some "invalid program header entry size"%string
  else None.

Definition is_loadable (p : Elf32Phdr) : bool := p_type p =? PT_LOAD.

(** [Elf32Phdr::validate]. *)
Definition validate_segment (p : Elf32Phdr) : option string :=
  if p_memsz p <? p_filesz p then Some "segment file size exceeds memory size"%string else None.

(** ** The loader *)

Definition MAX_LOAD_SEGMENTS : nat := 16.

Definition is_readable (a : AccessPermission) : bool := match perm_read a with ReadAllow => true | ReadDeny => false end.
Definition is_executable (a : AccessPermission) : bool := match perm_execute a with ExecuteAllow => true | ExecuteDeny => false end.

Definition merge_access (a b : AccessPermission) : AccessPermission :=
  mkAccessPermission
    (if is_readable a || is_readable b then ReadAllow else ReadDeny)
    (if is_writable a || is_writable b then WriteAllow else WriteDeny)
    (if is_executable a || is_executable b then ExecuteAllow else ExecuteDeny).

(** Arithmetic on pointers, which wraps around. *)
Definition ptr_offset (a n : Z) : Z := (a + n) mod 2 ^ 32.

Definition bad {S A} (reason : string) : M S Error A := fail (mkError BadFile reason).
Definition or_bad {S A} (reason : string) (o : option A) : M S Error A :=
  match o with Some x => mret x | None => bad reason end.

(** What the loop over the segments remembers: the end of the last page, and the pages
    and rights of the segments so far. *)
Record Progress := mkProgress {
  last_address : Z;
  loaded_ranges : list (Z * Z * AccessPermission)
}.

(** The rights that the segments so far want for a page, if they cover it. *)
Definition merged (ranges : list (Z * Z * AccessPermission)) (page_addr : Z) (access : AccessPermission) : bool * AccessPermission :=
  foldl (fun '(already_mapped, m) '(start, past, prev_access) =>
    if (start <=? page_addr) && (page_addr <? past) then (true, merge_access m prev_access) else (already_mapped, m))
    (false, access) ranges.

Section Loader.
Context {CF : Config} {P : Type} {IM : IdentityMap P}.
Notation V := (Vmem.V (P:=P)).

(** Mapping the page, or widening the rights of a page that another segment has. *)
Definition place_page (access : AccessPermission) (virt_addr_base phys_addr_base phys_addr_end : Z)
    (ranges : list (Z * Z * AccessPermission)) (vaddr : PageAddress) : V unit :=
  let page_addr := into_raw_value vaddr in
  let '(already_mapped, m) := merged ranges page_addr access in
  if already_mapped : bool then VirtManager.ctrl_upage vaddr m
  else
    page_offset_in_segment ← lift (usize_sub page_addr virt_addr_base);
    page_phys_addr ← or_bad "invalid physical address" (checked_add phys_addr_base page_offset_in_segment);
    page_phys_addr_end ← or_bad "invalid physical address range" (checked_add page_phys_addr PAGE_SIZE);
    let page_lies_in_bss := phys_addr_end <=? page_phys_addr in
    let page_is_partially_covered := (page_phys_addr <? phys_addr_end) && (phys_addr_end <? page_phys_addr_end) in
    VirtManager.alloc_upages 1 vaddr access (page_lies_in_bss || page_is_partially_covered) 1.

(** The body of the loop over the pages of a segment. *)
Definition load_page (dry_run : bool) (access : AccessPermission) (virt_addr_base phys_addr_base phys_addr_end : Z)
    (ranges : list (Z * Z * AccessPermission)) (last vaddr : Z) : V Z :=
  if vaddr <? USER_BASE_RAW then bad "invalid load address"
  else
    vaddr ← lift (PageAligned_from_address (mkVirtualAddress vaddr));
    let raw := into_raw_value vaddr in
    (if dry_run then mret tt else place_page access virt_addr_base phys_addr_base phys_addr_end ranges vaddr);;
    past ← lift (usize_add raw PAGE_SIZE);
    offset ← lift (usize_sub raw virt_addr_base);
    phys_addr ← lift (usize_add phys_addr_base offset);
    (if phys_addr <? phys_addr_end then
       let size := Z.min PAGE_SIZE (phys_addr_end - phys_addr) in
       if 0 <? size then UserCopy.copy_to_user_unaligned_unchecked raw phys_addr size dry_run else mret tt
     else mret tt);;
    mret (if last <? past then past else last).

(** [for vaddr in (virt_addr_base..virt_addr_end).step_by(PAGE_SIZE)], with [n] pages to go. *)
Fixpoint load_pages (n : nat) (dry_run : bool) (access : AccessPermission) (virt_addr_base phys_addr_base phys_addr_end : Z)
    (ranges : list (Z * Z * AccessPermission)) (last vaddr : Z) : V Z :=
  match n with
  | O => mret last
  | S n =>
    last ← load_page dry_run access virt_addr_base phys_addr_base phys_addr_end ranges last vaddr;
    load_pages n dry_run access virt_addr_base phys_addr_base phys_addr_end ranges last (vaddr + PAGE_SIZE)
  end.

(** The number of steps of such a loop. *)
Definition steps (first past : Z) : nat := Z.to_nat ((past - first + PAGE_SIZE - 1) / PAGE_SIZE).

Definition segment_access (p : Elf32Phdr) : AccessPermission :=
  if p_flags p =? Z.lor PF_R PF_X then EXEC
  else if negb (Z.land (p_flags p) PF_W =? 0) then RDWR
  else RDONLY.

(** The body of the loop over the segments; [elf] is the address of the image. *)
Definition load_segment (dry_run : bool) (elf load_base : Z) (p : Elf32Phdr) (pr : Progress) : V Progress :=
  if negb (is_loadable p) then mret pr
  else
    match validate_segment p with
    | Some reason => bad reason
    | None =>
      align ← lift (map_err (fun _ => mkError BadFile "invalid alignment value in elf file") (Alignment_try_from (p_align p)));
      adjusted_vaddr ← or_bad "virtual address overflow in PIE segment" (checked_add (p_vaddr p) load_base);
      let virt_addr_base := align_down adjusted_vaddr align in
      let access := segment_access p in
      let size := Z.max (p_filesz p) (p_memsz p) in
      virt_addr_range_end ← or_bad "virtual address overflow in elf segment" (checked_add adjusted_vaddr size);
      virt_addr_end ← or_bad "align_up overflow" (align_up virt_addr_range_end PAGE_ALIGNMENT);
      let phys_addr_base := ptr_offset elf (p_offset p) in
      phys_addr_end ← lift (usize_add phys_addr_base (p_filesz p));
      Vmem.on_mem (KMem.on_phys (Phys.set_vec []));;
      last ← load_pages (steps virt_addr_base virt_addr_end) dry_run access virt_addr_base phys_addr_base phys_addr_end
               (loaded_ranges pr) (last_address pr) virt_addr_base;
      mret (mkProgress last
        (if Nat.ltb (length (loaded_ranges pr)) MAX_LOAD_SEGMENTS
         then loaded_ranges pr ++ [(virt_addr_base, virt_addr_end, access)] else loaded_ranges pr))
    end.

Fixpoint load_segments (dry_run : bool) (elf load_base : Z) (ps : list Elf32Phdr) (pr : Progress) : V Progress :=
  match ps with
  | [] => mret pr
  | p :: ps => pr ← load_segment dry_run elf load_base p pr; load_segments dry_run elf load_base ps pr
  end.

(** The program headers of the image. *)
Definition phdrs (m : Z → Z) (elf : Z) (h : Elf32Fhdr) : list Elf32Phdr :=
  (fun i => read_phdr m (ptr_offset elf (e_phoff h) + i * PHDR_SIZE)) <$> seqZ 0 (e_phnum h).

(** Where a position-independent program goes. *)
Definition load_base (h : Elf32Fhdr) (ps : list Elf32Phdr) : Z :=
  if e_type h =? ET_DYN then
    let lowest_vaddr := match p_vaddr <$> filter (fun p => is_loadable p) ps with
                        | [] => 0
                        | a :: l => foldl Z.min a l
                        end in
    if lowest_vaddr <? USER_BASE_RAW then Z.max 0 (USER_BASE_RAW - lowest_vaddr) else 0
  else 0.

Definition do_elf32_load (elf : Z) (dry_run : bool) : V (VirtualAddress * PageAligned VirtualAddress) :=
  s ← Vmem.on_mem get;
  let h := read_fhdr (memory s) elf in
  match validate h with
  | Some reason => bad reason
  | None =>
    let ps := phdrs (memory s) elf h in
    if negb (e_type h =? ET_EXEC) && negb (e_type h =? ET_DYN) then bad "unsupported ELF type"
    else
      let load_base := load_base h ps in
      entry ← or_bad "entry address overflow" (checked_add (e_entry h) load_base);
      if entry <? USER_BASE_RAW then bad "invalid entry point"
      else
        pr ← load_segments dry_run elf load_base ps (mkProgress 0 []);
        last ← or_bad "align_up overflow" (align_up (last_address pr) PAGE_ALIGNMENT);
        last ← lift (PageAligned_from_address (mkVirtualAddress last));
        mret (mkVirtualAddress entry, last)
  end.

Definition elf32_load (elf : Z) : V (VirtualAddress * PageAligned VirtualAddress) :=
  do_elf32_load elf true;;
  do_elf32_load elf false.

End Loader.
End Elf.
