(* ===== verification/ElfSpec.v ===== *)
(** * What the loader does

    The pages that [Elf.elf32_load] has loaded are described by an image: the rights and
    the contents of each page.  Every step of the loader changes one page of the image.
    From this follows what a loaded program finds in its memory. *)

From stdpp Require Import gmap.
From S2P Require Import Prelude Error BitAlloc Bitmap Config Addr Paging Frame Phys KMem UserSpace AddrSpace.
From S2P Require Import Perm Mappings VmemSpec Cow NewVmem VirtManager PageAlloc UserMap Fork Spaces MemorySafety UserCopy Elf.
#[local] Open Scope Z_scope.

(** ** Images *)

Definition Image : Type := Z → option (AccessPermission * (Z → Z)).

Definition image_set (I : Image) (q : Z) (c : AccessPermission * (Z → Z)) : Image :=
  fun r => if r =? q then Some c else I r.

Section Spec.
Context {CF : Config} {HC : ConfigOk} {UA : UserAbove} {P : Type} {IM : IdentityMap P} {PM : KMem.PreMapped P}.
Variable x0 : Inner Bitmap.
Hypothesis Hi0 : Frame.inv x0.
Variables (R : list FrameAddress) (v0 : Vmem) (m0 : Z → Z).
Implicit Types (v : Vmem) (s : MemState P) (I : Image).

(** The entry of a page shows a page of the image. *)
Definition shown s (o : option PageTableEntry) (c : option (AccessPermission * (Z → Z))) : Prop :=
  match c with
  | None => o = None
  | Some (access, b) => exists e, o = Some e /\ PageTableEntry.is_cow e = false /\ pte_writable e = is_writable access /\
      owners s e = 1 /\ forall off, 0 <= off < PAGE_SIZE -> page_byte (memory s) e off = b off
  end.

(** What holds in every case: nothing but the address space that is being loaded has changed. *)
Record contained v s : Prop := {
  ct_sound : sound x0 R v s;
  ct_vec : vec (phys s) = [];
  ct_shell : shell v = shell v0;
  ct_mem : mem_same x0 R m0 (memory s)
}.

Record loading v s I : Prop := {
  ld_contained : contained v s;
  ld_pages q : user_page q -> shown s (mapping v q) (I q)
}.

(** A frame with one owner is mapped at one page. *)
Lemma single_page v s q q' e e' : sound x0 R v s -> user_page q -> user_page q' -> mapping v q = Some e -> mapping v q' = Some e' ->
  fn_raw (pte_frame e') = fn_raw (pte_frame e) -> owners s e = 1 -> q' = q.
Proof.
  intros Hs Hq Hq' He He' Hf Ho. destruct (decide (q' = q)) as [|Hne]; [done|exfalso].
  destruct (mapped_owned _ _ _ _ _ _ Hs Hq He) as (Hn & _ & _). destruct Hs as [_ (_ & _ & _ & Hrc)].
  destruct (user_frames_set (mapping v) q Hq) as (X & HX & HX'). rewrite He in HX. simpl in HX.
  assert (handle e' ∈ X) as Hin.
  { specialize (HX' None). simpl in HX'. rewrite <- HX'. apply user_frames_elem. exists q', e'. split; [done|].
    unfold view_set. destruct (Z.eqb_spec q' q); [done|]. done. }
  unfold owners in Ho. rewrite Hrc in Ho by apply Hn. unfold handles in Ho. rewrite HX in Ho. apply elem_of_Permutation in Hin as [Y HY].
  rewrite HY in Ho. unfold handle in Ho. rewrite Hf in Ho. simpl in Ho. rewrite !Frame.occ_cons, !Z.eqb_refl in Ho.
  pose proof (Frame.inv_rc x0 Hi0 _ (proj1 Hn)).
  pose proof (Frame.occ_nonneg (fn_raw (pte_frame e)) ((Y ++ table_frames v ++ own_frames v) ++ R)). simpl in *. lia.
Qed.

Lemma frame_fits v s q e : sound x0 R v s -> user_page q -> mapping v q = Some e ->
  numbered (pte_frame e) /\ (fn_raw (pte_frame e) + 1) * FRAME_SIZE <= MEMORY_SIZE.
Proof.
  intros Hs Hu He. destruct (mapped_owned _ _ _ _ _ _ Hs Hu He) as (Hn & _ & Hin).
  split; [done|]. pose proof (held_rc x0 Hi0 _ _ _ (proj2 Hs) (proj1 Hn) Hin) as Hrc.
  destruct (decide (Frame.NFRAMES <= fn_raw (pte_frame e))) as [Hge|Hlt].
  { rewrite Frame.rc_out in Hrc; [lia|apply Hs|done]. }
  unfold Frame.NFRAMES in Hlt. pose proof (Z.div_mod MEMORY_SIZE FRAME_SIZE ltac:(done)).
  pose proof (Z.mod_pos_bound MEMORY_SIZE FRAME_SIZE ltac:(done)). pages. lia.
Qed.

Lemma page_bytes q off : 0 <= off < PAGE_SIZE -> (q * PAGE_SIZE + off) / PAGE_SIZE = q /\ (q * PAGE_SIZE + off) mod PAGE_SIZE = off.
Proof.
  intros Ho. split; [by rewrite Z.div_add_l, Z.div_small, Z.add_0_r by (done || lia)|].
  by rewrite Z.add_comm, Z.mod_add, Z.mod_small by (done || lia).
Qed.

(** ** Copying to a page *)

Definition overwrite (n src : Z) (b : Z → Z) : Z → Z := fun off => if off <? n then m0 (src + off) else b off.

Lemma copied_page v s I q access b e src n s' : loading v s I -> user_page q -> I q = Some (access, b) -> mapping v q = Some e ->
  0 < n <= PAGE_SIZE -> kernel_range x0 src n -> KMem.kept s s' ->
  moved (fun i => phys_of v (q * PAGE_SIZE + i)) (fun i => src + i) 0 n (memory s) (memory s') ->
  loading v s' (image_set I q (access, overwrite n src b)).
Proof.
  intros [[Hs Hvec Hsh Hm] Hp] Hq HI He Hn Hk [Hf Hv] [Hin Hout].
  pose proof (Hp q Hq) as Hsq. rewrite HI, He in Hsq. destruct Hsq as (e0 & [= <-] & Hcow & Hw & Ho & Hb).
  destruct (mapped_owned _ _ _ _ _ _ Hs Hq He) as (Hnum & _ & Hh).
  assert (forall i, 0 <= i < n -> phys_of v (q * PAGE_SIZE + i) = fn_raw (pte_frame e) * FRAME_SIZE + i) as HD.
  { intros i Hi. unfold phys_of. destruct (page_bytes q i) as [-> ->]; [lia|]. by rewrite He. }
  assert (forall a, a / FRAME_SIZE <> fn_raw (pte_frame e) -> memory s' a = memory s a) as Helse.
  { intros a Ha. apply Hout. intros i Hi ->. apply Ha. rewrite HD by done. apply in_frame. pages. lia. }
  assert (forall r e', user_page r -> mapping v r = Some e' -> r <> q -> forall off, 0 <= off < PAGE_SIZE ->
    page_byte (memory s') e' off = page_byte (memory s) e' off) as Hothers.
  { intros r e' Hr He' Hne off Hoff. apply Helse. rewrite (in_frame _ (fn_raw (pte_frame e'))) by (pages; lia).
    intros Heq. apply Hne. by apply (single_page v s q r e e'). }
  split; [split|].
  - destruct Hs as [Hinv Ha]. split; [done|]. by rewrite Hf.
  - by rewrite Hv.
  - done.
  - etrans; [exact Hm|]. intros a Ha Hu. apply Helse. intros Hfr. rewrite Hfr in Hu.
    pose proof (owned_unbooked x0 Hi0 _ _ _ _ _ Hs Hq He Ho) as Hunb. destruct Hs as [_ (_ & _ & _ & Hrc)].
    unfold owners in Ho. rewrite Hrc in Ho by apply Hnum. rewrite Frame.occ_app in Ho.
    apply mapped_handle in He; [|done]. apply elem_of_Permutation in He as [Y HY]. unfold handle in HY. rewrite HY, Frame.occ_cons, Z.eqb_refl in Ho.
    pose proof (Frame.occ_nonneg (fn_raw (pte_frame e)) Y). lia.
  - intros r Hr. unfold image_set. destruct (Z.eqb_spec r q) as [->|Hne].
    + rewrite He. exists e. splits; [done|done|done|unfold owners; by rewrite Hf|]. intros off Hoff. unfold overwrite.
      destruct (Z.ltb_spec off n).
      * unfold page_byte. rewrite <- HD, Hin by lia. destruct (Hk (src + off) ltac:(lia)) as [H0 H1]. apply Hm; [done|].
        pose proof (Frame.occ_nonneg ((src + off) / FRAME_SIZE) R). lia.
      * rewrite <- Hb by done. unfold page_byte. apply Hout. intros i Hi E. rewrite HD in E by done. pages. lia.
    + specialize (Hp r Hr). destruct (I r) as [[acc b']|]; [|done]. destruct Hp as (e' & He' & Hc' & Hw' & Ho' & Hb').
      exists e'. splits; [done..|unfold owners; by rewrite Hf|]. intros off Hoff. rewrite <- Hb' by done. by apply (Hothers r).
Qed.

Lemma loading_settled v s I p q v' s' : loading v s I -> settling x0 R v s p q v' s' -> loading v' s' I.
Proof.
  intros [[Hs Hvec Hsh Hm] Hp] [Hs' Hsh' Hvec' Hm' Hl Hin Hout]. split; [split; [done|congruence|congruence|]|].
  - etrans; [exact Hm|]. eapply mem_same_sub; [|exact Hm']. by apply submseteq_inserts_l.
  - intros r Hr. assert (mapping v' r = mapping v r) as ->.
    { destruct (decide (p <= r <= q)) as [Hrg|Hrg]; [|by apply Hout]. specialize (Hin r Hr Hrg). specialize (Hp r Hr). unfold settled in Hin.
      destruct (I r) as [[acc b]|]; [|by rewrite Hp in *]. destruct Hp as (e & He & Hc & _). by rewrite He, Hc in *. }
    specialize (Hp r Hr). destruct (I r) as [[acc b]|]; [|done]. destruct Hp as (e & He & Hc & Hw & Ho & Hb). exists e. splits; [done..| |].
    + destruct (mapped_owned _ _ _ _ _ _ Hs Hr He) as (Hn & _ & _). unfold owners in *. destruct (Hl _ (proj1 Hn) ltac:(lia)). lia.
    + intros off Hoff. rewrite <- Hb by done. by eapply kept_bytes.
Qed.

Lemma wp_copy_page v s I q access b src n (Q : res Error unit → Vmem * MemState P → Prop) : loading v s I -> user_page q ->
  I q = Some (access, b) -> 0 < n <= PAGE_SIZE -> kernel_range x0 src n ->
  (forall v' s', loading v' s' (image_set I q (access, overwrite n src b)) -> Q (Ok tt) (v', s')) ->
  (forall e v' s', contained v' s' -> Q (Err e) (v', s')) ->
  wp (UserCopy.copy_to_user_unaligned_unchecked (q * PAGE_SIZE) src n false) (v, s) Q.
Proof.
  intros Hl Hq HI Hn Hk H1 H2. pose proof (ld_contained _ _ _ Hl) as Hc. destruct (kernel_bound x0 Hi0 src n ltac:(lia) Hk) as [Hs0 Hs1].
  assert (USER_BASE_RAW <= q * PAGE_SIZE /\ q * PAGE_SIZE + n <= USER_END_RAW) as [Hlo Hhi] by (pages; lia).
  unfold UserCopy.copy_to_user_unaligned_unchecked. destruct (Z.eqb_spec n 0); [lia|].
  destruct (is_kernel_region (mkVirtualAddress src) n); cbn [negb]; [|wstep; by apply H2].
  destruct (is_user_region _ _); cbn [negb]; [|wstep; by apply H2]. wstep.
  eapply (wp_resolve_region x0 Hi0); [apply Hc|lia|simpl; pages; lia|simpl; pages; lia| |].
  2: { intros err k v' s' _ Hst. apply H2. by apply (loading_settled _ _ _ _ _ _ _ Hl Hst). }
  intros v' s1 Hst. pose proof (loading_settled _ _ _ _ _ _ _ Hl Hst) as Hl1. clear Hst Hl Hc v s.
  pose proof (ld_contained _ _ _ Hl1) as Hc. pose proof (ld_pages _ _ _ Hl1 q Hq) as Hsq. rewrite HI in Hsq.
  destruct Hsq as (e & He & _ & _ & Ho & _). pose proof (ct_sound _ _ Hc) as Hs. destruct (frame_fits _ _ _ _ Hs Hq He) as [Hnum Hfit].
  assert (forall i, 0 <= i < n -> phys_of v' (q * PAGE_SIZE + i) = fn_raw (pte_frame e) * FRAME_SIZE + i) as HD.
  { intros i Hi. unfold phys_of. destruct (page_bytes q i) as [-> ->]; [lia|]. by rewrite He. }
  rewrite copy_to_start. apply (wp_copy_to _ v' s1 (q * PAGE_SIZE) src n 0); [apply Hs|lia|done|done|done|done| | | |].
  - intros a Ha. exists e. replace a with (q * PAGE_SIZE + (a - q * PAGE_SIZE)) by lia. by destruct (page_bytes q (a - q * PAGE_SIZE)) as [-> _]; [lia|].
  - split; [intros i j Hi Hj; rewrite !HD by done; lia|]. intros i j Hi Hj E. rewrite HD in E by done.
    destruct (Hk (src + j) ltac:(lia)) as [_ Hb]. rewrite <- E, (in_frame _ (fn_raw (pte_frame e))) in Hb by (pages; lia).
    pose proof (owned_unbooked x0 Hi0 _ _ _ _ _ Hs Hq He Ho). lia.
  - intros _. rewrite Z.add_0_r. apply fuel_enough. lia.
  - intros s' Hkept Hmv. apply H1. by eapply copied_page.
Qed.

(** ** Placing a page *)

(** The rights of a page that is loaded next, and what it held. *)
Definition held I (q : Z) : Z → Z := match I q with Some (_, b) => b | None => fun _ => 0 end.

Lemma loading_set v s v' s' I q e e' access access' b : loading v s I -> user_page q -> I q = Some (access, b) -> mapping v q = Some e ->
  contained v' s' -> phys s' = phys s -> memory s' = memory s -> (forall r, user_page r -> mapping v' r = view_set (mapping v) q (Some e') r) ->
  pte_frame e' = pte_frame e -> PageTableEntry.is_cow e' = false -> pte_writable e' = is_writable access' ->
  loading v' s' (image_set I q (access', b)).
Proof.
  intros [Hc Hp] Hq HI He Hc' Hph Hmem Hv Hf Hcow Hw. split; [done|]. intros r Hr. rewrite Hv by done. unfold view_set, image_set.
  destruct (Z.eqb_spec r q) as [->|].
  - pose proof (Hp q Hq) as Hsq. rewrite HI in Hsq. destruct Hsq as (e0 & He0 & _ & _ & Ho & Hb). rewrite He in He0. injection He0 as <-.
    exists e'. splits; [done|done|done|unfold owners in *; by rewrite Hph, Hf|]. intros off Hoff. rewrite <- Hb by done.
    unfold page_byte. by rewrite Hmem, Hf.
  - specialize (Hp r Hr). destruct (I r) as [[acc b']|]; [|done]. destruct Hp as (e0 & He0 & Hc0 & Hw0 & Ho0 & Hb0).
    exists e0. splits; [done|done|done|unfold owners in *; by rewrite Hph|]. intros off Hoff. rewrite <- Hb0 by done. unfold page_byte. by rewrite Hmem.
Qed.

Lemma ctrl_of_writable access e : pte_writable (ctrl_of access e) = is_writable access.
Proof. destruct e as [[] ?]. unfold ctrl_of, pte_writable. simpl. by destruct (is_writable access). Qed.

Lemma ctrl_of_cow access e : PageTableEntry.is_cow (ctrl_of access e) = PageTableEntry.is_cow e /\ pte_frame (ctrl_of access e) = pte_frame e.
Proof. by destruct e as [[] ?]. Qed.

Lemma wp_ctrl v s I q access (Q : res Error unit → Vmem * MemState P → Prop) : loading v s I -> 0 <= q ->
  (forall v' s' b old, user_page q -> I q = Some (old, b) -> loading v' s' (image_set I q (access, b)) -> Q (Ok tt) (v', s')) ->
  (forall e v' s', contained v' s' -> Q (Err e) (v', s')) ->
  wp (VirtManager.ctrl_upage (page_at q) access) (v, s) Q.
Proof.
  intros Hl Hq H1 H2. pose proof (ld_contained _ _ _ Hl) as Hc. pose proof Hc as [Hs Hvec Hsh Hm]. pose proof Hs as [Hinv Ha].
  destruct (page_raw q Hq) as [_ Hpo]. unfold VirtManager.ctrl_upage. apply wp_on_vmem. apply wp_uctrl; [apply Hs| |]; rewrite Hpo.
  - intros e v' Hu He Hef. apply page_user in Hu as Huq. pose proof (ld_pages _ _ _ Hl q Huq) as Hsq. rewrite He in Hsq.
    destruct (I q) as [[old b]|] eqn:HI; [|done]. destruct Hsq as (e0 & [= <-] & Hcow & Hw & Ho & Hb).
    destruct (ctrl_of_cow access e) as [Hc1 Hc2].
    apply (H1 v' s b old Huq eq_refl). apply (loading_set v s v' s I q e (ctrl_of access e) old access b); try done; [|apply Hef|apply ctrl_of_writable].
    split; [split; [split; [apply Hef|apply Hef, Hinv]|]|done|rewrite (ef_shell _ _ _ _ Hef); done|done].
    eapply Phys.accounted_perm; [|exact Ha]. rewrite (handles_effect _ _ _ _ Hef). unfold handles.
    destruct (user_frames_set (mapping v) q Huq) as (X & HX & HX'). rewrite (HX' (Some (ctrl_of access e))), HX, He. simpl.
    unfold handle. rewrite Hc2. perm.
  - intros err v' _ Hef. apply H2. split; [split; [split; [apply Hef|apply Hef, Hinv]|]|done|rewrite (ef_shell _ _ _ _ Hef); done|done].
    eapply Phys.accounted_perm; [|exact Ha]. by rewrite (effect_same _ _ Hef).
Qed.

Lemma wp_alloc v s I q access (clear : bool) (Q : res Error unit → Vmem * MemState P → Prop) : loading v s I -> 0 <= q ->
  (forall v' s' b, user_page q -> I q = None -> (clear = true -> forall off, 0 <= off < PAGE_SIZE -> b off = 0) ->
     loading v' s' (image_set I q (access, b)) -> Q (Ok tt) (v', s')) ->
  (forall e v' s', contained v' s' -> Q (Err e) (v', s')) ->
  wp (VirtManager.alloc_upages 1 (page_at q) access clear 1) (v, s) Q.
Proof.
  intros [[Hs Hvec Hsh Hm] Hp] Hq H1 H2. eapply (wp_alloc_upages x0 Hi0 R); [done|done|lia| |].
  2: { intros e v' s' [Hs' Hv' Hsh' Hvec' Hm' _]. apply H2. split; [done|congruence|congruence|]. etrans; [exact Hm|].
       eapply mem_same_sub; [|exact Hm']. by apply submseteq_inserts_l. }
  intros ns v' s' Hlen [Hs' Hnew Hfree Hview Hsh' Hm' Hst Hsi Hz] Hvec'. destruct ns as [|n [|]]; [simpl in Hlen; lia| |simpl in Hlen; lia]. clear Hlen.
  destruct (Hfree q ltac:(simpl; lia)) as [Hu Hnone]. apply Forall_cons in Hsi as [[Hn Hrc] _].
  assert (forall r, user_page r -> mapping v' r = view_set (mapping v) q (Some (mapped_pte n false false true access)) r) as Hv'.
  { intros r Hr. rewrite Hview by done. unfold view_map, view_set. destruct (Z.eqb_spec r q) as [->|].
    - by rewrite Z.leb_refl, Z.sub_diag.
    - destruct (Z.leb_spec q r); [|done]. by replace (Z.to_nat (r - q)) with (S (Z.to_nat (r - q - 1))) by lia. }
  set (e := mapped_pte n false false true access) in *. pose proof (Hp q Hu) as Hsq. rewrite Hnone in Hsq.
  apply (H1 v' s' (page_byte (memory s') e)); [done|destruct (I q) as [[? ?]|]; [by destruct Hsq as (? & [=] & _)|done]| |].
  { intros Hc off Hoff. unfold page_byte. apply (Hz Hc); [left|done]. }
  split; [split; [done|congruence|congruence|]|].
  - etrans; [exact Hm|]. eapply mem_same_sub; [|exact Hm']. by apply submseteq_inserts_l.
  - intros r Hr. rewrite Hv' by done. unfold view_set, image_set. destruct (Z.eqb_spec r q) as [->|].
    + exists e. splits; [done| | |exact Hrc|done]; unfold e, mapped_pte, pte_writable; simpl; by destruct (is_writable access).
    + specialize (Hp r Hr). destruct (I r) as [[acc b']|]; [|done]. destruct Hp as (e0 & He0 & Hc0 & Hw0 & Ho0 & Hb0).
      exists e0. splits; [done|done|done| |].
      * destruct (mapped_owned _ _ _ _ _ _ Hs Hr He0) as (Hn0 & _ & _). unfold owners in *. rewrite Hst; [done|apply Hn0|lia].
      * intros off Hoff. rewrite <- Hb0 by done. by eapply kept_bytes.
Qed.

(** ** Loading a page *)

(** The page after its step: the rights of all segments that cover it, the bytes of the
    file, and behind them what was there or zeros. *)
Definition page_image (access : AccessPermission) (vbase pbase pend : Z) (ranges : list (Z * Z * AccessPermission)) I (q : Z) : Image :=
  let phys := pbase + (q * PAGE_SIZE - vbase) in
  image_set I q ((Elf.merged ranges (q * PAGE_SIZE) access).2, overwrite (pend - phys) phys (held I q)).

Lemma merged_false ranges a access : (Elf.merged ranges a access).1 = false -> (Elf.merged ranges a access).2 = access.
Proof.
  unfold Elf.merged. assert (forall rs b m, (foldl (fun '(already_mapped, m) '(start, past, prev_access) =>
    if (start <=? a) && (a <? past) then (true, Elf.merge_access m prev_access) else (already_mapped, m)) (b, m) rs).1 = false ->
    b = false /\ (foldl (fun '(already_mapped, m) '(start, past, prev_access) =>
    if (start <=? a) && (a <? past) then (true, Elf.merge_access m prev_access) else (already_mapped, m)) (b, m) rs).2 = m) as Hgo.
  { induction rs as [|[[st pa] ac] rs IH]; intros b m H; simpl in *; [done|]. destruct (_ && _); [by apply IH in H as [? _]|by apply IH]. }
  intros H. exact (proj2 (Hgo _ _ _ H)).
Qed.

Lemma wp_or_bad {S A} reason (o : option A) (t : S) (Q : res Error A → S → Prop) :
  (forall x, o = Some x -> Q (Ok x) t) -> (o = None -> Q (Err (mkError BadFile reason)) t) -> wp (Elf.or_bad reason o) t Q.
Proof. intros H1 H2. unfold Elf.or_bad, Elf.bad. destruct o; wstep; auto. Qed.

(** The page is there, and zero where the file has nothing for it. *)
Lemma wp_place v s I q access vbase pbase pend ranges (Q : res Error unit → Vmem * MemState P → Prop) : loading v s I -> 0 <= q ->
  vbase <= q * PAGE_SIZE -> let phys := pbase + (q * PAGE_SIZE - vbase) in
  (forall v' s' b, user_page q -> loading v' s' (image_set I q ((Elf.merged ranges (q * PAGE_SIZE) access).2, b)) ->
     (pend - phys < PAGE_SIZE \/ I q <> None -> forall off, 0 <= off < PAGE_SIZE -> b off = held I q off) -> Q (Ok tt) (v', s')) ->
  (forall e v' s', contained v' s' -> Q (Err e) (v', s')) ->
  wp (Elf.place_page access vbase pbase pend ranges (page_at q)) (v, s) Q.
Proof.
  intros Hl Hq Hvb phys H1 H2. pose proof (ld_contained _ _ _ Hl) as Hc. unfold Elf.place_page.
  change (into_raw_value (page_at q)) with (q * PAGE_SIZE). pose proof (merged_false ranges (q * PAGE_SIZE) access) as Hmf.
  destruct (Elf.merged ranges (q * PAGE_SIZE) access) as [[|] m]; simpl in H1, Hmf.
  - apply (wp_ctrl _ _ I); [done|done| |done]. intros v' s' b old Hu HI Hl'. apply (H1 v' s' b Hu Hl'). intros _ off Hoff. unfold held. by rewrite HI.
  - rewrite (Hmf eq_refl) in H1. do 2 wstep. rewrite usize_sub_ok by done. wstep.
    apply wp_or_bad; [|intros _; by apply H2]. intros pa Hpa. wstep. apply wp_or_bad; [|intros _; by apply H2]. intros pe Hpe.
    unfold checked_add in Hpa, Hpe. destruct (Z.leb_spec (pbase + (q * PAGE_SIZE - vbase)) usize_max); [|done]. injection Hpa as <-.
    destruct (Z.leb_spec (pbase + (q * PAGE_SIZE - vbase) + PAGE_SIZE) usize_max); [|done]. injection Hpe as <-. fold phys.
    apply (wp_alloc _ _ I); [done|done| |done]. intros v' s' b Hu HI Hz Hl'. apply (H1 v' s' b Hu Hl').
    intros [Hlt|Hne]; [|done]. unfold held. rewrite HI. apply Hz. zbool; simpl; done || lia.
Qed.

(** The contents of a page matter up to its end. *)
Lemma loading_ext v s I I' : loading v s I -> (forall r, user_page r ->
    match I r, I' r with
    | Some (a, b), Some (a', b') => a = a' /\ forall off, 0 <= off < PAGE_SIZE -> b off = b' off
    | None, None => True
    | _, _ => False
    end) -> loading v s I'.
Proof.
  intros [Hc Hp] He. split; [done|]. intros r Hr. specialize (Hp r Hr). specialize (He r Hr).
  destruct (I r) as [[a b]|], (I' r) as [[a' b']|]; try done. destruct He as [<- Hb], Hp as (e & ? & ? & ? & ? & Hbe).
  exists e. splits; try done. intros off Hoff. by rewrite Hbe, Hb.
Qed.

(** A step of the loader. *)
Lemma wp_load_page v s I q access vbase pbase pend ranges last (Q : res Error Z → Vmem * MemState P → Prop) : loading v s I ->
  vbase <= q * PAGE_SIZE -> (q + 1) * PAGE_SIZE <= usize_max -> 0 <= pbase -> pbase <= pend ->
  pbase + (q * PAGE_SIZE - vbase) <= usize_max -> kernel_range x0 pbase (pend - pbase) ->
  (forall v' s', user_page q -> loading v' s' (page_image access vbase pbase pend ranges I q) -> Q (Ok (Z.max last ((q + 1) * PAGE_SIZE))) (v', s')) ->
  (forall e v' s', contained v' s' -> Q (Err e) (v', s')) ->
  wp (Elf.load_page false access vbase pbase pend ranges last (q * PAGE_SIZE)) (v, s) Q.
Proof.
  intros Hl Hvb Hu Hp0 Hpe Hpu Hk H1 H2. unfold Elf.load_page, Elf.bad. set (phys := pbase + (q * PAGE_SIZE - vbase)) in *.
  destruct (Z.ltb_spec (q * PAGE_SIZE) USER_BASE_RAW); [wstep; apply H2, Hl|]. assert (0 <= q) as Hq by (pages; lia).
  do 2 wstep. destruct (page_raw q Hq) as [E _]. simpl in E. rewrite E. change (into_raw_value (page_at q)) with (q * PAGE_SIZE).
  wstep. apply (wp_place _ _ I); [done|done|done| |done]. fold phys. intros v1 s1 b Huq Hl1 Hb.
  do 2 wstep. rewrite usize_add_ok by lia. do 2 wstep. rewrite usize_sub_ok by done. do 2 wstep. rewrite usize_add_ok by done. fold phys.
  assert (forall v2 s2, loading v2 s2 (page_image access vbase pbase pend ranges I q) ->
    wp (mret (if last <? q * PAGE_SIZE + PAGE_SIZE then q * PAGE_SIZE + PAGE_SIZE else last)) (v2, s2) Q) as Hend.
  { intros v2 s2 Hl2. wstep. replace (if last <? _ then _ else _) with (Z.max last ((q + 1) * PAGE_SIZE)) by (zbool; lia). by apply H1. }
  destruct (Z.ltb_spec phys pend) as [Hlt|Hge].
  - rewrite (proj2 (Z.ltb_lt 0 _)) by (pages; lia). wstep.
    eapply (wp_copy_page _ _ _ q _ b); [exact Hl1|done|unfold image_set; by rewrite Z.eqb_refl|pages; lia| | |done].
    { intros a Ha. apply Hk. unfold phys in *. lia. }
    intros v2 s2 Hl2. apply Hend. eapply loading_ext; [exact Hl2|]. intros r Hr. unfold page_image, image_set. fold phys.
    destruct (Z.eqb_spec r q) as [->|]; [|by destruct (I r) as [[]|]]. split; [done|]. intros off Hoff. unfold overwrite.
    destruct (Z.ltb_spec off (Z.min PAGE_SIZE (pend - phys))), (Z.ltb_spec off (pend - phys)); try lia. apply Hb; [lia|done].
  - do 2 wstep. apply Hend. eapply loading_ext; [exact Hl1|]. intros r Hr. unfold page_image, image_set. fold phys.
    destruct (Z.eqb_spec r q) as [->|]; [|by destruct (I r) as [[]|]]. split; [done|]. intros off Hoff. unfold overwrite.
    destruct (Z.ltb_spec off (pend - phys)); [lia|]. apply Hb; [pages; lia|done].
Qed.

(** ** Loading a segment *)

Fixpoint pages_image (n : nat) (access : AccessPermission) (vbase pbase pend : Z) (ranges : list (Z * Z * AccessPermission)) I (q : Z) : Image :=
  match n with
  | O => I
  | S n => pages_image n access vbase pbase pend ranges (page_image access vbase pbase pend ranges I q) (q + 1)
  end.

Lemma pages_image_out n access vbase pbase pend ranges I q r : ~ (q <= r < q + Z.of_nat n) ->
  pages_image n access vbase pbase pend ranges I q r = I r.
Proof.
  revert I q. induction n as [|n IH]; intros I q Hr; [done|]. cbn [pages_image]. rewrite IH by lia.
  unfold page_image, image_set. destruct (Z.eqb_spec r q); [lia|done].
Qed.

Lemma pages_image_in n access vbase pbase pend ranges I q r : q <= r < q + Z.of_nat n ->
  pages_image n access vbase pbase pend ranges I q r = page_image access vbase pbase pend ranges I r r.
Proof.
  revert I q. induction n as [|n IH]; intros I q Hr; [lia|]. cbn [pages_image]. destruct (decide (r = q)) as [->|].
  - by rewrite pages_image_out by lia.
  - rewrite IH by lia. assert (held (page_image access vbase pbase pend ranges I q) r = held I r) as Hh.
    { unfold held, page_image, image_set. by destruct (Z.eqb_spec r q). }
    unfold page_image at 1, image_set at 1. rewrite Z.eqb_refl, Hh. unfold page_image, image_set. by rewrite Z.eqb_refl.
Qed.

Lemma wp_load_pages n v s I q access vbase pbase pend ranges last (Q : res Error Z → Vmem * MemState P → Prop) : loading v s I ->
  USER_BASE_RAW <= vbase -> vbase <= q * PAGE_SIZE -> (q + Z.of_nat n) * PAGE_SIZE <= usize_max -> 0 <= pbase <= USER_BASE_RAW -> pbase <= pend ->
  kernel_range x0 pbase (pend - pbase) ->
  (forall v' s', (forall r, q <= r < q + Z.of_nat n -> user_page r) -> loading v' s' (pages_image n access vbase pbase pend ranges I q) ->
     Q (Ok (if Nat.eqb n 0 then last else Z.max last ((q + Z.of_nat n) * PAGE_SIZE))) (v', s')) ->
  (forall e v' s', contained v' s' -> Q (Err e) (v', s')) ->
  wp (Elf.load_pages n false access vbase pbase pend ranges last (q * PAGE_SIZE)) (v, s) Q.
Proof.
  revert v s I q last. induction n as [|n IH]; intros v s I q last Hl Hv0 Hvb Hu Hp0 Hpe Hk H1 H2; cbn [Elf.load_pages].
  { wstep. apply H1; [lia|done]. }
  wstep. apply (wp_load_page _ _ I); [done|done|pages; lia|lia|done|pages; lia|done| |done]. intros v1 s1 Huq Hl1.
  replace (q * PAGE_SIZE + PAGE_SIZE) with ((q + 1) * PAGE_SIZE) by lia.
  apply (IH v1 s1 (page_image access vbase pbase pend ranges I q)); [done|done|pages; lia|pages; lia|done|done|done| |done].
  intros v2 s2 Hus Hl2. replace (if Nat.eqb n 0 then _ else _) with (Z.max last ((q + Z.of_nat (S n)) * PAGE_SIZE)).
  - apply H1; [|done]. intros r Hr. destruct (decide (r = q)) as [->|]; [done|]. apply Hus. lia.
  - destruct n; simpl Nat.eqb; cbv iota; pages; lia.
Qed.

Lemma Alignment_try_value a al : Alignment_try_from a = Ok al -> Alignment_value al = a.
Proof. unfold Alignment_try_from. repeat case_match; intros [= <-]; done. Qed.

(** The addresses of a segment, rounded as the loader does. *)
Definition seg_addr (lb : Z) (p : Elf32Phdr) : Z := p_vaddr p + lb.
Definition seg_first (lb : Z) (p : Elf32Phdr) : Z := seg_addr lb p - seg_addr lb p mod p_align p.
Definition seg_past (lb : Z) (p : Elf32Phdr) : Z := (seg_addr lb p + p_memsz p + (PAGE_SIZE - 1)) / PAGE_SIZE * PAGE_SIZE.

Variables (elf len lb : Z).
Hypothesis Hlen : 0 < len.
Hypothesis Hker : kernel_range x0 elf len.
Hypothesis Hlb : 0 <= lb.

Record phdr_ok (p : Elf32Phdr) : Prop := {
  ph_vaddr : 0 <= p_vaddr p;
  ph_offset : 0 <= p_offset p;
  ph_filesz : 0 <= p_filesz p;
  ph_memsz : 0 <= p_memsz p;
  ph_inside : Elf.is_loadable p = true -> p_offset p + p_filesz p <= len
}.

Definition seg_ranges (p : Elf32Phdr) (ranges : list (Z * Z * AccessPermission)) : list (Z * Z * AccessPermission) :=
  if Elf.is_loadable p then
    if Nat.ltb (length ranges) Elf.MAX_LOAD_SEGMENTS then ranges ++ [(seg_first lb p, seg_past lb p, Elf.segment_access p)] else ranges
  else ranges.

Definition seg_pages (p : Elf32Phdr) : nat := Z.to_nat ((seg_past lb p - seg_first lb p) / PAGE_SIZE).

Definition seg_image (p : Elf32Phdr) (ranges : list (Z * Z * AccessPermission)) I : Image :=
  if Elf.is_loadable p then
    pages_image (seg_pages p) (Elf.segment_access p) (seg_first lb p) (elf + p_offset p) (elf + p_offset p + p_filesz p) ranges I
      (seg_first lb p / PAGE_SIZE)
  else I.

(** A page of a segment. *)
Definition in_segment (p : Elf32Phdr) (q : Z) : Prop :=
  Elf.is_loadable p = true /\ seg_first lb p <= q * PAGE_SIZE < seg_past lb p.

Lemma wp_set_vec v s (Q : res Error unit → Vmem * MemState P → Prop) : vec (phys s) = [] -> Q (Ok tt) (v, s) ->
  wp (Vmem.on_mem (KMem.on_phys (Phys.set_vec []))) (v, s) Q.
Proof. intros Hv HQ. apply wp_on_mem, wp_on_phys. unfold Phys.set_vec. destruct s as [[fr ta ve] m]. simpl in *. subst ve. by wsteps. Qed.

(** A segment that starts in the middle of a page is refused. *)
Lemma wp_unaligned n dry v s access vbase pbase pend ranges last (Q : res Error Z → Vmem * MemState P → Prop) : (0 < n)%nat ->
  vbase mod PAGE_SIZE <> 0 \/ vbase < USER_BASE_RAW -> (forall e, Q (Err e) (v, s)) ->
  wp (Elf.load_pages n dry access vbase pbase pend ranges last vbase) (v, s) Q.
Proof.
  intros Hn Hv HQ. destruct n as [|n]; [lia|]. cbn [Elf.load_pages]. unfold Elf.load_page, Elf.bad. wstep.
  destruct (Z.ltb_spec vbase USER_BASE_RAW); [wstep; apply HQ|]. destruct Hv as [Hv|]; [|lia]. do 2 wstep.
  unfold PageAligned_from_address. simpl. rewrite is_aligned_mod. change (Alignment_value PAGE_ALIGNMENT) with PAGE_SIZE.
  rewrite (proj2 (Z.eqb_neq _ _) Hv). apply HQ.
Qed.

(** What the checks of a segment compute. *)
Record seg_facts (p : Elf32Phdr) (vend : Z) : Prop := {
  sf_end : seg_past lb p = vend;
  sf_first : 0 <= seg_first lb p <= seg_addr lb p;
  sf_past : seg_addr lb p + p_memsz p <= vend <= usize_max;
  sf_aligned : vend mod PAGE_SIZE = 0;
  sf_steps : seg_first lb p mod PAGE_SIZE = 0 -> Elf.steps (seg_first lb p) vend = seg_pages p /\
    (seg_first lb p / PAGE_SIZE + Z.of_nat (seg_pages p)) * PAGE_SIZE = vend;
  sf_some : seg_first lb p mod PAGE_SIZE <> 0 -> (0 < Elf.steps (seg_first lb p) vend)%nat
}.

Lemma seg_facts_ok p al vend : phdr_ok p -> Alignment_try_from (p_align p) = Ok al -> seg_addr lb p <= usize_max ->
  align_up (seg_addr lb p + p_memsz p) PAGE_ALIGNMENT = Some vend -> align_down (seg_addr lb p) al = seg_first lb p /\ seg_facts p vend.
Proof.
  intros [H1 H2 H3 H4 _] Hal Hu He. apply Alignment_try_value in Hal as Hv. assert (0 <= seg_addr lb p) as H0 by (unfold seg_addr; lia).
  pose proof (Alignment_pos al) as Hpos. split; [rewrite align_down_mod by lia; unfold seg_first; by rewrite Hv|].
  assert (seg_addr lb p + p_memsz p + (PAGE_SIZE - 1) <= usize_max) as Hle.
  { unfold align_up, checked_add in He. change (Alignment_value PAGE_ALIGNMENT) with PAGE_SIZE in He. destruct (Z.leb_spec (seg_addr lb p + p_memsz p + (PAGE_SIZE - 1)) usize_max); [done|discriminate]. }
  assert (vend = seg_past lb p) as Hend.
  { unfold align_up, checked_add in He. change (Alignment_value PAGE_ALIGNMENT) with PAGE_SIZE in He. rewrite (proj2 (Z.leb_le _ _) Hle) in He. injection He as <-.
    change (Z.land ?x (usize_not (PAGE_SIZE - 1))) with (align_down x PAGE_ALIGNMENT). rewrite align_down_page by (pages; lia). done. }
  assert (0 <= seg_first lb p <= seg_addr lb p) as Hf.
  { unfold seg_first. rewrite <- Hv. pose proof (Z.mod_pos_bound (seg_addr lb p) (Alignment_value al) ltac:(lia)). pose proof (Z.mod_le (seg_addr lb p) (Alignment_value al)). lia. }
  assert (seg_addr lb p + p_memsz p <= vend <= usize_max) as Hp.
  { subst vend. unfold seg_past. pose proof (Z.div_mod (seg_addr lb p + p_memsz p + (PAGE_SIZE - 1)) PAGE_SIZE ltac:(done)).
    pose proof (Z.mod_pos_bound (seg_addr lb p + p_memsz p + (PAGE_SIZE - 1)) PAGE_SIZE ltac:(done)). pages. lia. }
  assert (vend mod PAGE_SIZE = 0) as Hm by (subst vend; by apply Z.mod_mul).
  pose proof (Z.div_mod vend PAGE_SIZE ltac:(done)). pose proof (Z.div_mod (seg_first lb p) PAGE_SIZE ltac:(done)).
  pose proof (Z.mod_pos_bound (seg_first lb p) PAGE_SIZE ltac:(done)).
  split; [done|done|done|done| |].
  - intros Hz. unfold Elf.steps, seg_pages. rewrite <- Hend. set (a := vend / PAGE_SIZE) in *. set (b := seg_first lb p / PAGE_SIZE) in *.
    assert (vend - seg_first lb p = (a - b) * PAGE_SIZE) as -> by lia. rewrite Z.div_mul by done.
    replace (((a - b) * PAGE_SIZE + PAGE_SIZE - 1) / PAGE_SIZE) with (a - b) by (apply (Z.div_unique _ _ _ (PAGE_SIZE - 1)); pages; lia).
    split; [done|]. rewrite Z2Nat.id; pages; lia.
  - intros Hz. unfold Elf.steps. assert (1 <= (vend - seg_first lb p + PAGE_SIZE - 1) / PAGE_SIZE); [apply Z.div_le_lower_bound; [done|]|lia].
    assert (vend <> seg_first lb p) by congruence. pages. lia.
Qed.

(** The checks of a segment, before its pages are loaded. *)
Lemma wp_segment_start dry v s p pr (Q : res Error Elf.Progress → Vmem * MemState P → Prop) : vec (phys s) = [] -> phdr_ok p ->
  (Elf.is_loadable p = false -> Q (Ok pr) (v, s)) -> (forall e, Q (Err e) (v, s)) ->
  (Elf.is_loadable p = true -> p_filesz p <= p_memsz p -> seg_first lb p mod PAGE_SIZE = 0 ->
     USER_BASE_RAW <= seg_first lb p \/ seg_pages p = 0%nat -> seg_facts p (seg_past lb p) ->
     wp (last ← Elf.load_pages (seg_pages p) dry (Elf.segment_access p) (seg_first lb p) (elf + p_offset p) (elf + p_offset p + p_filesz p)
           (Elf.loaded_ranges pr) (Elf.last_address pr) (seg_first lb p / PAGE_SIZE * PAGE_SIZE);
         mret (Elf.mkProgress last (seg_ranges p (Elf.loaded_ranges pr)))) (v, s) Q) ->
  wp (Elf.load_segment dry elf lb p pr) (v, s) Q.
Proof.
  intros Hvec Hph H0 H2 H1. destruct (kernel_bound x0 Hi0 elf len Hlen Hker) as [He0 He1].
  pose proof user_above as Hua. unfold Elf.load_segment, Elf.bad. destruct (Elf.is_loadable p) eqn:Hld; cbn [negb]; [|wstep; by apply H0].
  unfold Elf.validate_segment. destruct (Z.ltb_spec (p_memsz p) (p_filesz p)); [wstep; by apply H2|]. do 2 wstep.
  destruct (Alignment_try_from (p_align p)) as [al|e|] eqn:Hal; [|by apply H2|by unfold Alignment_try_from in Hal; repeat case_match].
  simpl. wstep. apply wp_or_bad; [|intros _; by apply H2]. intros adj Hadj. unfold checked_add in Hadj. fold (seg_addr lb p) in Hadj.
  destruct (Z.leb_spec (seg_addr lb p) usize_max) as [Hadd|]; [|done]. injection Hadj as <-. wstep. rewrite Z.max_r by done.
  apply wp_or_bad; [|intros _; by apply H2]. intros ve Hve. unfold checked_add in Hve. destruct (Z.leb_spec (seg_addr lb p + p_memsz p) usize_max); [|done].
  injection Hve as <-. wstep. apply wp_or_bad; [|intros _; by apply H2]. intros vend Hvend.
  destruct (seg_facts_ok p al vend Hph Hal Hadd Hvend) as [Hdown Hfa]. pose proof Hfa as [Hend Hfirst Hpast Hmod Hsteps Hsome]. rewrite Hdown. subst vend.
  pose proof Hph as [P1 P2 P3 P4 P5]. specialize (P5 Hld). assert (Elf.ptr_offset elf (p_offset p) = elf + p_offset p) as ->.
  { unfold Elf.ptr_offset. apply Z.mod_small. pages. lia. }
  do 2 wstep. rewrite usize_add_ok by (pages; lia). wstep. apply wp_set_vec; [done|].
  destruct (decide (seg_first lb p mod PAGE_SIZE = 0)) as [Hz|Hz]; [|wstep; apply wp_unaligned; [by apply Hsome|by left|intros; by apply H2]].
  destruct (Hsteps Hz) as [-> Hn]. pose proof (Z.div_mod (seg_first lb p) PAGE_SIZE ltac:(done)) as Hdm. rewrite Hz in Hdm.
  destruct (decide (seg_first lb p < USER_BASE_RAW /\ (0 < seg_pages p)%nat)) as [[Hlow Hpos]|Hok].
  { wstep. apply wp_unaligned; [done|by right|intros; by apply H2]. }
  unfold seg_ranges in H1. rewrite Hld in H1. replace (seg_first lb p / PAGE_SIZE * PAGE_SIZE) with (seg_first lb p) in H1 by lia.
  apply H1; [done|done|done|lia|done].
Qed.

(** The pages of a segment, by number. *)
Lemma in_segment_pages p q : seg_facts p (seg_past lb p) -> seg_first lb p mod PAGE_SIZE = 0 ->
  in_segment p q <-> Elf.is_loadable p = true /\ seg_first lb p / PAGE_SIZE <= q < seg_first lb p / PAGE_SIZE + Z.of_nat (seg_pages p).
Proof.
  intros [_ _ _ _ Hn _] Hz. destruct (Hn Hz) as [_ Hn']. pose proof (Z.div_mod (seg_first lb p) PAGE_SIZE ltac:(done)) as Hdm. rewrite Hz in Hdm.
  unfold in_segment. assert (forall q, seg_first lb p <= q * PAGE_SIZE < seg_past lb p <-> seg_first lb p / PAGE_SIZE <= q < seg_first lb p / PAGE_SIZE + Z.of_nat (seg_pages p)) as H.
  { intros r. pages. lia. }
  by rewrite H.
Qed.

(** What a segment that has been loaded looks like. *)
Record seg_good (last : Z) (p : Elf32Phdr) : Prop := {
  sg_size : p_filesz p <= p_memsz p;
  sg_page : seg_first lb p mod PAGE_SIZE = 0;
  sg_facts : seg_facts p (seg_past lb p);
  sg_user q : in_segment p q -> user_page q;
  sg_last : 0 < p_memsz p -> seg_past lb p <= last
}.

Lemma wp_load_segment v s I p pr (Q : res Error Elf.Progress → Vmem * MemState P → Prop) : loading v s I -> phdr_ok p ->
  (Elf.is_loadable p = false -> Q (Ok pr) (v, s)) ->
  (forall v' s' last, Elf.is_loadable p = true -> seg_good last p -> Elf.last_address pr <= last ->
     loading v' s' (seg_image p (Elf.loaded_ranges pr) I) -> Q (Ok (Elf.mkProgress last (seg_ranges p (Elf.loaded_ranges pr)))) (v', s')) ->
  (forall e v' s', contained v' s' -> Q (Err e) (v', s')) ->
  wp (Elf.load_segment false elf lb p pr) (v, s) Q.
Proof.
  intros Hl Hph H0 H1 H2. pose proof (ld_contained _ _ _ Hl) as Hc. destruct (kernel_bound x0 Hi0 elf len Hlen Hker) as [He0 He1].
  pose proof user_above as Hua. apply wp_segment_start; [apply Hc|done|done|intros; by apply H2|].
  intros Hld Hsz Hz Hlow Hfa. pose proof Hfa as [_ Hfirst Hpast _ Hn _]. destruct (Hn Hz) as [_ Hn']. pose proof (in_segment_pages p) as Hin.
  pose proof Hph as [P1 P2 P3 P4 P5]. specialize (P5 Hld).
  assert (forall v' s' last, (forall r, seg_first lb p / PAGE_SIZE <= r < seg_first lb p / PAGE_SIZE + Z.of_nat (seg_pages p) -> user_page r) ->
    last = (if Nat.eqb (seg_pages p) 0 then Elf.last_address pr else Z.max (Elf.last_address pr) (seg_past lb p)) ->
    loading v' s' (seg_image p (Elf.loaded_ranges pr) I) ->
    Q (Ok (Elf.mkProgress last (seg_ranges p (Elf.loaded_ranges pr)))) (v', s')) as Hdone.
  { intros v' s' last Hus -> Hl'. apply H1; [done| |destruct (Nat.eqb (seg_pages p) 0); lia|done]. split; [done|done|done| |].
    - intros q Hq. apply Hus. by apply Hin in Hq as [_ Hq].
    - intros Hm. destruct (Nat.eqb_spec (seg_pages p) 0) as [E|]; [|lia]. rewrite E in Hn'. unfold seg_addr in *.
      pose proof (Z.div_mod (seg_first lb p) PAGE_SIZE ltac:(done)). pages. lia. }
  unfold seg_image in Hdone. rewrite Hld in Hdone. wstep. destruct (Nat.eq_dec (seg_pages p) 0) as [E|E].
  { rewrite E in *. cbn [Elf.load_pages]. do 2 wstep. apply Hdone; [lia|done|done]. }
  pose proof (Z.div_mod (seg_first lb p) PAGE_SIZE ltac:(done)).
  apply (wp_load_pages _ _ _ I); [done|lia|lia|lia|pages; lia|lia| | |intros; by apply H2].
  { intros a Ha. apply Hker. lia. }
  intros v' s' Hus Hl'. rewrite (proj2 (Nat.eqb_neq _ _) E). wstep. apply Hdone; [done| |done]. by rewrite (proj2 (Nat.eqb_neq _ _) E), Hn'.
Qed.

(** ** The first pass *)

(** Code that returns and changes nothing. *)
Definition quiet {A} v s (r : res Error A) (t : Vmem * MemState P) : Prop := r <> Panic /\ t = (v, s).

Lemma wp_dry_copy v s dst src n : 0 < n -> 0 <= src -> wp (UserCopy.copy_to_user_unaligned_unchecked dst src n true) (v, s) (quiet v s).
Proof.
  intros Hn Hs. unfold UserCopy.copy_to_user_unaligned_unchecked. destruct (Z.eqb_spec n 0); [lia|].
  destruct (is_kernel_region _ _); cbn [negb]; [|by wstep]. destruct (is_user_region _ _) eqn:Hu; cbn [negb]; [|by wstep].
  apply is_user_region_spec in Hu as (_ & Hlo & Hhi); [|lia]. simpl in Hlo, Hhi. do 2 wstep. rewrite copy_to_start.
  apply (wp_copy_to_dry _ v s dst src n 0); [lia|done|done|done|done|lia|intros _; rewrite Z.add_0_r; by apply fuel_enough|done|done].
Qed.

Lemma wp_dry_pages n v s q access vbase pbase pend ranges last : USER_BASE_RAW <= vbase -> vbase <= q * PAGE_SIZE ->
  (q + Z.of_nat n) * PAGE_SIZE <= usize_max -> 0 <= pbase <= USER_BASE_RAW ->
  wp (Elf.load_pages n true access vbase pbase pend ranges last (q * PAGE_SIZE)) (v, s) (quiet v s).
Proof.
  revert q last. induction n as [|n IH]; intros q last Hv0 Hvb Hu Hp0; cbn [Elf.load_pages]; [by wstep|].
  wstep. unfold Elf.load_page, Elf.bad. destruct (Z.ltb_spec (q * PAGE_SIZE) USER_BASE_RAW); [by wstep|]. assert (0 <= q) as Hq by (pages; lia).
  do 2 wstep. destruct (page_raw q Hq) as [E _]. simpl in E. rewrite E. change (into_raw_value (page_at q)) with (q * PAGE_SIZE).
  do 4 wstep. rewrite usize_add_ok by (pages; lia). do 2 wstep. rewrite usize_sub_ok by done. do 2 wstep. rewrite usize_add_ok by (pages; lia).
  assert (forall l, wp (Elf.load_pages n true access vbase pbase pend ranges l (q * PAGE_SIZE + PAGE_SIZE)) (v, s) (quiet v s)) as Hnext.
  { intros l. replace (q * PAGE_SIZE + PAGE_SIZE) with ((q + 1) * PAGE_SIZE) by lia. apply IH; pages; lia. }
  wstep. destruct (Z.ltb_spec (pbase + (q * PAGE_SIZE - vbase)) pend); [|do 2 wstep; apply Hnext].
  rewrite (proj2 (Z.ltb_lt 0 _)) by (pages; lia). eapply wp_mono; [apply wp_dry_copy; pages; lia|].
  intros [[]|e|] t [Hr ->]; [wstep; apply Hnext|done|done].
Qed.

Lemma wp_dry_segments v s ps pr : vec (phys s) = [] -> Forall phdr_ok ps -> wp (Elf.load_segments true elf lb ps pr) (v, s) (quiet v s).
Proof.
  intros Hv. revert pr. induction ps as [|p ps IH]; intros pr Hps; cbn [Elf.load_segments]; [by wstep|].
  apply Forall_cons in Hps as [Hp Hps]. destruct (kernel_bound x0 Hi0 elf len Hlen Hker) as [He0 He1]. pose proof user_above as Hua.
  wstep. apply wp_segment_start; [done|done|intros _; by apply IH|done|].
  intros Hld Hsz Hz Hlow [_ _ Hpast _ Hn _]. destruct (Hn Hz) as [_ Hn']. pose proof Hp as [P1 P2 P3 P4 P5]. specialize (P5 Hld).
  pose proof (Z.div_mod (seg_first lb p) PAGE_SIZE ltac:(done)). wstep. destruct (Nat.eq_dec (seg_pages p) 0) as [E|E].
  { rewrite E. cbn [Elf.load_pages]. do 2 wstep. by apply IH. }
  eapply wp_mono; [apply wp_dry_pages; pages; lia|]. intros [l|e|] t [Hr ->]; [wstep; by apply IH|done|done].
Qed.

(** ** All segments *)

Fixpoint segs_image (ps : list Elf32Phdr) (ranges : list (Z * Z * AccessPermission)) I : Image :=
  match ps with
  | [] => I
  | p :: ps => segs_image ps (seg_ranges p ranges) (seg_image p ranges I)
  end.

Definition segs_good (last : Z) (ps : list Elf32Phdr) : Prop := forall p, p ∈ ps -> Elf.is_loadable p = true -> seg_good last p.

Lemma seg_good_mono last last' p : last <= last' -> seg_good last p -> seg_good last' p.
Proof. intros Hl []. split; try done. lia. Qed.

Lemma wp_load_segments v s I ps pr (Q : res Error Elf.Progress → Vmem * MemState P → Prop) : loading v s I -> Forall phdr_ok ps ->
  (forall v' s' pr', segs_good (Elf.last_address pr') ps -> Elf.last_address pr <= Elf.last_address pr' ->
     loading v' s' (segs_image ps (Elf.loaded_ranges pr) I) -> Q (Ok pr') (v', s')) ->
  (forall e v' s', contained v' s' -> Q (Err e) (v', s')) ->
  wp (Elf.load_segments false elf lb ps pr) (v, s) Q.
Proof.
  revert v s I pr. induction ps as [|p ps IH]; intros v s I pr Hl Hps H1 H2; cbn [Elf.load_segments].
  { wstep. apply H1; [by intros p ?%elem_of_nil|done|done]. }
  apply Forall_cons in Hps as [Hp Hps]. wstep. apply (wp_load_segment _ _ I); [done|done| | |done].
  - intros Hld. apply (IH v s I pr); [done|done| |done]. intros v' s' pr' Hg Hla Hl'. apply H1; [|done|].
    + intros p' [->|Hin]%elem_of_cons; [congruence|by apply Hg].
    + cbn [segs_image]. unfold seg_image, seg_ranges. by rewrite Hld.
  - intros v1 s1 last Hld Hgood Hlast Hl1. apply (IH v1 s1 _ _ Hl1 Hps); [|done]. simpl. intros v' s' pr' Hg Hla Hl'. apply H1; [|lia|done].
    intros p' [->|Hin]%elem_of_cons; [intros _; by eapply seg_good_mono|by apply Hg].
Qed.

(** ** The image of a page that one segment has *)

Definition covered (ranges : list (Z * Z * AccessPermission)) (a : Z) : Prop := exists st pa ac, (st, pa, ac) ∈ ranges /\ st <= a < pa.

Lemma merged_free ranges a access : ~ covered ranges a -> Elf.merged ranges a access = (false, access).
Proof.
  unfold Elf.merged. induction ranges as [|[[st pa] ac] rs IH]; intros Hn; [done|]. simpl.
  destruct (Z.leb_spec st a), (Z.ltb_spec a pa); simpl; try (apply IH; intros (st' & pa' & ac' & Hin & Ha); apply Hn; exists st', pa', ac'; split; [by right|done]).
  destruct Hn. exists st, pa, ac. split; [left|lia].
Qed.

Lemma covered_ranges p ranges q : covered (seg_ranges p ranges) (q * PAGE_SIZE) -> covered ranges (q * PAGE_SIZE) \/ in_segment p q.
Proof.
  unfold seg_ranges, in_segment. destruct (Elf.is_loadable p); [|by left]. destruct (Nat.ltb _ _); [|by left].
  intros (st & pa & ac & [Hin|[= -> -> ->]%list_elem_of_singleton]%elem_of_app & Ha); [left; by exists st, pa, ac|by right].
Qed.

Lemma seg_image_out last p ranges I q : (Elf.is_loadable p = true -> seg_good last p) -> ~ in_segment p q -> seg_image p ranges I q = I q.
Proof.
  intros Hg Hn. unfold seg_image. destruct (Elf.is_loadable p) eqn:Hld; [|done]. destruct (Hg eq_refl) as [_ Hz Hfa _ _].
  rewrite (in_segment_pages p q Hfa Hz) in Hn. apply pages_image_out. tauto.
Qed.

Lemma segs_image_out last ps ranges I q : segs_good last ps -> (forall p, p ∈ ps -> ~ in_segment p q) -> segs_image ps ranges I q = I q.
Proof.
  revert ranges I. induction ps as [|p ps IH]; intros ranges I Hg Hn; [done|]. cbn [segs_image].
  rewrite IH; [|intros p' Hin; apply Hg; by right|intros p' Hin; apply Hn; by right].
  apply (seg_image_out last); [apply Hg; left|apply Hn; left].
Qed.

(** The bytes of the file, then zeros. *)
Definition seg_content (p : Elf32Phdr) (q : Z) : Z → Z :=
  let phys := elf + p_offset p + (q * PAGE_SIZE - seg_first lb p) in
  overwrite (elf + p_offset p + p_filesz p - phys) phys (fun _ => 0).

Lemma segs_image_in last ps1 p ps2 ranges I q : segs_good last (ps1 ++ p :: ps2) -> in_segment p q ->
  (forall p', p' ∈ ps1 ++ ps2 -> ~ in_segment p' q) -> I q = None -> ~ covered ranges (q * PAGE_SIZE) ->
  segs_image (ps1 ++ p :: ps2) ranges I q = Some (Elf.segment_access p, seg_content p q).
Proof.
  revert ranges I. induction ps1 as [|p1 ps1 IH]; intros ranges I Hg Hin Hn HI Hc; cbn [app segs_image].
  - pose proof Hin as [Hld _]. destruct (Hg p ltac:(left) Hld) as [_ Hz Hfa _ _].
    rewrite (segs_image_out last); [|intros p' Hp'; apply Hg; by right|done]. unfold seg_image. rewrite Hld.
    apply (in_segment_pages p q Hfa Hz) in Hin as [_ Hq]. rewrite pages_image_in by done. unfold page_image, image_set, held, seg_content.
    by rewrite Z.eqb_refl, merged_free, HI by done.
  - assert (~ in_segment p1 q) as Hn1 by (apply Hn; left). apply IH; [intros p' Hp'; apply Hg; by right|done|intros p' Hp'; apply Hn; by right| |].
    + by rewrite (seg_image_out last) by (done || (apply Hg; left)).
    + by intros [?|?]%covered_ranges.
Qed.
End Spec.

(** ** Programs *)

Section Programs.
Context {CF : Config} {HC : ConfigOk} {UA : UserAbove} {P : Type} {IM : IdentityMap P} {PM : KMem.PreMapped P}.
Variable x0 : Inner Bitmap.
Hypothesis Hi0 : Frame.inv x0.

(** The image of a program lies in memory of the kernel, with its headers and the
    contents of its segments, as the caller of the loader has to see to. *)
Record image_ok (m : Z → Z) (elf len : Z) : Prop := {
  im_kernel : kernel_range x0 elf len;
  im_header : 52 <= len;
  im_bytes a : elf <= a < elf + len -> 0 <= m a < 256;
  im_phdrs : let h := Elf.read_fhdr m elf in e_phoff h + e_phnum h * Elf.PHDR_SIZE <= len;
  im_segments p : p ∈ Elf.phdrs m elf (Elf.read_fhdr m elf) -> Elf.is_loadable p = true -> p_offset p + p_filesz p <= len
}.

Lemma u32_range m a : (forall i, 0 <= i < 4 -> 0 <= m (a + i) < 256) -> 0 <= Elf.u32 m a < 2 ^ 32.
Proof.
  intros H. unfold Elf.u32, Elf.u16. pose proof (H 0 ltac:(lia)). pose proof (H 1 ltac:(lia)). pose proof (H 2 ltac:(lia)). pose proof (H 3 ltac:(lia)).
  rewrite Z.add_0_r in *. replace (a + 2 + 1) with (a + 3) by lia. lia.
Qed.

Lemma phdrs_ok m elf len : image_ok m elf len -> Forall (phdr_ok len) (Elf.phdrs m elf (Elf.read_fhdr m elf)).
Proof.
  intros [Hk Hl Hb Hp Hs]. destruct (kernel_bound x0 Hi0 elf len ltac:(lia) Hk) as [He0 He1]. pose proof user_above.
  assert (0 <= e_phoff (Elf.read_fhdr m elf)) as Hoff by (apply u32_range; intros i Hi; apply Hb; lia).
  apply Forall_forall. intros p Hin. pose proof Hin as Hin'. unfold Elf.phdrs in Hin'. apply list_elem_of_fmap in Hin' as (i & -> & Hi%elem_of_seqZ).
  cbv zeta in Hp. unfold Elf.PHDR_SIZE in *. assert (Elf.ptr_offset elf (e_phoff (Elf.read_fhdr m elf)) = elf + e_phoff (Elf.read_fhdr m elf)) as E.
  { unfold Elf.ptr_offset. apply Z.mod_small. cbn [e_phoff Elf.read_fhdr] in *. pages. lia. }
  rewrite E in *. cbn [e_phoff e_phnum Elf.read_fhdr] in *.
  split; simpl; [apply u32_range; intros j Hj; apply Hb; lia..|]. by apply Hs.
Qed.

Lemma load_base_nonneg h ps : 0 <= Elf.load_base h ps.
Proof. unfold Elf.load_base. repeat case_match; lia. Qed.

Section Load.
Variables (R : list FrameAddress) (v : Vmem) (s : MemState P) (elf len : Z).
Hypothesis Hs : sound x0 R v s.
Hypothesis Hvec : vec (phys s) = [].
Hypothesis Hnone : forall q, user_page q -> mapping v q = None.
Hypothesis Him : image_ok (memory s) elf len.

Let h := Elf.read_fhdr (memory s) elf.
Let ps := Elf.phdrs (memory s) elf h.
Let lb := Elf.load_base h ps.

(** What a program finds: the pages of a segment that shares none with others and lies at
    a multiple of its alignment hold the bytes of the file, followed by zeros; nothing
    else is mapped. *)
Record loaded (entry : VirtualAddress) (last : PageAligned VirtualAddress) v' (s' : MemState P) : Prop := {
  lo_entry : va_raw entry = e_entry h + lb /\ USER_BASE_RAW <= va_raw entry;
  lo_rest q : user_page q -> (forall p, p ∈ ps -> ~ in_segment lb p q) -> mapping v' q = None;
  lo_end p : p ∈ ps -> Elf.is_loadable p = true -> 0 < p_memsz p -> seg_addr lb p + p_memsz p <= into_raw_value last;
  lo_segment ps1 p ps2 i : ps = ps1 ++ p :: ps2 -> Elf.is_loadable p = true -> seg_addr lb p mod p_align p = 0 ->
    (forall p' q, p' ∈ ps1 ++ ps2 -> in_segment lb p q -> ~ in_segment lb p' q) -> 0 <= i < p_memsz p ->
    exists e, mapping v' ((seg_addr lb p + i) / PAGE_SIZE) = Some e /\ pte_writable e = is_writable (Elf.segment_access p) /\
      page_byte (memory s') e ((seg_addr lb p + i) mod PAGE_SIZE) = if i <? p_filesz p then memory s (elf + p_offset p + i) else 0
}.

Lemma start_loading : loading x0 R v (memory s) v s (fun _ => None).
Proof. split; [split; done|]. intros q Hq. by apply Hnone. Qed.

(** From the image to what the program finds. *)
Lemma loaded_image entry lst last v' s' : va_raw entry = e_entry h + lb /\ USER_BASE_RAW <= va_raw entry -> lst <= into_raw_value last ->
  segs_good lb lst ps -> loading x0 R v (memory s) v' s' (segs_image (memory s) elf lb ps [] (fun _ => None)) ->
  loaded entry last v' s'.
Proof.
  intros He Hla Hg Hl. split; [done| | |].
  - intros q Hq Hn. pose proof (ld_pages _ _ _ _ _ _ _ Hl q Hq) as Hsh. by rewrite (segs_image_out _ _ _ lst) in Hsh by done.
  - intros p Hin Hld Hm. destruct (Hg p Hin Hld) as [_ _ Hfa _ Hlast]. pose proof (sf_past _ _ _ Hfa). specialize (Hlast Hm). lia.
  - intros ps1 p ps2 i E Hld Hal Hdis Hi. assert (p ∈ ps) as Hin by (rewrite E; set_solver). destruct (Hg p Hin Hld) as [Hsz Hz Hfa Hus _].
    assert (seg_first lb p = seg_addr lb p) as Hfirst by (unfold seg_first; rewrite Hal; lia).
    pose proof (sf_past _ _ _ Hfa) as Hpast. pose proof (sf_first _ _ _ Hfa) as Hf0. rewrite Hfirst in *.
    set (a := seg_addr lb p + i) in *. set (q := a / PAGE_SIZE). pose proof (Z.div_mod a PAGE_SIZE ltac:(done)) as Hdm. fold q in Hdm.
    pose proof (Z.mod_pos_bound a PAGE_SIZE ltac:(done)) as Hmb. pose proof (Z.div_mod (seg_addr lb p) PAGE_SIZE ltac:(done)) as Hd0.
    assert (in_segment lb p q) as Hseg by (split; [done|]; rewrite Hfirst; pose proof (sf_aligned _ _ _ Hfa); pages; lia).
    pose proof (ld_pages _ _ _ _ _ _ _ Hl q (Hus q Hseg)) as Hsh. rewrite E in Hsh, Hg.
    rewrite (segs_image_in _ _ _ lst) in Hsh; [|done|done|intros p' Hp'; by apply (Hdis p' q Hp')|done|by intros (? & ? & ? & ?%elem_of_nil & _)].
    destruct Hsh as (e & Hme & _ & Hw & _ & Hb). exists e. splits; [done|done|]. rewrite Hb by done. unfold seg_content, overwrite. rewrite Hfirst.
    replace (elf + p_offset p + (q * PAGE_SIZE - seg_addr lb p) + a mod PAGE_SIZE) with (elf + p_offset p + i) by (unfold a in *; lia).
    destruct (Z.ltb_spec (a mod PAGE_SIZE) (elf + p_offset p + p_filesz p - (elf + p_offset p + (q * PAGE_SIZE - seg_addr lb p)))), (Z.ltb_spec i (p_filesz p)); unfold a in *; done || lia.
Qed.

(** The parts that both passes have in common. *)
Lemma wp_do_load dry (Q : res Error (VirtualAddress * PageAligned VirtualAddress) → Vmem * MemState P → Prop) :
  (forall e, Q (Err e) (v, s)) ->
  (forall entry, va_raw entry = e_entry h + lb /\ USER_BASE_RAW <= va_raw entry ->
     wp (pr ← Elf.load_segments dry elf lb ps (Elf.mkProgress 0 []);
         last ← Elf.or_bad "align_up overflow" (align_up (Elf.last_address pr) PAGE_ALIGNMENT);
         last ← lift (PageAligned_from_address (mkVirtualAddress last));
         mret (entry, last)) (v, s) Q) ->
  wp (Elf.do_elf32_load elf dry) (v, s) Q.
Proof.
  intros H2 H1. unfold Elf.do_elf32_load, Elf.bad. wstep. apply wp_on_mem. wstep. fold h. fold ps. fold lb.
  destruct (Elf.validate h); [by wstep|]. destruct (negb (e_type h =? Elf.ET_EXEC) && negb (e_type h =? Elf.ET_DYN)); [by wstep|].
  wstep. apply wp_or_bad; [|done]. intros x Hx. unfold checked_add in Hx. destruct (Z.leb_spec (e_entry h + lb) usize_max); [|done]. assert (x = e_entry h + lb) as -> by congruence.
  destruct (Z.ltb_spec (e_entry h + lb) USER_BASE_RAW); [by wstep|]. by apply (H1 (mkVirtualAddress (e_entry h + lb))).
Qed.

(** The end of the last page. *)
Lemma wp_last last entry v' s' (Q : res Error (VirtualAddress * PageAligned VirtualAddress) → Vmem * MemState P → Prop) : 0 <= last ->
  (forall e, Q (Err e) (v', s')) -> (forall l, last <= into_raw_value l -> Q (Ok (entry, l)) (v', s')) ->
  wp (last ← Elf.or_bad "align_up overflow" (align_up last PAGE_ALIGNMENT);
      last ← lift (PageAligned_from_address (mkVirtualAddress last));
      mret (entry, last)) (v', s') Q.
Proof.
  intros Hlast H2 H1. wstep. apply wp_or_bad; [|done]. intros x Hx. unfold align_up, checked_add in Hx.
  change (Alignment_value PAGE_ALIGNMENT) with PAGE_SIZE in Hx. destruct (Z.leb_spec (last + (PAGE_SIZE - 1)) usize_max); [|done].
  injection Hx as <-. change (Z.land ?a (usize_not (PAGE_SIZE - 1))) with (align_down a PAGE_ALIGNMENT). rewrite align_down_page by (pages; lia).
  do 2 wstep. rewrite page_aligned_ok; [|done|by apply Z.mod_mul]. wstep. apply H1. simpl.
  pose proof (Z.div_mod (last + (PAGE_SIZE - 1)) PAGE_SIZE ltac:(done)). pose proof (Z.mod_pos_bound (last + (PAGE_SIZE - 1)) PAGE_SIZE ltac:(done)). pages. lia.
Qed.

End Load.
End Programs.

(** ** Examples *)

#[local] Program Instance sample_identity : IdentityMap unit := { identity_map_page _ := mret tt }.
Next Obligation. done. Qed.
#[local] Existing Instance sample_config.
#[local] Existing Instance sample_config_ok.
#[local] Instance sample_above : UserAbove.
Proof. split. vm_compute. discriminate. Qed.
#[local] Instance sample_mapped : KMem.PreMapped unit.
Proof. by split. Qed.

#[local] Definition le16 (x : Z) : list Z := [x mod 256; x / 256 mod 256].
#[local] Definition le32 (x : Z) : list Z := le16 x ++ le16 (x / 65536).

(** A program with one writable segment of five bytes, three of which are in the file. *)
#[local] Definition sample_elf (vaddr offset : Z) : list Z :=
  [0x7f; 0x45; 0x4c; 0x46; 1; 1; 1; 0; 0; 0; 0; 0; 0; 0; 0; 0] ++ le16 2 ++ le16 3 ++ le32 1 ++ le32 vaddr ++ le32 52 ++ le32 0 ++ le32 0 ++
  le16 52 ++ le16 32 ++ le16 1 ++ le16 0 ++ le16 0 ++ le16 0 ++
  le32 1 ++ le32 offset ++ le32 vaddr ++ le32 0 ++ le32 3 ++ le32 5 ++ le32 6 ++ le32 4096 ++
  replicate (Z.to_nat (offset - 84)) 0 ++ [1; 2; 3].

(** The image in memory, at address 256. *)
#[local] Definition sample_memory (vaddr offset : Z) : MemState unit :=
  mkMem (mkPhysState sample_boot tt []) (fun a => if a <? 256 then 255 else default 255 (sample_elf vaddr offset !! Z.to_nat (a - 256))).

#[local] Definition sample_phdr (vaddr offset : Z) : Elf32Phdr := mkElf32Phdr 1 offset vaddr 0 3 5 6 4096.

Lemma sample_elf_sound (s : MemState unit) : frames (phys s) = sample_boot -> sound sample_boot [] sample_root s.
Proof.
  intros Hf. split.
  - apply empty_vmem_ok; [apply new_no_user| |constructor]. exists 0. split; [done|]. rewrite frame_number_max. split; [lia|]. vm_compute. reflexivity.
  - rewrite Hf. unfold handles. rewrite (user_frames_none (mapping sample_root) (fun p => eq_refl)). apply Phys.accounted_start, sample_boot_inv.
Qed.

Lemma sample_elf_image : image_ok sample_boot (memory (sample_memory USER_BASE_RAW 84)) 256 87.
Proof.
  split.
  - intros b Hb. split; [lia|]. replace (b / FRAME_SIZE) with 0; [vm_compute; discriminate|]. symmetry. apply Z.div_small. pages. lia.
  - lia.
  - intros a Ha. assert (Forall (fun b => 0 <= b < 256) (sample_elf USER_BASE_RAW 84)) as Hb.
    { apply (bool_decide_unpack _). vm_compute. done. }
    simpl. rewrite (proj2 (Z.ltb_ge a 256)) by lia. destruct (sample_elf USER_BASE_RAW 84 !! Z.to_nat (a - 256)) as [b|] eqn:E; simpl; [|lia].
    by eapply (proj1 (Forall_lookup _ _) Hb).
  - vm_compute. discriminate.
  - intros p Hp _. assert (Elf.phdrs (memory (sample_memory USER_BASE_RAW 84)) 256 (Elf.read_fhdr (memory (sample_memory USER_BASE_RAW 84)) 256) = [sample_phdr USER_BASE_RAW 84]) as E
      by (vm_compute; reflexivity).
    rewrite E in Hp. apply list_elem_of_singleton in Hp as ->. vm_compute. discriminate.
Qed.

#[local] Opaque Elf.elf32_load.


#[local] Transparent Elf.elf32_load.

(** The same program linked at an address that is not a multiple of the page size, with
    the offset in the file that goes with it: its bytes end up at the start of the page
    instead of at the address of the segment. *)
Lemma elf_unaligned_misplaced :
  let vaddr := USER_BASE_RAW + 564 in
  let '(r, (v, s)) := Elf.elf32_load 256 (sample_root, sample_memory vaddr 564) in
  r = Ok (mkVirtualAddress vaddr, mkPageAligned (mkVirtualAddress (USER_BASE_RAW + 4096))) /\
  exists e, mapping v USER_FIRST = Some e /\ page_byte (memory s) e 564 = 0 /\ page_byte (memory s) e 0 = 1.
Proof.
  intros vaddr.
  assert ((let '(r, (v, s)) := Elf.elf32_load 256 (sample_root, sample_memory vaddr 564) in
    (r, e ← mapping v USER_FIRST; Some (page_byte (memory s) e 564, page_byte (memory s) e 0))) =
    (Ok (mkVirtualAddress vaddr, mkPageAligned (mkVirtualAddress (USER_BASE_RAW + 4096))), Some (0, 1))) as E by (vm_compute; reflexivity).
  destruct (Elf.elf32_load 256 _) as [r [v s]]. destruct (mapping v USER_FIRST) as [e|]; [|discriminate E].
  injection E as -> E1 E2. split; [reflexivity|]. exists e. split; [reflexivity|]. split; assumption.
Qed.
