(* ===== verification/MemoryGaps.v ===== *)
(** * Gaps in the protection of memory

    Where the kernel falls short of what [MemorySafety.v] and [UserCopy.v] show, with
    runs that reach the gap: [mctrl] makes shared pages writable, a second
    [duplicate] loses copy-on-write, the kernel writes through read-only pages and
    panics on unmapped ones, and the frames of a process outlive it. *)

From stdpp Require Import gmap.
From S2P Require Import Prelude Error BitAlloc Bitmap Config Addr Paging Frame Phys KMem UserSpace AddrSpace.
From S2P Require Import Perm Mappings VmemSpec Cow NewVmem VirtManager PageAlloc UserMap Fork Spaces MemorySafety UserCopy.
#[local] Open Scope Z_scope.

Section Exit.
Context {CF : Config} {HC : ConfigOk} {UA : UserAbove} {P : Type} {IM : IdentityMap P} {KD : KernelDirectory P}.
Variable x0 : Inner Bitmap.
Hypothesis Hi0 : Frame.inv x0.
Implicit Types (st : Machine P) (v : Vmem).

(** The end of a process leaks its memory.  When the address space of a process is
    dropped, every frame its pages were mapped to stays allocated: a frame only this
    process had keeps its reference, though no address space refers to it any more. *)
Theorem exit_leaks_user_frames K st pid v p e : good x0 K st -> spaces st !! pid = Some v -> user_page p ->
  mapping v p = Some e -> pte_writable e = true ->
  let st' := (exec (Exit pid) st).2 in
  owners (mem st') e = 1 /\ spaces st' !! pid = None /\ handle e ∉ all_handles (spaces st').
Proof.
  intros H Hv Hp He Hw. cbn [exec]. unfold destroy. rewrite Hv. pose proof (good_sound _ _ _ _ _ H Hv) as Hs.
  destruct (mapped_owned _ _ _ _ _ _ Hs Hp He) as ([Hn _] & _ & _). pose proof (gd_excl _ _ _ H pid v Hv p e Hp He Hw) as H1.
  enough (wp (Vmem.drop v) (mem st) (fun r s => owners s e = 1 /\ handle e ∉ all_handles (delete pid (spaces st)))) as Hd.
  { unfold wp in Hd. destruct (Vmem.drop v (mem st)) as [r s]. simpl in *. rewrite lookup_delete_eq. tauto. }
  eapply (wp_drop x0 Hi0); [exact Hs|]. intros s Ha _ _ Hf. pose proof (Hf _ Hn) as Hle. unfold owners in *.
  destruct (user_frames_set (mapping v) p Hp) as (X & HX & _). rewrite He in HX. cbn [ref_of] in HX.
  destruct Ha as (_ & _ & _ & Hrc). rewrite Hrc, HX in Hle |- * by done. simpl in *. unfold handle in *.
  rewrite Frame.occ_cons, Z.eqb_refl in *. rewrite !Frame.occ_app in *. pose proof (Frame.inv_rc x0 Hi0 _ Hn).
  set (n := fn_raw (pte_frame e)) in *. pose proof (Frame.occ_nonneg n X). pose proof (Frame.occ_nonneg n K).
  pose proof (Frame.occ_nonneg n (all_handles (delete pid (spaces st)))). split; [lia|]. apply Frame.occ_zero. lia.
Qed.

End Exit.

(** ** Runs *)

#[local] Existing Instances sample_config sample_config_ok sample_identity sample_directory sample_above.

Lemma exit_leaks_user_frames_witness :
  let st' := (exec (Exit 2) (exec_all sample_events sample_machine)).2 in
  exists e : PageTableEntry, owners (mem st') e = 1 /\ handle e ∉ all_handles (spaces st').
Proof.
  destruct (runs_meet sample_boot sample_boot_inv [] sample_machine sample_events sample_good sample_proper) as (_ & [K Hg] & _).
  intros st'. unfold st'. revert Hg. set (st := exec_all sample_events sample_machine). intros Hg.
  assert ((v ← spaces st !! 2; e ← mapping v USER_FIRST; Some (pte_writable e)) = Some true) as E by (vm_compute; reflexivity).
  clearbody st. destruct (spaces st !! 2) as [v|] eqn:Hv; [|discriminate E]. cbn [mbind option_bind] in E.
  destruct (mapping v USER_FIRST) as [e|] eqn:He; [|discriminate E]. injection E as Hw. exists e.
  destruct (exit_leaks_user_frames sample_boot sample_boot_inv K st 2 v USER_FIRST e Hg Hv
    ltac:(vm_compute; split; (reflexivity || discriminate)) He Hw) as (H1 & _ & H2).
  split; [exact H1|exact H2].
Defined.

(** A run, and what a store of process 2 does at its end. *)
Definition after (evs : list Event) : Machine unit := exec_all evs sample_machine.

Definition with_page (access : AccessPermission) : list Event :=
  [Create 0 1; Mmap 1 (fun _ => ReserveAll) USER_FIRST 1 access].

(** [mctrl] makes a copy-on-write page writable without giving it a frame of its own:
    the store of process 2 changes the memory of process 1. *)
Example mctrl_breaks_isolation :
  let st := after (with_page RDWR ++ [Store 1 USER_FIRST 8 42; Duplicate 1 2; Mctrl 2 USER_FIRST RDWR]) in
  peek st 1 USER_FIRST 8 = Some 42 /\
  peek (exec (Store 2 USER_FIRST 8 7) st).2 1 USER_FIRST 8 = Some 7.
Proof. split; vm_compute; reflexivity. Qed.

(** A page that is copy-on-write already is shared read-only by the next [duplicate]:
    process 3 cannot write to a page its parent may write to, and the page fault does
    not help. *)
Example second_duplicate_readonly :
  let st := after (with_page RDWR ++ [Duplicate 1 2; Duplicate 1 3]) in
  let fault i := PageFault i (fun _ => ReserveAll) (USER_FIRST * PAGE_SIZE) (mkFaultCode true true true) in
  (exec (Store 2 USER_FIRST 0 7) (exec (fault 2) st).2).1 = Ok tt /\
  (exec (fault 3) st).1 = Ok tt /\
  (exec (Store 3 USER_FIRST 0 7) (exec (fault 3) st).2).1 = Err (mkError PermissionDenied "page fault").
Proof. split; [|split]; vm_compute; reflexivity. Qed.

(** Copying to a process does not look at the access rights of its pages: the kernel
    writes to a read-only page of process 2, and process 1, which shares the frame,
    sees it. *)
Example copy_to_readonly_page :
  let st := after (with_page RDONLY ++ [Duplicate 1 2]) in
  peek st 1 USER_FIRST 8 = Some 0 /\
  peek (UserCopy.vmcopy_to_user 2 (USER_BASE_RAW + 8) 100 3 st).2 1 USER_FIRST 8 = Some 255.
Proof. split; vm_compute; reflexivity. Qed.

(** The dry run of [copy_to_user_unaligned] does not look for the pages of the
    destination: an address of a process with no page behind it stops the kernel. *)
Example copy_to_unmapped_panics :
  let st := after [Create 0 1] in
  (UserCopy.vmcopy_to_user 1 (USER_BASE_RAW + 8) 100 3 st).1 = Panic.
Proof. vm_compute. reflexivity. Qed.
