(* ===== verification/NonEmpty.v ===== *)
(** * Non-empty queues

    [NonEmptyVecDeque] ([libs/type-safe/src/vec_deque.rs]): a head and an optional
    tail.  [VecDeque]s are lists.  Every operation is characterised on the list of
    the elements. *)

From S2P Require Import Prelude.
#[local] Open Scope Z_scope.

Record NonEmpty (T : Type) := mkNonEmpty {
  head : T;
  tail : option (list T)
}.
Arguments mkNonEmpty {T} _ _.
Arguments head {T} _.
Arguments tail {T} _.

Module NonEmpty.

Section Definitions.
Context {T : Type}.

Definition new (first : T) : NonEmpty T := mkNonEmpty first None.

Definition from (vec : list T) : option (NonEmpty T) :=
  match vec with
  | [] => None
  | head :: vec => Some (mkNonEmpty head (Some vec))
  end.

Definition push_back (q : NonEmpty T) (value : T) : NonEmpty T :=
  match tail q with
  | Some tl => mkNonEmpty (head q) (Some (tl ++ [value]))
  | None => mkNonEmpty (head q) (Some [value])
  end.

Definition append (q other : NonEmpty T) : NonEmpty T :=
  let q := push_back q (head other) in
  match tail other with
  | Some tl =>
    match tail q with
    | Some self_tail => mkNonEmpty (head q) (Some (self_tail ++ tl))
    | None => mkNonEmpty (head q) (Some tl)
    end
  | None => q
  end.

Definition pop_front (q : NonEmpty T) : list T * T :=
  match tail q with
  | Some tl => (tl, head q)
  | None => ([], head q)
  end.

(** [iter_mut().position(condition)] and [remove]. *)
Fixpoint position (condition : T → bool) (l : list T) : option nat :=
  match l with
  | [] => None
  | x :: l => if condition x then Some O else S <$> position condition l
  end.

Definition vec_remove (i : nat) (l : list T) : option (list T * T) :=
  x ← l !! i; Some (delete i l, x).

(** [inl] is [Ok]: the rest of the queue and the element; [inr] is [Err]. *)
Definition remove_if (q : NonEmpty T) (condition : T → bool) : (list T * T) + NonEmpty T :=
  if condition (head q) then
    match tail q with
    | Some tl => inl (tl, head q)
    | None => inl ([], head q)
    end
  else
    match tail q with
    | Some tl =>
      match position condition tl with
      | Some pos =>
        match vec_remove pos tl with
        | Some (tl, extracted) => inl (head q :: tl, extracted)
        | None => inr (mkNonEmpty (head q) (Some tl))
        end
      | None => inr (mkNonEmpty (head q) (Some tl))
      end
    | None => inr (mkNonEmpty (head q) None)
    end.

(** The scan of [remove_min_by_key]: the position of the first minimum below
    [min_key], counting from [i]. *)
Fixpoint min_scan (key_fn : T → Z) (l : list T) (i : nat) (min_key : Z) (min_pos : option nat)
    : option nat :=
  match l with
  | [] => min_pos
  | elem :: l =>
    let k := key_fn elem in
    if k <? min_key then min_scan key_fn l (S i) k (Some i)
    else min_scan key_fn l (S i) min_key min_pos
  end.

Definition remove_min_by_key (q : NonEmpty T) (key_fn : T → Z) : list T * T :=
  match tail q with
  | None => ([], head q)
  | Some tl =>
    match min_scan key_fn tl 0 (key_fn (head q)) None with
    | None => (tl, head q)
    | Some pos =>
      match vec_remove pos tl with
      | Some (tl, extracted) => (head q :: tl, extracted)
      | None => (tl, head q)
      end
    end
  end.

(** [iter()], and the conversion to [VecDeque]. *)
Definition to_list (q : NonEmpty T) : list T := head q :: default [] (tail q).

(** The elements of an optional queue. *)
Definition elems (q : option (NonEmpty T)) : list T := from_option to_list [] q.

(** [Some(queue)] with the element added, as the callers write it out. *)
Definition push_opt (q : option (NonEmpty T)) (x : T) : NonEmpty T :=
  match q with Some q => push_back q x | None => new x end.

End Definitions.

Definition map {T U} (q : NonEmpty U) (f : U → T) : NonEmpty T :=
  mkNonEmpty (f (head q)) (option_map (fun tl => f <$> tl) (tail q)).

(** ** Lemmas *)
Section Lemmas.
Context {T : Type}.
Implicit Types (q : NonEmpty T) (l : list T) (x : T).

Lemma to_list_new x : to_list (new x) = [x].
Proof. done. Qed.

Lemma elems_from l : elems (from l) = l.
Proof. by destruct l. Qed.

Lemma to_list_push_back q x : to_list (push_back q x) = to_list q ++ [x].
Proof. by destruct q as [h [t|]]. Qed.

Lemma to_list_append q q' : to_list (append q q') = to_list q ++ to_list q'.
Proof.
  destruct q as [h [t|]], q' as [h' [t'|]]; unfold append, to_list; simpl; try done.
  by rewrite <- app_assoc.
Qed.

Lemma to_list_push_opt (o : option (NonEmpty T)) x : to_list (push_opt o x) = elems o ++ [x].
Proof. destruct o as [q|]; [apply to_list_push_back|done]. Qed.

Lemma pop_front_spec q l x : pop_front q = (l, x) -> to_list q = x :: l.
Proof. destruct q as [h [t|]]; by intros [= <- <-]. Qed.

Lemma position_spec (c : T → bool) l :
  match position c l with
  | Some i => exists x, l !! i = Some x /\ c x = true
  | None => Forall (fun x => c x = false) l
  end.
Proof.
  induction l as [|y l IH]; simpl; [constructor|].
  destruct (c y) eqn:E; [by exists y|]. destruct (position c l); simpl; [done|by constructor].
Qed.

(** Removing the element at the position found. *)
Lemma vec_remove_position (c : T → bool) l i : position c l = Some i ->
  exists x, vec_remove i l = Some (delete i l, x) /\ c x = true /\ l ≡ₚ x :: delete i l.
Proof.
  intros H. pose proof (position_spec c l) as Hp. rewrite H in Hp. destruct Hp as (x & Hx & Hc).
  exists x. unfold vec_remove. rewrite Hx. splits; [done|done|]. by apply delete_Permutation.
Qed.

(** [remove_if] takes out an element that satisfies the condition, or leaves the
    queue as it is because none does. *)
Lemma remove_if_spec q (c : T → bool) :
  match remove_if q c with
  | inl (l, x) => c x = true /\ x :: l ≡ₚ to_list q
  | inr q' => q' = q /\ Forall (fun x => c x = false) (to_list q)
  end.
Proof.
  unfold remove_if. destruct q as [h [t|]]; simpl; destruct (c h) eqn:E;
    [done| |done|split; [done|by repeat constructor]].
  pose proof (position_spec c t) as Hp. destruct (position c t) as [i|]; simpl.
  - destruct Hp as (x & Hx & Hc). unfold vec_remove. rewrite Hx. simpl. split; [done|].
    rewrite Permutation_swap, <- (delete_Permutation t i x Hx). done.
  - split; [done|]. by constructor.
Qed.

Lemma min_scan_spec (key : T → Z) l i m pos :
  match min_scan key l i m pos with
  | Some j => (Some j = pos /\ Forall (fun x => m <= key x) l) \/
      exists k x, j = (i + k)%nat /\ l !! k = Some x /\ key x < m /\ Forall (fun y => key x <= key y) l
  | None => pos = None /\ Forall (fun x => m <= key x) l
  end.
Proof.
  revert i m pos. induction l as [|y l IH]; intros i m pos; simpl.
  { destruct pos; [left|]; split; done || constructor. }
  destruct (Z.ltb_spec (key y) m) as [Hlt|Hge].
  - specialize (IH (S i) (key y) (Some i)). destruct (min_scan key l (S i) (key y) (Some i)) as [j|].
    + right. destruct IH as [[[= ->] Hall]|(k & x & -> & Hk & Hx & Hall)].
      * exists O, y. splits; [lia|done|done|by constructor].
      * exists (S k), x. splits; [lia|done|lia|]. constructor; [simpl; lia|done].
    + by destruct IH.
  - specialize (IH (S i) m pos). destruct (min_scan key l (S i) m pos) as [j|].
    + destruct IH as [[Hj Hall]|(k & x & -> & Hk & Hx & Hall)]; [left|right].
      * split; [done|]. by constructor.
      * exists (S k), x. splits; [lia|done|done|]. constructor; [simpl; lia|done].
    + destruct IH. split; [done|]. by constructor.
Qed.

(** [remove_min_by_key] takes out an element whose key is minimal. *)
Lemma remove_min_by_key_spec q (key : T → Z) l x : remove_min_by_key q key = (l, x) ->
  x :: l ≡ₚ to_list q /\ Forall (fun y => key x <= key y) (to_list q).
Proof.
  unfold remove_min_by_key. destruct q as [h [t|]]; simpl.
  2: { intros [= <- <-]. split; [done|]. constructor; [simpl; lia|constructor]. }
  pose proof (min_scan_spec key t 0 (key h) None) as Hs.
  destruct (min_scan key t 0 (key h) None) as [j|].
  - destruct Hs as [[? _]|(k & y & -> & Hk & Hy & Hall)]; [done|]. simpl.
    unfold vec_remove. rewrite Hk. simpl. intros [= <- <-]. split.
    + rewrite Permutation_swap, <- (delete_Permutation t k y Hk). done.
    + constructor; [simpl; lia|done].
  - intros [= <- <-]. split; [done|]. constructor; [simpl; lia|apply Hs].
Qed.

End Lemmas.

Lemma to_list_map {T U} (q : NonEmpty U) (f : U → T) : to_list (map q f) = f <$> to_list q.
Proof. by destruct q as [h [t|]]. Qed.

End NonEmpty.
