(* ===== verification/Mailbox.v ===== *)
(** * Messages and mailboxes

    [libs/sys/src/sys/ipc/message/kernel.rs] (message addressing) and
    [kernel/src/ipc/mbx/mailbox.rs]: a process has one buffer for the messages to
    it and to its threads. *)

From S2P Require Import Prelude NonEmpty.
#[local] Open Scope Z_scope.

(** Process and thread identifiers are [i32]s. *)
Definition ProcessIdentifier : Type := Z.
Definition ThreadIdentifier : Type := Z.
Definition KERNEL_PID : ProcessIdentifier := 0.
Definition KERNEL_TID : ThreadIdentifier := 0.

(** [MessageReceiver] and [MessageSender] are [i32]s too: processes are encoded by
    their identifier, threads by its negation.  [inl] is [Ok], [inr] is [Err]. *)
Definition as_id (r : Z) : ProcessIdentifier + ThreadIdentifier :=
  if 0 <=? r then inl r else inr (- r).
Definition receiver_of_pid (pid : ProcessIdentifier) : Z := pid.
Definition receiver_of_tid (tid : ThreadIdentifier) : Z := - tid.

Inductive MessageType :=
| Interrupt | Exception | Ipc | ProcessTerminationEvent | Ikc | PullResponse
| ProcessCreationEvent.

Record Message := mkMessage {
  message_type : MessageType;
  source : Z;
  destination : Z;
  status : Z;
  payload : list Z
}.

(** A mailbox is its buffer. *)
Module Mailbox.

Definition send (buffer : list Message) (message : Message) : list Message := buffer ++ [message].

Definition is_empty (buffer : list Message) : bool :=
  match buffer with [] => true | _ => false end.

Definition to_thread (tid : ThreadIdentifier) (msg : Message) : bool :=
  match as_id (destination msg) with inr t => t =? tid | inl _ => false end.
Definition to_process (msg : Message) : bool :=
  match as_id (destination msg) with inl _ => true | inr _ => false end.

(** [LinkedList::remove] panics out of range; the index comes from [position]. *)
Definition receive (buffer : list Message) (tid : ThreadIdentifier) : option Message * list Message :=
  match NonEmpty.position (to_thread tid) buffer with
  | Some index => (buffer !! index, delete index buffer)
  | None =>
    match NonEmpty.position to_process buffer with
    | Some index => (buffer !! index, delete index buffer)
    | None => (None, buffer)
    end
  end.

(** ** Which message is taken *)

(** [position] finds the first match. *)
Lemma position_split {T} (c : T → bool) l i : NonEmpty.position c l = Some i ->
  exists pre x post, l = pre ++ x :: post /\ l !! i = Some x /\ delete i l = pre ++ post /\
    c x = true /\ Forall (fun y => c y = false) pre.
Proof.
  revert i. induction l as [|y l IH]; intros i; simpl; [done|].
  destruct (c y) eqn:E.
  - intros [= <-]. by exists [], y, l.
  - destruct (NonEmpty.position c l) as [j|]; [|done]. intros [= <-].
    destruct (IH j eq_refl) as (pre & x & post & -> & Hj & Hd & Hx & Hall).
    exists (y :: pre), x, post. splits; [done|done|simpl; by rewrite Hd|done|by constructor].
Qed.

Definition receive_post (buf buf' : list Message) (tid : ThreadIdentifier) (r : option Message) : Prop :=
  match r with
  | Some m => exists pre post, buf = pre ++ m :: post /\ buf' = pre ++ post /\
      (to_thread tid m = true /\ Forall (fun x => to_thread tid x = false) pre \/
       to_process m = true /\ Forall (fun x => to_process x = false) pre /\
         Forall (fun x => to_thread tid x = false) buf)
  | None => buf' = buf /\ Forall (fun x => to_thread tid x = false /\ to_process x = false) buf
  end.

Lemma receive_ok buf tid r buf' : receive buf tid = (r, buf') -> receive_post buf buf' tid r.
Proof.
  unfold receive. pose proof (NonEmpty.position_spec (to_thread tid) buf) as H1.
  destruct (NonEmpty.position (to_thread tid) buf) as [i|] eqn:E1.
  { destruct (position_split _ _ _ E1) as (pre & x & post & Hl & Hi & Hd & Hx & Hall).
    rewrite Hi, Hd. intros [= <- <-]. exists pre, post. splits; [done|done|]. by left. }
  pose proof (NonEmpty.position_spec to_process buf) as H2.
  destruct (NonEmpty.position to_process buf) as [i|] eqn:E2.
  { destruct (position_split _ _ _ E2) as (pre & x & post & Hl & Hi & Hd & Hx & Hall).
    rewrite Hi, Hd. intros [= <- <-]. exists pre, post. splits; [done|done|]. by right. }
  intros [= <- <-]. split; [done|]. by apply Forall_and.
Qed.

(** Messages with equal destinations are treated alike. *)
Lemma to_thread_dest tid m m' : destination m = destination m' ->
  to_thread tid m = to_thread tid m' /\ to_process m = to_process m'.
Proof. unfold to_thread, to_process. by intros ->. Qed.

(** The messages for one destination. *)
Definition for_dest (d : Z) (l : list Message) : list Message :=
  filter (fun m => destination m = d) l.

(** Taking a message takes the first one for its destination. *)
Lemma receive_first buf buf' tid m d : receive_post buf buf' tid (Some m) ->
  for_dest d buf = (if bool_decide (destination m = d) then [m] else []) ++ for_dest d buf'.
Proof.
  intros (pre & post & -> & -> & Hsel). unfold for_dest. rewrite !filter_app, filter_cons.
  case_bool_decide as Hd; [rewrite decide_True by done|by rewrite decide_False by done].
  rewrite (filter_none _ pre); [done|].
  apply Forall_forall. intros x Hx Hxd.
  destruct (to_thread_dest tid m x) as [Et Ep]; [congruence|].
  destruct Hsel as [[Hm Hall]|(Hm & Hall & _)];
    pose proof (proj1 (Forall_forall _ _) Hall x Hx) as Hf; simpl in Hf; congruence.
Qed.

(** ** Runs of a mailbox *)

Inductive run : list Message → list Message → list Message → Prop :=
| run_new : run [] [] []
| run_send S R b m : run S R b -> run (S ++ [m]) R (send b m)
| run_receive S R b tid m b' : run S R b -> receive b tid = (Some m, b') -> run S (R ++ [m]) b'
| run_none S R b tid b' : run S R b -> receive b tid = (None, b') -> run S R b'.

(** A mailbox is a set of FIFO queues, one per destination: however sends and
    receives by different threads interleave, the messages sent to a destination
    are, in order, those received from it followed by those still buffered.  So
    no message is lost, duplicated, or overtaken by a later one to the same
    destination. *)
Theorem mailbox_fifo S R b d : run S R b -> for_dest d S = for_dest d R ++ for_dest d b.
Proof.
  induction 1 as [|S R b m _ IH|S R b tid m b' _ IH E|S R b tid b' _ IH E].
  - done.
  - unfold send, for_dest in *. rewrite !filter_app, IH. by rewrite <- app_assoc.
  - apply receive_ok in E. rewrite IH, (receive_first _ _ _ _ d E).
    unfold for_dest. rewrite filter_app, filter_cons. rewrite <- app_assoc. f_equal.
    case_bool_decide; [by rewrite decide_True|by rewrite decide_False].
  - apply receive_ok in E as [-> _]. done.
Qed.

(** Two messages to the process and one to thread 7: thread 7 gets its own first. *)
Lemma mailbox_fifo_witness :
  let m d p := mkMessage Ipc 0 d 0 [p] in
  exists b, run [m 3 1; m 3 2; m (-7) 3] [m (-7) 3; m 3 1] b /\
    for_dest 3 [m 3 1; m 3 2; m (-7) 3] = for_dest 3 [m (-7) 3; m 3 1] ++ for_dest 3 b.
Proof.
  intros m. assert (run [m 3 1; m 3 2; m (-7) 3] [m (-7) 3; m 3 1] [m 3 2]) as Hr.
  { apply (run_receive _ [m (-7) 3] [m 3 1; m 3 2] 7); [|reflexivity].
    apply (run_receive _ [] [m 3 1; m 3 2; m (-7) 3] 7); [|reflexivity].
    apply (run_send [m 3 1; m 3 2] [] [m 3 1; m 3 2]).
    apply (run_send [m 3 1] [] [m 3 1]). apply (run_send [] [] []). apply run_new. }
  exists [m 3 2]. split; [exact Hr|]. exact (mailbox_fifo _ _ _ 3 Hr).
Defined.

End Mailbox.
