(* ===== verification/VirtMem.v ===== *)
(** * The virtual memory manager, as the process manager uses it

    [kernel/src/mm/virt/manager.rs], [vmem.rs] and [kernel/src/mm/kstack.rs] are
    components of their own.  The process manager keeps an address space in every
    process and a kernel stack in every thread and calls the operations below; it
    never looks inside.  [VirtMem] lists what it calls, with the one law it relies
    on: the calls return.  All of them act on the state [MM] of the memory manager,
    which includes the memory that the stack guards live in. *)

From S2P Require Import Prelude Error Addr Config UserSpace.
#[local] Open Scope Z_scope.

(** An operation on one address space and the memory manager. *)
Definition returns {S A} (m : M S Error A) : Prop := forall s, (m s).1 <> Panic.

Class VirtMem := {
  Vmem : Type;
  MM : Type;
  KernelStack : Type;
  Elf32Fhdr : Type;
  (** [VirtMemoryManager::new_vmem], [load_elf], [alloc_upages], [link_user_pages]
      and [try_unmap_upage]. *)
  new_vmem : Vmem → M MM Error Vmem;
  load_elf : Elf32Fhdr → M (Vmem * MM) Error (VirtualAddress * PageAligned VirtualAddress);
  alloc_upages : PageAligned VirtualAddress → AccessPermission → bool → Z → M (Vmem * MM) Error unit;
  link_user_pages : M (Vmem * Vmem * MM) Error unit;
  try_unmap_upage : PageAligned VirtualAddress → M (Vmem * MM) Error bool;
  (** [Vmem::copy_to_user_unaligned] of bytes held by the kernel, and the physical
      address of the page directory. *)
  copy_to_user_unaligned : VirtualAddress → list Z → M (Vmem * MM) Error unit;
  pgdir_physical_address : Vmem → res Error Z;
  (** [KernelStack::new], the test of its guard page and the threshold below which
      the exception entry code refuses to run on it. *)
  kstack_new : M MM Error KernelStack;
  check_guard_watermark : MM → KernelStack → res Error unit;
  guard_threshold : KernelStack → Z;
  (** [Drop] of address spaces and kernel stacks. *)
  drop_vmem : Vmem → MM → MM;
  drop_kstack : KernelStack → MM → MM;
  new_vmem_returns v : returns (new_vmem v);
  load_elf_returns e : returns (load_elf e);
  alloc_upages_returns a p c n : returns (alloc_upages a p c n);
  link_user_pages_returns : returns link_user_pages;
  try_unmap_upage_returns a : returns (try_unmap_upage a);
  copy_to_user_returns a b : returns (copy_to_user_unaligned a b);
  pgdir_physical_address_returns v : pgdir_physical_address v <> Panic;
  kstack_new_returns : returns kstack_new;
  check_guard_watermark_returns m k : check_guard_watermark m k <> Panic
}.

(** An instance for the examples: memory without contents in which every request
    succeeds. *)
#[refine] Definition sample_virt_mem : VirtMem := {|
  Vmem := unit;
  MM := unit;
  KernelStack := unit;
  Elf32Fhdr := unit;
  new_vmem _ := mret tt;
  load_elf _ := mret (mkVirtualAddress (USER_BASE_RAW + 4096),
    mkPageAligned (mkVirtualAddress (USER_BASE_RAW + 8192)));
  alloc_upages _ _ _ _ := mret tt;
  link_user_pages := mret tt;
  try_unmap_upage _ := mret true;
  copy_to_user_unaligned _ _ := mret tt;
  pgdir_physical_address _ := Ok 0;
  kstack_new := mret tt;
  check_guard_watermark _ _ := Ok tt;
  guard_threshold _ := 0;
  drop_vmem _ m := m;
  drop_kstack _ m := m
|}.
Proof. all: by unfold returns. Defined.
