(* ===== verification/Thread.v ===== *)
(** * Threads

    [kernel/src/pm/thread/*.rs]: the state that every thread carries, the five
    structures that say what the thread is doing, and the thread manager that hands
    out identifiers.

    - A context pointer ([*mut ContextInformation]) points into the state of the
      thread it belongs to; it is represented by that thread's identifier.
    - The saved registers themselves are not part of the model.
    - Condition variables and mutexes are shared objects, represented by a number.
    - The system clock is read by the caller: a function that calls [clock::now()]
      takes the time as its last argument. *)

From S2P Require Import Prelude Error Config Addr Mailbox UserSpace VirtMem.
#[local] Open Scope Z_scope.

(** Time stamps are only compared; they are counted in nanoseconds. *)
Definition SystemTime : Type := Z.
Definition ExitStatus : Type := Z.
Definition Condvar : Type := Z.
Definition Mutex : Type := Z.
Definition Context : Type := ThreadIdentifier.

Definition exit_status_of (e : ErrorCode) : ExitStatus := ErrorCode_get e.

Inductive InterruptReason := Killed | TimedOut.

#[global] Instance InterruptReason_eq_dec : EqDecision InterruptReason.
Proof. solve_decision. Defined.

Section ThreadTypes.
Context {VM : VirtMem}.

Record ThreadState := mkThreadState {
  ts_id : ThreadIdentifier;
  kernel_stack : option KernelStack;
  user_stack : option UserStack;
  join_cond : Condvar;
  user_tda : option VirtualAddress;
  locked_mutexes : gmap Z Mutex;
  interrupt_reason : option InterruptReason;
  detached : bool
}.

Record ReadyThread := mkReadyThread { rdy_state : ThreadState; admission_time : SystemTime }.
Record RunningThread := mkRunningThread { run_state : ThreadState }.
Record SleepingThread := mkSleepingThread { slp_state : ThreadState; alarm : option SystemTime }.
Record InterruptedThread := mkInterruptedThread { int_state : ThreadState; reason : InterruptReason }.
Record ZombieThread := mkZombieThread { zmb_status : ExitStatus; zmb_state : ThreadState }.

End ThreadTypes.

Module ThreadState.
Section Definitions.
Context {VM : VirtMem}.

(** The condition variable is allocated by the caller. *)
Definition new (id : ThreadIdentifier) (ks : option KernelStack) (us : option UserStack)
    (tda : option VirtualAddress) (jc : Condvar) : ThreadState :=
  mkThreadState id ks us jc tda ∅ None false.

Definition set_interrupt_reason (r : InterruptReason) (t : ThreadState) : ThreadState :=
  mkThreadState (ts_id t) (kernel_stack t) (user_stack t) (join_cond t) (user_tda t)
    (locked_mutexes t) (Some r) (detached t).

Definition take_interrupt_reason (t : ThreadState) : option InterruptReason * ThreadState :=
  (interrupt_reason t,
   mkThreadState (ts_id t) (kernel_stack t) (user_stack t) (join_cond t) (user_tda t)
     (locked_mutexes t) None (detached t)).

Definition set_detached (t : ThreadState) : ThreadState :=
  mkThreadState (ts_id t) (kernel_stack t) (user_stack t) (join_cond t) (user_tda t)
    (locked_mutexes t) (interrupt_reason t) true.

Definition store_mutex_guard (address : Z) (guard : Mutex) (t : ThreadState) : ThreadState :=
  mkThreadState (ts_id t) (kernel_stack t) (user_stack t) (join_cond t) (user_tda t)
    (<[address := guard]> (locked_mutexes t)) (interrupt_reason t) (detached t).

Definition take_mutex_guard (address : Z) (t : ThreadState) : option Mutex * ThreadState :=
  (locked_mutexes t !! address,
   mkThreadState (ts_id t) (kernel_stack t) (user_stack t) (join_cond t) (user_tda t)
     (delete address (locked_mutexes t)) (interrupt_reason t) (detached t)).

Definition store_thread_data_area (tda : option VirtualAddress) (t : ThreadState) : ThreadState :=
  mkThreadState (ts_id t) (kernel_stack t) (user_stack t) (join_cond t) tda
    (locked_mutexes t) (interrupt_reason t) (detached t).

Definition check_guard_watermark (m : MM) (t : ThreadState) : res Error unit :=
  match kernel_stack t with
  | Some kstack => VirtMem.check_guard_watermark m kstack
  | None => Ok tt
  end.

End Definitions.
End ThreadState.

Module Thread.
Section Definitions.
Context {VM : VirtMem}.

(** ** Ready threads *)

Definition ready_from_state (state : ThreadState) (now : SystemTime) : ReadyThread :=
  mkReadyThread state now.

Definition ready_new (id : ThreadIdentifier) (ks : option KernelStack) (us : option UserStack)
    (tda : option VirtualAddress) (jc : Condvar) (now : SystemTime) : ReadyThread :=
  mkReadyThread (ThreadState.new id ks us tda jc) now.

Definition run (t : ReadyThread)
    : RunningThread * option InterruptReason * Context * option VirtualAddress :=
  let ctx := ts_id (rdy_state t) in
  let '(reason, state) := ThreadState.take_interrupt_reason (rdy_state t) in
  (mkRunningThread state, reason, ctx, user_tda state).

Definition terminate (t : ReadyThread) : ZombieThread :=
  mkZombieThread (exit_status_of Interrupted) (rdy_state t).

(** ** Running threads *)

Definition sleep (t : RunningThread) (a : option SystemTime) : SleepingThread * Context :=
  (mkSleepingThread (run_state t) a, ts_id (run_state t)).

Definition schedule (t : RunningThread) (now : SystemTime) : ReadyThread * Context :=
  (ready_from_state (run_state t) now, ts_id (run_state t)).

Definition exit (t : RunningThread) (status : ExitStatus) : ZombieThread * Context :=
  (mkZombieThread status (run_state t), ts_id (run_state t)).

(** ** Sleeping, interrupted and zombie threads *)

Definition wakeup (t : SleepingThread) (now : SystemTime) : ReadyThread :=
  ready_from_state (slp_state t) now.

Definition interrupt (t : SleepingThread) (r : InterruptReason) : InterruptedThread :=
  mkInterruptedThread (slp_state t) r.

Definition resume (t : InterruptedThread) (now : SystemTime) : ReadyThread :=
  ready_from_state (ThreadState.set_interrupt_reason (reason t) (int_state t)) now.

Definition harvest (t : ZombieThread) : option KernelStack * option UserStack :=
  (kernel_stack (zmb_state t), user_stack (zmb_state t)).

(** ** Identifiers *)

Definition ready_id (t : ReadyThread) : ThreadIdentifier := ts_id (rdy_state t).
Definition running_id (t : RunningThread) : ThreadIdentifier := ts_id (run_state t).
Definition sleeping_id (t : SleepingThread) : ThreadIdentifier := ts_id (slp_state t).
Definition interrupted_id (t : InterruptedThread) : ThreadIdentifier := ts_id (int_state t).
Definition zombie_id (t : ZombieThread) : ThreadIdentifier := ts_id (zmb_state t).

End Definitions.
End Thread.

(** ** Thread manager *)

Record ThreadManager := mkThreadManager { next_id : ThreadIdentifier; tm_live_count : Z }.

(** [i32::checked_add]. *)
Definition i32_checked_add (a b : Z) : option Z :=
  if (- 2 ^ 31 <=? a + b) && (a + b <=? i32_max) then Some (a + b) else None.

Module ThreadManager.
Section Definitions.
Context {CF : Config} {VM : VirtMem}.

Definition new (jc : Condvar) (now : SystemTime) : ReadyThread * ThreadManager :=
  (Thread.ready_new 0 None None None jc now, mkThreadManager 1 1).

Definition try_next_tid (tm : ThreadManager) : res Error (ThreadIdentifier * ThreadIdentifier) :=
  if MAX_THREADS <=? tm_live_count tm then
    Err (mkError OutOfMemory "system-wide thread limit reached")
  else
    match i32_checked_add (next_id tm) 1 with
    | Some val => Ok (next_id tm, val)
    | None => Err (mkError ValueOverflow "thread identifier overflow")
    end.

Definition commit_next_tid (next_tid : ThreadIdentifier) : M ThreadManager Error unit :=
  tm ← get;
  count ← lift (usize_add (tm_live_count tm) 1);
  put (mkThreadManager next_tid count).

Definition on_thread_reaped : M ThreadManager Error unit :=
  tm ← get;
  if 1 <? tm_live_count tm then put (mkThreadManager (next_id tm) (tm_live_count tm - 1))
  else panic.

End Definitions.

Section Lemmas.
Context {CF : Config} {VM : VirtMem}.

(** An identifier that is handed out is the next one, and both fit in an [i32]. *)
Lemma try_next_tid_spec tm t n : try_next_tid tm = Ok (t, n) ->
  t = next_id tm /\ n = next_id tm + 1 /\ n <= i32_max /\ tm_live_count tm < MAX_THREADS.
Proof.
  unfold try_next_tid, i32_checked_add. zbool; simpl; [done| |done..]. intros [= <- <-]. lia.
Qed.

Lemma try_next_tid_returns tm : try_next_tid tm <> Panic.
Proof. unfold try_next_tid. destruct (_ <=? _); [done|]. by destruct (i32_checked_add _ _). Qed.

End Lemmas.
End ThreadManager.
