(* ===== verification/Str.v ===== *)
(** * Strings

    Rust strings are sequences of Unicode scalar values stored in UTF-8.  What the
    kernel does with the command line and the environment of a process: trimming
    white space and writing the bytes out. *)

From S2P Require Import Prelude.
#[local] Open Scope Z_scope.

(** A [&str] as the list of its scalar values. *)
Definition str : Type := list Z.

Module Str.

(** The property [White_Space] of Unicode. *)
Definition is_whitespace (c : Z) : bool :=
  ((9 <=? c) && (c <=? 13)) || (c =? 0x20) || (c =? 0x85) || (c =? 0xA0) || (c =? 0x1680) ||
  ((0x2000 <=? c) && (c <=? 0x200A)) || (c =? 0x2028) || (c =? 0x2029) || (c =? 0x202F) ||
  (c =? 0x205F) || (c =? 0x3000).

Fixpoint trim_start (s : str) : str :=
  match s with
  | c :: s' => if is_whitespace c then trim_start s' else s
  | [] => []
  end.

Definition trim (s : str) : str := reverse (trim_start (reverse (trim_start s))).

(** The UTF-8 encoding of a scalar value. *)
Definition encode (c : Z) : list Z :=
  if c <? 0x80 then [c]
  else if c <? 0x800 then [0xC0 + c / 64; 0x80 + c mod 64]
  else if c <? 0x10000 then [0xE0 + c / 4096; 0x80 + (c / 64) mod 64; 0x80 + c mod 64]
  else [0xF0 + c / 262144; 0x80 + (c / 4096) mod 64; 0x80 + (c / 64) mod 64; 0x80 + c mod 64].

Definition as_bytes (s : str) : list Z := s ≫= encode.

Definition len (s : str) : Z := Z.of_nat (length (as_bytes s)).

Definition contains_nul (s : str) : bool := existsb (fun b => b =? 0) (as_bytes s).

(** ** Lemmas *)

Definition scalar (c : Z) : Prop := 0 <= c < 0x110000.

Lemma encode_nul c : scalar c -> 0 ∈ encode c <-> c = 0.
Proof.
  unfold scalar, encode. intros Hc.
  pose proof (Z.mod_pos_bound c 64). pose proof (Z.mod_pos_bound (c / 64) 64).
  pose proof (Z.mod_pos_bound (c / 4096) 64). pose proof (Z.div_pos c 64).
  pose proof (Z.div_pos c 4096). pose proof (Z.div_pos c 262144).
  zbool; rewrite ?elem_of_cons; rewrite elem_of_nil; lia.
Qed.

(** Testing the bytes for a terminator is testing the characters. *)
Lemma contains_nul_spec s : Forall scalar s -> contains_nul s = true <-> 0 ∈ s.
Proof.
  intros Hs. unfold contains_nul, as_bytes. rewrite existsb_exists. split.
  - intros (b & Hb & ->%Z.eqb_eq). apply list_elem_of_In, list_elem_of_bind in Hb as (c & Hc & Hin).
    rewrite Forall_forall in Hs. apply encode_nul in Hc as ->; auto.
  - intros H. exists 0. split; [|done]. apply list_elem_of_In, list_elem_of_bind. exists 0.
    split; [left|done].
Qed.

End Str.
