(* ===== verification/Process.v ===== *)
(** * Processes

    [kernel/src/pm/process/state/*.rs] and [capability.rs]: the state of a process
    and the five structures a process moves through, each holding the queues of
    threads that can exist in it.  As in [Thread], functions that read the clock
    take the time as an argument. *)

From S2P Require Import Prelude Error Config Addr NonEmpty Mailbox UserSpace VirtMem Thread MmioTag MmioAlloc.
#[local] Open Scope Z_scope.

(** ** Capabilities *)

Inductive Capability :=
| ExceptionControl | InterruptControl | IoManagement | MemoryManagement | ProcessManagement.

Definition Capability_value (c : Capability) : Z :=
  match c with
  | ExceptionControl => 0 | InterruptControl => 1 | IoManagement => 2
  | MemoryManagement => 3 | ProcessManagement => 4
  end.

Definition Capability_try_from (value : Z) : res Error Capability :=
  match value with
  | 0 => Ok ExceptionControl
  | 1 => Ok InterruptControl
  | 2 => Ok IoManagement
  | 3 => Ok MemoryManagement
  | 4 => Ok ProcessManagement
  | _ => Err (mkError InvalidArgument "invalid capability")
  end.

(** [Capabilities] is a [u8] with one bit per capability. *)
Module Capabilities.

Definition set (caps : Z) (c : Capability) : Z := Z.lor caps (Z.shiftl 1 (Capability_value c)).
Definition clear (caps : Z) (c : Capability) : Z :=
  Z.land caps (u8_not (Z.shiftl 1 (Capability_value c))).
Definition has (caps : Z) (c : Capability) : bool :=
  negb (Z.land caps (Z.shiftl 1 (Capability_value c)) =? 0).

End Capabilities.

(** ** Events and I/O resources a process may own *)

Inductive SchedulingEvent := ProcessTermination | ProcessCreation.

(** Interrupt and exception events are numbered. *)
Inductive Event :=
| EvInterrupt (n : Z)
| EvException (n : Z)
| EvScheduling (ev : SchedulingEvent).

#[global] Instance SchedulingEvent_eq_dec : EqDecision SchedulingEvent.
Proof. solve_decision. Defined.

#[global] Instance Event_eq_dec : EqDecision Event.
Proof. solve_decision. Defined.

(** Ports are known by their number here; reading and writing them is hardware. *)
Record AnyIoPort := mkAnyIoPort { port_number : Z }.

(** ** Process state *)

Section ProcessTypes.
Context {VM : VirtMem}.

Record ProcessState := mkProcessState {
  ps_pid : ProcessIdentifier;
  capabilities : Z;
  vmem : Vmem;
  events : list Event;
  mailbox : list Message;
  mmio : list IoMemoryRegion;
  pmio : list AnyIoPort;
  mutexes : gmap Z Mutex;
  conditions : gmap Z Condvar;
  pending_exit_status : option ExitStatus
}.

Record RunningProcess := mkRunningProcess {
  rp_state : ProcessState;
  rp_running : RunningThread;
  rp_ready : option (NonEmpty ReadyThread);
  rp_interrupted : option (NonEmpty InterruptedThread);
  rp_sleeping : option (NonEmpty SleepingThread);
  rp_zombie : option (NonEmpty ZombieThread)
}.

Record RunnableProcess := mkRunnableProcess {
  rn_state : ProcessState;
  rn_ready : NonEmpty ReadyThread;
  rn_interrupted : option (NonEmpty InterruptedThread);
  rn_sleeping : option (NonEmpty SleepingThread);
  rn_zombie : option (NonEmpty ZombieThread)
}.

Record SleepingProcess := mkSleepingProcess {
  sp_state : ProcessState;
  sp_sleeping : NonEmpty SleepingThread;
  sp_zombie : option (NonEmpty ZombieThread)
}.

Record InterruptedProcess := mkInterruptedProcess {
  ip_state : ProcessState;
  ip_sleeping : option (NonEmpty SleepingThread);
  ip_interrupted : NonEmpty InterruptedThread;
  ip_zombie : option (NonEmpty ZombieThread)
}.

Record ZombieProcess := mkZombieProcess {
  zp_zombie : NonEmpty ZombieThread;
  zp_state : ProcessState;
  zp_status : ExitStatus
}.

Inductive ThreadRef :=
| RefReady (t : ReadyThread)
| RefRunning (t : RunningThread)
| RefSleeping (t : SleepingThread)
| RefInterrupted (t : InterruptedThread)
| RefZombie (t : ZombieThread).

End ProcessTypes.

Module ProcessState.
Section Definitions.
Context {VM : VirtMem}.

Definition new (pid : ProcessIdentifier) (v : Vmem) : ProcessState :=
  mkProcessState pid 0 v [] [] [] [] ∅ ∅ None.

(** Field updates. *)
Definition with_capabilities (c : Z) (p : ProcessState) : ProcessState :=
  mkProcessState (ps_pid p) c (vmem p) (events p) (mailbox p) (mmio p) (pmio p)
    (mutexes p) (conditions p) (pending_exit_status p).
Definition with_vmem (v : Vmem) (p : ProcessState) : ProcessState :=
  mkProcessState (ps_pid p) (capabilities p) v (events p) (mailbox p) (mmio p) (pmio p)
    (mutexes p) (conditions p) (pending_exit_status p).
Definition with_events (e : list Event) (p : ProcessState) : ProcessState :=
  mkProcessState (ps_pid p) (capabilities p) (vmem p) e (mailbox p) (mmio p) (pmio p)
    (mutexes p) (conditions p) (pending_exit_status p).
Definition with_mailbox (m : list Message) (p : ProcessState) : ProcessState :=
  mkProcessState (ps_pid p) (capabilities p) (vmem p) (events p) m (mmio p) (pmio p)
    (mutexes p) (conditions p) (pending_exit_status p).
Definition with_mmio (m : list IoMemoryRegion) (p : ProcessState) : ProcessState :=
  mkProcessState (ps_pid p) (capabilities p) (vmem p) (events p) (mailbox p) m (pmio p)
    (mutexes p) (conditions p) (pending_exit_status p).
Definition with_pmio (m : list AnyIoPort) (p : ProcessState) : ProcessState :=
  mkProcessState (ps_pid p) (capabilities p) (vmem p) (events p) (mailbox p) (mmio p) m
    (mutexes p) (conditions p) (pending_exit_status p).
Definition with_pending (o : option ExitStatus) (p : ProcessState) : ProcessState :=
  mkProcessState (ps_pid p) (capabilities p) (vmem p) (events p) (mailbox p) (mmio p) (pmio p)
    (mutexes p) (conditions p) o.

Definition with_mutexes (l : gmap Z Mutex) (p : ProcessState) : ProcessState :=
  mkProcessState (ps_pid p) (capabilities p) (vmem p) (events p) (mailbox p) (mmio p) (pmio p)
    l (conditions p) (pending_exit_status p).
Definition with_conditions (l : gmap Z Condvar) (p : ProcessState) : ProcessState :=
  mkProcessState (ps_pid p) (capabilities p) (vmem p) (events p) (mailbox p) (mmio p) (pmio p)
    (mutexes p) l (pending_exit_status p).

Definition set_pending_exit_status (status : ExitStatus) (p : ProcessState) : ProcessState :=
  match pending_exit_status p with
  | None => with_pending (Some status) p
  | Some _ => p
  end.

Definition take_pending_exit_status (p : ProcessState) : option ExitStatus * ProcessState :=
  (pending_exit_status p, with_pending None p).

Definition set_capability (c : Capability) (p : ProcessState) : ProcessState :=
  with_capabilities (Capabilities.set (capabilities p) c) p.
Definition clear_capability (c : Capability) (p : ProcessState) : ProcessState :=
  with_capabilities (Capabilities.clear (capabilities p) c) p.
Definition has_capability (c : Capability) (p : ProcessState) : bool :=
  Capabilities.has (capabilities p) c.

Definition has_special_resources (p : ProcessState) : bool :=
  negb (bool_decide (length (mmio p) = 0%nat)) || negb (bool_decide (length (pmio p) = 0%nat)) ||
  negb (bool_decide (length (events p) = 0%nat)) || negb (Mailbox.is_empty (mailbox p)).

Definition add_event (e : Event) (p : ProcessState) : ProcessState :=
  with_events (events p ++ [e]) p.
Definition remove_event (e : Event) (p : ProcessState) : ProcessState :=
  with_events (filter (fun o => o <> e) (events p)) p.

Definition post_message (m : Message) (p : ProcessState) : ProcessState :=
  with_mailbox (Mailbox.send (mailbox p) m) p.
Definition receive_message (tid : ThreadIdentifier) (p : ProcessState)
    : option Message * ProcessState :=
  let '(m, mbx) := Mailbox.receive (mailbox p) tid in (m, with_mailbox mbx p).

Definition add_mmio (r : IoMemoryRegion) (p : ProcessState) : ProcessState :=
  with_mmio (mmio p ++ [r]) p.
Definition remove_mmio (tag : MmioTag) (p : ProcessState) : ProcessState :=
  match NonEmpty.position (fun r => bool_decide (io_tag r = tag)) (mmio p) with
  | Some index => with_mmio (delete index (mmio p)) p
  | None => p
  end.
Definition mmio_info (tag : MmioTag) (p : ProcessState) : option IoMemoryRegion :=
  List.find (fun r => bool_decide (io_tag r = tag)) (mmio p).

Definition add_pmio (port : AnyIoPort) (p : ProcessState) : ProcessState :=
  with_pmio (pmio p ++ [port]) p.
Definition remove_pmio (number : Z) (p : ProcessState) : res Error AnyIoPort * ProcessState :=
  match NonEmpty.position (fun q => port_number q =? number) (pmio p) with
  | Some index =>
    match pmio p !! index with
    | Some port => (Ok port, with_pmio (delete index (pmio p)) p)
    | None => (Panic, p)
    end
  | None => (Err (mkError NoSuchEntry "io port not found"), p)
  end.

End Definitions.
End ProcessState.

(** [iter().find(|thread| thread.id() == tid)] in an optional queue. *)
Definition find_in {T} (id : T → ThreadIdentifier) (tid : ThreadIdentifier)
    (q : option (NonEmpty T)) : option T :=
  List.find (fun t => id t =? tid) (NonEmpty.elems q).

(** The update made through the reference that [iter_mut()] finds. *)
Fixpoint update_first {T} (c : T → bool) (f : T → T) (l : list T) : list T :=
  match l with
  | [] => []
  | x :: l => if c x then f x :: l else x :: update_first c f l
  end.

Definition update_in {T} (id : T → ThreadIdentifier) (tid : ThreadIdentifier) (f : T → T)
    (q : option (NonEmpty T)) : option (NonEmpty T) :=
  let c := fun t => id t =? tid in
  (fun q => if c (head q) then mkNonEmpty (f (head q)) (tail q)
            else mkNonEmpty (head q) (update_first c f <$> tail q)) <$> q.

(** ** Interrupted processes *)
Module InterruptedProcess.
Section Definitions.
Context {VM : VirtMem}.

Definition new (process : ProcessState) (interrupted : NonEmpty InterruptedThread)
    (zombie : option (NonEmpty ZombieThread)) : InterruptedProcess :=
  mkInterruptedProcess process None interrupted zombie.

Definition from_sleeping (process : ProcessState) (sleeping : option (NonEmpty SleepingThread))
    (interrupted : NonEmpty InterruptedThread) (zombie : option (NonEmpty ZombieThread))
    : InterruptedProcess :=
  mkInterruptedProcess process sleeping interrupted zombie.

Definition resume (p : InterruptedProcess) (now : SystemTime) : RunnableProcess :=
  let '(interrupted_threads, next_thread) := NonEmpty.pop_front (ip_interrupted p) in
  mkRunnableProcess (ip_state p) (NonEmpty.new (Thread.resume next_thread now))
    (NonEmpty.from interrupted_threads) (ip_sleeping p) (ip_zombie p).

(** The function [interrupt] of the module. *)
Definition interrupt (t : SleepingThread) : InterruptedThread := Thread.interrupt t Killed.

Definition find_thread (p : InterruptedProcess) (tid : ThreadIdentifier) : option ThreadRef :=
  match find_in Thread.interrupted_id tid (Some (ip_interrupted p)) with
  | Some t => Some (RefInterrupted t)
  | None =>
    match find_in Thread.sleeping_id tid (ip_sleeping p) with
    | Some t => Some (RefSleeping t)
    | None => RefZombie <$> find_in Thread.zombie_id tid (ip_zombie p)
    end
  end.

End Definitions.
End InterruptedProcess.

(** ** Zombie processes *)
Module ZombieProcess.
Section Definitions.
Context {VM : VirtMem}.

Definition new (process : ProcessState) (zombie : NonEmpty ZombieThread) (status : ExitStatus)
    : ZombieProcess := mkZombieProcess zombie process status.

Definition bury (p : ZombieProcess) : NonEmpty ZombieThread * ProcessState * ExitStatus :=
  (zp_zombie p, zp_state p, zp_status p).

Definition find_thread (p : ZombieProcess) (tid : ThreadIdentifier) : option ThreadRef :=
  RefZombie <$> find_in Thread.zombie_id tid (Some (zp_zombie p)).

End Definitions.
End ZombieProcess.

(** ** Sleeping processes *)
Module SleepingProcess.
Section Definitions.
Context {VM : VirtMem}.

(** The loop moves the rest of the queue, in order. *)
Definition terminate (p : SleepingProcess) : InterruptedProcess :=
  let '(sleeping_threads, sleeping_thread) := NonEmpty.pop_front (sp_sleeping p) in
  let interrupted_threads :=
    foldl (fun q t => NonEmpty.push_back q (Thread.interrupt t Killed))
      (NonEmpty.new (Thread.interrupt sleeping_thread Killed)) sleeping_threads in
  InterruptedProcess.new (sp_state p) interrupted_threads (sp_zombie p).

Definition wakeup (p : SleepingProcess) (tid : ThreadIdentifier) (now : SystemTime)
    : RunnableProcess + SleepingProcess :=
  match NonEmpty.remove_if (sp_sleeping p) (fun t => Thread.sleeping_id t =? tid) with
  | inl (sleeping_threads, sleeping_thread) =>
    inl (mkRunnableProcess (sp_state p) (NonEmpty.new (Thread.wakeup sleeping_thread now))
           None (NonEmpty.from sleeping_threads) (sp_zombie p))
  | inr sleeping_threads => inr (mkSleepingProcess (sp_state p) sleeping_threads (sp_zombie p))
  end.

(** Whether the alarm of a thread has expired. *)
Definition expired (now : SystemTime) (t : SleepingThread) : bool :=
  match alarm t with
  | Some alarm => alarm <=? now
  | None => false
  end.

(** The loop over the remaining threads: those that sleep on, and those that are
    interrupted, each appended to its queue. *)
Fixpoint split_alarms (now : SystemTime) (l : list SleepingThread) (sleeping : list SleepingThread)
    (interrupted : list InterruptedThread) : list SleepingThread * list InterruptedThread :=
  match l with
  | [] => (sleeping, interrupted)
  | t :: l =>
    if expired now t
    then split_alarms now l sleeping (interrupted ++ [Thread.interrupt t TimedOut])
    else split_alarms now l (sleeping ++ [t]) interrupted
  end.

Definition push_all {T} (q : NonEmpty T) (l : list T) : NonEmpty T := foldl NonEmpty.push_back q l.

Definition wakeup_alarm (p : SleepingProcess) (now : SystemTime)
    : InterruptedProcess + SleepingProcess :=
  let '(rest, sleeping_thread) := NonEmpty.pop_front (sp_sleeping p) in
  let '(sleeping, interrupted) := split_alarms now rest [] [] in
  if expired now sleeping_thread then
    inl (InterruptedProcess.from_sleeping (sp_state p) (NonEmpty.from sleeping)
           (push_all (NonEmpty.new (Thread.interrupt sleeping_thread TimedOut)) interrupted)
           (sp_zombie p))
  else
    let sleeping_threads := push_all (NonEmpty.new sleeping_thread) sleeping in
    match NonEmpty.from interrupted with
    | Some interrupted_threads =>
      inl (InterruptedProcess.from_sleeping (sp_state p) (Some sleeping_threads)
             interrupted_threads (sp_zombie p))
    | None => inr (mkSleepingProcess (sp_state p) sleeping_threads (sp_zombie p))
    end.

Definition find_thread (p : SleepingProcess) (tid : ThreadIdentifier) : option ThreadRef :=
  match find_in Thread.sleeping_id tid (Some (sp_sleeping p)) with
  | Some t => Some (RefSleeping t)
  | None => RefZombie <$> find_in Thread.zombie_id tid (sp_zombie p)
  end.

End Definitions.
End SleepingProcess.

(** The interrupted threads of a process whose sleeping threads are killed. *)
Definition kill_sleeping {VM : VirtMem} (interrupted : option (NonEmpty InterruptedThread))
    (sleeping : option (NonEmpty SleepingThread)) : option (NonEmpty InterruptedThread) :=
  match sleeping with
  | Some sleeping_threads =>
    let more := NonEmpty.map sleeping_threads InterruptedProcess.interrupt in
    match interrupted with
    | None => Some more
    | Some interrupted_threads => Some (NonEmpty.append interrupted_threads more)
    end
  | None => interrupted
  end.

(** ** Runnable processes *)
Module RunnableProcess.
Section Definitions.
Context {VM : VirtMem}.

Definition new (pid : ProcessIdentifier) (ready_thread : ReadyThread) (v : Vmem)
    : RunnableProcess :=
  mkRunnableProcess (ProcessState.new pid v) (NonEmpty.new ready_thread) None None None.

Definition from_state (state : ProcessState) (ready : NonEmpty ReadyThread)
    (interrupted : option (NonEmpty InterruptedThread))
    (sleeping : option (NonEmpty SleepingThread)) (zombie : option (NonEmpty ZombieThread))
    : RunnableProcess := mkRunnableProcess state ready interrupted sleeping zombie.

Definition run (p : RunnableProcess)
    : RunningProcess * option InterruptReason * Context * option VirtualAddress :=
  let '(ready_threads, next_thread) := NonEmpty.remove_min_by_key (rn_ready p) admission_time in
  let '(running_thread, interrupt_reason, next_context, user_tda) := Thread.run next_thread in
  (mkRunningProcess (rn_state p) running_thread (NonEmpty.from ready_threads)
     (rn_interrupted p) (rn_sleeping p) (rn_zombie p),
   interrupt_reason, next_context, user_tda).

Definition terminate (p : RunnableProcess) : InterruptedProcess + ZombieProcess :=
  let more_zombie_threads := NonEmpty.map (rn_ready p) Thread.terminate in
  let zombie_threads :=
    match rn_zombie p with
    | Some zombie_threads => NonEmpty.append more_zombie_threads zombie_threads
    | None => more_zombie_threads
    end in
  match kill_sleeping (rn_interrupted p) (rn_sleeping p) with
  | Some interrupted_threads =>
    inl (InterruptedProcess.new (rn_state p) interrupted_threads (Some zombie_threads))
  | None =>
    let '(pending, state) := ProcessState.take_pending_exit_status (rn_state p) in
    inr (ZombieProcess.new state zombie_threads (default (exit_status_of Interrupted) pending))
  end.

Definition wakeup (p : RunnableProcess) (tid : ThreadIdentifier) (now : SystemTime)
    : RunnableProcess + RunnableProcess :=
  match rn_sleeping p with
  | Some sleeping_threads =>
    match NonEmpty.remove_if sleeping_threads (fun t => Thread.sleeping_id t =? tid) with
    | inl (sleeping_threads, sleeping_thread) =>
      inl (from_state (rn_state p)
             (NonEmpty.push_back (rn_ready p) (Thread.wakeup sleeping_thread now))
             (rn_interrupted p) (NonEmpty.from sleeping_threads) (rn_zombie p))
    | inr sleeping_threads =>
      inr (mkRunnableProcess (rn_state p) (rn_ready p) (rn_interrupted p)
             (Some sleeping_threads) (rn_zombie p))
    end
  | None => inr p
  end.

(** The minimum over the queue; as it is not empty the default is never used. *)
Definition earliest_admission_time (p : RunnableProcess) : SystemTime :=
  foldl (fun m t => if admission_time t <? m then admission_time t else m)
    (admission_time (head (rn_ready p))) (default [] (tail (rn_ready p))).

Definition find_thread (p : RunnableProcess) (tid : ThreadIdentifier) : option ThreadRef :=
  match find_in Thread.ready_id tid (Some (rn_ready p)) with
  | Some t => Some (RefReady t)
  | None =>
    match find_in Thread.interrupted_id tid (rn_interrupted p) with
    | Some t => Some (RefInterrupted t)
    | None =>
      match find_in Thread.sleeping_id tid (rn_sleeping p) with
      | Some t => Some (RefSleeping t)
      | None => RefZombie <$> find_in Thread.zombie_id tid (rn_zombie p)
      end
    end
  end.

End Definitions.
End RunnableProcess.

(** ** Running processes *)
Module RunningProcess.
Section Definitions.
Context {VM : VirtMem}.

Definition with_state (st : ProcessState) (p : RunningProcess) : RunningProcess :=
  mkRunningProcess st (rp_running p) (rp_ready p) (rp_interrupted p) (rp_sleeping p) (rp_zombie p).
Definition with_running (t : RunningThread) (p : RunningProcess) : RunningProcess :=
  mkRunningProcess (rp_state p) t (rp_ready p) (rp_interrupted p) (rp_sleeping p) (rp_zombie p).
Definition with_ready (q : option (NonEmpty ReadyThread)) (p : RunningProcess) : RunningProcess :=
  mkRunningProcess (rp_state p) (rp_running p) q (rp_interrupted p) (rp_sleeping p) (rp_zombie p).
Definition with_interrupted (q : option (NonEmpty InterruptedThread)) (p : RunningProcess)
    : RunningProcess :=
  mkRunningProcess (rp_state p) (rp_running p) (rp_ready p) q (rp_sleeping p) (rp_zombie p).
Definition with_sleeping (q : option (NonEmpty SleepingThread)) (p : RunningProcess)
    : RunningProcess :=
  mkRunningProcess (rp_state p) (rp_running p) (rp_ready p) (rp_interrupted p) q (rp_zombie p).
Definition with_zombie (q : option (NonEmpty ZombieThread)) (p : RunningProcess)
    : RunningProcess :=
  mkRunningProcess (rp_state p) (rp_running p) (rp_ready p) (rp_interrupted p) (rp_sleeping p) q.

Definition get_tid (p : RunningProcess) : ThreadIdentifier := Thread.running_id (rp_running p).

Definition schedule (p : RunningProcess) (now : SystemTime) : RunnableProcess * Context :=
  let '(ready_thread, ctx) := Thread.schedule (rp_running p) now in
  (RunnableProcess.from_state (rp_state p) (NonEmpty.push_opt (rp_ready p) ready_thread)
     (rp_interrupted p) (rp_sleeping p) (rp_zombie p), ctx).

Definition sleep (p : RunningProcess) (alarm : option SystemTime) (now : SystemTime)
    : (RunnableProcess * Context) + (SleepingProcess * Context) :=
  let '(sleeping_thread, ctx) := Thread.sleep (rp_running p) alarm in
  let sleeping_threads := NonEmpty.push_opt (rp_sleeping p) sleeping_thread in
  match rp_ready p with
  | Some ready_threads =>
    inl (RunnableProcess.from_state (rp_state p) ready_threads (rp_interrupted p)
           (Some sleeping_threads) (rp_zombie p), ctx)
  | None =>
    match rp_interrupted p with
    | Some interrupted_threads =>
      inl (InterruptedProcess.resume
             (InterruptedProcess.from_sleeping (rp_state p) (Some sleeping_threads)
                interrupted_threads (rp_zombie p)) now, ctx)
    | None => inr (mkSleepingProcess (rp_state p) sleeping_threads (rp_zombie p), ctx)
    end
  end.

Definition exit (p : RunningProcess) (status : ExitStatus) (now : SystemTime)
    : (RunnableProcess * Context) + (ZombieProcess * Context) :=
  let state := ProcessState.set_pending_exit_status status (rp_state p) in
  let '(zombie_thread, ctx) := Thread.exit (rp_running p) status in
  let zombie_threads := NonEmpty.push_opt (rp_zombie p) zombie_thread in
  let zombie_threads :=
    match rp_ready p with
    | Some ready_threads =>
      NonEmpty.append zombie_threads (NonEmpty.map ready_threads Thread.terminate)
    | None => zombie_threads
    end in
  match kill_sleeping (rp_interrupted p) (rp_sleeping p) with
  | Some interrupted_threads =>
    inl (InterruptedProcess.resume
           (InterruptedProcess.from_sleeping state None interrupted_threads
              (Some zombie_threads)) now, ctx)
  | None =>
    let '(pending, state) := ProcessState.take_pending_exit_status state in
    inr (ZombieProcess.new state zombie_threads (default status pending), ctx)
  end.

(** What [exit_thread] returns: the join condition variable of the thread, the
    process in the structure it moves to, and the context. *)
Inductive Exited :=
| ExitedRunnable (jc : Condvar) (p : RunnableProcess) (ctx : Context)
| ExitedSleeping (jc : Condvar) (p : SleepingProcess) (ctx : Context)
| ExitedZombie (jc : Condvar) (p : ZombieProcess) (ctx : Context).

(** [is_some()]. *)
Definition is_some {A} (o : option A) : bool := match o with Some _ => true | None => false end.

Definition exit_thread (p : RunningProcess) (status : ExitStatus) (now : SystemTime)
    : res Error (Exited * option ZombieThread) :=
  let is_detached := detached (run_state (rp_running p)) in
  let jc := join_cond (run_state (rp_running p)) in
  let '(zombie_thread, ctx) := Thread.exit (rp_running p) status in
  let has_other_threads :=
    is_some (rp_ready p) || is_some (rp_interrupted p) || is_some (rp_sleeping p) in
  let '(zombie_threads, deferred_zombie) :=
    if is_detached && has_other_threads then (rp_zombie p, Some zombie_thread)
    else (Some (NonEmpty.push_opt (rp_zombie p) zombie_thread), None) in
  match rp_ready p with
  | Some ready_threads =>
    Ok (ExitedRunnable jc
          (RunnableProcess.from_state (rp_state p) ready_threads (rp_interrupted p)
             (rp_sleeping p) zombie_threads) ctx, deferred_zombie)
  | None =>
    match rp_interrupted p with
    | Some interrupted_threads =>
      Ok (ExitedRunnable jc
            (InterruptedProcess.resume
               (InterruptedProcess.from_sleeping (rp_state p) (rp_sleeping p)
                  interrupted_threads zombie_threads) now) ctx, deferred_zombie)
    | None =>
      match rp_sleeping p with
      | Some sleeping_threads =>
        Ok (ExitedSleeping jc (mkSleepingProcess (rp_state p) sleeping_threads zombie_threads)
              ctx, deferred_zombie)
      | None =>
        match zombie_threads with
        | Some zombie_threads =>
          let '(pending, state) := ProcessState.take_pending_exit_status (rp_state p) in
          Ok (ExitedZombie jc (ZombieProcess.new state zombie_threads (default status pending))
                ctx, deferred_zombie)
        | None => Panic
        end
      end
    end
  end.

Definition add_thread (p : RunningProcess) (ready_thread : ReadyThread) : RunningProcess :=
  with_ready (Some (NonEmpty.push_opt (rp_ready p) ready_thread)) p.

Definition wakeup (p : RunningProcess) (tid : ThreadIdentifier) (now : SystemTime)
    : RunningProcess + RunningProcess :=
  match rp_sleeping p with
  | Some sleeping_threads =>
    match NonEmpty.remove_if sleeping_threads (fun t => Thread.sleeping_id t =? tid) with
    | inl (sleeping_threads, sleeping_thread) =>
      inl (mkRunningProcess (rp_state p) (rp_running p)
             (Some (NonEmpty.push_opt (rp_ready p) (Thread.wakeup sleeping_thread now)))
             (rp_interrupted p) (NonEmpty.from sleeping_threads) (rp_zombie p))
    | inr sleeping_threads => inr (with_sleeping (Some sleeping_threads) p)
    end
  | None => inr p
  end.

(** What joining a thread can find: the zombie, a condition variable to wait on, or
    an error. *)
Inductive Join :=
| JoinZombie (t : ZombieThread)
| JoinWait (jc : Condvar)
| JoinError (e : Error).

(** The answer for a thread that is still alive. *)
Definition join_alive (t : ThreadState) : Join :=
  if detached t then JoinError (mkError InvalidArgument "cannot join a detached thread")
  else JoinWait (join_cond t).

Definition try_join_thread (p : RunningProcess) (tid : ThreadIdentifier) : Join * RunningProcess :=
  if get_tid p =? tid then (JoinError (mkError OperationNotPermitted "thread is running"), p)
  else if existsb (fun t => (Thread.zombie_id t =? tid) && detached (zmb_state t))
            (NonEmpty.elems (rp_zombie p)) then
    (JoinError (mkError InvalidArgument "cannot join a detached thread"), p)
  else
    let removed :=
      match rp_zombie p with
      | Some zombie_threads =>
        match NonEmpty.remove_if zombie_threads (fun t => Thread.zombie_id t =? tid) with
        | inl (zombie_threads, zombie_thread) =>
          inl (zombie_thread, with_zombie (NonEmpty.from zombie_threads) p)
        | inr zombie_threads => inr (with_zombie (Some zombie_threads) p)
        end
      | None => inr p
      end in
    match removed with
    | inl (zombie_thread, p) => (JoinZombie zombie_thread, p)
    | inr p =>
      match find_in Thread.ready_id tid (rp_ready p) with
      | Some t => (join_alive (rdy_state t), p)
      | None =>
        match find_in Thread.sleeping_id tid (rp_sleeping p) with
        | Some t => (join_alive (slp_state t), p)
        | None =>
          match find_in Thread.interrupted_id tid (rp_interrupted p) with
          | Some t => (join_alive (int_state t), p)
          | None => (JoinError (mkError NoSuchProcess "thread not found"), p)
          end
        end
      end
    end.

Definition set_detached_ready (t : ReadyThread) : ReadyThread :=
  mkReadyThread (ThreadState.set_detached (rdy_state t)) (admission_time t).
Definition set_detached_sleeping (t : SleepingThread) : SleepingThread :=
  mkSleepingThread (ThreadState.set_detached (slp_state t)) (alarm t).
Definition set_detached_interrupted (t : InterruptedThread) : InterruptedThread :=
  mkInterruptedThread (ThreadState.set_detached (int_state t)) (reason t).

Definition already_detached : Error := mkError InvalidArgument "thread is already detached".

Definition detach_thread (p : RunningProcess) (tid : ThreadIdentifier)
    : res Error (option ZombieThread) * RunningProcess :=
  if get_tid p =? tid then
    if detached (run_state (rp_running p)) then (Err already_detached, p)
    else (Ok None,
          with_running (mkRunningThread (ThreadState.set_detached (run_state (rp_running p)))) p)
  else
    let removed :=
      match rp_zombie p with
      | Some zombie_threads =>
        match NonEmpty.remove_if zombie_threads (fun t => Thread.zombie_id t =? tid) with
        | inl (zombie_threads, zombie_thread) =>
          inl (zombie_thread, with_zombie (NonEmpty.from zombie_threads) p)
        | inr zombie_threads => inr (with_zombie (Some zombie_threads) p)
        end
      | None => inr p
      end in
    match removed with
    | inl (zombie_thread, p) => (Ok (Some zombie_thread), p)
    | inr p =>
      match find_in Thread.ready_id tid (rp_ready p) with
      | Some t =>
        if detached (rdy_state t) then (Err already_detached, p)
        else (Ok None,
              with_ready (update_in Thread.ready_id tid set_detached_ready (rp_ready p)) p)
      | None =>
        match find_in Thread.sleeping_id tid (rp_sleeping p) with
        | Some t =>
          if detached (slp_state t) then (Err already_detached, p)
          else (Ok None, with_sleeping
                  (update_in Thread.sleeping_id tid set_detached_sleeping (rp_sleeping p)) p)
        | None =>
          match find_in Thread.interrupted_id tid (rp_interrupted p) with
          | Some t =>
            if detached (int_state t) then (Err already_detached, p)
            else (Ok None, with_interrupted
                    (update_in Thread.interrupted_id tid set_detached_interrupted
                       (rp_interrupted p)) p)
          | None => (Err (mkError NoSuchProcess "thread not found"), p)
          end
        end
      end
    end.

Definition find_thread (p : RunningProcess) (tid : ThreadIdentifier) : option ThreadRef :=
  if get_tid p =? tid then Some (RefRunning (rp_running p))
  else
    match find_in Thread.ready_id tid (rp_ready p) with
    | Some t => Some (RefReady t)
    | None =>
      match find_in Thread.interrupted_id tid (rp_interrupted p) with
      | Some t => Some (RefInterrupted t)
      | None =>
        match find_in Thread.sleeping_id tid (rp_sleeping p) with
        | Some t => Some (RefSleeping t)
        | None => RefZombie <$> find_in Thread.zombie_id tid (rp_zombie p)
        end
      end
    end.

End Definitions.
End RunningProcess.
