(* ===== verification/Event.v ===== *)
(** * Events and their messages

    [libs/sys/src/sys/event]: events and their numbers, descriptors of events, which pack
    a sequence number and an event into one word, and the messages that tell a process
    about an exception or about the end of a process.  The size of the payload of a
    message is a constant of the build. *)

From S2P Require Import Prelude Error Config Addr NonEmpty Mailbox UserSpace VirtMem Str Thread Process.
#[local] Open Scope Z_scope.

(** ** Events *)

Definition InterruptEvent_NUMBER_EVENTS : Z := 32.
Definition ExceptionEvent_NUMBER_EVENTS : Z := 32.
Definition SchedulingEvent_NUMBER_EVENTS : Z := 2.

Definition InterruptEvent_try_from (raw : Z) : res Error Z :=
  if (0 <=? raw) && (raw <? 32) then Ok raw else Err (mkError InvalidArgument "invalid interrupt event identifier").
Definition ExceptionEvent_try_from (raw : Z) : res Error Z :=
  if (0 <=? raw) && (raw <? 32) then Ok raw else Err (mkError InvalidArgument "invalid exception event identifier").

Definition SchedulingEvent_value (ev : SchedulingEvent) : Z :=
  match ev with ProcessTermination => 0 | ProcessCreation => 1 end.
Definition SchedulingEvent_try_from (raw : Z) : res Error SchedulingEvent :=
  if raw =? 0 then Ok ProcessTermination
  else if raw =? 1 then Ok ProcessCreation
  else Err (mkError InvalidArgument "invalid scheduling event identifier").

Definition Event_value (ev : Event) : Z :=
  match ev with
  | EvInterrupt n => n
  | EvException n => InterruptEvent_NUMBER_EVENTS + n
  | EvScheduling ev => InterruptEvent_NUMBER_EVENTS + ExceptionEvent_NUMBER_EVENTS + SchedulingEvent_value ev
  end.

Definition Event_try_from (raw : Z) : res Error Event :=
  if InterruptEvent_NUMBER_EVENTS + ExceptionEvent_NUMBER_EVENTS + SchedulingEvent_NUMBER_EVENTS <? raw
  then Err (mkError InvalidArgument "invalid event")
  else if InterruptEvent_NUMBER_EVENTS + ExceptionEvent_NUMBER_EVENTS <=? raw then
    ev ← SchedulingEvent_try_from (raw - InterruptEvent_NUMBER_EVENTS - ExceptionEvent_NUMBER_EVENTS);
    Ok (EvScheduling ev)
  else if InterruptEvent_NUMBER_EVENTS <=? raw then
    ev ← ExceptionEvent_try_from (raw - InterruptEvent_NUMBER_EVENTS);
    Ok (EvException ev)
  else
    ev ← InterruptEvent_try_from raw;
    Ok (EvInterrupt ev).

(** Events whose numbers exist. *)
Definition event_ok (ev : Event) : Prop :=
  match ev with EvInterrupt n | EvException n => 0 <= n < 32 | EvScheduling _ => True end.

Inductive EventCtrlRequest := Register_ | Unregister.
Definition EventCtrlRequest_try_from (raw : Z) : res Error EventCtrlRequest :=
  if raw =? 0 then Ok Register_
  else if raw =? 1 then Ok Unregister
  else Err (mkError InvalidArgument "invalid event control request").

(** ** Descriptors *)

Record EventDescriptor := mkEventDescriptor { ed_raw : Z }.

#[global] Instance EventDescriptor_eq_dec : EqDecision EventDescriptor.
Proof. solve_decision. Defined.

Module EventDescriptor.

Definition EVENT_MASKLEN : Z := 7.
Definition EVENT_MASK : Z := Z.shiftl 1 EVENT_MASKLEN - 1.
Definition EVENT_SHIFT : Z := 0.
Definition ID_MASK : Z := usize_not (Z.lor (Z.shiftl 1 (usize_bits - 1)) EVENT_MASK).
Definition ID_SHIFT : Z := EVENT_SHIFT + EVENT_MASKLEN.

(** Bits that are shifted out are lost. *)
Definition new (id : Z) (ev : Event) : EventDescriptor :=
  mkEventDescriptor (Z.lor (Z.land (Z.shiftl id ID_SHIFT mod 2 ^ usize_bits) ID_MASK) (Z.land (Event_value ev) EVENT_MASK)).

Definition id (d : EventDescriptor) : Z := Z.shiftr (Z.land (ed_raw d) ID_MASK) ID_SHIFT.

Definition event (d : EventDescriptor) : res Error Event :=
  match Event_try_from (Z.land (ed_raw d) EVENT_MASK) with Ok ev => Ok ev | _ => Panic end.

(** [from_ne_bytes] and [try_from] of a word. *)
Definition try_from (raw : Z) : res Error EventDescriptor :=
  let id := Z.shiftr (Z.land raw ID_MASK) ID_SHIFT in
  ev ← Event_try_from (Z.land raw EVENT_MASK);
  Ok (new id ev).

End EventDescriptor.

(** ** Words in messages, least significant byte first *)

Definition to_ne_bytes (v : Z) : list Z := [v mod 256; v / 256 mod 256; v / 65536 mod 256; v / 16777216 mod 256].
Definition from_ne_bytes (l : list Z) : Z := foldr (fun b acc => b + 256 * acc) 0 l.
Definition i32_to_ne_bytes (v : Z) : list Z := to_ne_bytes (v mod 2 ^ 32).
Definition i32_from_ne_bytes (l : list Z) : Z := let v := from_ne_bytes l in if v <? 2 ^ 31 then v else v - 2 ^ 32.

Record EventInformation := mkEventInformation {
  ei_id : EventDescriptor;
  ei_pid : ProcessIdentifier;
  ei_number : option Z;
  ei_code : option Z;
  ei_address : option Z;
  ei_instruction : option Z
}.

Record ProcessTerminationInfo := mkProcessTerminationInfo { pt_pid : ProcessIdentifier; pt_status : Z }.

Module EventInformation.

(** [payload[offset..offset + n].copy_from_slice(..)]. *)
Definition copy_at (offset : nat) (bytes payload : list Z) : res Error (list Z) :=
  if Nat.leb (offset + length bytes) (length payload)
  then Ok (take offset payload ++ bytes ++ drop (offset + length bytes) payload) else Panic.

Definition put_optional (v : option Z) (st : nat * list Z) : res Error (nat * list Z) :=
  match v with
  | Some v => payload ← copy_at st.1 (to_ne_bytes v) st.2; Ok ((st.1 + 4)%nat, payload)
  | None => Ok st
  end.

(** [From<EventInformation> for Message]; [size] is [Message::PAYLOAD_SIZE]. *)
Definition into_message (size : nat) (info : EventInformation) : res Error Message :=
  payload ← copy_at 0 (to_ne_bytes (ed_raw (ei_id info))) (replicate size 0);
  payload ← copy_at 4 (i32_to_ne_bytes (ei_pid info)) payload;
  st ← put_optional (ei_number info) (8%nat, payload);
  st ← put_optional (ei_code info) st;
  st ← put_optional (ei_address info) st;
  st ← put_optional (ei_instruction info) st;
  Ok (mkMessage Exception (ei_pid info) (receiver_of_pid (ei_pid info)) 0 st.2).

Definition read_required_bytes (payload : list Z) (offset : nat) (field : string) : res Error (list Z) :=
  if Nat.leb (offset + 4) (length payload) then Ok (take 4 (drop offset payload)) else Err (mkError InvalidMessage field).

Definition read_optional_usize (payload : list Z) (offset : nat) : option Z * nat :=
  if Nat.leb (offset + 4) (length payload)
  then (Some (from_ne_bytes (take 4 (drop offset payload))), (offset + 4)%nat) else (None, offset).

(** [TryFrom<Message> for EventInformation]. *)
Definition try_from_message (message : Message) : res Error EventInformation :=
  let payload := payload message in
  bytes ← read_required_bytes payload 0 "invalid event descriptor";
  id ← EventDescriptor.try_from (from_ne_bytes bytes);
  bytes ← read_required_bytes payload 4 "invalid process identifier";
  let pid := i32_from_ne_bytes bytes in
  let '(number, offset) := read_optional_usize payload 8 in
  let '(code, offset) := read_optional_usize payload offset in
  let '(address, offset) := read_optional_usize payload offset in
  let '(instruction, offset) := read_optional_usize payload offset in
  Ok (mkEventInformation id pid number code address instruction).

End EventInformation.

(** [ProcessTerminationInfo::to_ne_bytes], and the payload the event manager puts it in. *)
Definition termination_payload (size : nat) (info : ProcessTerminationInfo) : res Error (list Z) :=
  EventInformation.copy_at 0 (i32_to_ne_bytes (pt_pid info) ++ to_ne_bytes (pt_status info)) (replicate size 0).

Definition ProcessTerminationInfo_from_ne_bytes (bytes : list Z) : ProcessTerminationInfo :=
  mkProcessTerminationInfo (i32_from_ne_bytes (take 4 bytes)) (from_ne_bytes (take 4 (drop 4 bytes))).

(** ** Round trips *)

Lemma event_roundtrip ev : event_ok ev -> 0 <= Event_value ev < 128 /\ Event_try_from (Event_value ev) = Ok ev.
Proof.
  unfold Event_value, Event_try_from, InterruptEvent_try_from, ExceptionEvent_try_from, InterruptEvent_NUMBER_EVENTS, ExceptionEvent_NUMBER_EVENTS,
    SchedulingEvent_NUMBER_EVENTS. destruct ev as [n|n|[]]; simpl; intros Hn; (split; [lia|]); [|replace (32 + n - 32) with n by lia|done|done];
    zbool; simpl; done || lia.
Qed.

Lemma id_mask_eq : EventDescriptor.ID_MASK = Z.shiftl (Z.ones 24) 7.
Proof. reflexivity. Qed.

(** The word of a descriptor. *)
Lemma descriptor_raw n ev : event_ok ev -> 0 <= n ->
  ed_raw (EventDescriptor.new n ev) = n mod 2 ^ 24 * 128 + Event_value ev.
Proof.
  intros Hev Hn. destruct (event_roundtrip ev Hev) as [Hv _]. unfold EventDescriptor.new. cbn [ed_raw]. rewrite id_mask_eq.
  change EventDescriptor.ID_SHIFT with 7. change EventDescriptor.EVENT_MASK with (Z.ones 7). rewrite (Z.land_ones _ 7), (Z.mod_small (Event_value ev)) by lia.
  assert (Z.land (Z.shiftl n 7 mod 2 ^ usize_bits) (Z.shiftl (Z.ones 24) 7) = Z.shiftl (n mod 2 ^ 24) 7) as ->.
  { apply Z.bits_inj'. intros i Hi. rewrite Z.land_spec, !Z.shiftl_spec by lia. change usize_bits with 32. destruct (Z.lt_ge_cases i 7).
    - rewrite !(Z.testbit_neg_r _ (i - 7)) by lia. by rewrite andb_false_r.
    - rewrite Z.testbit_ones by lia. destruct (Z.lt_ge_cases (i - 7) 24).
      + rewrite !Z.mod_pow2_bits_low, Z.shiftl_spec by lia. zbool; rewrite ?andb_true_r; done || lia.
      + rewrite (Z.mod_pow2_bits_high n) by lia. zbool; rewrite ?andb_false_r; done || lia. }
  rewrite Z.shiftl_mul_pow2 by lia. change (2 ^ 7) with 128.
  assert (Z.land (n mod 2 ^ 24 * 128) (Event_value ev) = 0) as H0.
  { apply Z.bits_inj'. intros i Hi. rewrite Z.land_spec, Z.bits_0. change 128 with (2 ^ 7).
    destruct (Z.lt_ge_cases i 7); [by rewrite Z.mul_pow2_bits_low by lia|].
    rewrite <- (Z.mod_small (Event_value ev) (2 ^ 7)), (Z.mod_pow2_bits_high _ 7) by lia. apply andb_false_r. }
  rewrite <- Z.lxor_lor by done. symmetry. by apply Z.add_nocarry_lxor.
Qed.

Lemma mask_id x : 0 <= x -> Z.shiftr (Z.land x EventDescriptor.ID_MASK) EventDescriptor.ID_SHIFT = x / 128 mod 2 ^ 24.
Proof.
  intros Hx. rewrite id_mask_eq. change EventDescriptor.ID_SHIFT with 7. rewrite Z.shiftr_land, Z.shiftr_shiftl_l, Z.sub_diag, Z.shiftl_0_r by lia.
  by rewrite Z.land_ones, Z.shiftr_div_pow2 by lia.
Qed.

(** A descriptor holds its event, and its number modulo [2 ^ 24]. *)
Lemma descriptor_parts n ev : event_ok ev -> 0 <= n ->
  EventDescriptor.event (EventDescriptor.new n ev) = Ok ev /\ EventDescriptor.id (EventDescriptor.new n ev) = n mod 2 ^ 24.
Proof.
  intros Hev Hn. destruct (event_roundtrip ev Hev) as [Hv Hr]. pose proof (descriptor_raw n ev Hev Hn) as Hd.
  pose proof (Z.mod_pos_bound n (2 ^ 24) ltac:(lia)). split.
  - unfold EventDescriptor.event. change EventDescriptor.EVENT_MASK with (Z.ones 7). rewrite Z.land_ones, Hd by lia. change (2 ^ 7) with 128.
    rewrite Z.add_comm, Z.mod_add, Z.mod_small by lia. by rewrite Hr.
  - unfold EventDescriptor.id. rewrite mask_id, Hd by lia. rewrite Z.div_add_l, (Z.div_small (Event_value ev)), Z.add_0_r by lia. apply Z.mod_mod. lia.
Qed.

Lemma descriptor_decodes n ev : event_ok ev -> 0 <= n ->
  EventDescriptor.try_from (ed_raw (EventDescriptor.new n ev)) = Ok (EventDescriptor.new n ev).
Proof.
  intros Hev Hn. destruct (descriptor_parts n ev Hev Hn) as [He Hi]. unfold EventDescriptor.event, EventDescriptor.id in *. unfold EventDescriptor.try_from.
  rewrite Hi. destruct (Event_try_from _) as [ev'| |]; [|done|done]. injection He as ->. simpl. f_equal.
  pose proof (Z.mod_pos_bound n (2 ^ 24) ltac:(lia)).
  assert (ed_raw (EventDescriptor.new (n mod 2 ^ 24) ev) = ed_raw (EventDescriptor.new n ev)) as E by (rewrite !descriptor_raw, Z.mod_mod by lia || done; done).
  destruct (EventDescriptor.new n ev), (EventDescriptor.new (n mod 2 ^ 24) ev). simpl in E. by subst.
Qed.

Lemma ne_bytes_roundtrip v : 0 <= v < 2 ^ 32 -> from_ne_bytes (to_ne_bytes v) = v.
Proof. intros Hv. unfold from_ne_bytes, to_ne_bytes. cbn [foldr]. Z.to_euclidean_division_equations; lia. Qed.

Lemma i32_bytes_roundtrip v : - 2 ^ 31 <= v < 2 ^ 31 -> i32_from_ne_bytes (i32_to_ne_bytes v) = v.
Proof.
  intros Hv. unfold i32_from_ne_bytes, i32_to_ne_bytes. rewrite ne_bytes_roundtrip by (apply Z.mod_pos_bound; lia).
  zbool; Z.to_euclidean_division_equations; lia.
Qed.

(** The payload of a message: six words and zeroes. *)
Lemma payload_words (a b c d e f : list Z) k : Forall (fun l => length l = 4%nat) [a; b; c; d; e; f] ->
  EventInformation.copy_at 0 a (replicate (24 + k) 0) = Ok (a ++ replicate (20 + k) 0) /\
  EventInformation.copy_at 4 b (a ++ replicate (20 + k) 0) = Ok (a ++ b ++ replicate (16 + k) 0) /\
  EventInformation.copy_at 8 c (a ++ b ++ replicate (16 + k) 0) = Ok (a ++ b ++ c ++ replicate (12 + k) 0) /\
  EventInformation.copy_at 12 d (a ++ b ++ c ++ replicate (12 + k) 0) = Ok (a ++ b ++ c ++ d ++ replicate (8 + k) 0) /\
  EventInformation.copy_at 16 e (a ++ b ++ c ++ d ++ replicate (8 + k) 0) = Ok (a ++ b ++ c ++ d ++ e ++ replicate (4 + k) 0) /\
  EventInformation.copy_at 20 f (a ++ b ++ c ++ d ++ e ++ replicate (4 + k) 0) = Ok (a ++ b ++ c ++ d ++ e ++ f ++ replicate k 0).
Proof.
  rewrite !Forall_cons. intros (Ha & Hb & Hc & Hd & He & Hf & _).
  do 4 (destruct a as [|? a]; [done|]). destruct a; [|done]. do 4 (destruct b as [|? b]; [done|]). destruct b; [|done].
  do 4 (destruct c as [|? c]; [done|]). destruct c; [|done]. do 4 (destruct d as [|? d]; [done|]). destruct d; [|done].
  do 4 (destruct e as [|? e]; [done|]). destruct e; [|done]. do 4 (destruct f as [|? f]; [done|]). destruct f; [|done].
  unfold EventInformation.copy_at. cbn. by rewrite drop_0.
Qed.

Lemma read_words (a b c d e f r : list Z) g : Forall (fun l => length l = 4%nat) [a; b; c; d; e; f] ->
  let p := a ++ b ++ c ++ d ++ e ++ f ++ r in
  EventInformation.read_required_bytes p 0 g = Ok a /\ EventInformation.read_required_bytes p 4 g = Ok b /\
  EventInformation.read_optional_usize p 8 = (Some (from_ne_bytes c), 12%nat) /\
  EventInformation.read_optional_usize p 12 = (Some (from_ne_bytes d), 16%nat) /\
  EventInformation.read_optional_usize p 16 = (Some (from_ne_bytes e), 20%nat) /\
  EventInformation.read_optional_usize p 20 = (Some (from_ne_bytes f), 24%nat).
Proof.
  rewrite !Forall_cons. intros (Ha & Hb & Hc & Hd & He & Hf & _).
  do 4 (destruct a as [|? a]; [done|]). destruct a; [|done]. do 4 (destruct b as [|? b]; [done|]). destruct b; [|done].
  do 4 (destruct c as [|? c]; [done|]). destruct c; [|done]. do 4 (destruct d as [|? d]; [done|]). destruct d; [|done].
  do 4 (destruct e as [|? e]; [done|]). destruct e; [|done]. do 4 (destruct f as [|? f]; [done|]). destruct f; [|done]. done.
Qed.

(** What a process decodes from the message about an exception is what the kernel put
    into it: the descriptor, the faulting process and the four words about the fault. *)
Theorem event_message_roundtrip size n ev pid number code address instruction :
  (24 <= size)%nat -> event_ok ev -> 0 <= n -> - 2 ^ 31 <= pid < 2 ^ 31 ->
  Forall (fun v => 0 <= v < 2 ^ 32) [number; code; address; instruction] ->
  let info := mkEventInformation (EventDescriptor.new n ev) pid (Some number) (Some code) (Some address) (Some instruction) in
  exists m, EventInformation.into_message size info = Ok m /\ EventInformation.try_from_message m = Ok info.
Proof.
  intros Hs Hev Hn Hp Hw info. rewrite !Forall_cons in Hw. destruct Hw as (H1 & H2 & H3 & H4 & _).
  destruct (event_roundtrip ev Hev) as [Hv _]. pose proof (Z.mod_pos_bound n (2 ^ 24) ltac:(lia)) as Hm.
  pose proof (descriptor_raw n ev Hev Hn) as Hd. replace size with (24 + (size - 24))%nat by lia. set (k := (size - 24)%nat).
  destruct (payload_words (to_ne_bytes (ed_raw (EventDescriptor.new n ev))) (i32_to_ne_bytes pid) (to_ne_bytes number) (to_ne_bytes code)
    (to_ne_bytes address) (to_ne_bytes instruction) k ltac:(by repeat constructor)) as (E1 & E2 & E3 & E4 & E5 & E6).
  eexists. split.
  { unfold EventInformation.into_message, info. cbn [ei_id ei_pid ei_number ei_code ei_address ei_instruction]. unfold EventInformation.put_optional.
    rewrite E1. cbn [mbind res_bind]. rewrite E2. cbn [mbind res_bind fst snd]. rewrite E3. cbn [mbind res_bind fst snd]. change (8 + 4)%nat with 12%nat.
    rewrite E4. cbn [mbind res_bind fst snd]. change (12 + 4)%nat with 16%nat. rewrite E5. cbn [mbind res_bind fst snd]. change (16 + 4)%nat with 20%nat. rewrite E6.
    reflexivity. }
  pose proof (fun g => read_words (to_ne_bytes (ed_raw (EventDescriptor.new n ev))) (i32_to_ne_bytes pid) (to_ne_bytes number) (to_ne_bytes code)
    (to_ne_bytes address) (to_ne_bytes instruction) (replicate k 0) g ltac:(by repeat constructor)) as Hr. cbv zeta in Hr.
  destruct (Hr "invalid event descriptor"%string) as (R1 & _ & R3 & R4 & R5 & R6). destruct (Hr "invalid process identifier"%string) as (_ & R2 & _).
  unfold EventInformation.try_from_message. cbn [payload snd]. rewrite R1. cbn [mbind res_bind].
  rewrite ne_bytes_roundtrip by (rewrite Hd; lia). rewrite descriptor_decodes by done. cbn [mbind res_bind]. rewrite R2. cbn [mbind res_bind].
  rewrite R3, R4, R5, R6, i32_bytes_roundtrip by done. by rewrite !ne_bytes_roundtrip.
Qed.

Lemma event_message_roundtrip_witness :
  exists m, EventInformation.into_message 32 (mkEventInformation (EventDescriptor.new 5 (EvException 14)) 3 (Some 14) (Some 7) (Some 4096) (Some 64)) = Ok m /\
    EventInformation.try_from_message m = Ok (mkEventInformation (EventDescriptor.new 5 (EvException 14)) 3 (Some 14) (Some 7) (Some 4096) (Some 64)).
Proof. apply (event_message_roundtrip 32 5 (EvException 14) 3 14 7 4096 64); [lia|simpl; lia|lia|lia|]. repeat constructor; lia. Defined.
