(* ===== verification/ProcessView.v ===== *)
(** * The life cycle of threads

    An abstract view of the five process structures: the list of the threads of a
    process, each with its state and what it is doing.  [lifecycle] is the state
    machine of a single thread; every operation of [Process] moves the threads of
    the process along it and neither loses, duplicates nor invents one. *)

From S2P Require Import Prelude Error Config Addr NonEmpty Mailbox UserSpace VirtMem Thread Process.
#[local] Open Scope Z_scope.

Inductive Status :=
| Sready (admitted : SystemTime)
| Srunning
| Ssleeping (alarm : option SystemTime)
| Sinterrupted (r : InterruptReason)
| Szombie (status : ExitStatus).

Section View.
Context {VM : VirtMem}.

(** A thread and what it is doing. *)
Definition Entry : Type := ThreadState * Status.

Definition e_tid (e : Entry) : ThreadIdentifier := ts_id e.1.

Definition e_ready (t : ReadyThread) : Entry := (rdy_state t, Sready (admission_time t)).
Definition e_running (t : RunningThread) : Entry := (run_state t, Srunning).
Definition e_sleeping (t : SleepingThread) : Entry := (slp_state t, Ssleeping (alarm t)).
Definition e_interrupted (t : InterruptedThread) : Entry := (int_state t, Sinterrupted (reason t)).
Definition e_zombie (t : ZombieThread) : Entry := (zmb_state t, Szombie (zmb_status t)).

(** The threads in a queue. *)
Definition queue {T} (e : T → Entry) (q : option (NonEmpty T)) : list Entry :=
  e <$> NonEmpty.elems q.

(** ** One interface for the five process structures *)

Class ProcessLike (P : Type) := {
  pstate : P → ProcessState;
  pview : P → list Entry;
  pfind : P → ThreadIdentifier → option ThreadRef
}.

(** The threads of a running process other than the one that runs. *)
Definition others (p : RunningProcess) : list Entry :=
  queue e_ready (rp_ready p) ++ queue e_interrupted (rp_interrupted p) ++
  queue e_sleeping (rp_sleeping p) ++ queue e_zombie (rp_zombie p).

#[global] Instance running_like : ProcessLike RunningProcess := {
  pstate := rp_state;
  pview p := e_running (rp_running p) :: others p;
  pfind := RunningProcess.find_thread
}.

#[global] Instance runnable_like : ProcessLike RunnableProcess := {
  pstate := rn_state;
  pview p := queue e_ready (Some (rn_ready p)) ++ queue e_interrupted (rn_interrupted p) ++
    queue e_sleeping (rn_sleeping p) ++ queue e_zombie (rn_zombie p);
  pfind := RunnableProcess.find_thread
}.

#[global] Instance sleeping_like : ProcessLike SleepingProcess := {
  pstate := sp_state;
  pview p := queue e_sleeping (Some (sp_sleeping p)) ++ queue e_zombie (sp_zombie p);
  pfind := SleepingProcess.find_thread
}.

#[global] Instance interrupted_like : ProcessLike InterruptedProcess := {
  pstate := ip_state;
  pview p := queue e_interrupted (Some (ip_interrupted p)) ++ queue e_sleeping (ip_sleeping p) ++
    queue e_zombie (ip_zombie p);
  pfind := InterruptedProcess.find_thread
}.

#[global] Instance zombie_like : ProcessLike ZombieProcess := {
  pstate := zp_state;
  pview p := queue e_zombie (Some (zp_zombie p));
  pfind := ZombieProcess.find_thread
}.

Definition ppid {P} `{!ProcessLike P} (p : P) : ProcessIdentifier := ps_pid (pstate p).
Definition ptids {P} `{!ProcessLike P} (p : P) : list ThreadIdentifier := e_tid <$> pview p.

(** ** The state machine of a thread *)

Inductive tstep : Entry → Entry → Prop :=
| t_dispatch ts a : tstep (ts, Sready a) ((ThreadState.take_interrupt_reason ts).2, Srunning)
| t_preempt ts a : tstep (ts, Srunning) (ts, Sready a)
| t_sleep ts a : tstep (ts, Srunning) (ts, Ssleeping a)
| t_exit ts st : tstep (ts, Srunning) (ts, Szombie st)
| t_terminate ts a : tstep (ts, Sready a) (ts, Szombie (exit_status_of Interrupted))
| t_wakeup ts a now : tstep (ts, Ssleeping a) (ts, Sready now)
| t_kill ts a : tstep (ts, Ssleeping a) (ts, Sinterrupted Killed)
| t_timeout ts a : tstep (ts, Ssleeping (Some a)) (ts, Sinterrupted TimedOut)
| t_resume ts r now :
    tstep (ts, Sinterrupted r) (ThreadState.set_interrupt_reason r ts, Sready now)
| t_detach ts s : tstep (ts, s) (ThreadState.set_detached ts, s)
| t_tda ts s tda : tstep (ts, s) (ThreadState.store_thread_data_area tda ts, s).

Definition lifecycle : relation Entry := rtc tstep.

(** The threads of [l] have become those of [l'], in any order. *)
Definition evolve : relation (list Entry) := pointwise lifecycle.

(** ** Lemmas on the view *)

Lemma tstep_tid e e' : tstep e e' -> e_tid e' = e_tid e.
Proof. by destruct 1. Qed.

Lemma lifecycle_tid e e' : lifecycle e e' -> e_tid e' = e_tid e.
Proof. induction 1 as [|x y z Hxy _ IH]; [done|]. by rewrite IH, (tstep_tid x y). Qed.

(** The user stack belongs to the thread for life. *)
Lemma lifecycle_stack e e' : lifecycle e e' -> user_stack e'.1 = user_stack e.1.
Proof. induction 1 as [|x y z Hxy _ IH]; [done|]. rewrite IH. by destruct Hxy. Qed.

(** Every operation makes the thread it acts on take one step. *)
Lemma lifecycle_once e e' : tstep e e' -> lifecycle e e'.
Proof. apply rtc_once. Qed.

(** A zombie stays one and keeps its exit status. *)
Lemma lifecycle_zombie ts st e' : lifecycle (ts, Szombie st) e' -> e'.2 = Szombie st.
Proof.
  remember (ts, Szombie st) as e eqn:E. intros H. revert ts E.
  induction H as [|x y z Hxy _ IH]; intros ts ->; [done|].
  inversion Hxy; subst; eauto.
Qed.

#[global] Instance evolve_proper : Proper ((≡ₚ) ==> (≡ₚ) ==> iff) evolve := pointwise_proper _.

#[global] Instance lifecycle_preorder : PreOrder lifecycle.
Proof. unfold lifecycle. split; apply _. Qed.

#[global] Instance evolve_preorder : PreOrder evolve := pointwise_preorder _.

Lemma evolve_refl l : evolve l l.
Proof. reflexivity. Qed.

Lemma evolve_app l1 l2 k1 k2 : evolve l1 k1 -> evolve l2 k2 -> evolve (l1 ++ l2) (k1 ++ k2).
Proof. apply pointwise_app. Qed.

Lemma evolve_cons e e' l k : tstep e e' -> evolve l k -> evolve (e :: l) (e' :: k).
Proof.
  intros He (m & Hm & Hf). exists (e :: m). split; [by rewrite Hm|].
  constructor; [by apply rtc_once|done].
Qed.

Lemma evolve_skip e l k : evolve l k -> evolve (e :: l) (e :: k).
Proof. intros. apply (evolve_app [e] l [e] k); [reflexivity|done]. Qed.

(** A whole queue takes the same step. *)
Lemma evolve_fmap {T} (f g : T → Entry) (l : list T) :
  (forall t, tstep (f t) (g t)) -> evolve (f <$> l) (g <$> l).
Proof.
  intros Hfg. exists (f <$> l). split; [done|]. 
  apply Forall2_fmap, Forall_Forall2_diag, Forall_true. intros t. by apply rtc_once.
Qed.

Lemma evolve_perm l k : l ≡ₚ k -> evolve l k.
Proof. by intros ->. Qed.

(** Threads keep their identifiers. *)
Lemma evolve_tids l k : evolve l k -> e_tid <$> l ≡ₚ e_tid <$> k.
Proof. apply pointwise_keep. intros x y H. symmetry. by apply lifecycle_tid. Qed.

End View.

#[global] Arguments queue : simpl never.

(** ** Queues *)
Section Queues.
Context {VM : VirtMem} {T : Type} (e : T → Entry).

Lemma queue_none : queue e None = [].
Proof. done. Qed.

Lemma queue_some q : queue e (Some q) = e <$> NonEmpty.to_list q.
Proof. done. Qed.

Lemma queue_from l : queue e (NonEmpty.from l) = e <$> l.
Proof. unfold queue. by rewrite NonEmpty.elems_from. Qed.

Lemma queue_new x : queue e (Some (NonEmpty.new x)) = [e x].
Proof. done. Qed.

Lemma queue_push_back q x :
  queue e (Some (NonEmpty.push_back q x)) = queue e (Some q) ++ [e x].
Proof. rewrite !queue_some, NonEmpty.to_list_push_back. by rewrite fmap_app. Qed.

Lemma queue_push_opt o x : queue e (Some (NonEmpty.push_opt o x)) = queue e o ++ [e x].
Proof. rewrite queue_some, NonEmpty.to_list_push_opt. by rewrite fmap_app. Qed.

Lemma queue_append q q' :
  queue e (Some (NonEmpty.append q q')) = queue e (Some q) ++ queue e (Some q').
Proof. rewrite !queue_some, NonEmpty.to_list_append. by rewrite fmap_app. Qed.

Lemma queue_map {U} (f : U → T) q :
  queue e (Some (NonEmpty.map q f)) = (fun x => e (f x)) <$> NonEmpty.to_list q.
Proof. rewrite queue_some, NonEmpty.to_list_map, <- list_fmap_compose. done.
Qed.

Lemma queue_pop_front q l x :
  NonEmpty.pop_front q = (l, x) -> queue e (Some q) = e x :: (e <$> l).
Proof. intros H%NonEmpty.pop_front_spec. by rewrite queue_some, H. Qed.

Lemma queue_push_all q l :
  queue e (Some (SleepingProcess.push_all q l)) = queue e (Some q) ++ (e <$> l).
Proof.
  unfold SleepingProcess.push_all. revert q. induction l as [|x l IH]; intros q; simpl.
  - by rewrite app_nil_r.
  - by rewrite IH, queue_push_back, <- app_assoc.
Qed.

Lemma elem_of_queue x q : x ∈ queue e q <-> exists t, x = e t /\ t ∈ NonEmpty.elems q.
Proof. apply list_elem_of_fmap. Qed.

End Queues.

Create Rewrite HintDb view.
#[export] Hint Rewrite @queue_none @queue_from @queue_new @queue_push_back @queue_push_opt
  @queue_append @queue_map @queue_push_all : view.

(** Show the view of the process structures at hand, queue by queue. *)
Ltac view :=
  unfold pview, running_like, runnable_like, sleeping_like, interrupted_like, zombie_like, others,
    RunnableProcess.from_state, InterruptedProcess.new, InterruptedProcess.from_sleeping,
    ZombieProcess.new;
  cbn [rp_state rp_running rp_ready rp_interrupted rp_sleeping rp_zombie rn_state rn_ready
       rn_interrupted rn_sleeping rn_zombie sp_state sp_sleeping sp_zombie ip_state ip_sleeping
       ip_interrupted ip_zombie zp_zombie zp_state zp_status];
  autorewrite with view.

(** ** What each operation does to the threads of a process *)
Section Operations.
Context {VM : VirtMem}.
Implicit Types (now : SystemTime) (tid : ThreadIdentifier).

#[local] Hint Constructors tstep : core.

Lemma resume_evolve (p : InterruptedProcess) now :
  evolve (pview p) (pview (InterruptedProcess.resume p now)) /\
  pstate (InterruptedProcess.resume p now) = pstate p.
Proof.
  unfold InterruptedProcess.resume.
  destruct (NonEmpty.pop_front (ip_interrupted p)) as [l x] eqn:Hp. split; [|done].
  view. rewrite (queue_pop_front _ _ _ _ Hp). cbn [app]. apply evolve_cons; [constructor|reflexivity].
Qed.

(** The running thread leaves the processor; the others are untouched. *)
Lemma schedule_view (p : RunningProcess) now q ctx :
  RunningProcess.schedule p now = (q, ctx) ->
  pview q ≡ₚ (run_state (rp_running p), Sready now) :: others p /\
  pstate q = pstate p /\ ctx = RunningProcess.get_tid p.
Proof.
  intros [= <- <-]. splits; [|done..]. view. solve_Permutation.
Qed.

Lemma run_view (p : RunnableProcess) q r ctx tda :
  RunnableProcess.run p = (q, r, ctx, tda) ->
  exists t, pview p ≡ₚ e_ready t :: others q /\
    rp_running q = mkRunningThread (ThreadState.take_interrupt_reason (rdy_state t)).2 /\
    r = interrupt_reason (rdy_state t) /\ ctx = RunningProcess.get_tid q /\
    tda = user_tda (rdy_state t) /\ pstate q = pstate p /\
    Forall (fun t' => admission_time t <= admission_time t') (NonEmpty.to_list (rn_ready p)).
Proof.
  unfold RunnableProcess.run.
  destruct (NonEmpty.remove_min_by_key (rn_ready p) admission_time) as [l t] eqn:Hm.
  apply NonEmpty.remove_min_by_key_spec in Hm as [Hl Hmin]. intros [= <- <- <- <-].
  exists t. splits; [|done..]. view. by rewrite queue_some, <- Hl.
Qed.

(** The running thread goes to sleep. *)
Lemma sleep_view (p : RunningProcess) a now :
  match RunningProcess.sleep p a now with
  | inl (q, ctx) =>
    evolve (pview p) (pview q) /\ (run_state (rp_running p), Ssleeping a) ∈ pview q /\
    pstate q = pstate p /\ ctx = RunningProcess.get_tid p
  | inr (q, ctx) =>
    pview q ≡ₚ (run_state (rp_running p), Ssleeping a) :: others p /\
    pstate q = pstate p /\ ctx = RunningProcess.get_tid p
  end.
Proof.
  unfold RunningProcess.sleep, Thread.sleep.
  destruct (rp_ready p) as [rdy|] eqn:Hr; [|destruct (rp_interrupted p) as [it|] eqn:Hi].
  - view. rewrite Hr. splits; [|set_solver|done..].
    transitivity ((run_state (rp_running p), Ssleeping a) :: others p).
    + apply evolve_cons; [constructor|]. view. by rewrite Hr.
    + apply evolve_perm. view. rewrite Hr. solve_Permutation.
  - set (ip := InterruptedProcess.from_sleeping _ _ _ _).
    destruct (resume_evolve ip now) as [He Hs]. splits; [| |done..].
    + transitivity (pview ip); [|done].
      transitivity ((run_state (rp_running p), Ssleeping a) :: others p).
      * apply evolve_cons; [constructor|done].
      * apply evolve_perm. unfold ip. view. rewrite Hr, Hi. view. solve_Permutation.
    + unfold ip, InterruptedProcess.resume. destruct (NonEmpty.pop_front _). view. set_solver.
  - view. rewrite Hr, Hi. view. splits; [solve_Permutation|done..].
Qed.

Lemma kill_sleeping_evolve i s :
  evolve (queue e_interrupted i ++ queue e_sleeping s) (queue e_interrupted (kill_sleeping i s)).
Proof.
  unfold kill_sleeping. destruct s as [s|]; [|by rewrite app_nil_r].
  assert (evolve (queue e_sleeping (Some s))
    (queue e_interrupted (Some (NonEmpty.map s InterruptedProcess.interrupt)))) as He.
  { rewrite queue_map. apply evolve_fmap. constructor. }
  destruct i as [i|]; [|done]. rewrite queue_append. by apply evolve_app.
Qed.

(** No thread of the list sleeps. *)
Definition awake (l : list Entry) : Prop := forall ts a, (ts, Ssleeping a) ∉ l.

Lemma awake_app l k : awake l -> awake k -> awake (l ++ k).
Proof. intros Hl Hk ts a [H|H]%elem_of_app; [by eapply Hl|by eapply Hk]. Qed.

Lemma awake_nil : awake [].
Proof. intros ts a H. by apply elem_of_nil in H. Qed.

Lemma awake_fmap {T} (e : T → Entry) (l : list T) :
  (forall t a, (e t).2 <> Ssleeping a) -> awake (e <$> l).
Proof. intros He ts a (t & Ht & _)%list_elem_of_fmap. apply (He t a). by rewrite <- Ht. Qed.

Lemma awake_resume (p : InterruptedProcess) now :
  ip_sleeping p = None -> awake (pview (InterruptedProcess.resume p now)).
Proof.
  intros Hs. unfold InterruptedProcess.resume. destruct (NonEmpty.pop_front _). view. rewrite Hs.
  repeat apply awake_app; [|by apply awake_fmap|apply awake_nil|by apply awake_fmap].
  by apply (awake_fmap e_ready [_]).
Qed.

Lemma awake_interrupted (p : InterruptedProcess) : ip_sleeping p = None -> awake (pview p).
Proof.
  intros Hs. view. rewrite Hs. repeat apply awake_app; [by apply awake_fmap|apply awake_nil|].
  by apply awake_fmap.
Qed.

(** The zombies of a process that exits. *)
Lemma exit_zombies (p : RunningProcess) status :
  let zt := mkZombieThread status (run_state (rp_running p)) in
  let zq := match rp_ready p with
            | Some rdy => NonEmpty.append (NonEmpty.push_opt (rp_zombie p) zt)
                            (NonEmpty.map rdy Thread.terminate)
            | None => NonEmpty.push_opt (rp_zombie p) zt
            end in
  evolve (queue e_ready (rp_ready p) ++ e_running (rp_running p) :: queue e_zombie (rp_zombie p))
    (queue e_zombie (Some zq)) /\ e_zombie zt ∈ queue e_zombie (Some zq).
Proof.
  intros zt zq. split; unfold zq; destruct (rp_ready p) as [rdy|]; autorewrite with view;
    [| |set_solver..].
  - rewrite Permutation_app_comm. apply evolve_app; [|apply evolve_fmap; constructor].
    rewrite Permutation_app_comm. apply evolve_cons; [constructor|done].
  - rewrite (Permutation_app_comm _ [e_zombie zt]). apply evolve_cons; [constructor|done].
Qed.

(** [exit] of a process: the running thread becomes a zombie with the given
    status, nothing sleeps any more, and the first status that was given counts. *)
Lemma exit_view (p : RunningProcess) status now :
  match RunningProcess.exit p status now with
  | inl (q, ctx) =>
    evolve (pview p) (pview q) /\ (run_state (rp_running p), Szombie status) ∈ pview q /\
    awake (pview q) /\ pstate q = ProcessState.set_pending_exit_status status (pstate p) /\
    ctx = RunningProcess.get_tid p
  | inr (q, ctx) =>
    evolve (pview p) (pview q) /\ (run_state (rp_running p), Szombie status) ∈ pview q /\
    pstate q = ProcessState.with_pending None (pstate p) /\
    zp_status q = default status (pending_exit_status (pstate p)) /\
    ctx = RunningProcess.get_tid p
  end.
Proof.
  unfold RunningProcess.exit, Thread.exit.
  set (zq := match rp_ready p with Some _ => _ | None => _ end).
  destruct (exit_zombies p status) as [Hz Hin]. fold zq in Hz, Hin. clearbody zq.
  pose proof (kill_sleeping_evolve (rp_interrupted p) (rp_sleeping p)) as Hk.
  assert (evolve (pview p) (queue e_interrupted (kill_sleeping (rp_interrupted p) (rp_sleeping p))
            ++ queue e_zombie (Some zq))) as He.
  { etransitivity; [|apply evolve_app; [apply Hk|apply Hz]].
    apply evolve_perm. view. solve_Permutation. }
  destruct (kill_sleeping (rp_interrupted p) (rp_sleeping p)) as [it|].
  - set (ip := InterruptedProcess.from_sleeping _ _ _ _).
    destruct (resume_evolve ip now) as [Her Hs]. splits; [| | |by rewrite Hs|done].
    + by transitivity (pview ip).
    + unfold ip, InterruptedProcess.resume. destruct (NonEmpty.pop_front _). view.
      rewrite !elem_of_app. by do 3 right.
    + by apply awake_resume.
  - unfold ProcessState.take_pending_exit_status, ProcessState.set_pending_exit_status. view.
    splits; [done|done| | |done]; by destruct (pending_exit_status (rp_state p)) eqn:E;
      unfold ProcessState.with_pending; simpl; rewrite ?E.
Qed.

(** The threads, the process state and the context that [exit_thread] returns. *)
Definition exited_view (o : RunningProcess.Exited) : list Entry :=
  match o with
  | RunningProcess.ExitedRunnable _ q _ => pview q
  | RunningProcess.ExitedSleeping _ q _ => pview q
  | RunningProcess.ExitedZombie _ q _ => pview q
  end.
Definition exited_pid (o : RunningProcess.Exited) : ProcessIdentifier :=
  match o with
  | RunningProcess.ExitedRunnable _ q _ => ppid q
  | RunningProcess.ExitedSleeping _ q _ => ppid q
  | RunningProcess.ExitedZombie _ q _ => ppid q
  end.
Definition exited_refs (o : RunningProcess.Exited) : Condvar * Context :=
  match o with
  | RunningProcess.ExitedRunnable jc _ ctx => (jc, ctx)
  | RunningProcess.ExitedSleeping jc _ ctx => (jc, ctx)
  | RunningProcess.ExitedZombie jc _ ctx => (jc, ctx)
  end.

(** A detached thread that exits is handed back instead of queued only when the
    process lives on; a process that ends reports its first exit status. *)
Definition exited_zombie (p : RunningProcess) (status : ExitStatus) (o : RunningProcess.Exited)
    (d : option ZombieThread) : Prop :=
  match o with
  | RunningProcess.ExitedZombie _ q _ =>
    d = None /\ zp_status q = default status (pending_exit_status (rp_state p)) /\
    others p = queue e_zombie (rp_zombie p)
  | _ => True
  end.

Definition exit_thread_post (p : RunningProcess) (status : ExitStatus)
    (r : res Error (RunningProcess.Exited * option ZombieThread)) : Prop :=
  match r with
  | Ok (o, d) =>
    evolve (pview p) (exited_view o ++ (e_zombie <$> option_list d)) /\
    (run_state (rp_running p), Szombie status) ∈ exited_view o ++ (e_zombie <$> option_list d) /\
    exited_pid o = ppid p /\
    exited_refs o = (join_cond (run_state (rp_running p)), RunningProcess.get_tid p) /\
    exited_zombie p status o d
  | _ => False
  end.

Lemma exit_thread_view (p : RunningProcess) status now :
  exit_thread_post p status (RunningProcess.exit_thread p status now).
Proof.
  unfold RunningProcess.exit_thread, Thread.exit.
  set (zt := mkZombieThread status (run_state (rp_running p))).
  set (zd := if _ && _ then _ else _).
  assert (exists z d, zd = (z, d) /\
    queue e_zombie z ++ (e_zombie <$> option_list d) ≡ₚ e_zombie zt :: queue e_zombie (rp_zombie p) /\
    (RunningProcess.is_some (rp_ready p) || RunningProcess.is_some (rp_interrupted p) ||
     RunningProcess.is_some (rp_sleeping p) = false -> d = None /\ exists q, z = Some q))
    as (z & d & -> & Hz & Hd).
  { unfold zd. destruct (_ || _), (detached _); simpl; eexists _, _; (split; [reflexivity|]);
      autorewrite with view; (split; [solve_Permutation|naive_solver]). }
  assert (evolve (pview p) (e_zombie zt :: others p)) as He.
  { apply evolve_cons; [constructor|done]. }
  destruct (rp_ready p) as [rdy|] eqn:Er; [|destruct (rp_interrupted p) as [it|] eqn:Ei;
    [|destruct (rp_sleeping p) as [sl|] eqn:Es]].
  4: { destruct (Hd eq_refl) as [-> [q ->]]. simpl in Hz. rewrite app_nil_r in Hz. simpl.
       unfold exited_zombie. view. rewrite Er, Ei, Es, app_nil_r. autorewrite with view.
       splits; try done; rewrite Hz.
       - apply evolve_cons; [constructor|done].
       - set_solver. }
  - unfold exit_thread_post, exited_view. splits; try done; [|view; rewrite <- !app_assoc, Hz; set_solver].
    rewrite He. apply evolve_perm. view. rewrite <- !app_assoc, Hz, Er. solve_Permutation.
  - set (ip := InterruptedProcess.from_sleeping _ _ _ _).
    destruct (resume_evolve ip now) as [Her Hs].
    unfold exit_thread_post, exited_view. splits; try done.
    + rewrite He. etransitivity; [|apply evolve_app; [exact Her|reflexivity]].
      apply evolve_perm. unfold ip. view. rewrite <- !app_assoc, Hz, Er, Ei. solve_Permutation.
    + unfold ip, InterruptedProcess.resume. destruct (NonEmpty.pop_front _). view.
      rewrite <- !app_assoc, Hz, !elem_of_app, elem_of_cons. by do 3 right; left.
    + unfold exited_pid, ppid. by rewrite Hs.
  - unfold exit_thread_post, exited_view. splits; try done; [|view; rewrite <- !app_assoc, Hz; set_solver].
    rewrite He. apply evolve_perm. view. rewrite <- !app_assoc, Hz, Er, Ei, Es. solve_Permutation.
Qed.

(** The threads that sleep go on sleeping when another one exits. *)
Lemma exit_thread_sleepers (p : RunningProcess) status now o d ts a :
  RunningProcess.exit_thread p status now = Ok (o, d) ->
  (ts, Ssleeping a) ∈ pview p -> (ts, Ssleeping a) ∈ exited_view o.
Proof.
  intros He Hin. assert ((ts, Ssleeping a) ∈ queue e_sleeping (rp_sleeping p)) as Hq.
  { revert Hin. view. rewrite elem_of_cons, !elem_of_app.
    intros [[=]|[H|[H|[H|H]]]]; try done; by apply elem_of_queue in H as (t & [=] & _). }
  revert He. unfold RunningProcess.exit_thread. destruct (Thread.exit _ _) as [zt ctx].
  destruct (if _ && _ then _ else _) as [z d0].
  destruct (rp_ready p); [intros [= <- <-]; simpl; view; set_solver|].
  destruct (rp_interrupted p) as [it|].
  { intros [= <- <-]. simpl. unfold InterruptedProcess.resume. destruct (NonEmpty.pop_front _). view. set_solver. }
  destruct (rp_sleeping p); [intros [= <- <-]; simpl; view; set_solver|]. by apply elem_of_nil in Hq.
Qed.

(** ** Waking up *)

Definition no_sleeper (tid : ThreadIdentifier) (l : list Entry) : Prop :=
  forall ts a, (ts, Ssleeping a) ∈ l -> ts_id ts <> tid.

Lemma no_sleeper_awake tid l : awake l -> no_sleeper tid l.
Proof. intros Hl ts a H. by apply Hl in H. Qed.

Lemma no_sleeper_app tid l k : no_sleeper tid (l ++ k) <-> no_sleeper tid l /\ no_sleeper tid k.
Proof.
  unfold no_sleeper. setoid_rewrite elem_of_app. split.
  - intros H. split; eauto.
  - intros [Hl Hk] ts a [H|H]; eauto.
Qed.

(** [wakeup] of a process: the sleeping thread becomes ready, or there is none. *)
Definition wakeup_post {P Q} `{!ProcessLike P, !ProcessLike Q} (p : P) tid now (r : Q + P) : Prop :=
  match r with
  | inl q => exists ts a l, ts_id ts = tid /\ pview p ≡ₚ (ts, Ssleeping a) :: l /\
      pview q ≡ₚ (ts, Sready now) :: l /\ pstate q = pstate p
  | inr q => q = p /\ no_sleeper tid (pview p)
  end.

Lemma remove_sleeper sl tid :
  match NonEmpty.remove_if sl (fun t => Thread.sleeping_id t =? tid) with
  | inl (l, t) => ts_id (slp_state t) = tid /\
      queue e_sleeping (Some sl) ≡ₚ e_sleeping t :: (e_sleeping <$> l)
  | inr q => q = sl /\ no_sleeper tid (queue e_sleeping (Some sl))
  end.
Proof.
  pose proof (NonEmpty.remove_if_spec sl (fun t => Thread.sleeping_id t =? tid)) as H.
  destruct (NonEmpty.remove_if _ _) as [[l t]|q]; destruct H as [H1 H2].
  - split; [by apply Z.eqb_eq in H1|]. by rewrite queue_some, <- H2.
  - split; [done|]. intros ts a (t & [= -> ->] & Ht)%elem_of_queue.
    rewrite Forall_forall in H2. specialize (H2 t Ht). by apply Z.eqb_neq in H2.
Qed.

Lemma no_sleeper_running tid t : no_sleeper tid [e_running t].
Proof. intros ts a H%list_elem_of_singleton. done. Qed.

#[local] Ltac no_sleep :=
  rewrite ?no_sleeper_app; splits; try done; try apply no_sleeper_running;
  apply no_sleeper_awake; (apply awake_nil || by apply awake_fmap).

Lemma running_wakeup_view (p : RunningProcess) tid now :
  wakeup_post p tid now (RunningProcess.wakeup p tid now).
Proof.
  unfold RunningProcess.wakeup. destruct (rp_sleeping p) as [sl|] eqn:Es.
  - pose proof (remove_sleeper sl tid) as H. destruct (NonEmpty.remove_if _ _) as [[l t]|q].
    + destruct H as [Ht Hq]. exists (slp_state t), (alarm t), (e_running (rp_running p) ::
        queue e_ready (rp_ready p) ++ queue e_interrupted (rp_interrupted p) ++
        (e_sleeping <$> l) ++ queue e_zombie (rp_zombie p)).
      split; [exact Ht|]. view. rewrite Es, Hq. splits; [..|done]; solve_Permutation.
    + destruct H as [-> H]. split; [by destruct p; simpl in *; subst|]. view.
      rewrite Es. apply (no_sleeper_app _ [_]). no_sleep.
  - split; [done|]. view. rewrite Es. apply (no_sleeper_app _ [_]). no_sleep.
Qed.

Lemma runnable_wakeup_view (p : RunnableProcess) tid now :
  wakeup_post p tid now (RunnableProcess.wakeup p tid now).
Proof.
  unfold RunnableProcess.wakeup. destruct (rn_sleeping p) as [sl|] eqn:Es.
  - pose proof (remove_sleeper sl tid) as H. destruct (NonEmpty.remove_if _ _) as [[l t]|q].
    + destruct H as [Ht Hq]. exists (slp_state t), (alarm t),
        (queue e_ready (Some (rn_ready p)) ++ queue e_interrupted (rn_interrupted p) ++
         (e_sleeping <$> l) ++ queue e_zombie (rn_zombie p)).
      split; [exact Ht|]. view. rewrite Es, Hq. splits; [..|done]; solve_Permutation.
    + destruct H as [-> H]. split; [by destruct p; simpl in *; subst|]. view. rewrite Es. no_sleep.
  - split; [done|]. view. rewrite Es. no_sleep.
Qed.

Lemma sleeping_wakeup_view (p : SleepingProcess) tid now :
  wakeup_post p tid now (SleepingProcess.wakeup p tid now).
Proof.
  unfold SleepingProcess.wakeup.
  pose proof (remove_sleeper (sp_sleeping p) tid) as H.
  destruct (NonEmpty.remove_if _ _) as [[l t]|q]; destruct H as [Ht Hq].
  - exists (slp_state t), (alarm t), ((e_sleeping <$> l) ++ queue e_zombie (sp_zombie p)).
    split; [exact Ht|]. by view; rewrite Hq.
  - subst q. split; [by destruct p|]. view. no_sleep.
Qed.

Lemma wakeup_evolve {P Q} `{!ProcessLike P, !ProcessLike Q} (p : P) (q : Q) tid now :
  wakeup_post p tid now (inl q) -> evolve (pview p) (pview q).
Proof.
  intros (ts & a & l & _ & -> & -> & _). apply evolve_cons; [constructor|done].
Qed.

Lemma wakeup_post_pid {P Q} `{!ProcessLike P, !ProcessLike Q} (p : P) (q : Q) tid now :
  wakeup_post p tid now (inl q) -> ppid q = ppid p.
Proof. intros (ts & a & l & _ & _ & _ & Hs). unfold ppid. by rewrite Hs. Qed.

Lemma running_wakeup_keeps (p q : RunningProcess) tid now :
  RunningProcess.wakeup p tid now = inl q -> rp_running q = rp_running p.
Proof.
  unfold RunningProcess.wakeup. destruct (rp_sleeping p) as [sl|]; [|done].
  destruct (NonEmpty.remove_if _ _) as [[l t]|]; [|done]. by intros [= <-].
Qed.

(** ** Termination *)

Lemma runnable_terminate_view (p : RunnableProcess) :
  match RunnableProcess.terminate p with
  | inl q => evolve (pview p) (pview q) /\ pstate q = pstate p /\ ip_sleeping q = None
  | inr q => evolve (pview p) (pview q) /\ pstate q = ProcessState.with_pending None (pstate p) /\
      zp_status q = default (exit_status_of Interrupted) (pending_exit_status (pstate p))
  end.
Proof.
  unfold RunnableProcess.terminate.
  set (zq := match rn_zombie p with Some _ => _ | None => _ end).
  assert (evolve (queue e_ready (Some (rn_ready p)) ++ queue e_zombie (rn_zombie p))
            (queue e_zombie (Some zq))) as Hz.
  { unfold zq. destruct (rn_zombie p); autorewrite with view.
    - apply evolve_app; [|done]. rewrite queue_some. apply evolve_fmap. constructor.
    - rewrite app_nil_r, queue_some. apply evolve_fmap. constructor. }
  pose proof (kill_sleeping_evolve (rn_interrupted p) (rn_sleeping p)) as Hk.
  assert (evolve (pview p) (queue e_interrupted (kill_sleeping (rn_interrupted p) (rn_sleeping p))
            ++ queue e_zombie (Some zq))) as He.
  { etransitivity; [|apply evolve_app; [apply Hk|apply Hz]].
    apply evolve_perm. view. solve_Permutation. }
  by destruct (kill_sleeping _ _).
Qed.

Lemma sleeping_terminate_view (p : SleepingProcess) :
  evolve (pview p) (pview (SleepingProcess.terminate p)) /\
  pstate (SleepingProcess.terminate p) = pstate p /\
  ip_sleeping (SleepingProcess.terminate p) = None.
Proof.
  unfold SleepingProcess.terminate. destruct (NonEmpty.pop_front _) as [l x] eqn:Hp.
  splits; [|done..]. view. rewrite (queue_pop_front _ _ _ _ Hp). apply evolve_app; [|done].
  assert (forall q, queue e_interrupted (Some (foldl (fun q t =>
            NonEmpty.push_back q (Thread.interrupt t Killed)) q l)) =
          queue e_interrupted (Some q) ++ ((fun t => e_interrupted (Thread.interrupt t Killed)) <$> l))
    as ->.
  { clear Hp. induction l as [|y l IH]; intros q; simpl; [by rewrite app_nil_r|].
    by rewrite IH, queue_push_back, <- app_assoc. }
  apply evolve_cons; [constructor|]. apply evolve_fmap. constructor.
Qed.

(** ** Alarms *)

Definition due now (t : SleepingThread) : Prop := SleepingProcess.expired now t = true.
#[global] Instance due_dec now t : Decision (due now t).
Proof. unfold due. apply _. Defined.

Lemma split_alarms_spec now l s i :
  SleepingProcess.split_alarms now l s i =
    (s ++ filter (fun t => ~ due now t) l,
     i ++ ((fun t => Thread.interrupt t TimedOut) <$> filter (due now) l)).
Proof.
  revert s i. induction l as [|t l IH]; intros s i; simpl; [by rewrite !app_nil_r|].
  destruct (SleepingProcess.expired now t) eqn:E; rewrite IH.
  - rewrite (filter_cons_True (due now)), (filter_cons_False (fun t => ~ due now t)); [|by intros []|done].
    by rewrite fmap_cons, <- app_assoc.
  - rewrite (filter_cons_False (due now)), (filter_cons_True (fun t => ~ due now t));
      [by rewrite <- app_assoc|unfold due; by rewrite E..].
Qed.

(** [wakeup_alarm] interrupts exactly the threads whose alarm has expired. *)
Definition wakeup_alarm_post (p : SleepingProcess) now (r : InterruptedProcess + SleepingProcess)
    : Prop :=
  let l := NonEmpty.to_list (sp_sleeping p) in
  match r with
  | inl q =>
    pstate q = pstate p /\ ip_zombie q = sp_zombie p /\ Exists (due now) l /\
    NonEmpty.elems (ip_sleeping q) = filter (fun t => ~ due now t) l /\
    NonEmpty.to_list (ip_interrupted q) = (fun t => Thread.interrupt t TimedOut) <$> filter (due now) l
  | inr q =>
    pstate q = pstate p /\ sp_zombie q = sp_zombie p /\ Forall (fun t => ~ due now t) l /\
    NonEmpty.to_list (sp_sleeping q) = l
  end.

Lemma to_list_push_all {T} (q : NonEmpty T) l :
  NonEmpty.to_list (SleepingProcess.push_all q l) = NonEmpty.to_list q ++ l.
Proof.
  unfold SleepingProcess.push_all. revert q. induction l as [|x l IH]; intros q; simpl.
  - by rewrite app_nil_r.
  - by rewrite IH, NonEmpty.to_list_push_back, <- app_assoc.
Qed.

Lemma wakeup_alarm_view (p : SleepingProcess) now :
  wakeup_alarm_post p now (SleepingProcess.wakeup_alarm p now).
Proof.
  unfold SleepingProcess.wakeup_alarm, wakeup_alarm_post.
  destruct (NonEmpty.pop_front _) as [l x] eqn:Hp. apply NonEmpty.pop_front_spec in Hp as ->.
  rewrite split_alarms_spec. destruct (SleepingProcess.expired now x) eqn:E.
  - splits; [done|done|by left| |].
    + simpl. by rewrite NonEmpty.elems_from, filter_cons_False by (intros []; done).
    + simpl. rewrite to_list_push_all, filter_cons_True by done. done.
  - assert (~ due now x) as Hx by (unfold due; by rewrite E).
    rewrite (filter_cons_True (fun t => ~ due now t)), (filter_cons_False (due now)) by done.
    pose proof (filter_cases (due now) l) as Hc.
    destruct (filter (due now) l) as [|y k]; simpl.
    + destruct Hc as [Hall ->]. rewrite to_list_push_all. splits; [done|done|by constructor|done].
    + splits; [done|done|by right|by rewrite to_list_push_all|done].
Qed.

Lemma wakeup_alarm_evolve (p : SleepingProcess) (q : InterruptedProcess) now :
  wakeup_alarm_post p now (inl q) -> evolve (pview p) (pview q).
Proof.
  intros (_ & Hz & _ & Hs & Hi). view. rewrite Hz, (queue_some _ (ip_interrupted q)), Hi.
  unfold queue at 2 3 4. rewrite Hs, app_assoc. apply evolve_app; [|done].
  rewrite queue_some, <- list_fmap_compose. clear.
  induction (NonEmpty.to_list (sp_sleeping p)) as [|t l IH]; [done|].
  destruct (decide (due now t)) as [Ht|Ht].
  - rewrite (filter_cons_True (due now)), (filter_cons_False (fun t => ~ due now t)) by naive_solver.
    apply evolve_cons; [|done]. revert Ht. unfold due, SleepingProcess.expired, e_sleeping.
    destruct (alarm t); [|done]. constructor.
  - rewrite (filter_cons_False (due now)), (filter_cons_True (fun t => ~ due now t)) by done.
    rewrite !fmap_cons, <- Permutation_middle. by apply evolve_skip.
Qed.

(** ** Adding, joining and detaching threads *)

Lemma add_thread_view (p : RunningProcess) t :
  pview (RunningProcess.add_thread p t) ≡ₚ e_ready t :: pview p /\
  pstate (RunningProcess.add_thread p t) = pstate p.
Proof.
  split; [|done]. unfold RunningProcess.add_thread, RunningProcess.with_ready. view.
  solve_Permutation.
Qed.

(** Taking a zombie out of a running process. *)
Lemma remove_zombie (p : RunningProcess) zq tid : rp_zombie p = Some zq ->
  match NonEmpty.remove_if zq (fun t => Thread.zombie_id t =? tid) with
  | inl (l, z) => ts_id (zmb_state z) = tid /\
      pview p ≡ₚ e_zombie z :: pview (RunningProcess.with_zombie (NonEmpty.from l) p)
  | inr q => RunningProcess.with_zombie (Some q) p = p
  end.
Proof.
  intros Hp. pose proof (NonEmpty.remove_if_spec zq (fun t => Thread.zombie_id t =? tid)) as H.
  destruct (NonEmpty.remove_if _ _) as [[l z]|q]; destruct H as [H1 H2].
  - split; [by apply Z.eqb_eq in H1|]. unfold RunningProcess.with_zombie. view.
    rewrite Hp, (queue_some _ zq), <- H2. simpl. solve_Permutation.
  - subst q. unfold RunningProcess.with_zombie. rewrite <- Hp. by destruct p.
Qed.

Lemma try_join_view (p q : RunningProcess) tid j :
  RunningProcess.try_join_thread p tid = (j, q) ->
  match j with
  | RunningProcess.JoinZombie z => ts_id (zmb_state z) = tid /\ pview p ≡ₚ e_zombie z :: pview q
  | _ => q = p
  end /\ pstate q = pstate p.
Proof.
  unfold RunningProcess.try_join_thread. destruct (_ =? tid); [by intros [= <- <-]|].
  destruct (existsb _ _); [by intros [= <- <-]|].
  destruct (rp_zombie p) as [zq|] eqn:Ez.
  - pose proof (remove_zombie p zq tid Ez) as H.
    destruct (NonEmpty.remove_if _ _) as [[l z]|r]; [by intros [= <- <-]|rewrite H; clear H].
    repeat (destruct (find_in _ _ _); [unfold RunningProcess.join_alive; destruct (detached _);
      by intros [= <- <-]|]). by intros [= <- <-].
  - repeat (destruct (find_in _ _ _); [unfold RunningProcess.join_alive; destruct (detached _);
      by intros [= <- <-]|]). by intros [= <- <-].
Qed.

Lemma join_tid (p q : RunningProcess) tid j : RunningProcess.try_join_thread p tid = (j, q) ->
  RunningProcess.get_tid q = RunningProcess.get_tid p.
Proof.
  unfold RunningProcess.try_join_thread. destruct (_ =? tid); [by intros [= <- <-]|].
  destruct (existsb _ _); [by intros [= <- <-]|].
  destruct (rp_zombie p) as [zq|]; [destruct (NonEmpty.remove_if _ _) as [[l z]|r]; [by intros [= <- <-]|]|];
    repeat (destruct (find_in _ _ _); [by intros [= <- <-]|]); by intros [= <- <-].
Qed.

Lemma update_first_evolve {T} (e : T → Entry) c f l :
  (forall t, tstep (e t) (e (f t))) -> evolve (e <$> l) (e <$> update_first c f l).
Proof.
  intros Hf. induction l as [|x l IH]; [done|]. simpl. destruct (c x).
  - by apply evolve_cons.
  - by apply evolve_skip.
Qed.

Lemma update_in_evolve {T} (e : T → Entry) id tid f q :
  (forall t, tstep (e t) (e (f t))) -> evolve (queue e q) (queue e (update_in id tid f q)).
Proof.
  intros Hf. destruct q as [[h t]|]; [|done]. unfold queue, update_in. simpl.
  destruct (id h =? tid); [by apply evolve_cons|]. destruct t as [t|]; [|done].
  apply evolve_skip. by apply update_first_evolve.
Qed.

Lemma detach_view (p q : RunningProcess) tid r :
  RunningProcess.detach_thread p tid = (r, q) ->
  match r with
  | Ok None => evolve (pview p) (pview q)
  | Ok (Some z) => ts_id (zmb_state z) = tid /\ pview p ≡ₚ e_zombie z :: pview q
  | Err _ => q = p
  | Panic => False
  end /\ pstate q = pstate p.
Proof.
  unfold RunningProcess.detach_thread. destruct (_ =? tid).
  { destruct (detached _); intros [= <- <-]; [done|]. split; [|done].
    apply evolve_cons; [constructor|done]. }
  set (removed := match rp_zombie p with Some _ => _ | None => _ end).
  assert (match removed with
          | inl (z, q) => ts_id (zmb_state z) = tid /\ pview p ≡ₚ e_zombie z :: pview q /\
              pstate q = pstate p
          | inr q => q = p end) as Hr.
  { unfold removed. destruct (rp_zombie p) as [zq|] eqn:Ez; [|done].
    pose proof (remove_zombie p zq tid Ez) as H. 
    destruct (NonEmpty.remove_if _ _) as [[l z]|r']; [by destruct H|done]. }
  destruct removed as [[z p']|p'].
  { destruct Hr as (Hz & Hv & Hs). by intros [= <- <-]. }
  subst p'.
  destruct (find_in _ _ _); [|destruct (find_in _ _ _); [|destruct (find_in _ _ _)]];
    [destruct (detached _); intros [= <- <-]; (split; [|done]); [done|]..|by intros [= <- <-]];
    apply evolve_skip; view.
  - apply evolve_app; [apply update_in_evolve; constructor|done].
  - do 2 (apply evolve_app; [done|]). apply evolve_app; [apply update_in_evolve; constructor|done].
  - apply evolve_app; [done|]. apply evolve_app; [apply update_in_evolve; constructor|done].
Qed.

Lemma detach_tid (p q : RunningProcess) tid r : RunningProcess.detach_thread p tid = (r, q) ->
  RunningProcess.get_tid q = RunningProcess.get_tid p.
Proof.
  unfold RunningProcess.detach_thread. destruct (_ =? tid); [by destruct (detached _); intros [= <- <-]|].
  destruct (rp_zombie p) as [zq|]; [destruct (NonEmpty.remove_if _ _) as [[l z]|r']; [by intros [= <- <-]|]|];
    repeat (destruct (find_in _ _ _); [destruct (detached _); by intros [= <- <-]|]); by intros [= <- <-].
Qed.

End Operations.

(** ** Looking threads up *)

(** [find_thread] finds the threads of the process. *)
Class FindsThreads `{VM : VirtMem} (P : Type) `{!ProcessLike P} : Prop :=
  pfind_spec (p : P) tid : is_Some (pfind p tid) <-> tid ∈ ptids p.

Section Find.
Context {VM : VirtMem}.

Lemma find_in_spec {T} (e : T → Entry) (id : T → ThreadIdentifier) tid q :
  (forall t, e_tid (e t) = id t) ->
  match find_in id tid q with Some _ => tid ∈ e_tid <$> queue e q | None => tid ∉ e_tid <$> queue e q end.
Proof.
  intros He. unfold find_in, queue. rewrite <- list_fmap_compose.
  destruct (List.find _ _) as [t|] eqn:E.
  - apply List.find_some in E as [Hin Heq]. apply list_elem_of_fmap. exists t.
    split; [simpl; rewrite He; lia|by apply list_elem_of_In].
  - intros (t & Ht & Hin)%list_elem_of_fmap. apply list_elem_of_In in Hin.
    apply (List.find_none _ _ E) in Hin. simpl in *. rewrite He in Ht. lia.
Qed.

(** One queue after the other. *)
#[local] Ltac search e id :=
  lazymatch goal with
  | |- context [find_in id ?tid ?q] =>
    pose proof (find_in_spec e id tid q (fun _ => eq_refl)); destruct (find_in id tid q)
  end; [split; [intros _; set_solver|done]|].
#[local] Ltac search_last e id :=
  lazymatch goal with
  | |- context [find_in id ?tid ?q] =>
    pose proof (find_in_spec e id tid q (fun _ => eq_refl)); destruct (find_in id tid q)
  end; simpl; (split; [intros ?; set_solver|]); [done|intros; set_solver].

#[global] Instance sleeping_finds : FindsThreads SleepingProcess.
Proof.
  intros p tid. unfold ptids, pfind, sleeping_like, SleepingProcess.find_thread, pview.
  rewrite fmap_app, elem_of_app.
  search e_sleeping Thread.sleeping_id. search_last e_zombie Thread.zombie_id.
Qed.

#[global] Instance interrupted_finds : FindsThreads InterruptedProcess.
Proof.
  intros p tid. unfold ptids, pfind, interrupted_like, InterruptedProcess.find_thread, pview.
  rewrite !fmap_app, !elem_of_app. search e_interrupted Thread.interrupted_id.
  search e_sleeping Thread.sleeping_id. search_last e_zombie Thread.zombie_id.
Qed.

#[global] Instance zombie_finds : FindsThreads ZombieProcess.
Proof.
  intros p tid. unfold ptids, pfind, zombie_like, ZombieProcess.find_thread, pview.
  search_last e_zombie Thread.zombie_id.
Qed.

#[global] Instance runnable_finds : FindsThreads RunnableProcess.
Proof.
  intros p tid. unfold ptids, pfind, runnable_like, RunnableProcess.find_thread, pview.
  rewrite !fmap_app, !elem_of_app. search e_ready Thread.ready_id.
  search e_interrupted Thread.interrupted_id. search e_sleeping Thread.sleeping_id.
  search_last e_zombie Thread.zombie_id.
Qed.

#[global] Instance running_finds : FindsThreads RunningProcess.
Proof.
  intros p tid. unfold ptids, pfind, running_like, RunningProcess.find_thread, pview, others.
  rewrite fmap_cons, !fmap_app, elem_of_cons, !elem_of_app.
  destruct (Z.eqb_spec (RunningProcess.get_tid p) tid) as [<-|Hne]; [by split; [left|]|].
  assert (tid <> e_tid (e_running (rp_running p))) by done.
  search e_ready Thread.ready_id. search e_interrupted Thread.interrupted_id.
  search e_sleeping Thread.sleeping_id. search_last e_zombie Thread.zombie_id.
Qed.

End Find.
