(* ===== verification/Pending.v ===== *)
(** * Pending rendezvous requests

    The two global lists of [kernel/src/ipc/rendezvous.rs]: threads that sleep in a
    push or in a pull until their counterpart arrives.  The counter that a pull
    shares with the push that completes it ([Arc<AtomicUsize>]) is a numbered cell. *)

From S2P Require Import Prelude Mailbox.
#[local] Open Scope Z_scope.

Record PendingPush := mkPendingPush {
  push_pid : ProcessIdentifier;
  push_tid : ThreadIdentifier;
  push_dst_pid : ProcessIdentifier;
  push_dst_tid : ThreadIdentifier;
  push_buffer : Z;
  push_len : Z
}.

Record PendingPull := mkPendingPull {
  pull_pid : ProcessIdentifier;
  pull_tid : ThreadIdentifier;
  pull_src_pid : ProcessIdentifier;
  pull_src_tid : ThreadIdentifier;
  pull_buffer : Z;
  pull_len : Z;
  pull_cell : Z
}.

Record PendingLists := mkPendingLists {
  pushes : list PendingPush;
  pulls : list PendingPull;
  cells : gmap Z Z;
  next_cell : Z
}.

Module Pending.

Definition new : PendingLists := mkPendingLists [] [] ∅ 0.

(** The closures of the two [retain] calls: the entries that stay and the threads
    to wake up, in order. *)
Fixpoint retain_pushes (pid : ProcessIdentifier) (l : list PendingPush)
    (wake : list ThreadIdentifier) : list PendingPush * list ThreadIdentifier :=
  match l with
  | [] => ([], wake)
  | push :: l =>
    if push_pid push =? pid then retain_pushes pid l wake
    else if push_dst_pid push =? pid then retain_pushes pid l (wake ++ [push_tid push])
    else let '(l, wake) := retain_pushes pid l wake in (push :: l, wake)
  end.

Fixpoint retain_pulls (pid : ProcessIdentifier) (l : list PendingPull)
    (wake : list ThreadIdentifier) : list PendingPull * list ThreadIdentifier :=
  match l with
  | [] => ([], wake)
  | pull :: l =>
    if pull_pid pull =? pid then retain_pulls pid l wake
    else if pull_src_pid pull =? pid then retain_pulls pid l (wake ++ [pull_tid pull])
    else let '(l, wake) := retain_pulls pid l wake in (pull :: l, wake)
  end.

Definition cleanup_process (s : PendingLists) (pid : ProcessIdentifier)
    : list ThreadIdentifier * PendingLists :=
  let '(pending_pushes, wake) := retain_pushes pid (pushes s) [] in
  let '(pending_pulls, wake) := retain_pulls pid (pulls s) wake in
  (wake, mkPendingLists pending_pushes pending_pulls (cells s) (next_cell s)).

(** Whether a request involves a process. *)
Definition push_involves (pid : ProcessIdentifier) (r : PendingPush) : Prop :=
  push_pid r = pid \/ push_dst_pid r = pid.
Definition pull_involves (pid : ProcessIdentifier) (r : PendingPull) : Prop :=
  pull_pid r = pid \/ pull_src_pid r = pid.
#[global] Instance push_involves_dec pid r : Decision (push_involves pid r).
Proof. unfold push_involves. apply _. Defined.
#[global] Instance pull_involves_dec pid r : Decision (pull_involves pid r).
Proof. unfold pull_involves. apply _. Defined.

Lemma retain_pushes_spec pid l w :
  retain_pushes pid l w = (filter (fun r => ~ push_involves pid r) l,
    w ++ (push_tid <$> filter (fun r => push_pid r <> pid /\ push_dst_pid r = pid) l)).
Proof.
  revert w. induction l as [|r l IH]; intros w; simpl; [by rewrite app_nil_r|].
  rewrite !filter_cons. unfold push_involves in *.
  destruct (Z.eqb_spec (push_pid r) pid); [|destruct (Z.eqb_spec (push_dst_pid r) pid)];
    repeat case_decide; try (exfalso; lia); rewrite IH; try done.
  by rewrite fmap_cons, <- app_assoc.
Qed.

Lemma retain_pulls_spec pid l w :
  retain_pulls pid l w = (filter (fun r => ~ pull_involves pid r) l,
    w ++ (pull_tid <$> filter (fun r => pull_pid r <> pid /\ pull_src_pid r = pid) l)).
Proof.
  revert w. induction l as [|r l IH]; intros w; simpl; [by rewrite app_nil_r|].
  rewrite !filter_cons. unfold pull_involves in *.
  destruct (Z.eqb_spec (pull_pid r) pid); [|destruct (Z.eqb_spec (pull_src_pid r) pid)];
    repeat case_decide; try (exfalso; lia); rewrite IH; try done.
  by rewrite fmap_cons, <- app_assoc.
Qed.

(** The threads of other processes that wait for a process. *)
Definition counterparts (s : PendingLists) (pid : ProcessIdentifier) : list ThreadIdentifier :=
  (push_tid <$> filter (fun r => push_pid r <> pid /\ push_dst_pid r = pid) (pushes s)) ++
  (pull_tid <$> filter (fun r => pull_pid r <> pid /\ pull_src_pid r = pid) (pulls s)).

Lemma cleanup_process_spec s pid :
  cleanup_process s pid = (counterparts s pid,
    mkPendingLists (filter (fun r => ~ push_involves pid r) (pushes s))
      (filter (fun r => ~ pull_involves pid r) (pulls s)) (cells s) (next_cell s)).
Proof. unfold cleanup_process. by rewrite retain_pushes_spec, retain_pulls_spec. Qed.

End Pending.
