(* ===== verification/ProcManager.v ===== *)
(** * Process manager: state and scheduling

    [kernel/src/pm/process/manager/mod.rs]: the table of processes and the
    operations that move threads between queues.  [Kernel] is what these operations
    can change: the manager itself, the memory manager, the pending rendezvous, the
    queues of the condition variables, the global counters and how often the clock
    has been read.

    - [reading n] is the value of the [n]-th call of [clock::now()].
    - A context switch is the pair of context pointers that an operation returns.
    - Halting the machine ([platform::shutdown]) is a panic. *)

From S2P Require Import Prelude Error Config Addr NonEmpty Mailbox UserSpace VirtMem Str Thread Process Pending.
#[local] Open Scope Z_scope.

Class Clock := { reading : nat → SystemTime }.

Section ManagerTypes.
Context {VM : VirtMem}.

Record ProcessManager := mkProcessManager {
  interrupt_capable : bool;
  pm_interrupt_reason : option InterruptReason;
  next_pid : ProcessIdentifier;
  running : option RunningProcess;
  ready : list RunnableProcess;
  suspended : list SleepingProcess;
  interrupted : list InterruptedProcess;
  zombies : list ZombieProcess;
  tm : ThreadManager;
  live_count : Z;
  number_buffered_messages : Z;
  deferred_reap : list (ProcessIdentifier * ZombieThread)
}.

(** The atomic globals of [unsafe.rs] and [kstack.rs]. *)
Record Globals := mkGlobals {
  CURRENT_PID : ProcessIdentifier;
  CURRENT_TID : ThreadIdentifier;
  REMAINING_QUANTUM : Z;
  SERVING_EXCEPTION : Z;
  EXCP_STACK_GUARD : Z
}.

Record Kernel := mkKernel {
  pm : ProcessManager;
  mm : MM;
  pending : PendingLists;
  condvars : gmap Condvar (list ThreadIdentifier);
  next_condvar : Condvar;
  reads : nat;
  globals : Globals
}.

Inductive ProcessRef :=
| PRunning (p : RunningProcess)
| PRunnable (p : RunnableProcess)
| PSleeping (p : SleepingProcess)
| PInterrupted (p : InterruptedProcess)
| PZombie (p : ZombieProcess).

End ManagerTypes.

Record ThreadCreateArgs := mkThreadCreateArgs {
  user_fn : VirtualAddress;
  user_fn_arg0 : Z;
  user_fn_arg1 : Z;
  user_stack_base : VirtualAddress;
  user_stack_size : Z;
  tca_user_tda : option VirtualAddress
}.

(** Code of the kernel. *)
Definition K {VM : VirtMem} (A : Type) : Type := M Kernel Error A.

Module PM.
Section Definitions.
Context {CF : Config} {VM : VirtMem} {CK : Clock}.

(** ** Field updates *)

Definition with_reason o (p : ProcessManager) : ProcessManager :=
  mkProcessManager (interrupt_capable p) o (next_pid p) (running p) (ready p) (suspended p)
    (interrupted p) (zombies p) (tm p) (live_count p) (number_buffered_messages p) (deferred_reap p).
Definition with_next_pid n (p : ProcessManager) : ProcessManager :=
  mkProcessManager (interrupt_capable p) (pm_interrupt_reason p) n (running p) (ready p) (suspended p)
    (interrupted p) (zombies p) (tm p) (live_count p) (number_buffered_messages p) (deferred_reap p).
Definition with_running r (p : ProcessManager) : ProcessManager :=
  mkProcessManager (interrupt_capable p) (pm_interrupt_reason p) (next_pid p) r (ready p) (suspended p)
    (interrupted p) (zombies p) (tm p) (live_count p) (number_buffered_messages p) (deferred_reap p).
Definition with_ready l (p : ProcessManager) : ProcessManager :=
  mkProcessManager (interrupt_capable p) (pm_interrupt_reason p) (next_pid p) (running p) l (suspended p)
    (interrupted p) (zombies p) (tm p) (live_count p) (number_buffered_messages p) (deferred_reap p).
Definition with_suspended l (p : ProcessManager) : ProcessManager :=
  mkProcessManager (interrupt_capable p) (pm_interrupt_reason p) (next_pid p) (running p) (ready p) l
    (interrupted p) (zombies p) (tm p) (live_count p) (number_buffered_messages p) (deferred_reap p).
Definition with_interrupted l (p : ProcessManager) : ProcessManager :=
  mkProcessManager (interrupt_capable p) (pm_interrupt_reason p) (next_pid p) (running p) (ready p)
    (suspended p) l (zombies p) (tm p) (live_count p) (number_buffered_messages p) (deferred_reap p).
Definition with_zombies l (p : ProcessManager) : ProcessManager :=
  mkProcessManager (interrupt_capable p) (pm_interrupt_reason p) (next_pid p) (running p) (ready p)
    (suspended p) (interrupted p) l (tm p) (live_count p) (number_buffered_messages p) (deferred_reap p).
Definition with_tm t (p : ProcessManager) : ProcessManager :=
  mkProcessManager (interrupt_capable p) (pm_interrupt_reason p) (next_pid p) (running p) (ready p)
    (suspended p) (interrupted p) (zombies p) t (live_count p) (number_buffered_messages p) (deferred_reap p).
Definition with_live_count n (p : ProcessManager) : ProcessManager :=
  mkProcessManager (interrupt_capable p) (pm_interrupt_reason p) (next_pid p) (running p) (ready p)
    (suspended p) (interrupted p) (zombies p) (tm p) n (number_buffered_messages p) (deferred_reap p).
Definition with_messages n (p : ProcessManager) : ProcessManager :=
  mkProcessManager (interrupt_capable p) (pm_interrupt_reason p) (next_pid p) (running p) (ready p)
    (suspended p) (interrupted p) (zombies p) (tm p) (live_count p) n (deferred_reap p).
Definition with_deferred l (p : ProcessManager) : ProcessManager :=
  mkProcessManager (interrupt_capable p) (pm_interrupt_reason p) (next_pid p) (running p) (ready p)
    (suspended p) (interrupted p) (zombies p) (tm p) (live_count p) (number_buffered_messages p) l.

Definition with_pm p (s : Kernel) : Kernel :=
  mkKernel p (mm s) (pending s) (condvars s) (next_condvar s) (reads s) (globals s).
Definition with_mm m (s : Kernel) : Kernel :=
  mkKernel (pm s) m (pending s) (condvars s) (next_condvar s) (reads s) (globals s).
Definition with_pending l (s : Kernel) : Kernel :=
  mkKernel (pm s) (mm s) l (condvars s) (next_condvar s) (reads s) (globals s).
Definition with_condvars c (s : Kernel) : Kernel :=
  mkKernel (pm s) (mm s) (pending s) c (next_condvar s) (reads s) (globals s).
Definition with_globals g (s : Kernel) : Kernel :=
  mkKernel (pm s) (mm s) (pending s) (condvars s) (next_condvar s) (reads s) g.

Definition with_quantum q (g : Globals) : Globals :=
  mkGlobals (CURRENT_PID g) (CURRENT_TID g) q (SERVING_EXCEPTION g) (EXCP_STACK_GUARD g).
Definition with_guard t (g : Globals) : Globals :=
  mkGlobals (CURRENT_PID g) (CURRENT_TID g) (REMAINING_QUANTUM g) (SERVING_EXCEPTION g) t.

Definition upd (f : ProcessManager → ProcessManager) : K unit :=
  modify (fun s => with_pm (f (pm s)) s).
Definition gets {A} (f : ProcessManager → A) : K A := s ← get; mret (f (pm s)).

Definition on_mm {A} (m : M MM Error A) : K A := zoom mm with_mm m.

(** [clock::now()] and [Condvar::new()]. *)
Definition clock_now : K SystemTime := fun s =>
  (Ok (reading (reads s)),
   mkKernel (pm s) (mm s) (pending s) (condvars s) (next_condvar s) (S (reads s)) (globals s)).
Definition new_condvar : K Condvar := fun s =>
  (Ok (next_condvar s),
   mkKernel (pm s) (mm s) (pending s) (<[next_condvar s := []]> (condvars s)) (next_condvar s + 1)
     (reads s) (globals s)).
Definition set_globals (f : Globals → Globals) : K unit :=
  modify (fun s => with_globals (f (globals s)) s).

(** ** Access to the running process *)

Definition take_running : K RunningProcess :=
  r ← gets running;
  match r with
  | Some p => upd (with_running None);; mret p
  | None => panic
  end.

Definition get_running : K RunningProcess :=
  r ← gets running;
  match r with Some p => mret p | None => panic end.

Definition set_running (p : RunningProcess) : K unit := upd (with_running (Some p)).

Definition get_pid : K ProcessIdentifier := p ← get_running; mret (ps_pid (rp_state p)).
Definition get_tid : K ThreadIdentifier := p ← get_running; mret (RunningProcess.get_tid p).

Definition push_ready (p : RunnableProcess) : K unit := upd (fun s => with_ready (ready s ++ [p]) s).
Definition push_suspended (p : SleepingProcess) : K unit :=
  upd (fun s => with_suspended (suspended s ++ [p]) s).
Definition push_interrupted (p : InterruptedProcess) : K unit :=
  upd (fun s => with_interrupted (interrupted s ++ [p]) s).
Definition push_zombie (p : ZombieProcess) : K unit :=
  upd (fun s => with_zombies (zombies s ++ [p]) s).
Definition push_deferred (pid : ProcessIdentifier) (z : option ZombieThread) : K unit :=
  match z with
  | Some z => upd (fun s => with_deferred (deferred_reap s ++ [(pid, z)]) s)
  | None => mret tt
  end.

(** ** Stack guards *)

Definition check_running_stack_guard : K unit :=
  s ← get;
  if 0 <? SERVING_EXCEPTION (globals s) then mret tt
  else
    match running (pm s) with
    | Some r =>
      match ThreadState.check_guard_watermark (mm s) (run_state (rp_running r)) with
      | Ok _ => mret tt
      | _ => panic
      end
    | None => mret tt
    end.

(** Built with the feature [exception-stack-guard]. *)
Definition update_active_stack_guard : K unit :=
  s ← get;
  match running (pm s) with
  | Some r =>
    match kernel_stack (run_state (rp_running r)) with
    | Some ks => set_globals (with_guard (guard_threshold ks))
    | None => set_globals (with_guard 0)
    end
  | None => set_globals (with_guard 0)
  end.

(** ** Selecting what runs next *)

(** The loop of [take_earliest_ready]. *)
Fixpoint earliest (l : list RunnableProcess) (i : nat) (selected : nat * SystemTime)
    : nat * SystemTime :=
  match l with
  | [] => selected
  | p :: l =>
    let t := RunnableProcess.earliest_admission_time p in
    earliest l (S i) (if t <? selected.2 then (i, t) else selected)
  end.

Definition take_earliest_ready : K RunnableProcess :=
  l ← gets ready;
  match l with
  | [] => panic
  | front :: _ =>
    let '(i, _) := earliest l 0 (0%nat, RunnableProcess.earliest_admission_time front) in
    match NonEmpty.vec_remove i l with
    | Some (l, p) => upd (with_ready l);; mret p
    | None => panic
    end
  end.

(** The end of every operation that switches: select the next process, run it. *)
Definition dispatch : K (ProcessIdentifier * ThreadIdentifier * Context * option VirtualAddress) :=
  next_process ← take_earliest_ready;
  let '(next_process, reason, next_context, user_tda) := RunnableProcess.run next_process in
  let next_pid := ps_pid (rp_state next_process) in
  let next_tid := RunningProcess.get_tid next_process in
  upd (with_reason reason);;
  set_running next_process;;
  update_active_stack_guard;;
  mret (next_pid, next_tid, next_context, user_tda).

(** What an operation that switches returns: the next process and thread, the
    contexts to save to and to load from, and the thread data area. *)
Definition Switch : Type :=
  ProcessIdentifier * ThreadIdentifier * Context * Context * option VirtualAddress.

(** The loop of [check_alarm]. *)
Fixpoint alarm_loop (now : SystemTime) (l : list SleepingProcess) (sus : list SleepingProcess)
    (itr : list InterruptedProcess) : list SleepingProcess * list InterruptedProcess :=
  match l with
  | [] => (sus, itr)
  | p :: l =>
    match SleepingProcess.wakeup_alarm p now with
    | inl q => alarm_loop now l sus (itr ++ [q])
    | inr q => alarm_loop now l (sus ++ [q]) itr
    end
  end.

Definition check_alarm : K unit :=
  now ← clock_now;
  upd (fun s =>
    let '(sus, itr) := alarm_loop now (suspended s) [] (interrupted s) in
    with_suspended sus (with_interrupted itr s)).

(** The loop that resumes all interrupted processes. *)
Fixpoint resume_loop (l : list InterruptedProcess) : K unit :=
  match l with
  | [] => mret tt
  | p :: l =>
    upd (with_interrupted l);;
    now ← clock_now;
    push_ready (InterruptedProcess.resume p now);;
    resume_loop l
  end.

Definition schedule : K Switch :=
  check_running_stack_guard;;
  previous_process ← take_running;
  now ← clock_now;
  let '(previous_process, previous_context) := RunningProcess.schedule previous_process now in
  push_ready previous_process;;
  check_alarm;;
  itr ← gets interrupted;
  resume_loop itr;;
  '(next_pid, next_tid, next_context, user_tda) ← dispatch;
  mret (next_pid, next_tid, previous_context, next_context, user_tda).

(** ** Sleeping and waking up *)

(** The clock is read for the thread that [sleep] may resume. *)
Definition do_sleep (alarm : option SystemTime) : K Switch :=
  check_running_stack_guard;;
  running_process ← take_running;
  if ps_pid (rp_state running_process) =? KERNEL_PID then panic
  else
    now ← clock_now;
    previous_context ←
      match RunningProcess.sleep running_process alarm now with
      | inl (runnable_process, ctx) => push_ready runnable_process;; mret ctx
      | inr (suspended_process, ctx) => push_suspended suspended_process;; mret ctx
      end;
    '(next_pid, next_tid, next_context, user_tda) ← dispatch;
    mret (next_pid, next_tid, previous_context, next_context, user_tda).

(** The two searches of [try_wakeup].  [None]: no process of the list has the
    thread.  [Some]: the list without the process and the process made runnable, or
    the list as it was. *)
Fixpoint wakeup_suspended (tid : ThreadIdentifier) (now : SystemTime) (l : list SleepingProcess)
    : option (list SleepingProcess * option RunnableProcess) :=
  match l with
  | [] => None
  | p :: l =>
    match SleepingProcess.find_thread p tid with
    | Some _ =>
      match SleepingProcess.wakeup p tid now with
      | inl q => Some (l, Some q)
      | inr q => Some (q :: l, None)
      end
    | None =>
      match wakeup_suspended tid now l with
      | Some (l, r) => Some (p :: l, r)
      | None => None
      end
    end
  end.

Fixpoint wakeup_ready (tid : ThreadIdentifier) (now : SystemTime) (l : list RunnableProcess)
    : option (list RunnableProcess * option RunnableProcess) :=
  match l with
  | [] => None
  | p :: l =>
    match RunnableProcess.find_thread p tid with
    | Some _ =>
      match RunnableProcess.wakeup p tid now with
      | inl q => Some (l, Some q)
      | inr q => Some (q :: l, None)
      end
    | None =>
      match wakeup_ready tid now l with
      | Some (l, r) => Some (p :: l, r)
      | None => None
      end
    end
  end.

Definition try_wakeup (tid : ThreadIdentifier) : K (option RunnableProcess) :=
  now ← clock_now;
  sus ← gets suspended;
  match wakeup_suspended tid now sus with
  | Some (sus, r) => upd (with_suspended sus);; mret r
  | None =>
    rdy ← gets ready;
    match wakeup_ready tid now rdy with
    | Some (rdy, r) => upd (with_ready rdy);; mret r
    | None => mret None
    end
  end.

Definition thread_not_found : Error := mkError NoSuchEntry "thread not found".

Definition do_wakeup (tid : ThreadIdentifier) : K unit :=
  running_process ← get_running;
  match RunningProcess.find_thread running_process tid with
  | Some _ =>
    running_process ← take_running;
    now ← clock_now;
    match RunningProcess.wakeup running_process tid now with
    | inl running_process => set_running running_process
    | inr running_process => set_running running_process;; fail thread_not_found
    end
  | None =>
    r ← try_wakeup tid;
    match r with
    | Some runnable_process => push_ready runnable_process
    | None => fail thread_not_found
    end
  end.

(** ** Exiting *)

(** Failures to wake a thread up are logged only. *)
Fixpoint wake_all (tids : list ThreadIdentifier) : K unit :=
  match tids with
  | [] => mret tt
  | tid :: tids => catch (do_wakeup tid) (fun _ => mret tt);; wake_all tids
  end.

Definition cleanup_rendezvous (pid : ProcessIdentifier) : K unit :=
  s ← get;
  let '(orphaned_tids, lists) := Pending.cleanup_process (pending s) pid in
  put (with_pending lists s);;
  wake_all orphaned_tids.

Definition do_exit (status : ExitStatus) : K Switch :=
  check_running_stack_guard;;
  running_process ← take_running;
  if ps_pid (rp_state running_process) =? KERNEL_PID then panic
  else
    cleanup_rendezvous (ps_pid (rp_state running_process));;
    now ← clock_now;
    previous_context ←
      match RunningProcess.exit running_process status now with
      | inl (runnable_process, ctx) => push_ready runnable_process;; mret ctx
      | inr (zombie_process, ctx) => push_zombie zombie_process;; mret ctx
      end;
    '(next_pid, next_tid, next_context, user_tda) ← dispatch;
    mret (next_pid, next_tid, previous_context, next_context, user_tda).

Definition do_exit_thread (status : ExitStatus)
    : K (ProcessIdentifier * ThreadIdentifier * Condvar * Context * Context * option VirtualAddress) :=
  check_running_stack_guard;;
  running_process ← take_running;
  if ps_pid (rp_state running_process) =? KERNEL_PID then panic
  else
    now ← clock_now;
    '(exited, deferred_zombie) ← lift (RunningProcess.exit_thread running_process status now);
    '(jc, previous_context) ←
      match exited with
      | RunningProcess.ExitedRunnable jc p ctx =>
        push_ready p;; push_deferred (ps_pid (rn_state p)) deferred_zombie;; mret (jc, ctx)
      | RunningProcess.ExitedSleeping jc p ctx =>
        push_suspended p;; push_deferred (ps_pid (sp_state p)) deferred_zombie;; mret (jc, ctx)
      | RunningProcess.ExitedZombie jc p ctx =>
        match deferred_zombie with
        | None => push_zombie p;; mret (jc, ctx)
        | Some _ => panic
        end
      end;
    '(next_pid, next_tid, next_context, user_tda) ← dispatch;
    mret (next_pid, next_tid, jc, previous_context, next_context, user_tda).

Definition terminate (pid : ProcessIdentifier) : K unit :=
  if pid =? KERNEL_PID then fail (mkError InvalidArgument "cannot terminate kernel process")
  else
    r ← gets running;
    if from_option (fun p => ps_pid (rp_state p) =? pid) false r
    then fail (mkError InvalidArgument "cannot terminate running process")
    else
      cleanup_rendezvous pid;;
      rdy ← gets ready;
      match NonEmpty.position (fun p => ps_pid (rn_state p) =? pid) rdy with
      | Some i =>
        match NonEmpty.vec_remove i rdy with
        | Some (rdy, process) =>
          upd (with_ready rdy);;
          match RunnableProcess.terminate process with
          | inl interrupted_process =>
            now ← clock_now;
            push_ready (InterruptedProcess.resume interrupted_process now)
          | inr zombie_process => push_zombie zombie_process
          end
        | None => panic
        end
      | None =>
        sus ← gets suspended;
        match NonEmpty.position (fun p => ps_pid (sp_state p) =? pid) sus with
        | Some i =>
          match NonEmpty.vec_remove i sus with
          | Some (sus, process) =>
            upd (with_suspended sus);;
            push_interrupted (SleepingProcess.terminate process)
          | None => panic
          end
        | None => fail (mkError NoSuchProcess "process not found")
        end
      end.

Definition take_interrupt_reason : K (option InterruptReason) :=
  r ← gets pm_interrupt_reason; upd (with_reason None);; mret r.

(** ** Looking processes up *)

Definition process_not_found : Error := mkError NoSuchProcess "process not found".

Definition find_process (pid : ProcessIdentifier) : K ProcessRef :=
  r ← get_running;
  if ps_pid (rp_state r) =? pid then mret (PRunning r)
  else
    s ← gets id;
    match List.find (fun p => ps_pid (rn_state p) =? pid) (ready s) with
    | Some p => mret (PRunnable p)
    | None =>
      match List.find (fun p => ps_pid (sp_state p) =? pid) (suspended s) with
      | Some p => mret (PSleeping p)
      | None =>
        match List.find (fun p => ps_pid (ip_state p) =? pid) (interrupted s) with
        | Some p => mret (PInterrupted p)
        | None =>
          match List.find (fun p => ps_pid (zp_state p) =? pid) (zombies s) with
          | Some p => mret (PZombie p)
          | None => fail process_not_found
          end
        end
      end
    end.

Definition find_process_by_tid (tid : ThreadIdentifier) : K ProcessRef :=
  r ← get_running;
  if RunningProcess.is_some (RunningProcess.find_thread r tid) then mret (PRunning r)
  else
    s ← gets id;
    match List.find (fun p => RunningProcess.is_some (RunnableProcess.find_thread p tid)) (ready s) with
    | Some p => mret (PRunnable p)
    | None =>
      match List.find (fun p => RunningProcess.is_some (SleepingProcess.find_thread p tid))
              (suspended s) with
      | Some p => mret (PSleeping p)
      | None =>
        match List.find (fun p => RunningProcess.is_some (InterruptedProcess.find_thread p tid))
                (interrupted s) with
        | Some p => mret (PInterrupted p)
        | None =>
          match List.find (fun p => RunningProcess.is_some (ZombieProcess.find_thread p tid))
                  (zombies s) with
          | Some p => mret (PZombie p)
          | None => fail thread_not_found
          end
        end
      end
    end.

Definition ref_state (r : ProcessRef) : ProcessState :=
  match r with
  | PRunning p => rp_state p
  | PRunnable p => rn_state p
  | PSleeping p => sp_state p
  | PInterrupted p => ip_state p
  | PZombie p => zp_state p
  end.

(** [state_mut()] through the reference that a search returns: the process is
    written back to the list it was found in. *)
Definition put_state (r : ProcessRef) (st : ProcessState) : K unit :=
  let pid := ps_pid (ref_state r) in
  match r with
  | PRunning p => set_running (RunningProcess.with_state st p)
  | PRunnable _ => upd (fun s => with_ready (update_first (fun p => ps_pid (rn_state p) =? pid)
      (fun p => mkRunnableProcess st (rn_ready p) (rn_interrupted p) (rn_sleeping p) (rn_zombie p))
      (ready s)) s)
  | PSleeping _ => upd (fun s => with_suspended (update_first (fun p => ps_pid (sp_state p) =? pid)
      (fun p => mkSleepingProcess st (sp_sleeping p) (sp_zombie p)) (suspended s)) s)
  | PInterrupted _ => upd (fun s => with_interrupted (update_first (fun p => ps_pid (ip_state p) =? pid)
      (fun p => mkInterruptedProcess st (ip_sleeping p) (ip_interrupted p) (ip_zombie p))
      (interrupted s)) s)
  | PZombie _ => upd (fun s => with_zombies (update_first (fun p => ps_pid (zp_state p) =? pid)
      (fun p => mkZombieProcess (zp_zombie p) st (zp_status p)) (zombies s)) s)
  end.

Definition capctl (pid : ProcessIdentifier) (capability : Capability) (set : bool) : K unit :=
  process ← find_process pid;
  let st := ref_state process in
  if set then
    if ProcessState.has_capability capability st
    then fail (mkError ResourceBusy "capability already set")
    else put_state process (ProcessState.set_capability capability st)
  else
    if negb (ProcessState.has_capability capability st)
    then fail (mkError NoSuchEntry "capability not set")
    else put_state process (ProcessState.clear_capability capability st).

Definition has_capability (pid : ProcessIdentifier) (capability : Capability) : K bool :=
  process ← find_process pid; mret (ProcessState.has_capability capability (ref_state process)).

(** ** Messages *)

Definition note_message_posted : K unit :=
  n ← gets number_buffered_messages;
  match checked_add n 1 with
  | Some n => upd (with_messages n)
  | None => fail (mkError ValueOverflow "number of buffered messages overflowed")
  end.

Definition note_message_received : K unit :=
  n ← gets number_buffered_messages;
  match checked_sub n 1 with
  | Some n => upd (with_messages n)
  | None => fail (mkError InvalidArgument "number of buffered messages underflowed")
  end.

Definition post_message (receiver : Z) (message : Message) : K unit :=
  process ← match as_id receiver with
            | inl pid => find_process pid
            | inr tid => find_process_by_tid tid
            end;
  put_state process (ProcessState.post_message message (ref_state process));;
  note_message_posted.

Definition try_recv (tid : ThreadIdentifier) : K (option Message) :=
  r ← get_running;
  let '(m, st) := ProcessState.receive_message tid (rp_state r) in
  set_running (RunningProcess.with_state st r);;
  match m with
  | Some message => note_message_received;; mret (Some message)
  | None => mret None
  end.

Definition add_event (ev : Event) : K unit :=
  r ← get_running;
  set_running (RunningProcess.with_state (ProcessState.add_event ev (rp_state r)) r).

Definition remove_event (ev : Event) : K unit :=
  r ← get_running;
  set_running (RunningProcess.with_state (ProcessState.remove_event ev (rp_state r)) r).

(** ** Joining, detaching and reaping threads *)

Definition on_tm {A} (m : M ThreadManager Error A) : K A :=
  zoom (fun s => tm (pm s)) (fun t s => with_pm (with_tm t (pm s)) s) m.

Definition try_join_thread (pid : ProcessIdentifier) (tid : ThreadIdentifier)
    : K RunningProcess.Join :=
  s ← get;
  match (find_process pid s).1 with
  | Ok (PRunning process) =>
    let '(j, process) := RunningProcess.try_join_thread process tid in
    set_running process;; mret j
  | Ok (PRunnable _) =>
    mret (RunningProcess.JoinError (mkError OperationNotPermitted "process is runnable"))
  | Ok (PSleeping _) =>
    mret (RunningProcess.JoinError (mkError OperationNotPermitted "process is sleeping"))
  | Ok (PInterrupted _) =>
    mret (RunningProcess.JoinError (mkError OperationNotPermitted "process is interrupted"))
  | Ok (PZombie _) =>
    mret (RunningProcess.JoinError (mkError OperationNotPermitted "process is a zombie"))
  | Err e => mret (RunningProcess.JoinError e)
  | Panic => panic
  end.

Definition do_detach_thread (pid : ProcessIdentifier) (tid : ThreadIdentifier)
    : K (option ZombieThread) :=
  r ← find_process pid;
  match r with
  | PRunning process =>
    let '(r, process) := RunningProcess.detach_thread process tid in
    set_running process;; lift r
  | _ => fail (mkError OperationNotPermitted "process is not running")
  end.

(** The addresses [(base..top).step_by(PAGE_SIZE)]. *)
Definition stack_pages (base top : Z) : list Z :=
  (fun i => base + i * PAGE_SIZE) <$> seqZ 0 ((top - base + PAGE_SIZE - 1) / PAGE_SIZE).

(** Unmapping the pages of a user stack: failures are logged only. *)
Fixpoint unmap_pages (l : list Z) : M (Vmem * MM) Error unit :=
  match l with
  | [] => mret tt
  | raw_addr :: l =>
    match PageAligned_from_address (mkVirtualAddress raw_addr) with
    | Ok vaddr => catch (try_unmap_upage vaddr;; mret tt) (fun _ => mret tt)
    | _ => panic
    end;;
    unmap_pages l
  end.

Definition unmap_stack (u : UserStack) : M (Vmem * MM) Error unit :=
  top ← lift (us_top u);
  unmap_pages (stack_pages (into_raw_value (us_base u)) (into_raw_value top)).

(** Run code on the address space of a process and the memory manager. *)
Definition on_vmem {A} (st : ProcessState) (m : M (Vmem * MM) Error A) : K (A * ProcessState) :=
  s ← get;
  match m (vmem st, mm s) with
  | (Ok a, (v, mem)) => put (with_mm mem s);; mret (a, ProcessState.with_vmem v st)
  | (Err e, (v, mem)) => put (with_mm mem s);; fail e
  | (Panic, _) => panic
  end.

(** The kernel stack that [harvest] returns is dropped. *)
Definition drop_opt_kstack (k : option KernelStack) : K unit :=
  match k with
  | Some ks => modify (fun s => with_mm (drop_kstack ks (mm s)) s)
  | None => mret tt
  end.

Definition pop_zombie_process : K (option (list ZombieThread * ProcessState * ExitStatus)) :=
  l ← gets zombies;
  match l with
  | zombie :: l =>
    upd (with_zombies l);;
    let '(zombie_threads, state, status) := ZombieProcess.bury zombie in
    let '(more_zombie_threads, zombie_thread) := NonEmpty.pop_front zombie_threads in
    n ← gets live_count;
    if n <=? 1 then panic
    else
      upd (with_live_count (n - 1));;
      mret (Some (zombie_thread :: more_zombie_threads, state, status))
  | [] => mret None
  end.

(** The loop of [harvest_zombies]; the state of the process is local to it. *)
Fixpoint harvest_loop (l : list ZombieThread) (state : ProcessState) : K ProcessState :=
  match l with
  | [] => mret state
  | zombie_thread :: l =>
    state ←
      match Thread.harvest zombie_thread with
      | (Some ks, Some user_stack) =>
        '(_, state) ← on_vmem state (unmap_stack user_stack);
        drop_opt_kstack (Some ks);; mret state
      | (ks, _) => drop_opt_kstack ks;; mret state
      end;
    on_tm ThreadManager.on_thread_reaped;;
    harvest_loop l state
  end.

(** The address space goes with the process state at the end. *)
Definition harvest_zombies : K (option (ProcessIdentifier * ExitStatus)) :=
  z ← pop_zombie_process;
  match z with
  | Some (zombie_threads, state, status) =>
    state ← harvest_loop zombie_threads state;
    modify (fun s => with_mm (drop_vmem (vmem state) (mm s)) s);;
    mret (Some (ps_pid state, status))
  | None => mret None
  end.

(** A thread whose process cannot be found is given up without being counted. *)
Definition harvest_zombie_thread (pid : ProcessIdentifier) (zombie_thread : ZombieThread) : K unit :=
  match Thread.harvest zombie_thread with
  | (Some ks, Some user_stack) =>
    lift (us_top user_stack);;
    s ← get;
    match (find_process pid s).1 with
    | Ok process =>
      '(_, state) ← on_vmem (ref_state process) (unmap_stack user_stack);
      put_state process state;;
      drop_opt_kstack (Some ks);;
      on_tm ThreadManager.on_thread_reaped
    | Err _ => drop_opt_kstack (Some ks)
    | Panic => panic
    end
  | (ks, _) =>
    drop_opt_kstack ks;;
    on_tm ThreadManager.on_thread_reaped
  end.

Fixpoint reap_loop (l : list (ProcessIdentifier * ZombieThread)) : K unit :=
  match l with
  | [] => mret tt
  | (pid, zombie) :: l => harvest_zombie_thread pid zombie;; reap_loop l
  end.

Definition reap_deferred : K unit :=
  deferred ← gets deferred_reap;
  upd (with_deferred []);;
  reap_loop deferred.

(** ** Creating threads and processes *)

(** The contents of the forged context are machine state and not modelled; the
    assertions on the arguments and the allocations are. *)
Definition forge_user_context (args : ThreadCreateArgs) : M (Vmem * MM) Error KernelStack :=
  if is_user_region (user_stack_base args) (user_stack_size args) && is_user_addr (user_fn args) then
    ks ← zoom snd (fun m v => (v.1, m)) kstack_new;
    v ← get;
    match pgdir_physical_address v.1 with
    | Ok _ => mret ks
    | Err e => modify (fun v => (v.1, drop_kstack ks v.2));; fail e
    | Panic => panic
    end
  else panic.

(** [ThreadManager::create_thread]: the time of admission and the condition
    variable are taken when the thread is created. *)
Definition tm_create_thread (tid : ThreadIdentifier) (ks : option KernelStack)
    (us : option UserStack) (tda : option VirtualAddress) : K ReadyThread :=
  jc ← new_condvar;
  now ← clock_now;
  mret (Thread.ready_new tid ks us tda jc now).

Definition create_thread (pid : ProcessIdentifier) (args : ThreadCreateArgs) : K ThreadIdentifier :=
  r ← get_running;
  if is_user_addr (user_fn args) && (ps_pid (rp_state r) =? pid) then
    s ← gets id;
    '(tid, next_tid) ← lift (ThreadManager.try_next_tid (tm s));
    '(ks, st) ← on_vmem (rp_state r) (forge_user_context args);
    set_running (RunningProcess.with_state st r);;
    ready_thread ← tm_create_thread tid (Some ks) None (tca_user_tda args);
    on_tm (ThreadManager.commit_next_tid next_tid);;
    r ← get_running;
    set_running (RunningProcess.add_thread r ready_thread);;
    mret (Thread.ready_id ready_thread)
  else panic.

Definition try_next_pid (s : ProcessManager) : res Error (ProcessIdentifier * ProcessIdentifier) :=
  match i32_checked_add (next_pid s) 1 with
  | Some val => Ok (next_pid s, val)
  | None => Err (mkError ValueOverflow "process identifier overflow")
  end.

Definition write_nul_terminated_to_user (dest : VirtualAddress) (s : str) : M (Vmem * MM) Error unit :=
  (if Str.len s =? 0 then mret tt else copy_to_user_unaligned dest (Str.as_bytes s));;
  nul_vaddr ← lift (usize_add (va_raw dest) (Str.len s));
  copy_to_user_unaligned (mkVirtualAddress nul_vaddr) [0].

(** The part of [create_process] that fills the new address space: the image, the
    page of the command line, the page of the environment, the kernel stack and the
    first pages of the user stack. *)
Definition build_image (elf : Elf32Fhdr) (args env : str) : M (Vmem * MM) Error (KernelStack * UserStack) :=
  '(entry, args_vaddr) ← load_elf elf;
  if PAGE_SIZE <? Str.len args + 1 then
    fail (mkError InvalidArgument "command line is too long")
  else
    alloc_upages args_vaddr RDWR true 1;;
    write_nul_terminated_to_user (pg_inner args_vaddr) args;;
    if PAGE_SIZE <? Str.len env + 1 then
      fail (mkError InvalidArgument "environment variables are too long")
    else
      raw ← lift (usize_add (into_raw_value args_vaddr) PAGE_SIZE);
      envp_vaddr ← lift (PageAligned_from_address (mkVirtualAddress raw));
      alloc_upages envp_vaddr RDWR true 1;;
      write_nul_terminated_to_user (pg_inner envp_vaddr) env;;
      base ← lift (PageAligned_from_address (mkVirtualAddress USER_STACK_TOP_RAW));
      let user_stack := mkUserStack base in
      let args := mkThreadCreateArgs entry (into_raw_value args_vaddr) (into_raw_value envp_vaddr)
                    (pg_inner (us_base user_stack)) USER_STACK_SIZE None in
      ks ← forge_user_context args;
      catch
        (top ← lift (us_top user_stack);
         low ← lift (usize_sub (into_raw_value top) USER_STACK_MIN_SIZE);
         initial_stack_base ← lift (PageAligned_from_address (mkVirtualAddress low));
         alloc_upages initial_stack_base RDWR true (USER_STACK_MIN_SIZE / PAGE_SIZE))
        (fun e => modify (fun v => (v.1, drop_kstack ks v.2));; fail e);;
      mret (ks, user_stack).

(** Code on an address space that is dropped when the code fails. *)
Definition with_new_vmem {A} (v : Vmem) (m : M (Vmem * MM) Error A) : K (A * Vmem) :=
  s ← get;
  match m (v, mm s) with
  | (Ok a, (v, mem)) => put (with_mm mem s);; mret (a, v)
  | (Err e, (v, mem)) => put (with_mm (drop_vmem v mem) s);; fail e
  | (Panic, _) => panic
  end.

(** The part of process creation that cannot fail. *)
Definition admit_process (pid nxt_pid : ProcessIdentifier) (next_tid : ThreadIdentifier)
    (thread : ReadyThread) (v : Vmem) : K unit :=
  upd (with_next_pid nxt_pid);;
  on_tm (ThreadManager.commit_next_tid next_tid);;
  n ← gets live_count;
  n ← lift (usize_add n 1);
  upd (with_live_count n);;
  push_ready (RunnableProcess.new pid thread v).

Definition create_process (elf : Elf32Fhdr) (args env : str) : K ProcessIdentifier :=
  s ← gets id;
  if MAX_PROCESSES <=? live_count s then
    fail (mkError OutOfMemory "maximum number of processes reached")
  else
    '(pid, nxt_pid) ← lift (try_next_pid s);
    '(tid, next_tid) ← lift (ThreadManager.try_next_tid (tm s));
    let args := Str.trim args in
    if Str.contains_nul args then
      fail (mkError InvalidArgument "command line contains interior null byte")
    else
      let env := Str.trim env in
      if Str.contains_nul env then
        fail (mkError InvalidArgument "environment string contains interior null byte")
      else
        r ← get_running;
        v ← on_mm (new_vmem (vmem (rp_state r)));
        '(ks, us, v) ← with_new_vmem v (build_image elf args env);
        thread ← tm_create_thread tid (Some ks) (Some us) None;
        admit_process pid nxt_pid next_tid thread v;;
        mret pid.

(** [link_user_pages] changes the address spaces of the parent and of the child. *)
Definition link_pages (v : Vmem) : K Vmem :=
  r ← get_running;
  s ← get;
  match link_user_pages (vmem (rp_state r), v, mm s) with
  | (Ok _, (pv, v, mem)) =>
    put (with_mm mem s);;
    set_running (RunningProcess.with_state (ProcessState.with_vmem pv (rp_state r)) r);; mret v
  | (Err e, (pv, v, mem)) =>
    put (with_mm (drop_vmem v mem) s);;
    set_running (RunningProcess.with_state (ProcessState.with_vmem pv (rp_state r)) r);; fail e
  | (Panic, _) => panic
  end.

Definition duplicate_process (pid : ProcessIdentifier) (args : ThreadCreateArgs) : K ProcessIdentifier :=
  r ← get_running;
  if negb (ps_pid (rp_state r) =? pid) then panic
  else if negb (is_user_addr (user_fn args)) then
    fail (mkError InvalidArgument "user function does not lie within the user address space")
  else if negb (is_user_region (user_stack_base args) (user_stack_size args)) then
    fail (mkError InvalidArgument "user stack does not lie within the user address space")
  else if from_option (fun tda => negb (is_user_addr tda)) false (tca_user_tda args) then
    fail (mkError InvalidArgument
            "user-space thread data area does not lie within the user address space")
  else if ProcessState.has_special_resources (rp_state r) then
    fail (mkError OperationNotPermitted "caller owns special resources (mmio/pmio/events/mailbox)")
  else
    s ← gets id;
    if MAX_PROCESSES <=? live_count s then
      fail (mkError OutOfMemory "maximum number of processes reached")
    else
      '(child_pid, nxt_pid) ← lift (try_next_pid s);
      '(child_tid, next_tid) ← lift (ThreadManager.try_next_tid (tm s));
      v ← on_mm (new_vmem (vmem (rp_state r)));
      v ← link_pages v;
      '(ks, v) ← with_new_vmem v (forge_user_context args);
      thread ← tm_create_thread child_tid (Some ks) None (tca_user_tda args);
      admit_process child_pid nxt_pid next_tid thread v;;
      mret child_pid.

End Definitions.
End PM.
