(* ===== verification/ManagerInv.v ===== *)
(** * Process manager: the table of threads

    The processes of the manager as one table of threads, and what the building
    blocks of the scheduling operations do to it. *)

From S2P Require Import Prelude Error Config Addr NonEmpty Mailbox UserSpace VirtMem Str Thread Process.
From S2P Require Import ProcessView Pending ProcManager.
#[local] Open Scope Z_scope.

Section Table.
Context {VM : VirtMem}.

(** A thread with its process and what it is doing. *)
Definition Row : Type := ProcessIdentifier * Entry.

Definition ptable {P} `{!ProcessLike P} (p : P) : list Row := pair (ppid p) <$> pview p.
Definition tables {P} `{!ProcessLike P} (l : list P) : list Row := l ≫= ptable.
Definition deferred_row (d : ProcessIdentifier * ZombieThread) : Row := (d.1, e_zombie d.2).

(** All threads that the manager holds. *)
Definition table (p : ProcessManager) : list Row :=
  from_option ptable [] (running p) ++ tables (ready p) ++ tables (suspended p) ++
  tables (interrupted p) ++ tables (zombies p) ++ (deferred_row <$> deferred_reap p).

(** All processes that the manager holds. *)
Definition pids (p : ProcessManager) : list ProcessIdentifier :=
  from_option (fun r => [ppid r]) [] (running p) ++ (ppid <$> ready p) ++ (ppid <$> suspended p) ++
  (ppid <$> interrupted p) ++ (ppid <$> zombies p).

Definition row_tid (r : Row) : ThreadIdentifier := e_tid r.2.
Definition tids (p : ProcessManager) : list ThreadIdentifier := row_tid <$> table p.

(** Threads change state, and stay in their process. *)
Definition row_step : relation Row := fun x y => x.1 = y.1 /\ lifecycle x.2 y.2.
Definition tevolve : relation (list Row) := pointwise row_step.

#[global] Instance row_step_preorder : PreOrder row_step.
Proof.
  split.
  - intros x. split; [done|reflexivity].
  - intros x y z [H1 H2] [H3 H4]. split; [congruence|by transitivity y.2].
Qed.
#[global] Instance tevolve_preorder : PreOrder tevolve := pointwise_preorder _.
#[global] Instance tevolve_proper : Proper ((≡ₚ) ==> (≡ₚ) ==> iff) tevolve := pointwise_proper _.

Lemma tevolve_app l1 l2 k1 k2 : tevolve l1 k1 -> tevolve l2 k2 -> tevolve (l1 ++ l2) (k1 ++ k2).
Proof. apply pointwise_app. Qed.

Lemma tevolve_perm l k : l ≡ₚ k -> tevolve l k.
Proof. by intros ->. Qed.

Lemma tevolve_tids l k : tevolve l k -> row_tid <$> l ≡ₚ row_tid <$> k.
Proof. apply pointwise_keep. intros x y [_ H]. symmetry. by apply lifecycle_tid. Qed.

Lemma ptable_evolve {P Q} `{!ProcessLike P, !ProcessLike Q} (p : P) (q : Q) :
  evolve (pview p) (pview q) -> ppid q = ppid p -> tevolve (ptable p) (ptable q).
Proof.
  intros He Hp. unfold ptable. rewrite Hp. eapply pointwise_fmap; [|exact He].
  intros x y Hxy. by split.
Qed.

Lemma ppid_eq {P Q} `{!ProcessLike P, !ProcessLike Q} (p : P) (q : Q) :
  pstate q = pstate p -> ppid q = ppid p.
Proof. unfold ppid. by intros ->. Qed.

(** One process takes the place of another. *)
Lemma replace_evolve {P Q} `{!ProcessLike P, !ProcessLike Q} (p : P) (q : Q) T T' R :
  T ≡ₚ ptable p ++ R -> T' ≡ₚ ptable q ++ R ->
  evolve (pview p) (pview q) -> ppid q = ppid p -> tevolve T T'.
Proof. intros -> -> He Hp. apply tevolve_app; [by apply ptable_evolve|reflexivity]. Qed.

Lemma tables_app {P} `{!ProcessLike P} (l k : list P) : tables (l ++ k) = tables l ++ tables k.
Proof. apply bind_app. Qed.

Lemma tables_one {P} `{!ProcessLike P} (p : P) : tables [p] = ptable p.
Proof. unfold tables. simpl. apply app_nil_r. Qed.

Lemma tables_cons {P} `{!ProcessLike P} (p : P) l : tables (p :: l) = ptable p ++ tables l.
Proof. done. Qed.

#[global] Instance tables_proper {P} `{!ProcessLike P} : Proper ((≡ₚ) ==> (≡ₚ)) (tables (P:=P)).
Proof. intros l k H. unfold tables. by rewrite H. Qed.

End Table.

Create Rewrite HintDb table.
#[export] Hint Rewrite @tables_app @tables_one @tables_cons @fmap_app : table.

(** Show the table after field updates. *)
Ltac table :=
  unfold table, pids, PM.with_reason, PM.with_next_pid, PM.with_running, PM.with_ready,
    PM.with_suspended, PM.with_interrupted, PM.with_zombies, PM.with_tm, PM.with_live_count,
    PM.with_messages, PM.with_deferred;
  cbn [running ready suspended interrupted zombies deferred_reap from_option];
  autorewrite with table.

(** ** Selection *)
Section Selection.
Context {VM : VirtMem}.

Lemma earliest_admission_time_spec (p : RunnableProcess) :
  let m := RunnableProcess.earliest_admission_time p in
  Exists (fun t => admission_time t = m) (NonEmpty.to_list (rn_ready p)) /\
  Forall (fun t => m <= admission_time t) (NonEmpty.to_list (rn_ready p)).
Proof.
  unfold RunnableProcess.earliest_admission_time, NonEmpty.to_list.
  destruct (rn_ready p) as [h t]. cbn [head tail]. generalize (default [] t) as l. clear t.
  assert (forall l (pre : list ReadyThread) m, Exists (fun t => admission_time t = m) pre ->
    Forall (fun t => m <= admission_time t) pre ->
    let m' := foldl (fun m t => if admission_time t <? m then admission_time t else m) m l in
    Exists (fun t => admission_time t = m') (pre ++ l) /\
    Forall (fun t => m' <= admission_time t) (pre ++ l)) as Hgen.
  { induction l as [|x l IH]; intros pre m He Hf; simpl; [by rewrite app_nil_r|].
    rewrite (cons_middle x pre l), app_assoc. destruct (Z.ltb_spec (admission_time x) m).
    - apply IH; [apply Exists_app; right; by left|]. apply Forall_app. split.
      + eapply Forall_impl; [exact Hf|]. simpl. lia.
      + constructor; [lia|constructor].
    - apply IH; [apply Exists_app; by left|]. apply Forall_app. split; [done|].
      constructor; [lia|constructor]. }
  intros l. apply (Hgen l [h]); [by left|]. constructor; [lia|constructor].
Qed.

(** The loop keeps the position of the earliest process seen so far. *)
Lemma earliest_spec (pre l : list RunnableProcess) i sel :
  length pre = i ->
  (exists p, (pre ++ l) !! sel.1 = Some p /\ RunnableProcess.earliest_admission_time p = sel.2) ->
  Forall (fun q => sel.2 <= RunnableProcess.earliest_admission_time q) pre ->
  let r := PM.earliest l i sel in
  exists p, (pre ++ l) !! r.1 = Some p /\
    Forall (fun q => RunnableProcess.earliest_admission_time p <=
                     RunnableProcess.earliest_admission_time q) (pre ++ l).
Proof.
  revert pre i sel. induction l as [|x l IH]; intros pre i sel Hi (p & Hp & Hs) Hf; simpl.
  { exists p. split; [done|]. rewrite app_nil_r. by rewrite Hs. }
  rewrite (cons_middle x pre l), app_assoc in *.
  apply IH; [rewrite length_app; simpl; lia| |].
  - destruct (Z.ltb_spec (RunnableProcess.earliest_admission_time x) sel.2); [|by exists p].
    exists x. split; [|done]. simpl. rewrite <- app_assoc. simpl. by rewrite list_lookup_middle.
  - destruct (Z.ltb_spec (RunnableProcess.earliest_admission_time x) sel.2); simpl;
      (apply Forall_app; split; [|constructor; [lia|constructor]]); [|done].
    eapply Forall_impl; [exact Hf|]. simpl. lia.
Qed.

End Selection.

(** Step through straight-line kernel code. *)
Ltac ksteps :=
  unfold PM.set_running, PM.push_ready, PM.push_suspended, PM.push_interrupted, PM.push_zombie,
    PM.set_globals, PM.gets, PM.upd, id; wsteps.

(** ** Building blocks *)
Section Blocks.
Context {CF : Config} {VM : VirtMem} {CK : Clock}.
Implicit Types (s : Kernel).

Lemma wp_clock_now s (Q : res Error SystemTime → Kernel → Prop) :
  Q (Ok (reading (reads s)))
    (mkKernel (pm s) (mm s) (pending s) (condvars s) (next_condvar s) (S (reads s)) (globals s)) ->
  wp PM.clock_now s Q.
Proof. done. Qed.

Lemma wp_take_running s r (Q : res Error RunningProcess → Kernel → Prop) :
  running (pm s) = Some r ->
  Q (Ok r) (PM.with_pm (PM.with_running None (pm s)) s) -> wp PM.take_running s Q.
Proof. intros Hr HQ. unfold PM.take_running. ksteps. by rewrite Hr. Qed.

Lemma wp_get_running s r (Q : res Error RunningProcess → Kernel → Prop) :
  running (pm s) = Some r -> Q (Ok r) s -> wp PM.get_running s Q.
Proof. intros Hr HQ. unfold PM.get_running. ksteps. by rewrite Hr. Qed.

(** The guard of the running stack is intact, or an exception is being served. *)
Definition stack_intact s : Prop :=
  0 < SERVING_EXCEPTION (globals s) \/
  from_option (fun r => ThreadState.check_guard_watermark (mm s) (run_state (rp_running r)) = Ok tt)
    True (running (pm s)).

Lemma wp_check_guard s (Q : res Error unit → Kernel → Prop) :
  stack_intact s -> Q (Ok tt) s -> wp PM.check_running_stack_guard s Q.
Proof.
  intros Hs HQ. unfold PM.check_running_stack_guard. ksteps.
  destruct (Z.ltb_spec 0 (SERVING_EXCEPTION (globals s))); [done|].
  destruct Hs as [?|Hs]; [lia|]. destruct (running (pm s)); [|done]. simpl in Hs. by rewrite Hs.
Qed.

Lemma wp_update_guard s (Q : res Error unit → Kernel → Prop) :
  (forall t, Q (Ok tt) (PM.with_globals (PM.with_guard t (globals s)) s)) ->
  wp PM.update_active_stack_guard s Q.
Proof.
  intros HQ. unfold PM.update_active_stack_guard. ksteps.
  destruct (running (pm s)) as [r|]; [destruct (kernel_stack _)|]; ksteps; apply HQ.
Qed.

(** Selection takes a process whose earliest thread is the earliest of all. *)
Lemma wp_take_earliest s (Q : res Error RunnableProcess → Kernel → Prop) :
  ready (pm s) <> [] ->
  (forall p l, ready (pm s) ≡ₚ p :: l ->
     Forall (fun q => RunnableProcess.earliest_admission_time p <=
                      RunnableProcess.earliest_admission_time q) (ready (pm s)) ->
     Q (Ok p) (PM.with_pm (PM.with_ready l (pm s)) s)) ->
  wp PM.take_earliest_ready s Q.
Proof.
  intros Hne HQ. unfold PM.take_earliest_ready. ksteps.
  destruct (ready (pm s)) as [|front l] eqn:El; [done|].
  pose proof (earliest_spec [] (front :: l) 0 (0%nat, RunnableProcess.earliest_admission_time front)
    eq_refl (ex_intro _ front (conj eq_refl eq_refl)) (Forall_nil_2 _)) as (p & Hp & Hmin).
  destruct (PM.earliest _ _ _) as [i t]. cbn [fst app] in Hp.
  unfold NonEmpty.vec_remove. rewrite Hp. cbn [mbind option_bind]. ksteps.
  apply HQ; [|done]. by rewrite <- (delete_Permutation _ i p Hp).
Qed.

(** The globals but for the stack guard, and the queues of condition variables. *)
Record same_current s s' : Prop := {
  sc_pid : CURRENT_PID (globals s') = CURRENT_PID (globals s);
  sc_tid : CURRENT_TID (globals s') = CURRENT_TID (globals s);
  sc_quantum : REMAINING_QUANTUM (globals s') = REMAINING_QUANTUM (globals s);
  sc_condvars : condvars s' = condvars s
}.

#[global] Instance same_current_preorder : PreOrder same_current.
Proof.
  split.
  - intros s. by constructor.
  - intros s1 s2 s3 [] []. constructor; congruence.
Qed.

Lemma same_current_eq s s' : globals s' = globals s -> condvars s' = condvars s -> same_current s s'.
Proof. intros H1 H2. constructor; by rewrite ?H1. Qed.

(** Nothing outside of the manager and the memory changes. *)
Definition frame s s' : Prop :=
  pending s' = pending s /\ condvars s' = condvars s /\ globals s' = globals s.

#[global] Instance frame_preorder : PreOrder frame.
Proof.
  split; [by intros s|]. intros s1 s2 s3 (?&?&?) (?&?&?). unfold frame. splits; congruence.
Qed.

(** The same thread runs, and the globals are the same. *)
Definition run_key (r : RunningProcess) : ThreadIdentifier * ProcessIdentifier :=
  (RunningProcess.get_tid r, ppid r).
Definition same_running s s' : Prop :=
  run_key <$> running (pm s') = run_key <$> running (pm s) /\ globals s' = globals s.

(** What [dispatch] leaves behind: the ready thread that was admitted first runs. *)
Definition dispatched s (p : RunnableProcess) l (q : RunningProcess) reason s' : Prop :=
  pm s' = PM.with_running (Some q) (PM.with_reason reason (PM.with_ready l (pm s))) /\
  ready (pm s) ≡ₚ p :: l /\
  mm s' = mm s /\ pending s' = pending s /\ same_current s s' /\
  next_condvar s' = next_condvar s /\ reads s' = reads s.

(** The admission times of the ready threads of ready processes. *)
Definition admissions (l : list RunnableProcess) : list SystemTime :=
  l ≫= fun p => admission_time <$> NonEmpty.to_list (rn_ready p).

Lemma wp_dispatch s (Q : res Error (ProcessIdentifier * ThreadIdentifier * Context * option VirtualAddress) → Kernel → Prop) :
  ready (pm s) <> [] ->
  (forall p l t q reason s',
     dispatched s p l q reason s' ->
     pview p ≡ₚ e_ready t :: others q ->
     rp_running q = mkRunningThread (ThreadState.take_interrupt_reason (rdy_state t)).2 ->
     reason = interrupt_reason (rdy_state t) -> pstate q = pstate p ->
     Forall (fun a => admission_time t <= a) (admissions (ready (pm s))) ->
     Q (Ok (ppid q, RunningProcess.get_tid q, RunningProcess.get_tid q, user_tda (rdy_state t))) s') ->
  wp PM.dispatch s Q.
Proof.
  intros Hne HQ. unfold PM.dispatch. wstep. apply wp_take_earliest; [done|]. intros p l Hl Hmin.
  destruct (RunnableProcess.run p) as [[[q r] ctx] tda] eqn:Hrun.
  destruct (run_view p q r ctx tda Hrun) as (t & Hv & Hr & -> & -> & -> & Hs & Ht).
  ksteps. apply wp_update_guard. intros g. ksteps.
  eapply HQ; [|exact Hv|exact Hr|reflexivity|exact Hs|].
  { unfold dispatched. by splits. }
  apply Forall_forall. intros a (p' & Ha & Hp')%list_elem_of_bind.
  apply list_elem_of_fmap in Ha as (t' & -> & Ht').
  rewrite Forall_forall in Hmin. specialize (Hmin p' Hp').
  destruct (earliest_admission_time_spec p) as [He _]. apply Exists_exists in He as (t0 & Ht0 & Heq).
  destruct (earliest_admission_time_spec p') as [_ Hf]. rewrite Forall_forall in Hf, Ht.
  specialize (Hf t' Ht'). specialize (Ht t0 Ht0). simpl in *. lia.
Qed.

(** ** Alarms and interrupted processes *)

Lemma alarm_loop_spec now l sus itr :
  exists l' new, PM.alarm_loop now l sus itr = (sus ++ l', itr ++ new) /\
    tevolve (tables l) (tables l' ++ tables new) /\
    ppid <$> l ≡ₚ (ppid <$> l') ++ (ppid <$> new) /\
    Forall (fun p => Forall (fun t => ~ due now t) (NonEmpty.to_list (sp_sleeping p))) l'.
Proof.
  revert sus itr. induction l as [|p l IH]; intros sus itr; cbn [PM.alarm_loop].
  { exists [], []. by rewrite !app_nil_r. }
  pose proof (wakeup_alarm_view p now) as Hp.
  destruct (SleepingProcess.wakeup_alarm p now) as [q|q].
  - destruct (IH sus (itr ++ [q])) as (l' & new & -> & He & Hpid & Hf).
    exists l', (q :: new). rewrite <- app_assoc. splits; [done| | |done].
    + rewrite !tables_cons. transitivity (ptable q ++ tables l' ++ tables new); [apply tevolve_app; [|exact He]|].
      * apply ptable_evolve; [exact (wakeup_alarm_evolve p q now Hp)|apply ppid_eq, Hp].
      * apply tevolve_perm. solve_Permutation.
    + rewrite !fmap_cons, Hpid. replace (ppid p) with (ppid q); [solve_Permutation|].
      unfold ppid. destruct Hp as [-> _]. done.
  - destruct (IH (sus ++ [q]) itr) as (l' & new & -> & He & Hpid & Hf).
    destruct Hp as (Hs & Hz & Hd & Hl).
    exists (q :: l'), new. rewrite <- app_assoc. splits; [done| | |by constructor; [rewrite Hl|]].
    + rewrite !tables_cons, <- app_assoc. apply tevolve_app; [|exact He].
      apply ptable_evolve; [|by apply ppid_eq]. apply evolve_perm. unfold pview, sleeping_like, queue.
      rewrite Hz. cbn [NonEmpty.elems from_option]. by rewrite Hl.
    + rewrite !fmap_cons, Hpid. unfold ppid at 1. by rewrite <- Hs.
Qed.

Lemma wp_check_alarm s (Q : res Error unit → Kernel → Prop) :
  (forall sus new s',
     pm s' = PM.with_suspended sus (PM.with_interrupted (interrupted (pm s) ++ new) (pm s)) ->
     mm s' = mm s -> pending s' = pending s -> condvars s' = condvars s -> globals s' = globals s ->
     reads s' = S (reads s) ->
     tevolve (tables (suspended (pm s))) (tables sus ++ tables new) ->
     ppid <$> suspended (pm s) ≡ₚ (ppid <$> sus) ++ (ppid <$> new) ->
     Forall (fun p => Forall (fun t => ~ due (reading (reads s)) t)
                        (NonEmpty.to_list (sp_sleeping p))) sus ->
     Q (Ok tt) s') ->
  wp PM.check_alarm s Q.
Proof.
  intros HQ. unfold PM.check_alarm. wstep. apply wp_clock_now. ksteps.
  cbn [pm suspended interrupted].
  destruct (alarm_loop_spec (reading (reads s)) (suspended (pm s)) [] (interrupted (pm s)))
    as (sus & new & -> & He & Hpid & Hf).
  by eapply HQ.
Qed.

(** The processes that the loop makes ready, the clock being read for each. *)
Fixpoint resumed (n : nat) (l : list InterruptedProcess) : list RunnableProcess :=
  match l with
  | [] => []
  | p :: l => InterruptedProcess.resume p (reading n) :: resumed (S n) l
  end.

Lemma resumed_evolve n l :
  tevolve (tables l) (tables (resumed n l)) /\ ppid <$> resumed n l = ppid <$> l.
Proof.
  revert n. induction l as [|p l IH]; intros n; [done|]. cbn [resumed].
  destruct (IH (S n)) as [He Hp]. destruct (resume_evolve p (reading n)) as [Hr Hs].
  split.
  - rewrite !tables_cons. apply tevolve_app; [|done]. apply ptable_evolve; [done|by apply ppid_eq].
  - rewrite !fmap_cons, Hp. unfold ppid at 1. by rewrite Hs.
Qed.

Lemma wp_resume_loop s l (Q : res Error unit → Kernel → Prop) :
  interrupted (pm s) = l ->
  (forall s', pm s' = PM.with_interrupted [] (PM.with_ready (ready (pm s) ++ resumed (reads s) l) (pm s)) ->
     mm s' = mm s -> pending s' = pending s -> condvars s' = condvars s -> globals s' = globals s ->
     (reads s <= reads s')%nat -> Q (Ok tt) s') ->
  wp (PM.resume_loop l) s Q.
Proof.
  revert s. induction l as [|p l IH]; intros s Hl HQ; cbn [PM.resume_loop].
  - ksteps. apply HQ; try done. destruct (pm s); simpl in *; subst. by rewrite app_nil_r.
  - ksteps. apply wp_clock_now. ksteps. apply IH; [done|]. intros s' Hpm Hm Hp Hc Hg Hr.
    apply HQ; try done; [|simpl in Hr; lia]. rewrite Hpm. unfold PM.with_interrupted, PM.with_ready.
    simpl. by rewrite <- app_assoc.
Qed.

End Blocks.

(** ** The invariant of the process manager *)
Section Invariant.
Context {CF : Config} {VM : VirtMem} {CK : Clock}.
Implicit Types (p : ProcessManager) (s : Kernel).

(** The processes that run or can be selected to run. *)
Definition schedulable (p : ProcessManager) : list ProcessIdentifier :=
  from_option (fun r => [ppid r]) [] (running p) ++ (ppid <$> ready p).

(** The user stacks that the kernel hands out all lie at the same place. *)
Definition row_stack_ok (row : Row) : Prop :=
  from_option (fun u => us_base u = mkPageAligned (mkVirtualAddress USER_STACK_TOP_RAW)) True
    (user_stack row.2.1).

Record inv p : Prop := {
  (** Some process runs, and the kernel process runs or is ready. *)
  inv_running : is_Some (running p);
  inv_kernel : KERNEL_PID ∈ schedulable p;
  (** Identifiers are unique and were handed out by the counters. *)
  inv_pids : NoDup (pids p);
  inv_tids : NoDup (tids p);
  inv_pid_range : Forall (fun i => 0 <= i < next_pid p) (pids p);
  inv_tid_range : Forall (fun t => 0 <= t < next_id (tm p)) (tids p);
  (** The counts: exact for processes, an upper bound for threads. *)
  inv_live : live_count p = Z.of_nat (length (pids p));
  inv_threads : Z.of_nat (length (tids p)) <= tm_live_count (tm p);
  inv_caps : live_count p <= MAX_PROCESSES /\ tm_live_count (tm p) <= MAX_THREADS;
  (** No thread sleeps in a process that waits to be resumed. *)
  inv_interrupted : Forall (fun q => ip_sleeping q = None) (interrupted p);
  (** The stack of a thread can be unmapped. *)
  inv_stacks : Forall row_stack_ok (table p)
}.

(** What scheduling does: threads change what they do; none comes or goes. *)
Record moved p p' : Prop := {
  mv_pids : pids p ≡ₚ pids p';
  mv_table : tevolve (table p) (table p');
  mv_next_pid : next_pid p' = next_pid p;
  mv_tm : tm p' = tm p;
  mv_live : live_count p' = live_count p
}.

Lemma moved_inv p p' : inv p -> moved p p' ->
  is_Some (running p') -> KERNEL_PID ∈ schedulable p' ->
  Forall (fun q => ip_sleeping q = None) (interrupted p') -> inv p'.
Proof.
  intros [] [Hp Ht Hn Hm Hl] Hr Hk Hi.
  assert (tids p ≡ₚ tids p') as Htid by by apply tevolve_tids.
  constructor; rewrite <- ?Hp, <- ?Htid, ?Hn, ?Hm, ?Hl; try done.
  eapply pointwise_Forall; [|exact Ht|done]. intros x y [_ Hxy]. unfold row_stack_ok.
  by rewrite (lifecycle_stack _ _ Hxy).
Qed.

#[global] Instance moved_preorder : PreOrder moved.
Proof.
  split.
  - intros p. by constructor.
  - intros p1 p2 p3 [] []. constructor; try congruence; etransitivity; eassumption.
Qed.

Lemma inv_ready p r : inv p -> running p = Some r -> ppid r <> KERNEL_PID ->
  KERNEL_PID ∈ ppid <$> ready p.
Proof.
  intros Hi Hr Hne. pose proof (inv_kernel p Hi) as Hk. unfold schedulable in Hk.
  rewrite Hr in Hk. simpl in Hk. apply elem_of_cons in Hk as [Hk|Hk]; [congruence|done].
Qed.

Lemma kernel_ready_ne p : KERNEL_PID ∈ ppid <$> ready p -> ready p <> [].
Proof. intros Hk Hr. rewrite Hr in Hk. by apply elem_of_nil in Hk. Qed.

(** [dispatch], for the table: the selected thread runs. *)
Lemma dispatched_moved s (p : RunnableProcess) l t q reason s' :
  running (pm s) = None -> dispatched s p l q reason s' ->
  pview p ≡ₚ e_ready t :: others q ->
  rp_running q = mkRunningThread (ThreadState.take_interrupt_reason (rdy_state t)).2 ->
  pstate q = pstate p ->
  moved (pm s) (pm s') /\ running (pm s') = Some q /\ schedulable (pm s') ≡ₚ ppid <$> ready (pm s) /\
  interrupted (pm s') = interrupted (pm s) /\
  exists X, table (pm s) ≡ₚ (ppid p, e_ready t) :: X /\
    table (pm s') ≡ₚ (ppid p, e_running (rp_running q)) :: X.
Proof.
  intros Hr (Hpm & Hl & _) Hv Hrun Hs.
  assert (ppid q = ppid p) as Hq by (unfold ppid; by rewrite Hs).
  assert (tevolve (ptable p) (ptable q)) as He.
  { apply ptable_evolve; [|by apply ppid_eq]. rewrite Hv. unfold pview, running_like.
    apply evolve_cons; [|reflexivity]. rewrite Hrun. constructor. }
  splits; [|by rewrite Hpm|unfold schedulable; rewrite Hpm; simpl; by rewrite Hl, Hq|by rewrite Hpm|].
  - constructor; rewrite Hpm; try done; table; rewrite Hr, Hl.
    + cbn [from_option]. rewrite Hq. done.
    + rewrite tables_cons. cbn [from_option app]. rewrite <- app_assoc.
      apply tevolve_app; [exact He|done].
  - exists ((pair (ppid p) <$> others q) ++ tables l ++ tables (suspended (pm s)) ++
      tables (interrupted (pm s)) ++ tables (zombies (pm s)) ++ (deferred_row <$> deferred_reap (pm s))).
    split.
    + table. rewrite Hr, Hl, tables_cons.
      assert (ptable p ≡ₚ (ppid p, e_ready t) :: (pair (ppid p) <$> others q)) as ->
        by (unfold ptable; by rewrite Hv).
      by rewrite <- app_assoc.
    + rewrite Hpm. table. by rewrite <- Hq.
Qed.

(** ** Rows of the table *)

Lemma elem_of_tables {P} `{!ProcessLike P} (l : list P) row :
  row ∈ tables l <-> exists q, q ∈ l /\ row.1 = ppid q /\ row.2 ∈ pview q.
Proof.
  unfold tables, ptable. rewrite list_elem_of_bind. split.
  - intros (q & Hin & Hq). apply list_elem_of_fmap in Hin as (e & -> & He). by exists q.
  - intros (q & Hq & H1 & H2). exists q. split; [|done]. apply list_elem_of_fmap.
    exists row.2. split; [|done]. rewrite <- H1. by destruct row.
Qed.

Lemma row_running p (q : RunningProcess) e :
  running p = Some q -> e ∈ pview q -> (ppid q, e) ∈ table p.
Proof.
  intros Hr He. unfold table. rewrite elem_of_app, Hr. left. apply list_elem_of_fmap. by exists e.
Qed.

Lemma row_ready p (q : RunnableProcess) e : q ∈ ready p -> e ∈ pview q -> (ppid q, e) ∈ table p.
Proof.
  intros. unfold table. rewrite !elem_of_app. right; left. apply elem_of_tables. by exists q.
Qed.

Lemma row_suspended p (q : SleepingProcess) e :
  q ∈ suspended p -> e ∈ pview q -> (ppid q, e) ∈ table p.
Proof.
  intros. unfold table. rewrite !elem_of_app. do 2 right; left. apply elem_of_tables. by exists q.
Qed.

Lemma row_zombie p (q : ZombieProcess) e : q ∈ zombies p -> e ∈ pview q -> (ppid q, e) ∈ table p.
Proof.
  intros. unfold table. rewrite !elem_of_app. do 4 right; left. apply elem_of_tables. by exists q.
Qed.

(** ** Moving processes between lists *)

Section Requeue.
Context (p : ProcessManager) (r : RunningProcess) (Hr : running p = Some r).

(** The running process [r] has become [q] and is put in another list. *)
#[local] Ltac requeue q :=
  intros He Hq; constructor; try done; [table; rewrite Hr; simpl; rewrite Hq; solve_Permutation|];
  apply (replace_evolve r q _ _ (tables (ready p) ++ tables (suspended p) ++ tables (interrupted p) ++
    tables (zombies p) ++ (deferred_row <$> deferred_reap p))); try done;
  table; rewrite ?Hr; cbn [from_option]; solve_Permutation.

Lemma requeue_ready (q : RunnableProcess) : evolve (pview r) (pview q) -> ppid q = ppid r ->
  moved p (PM.with_ready (ready p ++ [q]) (PM.with_running None p)).
Proof. requeue q. Qed.

Lemma requeue_suspended (q : SleepingProcess) : evolve (pview r) (pview q) -> ppid q = ppid r ->
  moved p (PM.with_suspended (suspended p ++ [q]) (PM.with_running None p)).
Proof. requeue q. Qed.

Lemma requeue_zombie (q : ZombieProcess) : evolve (pview r) (pview q) -> ppid q = ppid r ->
  moved p (PM.with_zombies (zombies p ++ [q]) (PM.with_running None p)).
Proof. requeue q. Qed.

End Requeue.

Lemma alarm_moved p sus new :
  tevolve (tables (suspended p)) (tables sus ++ tables new) ->
  ppid <$> suspended p ≡ₚ (ppid <$> sus) ++ (ppid <$> new) ->
  moved p (PM.with_suspended sus (PM.with_interrupted (interrupted p ++ new) p)).
Proof.
  intros He Hp. constructor; try done; table.
  - rewrite Hp. solve_Permutation.
  - transitivity (from_option ptable [] (running p) ++ tables (ready p) ++ (tables sus ++ tables new) ++
      tables (interrupted p) ++ tables (zombies p) ++ (deferred_row <$> deferred_reap p)).
    + do 2 (apply tevolve_app; [done|]). apply tevolve_app; [exact He|done].
    + apply tevolve_perm. solve_Permutation.
Qed.

Lemma resume_moved p n :
  moved p (PM.with_interrupted [] (PM.with_ready (ready p ++ resumed n (interrupted p)) p)).
Proof.
  destruct (resumed_evolve n (interrupted p)) as [He Hp]. constructor; try done; table.
  - rewrite Hp. simpl. solve_Permutation.
  - transitivity (from_option ptable [] (running p) ++ tables (ready p) ++ tables (suspended p) ++
      tables (resumed n (interrupted p)) ++ tables (zombies p) ++ (deferred_row <$> deferred_reap p)).
    + do 3 (apply tevolve_app; [done|]). apply tevolve_app; [exact He|done].
    + apply tevolve_perm. unfold tables at 7. simpl. solve_Permutation.
Qed.

End Invariant.

(** Compute the fields of an updated state. *)
Ltac fields :=
  cbn [pm mm pending condvars next_condvar reads globals PM.with_pm PM.with_mm PM.with_pending
       PM.with_condvars PM.with_globals PM.with_reason PM.with_next_pid PM.with_running PM.with_ready
       PM.with_suspended PM.with_interrupted PM.with_zombies PM.with_tm PM.with_live_count
       PM.with_messages PM.with_deferred interrupt_capable pm_interrupt_reason next_pid running ready
       suspended interrupted zombies tm live_count number_buffered_messages deferred_reap] in *.
