(* ===== verification/Scheduler.v ===== *)
(** * Scheduling

    What the operations of the process manager that switch threads do: they never
    panic in a state of the system, they keep the invariant, and they move threads
    along their life cycle only. *)

From S2P Require Import Prelude Error Config Addr NonEmpty Mailbox UserSpace VirtMem Str Thread Process.
From S2P Require Import ProcessView Pending ProcManager ManagerInv.
#[local] Open Scope Z_scope.

(** ** The search for a sleeping thread *)
Section Search.
Context {CF : Config} {VM : VirtMem} {CK : Clock}.

(** The search of [try_wakeup] in either list. *)
Fixpoint wakeup_list {P} `{!ProcessLike P} (wk : P → RunnableProcess + P) (tid : ThreadIdentifier)
    (l : list P) : option (list P * option RunnableProcess) :=
  match l with
  | [] => None
  | p :: l =>
    match pfind p tid with
    | Some _ => match wk p with inl q => Some (l, Some q) | inr q => Some (q :: l, None) end
    | None => match wakeup_list wk tid l with Some (l, r) => Some (p :: l, r) | None => None end
    end
  end.

Lemma wakeup_suspended_list tid now l :
  PM.wakeup_suspended tid now l = wakeup_list (fun p => SleepingProcess.wakeup p tid now) tid l.
Proof.
  induction l as [|p l IH]; [done|]. simpl. rewrite IH.
  by destruct (SleepingProcess.find_thread p tid).
Qed.

Lemma wakeup_ready_list tid now l :
  PM.wakeup_ready tid now l = wakeup_list (fun p => RunnableProcess.wakeup p tid now) tid l.
Proof.
  induction l as [|p l IH]; [done|]. simpl. rewrite IH.
  by destruct (RunnableProcess.find_thread p tid).
Qed.

Lemma wakeup_list_spec {P} `{!ProcessLike P, !FindsThreads P} (wk : P → RunnableProcess + P) tid now l :
  (forall p, wakeup_post p tid now (wk p)) ->
  match wakeup_list wk tid l with
  | Some (l', Some q) => exists p, l ≡ₚ p :: l' /\ wakeup_post p tid now (inl q)
  | Some (l', None) => l' = l /\ exists p, p ∈ l /\ tid ∈ ptids p /\ no_sleeper tid (pview p)
  | None => Forall (fun p => tid ∉ ptids p) l
  end.
Proof.
  intros Hwk. induction l as [|p l IH]; [constructor|]. cbn [wakeup_list].
  pose proof (pfind_spec p tid) as Hf. destruct (pfind p tid) as [t|].
  - specialize (Hwk p). destruct (wk p) as [q|q].
    + by exists p.
    + destruct Hwk as [-> Hn]. split; [done|]. exists p. splits; [left|by apply Hf|done].
  - assert (tid ∉ ptids p) as Hnp by (intros Hin; by apply Hf in Hin as [? ?]).
    destruct (wakeup_list wk tid l) as [[l' [q|]]|]; [| |by constructor].
    + destruct IH as (p' & Hl & Hw). exists p'. split; [rewrite Hl; solve_Permutation|done].
    + destruct IH as (-> & p' & Hin & Ht & Hn). split; [done|]. exists p'.
      splits; [by right|done..].
Qed.

End Search.

(** ** Operations that switch *)
Section Switching.
Context {CF : Config} {VM : VirtMem} {CK : Clock}.
Implicit Types (s : Kernel) (p : ProcessManager).

(** What an operation that switches leaves behind: the thread [from] gave up the
    processor, the thread [to] runs. *)
Record switched s s' (from to : Context) (q : RunningProcess) : Prop := {
  sw_inv : inv (pm s');
  sw_moved : moved (pm s) (pm s');
  sw_running : running (pm s') = Some q;
  sw_to : to = RunningProcess.get_tid q;
  sw_from : from_option (fun r => from = RunningProcess.get_tid r) False (running (pm s));
  sw_current : same_current s s'
}.

(** The result of a switch. *)
Definition switch_result (r : res Error PM.Switch) s s' : Prop :=
  exists from to q tda, r = Ok (ppid q, RunningProcess.get_tid q, from, to, tda) /\
    switched s s' from to q.

Lemma schedule_wp s : inv (pm s) -> stack_intact s ->
  wp PM.schedule s (fun r s' => switch_result r s s' /\ interrupted (pm s') = []).
Proof.
  intros Hi Hst. destruct (inv_running _ Hi) as [r Hr].
  unfold PM.schedule. wstep. apply wp_check_guard; [done|].
  wstep. apply (wp_take_running s r); [done|]. wstep. apply wp_clock_now.
  set (now := reading _).
  destruct (RunningProcess.schedule r now) as [q0 from] eqn:Hsch.
  destruct (schedule_view r now q0 from Hsch) as (Hv & Hs & ->).
  ksteps. apply wp_check_alarm. intros sus new s2 Hpm2 _ _ Hc2 Hg2 _ He Hp _. ksteps.
  apply wp_resume_loop; [done|]. intros s3 Hpm3 _ _ Hc3 Hg3 _.
  assert (same_current s s3) as Hcur by (apply same_current_eq; [by rewrite Hg3, Hg2|by rewrite Hc3, Hc2]).
  assert (moved (pm s) (pm s3)) as Hm.
  { rewrite Hpm3. etransitivity; [|apply resume_moved]. rewrite Hpm2.
    etransitivity; [|apply (alarm_moved _ _ _ He Hp)].
    apply (requeue_ready _ r Hr); [|by apply ppid_eq]. rewrite Hv.
    unfold pview, running_like. apply evolve_cons; [constructor|reflexivity]. }
  assert (running (pm s3) = None /\ interrupted (pm s3) = [] /\
          KERNEL_PID ∈ ppid <$> ready (pm s3)) as (Hr3 & Hi3 & Hk).
  { rewrite Hpm3, Hpm2. splits; [done|done|]. fields.
    rewrite !fmap_app, list_fmap_singleton, (ppid_eq r q0 Hs).
    pose proof (inv_kernel _ Hi) as Hk. unfold schedulable in Hk. rewrite Hr in Hk. set_solver. }
  wstep. apply wp_dispatch; [by apply kernel_ready_ne|].
  intros p l t q reason s' Hd Hvp Hrun -> Hst' _. ksteps.
  destruct (dispatched_moved s3 p l t q _ s' Hr3 Hd Hvp Hrun Hst') as (Hm' & Hrun' & Hsc & Hint & _).
  assert (moved (pm s) (pm s')) by by transitivity (pm s3).
  split; [|by rewrite Hint]. eexists _, _, q, _. split; [reflexivity|].
  constructor; [|done|done|done|by rewrite Hr|etransitivity; [exact Hcur|apply Hd]].
  apply (moved_inv (pm s)); [done|done|by rewrite Hrun'|by rewrite Hsc|by rewrite Hint, Hi3].
Qed.

(** The end of an operation that has taken the running process off the processor
    and put it in a list. *)
Lemma finish_switch s s1 r from :
  inv (pm s) -> running (pm s) = Some r -> from = RunningProcess.get_tid r ->
  moved (pm s) (pm s1) -> running (pm s1) = None -> same_current s s1 ->
  KERNEL_PID ∈ ppid <$> ready (pm s1) ->
  Forall (fun q => ip_sleeping q = None) (interrupted (pm s1)) ->
  wp PM.dispatch s1 (fun o s' =>
    exists q tda, o = Ok (ppid q, RunningProcess.get_tid q, RunningProcess.get_tid q, tda) /\
      switched s s' from (RunningProcess.get_tid q) q /\
      (forall pid ts st, (forall a, st <> Sready a) ->
         (pid, (ts, st)) ∈ table (pm s1) -> (pid, (ts, st)) ∈ table (pm s'))).
Proof.
  intros Hi Hr -> Hm Hn Hcur Hk Hint. apply wp_dispatch; [by apply kernel_ready_ne|].
  intros p l t q reason s' Hd Hvp Hrun -> Hst' _.
  destruct (dispatched_moved s1 p l t q _ s' Hn Hd Hvp Hrun Hst')
    as (Hm' & Hrun' & Hsc & Hint' & X & HX & HX').
  assert (moved (pm s) (pm s')) by by transitivity (pm s1).
  eexists q, _. splits; [reflexivity| |].
  - constructor; [|done|done|done|by rewrite Hr|etransitivity; [exact Hcur|apply Hd]].
    apply (moved_inv (pm s)); [done|done|by rewrite Hrun'|by rewrite Hsc|by rewrite Hint'].
  - intros pid ts st Hst. rewrite HX, HX', !elem_of_cons. intros [[= _ _ ->]|Hin]; [|by right].
    by destruct (Hst (admission_time t)).
Qed.

(** [sleep]: the calling thread sleeps with the given alarm, another one runs. *)
Lemma do_sleep_wp s r a : inv (pm s) -> stack_intact s ->
  running (pm s) = Some r -> ppid r <> KERNEL_PID ->
  wp (PM.do_sleep a) s (fun o s' => switch_result o s s' /\
    (ppid r, (run_state (rp_running r), Ssleeping a)) ∈ table (pm s')).
Proof.
  intros Hi Hst Hr Hne. pose proof (inv_ready _ _ Hi Hr Hne) as Hk.
  unfold PM.do_sleep. wstep. apply wp_check_guard; [done|].
  wstep. apply (wp_take_running s r); [done|].
  destruct (Z.eqb_spec (ps_pid (rp_state r)) KERNEL_PID); [done|].
  wstep. apply wp_clock_now. set (now := reading _).
  pose proof (sleep_view r a now) as Hv. wstep.
  destruct (RunningProcess.sleep r a now) as [[q0 from]|[q0 from]]; ksteps.
  - destruct Hv as (He & Hin & Hs & ->). eapply wp_mono; [eapply (finish_switch s); try done|].
    + apply (requeue_ready _ r Hr); [done|by apply ppid_eq].
    + fields. rewrite fmap_app. set_solver.
    + apply (inv_interrupted _ Hi).
    + intros o s' (q & tda & -> & Hsw & Hrow). ksteps. split; [by eexists _, _, q, _|].
      apply Hrow; [done|]. rewrite <- (ppid_eq r q0 Hs). apply row_ready; [fields; set_solver|done].
  - destruct Hv as (Hp & Hs & ->). eapply wp_mono; [eapply (finish_switch s); try done|].
    + apply (requeue_suspended _ r Hr); [|by apply ppid_eq]. rewrite Hp.
      unfold pview, running_like. apply evolve_cons; [constructor|reflexivity].
    + apply (inv_interrupted _ Hi).
    + intros o s' (q & tda & -> & Hsw & Hrow). ksteps. split; [by eexists _, _, q, _|].
      apply Hrow; [done|]. rewrite <- (ppid_eq r q0 Hs).
      apply row_suspended; [fields; set_solver|]. rewrite Hp. left.
Qed.

(** ** Waking up *)

(** The thread sleeps. *)
Definition sleeps (tid : ThreadIdentifier) p : Prop :=
  exists pid ts a, (pid, (ts, Ssleeping a)) ∈ table p /\ ts_id ts = tid.

(** In a state with distinct threads, a thread that is seen not to sleep does not. *)
Lemma not_sleeping tid p row : NoDup (tids p) -> row ∈ table p -> row_tid row = tid ->
  (forall a, row.2.2 <> Ssleeping a) -> ~ sleeps tid p.
Proof.
  intros Hn Hrow Htid Hst (pid & ts & a & Hin & Hts).
  assert (row = (pid, (ts, Ssleeping a))) as ->; [|by apply (Hst a)].
  apply (NoDup_key row_tid (table p)); [done..|]. by rewrite Htid.
Qed.

(** A process with the thread in which it does not sleep. *)
Lemma not_sleeping_in {P} `{!ProcessLike P} (q : P) tid p : NoDup (tids p) ->
  (forall e, e ∈ pview q -> (ppid q, e) ∈ table p) ->
  tid ∈ ptids q -> no_sleeper tid (pview q) -> ~ sleeps tid p.
Proof.
  intros Hn Hq (e & -> & He)%list_elem_of_fmap Hs.
  apply (not_sleeping _ _ (ppid q, e)); [done|by apply Hq|done|].
  intros a Ha. destruct e as [ts st]. simpl in *. subst st. by apply (Hs ts a He).
Qed.

(** Writing a field back. *)
Lemma with_running_id p r : running p = Some r -> PM.with_running (Some r) p = p.
Proof. destruct p; simpl. by intros ->. Qed.
Lemma with_suspended_id p : PM.with_suspended (suspended p) p = p.
Proof. by destruct p. Qed.
Lemma with_ready_id p : PM.with_ready (ready p) p = p.
Proof. by destruct p. Qed.

(** Exactly one thread changes: it slept and is ready. *)
Definition woken tid now p p' : Prop :=
  exists pid ts a X, ts_id ts = tid /\ table p ≡ₚ (pid, (ts, Ssleeping a)) :: X /\
    table p' ≡ₚ (pid, (ts, Sready now)) :: X.

(** Replacing a process by the one in which the thread has been woken up. *)
Lemma woken_ptable {P Q} `{!ProcessLike P, !ProcessLike Q} (x : P) (q : Q) tid now p p' R :
  wakeup_post x tid now (inl q) -> table p ≡ₚ ptable x ++ R -> table p' ≡ₚ ptable q ++ R ->
  woken tid now p p'.
Proof.
  intros (ts & a & l & Hts & Hx & Hq & Hs) Hp Hp'.
  exists (ppid x), ts, a, ((pair (ppid x) <$> l) ++ R). splits; [done|..].
  - rewrite Hp. unfold ptable. by rewrite Hx.
  - rewrite Hp'. unfold ptable. rewrite Hq, (ppid_eq x q Hs). done.
Qed.

Lemma woken_tevolve tid now p p' : woken tid now p p' -> tevolve (table p) (table p').
Proof.
  intros (pid & ts & a & X & _ & -> & ->).
  apply (tevolve_app [_] X [_] X); [|reflexivity]. exists [(pid, (ts, Ssleeping a))].
  split; [done|]. constructor; [|constructor]. split; [done|]. apply rtc_once. constructor.
Qed.

(** The manager itself is all that changes. *)
Definition same_rest s s' : Prop :=
  mm s' = mm s /\ pending s' = pending s /\ condvars s' = condvars s /\ globals s' = globals s.

(** What waking a thread up does. *)
Definition wakeup_outcome tid s (o : res Error unit) s' : Prop :=
  match o with
  | Ok _ => exists now, woken tid now (pm s) (pm s') /\ moved (pm s) (pm s') /\ inv (pm s') /\
      (RunningProcess.get_tid <$> running (pm s')) = (RunningProcess.get_tid <$> running (pm s))
  | Err e => e = PM.thread_not_found /\ pm s' = pm s /\ ~ sleeps tid (pm s)
  | Panic => False
  end /\ same_rest s s'.

(** A thread sleeps in the running process, in a suspended one or in a ready one. *)
Lemma sleeps_cases tid p r : inv p -> running p = Some r -> sleeps tid p ->
  tid ∈ ptids r \/ Exists (fun q => tid ∈ ptids q) (suspended p) \/
  Exists (fun q => tid ∈ ptids q) (ready p).
Proof.
  intros Hi Hr (pid & ts & a & Hin & <-). unfold table in Hin.
  rewrite Hr, !elem_of_app in Hin. rewrite !Exists_exists.
  assert (forall P (PL : ProcessLike P) (q : P), (ts, Ssleeping a) ∈ pview q -> ts_id ts ∈ ptids q) as Hp.
  { intros P PL q Hq. apply list_elem_of_fmap. by exists (ts, Ssleeping a). }
  destruct Hin as [Hin|[Hin|[Hin|[Hin|[Hin|Hin]]]]];
    try apply elem_of_tables in Hin as (q & Hq & _ & He).
  - left. apply list_elem_of_fmap in Hin as (e & [= _ <-] & He). by apply Hp.
  - right; right. exists q. eauto.
  - right; left. exists q. eauto.
  - exfalso. pose proof (inv_interrupted _ Hi) as Hint. rewrite Forall_forall in Hint.
    unfold pview, interrupted_like in He. rewrite (Hint q Hq), !elem_of_app, !elem_of_queue in He.
    simpl in He. destruct He as [(t & [=] & _)|[(t & _ & Ht)|(t & [=] & _)]]. by apply elem_of_nil in Ht.
  - exfalso. unfold pview, zombie_like in He. rewrite elem_of_queue in He. by destruct He as (t & [=] & _).
  - exfalso. by apply list_elem_of_fmap in Hin as (d & [=] & _).
Qed.

(** A process taken out of its list and made ready. *)
Lemma wakeup_from_suspended tid now p (x : SleepingProcess) l q :
  suspended p ≡ₚ x :: l -> wakeup_post x tid now (inl q) ->
  let p' := PM.with_ready (ready p ++ [q]) (PM.with_suspended l p) in
  woken tid now p p' /\ moved p p'.
Proof.
  intros Hl Hw p'.
  assert (woken tid now p p') as Hwk.
  { eapply (woken_ptable x q _ _ _ _ (from_option ptable [] (running p) ++ tables (ready p) ++
      tables l ++ tables (interrupted p) ++ tables (zombies p) ++ (deferred_row <$> deferred_reap p)));
      [exact Hw|..]; unfold p'; table; rewrite ?Hl, ?tables_cons; solve_Permutation. }
  split; [done|]. constructor; try done; [|by apply woken_tevolve in Hwk].
  unfold p'. table. rewrite Hl. simpl. rewrite (wakeup_post_pid x q tid now Hw). solve_Permutation.
Qed.

Lemma wakeup_from_ready tid now p (x : RunnableProcess) l q :
  ready p ≡ₚ x :: l -> wakeup_post x tid now (inl q) ->
  let p' := PM.with_ready (l ++ [q]) p in
  woken tid now p p' /\ moved p p'.
Proof.
  intros Hl Hw p'.
  assert (woken tid now p p') as Hwk.
  { eapply (woken_ptable x q _ _ _ _ (from_option ptable [] (running p) ++ tables l ++
      tables (suspended p) ++ tables (interrupted p) ++ tables (zombies p) ++
      (deferred_row <$> deferred_reap p)));
      [exact Hw|..]; unfold p'; table; rewrite ?Hl, ?tables_cons; solve_Permutation. }
  split; [done|]. constructor; try done; [|by apply woken_tevolve in Hwk].
  unfold p'. table. rewrite Hl. simpl. rewrite (wakeup_post_pid x q tid now Hw). solve_Permutation.
Qed.

Lemma wakeup_from_running tid now p r q :
  running p = Some r -> wakeup_post r tid now (inl q) ->
  let p' := PM.with_running (Some q) p in
  woken tid now p p' /\ moved p p'.
Proof.
  intros Hr Hw p'.
  assert (woken tid now p p') as Hwk.
  { eapply (woken_ptable r q _ _ _ _ (tables (ready p) ++ tables (suspended p) ++
      tables (interrupted p) ++ tables (zombies p) ++ (deferred_row <$> deferred_reap p)));
      [exact Hw|..]; unfold p'; table; by rewrite ?Hr. }
  split; [done|]. constructor; try done; [|by apply woken_tevolve in Hwk].
  unfold p'. table. rewrite Hr. simpl. by rewrite (wakeup_post_pid r q tid now Hw).
Qed.

Definition try_wakeup_outcome tid s (o : res Error (option RunnableProcess)) s' : Prop :=
  match o with
  | Ok (Some q) => exists now, let p' := PM.with_ready (ready (pm s') ++ [q]) (pm s') in
      woken tid now (pm s) p' /\ moved (pm s) p' /\ inv p' /\ running p' = running (pm s)
  | Ok None => pm s' = pm s /\ ~ sleeps tid (pm s)
  | _ => False
  end /\ same_rest s s'.

Lemma try_wakeup_wp tid s r : inv (pm s) -> running (pm s) = Some r -> tid ∉ ptids r ->
  wp (PM.try_wakeup tid) s (try_wakeup_outcome tid s).
Proof.
  intros Hi Hr Hnr. pose proof (inv_tids _ Hi) as Hnd. pose proof (inv_kernel _ Hi) as Hk.
  unfold PM.try_wakeup. wstep. apply wp_clock_now. set (now := reading _). ksteps.
  rewrite wakeup_suspended_list. fields.
  pose proof (wakeup_list_spec (fun x => SleepingProcess.wakeup x tid now) tid now (suspended (pm s))
    (fun x => sleeping_wakeup_view x tid now)) as Hsus.
  destruct (wakeup_list _ tid (suspended (pm s))) as [[l [q|]]|]; ksteps.
  { destruct Hsus as (x & Hx & Hw). split; [|done]. exists now. cbv zeta.
    destruct (wakeup_from_suspended tid now (pm s) x l q Hx Hw) as [Hwk Hm].
    splits; [exact Hwk|exact Hm| |done].
    apply (moved_inv (pm s)); [done|exact Hm|exact (inv_running _ Hi)| |apply (inv_interrupted _ Hi)].
    unfold schedulable in *. fields. rewrite fmap_app. set_solver. }
  { destruct Hsus as (-> & x & Hx & Ht & Hn). split; [|done]. split; [apply with_suspended_id|].
    apply (not_sleeping_in x); [done|by intros; apply row_suspended|done|done]. }
  rewrite wakeup_ready_list. fields.
  pose proof (wakeup_list_spec (fun x => RunnableProcess.wakeup x tid now) tid now (ready (pm s))
    (fun x => runnable_wakeup_view x tid now)) as Hrdy.
  destruct (wakeup_list _ tid (ready (pm s))) as [[l [q|]]|]; ksteps.
  { destruct Hrdy as (x & Hx & Hw). split; [|done]. exists now. cbv zeta.
    destruct (wakeup_from_ready tid now (pm s) x l q Hx Hw) as [Hwk Hm].
    splits; [exact Hwk|exact Hm| |done].
    apply (moved_inv (pm s)); [done|exact Hm|exact (inv_running _ Hi)| |apply (inv_interrupted _ Hi)].
    unfold schedulable in *. fields. rewrite Hx, fmap_cons, elem_of_app, elem_of_cons in Hk.
    rewrite fmap_app, list_fmap_singleton, !elem_of_app, list_elem_of_singleton.
    rewrite (wakeup_post_pid x q tid now Hw). tauto. }
  { destruct Hrdy as (-> & x & Hx & Ht & Hn). split; [|done]. split; [apply with_ready_id|].
    apply (not_sleeping_in x); [done|by intros; apply row_ready|done|done]. }
  split; [|done]. split; [done|]. intros Hsl. rewrite Forall_forall in Hsus. rewrite Forall_forall in Hrdy.
  destruct (sleeps_cases tid (pm s) r Hi Hr Hsl) as [H|[H|H]]; [done|..];
    apply Exists_exists in H as (x & Hx & Ht); [by apply (Hsus x)|by apply (Hrdy x)].
Qed.

Lemma do_wakeup_wp tid s : inv (pm s) -> wp (PM.do_wakeup tid) s (wakeup_outcome tid s).
Proof.
  intros Hi. destruct (inv_running _ Hi) as [r Hr]. pose proof (inv_tids _ Hi) as Hnd.
  unfold PM.do_wakeup. wstep. apply (wp_get_running s r); [done|].
  pose proof (pfind_spec r tid) as Hf. unfold pfind, running_like in Hf.
  destruct (RunningProcess.find_thread r tid) as [t|].
  - wstep. apply (wp_take_running s r); [done|]. wstep. apply wp_clock_now. set (now := reading _).
    pose proof (running_wakeup_view r tid now) as Hw.
    destruct (RunningProcess.wakeup r tid now) as [q|q] eqn:Ew; ksteps.
    + destruct (wakeup_from_running tid now (pm s) r q Hr Hw) as [Hwk Hm]. split; [|done].
      exists now. splits; [exact Hwk|exact Hm| |].
      * apply (moved_inv (pm s)); [done|exact Hm|done| |apply (inv_interrupted _ Hi)].
        pose proof (inv_kernel _ Hi) as Hk. unfold schedulable in *. rewrite Hr in Hk. fields.
        cbn [from_option] in *. by rewrite (wakeup_post_pid r q tid now Hw).
      * fields. rewrite Hr. cbn. unfold RunningProcess.get_tid.
        by rewrite (running_wakeup_keeps r q tid now Ew).
    + destruct Hw as [-> Hn]. split; [|done]. splits; [done| |].
      * fields. apply (with_running_id (pm s) r Hr).
      * apply (not_sleeping_in r); [done|by intros; apply row_running|by apply Hf|done].
  - wstep. eapply wp_mono; [apply (try_wakeup_wp tid s r Hi Hr)|].
    { intros Hin. by apply Hf in Hin as [? ?]. }
    intros [[q|]|e|] s' [Ho Hrest]; [..|done|done]; ksteps; (split; [|done]).
    + destruct Ho as (now & Hwk & Hm & Hinv & Hrun). exists now. splits; [done..|]. by rewrite <- Hrun.
    + by destruct Ho.
Qed.

(** ** Exiting and terminating *)

(** Waking several threads up never fails. *)
Lemma wake_all_wp tids0 s : inv (pm s) ->
  wp (PM.wake_all tids0) s (fun o s' => o = Ok tt /\ moved (pm s) (pm s') /\ inv (pm s') /\
    RunningProcess.get_tid <$> running (pm s') = RunningProcess.get_tid <$> running (pm s) /\
    same_rest s s').
Proof.
  revert s. induction tids0 as [|tid l IH]; intros s Hi; cbn [PM.wake_all]; [by ksteps|].
  wstep. wstep. eapply wp_mono; [by apply do_wakeup_wp|].
  intros [[]|e|] s1 [Ho Hrest]; [| |done].
  - destruct Ho as (now & _ & Hm & Hi1 & Hr). eapply wp_mono; [by apply IH|].
    intros o s2 (-> & Hm2 & Hi2 & Hr2 & Hrest2). splits; [done|by transitivity (pm s1)|done| |].
    + by rewrite Hr2.
    + destruct Hrest as (?&?&?&?), Hrest2 as (?&?&?&?). unfold same_rest. splits; congruence.
  - ksteps. destruct Ho as (_ & Hp & _). eapply wp_mono; [apply IH; by rewrite Hp|].
    intros o s2 (-> & Hm2 & Hi2 & Hr2 & Hrest2). rewrite Hp in Hm2, Hr2. splits; [done..|].
    destruct Hrest as (?&?&?&?), Hrest2 as (?&?&?&?). unfold same_rest. splits; congruence.
Qed.

(** [exit] of a process nobody waits for in a rendezvous. *)
Lemma do_exit_wp s r status : inv (pm s) -> stack_intact s ->
  running (pm s) = Some r -> ppid r <> KERNEL_PID ->
  Pending.counterparts (pending s) (ppid r) = [] ->
  wp (PM.do_exit status) s (fun o s' => switch_result o s s' /\
    (ppid r, (run_state (rp_running r), Szombie status)) ∈ table (pm s')).
Proof.
  intros Hi Hst Hr Hne Hc. pose proof (inv_ready _ _ Hi Hr Hne) as Hk.
  unfold PM.do_exit. wstep. apply wp_check_guard; [done|].
  wstep. apply (wp_take_running s r); [done|].
  destruct (Z.eqb_spec (ps_pid (rp_state r)) KERNEL_PID); [done|].
  wstep. unfold PM.cleanup_rendezvous. ksteps. rewrite Pending.cleanup_process_spec. fields.
  change (ps_pid (rp_state r)) with (ppid r). rewrite Hc. cbn [PM.wake_all]. ksteps. apply wp_clock_now.
  set (now := reading _). pose proof (exit_view r status now) as Hv. wstep.
  destruct (RunningProcess.exit r status now) as [[q0 from]|[q0 from]]; ksteps.
  - destruct Hv as (He & Hin & _ & Hs & ->).
    assert (ppid q0 = ppid r) as Hpid.
    { unfold ppid. rewrite Hs. unfold ProcessState.set_pending_exit_status.
      by destruct (pending_exit_status _). }
    eapply wp_mono; [eapply (finish_switch s); try done|].
    + by apply (requeue_ready _ r Hr).
    + fields. rewrite fmap_app. set_solver.
    + apply (inv_interrupted _ Hi).
    + intros o s' (q & tda & -> & Hsw & Hrow). ksteps. split; [by eexists _, _, q, _|].
      apply Hrow; [done|]. rewrite <- Hpid. apply row_ready; [fields; set_solver|done].
  - destruct Hv as (He & Hin & Hs & _ & ->).
    assert (ppid q0 = ppid r) as Hpid by (unfold ppid; by rewrite Hs).
    eapply wp_mono; [eapply (finish_switch s); try done|].
    + by apply (requeue_zombie _ r Hr).
    + apply (inv_interrupted _ Hi).
    + intros o s' (q & tda & -> & Hsw & Hrow). ksteps. split; [by eexists _, _, q, _|].
      apply Hrow; [done|]. rewrite <- Hpid. apply row_zombie; [fields; set_solver|done].
Qed.

(** [exit] of a process some thread waits for: the manager has no running process
    when it looks for that thread. *)
Lemma do_exit_panics s r status : stack_intact s ->
  running (pm s) = Some r -> Pending.counterparts (pending s) (ppid r) <> [] ->
  wp (PM.do_exit status) s (fun o s' => o = Panic).
Proof.
  intros Hst Hr Hc. unfold PM.do_exit. wstep. apply wp_check_guard; [done|].
  wstep. apply (wp_take_running s r); [done|].
  destruct (Z.eqb_spec (ps_pid (rp_state r)) KERNEL_PID); [done|].
  wstep. unfold PM.cleanup_rendezvous. ksteps. rewrite Pending.cleanup_process_spec. fields.
  change (ps_pid (rp_state r)) with (ppid r).
  destruct (Pending.counterparts (pending s) (ppid r)) as [|tid l]; [done|]. ksteps.
  cbn [PM.wake_all]. wstep. wstep. unfold PM.do_wakeup, PM.get_running. ksteps. fields. by ksteps.
Qed.

(** The manager after a thread has exited and its process has been put away. *)
Definition put_exited p (o : RunningProcess.Exited) (d : option ZombieThread) : ProcessManager :=
  let p := PM.with_running None p in
  let p := match o with
           | RunningProcess.ExitedRunnable _ q _ => PM.with_ready (ready p ++ [q]) p
           | RunningProcess.ExitedSleeping _ q _ => PM.with_suspended (suspended p ++ [q]) p
           | RunningProcess.ExitedZombie _ q _ => PM.with_zombies (zombies p ++ [q]) p
           end in
  PM.with_deferred (deferred_reap p ++ ((fun z => (exited_pid o, z)) <$> option_list d)) p.

Lemma put_exited_table p r o d : running p = Some r -> exited_pid o = ppid r ->
  let R := tables (ready p) ++ tables (suspended p) ++ tables (interrupted p) ++ tables (zombies p) ++
           (deferred_row <$> deferred_reap p) in
  table p = ptable r ++ R /\
  table (put_exited p o d) ≡ₚ
    (pair (ppid r) <$> (exited_view o ++ (e_zombie <$> option_list d))) ++ R /\
  pids (put_exited p o d) ≡ₚ pids p.
Proof.
  intros Hr Ho R. splits; [table; by rewrite Hr| |].
  - rewrite fmap_app. assert (deferred_row <$> ((fun z => (exited_pid o, z)) <$> option_list d) =
      pair (ppid r) <$> (e_zombie <$> option_list d)) as Hd by (rewrite Ho; by destruct d).
    unfold put_exited, R. destruct o as [jc q ctx|jc q ctx|jc q ctx]; table; rewrite Hd;
      cbn [exited_view]; unfold exited_pid in Ho; unfold ptable; rewrite Ho; solve_Permutation.
  - unfold put_exited. destruct o as [jc q ctx|jc q ctx|jc q ctx]; table; rewrite Hr;
      cbn [exited_pid from_option] in *; simpl; rewrite Ho; solve_Permutation.
Qed.

Lemma put_exited_moved p r o d : running p = Some r -> exited_pid o = ppid r ->
  evolve (pview r) (exited_view o ++ (e_zombie <$> option_list d)) -> moved p (put_exited p o d).
Proof.
  intros Hr Ho He. destruct (put_exited_table p r o d Hr Ho) as (Ht & Ht' & Hp).
  constructor; [by symmetry| |by destruct o..].
  rewrite Ht, Ht'. apply tevolve_app; [|reflexivity]. unfold ptable.
  eapply pointwise_fmap; [|exact He]. intros x y Hxy. by split.
Qed.

(** The result of [exit_thread]. *)
Definition exit_thread_result
    (o : res Error (ProcessIdentifier * ThreadIdentifier * Condvar * Context * Context * option VirtualAddress))
    s r s' : Prop :=
  exists to q tda,
    o = Ok (ppid q, RunningProcess.get_tid q, join_cond (run_state (rp_running r)),
            RunningProcess.get_tid r, to, tda) /\
    switched s s' (RunningProcess.get_tid r) to q.

Lemma do_exit_thread_wp s r status : inv (pm s) -> stack_intact s ->
  running (pm s) = Some r -> ppid r <> KERNEL_PID ->
  wp (PM.do_exit_thread status) s (fun o s' => exit_thread_result o s r s' /\
    (ppid r, (run_state (rp_running r), Szombie status)) ∈ table (pm s') /\
    forall tid, sleeps tid (pm s) -> sleeps tid (pm s')).
Proof.
  intros Hi Hst Hr Hne. pose proof (inv_ready _ _ Hi Hr Hne) as Hk.
  unfold PM.do_exit_thread. wstep. apply wp_check_guard; [done|].
  wstep. apply (wp_take_running s r); [done|].
  destruct (Z.eqb_spec (ps_pid (rp_state r)) KERNEL_PID); [done|].
  wstep. apply wp_clock_now. set (now := reading _). wstep.
  pose proof (exit_thread_view r status now) as Hv. unfold exit_thread_post in Hv.
  destruct (RunningProcess.exit_thread r status now) as [[o d]|e|] eqn:Eo; [|done|done].
  destruct Hv as (He & Hin & Hpid & Hrefs & Hz). ksteps.
  pose proof (put_exited_moved (pm s) r o d Hr Hpid He) as Hm.
  destruct (put_exited_table (pm s) r o d Hr Hpid) as (Ht & Ht' & _).
  set (p1 := put_exited (pm s) o d) in *.
  eapply wp_mono with (P := fun o1 s1 =>
    o1 = Ok (join_cond (run_state (rp_running r)), RunningProcess.get_tid r) /\ pm s1 = p1 /\ same_current s s1).
  { unfold p1, put_exited. destruct o as [jc q ctx|jc q ctx|jc q ctx]; injection Hrefs as <- <-.
    - ksteps. destruct d as [z|]; unfold PM.push_deferred; ksteps; splits; try done; fields.
      by rewrite app_nil_r.
    - ksteps. destruct d as [z|]; unfold PM.push_deferred; ksteps; splits; try done; fields.
      by rewrite app_nil_r.
    - destruct Hz as (-> & _ & _). ksteps. splits; try done. fields. by rewrite app_nil_r. }
  intros o1 s1 (-> & Hp1 & Hc1). wstep. eapply wp_mono; [eapply (finish_switch s s1 r); try done|].
  - by rewrite Hp1.
  - rewrite Hp1. by destruct o.
  - rewrite Hp1. unfold p1, put_exited. destruct o; fields; rewrite ?fmap_app; set_solver.
  - rewrite Hp1. unfold p1, put_exited. destruct o; apply (inv_interrupted _ Hi).
  - intros o2 s' (q & tda & -> & Hsw & Hrow). ksteps. split; [by eexists _, q, tda|].
    split; [apply Hrow; [done|]; rewrite Hp1, Ht', elem_of_app; left; apply list_elem_of_fmap; eauto|].
    intros tid (pid & ts & a & Hin' & Hts). exists pid, ts, a. split; [|done]. apply Hrow; [done|].
    rewrite Hp1, Ht', elem_of_app. rewrite Ht, elem_of_app in Hin'.
    destruct Hin' as [(e & [= -> <-] & He')%list_elem_of_fmap|?]; [|by right].
    left. rewrite fmap_app, elem_of_app. left. apply list_elem_of_fmap. eexists. split; [done|].
    exact (exit_thread_sleepers _ _ _ _ _ _ _ Eo He').
Qed.

(** The process has been terminated: none of its threads sleeps. *)
Definition torn_down (pid : ProcessIdentifier) p : Prop :=
  (exists q, q ∈ ready p /\ ppid q = pid /\ awake (pview q)) \/
  (exists q, q ∈ interrupted p /\ ppid q = pid /\ awake (pview q)) \/
  (exists q, q ∈ zombies p /\ ppid q = pid).

Definition terminate_outcome (pid : ProcessIdentifier) s (o : res Error unit) s' : Prop :=
  moved (pm s) (pm s') /\ inv (pm s') /\
  RunningProcess.get_tid <$> running (pm s') = RunningProcess.get_tid <$> running (pm s) /\
  globals s' = globals s /\
  match o with
  | Ok _ => pid <> KERNEL_PID /\ torn_down pid (pm s')
  | Err e =>
    (pid = KERNEL_PID \/ exists r, running (pm s) = Some r /\ ppid r = pid) /\ s' = s \/
    code e = NoSuchProcess /\ (pid ∉ ppid <$> ready (pm s')) /\ (pid ∉ ppid <$> suspended (pm s'))
  | Panic => False
  end.

(** A ready process that is terminated. *)
Lemma terminate_ready_moved p (x : RunnableProcess) l : ready p ≡ₚ x :: l ->
  match RunnableProcess.terminate x with
  | inl ip => forall now, let q := InterruptedProcess.resume ip now in
      moved p (PM.with_ready (l ++ [q]) p) /\ ppid q = ppid x /\ awake (pview q)
  | inr z => moved p (PM.with_zombies (zombies p ++ [z]) (PM.with_ready l p)) /\ ppid z = ppid x
  end.
Proof.
  intros Hl. pose proof (runnable_terminate_view x) as Hv.
  destruct (RunnableProcess.terminate x) as [ip|z].
  - intros now. cbv zeta. destruct Hv as (He & Hs & Hn). destruct (resume_evolve ip now) as [He' Hs'].
    set (q := InterruptedProcess.resume ip now) in *.
    assert (ppid q = ppid x) as Hq by (unfold ppid; by rewrite Hs', Hs).
    splits; [|done|by apply awake_resume].
    constructor; try done; [table; rewrite Hl; simpl; rewrite Hq; solve_Permutation|].
    apply (replace_evolve x q _ _ (from_option ptable [] (running p) ++ tables l ++
      tables (suspended p) ++ tables (interrupted p) ++ tables (zombies p) ++
      (deferred_row <$> deferred_reap p))); [..|by transitivity (pview ip)|done];
      table; rewrite ?Hl, ?tables_cons; solve_Permutation.
  - destruct Hv as (He & Hs & _).
    assert (ppid z = ppid x) as Hq by (unfold ppid; by rewrite Hs). split; [|done].
    constructor; try done; [table; rewrite Hl; simpl; rewrite Hq; solve_Permutation|].
    apply (replace_evolve x z _ _ (from_option ptable [] (running p) ++ tables l ++
      tables (suspended p) ++ tables (interrupted p) ++ tables (zombies p) ++
      (deferred_row <$> deferred_reap p))); [..|done|done];
      table; rewrite ?Hl, ?tables_cons; solve_Permutation.
Qed.

Lemma terminate_suspended_moved p (x : SleepingProcess) l : suspended p ≡ₚ x :: l ->
  let q := SleepingProcess.terminate x in
  moved p (PM.with_interrupted (interrupted p ++ [q]) (PM.with_suspended l p)) /\
  ppid q = ppid x /\ ip_sleeping q = None.
Proof.
  intros Hl q. destruct (sleeping_terminate_view x) as (He & Hs & Hn). fold q in He, Hs, Hn.
  assert (ppid q = ppid x) as Hq by (unfold ppid; by rewrite Hs). splits; [|done|done].
  constructor; try done; [table; rewrite Hl; simpl; rewrite Hq; solve_Permutation|].
  apply (replace_evolve x q _ _ (from_option ptable [] (running p) ++ tables (ready p) ++ tables l ++
    tables (interrupted p) ++ tables (zombies p) ++ (deferred_row <$> deferred_reap p))); [..|done|done];
    table; rewrite ?Hl, ?tables_cons; solve_Permutation.
Qed.

(** Cleaning up the rendezvous of a process that does not run. *)
Lemma cleanup_rendezvous_wp pid s : inv (pm s) ->
  wp (PM.cleanup_rendezvous pid) s (fun o s' => o = Ok tt /\ moved (pm s) (pm s') /\ inv (pm s') /\
    RunningProcess.get_tid <$> running (pm s') = RunningProcess.get_tid <$> running (pm s) /\
    globals s' = globals s).
Proof.
  intros Hi. unfold PM.cleanup_rendezvous. ksteps. rewrite Pending.cleanup_process_spec. ksteps.
  eapply wp_mono; [by apply wake_all_wp|]. intros o s' (?&?&?&?&(_ & _ & _ & ?)). by splits.
Qed.

Lemma position_none_pid {P} `{!ProcessLike P} (l : list P) pid :
  NonEmpty.position (fun q => ps_pid (pstate q) =? pid) l = None -> pid ∉ ppid <$> l.
Proof.
  intros H. pose proof (NonEmpty.position_spec (fun q => ps_pid (pstate q) =? pid) l) as Hp.
  rewrite H in Hp. intros (q & -> & Hq)%list_elem_of_fmap. rewrite Forall_forall in Hp.
  specialize (Hp q Hq). simpl in Hp. unfold ppid in Hp. lia.
Qed.

(** A terminated process is still the same process to the scheduler, unless it was
    the kernel, which is refused. *)
Lemma terminate_wp pid s : inv (pm s) -> wp (PM.terminate pid) s (terminate_outcome pid s).
Proof.
  intros Hi. unfold PM.terminate, terminate_outcome.
  destruct (Z.eqb_spec pid KERNEL_PID) as [->|Hne]; [ksteps; splits; [done..|]; left; auto|].
  ksteps. destruct (inv_running _ Hi) as [r Hr]. rewrite Hr. cbn [from_option].
  destruct (Z.eqb_spec (ps_pid (rp_state r)) pid) as [Hp|Hp].
  { ksteps. splits; [done|done|by rewrite Hr|done|]. left. split; [|done]. right. by exists r. }
  wstep. eapply wp_mono; [by apply cleanup_rendezvous_wp|]. intros o s1 (-> & Hm & Hi1 & Hr1 & Hg1). ksteps.
  pose proof (inv_kernel _ Hi1) as Hk. unfold schedulable in Hk. rewrite elem_of_app in Hk.
  destruct (NonEmpty.position (fun q => ps_pid (rn_state q) =? pid) (ready (pm s1))) as [i|] eqn:Ep.
  { destruct (NonEmpty.vec_remove_position _ _ _ Ep) as (x & -> & Hx%Z.eqb_eq & Hl). ksteps.
    pose proof (terminate_ready_moved (pm s1) x _ Hl) as Ht.
    assert (KERNEL_PID ∈ from_option (fun r => [ppid r]) [] (running (pm s1)) \/
            KERNEL_PID ∈ ppid <$> delete i (ready (pm s1))) as Hk'.
    { assert (ppid x <> KERNEL_PID) by (unfold ppid, pstate; simpl; congruence).
      rewrite Hl, fmap_cons, elem_of_cons in Hk. destruct Hk as [?|[?|?]]; [by left|congruence|by right]. }
    destruct (RunnableProcess.terminate x) as [ip|z].
    - ksteps. apply wp_clock_now. ksteps. fields. destruct (Ht (reading (reads s1))) as (Hmt & Hq & Ha).
      set (q := InterruptedProcess.resume ip _) in *. fields.
      splits; [by transitivity (pm s1)| |by rewrite Hr1, Hr|done|done|].
      + apply (moved_inv (pm s1)); [done|exact Hmt|apply Hi1| |apply (inv_interrupted _ Hi1)].
        unfold schedulable. fields. rewrite fmap_app, !elem_of_app. tauto.
      + left. exists q. fields. splits; [set_solver|by rewrite Hq|done].
    - ksteps. fields. destruct Ht as [Hmt Hq].
      splits; [by transitivity (pm s1)| |by rewrite Hr1, Hr|done|done|].
      + apply (moved_inv (pm s1)); [done|exact Hmt|apply Hi1| |apply (inv_interrupted _ Hi1)].
        unfold schedulable. fields. rewrite elem_of_app. tauto.
      + right; right. exists z. fields. split; [set_solver|by rewrite Hq]. }
  pose proof (position_none_pid (ready (pm s1)) pid Ep) as Hnr. ksteps.
  destruct (NonEmpty.position (fun q => ps_pid (sp_state q) =? pid) (suspended (pm s1))) as [i|] eqn:Es.
  - destruct (NonEmpty.vec_remove_position _ _ _ Es) as (x & -> & Hx%Z.eqb_eq & Hl). ksteps. fields.
    destruct (terminate_suspended_moved (pm s1) x _ Hl) as (Hmt & Hq & Hn).
    set (q := SleepingProcess.terminate x) in *. fields.
    splits; [by transitivity (pm s1)| |by rewrite Hr1, Hr|done|done|].
    + apply (moved_inv (pm s1)); [done|exact Hmt|apply Hi1|apply Hi1|]. fields.
      apply Forall_app. split; [apply Hi1|by constructor].
    + right; left. exists q. fields. splits; [set_solver|by rewrite Hq|by apply awake_interrupted].
  - pose proof (position_none_pid (suspended (pm s1)) pid Es) as Hns. ksteps.
    splits; [done|done|by rewrite Hr1, Hr|done|]. by right.
Qed.

End Switching.
