(* ===== verification/ManagerOps.v ===== *)
(** * Process manager: creating, reaping and updating

    The operations of the process manager that create threads and processes, reap
    them, or change the state of a process, against the invariant. *)

From S2P Require Import Prelude Error Config Addr NonEmpty Mailbox UserSpace VirtMem Str Thread Process.
From S2P Require Import ProcessView Pending ProcManager ManagerInv.
#[local] Open Scope Z_scope.

Section Creation.
Context {CF : Config} {HC : ConfigOk} {VM : VirtMem} {CK : Clock}.
Implicit Types (s : Kernel) (p : ProcessManager).

(** ** Code that does not touch the manager *)

Lemma wp_on_process_vmem {A} st (m : M (Vmem * MM) Error A) s (Q : res Error (A * ProcessState) → Kernel → Prop) :
  (forall a v s', pm s' = pm s -> globals s' = globals s -> Q (Ok (a, ProcessState.with_vmem v st)) s') ->
  (forall e s', pm s' = pm s -> globals s' = globals s -> Q (Err e) s') -> (~ returns m -> Q Panic s) ->
  wp (PM.on_vmem st m) s Q.
Proof.
  intros HOk HErr HP. unfold PM.on_vmem. ksteps.
  destruct (m (vmem st, mm s)) as [[a|e|] [v mem]] eqn:Em; ksteps; [by apply HOk|by apply HErr|].
  apply HP. intros Hr. apply (Hr (vmem st, mm s)). by rewrite Em.
Qed.

Lemma wp_with_new_vmem {A} v (m : M (Vmem * MM) Error A) s (Q : res Error (A * Vmem) → Kernel → Prop) :
  (forall a v' s', (m (v, mm s)).1 = Ok a -> pm s' = pm s -> globals s' = globals s -> Q (Ok (a, v')) s') ->
  (forall e s', pm s' = pm s -> globals s' = globals s -> Q (Err e) s') -> (~ returns m -> Q Panic s) ->
  wp (PM.with_new_vmem v m) s Q.
Proof.
  intros HOk HErr HP. unfold PM.with_new_vmem. ksteps.
  destruct (m (v, mm s)) as [[a|e|] [v' mem]] eqn:Em; ksteps; [apply HOk; by rewrite ?Em|by apply HErr|].
  apply HP. intros Hr. apply (Hr (v, mm s)). by rewrite Em.
Qed.

Lemma wp_on_mm {A} (m : M MM Error A) s (Q : res Error A → Kernel → Prop) :
  (forall a s', pm s' = pm s -> globals s' = globals s -> Q (Ok a) s') ->
  (forall e s', pm s' = pm s -> globals s' = globals s -> Q (Err e) s') ->
  returns m -> wp (PM.on_mm m) s Q.
Proof.
  intros HOk HErr Hr. unfold PM.on_mm. wstep. unfold wp. specialize (Hr (mm s)).
  destruct (m (mm s)) as [[a|e|] mem]; [by apply HOk|by apply HErr|done].
Qed.

Lemma wp_tm_create_thread tid ks us tda s (Q : res Error ReadyThread → Kernel → Prop) :
  (forall jc now s', pm s' = pm s -> globals s' = globals s -> Q (Ok (Thread.ready_new tid ks us tda jc now)) s') ->
  wp (PM.tm_create_thread tid ks us tda) s Q.
Proof. intros HQ. unfold PM.tm_create_thread. wsteps. by apply HQ. Qed.

Lemma forge_returns args :
  is_user_region (user_stack_base args) (user_stack_size args) = true ->
  is_user_addr (user_fn args) = true -> returns (PM.forge_user_context args).
Proof.
  intros H1 H2 [v m]. unfold PM.forge_user_context. rewrite H1, H2. cbn [andb].
  unfold mbind, M_bind, zoom. cbn [snd]. pose proof (kstack_new_returns m) as Hk.
  destruct (kstack_new m) as [[ks|e|] m']; [|done|done]. cbn.
  pose proof (pgdir_physical_address_returns v). by destruct (pgdir_physical_address v).
Qed.

(** ** The manager with a new thread or process *)

(** The thread counters after a thread has been created. *)
Definition tm_next (t : ThreadManager) : ThreadManager :=
  mkThreadManager (next_id t + 1) (tm_live_count t + 1).

Lemma wp_commit_next_tid t tid n s (Q : res Error unit → Kernel → Prop) :
  tm (pm s) = t -> ThreadManager.try_next_tid t = Ok (tid, n) ->
  Q (Ok tt) (PM.with_pm (PM.with_tm (tm_next t) (pm s)) s) ->
  wp (PM.on_tm (ThreadManager.commit_next_tid n)) s Q.
Proof.
  intros <- H HQ. apply ThreadManager.try_next_tid_spec in H as (_ & -> & _ & Hl).
  unfold PM.on_tm, ThreadManager.commit_next_tid. wsteps.
  rewrite usize_add_ok; [by wsteps|]. pose proof max_threads_bound. lia.
Qed.

(** Adding a row with the next thread identifier keeps the invariant. *)
Lemma inv_add_thread p p' row : inv p ->
  table p' ≡ₚ row :: table p -> row_tid row = next_id (tm p) -> tm p' = tm_next (tm p) ->
  tm_live_count (tm p) < MAX_THREADS -> 0 <= next_id (tm p) -> row_stack_ok row ->
  Forall row_stack_ok (table p') /\ NoDup (tids p') /\ Forall (fun t => 0 <= t < next_id (tm p')) (tids p') /\
  Z.of_nat (length (tids p')) <= tm_live_count (tm p') /\ tm_live_count (tm p') <= MAX_THREADS.
Proof.
  intros Hi Ht Hrow Htm Hlt Hpos Hst.
  assert (tids p' ≡ₚ next_id (tm p) :: tids p) as Htid by (unfold tids; by rewrite Ht, <- Hrow).
  pose proof (inv_tid_range _ Hi) as Hr. pose proof (inv_threads _ Hi).
  split; [rewrite Ht; constructor; [done|apply Hi]|].
  splits; rewrite ?Htid, ?Htm; cbn [tm_next next_id tm_live_count]; try lia.
  - apply NoDup_cons. split; [|apply Hi]. intros Hin. rewrite Forall_forall in Hr.
    specialize (Hr _ Hin). lia.
  - constructor; [lia|]. eapply Forall_impl; [exact Hr|]. simpl. lia.
  - rewrite length_cons. lia.
Qed.

Lemma next_id_pos p : inv p -> 0 < next_id (tm p).
Proof.
  intros Hi. destruct (inv_running _ Hi) as [r Hr]. pose proof (inv_tid_range _ Hi) as Ht.
  rewrite Forall_forall in Ht. specialize (Ht (RunningProcess.get_tid r)).
  enough (RunningProcess.get_tid r ∈ tids p) by (specialize (Ht H); lia).
  apply list_elem_of_fmap. exists (ppid r, e_running (rp_running r)). split; [done|].
  apply row_running; [done|left].
Qed.

Lemma next_pid_pos p : inv p -> 0 < next_pid p.
Proof.
  intros Hi. destruct (inv_running _ Hi) as [r Hr]. pose proof (inv_pid_range _ Hi) as Ht.
  rewrite Forall_forall in Ht. specialize (Ht (ppid r)).
  enough (ppid r ∈ pids p) by (specialize (Ht H); lia).
  unfold pids. rewrite Hr. left.
Qed.

(** Changing the state of the running process but not its identifier. *)
Lemma with_state_table p r st : running p = Some r -> ps_pid st = ppid r ->
  let p' := PM.with_running (Some (RunningProcess.with_state st r)) p in
  table p' = table p /\ pids p' = pids p /\ schedulable p' = schedulable p.
Proof.
  intros Hr Hp p'. unfold p', schedulable. table. rewrite Hr. cbn [from_option].
  assert (ppid (RunningProcess.with_state st r) = ppid r) as Hpid by done.
  unfold ptable. by rewrite Hpid.
Qed.

Lemma with_state_inv p r st : inv p -> running p = Some r -> ps_pid st = ppid r ->
  inv (PM.with_running (Some (RunningProcess.with_state st r)) p).
Proof.
  intros Hi Hr Hp. destruct (with_state_table p r st Hr Hp) as (Ht & Hpids & Hsc).
  apply (moved_inv p); [done| |done|rewrite Hsc; apply Hi|apply Hi].
  constructor; try done; [by rewrite Hpids|by rewrite Ht].
Qed.

(** The manager after a thread has been added to the running process. *)
Lemma add_thread_inv p r st t : inv p -> running p = Some r -> ps_pid st = ppid r ->
  ts_id (rdy_state t) = next_id (tm p) -> user_stack (rdy_state t) = None ->
  tm_live_count (tm p) < MAX_THREADS ->
  let r' := RunningProcess.add_thread (RunningProcess.with_state st r) t in
  let p' := PM.with_running (Some r') (PM.with_tm (tm_next (tm p)) p) in
  inv p' /\ pids p' = pids p /\ table p' ≡ₚ (ppid r, e_ready t) :: table p.
Proof.
  intros Hi Hr Hst Hid Hus Hlive r' p'. assert (ppid r' = ppid r) as Hp' by done.
  assert (table p' ≡ₚ (ppid r, e_ready t) :: table p) as Ht.
  { unfold p'. table. rewrite Hr. cbn [from_option]. unfold ptable. rewrite Hp'.
    destruct (add_thread_view (RunningProcess.with_state st r) t) as [Hv _]. fold r' in Hv.
    by rewrite Hv. }
  assert (pids p' = pids p) as Hpids by (unfold p'; table; rewrite Hr; cbn [from_option]; by rewrite Hp').
  assert (0 <= next_id (tm p)) by (pose proof (next_id_pos p Hi); lia).
  destruct (inv_add_thread p p' _ Hi Ht Hid eq_refl Hlive) as (Hstk & H1 & H2 & H3 & H4);
    [done|unfold row_stack_ok; simpl; by rewrite Hus|].
  splits; [|done|done]. destruct (inv_caps _ Hi).
  constructor; rewrite ?Hpids; try done; try apply Hi. pose proof (inv_kernel _ Hi) as Hk.
  unfold schedulable in *. rewrite Hr in Hk. unfold p'. fields. cbn [from_option] in *.
  by rewrite Hp'.
Qed.

(** The assertions of [create_thread] and [forge_user_context]. *)
Definition create_thread_args_ok (r : RunningProcess) pid args : Prop :=
  is_user_addr (user_fn args) = true /\
  is_user_region (user_stack_base args) (user_stack_size args) = true /\ ppid r = pid.

Definition create_thread_outcome s r pid args (o : res Error ThreadIdentifier) s' : Prop :=
  match o with
  | Ok tid => inv (pm s') /\ same_running s s' /\ tid = next_id (tm (pm s)) /\
      pids (pm s') = pids (pm s) /\
      exists ts now, ts_id ts = tid /\ table (pm s') ≡ₚ (pid, (ts, Sready now)) :: table (pm s)
  | Err _ => inv (pm s') /\ same_running s s' /\ table (pm s') = table (pm s)
  | Panic => ~ create_thread_args_ok r pid args
  end.

Lemma create_thread_wp s r pid args : inv (pm s) -> running (pm s) = Some r ->
  wp (PM.create_thread pid args) s (create_thread_outcome s r pid args).
Proof.
  intros Hi Hr. unfold PM.create_thread. wstep. apply (wp_get_running s r); [done|].
  destruct (is_user_addr (user_fn args) && (ps_pid (rp_state r) =? pid)) eqn:Ea.
  2: { ksteps. intros (H1 & _ & H3). unfold ppid, pstate in H3. simpl in H3. rewrite H1, H3 in Ea.
       simpl in Ea. lia. }
  apply andb_prop in Ea as [Hfn Hpid%Z.eqb_eq].
  ksteps. destruct (ThreadManager.try_next_tid (tm (pm s))) as [[tid nt]|e|] eqn:Et; [|done|].
  2: { by apply ThreadManager.try_next_tid_returns in Et. }
  pose proof (ThreadManager.try_next_tid_spec _ _ _ Et) as (-> & Hnt & _ & Hlive).
  wstep. apply wp_on_process_vmem.
  - intros ks v s1 Hp1 Hg1. ksteps. apply wp_tm_create_thread. intros jc now s2 Hp2 Hg2. ksteps.
    set (r1 := RunningProcess.with_state _ r) in *. rewrite Hp1 in Hp2.
    apply (wp_commit_next_tid (tm (pm s)) (next_id (tm (pm s))) nt); [by rewrite Hp2|done|].
    wstep. apply (wp_get_running _ r1); [by rewrite Hp2|]. ksteps. fields. rewrite Hp2. fields.
    set (t := Thread.ready_new _ _ _ _ _ _).
    destruct (add_thread_inv (pm s) r (ProcessState.with_vmem v (rp_state r)) t Hi Hr eq_refl eq_refl eq_refl Hlive)
      as (Hinv & Hpids & Ht).
    unfold create_thread_outcome. fields. splits; [exact Hinv| |done|exact Hpids|].
    { split; fields; [by rewrite Hr|by rewrite Hg2, <- Hg1]. }
    eexists _, now. split; [reflexivity|].
    rewrite <- Hpid. exact Ht.
  - intros e s1 Hp1 Hg1. unfold create_thread_outcome, same_running. by rewrite Hp1.
  - intros Hn (_ & Her & _). apply Hn. by apply forge_returns.
Qed.

(** ** New processes *)

Lemma try_next_pid_spec p a b : PM.try_next_pid p = Ok (a, b) -> a = next_pid p /\ b = next_pid p + 1.
Proof.
  unfold PM.try_next_pid, i32_checked_add. destruct (_ && _); [|done]. by intros [= <- <-].
Qed.

Lemma try_next_pid_returns p : PM.try_next_pid p <> Panic.
Proof. unfold PM.try_next_pid. by destruct (i32_checked_add _ _). Qed.

(** The manager after a process has been admitted. *)
Definition admitted p t v : ProcessManager :=
  PM.with_ready (ready p ++ [RunnableProcess.new (next_pid p) t v])
    (PM.with_live_count (live_count p + 1)
       (PM.with_tm (tm_next (tm p)) (PM.with_next_pid (next_pid p + 1) p))).

Lemma wp_admit_process p pid np tid nt t v s (Q : res Error unit → Kernel → Prop) :
  pm s = p -> PM.try_next_pid p = Ok (pid, np) -> ThreadManager.try_next_tid (tm p) = Ok (tid, nt) ->
  live_count p < MAX_PROCESSES ->
  (forall s', pm s' = admitted p t v -> globals s' = globals s -> Q (Ok tt) s') -> wp (PM.admit_process pid np nt t v) s Q.
Proof.
  intros Hs Hp Ht Hl HQ. apply try_next_pid_spec in Hp as [-> ->].
  unfold PM.admit_process. ksteps.
  apply (wp_commit_next_tid (tm p) tid nt); [by rewrite Hs|done|]. ksteps. fields. rewrite Hs.
  pose proof max_processes_bound. rewrite usize_add_ok by width. ksteps. by apply HQ.
Qed.

Lemma admitted_inv p t v : inv p -> ts_id (rdy_state t) = next_id (tm p) ->
  row_stack_ok (next_pid p, e_ready t) ->
  live_count p < MAX_PROCESSES -> tm_live_count (tm p) < MAX_THREADS ->
  let p' := admitted p t v in
  inv p' /\ pids p' ≡ₚ next_pid p :: pids p /\ table p' ≡ₚ (next_pid p, e_ready t) :: table p.
Proof.
  intros Hi Hid Hus Hl Hlive p'.
  assert (table p' ≡ₚ (next_pid p, e_ready t) :: table p) as Ht.
  { unfold p', admitted. table. unfold ptable at 3. simpl. solve_Permutation. }
  assert (pids p' ≡ₚ next_pid p :: pids p) as Hpids.
  { unfold p', admitted. table. simpl. unfold ppid at 3. simpl. solve_Permutation. }
  pose proof (next_id_pos p Hi). pose proof (next_pid_pos p Hi).
  destruct (inv_add_thread p p' _ Hi Ht Hid eq_refl Hlive) as (Hstk & H1 & H2 & H3 & H4); [lia|done|].
  splits; [|done|done]. pose proof (inv_pid_range _ Hi) as Hpr. destruct (inv_caps _ Hi).
  constructor; try done; try apply Hi.
  - pose proof (inv_kernel _ Hi) as Hk. unfold schedulable in *. unfold p', admitted. fields.
    rewrite fmap_app, !elem_of_app in *. tauto.
  - rewrite Hpids. apply NoDup_cons. split; [|apply Hi]. intros Hin. rewrite Forall_forall in Hpr.
    specialize (Hpr _ Hin). lia.
  - rewrite Hpids. constructor; [simpl; lia|]. eapply Forall_impl; [exact Hpr|]. simpl. lia.
  - rewrite Hpids, length_cons. pose proof (inv_live _ Hi). simpl. lia.
  - split; [|done]. simpl. lia.
Qed.

(** What creating a process does. *)
Definition create_outcome s (o : res Error ProcessIdentifier) s' : Prop :=
  match o with
  | Ok pid => inv (pm s') /\ same_running s s' /\ pid = next_pid (pm s) /\ pids (pm s') ≡ₚ pid :: pids (pm s) /\
      exists ts now, ts_id ts = next_id (tm (pm s)) /\
        table (pm s') ≡ₚ (pid, (ts, Sready now)) :: table (pm s)
  | Err _ => inv (pm s') /\ same_running s s' /\ table (pm s') = table (pm s) /\ pids (pm s') = pids (pm s)
  | Panic => True
  end.

(** The end of process creation: [p1] is the manager before, up to address spaces. *)
Lemma admit_outcome s p1 pid np tid nt ks us tda v s1 (Q : res Error ProcessIdentifier → Kernel → Prop) :
  PM.try_next_pid (pm s) = Ok (pid, np) -> ThreadManager.try_next_tid (tm (pm s)) = Ok (tid, nt) ->
  live_count (pm s) < MAX_PROCESSES ->
  inv p1 -> table p1 = table (pm s) -> pids p1 = pids (pm s) -> tm p1 = tm (pm s) ->
  next_pid p1 = next_pid (pm s) -> live_count p1 = live_count (pm s) -> pm s1 = p1 ->
  run_key <$> running p1 = run_key <$> running (pm s) -> globals s1 = globals s ->
  from_option (fun u => us_base u = mkPageAligned (mkVirtualAddress USER_STACK_TOP_RAW)) True us ->
  (forall s', create_outcome s (Ok pid) s' -> Q (Ok pid) s') ->
  wp (t ← PM.tm_create_thread tid ks us tda; PM.admit_process pid np nt t v;; mret pid) s1 Q.
Proof.
  intros Ep Et Hl Hi Ht Hpids Htm Hnp Hlc Hs1 Hrk Hg Hus HQ.
  pose proof (ThreadManager.try_next_tid_spec _ _ _ Et) as (-> & _ & _ & Hlive).
  wstep. apply wp_tm_create_thread. intros jc now s2 Hp2 Hg2. wstep.
  eapply (wp_admit_process p1); [by rewrite Hp2| |by rewrite Htm|by rewrite Hlc|].
  { unfold PM.try_next_pid in *. by rewrite Hnp. }
  intros s3 Hp3 Hg3. ksteps. apply HQ. pose proof (try_next_pid_spec _ _ _ Ep) as [-> _].
  unfold create_outcome. rewrite Hp3. set (t := Thread.ready_new _ _ _ _ _ _).
  destruct (admitted_inv p1 t v Hi) as (H1 & H2 & H3); [by rewrite Htm|done|by rewrite Hlc|by rewrite Htm|].
  rewrite Hpids, Hnp in H2. rewrite Ht, Hnp in H3.
  splits; [done| |done..|]; [|by exists (rdy_state t), now].
  split; [by rewrite Hp3|by rewrite Hg3, Hg2].
Qed.

(** The stack of the first thread of a process. *)
Lemma build_image_stack elf args env v0 ks us :
  (PM.build_image elf args env v0).1 = Ok (ks, us) ->
  us_base us = mkPageAligned (mkVirtualAddress USER_STACK_TOP_RAW).
Proof.
  intros H. eapply (wp_run (PM.build_image elf args env) v0 (fun o _ => o = Ok (ks, us) -> us_base us = _));
    [|by apply surjective_pairing|done].
  unfold PM.build_image. wstep. apply wp_any. intros [[entry va]|e|] s1; [|done..].
  destruct (_ <? _); [done|]. do 2 (wstep; apply wp_any; intros [?|e|] ?; [|done..]).
  destruct (_ <? _); [done|]. do 4 (wstep; apply wp_any; intros [?|e|] ?; [|done..]).
  change (PageAligned_from_address (mkVirtualAddress USER_STACK_TOP_RAW))
    with (@Ok Error _ (mkPageAligned (mkVirtualAddress USER_STACK_TOP_RAW))).
  wsteps. do 2 (apply wp_any; intros [?|e|] ?; [|done..]; wsteps). by intros [= _ <-].
Qed.

Lemma create_process_wp s elf args env : inv (pm s) ->
  wp (PM.create_process elf args env) s (fun o s' => create_outcome s o s' /\
    (o = Panic -> ~ returns (PM.build_image elf (Str.trim args) (Str.trim env)))).
Proof.
  intros Hi. destruct (inv_running _ Hi) as [r Hr].
  assert (forall e s', pm s' = pm s -> globals s' = globals s -> create_outcome s (Err e) s' /\
    (@Err Error ProcessIdentifier e = Panic -> ~ returns (PM.build_image elf (Str.trim args) (Str.trim env))))
    as Herr by (intros e s' Hp Hg; unfold create_outcome, same_running; by rewrite Hp).
  unfold PM.create_process. ksteps. destruct (Z.leb_spec MAX_PROCESSES (live_count (pm s))); [by apply Herr|].
  ksteps. destruct (PM.try_next_pid (pm s)) as [[pid np]|e|] eqn:Ep; [|by apply Herr|].
  2: by apply try_next_pid_returns in Ep.
  ksteps. destruct (ThreadManager.try_next_tid (tm (pm s))) as [[tid nt]|e|] eqn:Et; [|by apply Herr|].
  2: by apply ThreadManager.try_next_tid_returns in Et.
  destruct (Str.contains_nul (Str.trim args)); [by apply Herr|].
  destruct (Str.contains_nul (Str.trim env)); [by apply Herr|].
  wstep. apply (wp_get_running s r); [done|].
  wstep. apply wp_on_mm; [|intros; by apply Herr|apply new_vmem_returns]. intros v s1 Hp1 Hg1.
  wstep. apply wp_with_new_vmem; [|intros e s2 Hp2 Hg2; apply Herr; [by rewrite Hp2|by rewrite Hg2]|].
  2: by split.
  intros [ks us] v' s2 Hb Hp2 Hg2. apply build_image_stack in Hb.
  eapply (admit_outcome s (pm s)); try done; [by rewrite Hp2, Hp1|by rewrite Hg2, Hg1].
Qed.

(** Sharing pages changes address spaces only. *)
Lemma wp_link_process_pages v s r (Q : res Error Vmem → Kernel → Prop) :
  running (pm s) = Some r ->
  (forall v' w s', pm s' = PM.with_running (Some (RunningProcess.with_state
     (ProcessState.with_vmem w (rp_state r)) r)) (pm s) -> globals s' = globals s -> Q (Ok v') s') ->
  (forall e w s', pm s' = PM.with_running (Some (RunningProcess.with_state
     (ProcessState.with_vmem w (rp_state r)) r)) (pm s) -> globals s' = globals s -> Q (Err e) s') ->
  wp (PM.link_pages v) s Q.
Proof.
  intros Hr HOk HErr. unfold PM.link_pages. wstep. apply (wp_get_running s r); [done|]. ksteps.
  pose proof (link_user_pages_returns (vmem (rp_state r), v, mm s)) as Hl.
  destruct (link_user_pages _) as [[a|e|] [[pv v'] mem]]; [..|done]; ksteps;
    [by eapply HOk|by eapply HErr].
Qed.

Lemma duplicate_process_wp s r pid args : inv (pm s) -> running (pm s) = Some r ->
  wp (PM.duplicate_process pid args) s (fun o s' => create_outcome s o s' /\ (o = Panic -> ppid r <> pid)).
Proof.
  intros Hi Hr. unfold PM.duplicate_process. wstep. apply (wp_get_running s r); [done|].
  destruct (Z.eqb_spec (ps_pid (rp_state r)) pid) as [Hpid|Hpid]; cbn [negb]; [|by ksteps].
  set (Q := fun _ _ => _).
  assert (forall e, Q (Err e) s) as Herr by done.
  destruct (is_user_addr (user_fn args)) eqn:Ef; cbn [negb]; [|by apply Herr].
  destruct (is_user_region _ _) eqn:Er; cbn [negb]; [|by apply Herr].
  destruct (from_option _ _ _); [by apply Herr|].
  destruct (ProcessState.has_special_resources _); [by apply Herr|].
  ksteps. destruct (Z.leb_spec MAX_PROCESSES (live_count (pm s))); [by apply Herr|].
  ksteps. destruct (PM.try_next_pid (pm s)) as [[cpid np]|e|] eqn:Ep; [|by apply Herr|].
  2: by apply try_next_pid_returns in Ep.
  ksteps. destruct (ThreadManager.try_next_tid (tm (pm s))) as [[tid nt]|e|] eqn:Et; [|by apply Herr|].
  2: by apply ThreadManager.try_next_tid_returns in Et.
  assert (forall w e s', pm s' = PM.with_running (Some (RunningProcess.with_state
     (ProcessState.with_vmem w (rp_state r)) r)) (pm s) -> globals s' = globals s -> Q (Err e) s') as Herr'.
  { intros w e s' Hp Hg. split; [|done]. unfold create_outcome, same_running. rewrite Hp.
    destruct (with_state_table (pm s) r (ProcessState.with_vmem w (rp_state r)) Hr eq_refl) as (?&?&_).
    splits; [by apply with_state_inv|simpl; by rewrite Hr|done|done|done]. }
  wstep. apply wp_on_mm; [|intros e s1 Hp1 Hg1; split; [unfold create_outcome, same_running; by rewrite Hp1|done]|apply new_vmem_returns].
  intros v s1 Hp1 Hg1. wstep. rewrite <- Hp1 in Hr. apply (wp_link_process_pages v s1 r _ Hr).
  2: { intros e w s2 Hp2 Hg2. apply (Herr' w); [by rewrite Hp2, Hp1|by rewrite Hg2]. }
  intros v' w s2 Hp2 Hg2. rewrite Hp1 in Hp2, Hr. wstep. apply wp_with_new_vmem.
  2: { intros e s3 Hp3 Hg3. apply (Herr' w); [by rewrite Hp3|by rewrite Hg3, Hg2]. }
  2: { intros Hn. exfalso. apply Hn. by apply forge_returns. }
  intros ks v2 s3 _ Hp3 Hg3.
  destruct (with_state_table (pm s) r (ProcessState.with_vmem w (rp_state r)) Hr eq_refl) as (Ht & Hpids & _).
  eapply (admit_outcome s _ cpid np tid nt); [done..| |exact Ht|exact Hpids|done|done|done|by rewrite Hp3|simpl; by rewrite Hr|by rewrite Hg3, Hg2|done|].
  - by apply with_state_inv.
  - intros s' Ho. by split.
Qed.

End Creation.
