(* ===== verification/ManagerState.v ===== *)
(** * Process manager: the states of the processes

    Looking a process up by its identifier and changing its state where it was
    found.  [states] is the abstract content of the manager for these operations;
    they change the state of one process and leave the table of threads alone. *)

From S2P Require Import Prelude Error Config Addr NonEmpty Mailbox UserSpace VirtMem Str Thread Process.
From S2P Require Import ProcessView Pending ProcManager ManagerInv.
#[local] Open Scope Z_scope.

(** ** Capabilities are a set *)

#[global] Instance Capability_eq_dec : EqDecision Capability.
Proof. solve_decision. Defined.

Lemma Capability_value_range c : 0 <= Capability_value c < 8.
Proof. destruct c; simpl; lia. Qed.

Lemma Capability_value_eqb c c' : (Capability_value c =? Capability_value c') = bool_decide (c = c').
Proof. by destruct c, c'. Qed.

Lemma has_testbit caps c : Capabilities.has caps c = Z.testbit caps (Capability_value c).
Proof.
  unfold Capabilities.has. pose proof (Capability_value_range c). set (k := Capability_value c) in *.
  rewrite Z.shiftl_1_l.
  assert (Z.land caps (2 ^ k) = if Z.testbit caps k then 2 ^ k else 0) as ->.
  { apply Z.bits_inj'. intros n Hn. rewrite Z.land_spec, Z.pow2_bits_eqb by lia.
    destruct (Z.eqb_spec k n) as [<-|Hne].
    - destruct (Z.testbit caps k); [|by rewrite Z.bits_0]. by rewrite Z.pow2_bits_true by lia.
    - rewrite andb_false_r. destruct (Z.testbit caps k); [|by rewrite Z.bits_0].
      by rewrite Z.pow2_bits_false by lia. }
  destruct (Z.testbit caps k); [|done].
  destruct (Z.eqb_spec (2 ^ k) 0); [|done]. assert (0 < 2 ^ k) by (apply Z.pow_pos_nonneg; lia). lia.
Qed.

Lemma has_set caps c c' :
  Capabilities.has (Capabilities.set caps c) c' = bool_decide (c = c') || Capabilities.has caps c'.
Proof.
  rewrite !has_testbit. unfold Capabilities.set. rewrite Z.lor_spec, Z.shiftl_1_l, Z.pow2_bits_eqb
    by apply Capability_value_range. rewrite Capability_value_eqb. apply orb_comm.
Qed.

Lemma has_clear caps c c' :
  Capabilities.has (Capabilities.clear caps c) c' = negb (bool_decide (c = c')) && Capabilities.has caps c'.
Proof.
  rewrite !has_testbit. unfold Capabilities.clear. rewrite Z.land_spec, andb_comm. f_equal.
  by destruct c, c'.
Qed.

(** ** The states of all processes *)
Section States.
Context {CF : Config} {VM : VirtMem} {CK : Clock}.
Implicit Types (s : Kernel) (p : ProcessManager) (pid : ProcessIdentifier).

Definition states p : list ProcessState :=
  from_option (fun r => [pstate r]) [] (running p) ++ (pstate <$> ready p) ++ (pstate <$> suspended p) ++
  (pstate <$> interrupted p) ++ (pstate <$> zombies p).

(** The state of the process with a given identifier. *)
Definition state_of pid p : option ProcessState := List.find (fun st => ps_pid st =? pid) (states p).

Lemma pids_states p : pids p = ps_pid <$> states p.
Proof.
  unfold pids, states. rewrite !fmap_app, <- !list_fmap_compose. f_equal. by destruct (running p).
Qed.

Lemma state_of_pid pid p st : state_of pid p = Some st -> ps_pid st = pid /\ st ∈ states p.
Proof. intros [Hin Heq]%List.find_some. split; [lia|by apply list_elem_of_In]. Qed.

Lemma state_of_none pid p : state_of pid p = None <-> pid ∉ pids p.
Proof.
  rewrite pids_states. unfold state_of. split.
  - intros H (st & -> & Hin)%list_elem_of_fmap.
    apply list_elem_of_In in Hin. pose proof (List.find_none _ _ H _ Hin) as Hn. simpl in Hn. lia.
  - intros Hn. destruct (List.find _ _) as [st|] eqn:E; [|done].
    apply List.find_some in E as [Hin%list_elem_of_In Heq%Z.eqb_eq]. destruct Hn.
    apply list_elem_of_fmap. by exists st.
Qed.

Lemma state_of_elem pid p st : NoDup (pids p) -> st ∈ states p -> ps_pid st = pid ->
  state_of pid p = Some st.
Proof.
  rewrite pids_states. intros Hn Hin Hp. destruct (state_of pid p) as [st'|] eqn:E.
  - apply state_of_pid in E as [Hp' Hin']. f_equal. apply (NoDup_key ps_pid (states p)); congruence.
  - apply state_of_none in E. destruct E. rewrite pids_states. apply list_elem_of_fmap. by exists st.
Qed.

(** ** Looking up *)

(** What a reference refers to. *)
Definition refers p (r : ProcessRef) : Prop :=
  match r with
  | PRunning q => running p = Some q
  | PRunnable q => q ∈ ready p
  | PSleeping q => q ∈ suspended p
  | PInterrupted q => q ∈ interrupted p
  | PZombie q => q ∈ zombies p
  end.

Lemma refers_state p r : refers p r -> PM.ref_state r ∈ states p.
Proof.
  unfold states. rewrite !elem_of_app. destruct r as [q|q|q|q|q]; simpl.
  - intros ->. left. simpl. left.
  - intros H. right; left. apply list_elem_of_fmap. eauto.
  - intros H. do 2 right; left. apply list_elem_of_fmap. eauto.
  - intros H. do 3 right; left. apply list_elem_of_fmap. eauto.
  - intros H. do 4 right. apply list_elem_of_fmap. eauto.
Qed.

(** The outcome of a search for the process [pid]. *)
Definition lookup_outcome s pid (o : res Error ProcessRef) s' : Prop :=
  s' = s /\
  match o with
  | Ok r => refers (pm s) r /\ ps_pid (PM.ref_state r) = pid
  | Err e => e = PM.process_not_found /\ pid ∉ pids (pm s)
  | Panic => False
  end.

Lemma find_pid_none {P} `{!ProcessLike P} (l : list P) pid :
  List.find (fun q => ps_pid (pstate q) =? pid) l = None -> pid ∉ ppid <$> l.
Proof.
  intros H (q & -> & Hin)%list_elem_of_fmap. apply list_elem_of_In in Hin.
  pose proof (List.find_none _ _ H _ Hin) as Hn. simpl in Hn. unfold ppid in Hn. lia.
Qed.

Lemma find_process_wp s r pid : running (pm s) = Some r ->
  wp (PM.find_process pid) s (lookup_outcome s pid).
Proof.
  intros Hr. unfold PM.find_process, lookup_outcome. wstep. apply (wp_get_running s r); [done|].
  destruct (Z.eqb_spec (ps_pid (rp_state r)) pid) as [Hp|Hp]; [by ksteps|]. ksteps.
  destruct (List.find _ (ready _)) as [q|] eqn:E1;
    [ksteps; apply List.find_some in E1 as [H1%list_elem_of_In H2%Z.eqb_eq]; by splits|].
  destruct (List.find _ (suspended _)) as [q|] eqn:E2;
    [ksteps; apply List.find_some in E2 as [H1%list_elem_of_In H2%Z.eqb_eq]; by splits|].
  destruct (List.find _ (interrupted _)) as [q|] eqn:E3;
    [ksteps; apply List.find_some in E3 as [H1%list_elem_of_In H2%Z.eqb_eq]; by splits|].
  destruct (List.find _ (zombies _)) as [q|] eqn:E4;
    [ksteps; apply List.find_some in E4 as [H1%list_elem_of_In H2%Z.eqb_eq]; by splits|].
  ksteps. splits; [done..|]. unfold pids. rewrite Hr. cbn [from_option]. rewrite !elem_of_app, list_elem_of_singleton.
  pose proof (find_pid_none (ready (pm s)) pid E1). pose proof (find_pid_none (suspended (pm s)) pid E2).
  pose proof (find_pid_none (interrupted (pm s)) pid E3). pose proof (find_pid_none (zombies (pm s)) pid E4).
  assert (pid <> ppid r) by (intros ->; by apply Hp). tauto.
Qed.

(** ** Changing a state in place *)

(** Every process keeps its state but [pid], whose state becomes [st]. *)
Definition assign pid (st x : ProcessState) : ProcessState := if ps_pid x =? pid then st else x.

Lemma assign_other {P} `{!ProcessLike P} pid st (l : list P) :
  pid ∉ ppid <$> l -> assign pid st <$> (pstate <$> l) = pstate <$> l.
Proof.
  intros Hn. induction l as [|x l IH]; [done|]. rewrite fmap_cons, not_elem_of_cons in Hn.
  destruct Hn as [Hx Hl]. rewrite !fmap_cons, IH by done. f_equal. unfold assign.
  destruct (Z.eqb_spec (ps_pid (pstate x)) pid); [by destruct Hx|done].
Qed.

Lemma assign_running pid st p : pid ∉ from_option (fun r => [ppid r]) [] (running p) ->
  assign pid st <$> from_option (fun r => [pstate r]) [] (running p) =
  from_option (fun r => [pstate r]) [] (running p).
Proof. destruct (running p) as [r|]; [|done]. exact (assign_other pid st [r]). Qed.

(** The update of the process with a given identifier in a list. *)
Lemma update_first_states {P} `{!ProcessLike P} pid st (c : P → bool) (f : P → P) l :
  (forall x, c x = (ppid x =? pid)) -> NoDup (ppid <$> l) -> ps_pid st = pid ->
  (forall x, pstate (f x) = st /\ pview (f x) = pview x) ->
  let l' := update_first c f l in
  pstate <$> l' = assign pid st <$> (pstate <$> l) /\ tables l' = tables l /\ ppid <$> l' = ppid <$> l.
Proof.
  intros Hc Hn Hst Hf. induction l as [|x l IH]; [done|]. cbn [update_first]. rewrite Hc.
  rewrite fmap_cons, NoDup_cons in Hn. destruct Hn as [Hx Hn].
  destruct (Z.eqb_spec (ppid x) pid) as [Hp|Hp].
  - destruct (Hf x) as [Hs Hv]. assert (ppid (f x) = ppid x) as Hpf by (unfold ppid at 1; by rewrite Hs, Hp).
    rewrite !fmap_cons, !tables_cons, Hpf, Hs. unfold ptable. rewrite Hpf, Hv. splits; [|done..].
    rewrite assign_other by (by rewrite <- Hp). unfold assign. fold (ppid x). by rewrite (proj2 (Z.eqb_eq _ _) Hp).
  - destruct (IH Hn) as (H1 & H2 & H3). rewrite !fmap_cons, !tables_cons, H1, H2, H3. splits; [|done..].
    unfold assign at 2. fold (ppid x). by rewrite (proj2 (Z.eqb_neq _ _) Hp).
Qed.

(** The state of one process has changed, nothing else of the manager. *)
Record restated pid st p p' : Prop := {
  rs_states : states p' = assign pid st <$> states p;
  rs_table : table p' = table p;
  rs_sched : schedulable p' = schedulable p;
  rs_tm : tm p' = tm p;
  rs_next_pid : next_pid p' = next_pid p;
  rs_live : live_count p' = live_count p;
  rs_messages : number_buffered_messages p' = number_buffered_messages p;
  rs_deferred : deferred_reap p' = deferred_reap p;
  rs_running : RunningProcess.get_tid <$> running p' = RunningProcess.get_tid <$> running p;
  rs_sleeping : ip_sleeping <$> interrupted p' = ip_sleeping <$> interrupted p
}.

Lemma restated_pids pid st p p' : restated pid st p p' -> ps_pid st = pid -> pids p' = pids p.
Proof.
  intros [Hs _ _ _ _ _ _ _ _ _] Hp. rewrite !pids_states, Hs, <- list_fmap_compose.
  apply list_fmap_ext. intros i x _. unfold assign, compose. destruct (Z.eqb_spec (ps_pid x) pid); congruence.
Qed.

Lemma restated_inv pid st p p' : restated pid st p p' -> ps_pid st = pid -> inv p -> inv p'.
Proof.
  intros Hr Hp Hi. pose proof (restated_pids _ _ _ _ Hr Hp) as Hpids. destruct Hr.
  apply (moved_inv p); [done| | |rewrite rs_sched0; apply Hi|].
  - constructor; try done; [by rewrite Hpids|by rewrite rs_table0].
  - destruct (inv_running _ Hi) as [r Hr]. rewrite Hr in rs_running0. by destruct (running p').
  - assert (Forall (fun o => o = None) (ip_sleeping <$> interrupted p')) as H.
    { rewrite rs_sleeping0. apply Forall_fmap, Hi. }
    by apply Forall_fmap in H.
Qed.

Lemma restated_running pid st s s' : restated pid st (pm s) (pm s') -> is_Some (running (pm s)) ->
  run_key <$> running (pm s') = run_key <$> running (pm s).
Proof.
  intros [_ _ Hsc _ _ _ _ _ Hr _] [r Hr']. unfold schedulable in Hsc. rewrite Hr' in *.
  destruct (running (pm s')) as [r1|]; [|done]. injection Hr as Ht. injection Hsc as Hp _.
  simpl. unfold run_key. by rewrite Ht, Hp.
Qed.

(** What the manager knows of each process afterwards. *)
Lemma restated_state_of pid st p p' pid' : restated pid st p p' -> ps_pid st = pid ->
  state_of pid' p' = if pid' =? pid then (fun _ => st) <$> state_of pid p else state_of pid' p.
Proof.
  intros [Hs _ _ _ _ _ _ _ _ _] Hp. unfold state_of. rewrite Hs. clear Hs.
  induction (states p) as [|x l IH]; [by destruct (pid' =? pid)|].
  rewrite fmap_cons. cbn [List.find]. rewrite IH. unfold assign. zbool; try done; congruence.
Qed.

(** An identifier occurs in one of the lists only. *)
Lemma NoDup_apart {A} (x : A) a b c d e : NoDup (a ++ b ++ c ++ d ++ e) ->
  (x ∈ a -> x ∉ b ++ c ++ d ++ e) /\ (x ∈ b -> x ∉ a ++ c ++ d ++ e) /\
  (x ∈ c -> x ∉ a ++ b ++ d ++ e) /\ (x ∈ d -> x ∉ a ++ b ++ c ++ e) /\
  (x ∈ e -> x ∉ a ++ b ++ c ++ d).
Proof.
  rewrite !NoDup_app. intros (_ & H1 & _ & H2 & _ & H3 & _ & H4 & _).
  specialize (H1 x). specialize (H2 x). specialize (H3 x). specialize (H4 x).
  rewrite !elem_of_app in H1. rewrite !elem_of_app in H2. rewrite !elem_of_app in H3.
  rewrite !elem_of_app. tauto.
Qed.

(** Show the parts of an updated manager. *)
#[local] Ltac restate := unfold states, schedulable; table; fields.

Lemma put_state_wp s r st pid (Q : res Error unit → Kernel → Prop) :
  inv (pm s) -> refers (pm s) r -> ps_pid (PM.ref_state r) = pid -> ps_pid st = pid ->
  (forall s', restated pid st (pm s) (pm s') -> frame s s' -> Q (Ok tt) s') ->
  wp (PM.put_state r st) s Q.
Proof.
  intros Hi Hr Hpid Hst HQ. pose proof (inv_pids _ Hi) as Hn. unfold pids in Hn.
  pose proof (NoDup_apart pid _ _ _ _ _ Hn) as (Hd1 & Hd2 & Hd3 & Hd4 & Hd5).
  rewrite !NoDup_app in Hn. destruct Hn as (_ & _ & Hn2 & _ & Hn3 & _ & Hn4 & _ & Hn5).
  assert (forall P (PL : ProcessLike P) (l : list P) q, q ∈ l -> ppid q = pid -> pid ∈ ppid <$> l) as Hin.
  { intros P PL l q Hq <-. apply list_elem_of_fmap. eauto. }
  unfold PM.put_state. rewrite Hpid. destruct r as [q|q|q|q|q]; simpl in Hr; ksteps; apply HQ; try done; fields.
  - rewrite Hr in *. cbn [from_option] in *.
    assert (pid ∈ [ppid q]) as Hd%Hd1 by (rewrite <- Hpid; left). rewrite !not_elem_of_app in Hd.
    destruct Hd as (?&?&?&?). assert (ppid (RunningProcess.with_state st q) = ppid q) as Hq by by rewrite <- Hpid in Hst.
    constructor; restate; rewrite ?Hr; try done; cbn [from_option]; unfold ptable; rewrite ?Hq; try done.
    rewrite ?fmap_app, ?assign_other by done. f_equal. rewrite list_fmap_singleton. f_equal. unfold assign.
    destruct (Z.eqb_spec (ps_pid (pstate q)) pid); [done|by destruct (n Hpid)].
  - pose proof (Hd2 (Hin _ _ _ _ Hr Hpid)) as Hd. rewrite !not_elem_of_app in Hd. destruct Hd as (?&?&?&?).
    set (f := (fun x => _) : RunnableProcess → RunnableProcess).
    destruct (update_first_states pid st (fun x => ps_pid (rn_state x) =? pid) f (ready (pm s))) as (Hs & Ht & Hp); [done..|].
    constructor; restate; rewrite ?fmap_app, <- ?Hs, ?Ht, ?Hp, ?assign_running, ?assign_other by done; try done.
  - pose proof (Hd3 (Hin _ _ _ _ Hr Hpid)) as Hd. rewrite !not_elem_of_app in Hd. destruct Hd as (?&?&?&?).
    set (f := (fun x => _) : SleepingProcess → SleepingProcess).
    destruct (update_first_states pid st (fun x => ps_pid (sp_state x) =? pid) f (suspended (pm s))) as (Hs & Ht & Hp); [done..|].
    constructor; restate; rewrite ?fmap_app, <- ?Hs, ?Ht, ?Hp, ?assign_running, ?assign_other by done; try done.
  - pose proof (Hd4 (Hin _ _ _ _ Hr Hpid)) as Hd. rewrite !not_elem_of_app in Hd. destruct Hd as (?&?&?&?).
    set (f := (fun x => _) : InterruptedProcess → InterruptedProcess).
    destruct (update_first_states pid st (fun x => ps_pid (ip_state x) =? pid) f (interrupted (pm s))) as (Hs & Ht & Hp); [done..|].
    constructor; restate; rewrite ?fmap_app, <- ?Hs, ?Ht, ?Hp, ?assign_running, ?assign_other by done; try done.
    generalize (interrupted (pm s)). induction l as [|x l IH]; [done|]. cbn [update_first].
    destruct (_ =? _); [done|]. rewrite !fmap_cons. f_equal. exact IH.
  - pose proof (Hd5 (Hin _ _ _ _ Hr Hpid)) as Hd. rewrite !not_elem_of_app in Hd. destruct Hd as (?&?&?&?).
    set (f := (fun x => _) : ZombieProcess → ZombieProcess).
    destruct (update_first_states pid st (fun x => ps_pid (zp_state x) =? pid) f (zombies (pm s))) as (Hs & Ht & Hp); [done..|].
    constructor; restate; rewrite ?fmap_app, <- ?Hs, ?Ht, ?Hp, ?assign_running, ?assign_other by done; try done.
Qed.

(** ** Operations on the state of a process *)

Lemma refers_state_of p r pid : inv p -> refers p r -> ps_pid (PM.ref_state r) = pid ->
  state_of pid p = Some (PM.ref_state r).
Proof. intros Hi Hr Hp. by apply state_of_elem; [apply Hi|apply refers_state|]. Qed.

Lemma has_capability_eq s pid c : inv (pm s) ->
  PM.has_capability pid c s =
  (match state_of pid (pm s) with
   | Some st => Ok (ProcessState.has_capability c st)
   | None => Err PM.process_not_found
   end, s).
Proof.
  intros Hi. destruct (inv_running _ Hi) as [r Hr].
  apply (wp_run' (PM.has_capability pid c)). unfold PM.has_capability. wstep.
  eapply wp_mono; [by apply (find_process_wp s r)|]. intros [q|e|] s' [-> Ho]; [..|done].
  - destruct Ho as [Hq Hp]. ksteps. by rewrite (refers_state_of (pm s) q).
  - destruct Ho as [-> Hn]. by rewrite (proj2 (state_of_none pid (pm s))).
Qed.

(** What changing a capability does. *)
Definition capctl_outcome s pid c (b : bool) (o : res Error unit) s' : Prop :=
  match state_of pid (pm s) with
  | None => o = Err PM.process_not_found /\ s' = s
  | Some st =>
    if eqb (ProcessState.has_capability c st) b
    then is_ok o = false /\ o <> Panic /\ s' = s
    else o = Ok tt /\ frame s s' /\
      exists st', restated pid st' (pm s) (pm s') /\ ps_pid st' = pid /\
      forall c', ProcessState.has_capability c' st' =
                 if bool_decide (c = c') then b else ProcessState.has_capability c' st
  end.

Lemma capctl_wp s pid c b : inv (pm s) -> wp (PM.capctl pid c b) s (capctl_outcome s pid c b).
Proof.
  intros Hi. destruct (inv_running _ Hi) as [r Hr]. unfold PM.capctl, capctl_outcome. wstep.
  eapply wp_mono; [by apply (find_process_wp s r)|]. intros [q|e|] s' [-> Ho]; [..|done].
  2: { destruct Ho as [-> Hn]. by rewrite (proj2 (state_of_none pid (pm s))). }
  destruct Ho as [Hq Hp]. rewrite (refers_state_of (pm s) q) by done. set (st := PM.ref_state q) in *.
  destruct b, (ProcessState.has_capability c st) eqn:Eh; cbn [eqb negb]; ksteps; try done.
  - apply (put_state_wp s q _ pid); try done. intros s' Hrs Hf. splits; [done..|].
    eexists. splits; [exact Hrs|done|]. intros c'. unfold ProcessState.has_capability. simpl.
    rewrite has_set. by destruct (bool_decide (c = c')).
  - apply (put_state_wp s q _ pid); try done. intros s' Hrs Hf. splits; [done..|].
    eexists. splits; [exact Hrs|done|]. intros c'. unfold ProcessState.has_capability. simpl.
    rewrite has_clear. by destruct (bool_decide (c = c')).
Qed.

(** ** Messages *)

(** The threads of the process a reference refers to. *)
Definition ref_tids (r : ProcessRef) : list ThreadIdentifier :=
  match r with
  | PRunning q => ptids q
  | PRunnable q => ptids q
  | PSleeping q => ptids q
  | PInterrupted q => ptids q
  | PZombie q => ptids q
  end.

Lemma is_some_spec {A} (o : option A) : RunningProcess.is_some o = true <-> is_Some o.
Proof. by destruct o. Qed.

Lemma find_tid_some {P} `{!ProcessLike P, !FindsThreads P} (l : list P) tid q :
  List.find (fun q => RunningProcess.is_some (pfind q tid)) l = Some q -> q ∈ l /\ tid ∈ ptids q.
Proof.
  intros [Hin Hq]%List.find_some. split; [by apply list_elem_of_In|]. by apply pfind_spec, is_some_spec.
Qed.

Lemma find_process_by_tid_wp s tid : inv (pm s) ->
  wp (PM.find_process_by_tid tid) s (fun o s' => s' = s /\
    match o with
    | Ok r => refers (pm s) r /\ tid ∈ ref_tids r
    | Err e => e = PM.thread_not_found
    | Panic => False
    end).
Proof.
  intros Hi. destruct (inv_running _ Hi) as [r Hr]. unfold PM.find_process_by_tid. wstep.
  apply (wp_get_running s r); [done|].
  destruct (RunningProcess.is_some (RunningProcess.find_thread r tid)) eqn:E0.
  { ksteps. splits; [done..|]. by apply (pfind_spec r tid), is_some_spec. }
  ksteps.
  destruct (List.find _ (ready _)) as [q|] eqn:E1; [ksteps; by pose proof (find_tid_some (ready (pm s)) tid q E1)|].
  destruct (List.find _ (suspended _)) as [q|] eqn:E2; [ksteps; by pose proof (find_tid_some (suspended (pm s)) tid q E2)|].
  destruct (List.find _ (interrupted _)) as [q|] eqn:E3; [ksteps; by pose proof (find_tid_some (interrupted (pm s)) tid q E3)|].
  destruct (List.find _ (zombies _)) as [q|] eqn:E4; [ksteps; by pose proof (find_tid_some (zombies (pm s)) tid q E4)|].
  by ksteps.
Qed.

(** A process that a receiver denotes. *)
Definition denotes p (receiver : Z) (r : ProcessRef) : Prop :=
  match as_id receiver with
  | inl pid => ps_pid (PM.ref_state r) = pid
  | inr tid => tid ∈ ref_tids r
  end.

Definition post_outcome s receiver m (o : res Error unit) s' : Prop :=
  match o with
  | Ok _ => frame s s' /\ exists r p1, refers (pm s) r /\ denotes (pm s) receiver r /\
      restated (ps_pid (PM.ref_state r)) (ProcessState.post_message m (PM.ref_state r)) (pm s) p1 /\
      pm s' = PM.with_messages (number_buffered_messages (pm s) + 1) p1
  | Err e => s' = s \/ usize_max <= number_buffered_messages (pm s) /\ frame s s' /\ exists r,
      restated (ps_pid (PM.ref_state r)) (ProcessState.post_message m (PM.ref_state r)) (pm s) (pm s')
  | Panic => False
  end.

Lemma note_posted_wp s (Q : res Error unit → Kernel → Prop) :
  (number_buffered_messages (pm s) < usize_max ->
   Q (Ok tt) (PM.with_pm (PM.with_messages (number_buffered_messages (pm s) + 1) (pm s)) s)) ->
  (usize_max <= number_buffered_messages (pm s) -> forall e, Q (Err e) s) ->
  wp PM.note_message_posted s Q.
Proof.
  intros H1 H2. unfold PM.note_message_posted, checked_add. ksteps.
  destruct (Z.leb_spec (number_buffered_messages (pm s) + 1) usize_max); ksteps; [apply H1|apply H2]; lia.
Qed.

Lemma post_message_wp s receiver m : inv (pm s) ->
  wp (PM.post_message receiver m) s (post_outcome s receiver m).
Proof.
  intros Hi. destruct (inv_running _ Hi) as [r Hr]. unfold PM.post_message. wstep.
  eapply wp_mono with (P := fun o s' => s' = s /\
    match o with Ok q => refers (pm s) q /\ denotes (pm s) receiver q | Err _ => True | Panic => False end).
  { unfold denotes. destruct (as_id receiver) as [pid|tid].
    - eapply wp_mono; [by apply (find_process_wp s r)|]. intros [q|e|] s' [-> Ho]; tauto.
    - eapply wp_mono; [by apply find_process_by_tid_wp|]. intros [q|e|] s' [-> Ho]; tauto. }
  intros [q|e|] s' [-> Ho]; [destruct Ho as [Hq Hd]|by left|done].
  wstep. apply (put_state_wp s q _ (ps_pid (PM.ref_state q))); try done. intros s1 Hrs Hm.
  apply note_posted_wp; intros Hn; rewrite (rs_messages _ _ _ _ Hrs) in Hn.
  - split; [done|]. exists q, (pm s1). splits; try done. by rewrite (rs_messages _ _ _ _ Hrs).
  - intros e. right. splits; [done..|]. by exists q.
Qed.

(** A message that is received leaves the mailbox of the running process. *)
Definition recv_outcome s (r : RunningProcess) tid (o : res Error (option Message)) s' : Prop :=
  frame s s' /\
  let '(m, mbx) := Mailbox.receive (mailbox (rp_state r)) tid in
  exists p1, restated (ppid r) (ProcessState.with_mailbox mbx (rp_state r)) (pm s) p1 /\
    match m, o with
    | Some m, Ok (Some m') => m' = m /\ pm s' = PM.with_messages (number_buffered_messages (pm s) - 1) p1
    | Some m, Err _ => number_buffered_messages (pm s) < 1 /\ pm s' = p1
    | None, Ok None => pm s' = p1
    | _, _ => False
    end.

Lemma set_running_state_wp s r st (Q : res Error unit → Kernel → Prop) :
  inv (pm s) -> running (pm s) = Some r -> ps_pid st = ppid r ->
  (forall s', restated (ppid r) st (pm s) (pm s') -> frame s s' -> Q (Ok tt) s') ->
  wp (PM.set_running (RunningProcess.with_state st r)) s Q.
Proof. intros Hi Hr Hst HQ. by apply (put_state_wp s (PRunning r) st (ppid r)). Qed.

Lemma try_recv_wp s r tid : inv (pm s) -> running (pm s) = Some r ->
  wp (PM.try_recv tid) s (recv_outcome s r tid).
Proof.
  intros Hi Hr. unfold PM.try_recv, recv_outcome. wstep. apply (wp_get_running s r); [done|].
  unfold ProcessState.receive_message. destruct (Mailbox.receive _ tid) as [m mbx]. wstep.
  apply (set_running_state_wp s r); [done..|]. intros s1 Hrs Hf. destruct m as [m|]; [|ksteps; split; [done|]; by exists (pm s1)].
  unfold PM.note_message_received, checked_sub. ksteps.
  pose proof (rs_messages _ _ _ _ Hrs) as Hn. rewrite Hn.
  destruct (Z.leb_spec 1 (number_buffered_messages (pm s))); ksteps; (split; [done|]);
    exists (pm s1); splits; done || lia.
Qed.

(** Changing the events of the running process. *)
Definition event_outcome s (r : RunningProcess) (st : ProcessState) (o : res Error unit) s' : Prop :=
  o = Ok tt /\ frame s s' /\ restated (ppid r) st (pm s) (pm s').

Lemma add_event_wp s r ev : inv (pm s) -> running (pm s) = Some r ->
  wp (PM.add_event ev) s (event_outcome s r (ProcessState.add_event ev (rp_state r))).
Proof.
  intros Hi Hr. unfold PM.add_event. wstep. apply (wp_get_running s r); [done|].
  by apply (set_running_state_wp s r).
Qed.

Lemma remove_event_wp s r ev : inv (pm s) -> running (pm s) = Some r ->
  wp (PM.remove_event ev) s (event_outcome s r (ProcessState.remove_event ev (rp_state r))).
Proof.
  intros Hi Hr. unfold PM.remove_event. wstep. apply (wp_get_running s r); [done|].
  by apply (set_running_state_wp s r).
Qed.

End States.
