(* ===== verification/ManagerReap.v ===== *)
(** * Process manager: reaping

    Zombie threads are joined, detached or buried with their process; their stacks
    are given back and the thread manager is told.  None of these operations can
    panic, and each removes exactly the threads it reaps from the table. *)

From S2P Require Import Prelude Error Config Addr NonEmpty Mailbox UserSpace VirtMem Str Thread Process.
From S2P Require Import ProcessView Pending ProcManager ManagerInv ManagerOps ManagerState.
#[local] Open Scope Z_scope.

Section Reaping.
Context {CF : Config} {HC : ConfigOk} {VM : VirtMem} {CK : Clock}.
Implicit Types (s : Kernel) (p : ProcessManager).

(** ** Giving stacks back *)

Definition stack_ok (u : UserStack) : Prop :=
  us_base u = mkPageAligned (mkVirtualAddress USER_STACK_TOP_RAW).

Lemma us_top_ok u : stack_ok u -> us_top u = Ok (mkPageAligned (mkVirtualAddress USER_END_RAW)).
Proof. destruct u as [b]. unfold stack_ok. simpl. intros ->. by vm_compute. Qed.

Lemma unmap_pages_ok l vm :
  forallb (fun a => is_ok (PageAligned_from_address (mkVirtualAddress a))) l = true ->
  exists vm', PM.unmap_pages l vm = (Ok tt, vm').
Proof.
  revert vm. induction l as [|a l IH]; [by eexists|]. intros vm [Ha Hl]%andb_prop. cbn [PM.unmap_pages].
  destruct (PageAligned_from_address (mkVirtualAddress a)) as [va|e|]; [|done..].
  unfold mbind, M_bind, catch. pose proof (try_unmap_upage_returns va vm) as Hu.
  destruct (try_unmap_upage va vm) as [[b|e|] vm']; [apply (IH _ Hl)|apply (IH _ Hl)|done].
Qed.

(** Unmapping a stack always succeeds. *)
Lemma unmap_stack_ok u vm : stack_ok u -> exists vm', PM.unmap_stack u vm = (Ok tt, vm').
Proof.
  intros Hu. unfold PM.unmap_stack. rewrite (us_top_ok u Hu), Hu.
  apply (unmap_pages_ok (PM.stack_pages _ _)). by vm_compute.
Qed.

Lemma wp_unmap_stack st u s (Q : res Error (unit * ProcessState) → Kernel → Prop) : stack_ok u ->
  (forall v s', pm s' = pm s -> frame s s' -> Q (Ok (tt, ProcessState.with_vmem v st)) s') ->
  wp (PM.on_vmem st (PM.unmap_stack u)) s Q.
Proof.
  intros Hu HQ. unfold PM.on_vmem. ksteps.
  destruct (unmap_stack_ok u (vmem st, mm s) Hu) as [[v m] ->]. ksteps. by apply HQ.
Qed.

Lemma wp_drop_kstack ks s (Q : res Error unit → Kernel → Prop) :
  (forall s', pm s' = pm s -> frame s s' -> Q (Ok tt) s') -> wp (PM.drop_opt_kstack ks) s Q.
Proof. intros HQ. destruct ks; by apply HQ. Qed.

(** The thread counters after [n] threads have been reaped. *)
Definition tm_reaped (n : Z) (t : ThreadManager) : ThreadManager :=
  mkThreadManager (next_id t) (tm_live_count t - n).

Lemma with_tm_reaped n t p :
  PM.with_tm (tm_reaped n (tm_reaped 1 (tm p))) (PM.with_tm t p) = PM.with_tm (tm_reaped (1 + n) (tm p)) p.
Proof. unfold PM.with_tm, tm_reaped. cbn. do 2 f_equal. lia. Qed.

Lemma wp_reaped s (Q : res Error unit → Kernel → Prop) : 1 < tm_live_count (tm (pm s)) ->
  Q (Ok tt) (PM.with_pm (PM.with_tm (tm_reaped 1 (tm (pm s))) (pm s)) s) ->
  wp (PM.on_tm ThreadManager.on_thread_reaped) s Q.
Proof.
  intros Hl HQ. unfold PM.on_tm, ThreadManager.on_thread_reaped. wsteps.
  destruct (Z.ltb_spec 1 (tm_live_count (tm (pm s)))); [done|lia].
Qed.

(** ** Taking threads out of the table *)

(** The threads [rows] and the processes [ps] are gone; [n] of the threads have been
    counted off. *)
Record removed (rows : list Row) (ps : list ProcessIdentifier) (n : Z) p p' : Prop := {
  rm_table : table p ≡ₚ rows ++ table p';
  rm_pids : pids p ≡ₚ ps ++ pids p';
  rm_sched : schedulable p' = schedulable p;
  rm_running : is_Some (running p) -> is_Some (running p');
  rm_tm : tm p' = tm_reaped n (tm p);
  rm_next_pid : next_pid p' = next_pid p;
  rm_live : live_count p' = live_count p - Z.of_nat (length ps);
  rm_sleeping : ip_sleeping <$> interrupted p' = ip_sleeping <$> interrupted p
}.

(** At least [k] threads are counted that are not in the table any more. *)
Definition slack (k : nat) p : Prop := Z.of_nat (length (table p)) + Z.of_nat k <= tm_live_count (tm p).

Lemma inv_slack p : inv p -> slack 0 p.
Proof. intros Hi. pose proof (inv_threads _ Hi) as H. unfold tids in H. rewrite length_fmap in H. unfold slack. lia. Qed.

Lemma removed_slack rows ps n k m p p' : removed rows ps (Z.of_nat n) p p' -> slack k p ->
  (m + n <= k + length rows)%nat -> slack m p'.
Proof.
  intros [Ht _ _ _ Htm _ _ _] Hs Hm. unfold slack in *. rewrite Ht, length_app in Hs. rewrite Htm.
  cbn [tm_reaped tm_live_count]. lia.
Qed.

Lemma removed_inv rows ps n p p' : removed rows ps (Z.of_nat n) p p' -> slack 0 p' -> inv p -> inv p'.
Proof.
  intros [Ht Hp Hsc Hr Htm Hnp Hl Hsl] Hs Hi.
  assert (tids p ≡ₚ (row_tid <$> rows) ++ tids p') as Htid by (unfold tids; by rewrite Ht, fmap_app).
  pose proof (inv_tids _ Hi) as Hnd. pose proof (inv_pids _ Hi) as Hnp'. pose proof (inv_stacks _ Hi) as Hst.
  pose proof (inv_tid_range _ Hi) as Htr. pose proof (inv_pid_range _ Hi) as Hpr.
  pose proof (inv_live _ Hi) as Hlv. destruct (inv_caps _ Hi).
  rewrite Htid in Hnd, Htr. rewrite Hp in Hnp', Hpr, Hlv. rewrite Ht in Hst.
  apply NoDup_app in Hnd as (_ & _ & Hnd). apply NoDup_app in Hnp' as (_ & _ & Hnp').
  apply Forall_app in Htr, Hpr, Hst. rewrite length_app in Hlv.
  unfold slack in Hs. rewrite Htm in Hs. cbn [tm_reaped tm_live_count] in Hs.
  constructor; rewrite ?Htm, ?Hnp; cbn [tm_reaped next_id tm_live_count]; try tauto; try lia.
  - apply Hr, Hi.
  - rewrite Hsc. apply Hi.
  - unfold tids. rewrite length_fmap. lia.
  - assert (Forall (fun o => o = None) (ip_sleeping <$> interrupted p')) as H'.
    { rewrite Hsl. apply Forall_fmap, Hi. }
    by apply Forall_fmap in H'.
Qed.

Lemma removed_trans rows ps n rows' ps' n' p p' p'' :
  removed rows ps n p p' -> removed rows' ps' n' p' p'' ->
  removed (rows ++ rows') (ps ++ ps') (n + n') p p''.
Proof.
  intros [Ht Hp Hsc Hr Htm Hnp Hl Hsl] [Ht' Hp' Hsc' Hr' Htm' Hnp' Hl' Hsl'].
  constructor; try (rewrite <- ?app_assoc, <- ?Ht', <- ?Hp'; done || congruence).
  - auto.
  - rewrite Htm', Htm. unfold tm_reaped. cbn. f_equal. lia.
  - rewrite Hl', Hl, length_app. lia.
Qed.

Lemma removed_refl p : removed [] [] 0 p p.
Proof. constructor; try done; [|simpl; lia]. destruct p as [??????? ? [] ???]. unfold tm_reaped. cbn. f_equal. lia. Qed.

(** ** Burying a process *)

Definition zombie_ok (z : ZombieThread) : Prop := from_option stack_ok True (user_stack (zmb_state z)).

Lemma harvest_loop_wp l st s (Q : res Error ProcessState → Kernel → Prop) :
  Forall zombie_ok l -> Z.of_nat (length l) < tm_live_count (tm (pm s)) ->
  (forall v s', pm s' = PM.with_tm (tm_reaped (Z.of_nat (length l)) (tm (pm s))) (pm s) ->
     globals s' = globals s -> Q (Ok (ProcessState.with_vmem v st)) s') ->
  wp (PM.harvest_loop l st) s Q.
Proof.
  revert st s. induction l as [|z l IH]; intros st s Hz Hl HQ; cbn [PM.harvest_loop].
  - ksteps. replace st with (ProcessState.with_vmem (vmem st) st) by by destruct st. apply HQ; [|done].
    unfold tm_reaped. rewrite Z.sub_0_r. destruct s as [p ???]. simpl. destruct p as [??????? ? [] ???]. done.
  - apply Forall_cons in Hz as [Hz Hzl]. rewrite length_cons in Hl, HQ. wstep.
    eapply wp_mono with (P := fun o s' => exists v, o = Ok (ProcessState.with_vmem v st) /\ pm s' = pm s /\
      globals s' = globals s).
    { unfold Thread.harvest. unfold zombie_ok in Hz.
      destruct (kernel_stack (zmb_state z)) as [ks|], (user_stack (zmb_state z)) as [u|]; simpl in Hz.
      - wstep. apply wp_unmap_stack; [done|]. intros v s' Hs' (_ & _ & Hg'). wstep. apply wp_drop_kstack.
        intros s2 Hs2 (_ & _ & Hg2). ksteps. exists v. by rewrite Hs2, Hg2.
      - wstep. apply wp_drop_kstack. intros s2 Hs2 (_ & _ & Hg2). ksteps. exists (vmem st). by destruct st.
      - wstep. apply wp_drop_kstack. intros s2 Hs2 (_ & _ & Hg2). ksteps. exists (vmem st). by destruct st.
      - wstep. apply wp_drop_kstack. intros s2 Hs2 (_ & _ & Hg2). ksteps. exists (vmem st). by destruct st. }
    intros o s1 (v & -> & Hs1 & Hg1). wstep. apply wp_reaped; [rewrite Hs1; lia|].
    apply IH; [done|fields; rewrite Hs1; cbn [tm_reaped tm_live_count]; lia|].
    intros v' s' Hs' Hg'. apply (HQ v'); [|by rewrite Hg', <- Hg1]. rewrite Hs'. fields. rewrite Hs1.
    rewrite with_tm_reaped. do 2 f_equal. lia.
Qed.

(** The manager without its first zombie process. *)
Lemma bury_removed p z l : zombies p = z :: l ->
  let n := Z.of_nat (length (NonEmpty.to_list (zp_zombie z))) in
  removed (ptable z) [ppid z] n p
    (PM.with_tm (tm_reaped n (tm p)) (PM.with_live_count (live_count p - 1) (PM.with_zombies l p))).
Proof.
  intros Hz n. constructor; try done; table; rewrite Hz, ?tables_cons, ?fmap_cons; solve_Permutation.
Qed.

(** The running process and thread are never counted off. *)
Lemma running_counts p : is_Some (running p) ->
  1 <= Z.of_nat (length (pids p)) /\ 1 <= Z.of_nat (length (table p)).
Proof.
  intros [r Hr]. unfold pids, table. rewrite Hr. cbn [from_option]. rewrite !length_app. simpl. lia.
Qed.

(** The zombies among the rows that satisfy the invariant have proper stacks. *)
Lemma rows_zombie_ok pid l : Forall row_stack_ok (pair pid <$> (e_zombie <$> l)) -> Forall zombie_ok l.
Proof. by rewrite !Forall_fmap. Qed.

(** [harvest_zombies] buries the process that has been a zombie for longest. *)
Definition harvest_outcome s (o : res Error (option (ProcessIdentifier * ExitStatus))) s' : Prop :=
  inv (pm s') /\ same_running s s' /\
  match zombies (pm s) with
  | [] => o = Ok None /\ pm s' = pm s
  | z :: l => o = Ok (Some (ppid z, zp_status z)) /\ zombies (pm s') = l /\
      number_buffered_messages (pm s') = number_buffered_messages (pm s) /\
      states (pm s) ≡ₚ pstate z :: states (pm s') /\
      exists n, removed (ptable z) [ppid z] n (pm s) (pm s')
  end.

Lemma harvest_zombies_wp s : inv (pm s) -> wp PM.harvest_zombies s (harvest_outcome s).
Proof.
  intros Hi. unfold PM.harvest_zombies, PM.pop_zombie_process, harvest_outcome. ksteps.
  destruct (zombies (pm s)) as [|z l] eqn:Ez; ksteps; [done|].
  pose proof (bury_removed (pm s) z l Ez) as Hrm. cbv zeta in Hrm.
  pose proof (inv_live _ Hi) as Hlive. pose proof (inv_threads _ Hi) as Hth. pose proof (inv_stacks _ Hi) as Hst.
  rewrite (rm_pids _ _ _ _ _ Hrm) in Hlive. unfold tids in Hth. rewrite length_fmap in Hth.
  rewrite (rm_table _ _ _ _ _ Hrm) in Hth, Hst. set (p' := PM.with_tm _ _) in Hrm, Hlive, Hth, Hst.
  destruct (running_counts p') as [Hc1 Hc2]; [apply (rm_running _ _ _ _ _ Hrm), Hi|].
  apply Forall_app in Hst as [Hst _]. unfold ptable in Hst, Hth. change (pview z) with (queue e_zombie (Some (zp_zombie z))) in Hst, Hth.
  rewrite queue_some in Hst, Hth. apply rows_zombie_ok in Hst. rewrite !length_app, !length_fmap in Hth.
  unfold ZombieProcess.bury. destruct (NonEmpty.pop_front (zp_zombie z)) as [more t] eqn:Ep.
  apply NonEmpty.pop_front_spec in Ep. rewrite Ep in Hst, Hth. fold p' in Hrm. ksteps. fields.
  rewrite length_app in Hlive. simpl in Hlive, Hth.
  destruct (Z.leb_spec (live_count (pm s)) 1); [lia|]. ksteps.
  apply harvest_loop_wp; [done|fields; rewrite length_cons; lia|]. intros v s' Hs' Hg'. ksteps. unfold same_running. fields.
  assert (pm s' = p') as ->.
  { rewrite Hs'. unfold p'. by rewrite Ep. }
  splits; [|done|done|done|done|done| |by eexists].
  2: { unfold states, p'. fields. rewrite Ez, fmap_cons. solve_Permutation. }
  eapply removed_inv; [exact Hrm| |done].
  eapply removed_slack; [exact Hrm|by apply inv_slack|].
  unfold ptable. change (pview z) with (queue e_zombie (Some (zp_zombie z))). rewrite queue_some, !length_fmap. lia.
Qed.

(** ** Reaping single threads *)

Lemma restated_removed pid st p p' : restated pid st p p' -> ps_pid st = pid -> removed [] [] 0 p p'.
Proof.
  intros Hr Hst. pose proof (restated_pids _ _ _ _ Hr Hst) as Hp.
  destruct Hr as [? Ht Hsc Htm Hnp Hl _ _ Hrun Hsl].
  constructor; try done; [by rewrite Ht|by rewrite Hp| | |simpl; lia].
  - intros [r Hr]. rewrite Hr in Hrun. by destruct (running p').
  - rewrite Htm. apply (rm_tm _ _ _ _ _ (removed_refl p)).
Qed.

Lemma reaped_removed p : removed [] [] 1 p (PM.with_tm (tm_reaped 1 (tm p)) p).
Proof. constructor; try done. simpl. lia. Qed.

(** What reaping one thread that is not in the table any more does: the thread is
    counted off, unless its process is gone. *)
Definition reaped1 pid s (o : res Error unit) s' : Prop :=
  o = Ok tt /\ deferred_reap (pm s') = deferred_reap (pm s) /\
  RunningProcess.get_tid <$> running (pm s') = RunningProcess.get_tid <$> running (pm s) /\
  frame s s' /\ exists n : nat, removed [] [] (Z.of_nat n) (pm s) (pm s') /\ (n <= 1)%nat /\
    (pid ∈ pids (pm s) -> n = 1%nat).

Lemma harvest_zombie_thread_wp s pid z : inv (pm s) -> slack 1 (pm s) -> zombie_ok z ->
  wp (PM.harvest_zombie_thread pid z) s (reaped1 pid s).
Proof.
  intros Hi Hs Hz. destruct (inv_running _ Hi) as [r Hr].
  pose proof (running_counts (pm s) (inv_running _ Hi)) as [_ Hc]. unfold slack in Hs.
  assert (forall ks s1, pm s1 = pm s -> frame s s1 -> wp (PM.drop_opt_kstack ks;; PM.on_tm ThreadManager.on_thread_reaped) s1
    (reaped1 pid s)) as Hend.
  { intros ks s1 Hs1 Hf1. wstep. apply wp_drop_kstack. intros s2 Hs2 Hf2.
    apply wp_reaped; [rewrite Hs2, Hs1; lia|].
    unfold reaped1. fields. rewrite Hs2, Hs1. splits; [done..|by transitivity s1; [|transitivity s2]|].
    exists 1%nat. splits; [apply reaped_removed|lia|done]. }
  unfold PM.harvest_zombie_thread, Thread.harvest. unfold zombie_ok in Hz.
  destruct (kernel_stack (zmb_state z)) as [ks|], (user_stack (zmb_state z)) as [u|]; simpl in Hz;
    [|by apply Hend..].
  rewrite (us_top_ok u Hz). ksteps.
  pose proof (find_process_wp s r pid Hr) as Hf. unfold wp in Hf.
  destruct (PM.find_process pid s) as [[q|e|] s0]; destruct Hf as [_ Hf]; [| |done]; cbn [fst].
  - destruct Hf as [Hq Hpid]. wstep. apply wp_unmap_stack; [done|]. intros v s1 Hs1 Hf1. wstep.
    apply (put_state_wp s1 q _ pid); [by rewrite Hs1|by rewrite Hs1|done|done|]. intros s2 Hrs Hf2.
    wstep. apply wp_drop_kstack. intros s3 Hs3 Hf3. rewrite Hs1 in Hrs.
    apply wp_reaped; [rewrite Hs3, (rs_tm _ _ _ _ Hrs); lia|].
    unfold reaped1. fields. rewrite Hs3. splits; [done| | | |].
    + apply (rs_deferred _ _ _ _ Hrs).
    + apply (rs_running _ _ _ _ Hrs).
    + transitivity s1; [done|]. transitivity s2; [done|]. exact Hf3.
    + exists 1%nat. splits; [|lia|done].
      apply (removed_trans [] [] 0 [] [] 1 _ (pm s2)); [by eapply restated_removed|apply reaped_removed].
  - destruct Hf as [-> Hn]. apply wp_drop_kstack. intros s1 Hs1 Hf1. unfold reaped1. rewrite Hs1. splits; [done..|].
    exists 0%nat. splits; [apply removed_refl|lia|done].
Qed.

Lemma reap_loop_wp l s : inv (pm s) -> slack (length l) (pm s) -> Forall (fun d => zombie_ok d.2) l ->
  wp (PM.reap_loop l) s (fun o s' => o = Ok tt /\ deferred_reap (pm s') = deferred_reap (pm s) /\
    RunningProcess.get_tid <$> running (pm s') = RunningProcess.get_tid <$> running (pm s) /\
    inv (pm s') /\ frame s s' /\
    exists n : nat, removed [] [] (Z.of_nat n) (pm s) (pm s') /\ (n <= length l)%nat).
Proof.
  revert s. induction l as [|[pid z] l IH]; intros s Hi Hs Hz; cbn [PM.reap_loop].
  { ksteps. splits; [done..|]. exists 0%nat. split; [apply removed_refl|done]. }
  apply Forall_cons in Hz as [Hz Hzl]. simpl in Hz, Hs. wstep.
  eapply wp_mono; [apply harvest_zombie_thread_wp; [done| |done]|]; [unfold slack in *; lia|].
  intros o s1 (-> & Hd1 & Hr1 & Hf1 & n & Hrm & Hn & _).
  assert (slack (length l) (pm s1)) as Hs1 by (eapply removed_slack; [exact Hrm|exact Hs|simpl; lia]).
  assert (inv (pm s1)) as Hi1.
  { eapply removed_inv; [exact Hrm| |done]. unfold slack in *. lia. }
  eapply wp_mono; [by apply IH|]. intros o s2 (-> & Hd2 & Hr2 & Hi2 & Hf2 & n' & Hrm' & Hn').
  splits; [done|by rewrite Hd2|by rewrite Hr2|done|by transitivity s1|]. exists (n + n')%nat. split; [|simpl; lia].
  rewrite Nat2Z.inj_add. exact (removed_trans _ _ _ _ _ _ _ _ _ Hrm Hrm').
Qed.

(** [reap_deferred] empties the list of threads whose reaping was deferred. *)
Definition reap_outcome s (o : res Error unit) s' : Prop :=
  o = Ok tt /\ deferred_reap (pm s') = [] /\ inv (pm s') /\ frame s s' /\
  RunningProcess.get_tid <$> running (pm s') = RunningProcess.get_tid <$> running (pm s) /\
  exists n : nat, removed (deferred_row <$> deferred_reap (pm s)) [] (Z.of_nat n) (pm s) (pm s').

(** The deferred threads are taken out of the table first. *)
Lemma reap_start s : inv (pm s) -> let d := deferred_reap (pm s) in
  let s1 := PM.with_pm (PM.with_deferred [] (pm s)) s in
  removed (deferred_row <$> d) [] (Z.of_nat 0) (pm s) (pm s1) /\ inv (pm s1) /\ slack (length d) (pm s1) /\
  Forall (fun d => zombie_ok d.2) d.
Proof.
  intros Hi d s1. assert (removed (deferred_row <$> d) [] (Z.of_nat 0) (pm s) (pm s1)) as Hrm.
  { constructor; try done; [unfold s1; fields; table; solve_Permutation| |simpl; lia].
    apply (rm_tm _ _ _ _ _ (removed_refl (pm s))). }
  assert (slack (length d) (pm s1)) as Hs1.
  { eapply removed_slack; [exact Hrm|by apply inv_slack|]. rewrite length_fmap. lia. }
  splits; [done| |done|].
  - eapply removed_inv; [exact Hrm|unfold slack in *; lia|done].
  - pose proof (inv_stacks _ Hi) as Hst. rewrite (rm_table _ _ _ _ _ Hrm) in Hst.
    apply Forall_app in Hst as [Hst _]. rewrite Forall_fmap in Hst. exact Hst.
Qed.

Lemma reap_deferred_wp s : inv (pm s) -> wp PM.reap_deferred s (reap_outcome s).
Proof.
  intros Hi. destruct (reap_start s Hi) as (Hrm & Hi1 & Hs1 & Hz). unfold PM.reap_deferred. ksteps.
  eapply wp_mono; [by apply reap_loop_wp|].
  intros o s2 (-> & Hd & Hr & Hi2 & Hf & n & Hrm' & _). unfold reap_outcome. splits; [done|by rewrite Hd|done|exact Hf|by rewrite Hr|].
  exists n. pose proof (removed_trans _ _ _ _ _ _ _ _ _ Hrm Hrm') as H. by rewrite app_nil_r in H.
Qed.

(** ** Joining and detaching *)

(** The running process gives a zombie away. *)
Lemma zombie_removed p (r q : RunningProcess) z : running p = Some r ->
  pview r ≡ₚ e_zombie z :: pview q -> pstate q = pstate r ->
  removed [(ppid r, e_zombie z)] [] 0 p (PM.with_running (Some q) p).
Proof.
  intros Hr Hv Hs. assert (ppid q = ppid r) as Hq by by apply ppid_eq.
  constructor; try done; unfold schedulable; table; rewrite ?Hr; cbn [from_option]; rewrite ?Hq; try done.
  - unfold ptable. rewrite Hv, Hq. done.
  - apply (rm_tm _ _ _ _ _ (removed_refl p)).
  - simpl. lia.
Qed.

(** A zombie of the process [pid] is out of the table and still counted. *)
Record given_away s pid tid z s' : Prop := {
  ga_ok : zombie_ok z;
  ga_tid : ts_id (zmb_state z) = tid;
  ga_inv : inv (pm s');
  ga_slack : slack 1 (pm s');
  ga_pid : pid ∈ pids (pm s');
  ga_running : RunningProcess.get_tid <$> running (pm s') = RunningProcess.get_tid <$> running (pm s);
  ga_removed : removed [(pid, e_zombie z)] [] 0 (pm s) (pm s');
  ga_frame : frame s s'
}.

Lemma zombie_given s (r q : RunningProcess) tid z : inv (pm s) -> running (pm s) = Some r ->
  pview r ≡ₚ e_zombie z :: pview q -> pstate q = pstate r -> ts_id (zmb_state z) = tid ->
  RunningProcess.get_tid q = RunningProcess.get_tid r ->
  given_away s (ppid r) tid z (PM.with_pm (PM.with_running (Some q) (pm s)) s).
Proof.
  intros Hi Hr Hv Hs Hz Ht. pose proof (zombie_removed (pm s) r q z Hr Hv Hs) as Hrm.
  set (p' := PM.with_running _ _) in *.
  assert (slack 1 p') as Hsl.
  { eapply (removed_slack _ _ 0); [exact Hrm|by apply inv_slack|simpl; lia]. }
  constructor; fields; [|done| |done| | |done|done].
  - pose proof (inv_stacks _ Hi) as Hst. rewrite (rm_table _ _ _ _ _ Hrm) in Hst.
    by apply Forall_app in Hst as [[Hst _]%Forall_cons _].
  - eapply (removed_inv _ _ 0); [exact Hrm|unfold slack in *; lia|done].
  - rewrite <- (ppid_eq r q Hs). unfold p', pids. left.
  - rewrite Hr. simpl. by rewrite Ht.
Qed.

Definition join_outcome s pid tid (o : res Error RunningProcess.Join) s' : Prop :=
  match o with
  | Ok (RunningProcess.JoinZombie z) => given_away s pid tid z s'
  | Ok _ => s' = s
  | _ => False
  end.

Lemma try_join_thread_wp s pid tid : inv (pm s) ->
  wp (PM.try_join_thread pid tid) s (join_outcome s pid tid).
Proof.
  intros Hi. destruct (inv_running _ Hi) as [r Hr]. unfold PM.try_join_thread. ksteps.
  pose proof (find_process_wp s r pid Hr) as Hf. unfold wp in Hf.
  destruct (PM.find_process pid s) as [[[q|q|q|q|q]|e|] s0]; destruct Hf as [_ Hf]; cbn [fst snd] in *;
    [|by ksteps..|done].
  destruct Hf as [Hq Hpid]. simpl in Hq. assert (q = r) as -> by congruence. 
  destruct (RunningProcess.try_join_thread r tid) as [j q] eqn:Ej.
  pose proof (join_tid r q tid j Ej) as Ht. apply try_join_view in Ej as [Hj Hs]. ksteps.
  assert (q = r -> PM.with_pm (PM.with_running (Some q) (pm s)) s = s) as Hsame.
  { intros ->. destruct s as [p ??????]. destruct p. simpl in *. by rewrite Hr. }
  destruct j as [z|c|e]; [|by apply Hsame..]. destruct Hj as [Hz Hv]. unfold join_outcome. fields.
  rewrite <- Hpid. by apply zombie_given.
Qed.

Definition detach_outcome s pid tid (o : res Error (option ZombieThread)) s' : Prop :=
  match o with
  | Ok (Some z) => given_away s pid tid z s'
  | Ok None => inv (pm s') /\ moved (pm s) (pm s') /\ frame s s' /\
      RunningProcess.get_tid <$> running (pm s') = RunningProcess.get_tid <$> running (pm s)
  | Err _ => s' = s
  | Panic => False
  end.

Lemma do_detach_thread_wp s pid tid : inv (pm s) ->
  wp (PM.do_detach_thread pid tid) s (detach_outcome s pid tid).
Proof.
  intros Hi. destruct (inv_running _ Hi) as [r Hr]. unfold PM.do_detach_thread. wstep.
  eapply wp_mono; [by apply (find_process_wp s r)|]. intros [[q|q|q|q|q]|e|] s0 [-> Hf];
    [|by ksteps..|done].
  destruct Hf as [Hq Hpid]. simpl in Hq. assert (q = r) as -> by congruence.
  destruct (RunningProcess.detach_thread r tid) as [o q] eqn:Ed.
  pose proof (detach_tid r q tid o Ed) as Ht. apply detach_view in Ed as [Hd Hs]. ksteps.
  destruct o as [[z|]|e|]; [| | |done].
  - destruct Hd as [Hz Hv]. unfold detach_outcome. rewrite <- Hpid. by apply zombie_given.
  - assert (moved (pm s) (PM.with_running (Some q) (pm s))) as Hm.
    { constructor; try done; table; rewrite Hr; cbn [from_option]; [by rewrite (ppid_eq r q Hs)|].
      apply tevolve_app; [|done]. apply ptable_evolve; [done|by apply ppid_eq]. }
    unfold detach_outcome. fields. splits; [|done|done|rewrite Hr; simpl; by rewrite Ht].
    apply (moved_inv (pm s)); [done|done|done| |apply Hi]. pose proof (inv_kernel _ Hi) as Hk.
    unfold schedulable in *. rewrite Hr in Hk. fields. cbn [from_option] in *. by rewrite (ppid_eq r q Hs).
  - subst q. destruct s as [p ??????]. destruct p. simpl in *. by rewrite Hr.
Qed.

End Reaping.
