(* ===== verification/EntryPoints.v ===== *)
(** * Entry points of the process manager and condition variables

    [kernel/src/pm/process/manager/unsafe.rs] and [kernel/src/pm/sync/condvar.rs]:
    what the kernel calls.  A call that blocks is in two parts, the part before the
    context switch and the part that the thread runs when it is switched to again
    ([sleep] and [sleep_return], [Condvar.wait] and [Condvar.wait_return]).

    - [ContextInformation::switch] loads the registers saved in the context [to]; of
      it, the model keeps the globals that [switch] updates.
    - Counters that are only reported ([PERF_*]) are left out. *)

From S2P Require Import Prelude Error Config Addr NonEmpty Mailbox UserSpace VirtMem Str Thread Process.
From S2P Require Import Pending ProcManager.
#[local] Open Scope Z_scope.

(** Why a thread did not sleep, or did not sleep until it was woken up. *)
Inductive SleepError :=
| Generic (e : Error)
| SleepInterrupted (r : InterruptReason).

Module Sched.
Section Definitions.
Context {CF : Config} {VM : VirtMem} {CK : Clock}.

(** [ProcessManager::new]. *)
Definition new (interrupt_capable : bool) (kernel : ReadyThread) (root : Vmem) (tm : ThreadManager)
    : ProcessManager :=
  let '(kernel, _, _, _) := RunnableProcess.run (RunnableProcess.new KERNEL_PID kernel root) in
  mkProcessManager interrupt_capable None 1 (Some kernel) [] [] [] [] tm 1 0 [].

(** The kernel when the process manager has been initialised; the clock has been
    read once, for the kernel thread. *)
Definition init (interrupt_capable : bool) (root : Vmem) (m : MM) : Kernel :=
  let '(kernel, tm) := ThreadManager.new 0 (reading 0) in
  mkKernel (new interrupt_capable kernel root tm) m (mkPendingLists [] [] ∅ 0) {[0 := []]} 1 1
    (mkGlobals KERNEL_PID KERNEL_TID SCHEDULER_FREQ 0 0).

Definition with_current_pid pid (g : Globals) : Globals :=
  mkGlobals pid (CURRENT_TID g) (REMAINING_QUANTUM g) (SERVING_EXCEPTION g) (EXCP_STACK_GUARD g).
Definition with_current_tid tid (g : Globals) : Globals :=
  mkGlobals (CURRENT_PID g) tid (REMAINING_QUANTUM g) (SERVING_EXCEPTION g) (EXCP_STACK_GUARD g).

Definition switch (sw : PM.Switch) : K unit :=
  let '(next_pid, next_tid, _, _, _) := sw in
  s ← get;
  let previous_pid := CURRENT_PID (globals s) in
  let previous_tid := CURRENT_TID (globals s) in
  if negb (next_tid =? previous_tid) then
    (if negb (next_pid =? previous_pid)
     then PM.set_globals (PM.with_quantum SCHEDULER_FREQ);; PM.set_globals (with_current_pid next_pid)
     else mret tt);;
    PM.set_globals (with_current_tid next_tid)
  else mret tt.

Definition exit (status : ExitStatus) : K unit :=
  PM.reap_deferred;; sw ← PM.do_exit status; switch sw.

Definition sleep (alarm : option SystemTime) : K unit :=
  PM.reap_deferred;; sw ← PM.do_sleep alarm; switch sw.

(** [None] is [Ok(())]. *)
Definition sleep_return : K (option SleepError) :=
  r ← PM.take_interrupt_reason; mret (SleepInterrupted <$> r).

Definition giveup : K unit :=
  PM.reap_deferred;;
  PM.set_globals (PM.with_quantum 0);;
  sw ← PM.schedule;
  switch sw.

Definition tick : K unit :=
  s ← get;
  let remaining_ticks := REMAINING_QUANTUM (globals s) in
  if 1 <? remaining_ticks then PM.set_globals (PM.with_quantum (remaining_ticks - 1)) else giveup.

Definition wakeup (tid : ThreadIdentifier) : K unit := PM.do_wakeup tid.

Definition detach_thread (pid : ProcessIdentifier) (tid : ThreadIdentifier) : K unit :=
  PM.reap_deferred;;
  r ← PM.do_detach_thread pid tid;
  match r with
  | Some zombie_thread => PM.harvest_zombie_thread pid zombie_thread
  | None => mret tt
  end.

End Definitions.
End Sched.

(** ** Condition variables *)
Module Condvar.
Section Definitions.
Context {CF : Config} {VM : VirtMem} {CK : Clock}.

(** The queue of waiting threads of a condition variable. *)
Definition sleeping (cv : Condvar) (s : Kernel) : list ThreadIdentifier := default [] (condvars s !! cv).
Definition set_sleeping (cv : Condvar) (l : list ThreadIdentifier) : K unit :=
  modify (fun s => PM.with_condvars (<[cv := l]> (condvars s)) s).

Definition notify_first (cv : Condvar) : K Z :=
  s ← get;
  match sleeping cv s with
  | tid :: l => set_sleeping cv l;; Sched.wakeup tid;; mret 1
  | [] => mret 0
  end.

Definition notify_thread (cv : Condvar) (tid : ThreadIdentifier) : K unit :=
  s ← get;
  match NonEmpty.position (Z.eqb tid) (sleeping cv s) with
  | Some i => set_sleeping cv (delete i (sleeping cv s));; Sched.wakeup tid
  | None => mret tt
  end.

(** The loop of [notify_all], over the queue as it is when the loop starts: waking a
    thread up does not touch the queue.  The count needs no width, there are fewer
    threads than fit in a [u32]. *)
Fixpoint notify_loop (cv : Condvar) (l : list ThreadIdentifier) (awakened : Z) (first_error : option Error)
    : K (Z * option Error) :=
  match l with
  | [] => mret (awakened, first_error)
  | tid :: l =>
    set_sleeping cv l;;
    r ← catch (Sched.wakeup tid;; mret None) (fun e => mret (Some e));
    match r with
    | None => notify_loop cv l (awakened + 1) first_error
    | Some e => notify_loop cv l awakened (match first_error with None => Some e | Some f => Some f end)
    end
  end.

Definition notify_all (cv : Condvar) : K Z :=
  s ← get;
  '(awakened, first_error) ← notify_loop cv (sleeping cv s) 0 None;
  match first_error with
  | Some e => if awakened =? 0 then fail e else mret awakened
  | None => mret awakened
  end.

Definition alarm_expired : Error := mkError OperationTimedOut "alarm has already expired".

Definition wait (cv : Condvar) (alarm : option SystemTime) : K unit :=
  pid ← PM.get_pid;
  if pid =? KERNEL_PID then panic
  else
    tid ← PM.get_tid;
    expired ← match alarm with
              | Some a => now ← PM.clock_now; mret (a <=? now)
              | None => mret false
              end;
    if expired : bool then fail alarm_expired
    else
      s ← get;
      set_sleeping cv (sleeping cv s ++ [tid]);;
      Sched.sleep alarm.

(** [tid] is the thread that called [wait], which runs again. *)
Definition wait_return (cv : Condvar) (tid : ThreadIdentifier) : K (option SleepError) :=
  r ← Sched.sleep_return;
  match r with
  | None => mret None
  | Some e =>
    s ← get;
    set_sleeping cv (filter (fun t => t <> tid) (sleeping cv s));;
    mret (Some e)
  end.

End Definitions.
End Condvar.

(** ** Exiting and joining threads *)
Module Join.
Section Definitions.
Context {CF : Config} {VM : VirtMem} {CK : Clock}.

Definition exit_thread (status : ExitStatus) : K unit :=
  PM.reap_deferred;;
  '(next_pid, next_tid, join_cond, from, to, user_tda) ← PM.do_exit_thread status;
  Condvar.notify_all join_cond;;
  Sched.switch (next_pid, next_tid, from, to, user_tda).

(** One round of the loop of [join_thread]: [Some] when it breaks with a status, [None]
    when the thread waits for the next round. *)
Definition join_round (pid : ProcessIdentifier) (tid : ThreadIdentifier) : K (option ExitStatus) :=
  j ← PM.try_join_thread pid tid;
  match j with
  | RunningProcess.JoinZombie zombie_thread =>
    PM.harvest_zombie_thread pid zombie_thread;; mret (Some (zmb_status zombie_thread))
  | RunningProcess.JoinWait join_cond => Condvar.wait join_cond None;; mret None
  | RunningProcess.JoinError e => fail e
  end.

Definition join_thread (pid : ProcessIdentifier) (tid : ThreadIdentifier) : K (option ExitStatus) :=
  PM.reap_deferred;; join_round pid tid.

End Definitions.
End Join.
