(* ===== verification/EventManager.v ===== *)
(** * The event manager

    [kernel/src/event/manager.rs]: interrupts, exceptions and the ends of processes are
    events that processes own and wait for, together with messages.  The manager keeps a
    queue of pending events for every number, and one condition variable on which all
    threads wait that have nothing to receive.

    - The manager is always initialised, and the [RefCell] around it is never borrowed
      twice: no operation runs inside another one.
    - [wait] blocks; it is split at the context switch into [wait] and [wait_resume], which
      share [wait_round], the body of its loop.  The bit masks are local variables of the
      call. *)

From S2P Require Import Prelude Error Config Addr NonEmpty Mailbox UserSpace VirtMem Str Thread Process.
From S2P Require Import Pending ProcManager EntryPoints Event.
#[local] Open Scope Z_scope.

(** The size of the payload of a message, a constant of the build. *)
Class IpcConfig := { PAYLOAD_SIZE : nat }.

Record ExceptionInformation := mkExceptionInformation {
  excp_num : Z;
  excp_code : Z;
  excp_addr : Z;
  excp_instruction : Z
}.

Record ExceptionEventInformation := mkExceptionEventInformation {
  xe_pid : ProcessIdentifier;
  xe_tid : ThreadIdentifier;
  xe_info : ExceptionInformation
}.

Definition PendingException : Type := EventDescriptor * ExceptionEventInformation * Condvar.

Record EventManagerInner := mkEventManagerInner {
  em_interrupt_capable : bool;
  nevents : Z;
  em_wait : Condvar;
  waiting_threads : list (ProcessIdentifier * ThreadIdentifier);
  interrupt_ownership : list (option ProcessIdentifier);
  pending_interrupts : list (list EventDescriptor);
  exception_ownership : list (option ProcessIdentifier);
  pending_exceptions : list (list PendingException);
  scheduling_ownership : list (option ProcessIdentifier);
  pending_scheduling : list (list (EventDescriptor * ProcessTerminationInfo))
}.

Module Events.

Section Definitions.
Context {CF : Config} {VM : VirtMem} {CK : Clock} {IC : IpcConfig}.
Notation E := (M (EventManagerInner * Kernel) Error).

Definition on_k {A} (m : K A) : E A := zoom snd (fun k s => (s.1, k)) m.
Definition em : E EventManagerInner := s ← get; mret s.1.
Definition set_em (f : EventManagerInner → EventManagerInner) : E unit := modify (fun s => (f s.1, s.2)).

Definition with_nevents n m := mkEventManagerInner (em_interrupt_capable m) n (em_wait m) (waiting_threads m) (interrupt_ownership m)
  (pending_interrupts m) (exception_ownership m) (pending_exceptions m) (scheduling_ownership m) (pending_scheduling m).
Definition with_waiting l m := mkEventManagerInner (em_interrupt_capable m) (nevents m) (em_wait m) l (interrupt_ownership m)
  (pending_interrupts m) (exception_ownership m) (pending_exceptions m) (scheduling_ownership m) (pending_scheduling m).
Definition with_interrupt_owners l m := mkEventManagerInner (em_interrupt_capable m) (nevents m) (em_wait m) (waiting_threads m) l
  (pending_interrupts m) (exception_ownership m) (pending_exceptions m) (scheduling_ownership m) (pending_scheduling m).
Definition with_interrupts l m := mkEventManagerInner (em_interrupt_capable m) (nevents m) (em_wait m) (waiting_threads m) (interrupt_ownership m)
  l (exception_ownership m) (pending_exceptions m) (scheduling_ownership m) (pending_scheduling m).
Definition with_exception_owners l m := mkEventManagerInner (em_interrupt_capable m) (nevents m) (em_wait m) (waiting_threads m) (interrupt_ownership m)
  (pending_interrupts m) l (pending_exceptions m) (scheduling_ownership m) (pending_scheduling m).
Definition with_exceptions l m := mkEventManagerInner (em_interrupt_capable m) (nevents m) (em_wait m) (waiting_threads m) (interrupt_ownership m)
  (pending_interrupts m) (exception_ownership m) l (scheduling_ownership m) (pending_scheduling m).
Definition with_scheduling_owners l m := mkEventManagerInner (em_interrupt_capable m) (nevents m) (em_wait m) (waiting_threads m) (interrupt_ownership m)
  (pending_interrupts m) (exception_ownership m) (pending_exceptions m) l (pending_scheduling m).
Definition with_scheduling l m := mkEventManagerInner (em_interrupt_capable m) (nevents m) (em_wait m) (waiting_threads m) (interrupt_ownership m)
  (pending_interrupts m) (exception_ownership m) (pending_exceptions m) (scheduling_ownership m) l.

(** The manager that [init] installs, given whether there is an interrupt controller. *)
Definition init (interrupt_capable : bool) : K EventManagerInner :=
  cv ← PM.new_condvar;
  mret (mkEventManagerInner interrupt_capable 0 cv [] (replicate 32 None) (replicate 32 []) (replicate 32 None) (replicate 32 [])
    (replicate 2 None) (replicate 2 [])).

(** ** Ownership *)

(** What registering and unregistering do to a table of owners. *)
Definition evctrl_owners (cap : Capability) (no_cap owned not_owner : string) (owners : list (option ProcessIdentifier)) (idx : nat)
    (pid : option ProcessIdentifier) (req : EventCtrlRequest) : K (list (option ProcessIdentifier)) :=
  match owners !! idx with
  | None => panic
  | Some owner =>
    match req with
    | Register_ =>
      match pid with
      | Some pid =>
        b ← PM.has_capability pid cap;
        if negb b then fail (mkError PermissionDenied no_cap)
        else match owner with
             | Some _ => fail (mkError ResourceBusy owned)
             | None => mret (<[idx := Some pid]> owners)
             end
      | None => fail (mkError InvalidArgument "invalid process identifier")
      end
    | Unregister =>
      match pid with
      | Some pid =>
        if bool_decide (owner = Some pid) then mret (<[idx := None]> owners) else fail (mkError PermissionDenied not_owner)
      | None => mret (<[idx := None]> owners)
      end
    end
  end.

Definition interrupt_owned : string := "interrupt is already owned by another process".

(** The first test is made for both requests. *)
Definition do_evctrl_interrupt (pid : option ProcessIdentifier) (ev : Z) (req : EventCtrlRequest) : E unit :=
  m ← em;
  let idx := Z.to_nat ev in
  match interrupt_ownership m !! idx with
  | None => panic
  | Some (Some _) => fail (mkError ResourceBusy interrupt_owned)
  | Some None =>
    l ← on_k (evctrl_owners InterruptControl "process does not have interrupt control capability" interrupt_owned
               "process does not own interrupt" (interrupt_ownership m) idx pid req);
    set_em (with_interrupt_owners l)
  end.

Definition do_evctrl_exception (pid : option ProcessIdentifier) (ev : Z) (req : EventCtrlRequest) : E unit :=
  m ← em;
  l ← on_k (evctrl_owners ExceptionControl "process does not have exception control capability"
             "exception is already owned by another process" "process does not own exception"
             (exception_ownership m) (Z.to_nat ev) pid req);
  set_em (with_exception_owners l).

Definition do_evctrl_scheduling (pid : option ProcessIdentifier) (ev : SchedulingEvent) (req : EventCtrlRequest) : E unit :=
  m ← em;
  l ← on_k (evctrl_owners ProcessManagement "process does not have scheduling control capability"
             "scheduling event is already owned by another process" "process does not own scheduling event"
             (scheduling_ownership m) (Z.to_nat (SchedulingEvent_value ev)) pid req);
  set_em (with_scheduling_owners l).

(** [EventManager::evctrl]: whether the process now owns the event. *)
Definition evctrl (pid : ProcessIdentifier) (ev : Event) (req : EventCtrlRequest) : E bool :=
  match ev with
  | EvInterrupt n =>
    m ← em;
    if negb (em_interrupt_capable m)
    then fail (mkError OperationNotSupported "interrupt manager is not capable of handling ginterrupts")
    else do_evctrl_interrupt (Some pid) n req
  | EvException n => do_evctrl_exception (Some pid) n req
  | EvScheduling ev => do_evctrl_scheduling (Some pid) ev req
  end;;
  mret (match req with Register_ => true | Unregister => false end).

(** [Drop] of an [EventOwnership]: errors are logged only. *)
Definition drop_ownership (ev : Event) : E unit :=
  catch (match ev with
         | EvInterrupt n => do_evctrl_interrupt None n Unregister
         | EvException n => do_evctrl_exception None n Unregister
         | EvScheduling ev => do_evctrl_scheduling None ev Unregister
         end) (fun _ => mret tt).

(** The kernel call: the ownership is kept by the running process, or dropped. *)
Definition kcall_evctrl (pid : ProcessIdentifier) (arg0 arg1 : Z) : E unit :=
  ev ← lift (Event_try_from arg0);
  req ← lift (EventCtrlRequest_try_from arg1);
  owns ← evctrl pid ev req;
  if (owns : bool) then on_k (PM.add_event ev)
  else
    r ← on_k PM.get_running;
    on_k (PM.remove_event ev);;
    if bool_decide (ev ∈ events (rp_state r)) then drop_ownership ev else mret tt.

(** ** Notification *)

(** The loop of [notify_all_process_threads] over the threads of the process. *)
Fixpoint notify_threads (cv : Condvar) (l : list ThreadIdentifier) (first_error : option Error) : K unit :=
  match l with
  | [] => match first_error with Some error => fail error | None => mret tt end
  | tid :: l =>
    r ← catch (Condvar.notify_thread cv tid;; mret None) (fun e => mret (Some e));
    notify_threads cv l (match first_error with Some e => Some e | None => r end)
  end.

Definition notify_all_process_threads (pid : ProcessIdentifier) : E unit :=
  m ← em;
  on_k (notify_threads (em_wait m) (snd <$> filter (fun w => w.1 = pid) (waiting_threads m)) None).

(** The number of the lowest bit that is set; 32 for no bit. *)
Definition trailing_zeros (x : Z) : Z :=
  match list_find (fun i => Z.testbit x i = true) (seqZ 0 32) with Some (_, i) => i | None => 32 end.

(** An event has happened: its number in the sequence. *)
Definition count_event : E Z :=
  m ← em;
  n ← lift (usize_add (nevents m) 1);
  set_em (with_nevents n);;
  mret n.

Definition push_at {A} (i : nat) (x : A) (l : list (list A)) : list (list A) := alter (fun q => q ++ [x]) i l.

Definition owner_of (owners : list (option ProcessIdentifier)) (idx : nat) (reason : string) : E ProcessIdentifier :=
  match owners !! idx with
  | Some (Some owner) => mret owner
  | Some None => fail (mkError NoSuchProcess reason)
  | None => panic
  end.

Definition wakeup_interrupt (interrupts : Z) : E unit :=
  m ← em;
  if em_interrupt_capable m
  then fail (mkError OperationNotSupported "interrupt manager is not capable of handling ginterrupts")
  else
    n ← count_event;
    let idx := trailing_zeros interrupts in
    ev ← lift (InterruptEvent_try_from idx);
    set_em (fun m => with_interrupts (push_at (Z.to_nat idx) (EventDescriptor.new n (EvInterrupt ev)) (pending_interrupts m)) m);;
    pid ← owner_of (interrupt_ownership m) (Z.to_nat idx) "no owner for interrupt";
    notify_all_process_threads pid.

(** [1 << n]: a shift by 32 or more panics. *)
Definition bit_mask (n : Z) : res Error Z := if n <? 32 then Ok (Z.shiftl 1 n) else Panic.

(** Errors are logged only. *)
Definition interrupt_handler (intnum : Z) : E unit :=
  catch (mask ← lift (bit_mask intnum); wakeup_interrupt mask) (fun _ => mret tt).

Definition wakeup_exception (exceptions : Z) (pid : ProcessIdentifier) (tid : ThreadIdentifier) (info : ExceptionInformation) : E Condvar :=
  n ← count_event;
  let idx := trailing_zeros exceptions in
  ev ← lift (ExceptionEvent_try_from idx);
  resume ← on_k PM.new_condvar;
  set_em (fun m => with_exceptions (push_at (Z.to_nat idx)
    (EventDescriptor.new n (EvException ev), mkExceptionEventInformation pid tid info, resume) (pending_exceptions m)) m);;
  m ← em;
  owner ← owner_of (exception_ownership m) (Z.to_nat idx) "no owner for exception";
  notify_all_process_threads owner;;
  mret resume.

Definition notify_process_termination (info : ProcessTerminationInfo) : E unit :=
  n ← count_event;
  let idx := Z.to_nat (SchedulingEvent_value ProcessTermination) in
  set_em (fun m => with_scheduling (push_at idx (EventDescriptor.new n (EvScheduling ProcessTermination), info) (pending_scheduling m)) m);;
  m ← em;
  pid ← owner_of (scheduling_ownership m) idx "no owner for scheduling event";
  notify_all_process_threads pid.

Definition post_message (receiver : Z) (message : Message) : E unit :=
  on_k (PM.post_message receiver message);;
  match as_id receiver with
  | inl pid => notify_all_process_threads pid
  | inr tid => m ← em; on_k (Condvar.notify_thread (em_wait m) tid)
  end.

Definition do_send (message : Message) : E unit := post_message (destination message) message.

(** The kernel call [send], for a message that has been copied from the caller; [stdio] writes
    to the standard output, where there is one.  That the source is neither the thread nor the
    process that calls is logged only. *)
Definition send (stdio : option (Message → res Error unit)) (copied : res Error Message) : E unit :=
  message ← lift copied;
  match message_type message with
  | Ikc =>
    match stdio with
    | Some write => lift (write message)
    | None => fail (mkError ProtocolNotSupported "stdio is not available")
    end
  | _ => do_send message
  end.

(** The end of [do_exception_handler]: the faulting thread tells the owner of the exception
    and waits until it is resumed. *)
Definition raise_exception (pid : ProcessIdentifier) (tid : ThreadIdentifier) (info : ExceptionInformation) : E unit :=
  mask ← lift (bit_mask (excp_num info));
  resume ← wakeup_exception mask pid tid info;
  on_k (Condvar.wait resume None).

(** ** Resuming *)

Definition resume_exception (evdesc : EventDescriptor) : E unit :=
  ev ← lift (EventDescriptor.event evdesc);
  match ev with
  | EvException n =>
    m ← em;
    let idx := Z.to_nat n in
    match exception_ownership m !! idx, pending_exceptions m !! idx with
    | Some (Some _), Some q =>
      match NonEmpty.position (fun x : PendingException => bool_decide (x.1.1 = evdesc)) q with
      | Some i =>
        match q !! i with
        | Some (_, excpinfo, resume) =>
          set_em (fun m => with_exceptions (<[idx := delete i q]> (pending_exceptions m)) m);;
          catch (on_k (Condvar.notify_thread resume (xe_tid excpinfo))) (fun _ => mret tt)
        | None => panic
        end
      | None => mret tt
      end
    | _, _ => panic
    end
  | _ => fail (mkError InvalidArgument "event descriptor does not refer to an exception")
  end.

Definition resume (evdesc : EventDescriptor) : E unit :=
  ev ← lift (EventDescriptor.event evdesc);
  match ev with
  | EvInterrupt _ | EvScheduling _ => mret tt
  | EvException _ => resume_exception evdesc
  end.

(** The kernel call. *)
Definition kcall_resume (evdesc : Z) : E unit :=
  d ← lift (EventDescriptor.try_from evdesc);
  resume d.

(** ** Waiting *)

(** The first number of a mask for which something is pending. *)
Fixpoint find_pending {A} (mask : Z) (i : nat) (queues : list (list A)) : option (nat * A * list A) :=
  match queues with
  | [] => None
  | q :: queues =>
    if Z.testbit mask (Z.of_nat i) then
      match q with
      | x :: q => Some (i, x, q)
      | [] => find_pending mask (S i) queues
      end
    else find_pending mask (S i) queues
  end.

Definition event_message (typ : MessageType) (pid : ProcessIdentifier) (payload : list Z) : Message :=
  mkMessage typ KERNEL_PID (receiver_of_pid pid) 0 payload.

Definition try_interrupts (pid : ProcessIdentifier) (mask : Z) : E (option Message) :=
  m ← em;
  match find_pending mask 0 (pending_interrupts m) with
  | Some (i, _, q) =>
    set_em (with_interrupts (<[i := q]> (pending_interrupts m)));;
    mret (Some (event_message Interrupt pid (replicate PAYLOAD_SIZE 0)))
  | None => mret None
  end.

(** An exception stays pending until it is resumed. *)
Definition try_exceptions (pid : ProcessIdentifier) (mask : Z) : E (option Message) :=
  m ← em;
  match find_pending mask 0 (pending_exceptions m) with
  | Some (i, (d, x, resume), q) =>
    let info := mkEventInformation d (xe_pid x) (Some (excp_num (xe_info x))) (Some (excp_code (xe_info x)))
                  (Some (excp_addr (xe_info x))) (Some (excp_instruction (xe_info x))) in
    message ← lift (EventInformation.into_message PAYLOAD_SIZE info);
    set_em (with_exceptions (<[i := q ++ [(d, x, resume)]]> (pending_exceptions m)));;
    mret (Some (mkMessage Exception (source message) (receiver_of_pid pid) (status message) (payload message)))
  | None => mret None
  end.

Definition try_scheduling (pid : ProcessIdentifier) (mask : Z) : E (option Message) :=
  m ← em;
  match find_pending mask 0 (pending_scheduling m) with
  | Some (i, (_, info), q) =>
    set_em (with_scheduling (<[i := q]> (pending_scheduling m)));;
    payload ← lift (termination_payload PAYLOAD_SIZE info);
    mret (Some (event_message ProcessTerminationEvent pid payload))
  | None => mret None
  end.

(** The bit masks of a waiting thread. *)
Record Masks := mkMasks { interrupts : Z; exceptions : Z; scheduling : Z }.

Definition try_class (c : Z) (pid : ProcessIdentifier) (k : Masks) : E (option Message) :=
  if c =? 0 then try_interrupts pid (interrupts k)
  else if c =? 1 then try_exceptions pid (exceptions k)
  else try_scheduling pid (scheduling k).

(** [for i in 0..NUMBER_EVENTS]: one class of events per round, in a rotating order. *)
Fixpoint try_classes (l : list Z) (pid : ProcessIdentifier) (k : Masks) : E (option Message) :=
  match l with
  | [] => mret None
  | i :: l =>
    m ← em;
    c ← lift (usize_add (nevents m) i);
    r ← try_class (c mod 3) pid k;
    match r with Some message => mret (Some message) | None => try_classes l pid k end
  end.

Definition try_wait (tid : ThreadIdentifier) (pid : ProcessIdentifier) (k : Masks) : E (option Message) :=
  r ← try_classes [0; 1; 2] pid k;
  match r with
  | Some message => mret (Some message)
  | None => on_k (PM.try_recv tid)
  end.

(** The numbers that a process owns. *)
Fixpoint owned_mask (pid : ProcessIdentifier) (i : nat) (owners : list (option ProcessIdentifier)) (mask : Z) : Z :=
  match owners with
  | [] => mask
  | Some p :: owners => owned_mask pid (S i) owners (if p =? pid then Z.lor mask (Z.shiftl 1 (Z.of_nat i)) else mask)
  | None :: owners => owned_mask pid (S i) owners mask
  end.

(** [Drop] of the guard of a waiting thread. *)
Definition stop_waiting (pid : ProcessIdentifier) (tid : ThreadIdentifier) : E unit :=
  set_em (fun m => with_waiting (filter (fun w => w.1 <> pid \/ w.2 <> tid) (waiting_threads m)) m).

(** The body of the loop; [None]: the thread sleeps and goes on with [wait_resume]. *)
Definition wait_round (tid : ThreadIdentifier) (pid : ProcessIdentifier) (k : Masks) : E (option Message) :=
  catch
    (message ← try_wait tid pid k;
     match message with
     | Some message => stop_waiting pid tid;; mret (Some message)
     | None => m ← em; on_k (Condvar.wait (em_wait m) None);; mret None
     end)
    (fun e => stop_waiting pid tid;; fail e).

Definition masks_of (pid : ProcessIdentifier) (m : EventManagerInner) : Masks :=
  mkMasks (owned_mask pid 0 (interrupt_ownership m) 0) (owned_mask pid 0 (exception_ownership m) 0)
    (owned_mask pid 0 (scheduling_ownership m) 0).

Definition wait (tid : ThreadIdentifier) (pid : ProcessIdentifier) : E (option Message) :=
  m ← em;
  let k := masks_of pid m in
  set_em (fun m => with_waiting (waiting_threads m ++ [(pid, tid)]) m);;
  wait_round tid pid k.

(** The thread runs again. *)
Definition wait_resume (tid : ThreadIdentifier) (pid : ProcessIdentifier) (k : Masks) : E (option (Message + SleepError)) :=
  m ← em;
  r ← on_k (Condvar.wait_return (em_wait m) tid);
  match r with
  | Some e => stop_waiting pid tid;; mret (Some (inr e))
  | None => r ← wait_round tid pid k; mret (inl <$> r)
  end.

End Definitions.
End Events.
