(* ===== verification/Footprint.v ===== *)
(** * What scheduling leaves alone

    The code of the process manager that blocks and wakes up threads changes the manager,
    memory, the clock and the globals; every other field of the kernel is kept, whatever the
    outcome.  The instances compute this from the text of the code. *)

From S2P Require Import Prelude Error Config Addr NonEmpty Mailbox UserSpace VirtMem Str Thread Process.
From S2P Require Import Pending ProcManager EntryPoints.
#[local] Open Scope Z_scope.

Section Footprint.
Context {CF : Config} {VM : VirtMem} {CK : Clock}.

(** A field of the kernel that is none of those. *)
Class Outer {B} (f : Kernel → B) : Prop := outer s p m n g :
  f (mkKernel p m (pending s) (condvars s) (next_condvar s) n g) = f s.

#[global] Instance outer_pending : Outer pending.
Proof. done. Qed.
#[global] Instance outer_condvars : Outer condvars.
Proof. done. Qed.
#[global] Instance outer_next : Outer next_condvar.
Proof. done. Qed.

(** Code that keeps a field. *)
Class Keeps {B} (f : Kernel → B) {A} (m : K A) : Prop := keeps s : f (m s).2 = f s.

Lemma keeps_wp {B A} (f : Kernel → B) (m : K A) s : Keeps f m -> wp m s (fun _ s' => f s' = f s).
Proof. intros H. apply H. Qed.

Section Instances.
Context {B} (f : Kernel → B) {O : Outer f}.

#[global] Instance keeps_ret {A} (a : A) : Keeps f (mret a).
Proof. by intros s. Qed.
#[global] Instance keeps_bind {A A'} (m : K A) (k : A → K A') : Keeps f m -> (forall a, Keeps f (k a)) -> Keeps f (m ≫= k).
Proof.
  intros Hm Hk s. pose proof (Hm s) as H. unfold mbind, M_bind. destruct (m s) as [[a|e|] s1]; simpl in *; [|done..].
  by rewrite (Hk a s1).
Qed.
#[global] Instance keeps_fail {A} e : Keeps f (fail e : K A).
Proof. by intros s. Qed.
#[global] Instance keeps_panic {A} : Keeps f (panic : K A).
Proof. by intros s. Qed.
#[global] Instance keeps_lift {A} r : Keeps f (lift r : K A).
Proof. by intros s. Qed.
#[global] Instance keeps_get : Keeps f (get : K Kernel).
Proof. by intros s. Qed.
#[global] Instance keeps_gets {A} (h : ProcessManager → A) : Keeps f (PM.gets h).
Proof. by intros s. Qed.
#[global] Instance keeps_upd h : Keeps f (PM.upd h).
Proof. intros s. apply O. Qed.
#[global] Instance keeps_clock : Keeps f PM.clock_now.
Proof. intros s. apply O. Qed.
#[global] Instance keeps_globals h : Keeps f (PM.set_globals h).
Proof. intros s. apply O. Qed.
#[global] Instance keeps_kstack k : Keeps f (PM.drop_opt_kstack k).
Proof. intros s. destruct k; [apply O|done]. Qed.
#[global] Instance keeps_vmem {A} st (m : M (Vmem * MM) Error A) : Keeps f (PM.on_vmem st m).
Proof.
  intros s. unfold PM.on_vmem, mbind, M_bind, get. destruct (m (vmem st, mm s)) as [[a|e|] [v mem]]; [apply O..|done].
Qed.
#[global] Instance keeps_tm {A} (m : M ThreadManager Error A) : Keeps f (PM.on_tm m).
Proof. intros s. unfold PM.on_tm, zoom. destruct (m _). apply O. Qed.
End Instances.
End Footprint.

Ltac still := repeat (match goal with |- forall _, _ => intros ? end || apply _ || case_match || apply keeps_bind).

Section Scheduling.
Context {CF : Config} {VM : VirtMem} {CK : Clock} {B} (f : Kernel → B) {O : Outer f}.

#[global] Instance keeps_put_state r st : Keeps f (PM.put_state r st).
Proof. destruct r; unfold PM.put_state, PM.set_running; still. Qed.

#[global] Instance keeps_harvest pid z : Keeps f (PM.harvest_zombie_thread pid z).
Proof. unfold PM.harvest_zombie_thread. still. Qed.

#[global] Instance keeps_reap : Keeps f PM.reap_deferred.
Proof.
  unfold PM.reap_deferred. apply keeps_bind; [apply _|]. intros l. apply keeps_bind; [apply _|]. intros _.
  induction l as [|[pid z] l IH]; cbn [PM.reap_loop]; still.
Qed.

#[global] Instance keeps_do_sleep a : Keeps f (PM.do_sleep a).
Proof.
  unfold PM.do_sleep, PM.check_running_stack_guard, PM.take_running, PM.dispatch, PM.take_earliest_ready, PM.set_running,
    PM.push_ready, PM.push_suspended, PM.update_active_stack_guard. still.
Qed.

#[global] Instance keeps_switch sw : Keeps f (Sched.switch sw).
Proof. unfold Sched.switch. still. Qed.

#[global] Instance keeps_sleep a : Keeps f (Sched.sleep a).
Proof. unfold Sched.sleep. still. Qed.

#[global] Instance keeps_resume_loop l : Keeps f (PM.resume_loop l).
Proof. induction l as [|p l IH]; cbn [PM.resume_loop]; unfold PM.push_ready; still. Qed.

#[global] Instance keeps_schedule : Keeps f PM.schedule.
Proof.
  unfold PM.schedule, PM.check_running_stack_guard, PM.take_running, PM.push_ready, PM.check_alarm, PM.dispatch, PM.take_earliest_ready,
    PM.set_running, PM.update_active_stack_guard. still.
Qed.

#[global] Instance keeps_giveup : Keeps f Sched.giveup.
Proof. unfold Sched.giveup. still. Qed.

#[global] Instance keeps_wakeup tid : Keeps f (Sched.wakeup tid).
Proof. unfold Sched.wakeup, PM.do_wakeup, PM.get_running, PM.take_running, PM.try_wakeup, PM.set_running, PM.push_ready. still. Qed.
End Scheduling.
