(* ===== verification/EntrySpec.v ===== *)
(** * Entry points: what they do

    The operations of [EntryPoints], against the invariant of the process manager:
    they do not panic, the globals name the thread that runs, and the thread whose
    context is saved is still held by the manager when the context is switched. *)

From S2P Require Import Prelude Error Config Addr NonEmpty Mailbox UserSpace VirtMem Str Thread Process.
From S2P Require Import ProcessView Pending ProcManager ManagerInv Scheduler ManagerOps.
From S2P Require Import ManagerState ManagerReap EntryPoints.
#[local] Open Scope Z_scope.

Section EntrySpec.
Context {CF : Config} {HC : ConfigOk} {VM : VirtMem} {CK : Clock}.
Implicit Types (s : Kernel) (p : ProcessManager).

(** ** The current thread *)

(** The globals name the thread that runs. *)
Definition synced s : Prop :=
  from_option (fun r => CURRENT_TID (globals s) = RunningProcess.get_tid r /\
                        CURRENT_PID (globals s) = ppid r) False (running (pm s)).

(** A thread stays in its process. *)
Lemma same_process p p' (r q : RunningProcess) : inv p -> tevolve (table p) (table p') ->
  running p = Some r -> running p' = Some q ->
  RunningProcess.get_tid q = RunningProcess.get_tid r -> ppid q = ppid r.
Proof.
  intros Hi He Hr Hq Ht. pose (key := fun row : Row => (row.1, row_tid row)).
  assert (key <$> table p ≡ₚ key <$> table p') as Hk.
  { apply (pointwise_keep row_step key); [|done]. intros x y [H1 H2]. unfold key, row_tid.
    by rewrite H1, (lifecycle_tid _ _ H2). }
  assert (key (ppid q, e_running (rp_running q)) ∈ key <$> table p) as Hin.
  { rewrite Hk. apply list_elem_of_fmap. eexists. split; [done|]. apply row_running; [done|left]. }
  apply list_elem_of_fmap in Hin as (row & Hrow & Hin). unfold key in Hrow. injection Hrow as H1 H2.
  assert (row = (ppid r, e_running (rp_running r))) as ->; [|done].
  apply (NoDup_key row_tid (table p)); [apply Hi|done|apply row_running; [done|left]|].
  rewrite <- H2. exact Ht.
Qed.

(** Reaping leaves the running thread alone. *)
Lemma reaped_running rows n s s1 (r r1 : RunningProcess) :
  inv (pm s) -> removed rows [] n (pm s) (pm s1) ->
  running (pm s) = Some r -> running (pm s1) = Some r1 ->
  RunningProcess.get_tid r1 = RunningProcess.get_tid r -> ppid r1 = ppid r /\ rp_running r1 = rp_running r.
Proof.
  intros Hi Hrm Hr Hr1 Ht.
  assert ((ppid r1, e_running (rp_running r1)) = (ppid r, e_running (rp_running r))) as [= Hp Hs].
  { apply (NoDup_key row_tid (table (pm s))); [apply Hi| |apply row_running; [done|left]|exact Ht].
    rewrite (rm_table _ _ _ _ _ Hrm), elem_of_app. right. apply row_running; [done|left]. }
  split; [done|]. destruct (rp_running r1), (rp_running r). simpl in Hs. by subst.
Qed.

Lemma synced_removed rows n s s1 : inv (pm s) -> synced s -> removed rows [] n (pm s) (pm s1) ->
  RunningProcess.get_tid <$> running (pm s1) = RunningProcess.get_tid <$> running (pm s) ->
  globals s1 = globals s -> synced s1.
Proof.
  intros Hi Hs Hrm Hrun Hg. destruct (inv_running _ Hi) as [r Hr]. unfold synced in *. rewrite Hr in Hs, Hrun.
  destruct (running (pm s1)) as [r1|] eqn:Hr1; [|discriminate]. injection Hrun as Ht.
  destruct (reaped_running _ _ _ _ r r1 Hi Hrm Hr Hr1 Ht) as [Hp _]. simpl in *. by rewrite Hg, Ht, Hp.
Qed.

Lemma synced_moved s s1 : inv (pm s) -> synced s -> moved (pm s) (pm s1) ->
  RunningProcess.get_tid <$> running (pm s1) = RunningProcess.get_tid <$> running (pm s) ->
  globals s1 = globals s -> synced s1.
Proof.
  intros Hi Hs Hm Hrun Hg. destruct (inv_running _ Hi) as [r Hr]. unfold synced in *. rewrite Hr in Hs, Hrun.
  destruct (running (pm s1)) as [r1|] eqn:Hr1; [|discriminate]. injection Hrun as Ht.
  simpl in *. rewrite Hg, Ht. split; [apply Hs|]. rewrite (same_process _ _ r r1 Hi (mv_table _ _ Hm) Hr Hr1 Ht).
  apply Hs.
Qed.

(** [switch] to the running process [q]. *)
Lemma switch_wp s q from to tda (Q : res Error unit → Kernel → Prop) :
  running (pm s) = Some q ->
  (RunningProcess.get_tid q = CURRENT_TID (globals s) -> ppid q = CURRENT_PID (globals s)) ->
  (forall s', pm s' = pm s -> condvars s' = condvars s -> synced s' ->
     REMAINING_QUANTUM (globals s') =
       (if ppid q =? CURRENT_PID (globals s) then REMAINING_QUANTUM (globals s) else SCHEDULER_FREQ) ->
     Q (Ok tt) s') ->
  wp (Sched.switch (ppid q, RunningProcess.get_tid q, from, to, tda)) s Q.
Proof.
  intros Hq Hpid HQ. unfold Sched.switch. ksteps.
  destruct (Z.eqb_spec (RunningProcess.get_tid q) (CURRENT_TID (globals s))) as [Ht|Ht]; cbn [negb].
  - ksteps. apply HQ; [done|done| |by rewrite (Hpid Ht), Z.eqb_refl].
    unfold synced. rewrite Hq. simpl. by rewrite Ht, Hpid.
  - destruct (Z.eqb_spec (ppid q) (CURRENT_PID (globals s))) as [Hp|Hp]; cbn [negb]; ksteps;
      (apply HQ; [done|done|unfold synced; fields; by rewrite Hq|done]).
Qed.

(** What an entry point that switches leaves behind. *)
Record entered s (o : res Error unit) s' : Prop := {
  en_ok : o = Ok tt;
  en_inv : inv (pm s');
  en_synced : synced s';
  (** Deferred threads are reaped, then threads move along their life cycle. *)
  en_table : exists p1 n, removed (deferred_row <$> deferred_reap (pm s)) [] n (pm s) p1 /\
    moved p1 (pm s');
  (** The context that is saved to belongs to a thread that has not been freed. *)
  en_from : CURRENT_TID (globals s) ∈ tids (pm s');
  (** The quantum is refilled when another process runs. *)
  en_quantum : CURRENT_PID (globals s') <> CURRENT_PID (globals s) ->
    REMAINING_QUANTUM (globals s') = SCHEDULER_FREQ
}.

(** The kernel after deferred threads have been reaped, when the guard is checked. *)
Definition reaped s : Kernel := (PM.reap_deferred s).2.

(** Every entry point first reaps deferred threads. *)
Record after_reap s (r : RunningProcess) s1 (r1 : RunningProcess) : Prop := {
  ar_inv : inv (pm s1);
  ar_synced : synced s1;
  ar_removed : exists n, removed (deferred_row <$> deferred_reap (pm s)) [] n (pm s) (pm s1);
  ar_frame : frame s s1;
  ar_running : running (pm s1) = Some r1;
  ar_pid : ppid r1 = ppid r;
  ar_thread : rp_running r1 = rp_running r;
  ar_deferred : deferred_reap (pm s1) = []
}.

Lemma reap_then {A} (k : K A) s r (Q : res Error A → Kernel → Prop) :
  inv (pm s) -> synced s -> running (pm s) = Some r ->
  (forall r1, after_reap s r (reaped s) r1 -> wp k (reaped s) Q) -> wp (PM.reap_deferred;; k) s Q.
Proof.
  intros Hi Hs Hr HQ. wstep. pose proof (reap_deferred_wp s Hi) as Hw. unfold wp, reap_outcome in *.
  fold (reaped s) in *. destruct Hw as (-> & Hd & Hi1 & Hf & Hrun & n & Hrm).
  destruct (running (pm (reaped s))) as [r1|] eqn:Hr1; [|rewrite Hr in Hrun; discriminate].
  rewrite Hr in Hrun. injection Hrun as Ht.
  destruct (reaped_running _ _ _ _ r r1 Hi Hrm Hr Hr1 Ht) as [Hp Hth].
  apply (HQ r1). constructor; try done; [|by eexists].
  apply (synced_removed _ _ s (reaped s) Hi Hs Hrm); [rewrite Hr, Hr1; simpl; by rewrite Ht|apply Hf].
Qed.

(** The end of an entry point that switches; [s1] is the state in which the manager was
    called, [s2] the state in which it has selected what runs. *)
Lemma enter_switch s s1 s2 r1 from to q tda n (Q : res Error unit → Kernel → Prop) :
  removed (deferred_row <$> deferred_reap (pm s)) [] n (pm s) (pm s1) -> inv (pm s1) ->
  running (pm s1) = Some r1 -> synced s1 -> CURRENT_TID (globals s1) = CURRENT_TID (globals s) ->
  CURRENT_PID (globals s1) = CURRENT_PID (globals s) ->
  inv (pm s2) -> moved (pm s1) (pm s2) -> running (pm s2) = Some q ->
  CURRENT_TID (globals s2) = CURRENT_TID (globals s1) ->
  CURRENT_PID (globals s2) = CURRENT_PID (globals s1) ->
  REMAINING_QUANTUM (globals s2) = REMAINING_QUANTUM (globals s1) ->
  (forall s', entered s (Ok tt) s' -> pm s' = pm s2 -> condvars s' = condvars s2 ->
     (CURRENT_PID (globals s') = CURRENT_PID (globals s) ->
      REMAINING_QUANTUM (globals s') = REMAINING_QUANTUM (globals s1)) -> Q (Ok tt) s') ->
  wp (Sched.switch (ppid q, RunningProcess.get_tid q, from, to, tda)) s2 Q.
Proof.
  intros Hrm Hi Hr1 Hs1 Ht Hp Hi2 Hm Hq Hct Hcp Hcq HQ.
  unfold synced in Hs1. rewrite Hr1 in Hs1. simpl in Hs1. destruct Hs1 as [Hs1 Hs2].
  apply switch_wp; [done| |].
  { rewrite Hct, Hcp, Hs1, Hs2. intros Heq. exact (same_process _ _ r1 q Hi (mv_table _ _ Hm) Hr1 Hq Heq). }
  intros s' Hp' Hc' Hsy Hqu. rewrite Hcp, Hp, Hcq in Hqu.
  assert (CURRENT_PID (globals s') = ppid q) as Hpq.
  { unfold synced in Hsy. rewrite Hp', Hq in Hsy. apply Hsy. }
  apply HQ; [|done|done|].
  - constructor; [done|by rewrite Hp'|done| | |].
    + exists (pm s1), n. by rewrite Hp'.
    + rewrite Hp'. unfold tids. rewrite <- (tevolve_tids _ _ (mv_table _ _ Hm)), <- Ht, Hs1.
      apply list_elem_of_fmap. exists (ppid r1, e_running (rp_running r1)). split; [done|].
      apply row_running; [done|left].
    + intros Hne. rewrite Hqu. destruct (Z.eqb_spec (ppid q) (CURRENT_PID (globals s))); congruence.
  - intros Heq. rewrite Hqu, <- Heq, Hpq. by rewrite Z.eqb_refl.
Qed.

Lemma sleep_wp s r a : inv (pm s) -> synced s -> running (pm s) = Some r -> ppid r <> KERNEL_PID ->
  stack_intact (reaped s) ->
  wp (Sched.sleep a) s (fun o s' => entered s o s' /\
    (ppid r, (run_state (rp_running r), Ssleeping a)) ∈ table (pm s') /\ condvars s' = condvars s).
Proof.
  intros Hi Hs Hr Hne Hst. unfold Sched.sleep. apply (reap_then _ s r); [done..|].
  intros r1 [Hi1 Hs1 [n Hrm] (_ & Hc & Hg) Hr1 Hp1 Ht1 _]. wstep.
  eapply wp_mono; [apply (do_sleep_wp _ r1); [done..|by rewrite Hp1]|].
  intros o s2 [(from & to & q & tda & -> & Hsw) Hrow].
  pose proof (sw_current _ _ _ _ _ Hsw) as [Hcp Hct Hcq Hcc].
  eapply (enter_switch s (reaped s) s2 r1); try done; try (by rewrite Hg); try apply Hsw.
  intros s' He Hp' Hc' _. splits; [done| |].
  - by rewrite Hp', <- Hp1, <- Ht1.
  - by rewrite Hc', Hcc.
Qed.

Lemma giveup_wp s r : inv (pm s) -> synced s -> running (pm s) = Some r -> stack_intact (reaped s) ->
  wp Sched.giveup s (fun o s' => entered s o s' /\ interrupted (pm s') = []).
Proof.
  intros Hi Hs Hr Hst. unfold Sched.giveup. apply (reap_then _ s r); [done..|].
  intros r1 [Hi1 Hs1 [n Hrm] (_ & Hc & Hg) Hr1 Hp1 Ht1 _]. ksteps.
  set (s1 := PM.with_globals _ (reaped s)).
  eapply wp_mono; [apply (schedule_wp s1); [done|]|].
  { exact Hst. }
  intros o s2 [(from & to & q & tda & -> & Hsw) Hint].
  pose proof (sw_current _ _ _ _ _ Hsw) as [Hcp Hct Hcq _].
  eapply (enter_switch s s1 s2 r1); try done; try (by rewrite <- Hg); try apply Hsw.
  intros s' He Hp' _ _. by rewrite Hp'.
Qed.

Lemma exit_wp s r status : inv (pm s) -> synced s -> running (pm s) = Some r -> ppid r <> KERNEL_PID ->
  stack_intact (reaped s) -> Pending.counterparts (pending s) (ppid r) = [] ->
  wp (Sched.exit status) s (fun o s' => entered s o s' /\
    (ppid r, (run_state (rp_running r), Szombie status)) ∈ table (pm s')).
Proof.
  intros Hi Hs Hr Hne Hst Hc. unfold Sched.exit. apply (reap_then _ s r); [done..|].
  intros r1 [Hi1 Hs1 [n Hrm] (Hpe & _ & Hg) Hr1 Hp1 Ht1 _]. wstep.
  eapply wp_mono; [apply (do_exit_wp _ r1); [done..|by rewrite Hp1|by rewrite Hpe, Hp1]|].
  intros o s2 [(from & to & q & tda & -> & Hsw) Hrow].
  pose proof (sw_current _ _ _ _ _ Hsw) as [Hcp Hct Hcq Hcc].
  eapply (enter_switch s (reaped s) s2 r1); try done; try (by rewrite Hg); try apply Hsw.
  intros s' He Hp' _ _. split; [done|]. by rewrite Hp', <- Hp1, <- Ht1.
Qed.

Lemma tick_wp s r : inv (pm s) -> synced s -> running (pm s) = Some r -> stack_intact (reaped s) ->
  wp Sched.tick s (fun o s' => o = Ok tt /\
    if 1 <? REMAINING_QUANTUM (globals s)
    then s' = PM.with_globals (PM.with_quantum (REMAINING_QUANTUM (globals s) - 1) (globals s)) s
    else entered s o s').
Proof.
  intros Hi Hs Hr Hst. unfold Sched.tick. ksteps.
  destruct (Z.ltb_spec 1 (REMAINING_QUANTUM (globals s))); [by ksteps|].
  eapply wp_mono; [by apply (giveup_wp s r)|]. intros o s' [He _]. split; [apply He|done].
Qed.

(** A zombie that is not reaped keeps its exit status. *)
Lemma zombie_stays p p' pid ts st : moved p p' -> (pid, (ts, Szombie st)) ∈ table p ->
  exists ts', ts_id ts' = ts_id ts /\ (pid, (ts', Szombie st)) ∈ table p'.
Proof.
  intros Hm Hin. destruct (mv_table _ _ Hm) as (m & Hp & Hf). rewrite Hp in Hin.
  apply list_elem_of_lookup in Hin as [i Hi']. destruct (Forall2_lookup_l _ _ _ _ _ Hf Hi') as ([pid' e'] & Hl & [H1 H2]).
  simpl in *. subst pid'. exists e'.1. split; [exact (lifecycle_tid _ _ H2)|].
  rewrite <- (lifecycle_zombie _ _ _ H2). apply list_elem_of_lookup. exists i. by destruct e'.
Qed.

(** ** Condition variables *)

(** Waking up all waiting threads: it fails only when there are some, and none of them
    sleeps. *)
Definition notify_outcome l s (o : res Error Z) s' : Prop :=
  inv (pm s') /\ moved (pm s) (pm s') /\
  RunningProcess.get_tid <$> running (pm s') = RunningProcess.get_tid <$> running (pm s) /\
  globals s' = globals s /\
  match o with
  | Ok n => 0 <= n /\ (n = 0 -> l = [])
  | Err e => l <> [] /\ Forall (fun tid => ~ sleeps tid (pm s)) l
  | Panic => False
  end.

Lemma notify_loop_wp cv l aw err s : inv (pm s) -> 0 <= aw ->
  wp (Condvar.notify_loop cv l aw err) s (fun o s' =>
    inv (pm s') /\ moved (pm s) (pm s') /\
    RunningProcess.get_tid <$> running (pm s') = RunningProcess.get_tid <$> running (pm s) /\
    globals s' = globals s /\
    exists aw' err', o = Ok (aw', err') /\ aw <= aw' /\
      (aw' = aw -> Forall (fun tid => ~ sleeps tid (pm s)) l) /\
      (err' = None -> err = None /\ aw' = aw + Z.of_nat (length l)) /\
      (is_Some err' -> is_Some err \/ l <> [])).
Proof.
  revert aw err s. induction l as [|tid l IH]; intros aw err s Hi Haw; cbn [Condvar.notify_loop].
  { ksteps. splits; [done..|]. exists aw, err. splits; [done|lia|constructor| |by left]. intros ->. simpl. split; [done|lia]. }
  unfold Condvar.set_sleeping, Sched.wakeup. ksteps. set (s1 := PM.with_condvars _ s).
  eapply wp_mono; [apply (do_wakeup_wp tid s1 Hi)|]. intros [[]|e|] s2 [Ho (_ & _ & _ & Hg)]; [| |done]; ksteps.
  - destruct Ho as (now & Hw & Hm & Hi2 & Hr). eapply wp_mono; [apply (IH (aw + 1) err s2); [done|lia]|].
    intros o s' (Hi' & Hm' & Hr' & Hg' & aw' & err' & -> & Hle & Hno & Hnone & Hsome).
    splits; [done|by transitivity (pm s2)|by rewrite Hr', Hr|by rewrite Hg', Hg|].
    exists aw', err'. splits; [done|lia|lia| |].
    + intros He. destruct (Hnone He) as [-> ->]. split; [done|]. simpl. lia.
    + intros He. destruct (Hsome He); [by left|by right].
  - destruct Ho as (-> & Hp & Hns). change (pm s1) with (pm s) in Hp, Hns. rewrite <- Hp in Hi.
    eapply wp_mono; [apply (IH aw (match err with None => Some PM.thread_not_found | Some f => Some f end) s2 Hi Haw)|].
    rewrite Hp. intros o s' (Hi' & Hm' & Hr' & Hg' & aw' & err' & -> & Hle & Hno & Hnone & Hsome).
    splits; [done|done|done|by rewrite Hg', Hg|].
    exists aw', err'. splits; [done|lia| | |by right].
    + intros Heq. constructor; [done|by apply Hno].
    + intros He. destruct (Hnone He) as [Hb _]. by destruct err.
Qed.

Lemma notify_all_wp cv s : inv (pm s) ->
  wp (Condvar.notify_all cv) s (notify_outcome (Condvar.sleeping cv s) s).
Proof.
  intros Hi. unfold Condvar.notify_all. ksteps.
  eapply wp_mono; [apply (notify_loop_wp cv _ 0 None s Hi); lia|].
  intros o s' (Hi' & Hm' & Hr' & Hg' & aw' & err' & -> & Hle & Hno & Hnone & Hsome). ksteps.
  destruct err' as [e|].
  - destruct (Z.eqb_spec aw' 0) as [->|Hne]; ksteps; unfold notify_outcome; splits; try done.
    + destruct (Hsome ltac:(done)) as [[? [=]]|]; done.
    + by apply Hno.
  - ksteps. destruct (Hnone eq_refl) as [_ ->]. unfold notify_outcome. splits; try done.
    intros Hz. by destruct (Condvar.sleeping cv s).
Qed.

(** Threads that are reaped do not sleep. *)
Lemma sleeps_reaped d n s s1 tid : removed (deferred_row <$> d) [] n (pm s) (pm s1) ->
  sleeps tid (pm s) -> sleeps tid (pm s1).
Proof.
  intros Hrm (pid & ts & a & Hin & Hts). exists pid, ts, a. split; [|done].
  rewrite (rm_table _ _ _ _ _ Hrm), elem_of_app in Hin.
  destruct Hin as [(x & [=] & _)%list_elem_of_fmap|?]; done.
Qed.

(** [exit_thread].  The call returns to the thread that has exited when there are
    threads that wait for it but none of them can be woken up. *)
Definition exit_thread_outcome s (r : RunningProcess) status (o : res Error unit) s' : Prop :=
  (exists ts, ts_id ts = RunningProcess.get_tid r /\ (ppid r, (ts, Szombie status)) ∈ table (pm s')) /\
  match o with
  | Ok _ => entered s o s'
  | Err _ => let l := Condvar.sleeping (join_cond (run_state (rp_running r))) s in
      l <> [] /\ Forall (fun tid => ~ sleeps tid (pm s)) l /\ inv (pm s')
  | Panic => False
  end.

Lemma exit_thread_wp s r status : inv (pm s) -> synced s -> running (pm s) = Some r ->
  ppid r <> KERNEL_PID -> stack_intact (reaped s) ->
  wp (Join.exit_thread status) s (exit_thread_outcome s r status).
Proof.
  intros Hi Hs Hr Hne Hst. unfold Join.exit_thread. apply (reap_then _ s r); [done..|].
  intros r1 [Hi1 Hs1 [n Hrm] (_ & Hc & Hg) Hr1 Hp1 Ht1 _]. wstep.
  eapply wp_mono; [apply (do_exit_thread_wp _ r1); [done..|by rewrite Hp1]|].
  intros o s2 ((to & q & tda & -> & Hsw) & Hrow & Hsl). rewrite Ht1 in Hrow |- *. rewrite Hp1 in Hrow.
  pose proof (sw_current _ _ _ _ _ Hsw) as [Hcp Hct Hcq Hcc].
  wstep. eapply wp_mono; [apply notify_all_wp; apply Hsw|]. intros o s3 (Hi3 & Hm3 & Hr3 & Hg3 & Ho).
  destruct (zombie_stays _ _ _ _ _ Hm3 Hrow) as (ts & Hts & Hrow3).
  destruct o as [k|e|]; [| |done].
  - rewrite (sw_running _ _ _ _ _ Hsw) in Hr3. destruct (running (pm s3)) as [q3|] eqn:Hq3; [|done].
    injection Hr3 as Ht3.
    assert (ppid q3 = ppid q) as Hp3.
    { apply (same_process (pm s2) (pm s3)); [apply Hsw|apply Hm3|apply Hsw|done|done]. }
    rewrite <- Hp3, <- Ht3.
    eapply (enter_switch s (reaped s) s3 r1); try done; try (by rewrite Hg); try (by rewrite Hg3).
    { etransitivity; [apply Hsw|done]. }
    intros s' He Hp' _ _. split; [exists ts; by rewrite Hp'|done].
  - split; [by exists ts|]. destruct Ho as [Hl Hf]. unfold Condvar.sleeping in *. rewrite Hcc, Hc in Hl, Hf.
    cbv zeta. splits; [done| |done]. eapply Forall_impl; [exact Hf|]. intros tid Hn Hs'. apply Hn, Hsl.
    exact (sleeps_reaped _ _ _ _ _ Hrm Hs').
Qed.

(** ** Waiting and joining *)

(** The guard of the running stack is intact when it is checked. *)
Definition guarded s : Prop :=
  forall s1, pm s1 = pm s -> mm s1 = mm s -> globals s1 = globals s -> stack_intact (reaped s1).

Lemma entered_from s s1 o s' : pm s1 = pm s -> globals s1 = globals s -> entered s1 o s' -> entered s o s'.
Proof. intros Hp Hg []. constructor; rewrite <- ?Hp, <- ?Hg; done. Qed.

Definition wait_outcome s (r : RunningProcess) cv a (o : res Error unit) s' : Prop :=
  match o with
  | Ok _ => entered s o s' /\ (ppid r, (run_state (rp_running r), Ssleeping a)) ∈ table (pm s') /\
      Condvar.sleeping cv s' = Condvar.sleeping cv s ++ [RunningProcess.get_tid r]
  | Err e => e = Condvar.alarm_expired /\ pm s' = pm s /\ frame s s' /\
      from_option (fun t => t <= reading (reads s)) False a
  | Panic => False
  end.

Lemma wait_wp s r cv a : inv (pm s) -> synced s -> running (pm s) = Some r -> ppid r <> KERNEL_PID ->
  guarded s -> wp (Condvar.wait cv a) s (wait_outcome s r cv a).
Proof.
  intros Hi Hs Hr Hne Hgd. unfold Condvar.wait, PM.get_pid, PM.get_tid. wstep. wstep.
  apply (wp_get_running s r); [done|]. wstep.
  destruct (Z.eqb_spec (ps_pid (rp_state r)) KERNEL_PID); [done|].
  wstep. wstep. apply (wp_get_running s r); [done|]. wstep. wstep.
  eapply wp_mono with (P := fun o s1 => pm s1 = pm s /\ mm s1 = mm s /\ frame s s1 /\
    exists b, o = Ok b /\ (b = true -> from_option (fun t => t <= reading (reads s)) False a)).
  { destruct a as [a|]; [|ksteps; splits; [done..|]; by exists false]. wstep. apply wp_clock_now. ksteps.
    splits; [done..|]. eexists. split; [done|]. simpl. lia. }
  intros o s1 (Hp1 & Hm1 & Hf1 & b & -> & Hb). destruct b;
    [ksteps; unfold wait_outcome; splits; [done..|by apply Hb]|].
  unfold Condvar.set_sleeping. ksteps. destruct Hf1 as (_ & Hc1 & Hg1). set (s2 := PM.with_condvars _ s1).
  eapply wp_mono; [apply (sleep_wp s2 r a); [by rewrite <- Hp1 in Hi| |by rewrite <- Hp1 in Hr|done|]|].
  - unfold synced. change (pm s2) with (pm s1). change (globals s2) with (globals s1). by rewrite Hp1, Hg1.
  - by apply Hgd.
  - intros o s' (He & Hrow & Hc'). pose proof (en_ok _ _ _ He) as ->. unfold wait_outcome. splits; [|done|].
    + by apply (entered_from s s2).
    + unfold Condvar.sleeping. rewrite Hc'. change (condvars s2) with (<[cv := Condvar.sleeping cv s1 ++ [RunningProcess.get_tid r]]> (condvars s1)).
      rewrite lookup_insert_eq. simpl. unfold Condvar.sleeping. by rewrite Hc1.
Qed.

(** One round of joining. *)
Definition join_round_outcome s (r : RunningProcess) pid tid (o : res Error (option ExitStatus)) s' : Prop :=
  match o with
  | Ok (Some st) => inv (pm s') /\ synced s' /\
      exists ts, ts_id ts = tid /\ removed [(pid, (ts, Szombie st))] [] 1 (pm s) (pm s')
  | Ok None => entered s (Ok tt) s' /\ (ppid r, (run_state (rp_running r), Ssleeping None)) ∈ table (pm s')
  | Err _ => s' = s
  | Panic => False
  end.

Lemma given_harvest s pid tid z s1 : inv (pm s) -> synced s -> given_away s pid tid z s1 ->
  wp (PM.harvest_zombie_thread pid z) s1 (fun o s' => o = Ok tt /\ inv (pm s') /\ synced s' /\
    removed [(pid, e_zombie z)] [] 1 (pm s) (pm s')).
Proof.
  intros Hi0 Hs [Hz Ht Hi Hsl Hp Hrun Hrm Hf]. eapply wp_mono; [by apply harvest_zombie_thread_wp|].
  intros o s' (-> & _ & Hrun' & Hf' & n & Hrm' & _ & Hn). rewrite (Hn Hp) in Hrm'.
  assert (removed [(pid, e_zombie z)] [] 1 (pm s) (pm s')) as Hrm2.
  { exact (removed_trans _ _ _ _ _ _ _ _ _ Hrm Hrm'). }
  splits; [done| | |done].
  - eapply (removed_inv _ _ 1); [exact Hrm2| |done].
    eapply (removed_slack _ _ 1); [exact Hrm2|by apply inv_slack|simpl; lia].
  - apply (synced_removed _ _ s s' Hi0 Hs Hrm2); [by rewrite Hrun', Hrun|].
    destruct Hf as (_ & _ & <-). apply Hf'.
Qed.

Lemma join_round_wp s r pid tid : inv (pm s) -> synced s -> running (pm s) = Some r ->
  ppid r <> KERNEL_PID -> guarded s ->
  wp (Join.join_round pid tid) s (join_round_outcome s r pid tid).
Proof.
  intros Hi Hs Hr Hne Hgd. unfold Join.join_round. wstep.
  eapply wp_mono; [by apply try_join_thread_wp|]. intros [j|e|] s1 Hj; [|done..].
  destruct j as [z|cv|e]; simpl in Hj.
  - wstep. eapply wp_mono; [by apply (given_harvest s pid tid z)|].
    intros o s' (-> & Hi' & Hs' & Hrm). ksteps. unfold join_round_outcome. splits; [done..|]. exists (zmb_state z).
    split; [apply Hj|exact Hrm].
  - subst s1. wstep. eapply wp_mono; [by apply (wait_wp s r cv None)|].
    intros [[]|e|] s' Ho; [|by destruct Ho as (_ & _ & _ & [])|done]. by destruct Ho as (? & ? & _).
  - by subst s1.
Qed.

Lemma detach_thread_wp s r pid tid : inv (pm s) -> synced s -> running (pm s) = Some r ->
  wp (Sched.detach_thread pid tid) s (fun o s' => o <> Panic /\ inv (pm s') /\ synced s').
Proof.
  intros Hi Hs Hr. unfold Sched.detach_thread. apply (reap_then _ s r); [done..|].
  intros r1 [Hi1 Hs1 _ _ Hr1 _ _ _]. wstep.
  eapply wp_mono; [by apply do_detach_thread_wp|]. intros [[z|]|e|] s1 Hd; simpl in Hd; [| | |done].
  - eapply wp_mono; [by apply (given_harvest (reaped s) pid tid z)|].
    intros o s' (-> & Hi' & Hs' & _). by splits.
  - ksteps. destruct Hd as (Hi' & Hm & Hf & Hrun). splits; [done..|].
    apply (synced_moved (reaped s)); [done..|apply Hf].
  - by subst s1.
Qed.

End EntrySpec.
