(* ===== verification/Mail.v ===== *)
(** * Mailboxes and sleepers

    Sleeping, waking up and reaping leave the messages of all processes alone: seen as their
    states, processes are only moved from list to list.  And the set of the threads that
    sleep changes by the thread that falls asleep or is woken up, only. *)

From S2P Require Import Prelude Error Config Addr NonEmpty Mailbox UserSpace VirtMem Str Thread Process.
From S2P Require Import ProcessView Pending ProcManager ManagerInv Scheduler ManagerOps.
From S2P Require Import ManagerState ManagerReap EntryPoints EntrySpec.
#[local] Open Scope Z_scope.

Section Mail.
Context {CF : Config} {HC : ConfigOk} {VM : VirtMem} {CK : Clock}.
Implicit Types (s : Kernel) (p : ProcessManager).

(** The messages of a process. *)
Definition mail_of pid p : list Message := from_option mailbox [] (state_of pid p).

Definition same_mail s s' : Prop := forall pid, mail_of pid (pm s') = mail_of pid (pm s).

#[global] Instance same_mail_preorder : PreOrder same_mail.
Proof. split; [by intros s pid|]. intros s1 s2 s3 H1 H2 pid. by rewrite H2, H1. Qed.

Lemma same_mail_pm s s' : pm s' = pm s -> same_mail s s'.
Proof. intros Hp pid. by rewrite Hp. Qed.

(** A process whose state is replaced by one with other messages. *)
Lemma restated_mail pid st p p' pid' : restated pid st p p' -> ps_pid st = pid -> pid ∈ pids p ->
  mail_of pid' p' = if pid' =? pid then mailbox st else mail_of pid' p.
Proof.
  intros Hr Hst Hin. unfold mail_of. rewrite (restated_state_of _ _ _ _ pid' Hr Hst).
  destruct (Z.eqb_spec pid' pid); [|done]. destruct (state_of pid p) eqn:E; [done|]. by apply state_of_none in E.
Qed.

(** ** Waking up *)

Lemma states_list {P} `{!ProcessLike P} (l l' : list P) x : l ≡ₚ x :: l' -> pstate <$> l ≡ₚ pstate x :: (pstate <$> l').
Proof. by intros ->. Qed.

Lemma wakeup_states tid s : inv (pm s) -> wp (PM.do_wakeup tid) s (fun _ s' => states (pm s') ≡ₚ states (pm s)).
Proof.
  intros Hi. destruct (inv_running _ Hi) as [r Hr]. unfold PM.do_wakeup. wstep. apply (wp_get_running s r); [done|].
  destruct (RunningProcess.find_thread r tid) as [t|].
  - wstep. apply (wp_take_running s r); [done|]. wstep. apply wp_clock_now. set (now := reading _).
    pose proof (running_wakeup_view r tid now) as Hw. unfold states. rewrite Hr.
    destruct (RunningProcess.wakeup r tid now) as [q|q]; ksteps; unfold wakeup_post in Hw.
    + destruct Hw as (ts & a & l & _ & _ & _ & Hs). cbn. change (rp_state q) with (pstate q). by rewrite Hs.
    + destruct Hw as [-> _]. done.
  - unfold PM.try_wakeup. wstep. wstep. apply wp_clock_now. set (now := reading _). ksteps. rewrite wakeup_suspended_list. fields.
    pose proof (wakeup_list_spec (fun x => SleepingProcess.wakeup x tid now) tid now (suspended (pm s)) (fun x => sleeping_wakeup_view x tid now)) as Hsus.
    destruct (wakeup_list _ tid (suspended (pm s))) as [[l [q|]]|]; ksteps; unfold states; fields.
    + destruct Hsus as (x & Hx & ts & a & l' & _ & _ & _ & Hs). rewrite (states_list _ _ _ Hx), fmap_app, list_fmap_singleton, Hs. solve_Permutation.
    + destruct Hsus as (-> & _). done.
    + rewrite wakeup_ready_list. fields.
      pose proof (wakeup_list_spec (fun x => RunnableProcess.wakeup x tid now) tid now (ready (pm s)) (fun x => runnable_wakeup_view x tid now)) as Hrdy.
      destruct (wakeup_list _ tid (ready (pm s))) as [[l [q|]]|]; ksteps; unfold states; fields.
      * destruct Hrdy as (x & Hx & ts & a & l' & _ & _ & _ & Hs). rewrite (states_list _ _ _ Hx), fmap_app, list_fmap_singleton, Hs. solve_Permutation.
      * destruct Hrdy as (-> & _). done.
      * done.
Qed.

(** ** Sleeping *)

Lemma dispatch_states s (l : list ProcessState) : running (pm s) = None -> ready (pm s) <> [] -> states (pm s) ≡ₚ l ->
  wp PM.dispatch s (fun _ s' => states (pm s') ≡ₚ l).
Proof.
  intros Hn Hne Hl. apply wp_dispatch; [done|]. intros p k t q reason s' Hd _ _ _ Hs _. rewrite <- Hl.
  destruct Hd as (Hp & Hk & _). unfold states. rewrite Hp, Hn. fields. cbn [from_option]. rewrite (states_list _ _ _ Hk), Hs. solve_Permutation.
Qed.

Lemma do_sleep_states s r a : inv (pm s) -> stack_intact s -> running (pm s) = Some r -> ppid r <> KERNEL_PID ->
  wp (PM.do_sleep a) s (fun _ s' => states (pm s') ≡ₚ states (pm s)).
Proof.
  intros Hi Hst Hr Hne. pose proof (inv_ready _ _ Hi Hr Hne) as Hk.
  unfold PM.do_sleep. wstep. apply wp_check_guard; [done|]. wstep. apply (wp_take_running s r); [done|].
  destruct (Z.eqb_spec (ps_pid (rp_state r)) KERNEL_PID); [done|].
  wstep. apply wp_clock_now. set (now := reading _). pose proof (sleep_view r a now) as Hv. wstep.
  assert (ready (pm s) <> []) as Hrn by (intros Heq; rewrite Heq in Hk; by apply elem_of_nil in Hk).
  destruct (RunningProcess.sleep r a now) as [[q0 from]|[q0 from]]; ksteps.
  - destruct Hv as (_ & _ & Hs & _). eapply wp_mono; [apply (dispatch_states _ (states (pm s))); [done|fields; by destruct (ready (pm s))|]|].
    + unfold states. fields. rewrite Hr. cbn [from_option]. rewrite fmap_app, list_fmap_singleton, Hs. solve_Permutation.
    + intros [[[[? ?] ?] ?]|?|] s' Hs'; ksteps; done.
  - destruct Hv as (_ & Hs & _). eapply wp_mono; [apply (dispatch_states _ (states (pm s))); [done|done|]|].
    + unfold states. fields. rewrite Hr. cbn [from_option]. rewrite fmap_app, list_fmap_singleton, Hs. solve_Permutation.
    + intros [[[[? ?] ?] ?]|?|] s' Hs'; ksteps; done.
Qed.
(** ** Reaping *)

(** What a process has besides its address space. *)
Class Bare {B} (f : ProcessState → B) : Prop := bare v st : f (ProcessState.with_vmem v st) = f st.

(** The processes have it as before. *)
Definition alike {B} (f : ProcessState → B) s s' : Prop := f <$> states (pm s') ≡ₚ f <$> states (pm s).

#[global] Instance alike_preorder {B} (f : ProcessState → B) : PreOrder (alike f).
Proof. unfold alike. split; [by intros s|]. intros s1 s2 s3 H1 H2. by rewrite H2. Qed.

Lemma alike_pm {B} (f : ProcessState → B) s s' : pm s' = pm s -> alike f s s'.
Proof. unfold alike. by intros ->. Qed.

Lemma alike_states {B} (f : ProcessState → B) s s' : states (pm s') ≡ₚ states (pm s) -> alike f s s'.
Proof. unfold alike. by intros ->. Qed.

Section Reaping.
Context {B} (f : ProcessState → B) {HB : Bare f}.

Lemma restated_alike pid old st s s' : inv (pm s) -> restated pid st (pm s) (pm s') ->
  old ∈ states (pm s) -> ps_pid old = pid -> f st = f old -> alike f s s'.
Proof.
  intros Hi [Hs _ _ _ _ _ _ _ _ _] Hin Hp Hf. unfold alike. rewrite Hs, <- list_fmap_compose.
  pose proof (inv_pids _ Hi) as Hn. rewrite pids_states in Hn.
  apply reflexive_eq, list_fmap_ext. intros i x Hx. unfold compose, assign. destruct (Z.eqb_spec (ps_pid x) pid); [|done].
  rewrite Hf. f_equal. apply (NoDup_key ps_pid (states (pm s))); [done|done|by eapply list_elem_of_lookup_2|congruence].
Qed.

Lemma reaped_alike s1 s : alike f s s1 -> wp (PM.on_tm ThreadManager.on_thread_reaped) s1 (fun _ s' => alike f s s').
Proof.
  intros H. unfold PM.on_tm, ThreadManager.on_thread_reaped. wsteps. destruct (1 <? tm_live_count (tm (pm s1))); exact H.
Qed.

Lemma harvest_thread_alike s pid z : inv (pm s) -> zombie_ok z ->
  wp (PM.harvest_zombie_thread pid z) s (fun _ s' => alike f s s').
Proof.
  intros Hi Hz. destruct (inv_running _ Hi) as [r Hr].
  assert (forall ks s1, alike f s s1 ->
    wp (PM.drop_opt_kstack ks;; PM.on_tm ThreadManager.on_thread_reaped) s1 (fun _ s' => alike f s s')) as Hend.
  { intros ks s1 H1. wstep. apply wp_drop_kstack. intros s2 Hs2 _. apply reaped_alike.
    transitivity s1; [done|by apply alike_pm]. }
  unfold PM.harvest_zombie_thread, Thread.harvest. unfold zombie_ok in Hz.
  destruct (kernel_stack (zmb_state z)) as [ks|], (user_stack (zmb_state z)) as [u|]; simpl in Hz; [|by apply Hend..].
  rewrite (us_top_ok u Hz). ksteps. pose proof (find_process_wp s r pid Hr) as Hf. unfold wp in Hf.
  destruct (PM.find_process pid s) as [[q|e|] s0]; destruct Hf as [_ Hf]; [| |done]; cbn [fst].
  - destruct Hf as [Hq Hpid]. wstep. apply wp_unmap_stack; [done|]. intros v s1 Hs1 _. wstep.
    apply (put_state_wp s1 q _ pid); [by rewrite Hs1|by rewrite Hs1|done|done|]. intros s2 Hrs _. rewrite Hs1 in Hrs.
    apply (Hend (Some ks)). eapply restated_alike; [done|exact Hrs|by apply refers_state|done|apply HB].
  - apply wp_drop_kstack. intros s1 Hs1 _. by apply alike_pm.
Qed.

Lemma reap_loop_alike l s : inv (pm s) -> slack (length l) (pm s) -> Forall (fun d => zombie_ok d.2) l ->
  wp (PM.reap_loop l) s (fun _ s' => alike f s s').
Proof.
  revert s. induction l as [|[pid z] l IH]; intros s Hi Hs Hz; cbn [PM.reap_loop]; [by apply alike_pm|].
  apply Forall_cons in Hz as [Hz Hzl]. simpl in Hz, Hs. wstep.
  eapply wp_mono; [apply wp_conj; [apply harvest_zombie_thread_wp; [done| |done]|by apply harvest_thread_alike]|]; [unfold slack in *; lia|].
  intros o s1 [(-> & _ & _ & _ & n & Hrm & Hn & _) Hm].
  assert (slack (length l) (pm s1)) as Hs1 by (eapply removed_slack; [exact Hrm|exact Hs|simpl; lia]).
  eapply wp_mono; [apply IH; [|done|done]|].
  - eapply removed_inv; [exact Hrm| |done]. unfold slack in *. lia.
  - intros o s2 Hm2. by transitivity s1.
Qed.

Lemma reap_alike s : inv (pm s) -> alike f s (reaped s).
Proof.
  intros Hi. change (wp PM.reap_deferred s (fun _ s' => alike f s s')). unfold PM.reap_deferred. ksteps.
  set (s1 := PM.with_pm _ s). set (d := deferred_reap (pm s)).
  destruct (reap_start s Hi) as (_ & Hi1 & Hs1 & Hz). eapply wp_mono; [by apply reap_loop_alike|].
  intros o s2 Hm. exact Hm.
Qed.
End Reaping.

Definition addressed (st : ProcessState) : ProcessIdentifier * list Message := (ps_pid st, mailbox st).

#[global] Instance addressed_bare : Bare addressed.
Proof. done. Qed.

Lemma alike_mail s s' : inv (pm s) -> alike addressed s s' -> same_mail s s'.
Proof.
  intros Hi Ha pid. unfold mail_of, alike in *.
  assert (pids (pm s') ≡ₚ pids (pm s)) as Hp.
  { rewrite !pids_states. change ps_pid with (fst ∘ addressed). by rewrite !(list_fmap_compose addressed fst), Ha. }
  destruct (state_of pid (pm s)) as [st|] eqn:E.
  - apply state_of_pid in E as [<- Hin]. apply (list_elem_of_fmap_2 addressed) in Hin. rewrite <- Ha in Hin.
    apply list_elem_of_fmap in Hin as (st' & Hst & Hin). injection Hst as H1 H2.
    rewrite (state_of_elem (ps_pid st) (pm s') st'); [simpl; congruence|rewrite Hp; apply Hi|done|done].
  - apply state_of_none in E. assert (state_of pid (pm s') = None) as ->; [|done].
    apply state_of_none. by rewrite Hp.
Qed.

Lemma same_mail_states s s' : inv (pm s) -> states (pm s') ≡ₚ states (pm s) -> same_mail s s'.
Proof. intros Hi Hs. by apply alike_mail, alike_states. Qed.

Lemma reap_mail s : inv (pm s) -> same_mail s (reaped s).
Proof. intros Hi. apply alike_mail; [done|]. by apply (reap_alike addressed). Qed.

(** ** Sleepers *)

Definition is_sleeping (e : Entry) : bool := match e.2 with Ssleeping _ => true | _ => false end.
Definition asleep (v : list Entry) : list ThreadIdentifier := e_tid <$> filter (fun e => is_sleeping e) v.
Definition sleepers p : list ThreadIdentifier := asleep (snd <$> table p).

#[global] Instance asleep_proper : Proper ((≡ₚ) ==> (≡ₚ)) asleep.
Proof. intros l l' H. unfold asleep. by rewrite H. Qed.

Lemma asleep_app l l' : asleep (l ++ l') = asleep l ++ asleep l'.
Proof. unfold asleep. by rewrite filter_app, fmap_app. Qed.

Lemma asleep_cons e l : asleep (e :: l) = (if is_sleeping e then [e_tid e] else []) ++ asleep l.
Proof. unfold asleep. rewrite filter_cons. by destruct (is_sleeping e). Qed.

Lemma asleep_perm l l' : l ≡ₚ l' -> asleep l ≡ₚ asleep l'.
Proof. by intros ->. Qed.

Lemma elem_of_sleepers tid p : tid ∈ sleepers p <-> sleeps tid p.
Proof.
  unfold sleepers, asleep, sleeps. rewrite list_elem_of_fmap. split.
  - intros ([ts st] & -> & [Hs Hin]%list_elem_of_filter). apply list_elem_of_fmap in Hin as ([pid e] & [= <-] & Hin).
    destruct st; try done. by exists pid, ts, alarm.
  - intros (pid & ts & a & Hin & <-). exists (ts, Ssleeping a). split; [done|]. apply list_elem_of_filter. split; [done|].
    apply list_elem_of_fmap. by exists (pid, (ts, Ssleeping a)).
Qed.

Ltac awake :=
  repeat (rewrite ?asleep_app, ?asleep_cons; cbn [is_sleeping e_sleeping e_ready e_running e_interrupted snd app]);
  change (asleep []) with (@nil ThreadIdentifier);
  repeat match goal with |- context [e_tid (?ts, ?st)] => change (e_tid (ts, st)) with (ts_id ts) end;
  cbn [slp_state app]; unfold RunningProcess.get_tid, Thread.running_id.

Lemma sleep_asleep (r : RunningProcess) a now :
  match RunningProcess.sleep r a now with
  | inl (q, _) => asleep (pview q) ≡ₚ RunningProcess.get_tid r :: asleep (pview r)
  | inr (q, _) => asleep (pview q) ≡ₚ RunningProcess.get_tid r :: asleep (pview r)
  end.
Proof.
  unfold RunningProcess.sleep, Thread.sleep.
  destruct (rp_ready r) as [rdy|] eqn:Hr; [|destruct (rp_interrupted r) as [it|] eqn:Hi].
  - view. rewrite Hr. awake. solve_Permutation.
  - unfold InterruptedProcess.resume. destruct (NonEmpty.pop_front _) as [l x] eqn:Hp. view. rewrite Hr, Hi.
    rewrite (queue_pop_front e_interrupted it l x Hp). view. awake. solve_Permutation.
  - view. rewrite Hr, Hi. view. awake. solve_Permutation.
Qed.

Lemma sleepers_ptable {P} `{!ProcessLike P} (q : P) : asleep (snd <$> ptable q) = asleep (pview q).
Proof. unfold ptable. rewrite <- list_fmap_compose. f_equal. apply list_fmap_id. Qed.

Lemma dispatch_sleepers s (l : list ThreadIdentifier) : running (pm s) = None -> ready (pm s) <> [] -> sleepers (pm s) ≡ₚ l ->
  wp PM.dispatch s (fun _ s' => sleepers (pm s') ≡ₚ l).
Proof.
  intros Hn Hne Hl. apply wp_dispatch; [done|]. intros p k t q reason s' Hd Hv _ _ _ _. rewrite <- Hl.
  destruct Hd as (Hp & Hk & _). unfold sleepers. rewrite Hp. table. rewrite Hn. cbn [from_option].
  assert (tables (ready (pm s)) ≡ₚ ptable p ++ tables k) as Ht by (unfold tables; by rewrite Hk).
  rewrite !asleep_app, (asleep_perm _ _ (fmap_Permutation snd _ _ Ht)), fmap_app, asleep_app, !sleepers_ptable, Hv.
  change (pview q) with (e_running (rp_running q) :: others q). rewrite !asleep_cons. cbn. solve_Permutation.
Qed.

Lemma do_sleep_sleepers s r a : inv (pm s) -> stack_intact s -> running (pm s) = Some r -> ppid r <> KERNEL_PID ->
  wp (PM.do_sleep a) s (fun _ s' => sleepers (pm s') ≡ₚ RunningProcess.get_tid r :: sleepers (pm s)).
Proof.
  intros Hi Hst Hr Hne. pose proof (inv_ready _ _ Hi Hr Hne) as Hk.
  unfold PM.do_sleep. wstep. apply wp_check_guard; [done|]. wstep. apply (wp_take_running s r); [done|].
  destruct (Z.eqb_spec (ps_pid (rp_state r)) KERNEL_PID); [done|].
  wstep. apply wp_clock_now. set (now := reading _). pose proof (sleep_asleep r a now) as Hv. wstep.
  assert (ready (pm s) <> []) as Hrn by (intros Heq; rewrite Heq in Hk; by apply elem_of_nil in Hk).
  destruct (RunningProcess.sleep r a now) as [[q0 from]|[q0 from]]; ksteps.
  - eapply wp_mono; [apply (dispatch_sleepers _ (RunningProcess.get_tid r :: sleepers (pm s))); [done|fields; by destruct (ready (pm s))|]|].
    + unfold sleepers. fields. table. rewrite Hr. cbn [from_option]. rewrite !asleep_app, !sleepers_ptable, Hv. cbn. solve_Permutation.
    + intros [[[[? ?] ?] ?]|?|] s' Hs'; ksteps; done.
  - eapply wp_mono; [apply (dispatch_sleepers _ (RunningProcess.get_tid r :: sleepers (pm s))); [done|done|]|].
    + unfold sleepers. fields. table. rewrite Hr. cbn [from_option]. rewrite !asleep_app, !sleepers_ptable, Hv. cbn. solve_Permutation.
    + intros [[[[? ?] ?] ?]|?|] s' Hs'; ksteps; done.
Qed.

Lemma woken_sleepers tid now p p' : woken tid now p p' -> sleepers p ≡ₚ tid :: sleepers p'.
Proof.
  intros (pid & ts & a & X & <- & H & H'). unfold sleepers. rewrite (asleep_perm _ _ (fmap_Permutation snd _ _ H)).
  rewrite (asleep_perm _ _ (fmap_Permutation snd _ _ H')). simpl. by rewrite !asleep_cons.
Qed.

Lemma reap_sleepers s : inv (pm s) -> sleepers (pm (reaped s)) ≡ₚ sleepers (pm s).
Proof.
  intros Hi. pose proof (reap_deferred_wp s Hi) as (_ & _ & _ & _ & _ & n & Hrm). fold (reaped s) in Hrm.
  unfold sleepers. rewrite (asleep_perm _ _ (fmap_Permutation snd _ _ (rm_table _ _ _ _ _ Hrm))), fmap_app, asleep_app.
  assert (asleep (snd <$> (deferred_row <$> deferred_reap (pm s))) = []) as ->; [|done].
  clear Hrm. induction (deferred_reap (pm s)) as [|d l IH]; [done|]. rewrite !fmap_cons, asleep_cons. exact IH.
Qed.

Lemma sleepers_nodup p : inv p -> NoDup (sleepers p).
Proof.
  intros Hi. unfold sleepers, asleep. eapply sublist_NoDup; [apply (inv_tids _ Hi)|].
  unfold tids. replace (row_tid <$> table p) with (e_tid <$> (snd <$> table p)) by (rewrite <- list_fmap_compose; done).
  apply fmap_sublist, sublist_filter.
Qed.

(** ** Switching *)

Lemma switch_mail s s1 sw : same_mail s s1 -> wp (Sched.switch sw) s1 (fun _ s' => same_mail s s').
Proof.
  intros H. destruct sw as [[[[pid tid] ?] ?] ?]. unfold Sched.switch. ksteps.
  repeat match goal with |- context [negb ?b] => destruct b; cbn [negb] end; ksteps; exact H.
Qed.

(** The running thread has fallen asleep. *)
Definition dozes (r : RunningProcess) s s' : Prop :=
  same_mail s s' /\ sleepers (pm s') ≡ₚ RunningProcess.get_tid r :: sleepers (pm s).

Lemma switch_pm s1 sw : wp (Sched.switch sw) s1 (fun _ s' => pm s' = pm s1).
Proof.
  destruct sw as [[[[pid tid] ?] ?] ?]. unfold Sched.switch. ksteps.
  repeat match goal with |- context [negb ?b] => destruct b; cbn [negb] end; ksteps; done.
Qed.

Lemma sleep_dozes s r a : inv (pm s) -> synced s -> running (pm s) = Some r -> ppid r <> KERNEL_PID ->
  stack_intact (reaped s) -> wp (Sched.sleep a) s (fun o s' => o = Ok tt -> dozes r s s').
Proof.
  intros Hi Hs Hr Hne Hst. unfold Sched.sleep. apply (reap_then _ s r); [done..|].
  intros r1 [Hi1 _ _ _ Hr1 Hp1 Ht1 _]. pose proof (reap_mail s Hi) as Hm. pose proof (reap_sleepers s Hi) as Hsl. wstep.
  assert (ppid r1 <> KERNEL_PID) by by rewrite Hp1.
  eapply wp_mono; [apply wp_conj; [by apply (do_sleep_states _ r1)|by apply (do_sleep_sleepers _ r1)]|].
  intros [sw|e|] s2 [H2 H3]; [|done..]. eapply wp_mono; [apply switch_pm|]. intros o s' Hp _. split.
  - transitivity (reaped s); [done|]. apply same_mail_states; [done|]. by rewrite Hp.
  - rewrite Hp, H3, Hsl. unfold RunningProcess.get_tid. by rewrite Ht1.
Qed.

(** ** Condition variables *)

Lemma wait_dozes s r cv a : inv (pm s) -> synced s -> running (pm s) = Some r -> ppid r <> KERNEL_PID ->
  guarded s -> wp (Condvar.wait cv a) s (fun o s' => o = Ok tt -> dozes r s s').
Proof.
  intros Hi Hs Hr Hne Hgd. unfold Condvar.wait, PM.get_pid, PM.get_tid. wstep. wstep.
  apply (wp_get_running s r); [done|]. wstep. destruct (Z.eqb_spec (ps_pid (rp_state r)) KERNEL_PID); [done|].
  wstep. wstep. apply (wp_get_running s r); [done|]. wstep. wstep.
  eapply wp_mono with (P := fun o s1 => pm s1 = pm s /\ mm s1 = mm s /\ globals s1 = globals s /\ exists b, o = Ok b).
  { destruct a as [a|]; [|ksteps; splits; [done..|by eexists]]. wstep. apply wp_clock_now. ksteps. splits; [done..|by eexists]. }
  intros o s1 (Hp1 & Hm1 & Hg1 & b & ->). destruct b; [by ksteps|].
  unfold Condvar.set_sleeping. ksteps. set (s2 := PM.with_condvars _ s1).
  eapply wp_mono; [apply (sleep_dozes s2 r a); [by rewrite <- Hp1 in Hi| |by rewrite <- Hp1 in Hr|done|by apply Hgd]|].
  - unfold synced. change (pm s2) with (pm s1). change (globals s2) with (globals s1). by rewrite Hp1, Hg1.
  - intros o s' Hd Ho. destruct (Hd Ho) as [Hm Hsl]. change (pm s2) with (pm s1) in Hsl. rewrite Hp1 in Hsl.
    split; [|done]. transitivity s2; [by apply same_mail_pm|done].
Qed.
End Mail.
