(* ===== verification/System.v ===== *)
(** * The process manager as a system

    The states the process manager can reach from its initialisation, when the
    kernel calls its entry points in any order. *)

From S2P Require Import Prelude Error Config Addr NonEmpty Mailbox UserSpace VirtMem Str Thread Process.
From S2P Require Import ProcessView Pending ProcManager ManagerInv Scheduler ManagerOps.
From S2P Require Import ManagerState ManagerReap EntryPoints EntrySpec.
#[local] Open Scope Z_scope.

Section System.
Context {CF : Config} {HC : ConfigOk} {VM : VirtMem} {CK : Clock}.
Implicit Types (s : Kernel) (p : ProcessManager).

(** ** Operations *)

Inductive Op :=
| OpGiveup
| OpTick
| OpSleep (alarm : option SystemTime)
| OpSleepReturn
| OpWait (cv : Condvar) (alarm : option SystemTime)
| OpWaitReturn (cv : Condvar) (tid : ThreadIdentifier)
| OpWakeup (tid : ThreadIdentifier)
| OpNotifyAll (cv : Condvar)
| OpExit (status : ExitStatus)
| OpExitThread (status : ExitStatus)
| OpTerminate (pid : ProcessIdentifier)
| OpCreateProcess (elf : Elf32Fhdr) (args env : str)
| OpCreateThread (pid : ProcessIdentifier) (args : ThreadCreateArgs)
| OpDuplicate (pid : ProcessIdentifier) (args : ThreadCreateArgs)
| OpJoin (pid : ProcessIdentifier) (tid : ThreadIdentifier)
| OpDetach (pid : ProcessIdentifier) (tid : ThreadIdentifier)
| OpHarvest
| OpCapctl (pid : ProcessIdentifier) (c : Capability) (value : bool)
| OpPost (receiver : Z) (m : Message)
| OpRecv (tid : ThreadIdentifier)
| OpAddEvent (ev : Event)
| OpRemoveEvent (ev : Event).

Definition ignore {A} (m : K A) : K unit := m;; mret tt.

Definition exec (op : Op) : K unit :=
  match op with
  | OpGiveup => Sched.giveup
  | OpTick => Sched.tick
  | OpSleep a => Sched.sleep a
  | OpSleepReturn => ignore Sched.sleep_return
  | OpWait cv a => Condvar.wait cv a
  | OpWaitReturn cv tid => ignore (Condvar.wait_return cv tid)
  | OpWakeup tid => Sched.wakeup tid
  | OpNotifyAll cv => ignore (Condvar.notify_all cv)
  | OpExit st => Sched.exit st
  | OpExitThread st => Join.exit_thread st
  | OpTerminate pid => PM.terminate pid
  | OpCreateProcess elf args env => ignore (PM.create_process elf args env)
  | OpCreateThread pid args => ignore (PM.create_thread pid args)
  | OpDuplicate pid args => ignore (PM.duplicate_process pid args)
  | OpJoin pid tid => ignore (Join.join_thread pid tid)
  | OpDetach pid tid => Sched.detach_thread pid tid
  | OpHarvest => ignore PM.harvest_zombies
  | OpCapctl pid c b => PM.capctl pid c b
  | OpPost receiver m => PM.post_message receiver m
  | OpRecv tid => ignore (PM.try_recv tid)
  | OpAddEvent ev => PM.add_event ev
  | OpRemoveEvent ev => PM.remove_event ev
  end.

(** ** When an operation may be called *)

(** What the running process satisfies. *)
Definition caller s (P : RunningProcess → Prop) : Prop := from_option P False (running (pm s)).

(** The documented conditions of the entry points: a stack that has not overflowed,
    the kernel process never blocks or exits, creation with checked arguments.  Two
    more make explicit what the code relies on: nobody waits in a rendezvous for a
    process that exits, and of the threads that wait for a thread that exits, one can
    be woken up. *)
Definition allowed s (op : Op) : Prop :=
  match op with
  | OpGiveup | OpTick => guarded s
  | OpSleep _ | OpWait _ _ | OpJoin _ _ => guarded s /\ caller s (fun r => ppid r <> KERNEL_PID)
  | OpExit _ => guarded s /\ caller s (fun r => ppid r <> KERNEL_PID /\
      Pending.counterparts (pending s) (ppid r) = [])
  | OpExitThread _ => guarded s /\ caller s (fun r => ppid r <> KERNEL_PID /\
      let l := Condvar.sleeping (join_cond (run_state (rp_running r))) s in
      l = [] \/ Exists (fun tid => sleeps tid (pm s)) l)
  | OpCreateProcess elf args env => returns (PM.build_image elf (Str.trim args) (Str.trim env))
  | OpCreateThread pid args => caller s (fun r => create_thread_args_ok r pid args)
  | OpDuplicate pid _ => caller s (fun r => ppid r = pid)
  | _ => True
  end.

Inductive reachable (interrupt_capable : bool) (root : Vmem) (m : MM) : Kernel → Prop :=
| reach_init : reachable interrupt_capable root m (Sched.init interrupt_capable root m)
| reach_step s op : reachable interrupt_capable root m s -> allowed s op ->
    reachable interrupt_capable root m (exec op s).2.

(** What holds in every reachable state. *)
Definition good s : Prop := inv (pm s) /\ synced s.

Lemma synced_same s s' : synced s -> same_running s s' -> synced s'.
Proof.
  unfold synced. intros Hs [Hr Hg]. rewrite Hg. destruct (running (pm s)) as [r|]; [|done].
  destruct (running (pm s')) as [r'|]; [|done]. injection Hr as Ht Hp. simpl. by rewrite Ht, Hp.
Qed.

Lemma init_good ic root m : good (Sched.init ic root m).
Proof.
  split; [|done]. pose proof max_processes_bound. pose proof max_threads_bound.
  constructor; try done; simpl.
  - left.
  - unfold pids. simpl. apply NoDup_singleton.
  - unfold tids, table. simpl. apply NoDup_singleton.
  - unfold pids. simpl. constructor; [unfold ppid; simpl; unfold KERNEL_PID; lia|constructor].
  - unfold tids, table. simpl. constructor; [|constructor]. unfold row_tid. cbn. lia.
  - lia.
  - unfold table. simpl. by constructor.
Qed.

(** ** Every operation keeps the invariant *)

Definition steps_well s (m : K unit) : Prop := wp m s (fun o s' => o <> Panic /\ good s').

Lemma entered_good s o s' : entered s o s' -> o <> Panic /\ good s'.
Proof. intros []. subst o. by splits. Qed.

Lemma wp_ignore {A} (m : K A) s (P : res Error A → Kernel → Prop) : wp m s P ->
  (forall o s', P o s' -> o <> Panic /\ good s') -> steps_well s (ignore m).
Proof.
  intros Hm HP. unfold steps_well, ignore. wstep. eapply wp_mono; [exact Hm|].
  intros o s' Ho. destruct (HP o s' Ho). by destruct o.
Qed.

Lemma restated_good pid st s p1 s' : good s -> restated pid st (pm s) p1 -> ps_pid st = pid ->
  (exists n, pm s' = PM.with_messages n p1) -> globals s' = globals s -> good s'.
Proof.
  intros [Hi Hs] Hr Hst [n Hp] Hg. pose proof (restated_inv _ _ _ _ Hr Hst Hi) as Hi'. split.
  - rewrite Hp. destruct Hi'. by constructor.
  - apply (synced_same s); [done|]. split; [|done]. rewrite Hp.
    change (running (PM.with_messages n p1)) with (running (pm (PM.with_pm p1 s))).
    eapply restated_running; [exact Hr|apply Hi].
Qed.

Lemma with_messages_id p : exists n, p = PM.with_messages n p.
Proof. exists (number_buffered_messages p). by destruct p. Qed.

(** Operations that leave the same thread running. *)
Lemma same_good s s' : good s -> inv (pm s') -> same_running s s' -> good s'.
Proof. intros [_ Hs] Hi Hr. split; [done|]. by apply (synced_same s). Qed.

Lemma moved_good s s' : good s -> inv (pm s') -> moved (pm s) (pm s') ->
  RunningProcess.get_tid <$> running (pm s') = RunningProcess.get_tid <$> running (pm s) ->
  globals s' = globals s -> good s'.
Proof. intros [Hi Hs] Hi' Hm Hr Hg. split; [done|]. by apply (synced_moved s). Qed.

Lemma sleep_return_wp s (Q : res Error (option SleepError) → Kernel → Prop) : good s ->
  (forall o s', good s' -> Q (Ok o) s') -> wp Sched.sleep_return s Q.
Proof.
  intros [Hi Hs] HQ. unfold Sched.sleep_return, PM.take_interrupt_reason. ksteps. apply HQ.
  split; [|exact Hs]. destruct Hi. by constructor.
Qed.

Lemma wait_return_good cv tid s : good s -> steps_well s (ignore (Condvar.wait_return cv tid)).
Proof.
  intros Hg. unfold steps_well, ignore, Condvar.wait_return. wstep. wstep. apply sleep_return_wp; [done|].
  intros [e|] s' Hg'; unfold Condvar.set_sleeping; ksteps; by split.
Qed.

(** Once deferred threads have been reaped, reaping is over. *)
Lemma guarded_reaped s r r1 : guarded s -> after_reap s r (reaped s) r1 -> guarded (reaped s).
Proof.
  intros Hg Har s1 Hp Hm Hgl. pose proof (Hg s eq_refl eq_refl eq_refl) as Hst.
  assert (reaped s1 = PM.with_pm (PM.with_deferred [] (pm s1)) s1) as ->.
  { unfold reaped at 1, PM.reap_deferred, PM.gets, PM.upd. unfold mbind, M_bind. simpl.
    by rewrite Hp, (ar_deferred _ _ _ _ Har). }
  unfold stack_intact in *. fields. by rewrite Hp, Hm, Hgl.
Qed.

Lemma join_thread_wp s r pid tid : good s -> running (pm s) = Some r -> ppid r <> KERNEL_PID ->
  guarded s -> wp (Join.join_thread pid tid) s (fun o s' => o <> Panic /\ good s').
Proof.
  intros [Hi Hs] Hr Hne Hg. unfold Join.join_thread. apply (reap_then _ s r); [done..|]. intros r1 Har.
  destruct (Har) as [Hi1 Hs1 _ _ Hr1 Hp1 _ _].
  eapply wp_mono; [apply (join_round_wp _ r1); [done..|by rewrite Hp1|by eapply guarded_reaped]|].
  intros [[st|]|e|] s' Ho; [| | |done].
  - by destruct Ho as (? & ? & _).
  - split; [done|]. by apply (entered_good (reaped s) (Ok tt)), Ho.
  - simpl in Ho. by subst s'.
Qed.

Lemma blocking_good op s r : good s -> running (pm s) = Some r -> allowed s op ->
  match op with
  | OpGiveup | OpTick | OpSleep _ | OpWait _ _ | OpExit _ | OpExitThread _ | OpJoin _ _ =>
    steps_well s (exec op)
  | _ => True
  end.
Proof.
  intros [Hi Hs] Hr Ha. unfold allowed, caller in Ha. rewrite Hr in Ha. cbn [from_option] in Ha.
  destruct op; try done; cbn [exec].
  - eapply wp_mono; [apply (giveup_wp s r); [done..|by apply Ha]|]. intros o s' [He _].
    by apply (entered_good s).
  - eapply wp_mono; [apply (tick_wp s r); [done..|by apply Ha]|]. intros o s' [-> Ht].
    destruct (1 <? _); [|by apply (entered_good s)]. subst s'. by splits.
  - destruct Ha as [Ha Hne]. eapply wp_mono; [apply (sleep_wp s r); [done..|by apply Ha]|].
    intros o s' [He _]. by apply (entered_good s).
  - destruct Ha as [Ha Hne]. eapply wp_mono; [by apply (wait_wp s r)|].
    intros [[]|e|] s' Ho; [by apply (entered_good s), Ho| |done]. destruct Ho as (_ & Hp & (_ & _ & Hg) & _).
    split; [done|]. unfold good, synced. by rewrite Hp, Hg.
  - destruct Ha as (Ha & Hne & Hc). eapply wp_mono; [apply (exit_wp s r); [done..|by apply Ha|done]|].
    intros o s' [He _]. by apply (entered_good s).
  - destruct Ha as (Ha & Hne & Hj). eapply wp_mono; [apply (exit_thread_wp s r); [done..|by apply Ha]|].
    intros [[]|e|] s' [_ Ho]; [by apply (entered_good s)| |done]. destruct Ho as (Hl & Hf & _). exfalso.
    destruct Hj as [Hj|Hj]; [done|]. apply Exists_exists in Hj as (t & Ht & Hsl).
    rewrite Forall_forall in Hf. by apply (Hf t).
  - destruct Ha as [Ha Hne]. eapply wp_ignore; [by apply (join_thread_wp s r)|]. by intros o s'.
Qed.

Lemma state_op_good op s r : good s -> running (pm s) = Some r ->
  match op with
  | OpCapctl _ _ _ | OpPost _ _ | OpRecv _ | OpAddEvent _ | OpRemoveEvent _ => steps_well s (exec op)
  | _ => True
  end.
Proof.
  intros Hg Hr. pose proof Hg as [Hi Hs]. destruct op; try done; cbn [exec].
  - eapply wp_mono; [by apply capctl_wp|]. intros o s'. unfold capctl_outcome.
    destruct (state_of pid (pm s)) as [st|]; [|by intros [-> ->]].
    destruct (eqb _ _); [by intros (_ & ? & ->)|]. intros (-> & (_ & _ & Hgl) & st' & Hrs & Hst & _).
    split; [done|]. by apply (restated_good _ _ s (pm s') s' Hg Hrs Hst); [apply with_messages_id|].
  - eapply wp_mono; [by apply post_message_wp|]. intros [[]|e|] s'; [| |done].
    + intros ((_ & _ & Hgl) & q & p1 & _ & _ & Hrs & Hp). split; [done|].
      apply (restated_good _ _ s p1 s' Hg Hrs); [done|by eexists|done].
    + intros [->|(_ & (_ & _ & Hgl) & q & Hrs)]; [done|]. split; [done|].
      by apply (restated_good _ _ s (pm s') s' Hg Hrs); [|apply with_messages_id|].
  - eapply wp_ignore; [by apply (try_recv_wp s r)|]. intros o s' [(_ & _ & Hgl) Ho].
    destruct (Mailbox.receive _ _) as [m mbx]. destruct Ho as (p1 & Hrs & Ho).
    assert ((exists n, pm s' = PM.with_messages n p1) /\ o <> Panic) as [Hp Hn].
    { destruct m, o as [[]|e|]; try done; [..|destruct Ho as [_ ->]|rewrite Ho]; (split; [|done]);
        [destruct Ho as [_ ->]; by eexists|apply with_messages_id..]. }
    split; [done|]. by apply (restated_good _ _ s p1 s' Hg Hrs).
  - eapply wp_mono; [by apply (add_event_wp s r)|]. intros o s' (-> & (_ & _ & Hgl) & Hrs). split; [done|].
    by apply (restated_good _ _ s (pm s') s' Hg Hrs); [|apply with_messages_id|].
  - eapply wp_mono; [by apply (remove_event_wp s r)|]. intros o s' (-> & (_ & _ & Hgl) & Hrs). split; [done|].
    by apply (restated_good _ _ s (pm s') s' Hg Hrs); [|apply with_messages_id|].
Qed.

Lemma passive_good op s r : good s -> running (pm s) = Some r -> allowed s op ->
  match op with
  | OpWakeup _ | OpNotifyAll _ | OpTerminate _ | OpCreateProcess _ _ _ | OpCreateThread _ _
  | OpDuplicate _ _ | OpDetach _ _ | OpHarvest => steps_well s (exec op)
  | _ => True
  end.
Proof.
  intros Hg Hr Ha. pose proof Hg as [Hi Hs]. unfold allowed, caller in Ha. rewrite Hr in Ha.
  cbn [from_option] in Ha. destruct op; try done; cbn [exec].
  - eapply wp_mono; [by apply do_wakeup_wp|]. intros [[]|e|] s' [Ho (_ & _ & _ & Hgl)]; [| |done].
    + destruct Ho as (now & _ & Hm & Hi' & Hrun). split; [done|]. by apply (moved_good s).
    + destruct Ho as (_ & Hp & _). split; [done|]. unfold good, synced. by rewrite Hp, Hgl.
  - eapply wp_ignore; [by apply notify_all_wp|]. intros o s' (Hi' & Hm & Hrun & Hgl & Ho).
    split; [by destruct o|]. by apply (moved_good s).
  - eapply wp_mono; [by apply terminate_wp|]. intros o s' (Hm & Hi' & Hrun & Hgl & Ho).
    split; [by destruct o|]. by apply (moved_good s).
  - eapply wp_ignore; [by apply create_process_wp|]. intros o s' [Ho Hp].
    assert (o <> Panic) as Hn by (intros Hpa; by apply (Hp Hpa)). split; [done|].
    destruct o; [apply (same_good s); [done|apply Ho|apply Ho]..|done].
  - eapply wp_ignore; [by apply (create_thread_wp s r)|]. intros o s' Ho.
    destruct o; [split; [done|]; apply (same_good s); [done|apply Ho|apply Ho]..|done].
  - eapply wp_ignore; [by apply (duplicate_process_wp s r)|]. intros o s' [Ho Hp].
    assert (o <> Panic) as Hn by (intros Hpa; by apply (Hp Hpa)). split; [done|].
    destruct o; [apply (same_good s); [done|apply Ho|apply Ho]..|done].
  - eapply wp_mono; [by apply (detach_thread_wp s r)|]. intros o s' (? & ? & ?). by splits.
  - eapply wp_ignore; [by apply harvest_zombies_wp|]. intros o s' (Hi' & Hsr & Ho). split.
    + destruct (zombies (pm s)); by destruct Ho as [-> _].
    + by apply (same_good s).
Qed.

Lemma step_good op s : good s -> allowed s op -> steps_well s (exec op).
Proof.
  intros Hg Ha. destruct (inv_running _ (proj1 Hg)) as [r Hr].
  pose proof (blocking_good op s r Hg Hr Ha). pose proof (passive_good op s r Hg Hr Ha).
  pose proof (state_op_good op s r Hg Hr). destruct op; try done; cbn [exec].
  - eapply wp_ignore; [apply (sleep_return_wp s (fun o s' => o <> Panic /\ good s') Hg)|]; done.
  - by apply wait_return_good.
Qed.

Lemma reachable_good ic root m s : reachable ic root m s -> good s.
Proof.
  induction 1 as [|s op _ IH Ha]; [apply init_good|]. pose proof (step_good op s IH Ha) as [_ H]. exact H.
Qed.

End System.
