(* ===== verification/EventSpec.v ===== *)
(** * The event manager never loses a wakeup

    A thread that waits for events sleeps until something it asked for is pending.  The
    invariant of the event manager says that the converse holds too: while the thread
    sleeps, nothing it asked for is pending and no message is for it.  Producers first queue
    what they produce and then wake up the threads of the owner, so it is kept however the
    calls interleave. *)

From S2P Require Import Prelude Error Config Addr NonEmpty Mailbox UserSpace VirtMem Str Thread Process.
From S2P Require Import ProcessView Pending ProcManager ManagerInv Scheduler ManagerOps.
From S2P Require Import ManagerState ManagerReap EntryPoints Event EventManager Footprint EntrySpec Mail System.
#[local] Open Scope Z_scope.

(** One step through the code of the event manager. *)
Ltac estep :=
  lazymatch goal with
  | |- wp Events.em ?s ?Q => change (Q (Ok s.1) s)
  | |- wp (Events.set_em ?f) ?s ?Q => change (Q (Ok tt) (f s.1, s.2))
  | |- wp (Events.on_k _) _ _ => apply wp_zoom
  | |- _ => wstep
  end; cbv beta iota; cbn [fst snd].

(** The threads inside [wait], with their processes and masks. *)
Notation Blocked := (gmap ThreadIdentifier (ProcessIdentifier * Events.Masks)).

Section EventSpec.
Context {CF : Config} {HC : ConfigOk} {VM : VirtMem} {CK : Clock} {IC : IpcConfig}.
Implicit Types (k : Kernel) (m : EventManagerInner).

(** ** The kernel underneath *)

(** Threads leave the queue [cv] and wake up, among them those of [l]. *)
Record calmed cv (l : list ThreadIdentifier) k k' : Prop := {
  cm_good : good k';
  cm_queue : sublist (Condvar.sleeping cv k') (Condvar.sleeping cv k);
  cm_sleeps t : sleeps t (pm k') -> sleeps t (pm k);
  cm_left t : t ∈ Condvar.sleeping cv k -> t ∉ Condvar.sleeping cv k' -> ~ sleeps t (pm k');
  cm_gone t : t ∈ l -> NoDup (Condvar.sleeping cv k) -> t ∉ Condvar.sleeping cv k';
  cm_next : next_condvar k <= next_condvar k'
}.

Lemma calmed_refl cv k : good k -> calmed cv [] k k.
Proof. intros Hg. constructor; try done. intros t Ht. by apply elem_of_nil in Ht. Qed.

Lemma calmed_trans cv l l' k k1 k2 : calmed cv l k k1 -> calmed cv l' k1 k2 -> calmed cv (l ++ l') k k2.
Proof.
  intros [Hg Hq Hs Hl Hd Hx] [Hg' Hq' Hs' Hl' Hd' Hx']. constructor; [done|by etrans|auto| | |lia].
  - intros t Hin Hn Hsl. destruct (decide (t ∈ Condvar.sleeping cv k1)) as [Hi|Hi].
    + by apply (Hl' t Hi Hn).
    + by apply (Hl t Hin Hi), Hs'.
  - intros t [Ht|Ht]%elem_of_app Hnd.
    + intros Hin. apply (Hd t Ht Hnd). by apply (elem_of_sublist _ _ _ Hin Hq').
    + apply Hd'; [done|]. by eapply sublist_NoDup.
Qed.

Lemma calmed_weaken cv l l' k k' : calmed cv l k k' -> l' ⊆ l -> calmed cv l' k k'.
Proof. intros [Hg Hq Hs Hl Hd Hx] Hsub. constructor; auto. Qed.

(** A thread is woken up: it does not sleep any more, if it did. *)
Lemma wakeup_calm tid k : good k -> wp (Sched.wakeup tid) k (fun o k' => o <> Panic /\ good k' /\ same_mail k k' /\
  condvars k' = condvars k /\ next_condvar k' = next_condvar k /\
  (forall t, sleeps t (pm k') -> sleeps t (pm k)) /\ ~ sleeps tid (pm k')).
Proof.
  intros Hg. pose proof Hg as [Hi Hs]. pose proof (keeps_wakeup next_condvar tid k) as Hx.
  change (wp (Sched.wakeup tid) k (fun _ k' => next_condvar k' = next_condvar k)) in Hx. unfold Sched.wakeup in *.
  eapply wp_mono; [apply wp_conj; [exact Hx|apply wp_conj; [by apply do_wakeup_wp|by apply wakeup_states]]|].
  clear Hx. intros [[]|e|] k' (Hx & [Ho (_ & _ & Hc & Hgl)] & Hst); [| |done].
  - destruct Ho as (now & Hw & Hm & Hi' & Hrun). pose proof (woken_sleepers _ _ _ _ Hw) as Hsl.
    splits; [done|by apply (moved_good k)|by apply same_mail_states|done|done| |].
    + intros t. rewrite <- !elem_of_sleepers, Hsl. by right.
    + pose proof (sleepers_nodup _ Hi) as Hnd. rewrite Hsl, NoDup_cons in Hnd. rewrite <- elem_of_sleepers. apply Hnd.
  - destruct Ho as (_ & Hp & Hns). splits; [done| |by apply same_mail_pm|done|done|by rewrite Hp|by rewrite Hp].
    unfold good, synced. by rewrite Hp, Hgl.
Qed.

Lemma notify_thread_calm cv tid k : good k ->
  wp (Condvar.notify_thread cv tid) k (fun o k' => o <> Panic /\ same_mail k k' /\ calmed cv [tid] k k').
Proof.
  intros Hg. unfold Condvar.notify_thread. ksteps.
  pose proof (NonEmpty.position_spec (Z.eqb tid) (Condvar.sleeping cv k)) as Hp.
  destruct (NonEmpty.position (Z.eqb tid) (Condvar.sleeping cv k)) as [i|] eqn:E.
  - unfold Condvar.set_sleeping. ksteps. set (k1 := PM.with_condvars _ k).
    destruct (Mailbox.position_split _ _ _ E) as (pre & x & post & Hl & _ & Hd & Hx' & _). apply Z.eqb_eq in Hx' as <-.
    assert (Condvar.sleeping cv k1 = pre ++ post) as Hq1.
    { unfold Condvar.sleeping at 1, k1. cbn. by rewrite lookup_insert_eq. }
    eapply wp_mono; [apply (wakeup_calm tid k1); exact Hg|]. intros o k' (Ho & Hg' & Hm & Hc & Hx & Hs & Hn).
    assert (Condvar.sleeping cv k' = pre ++ post) as Hq by (unfold Condvar.sleeping; by rewrite Hc).
    splits; [done|exact Hm|]. constructor; [done| |exact Hs| | |rewrite Hx; reflexivity].
    + rewrite Hq, Hl. apply sublist_app; [done|by apply sublist_cons].
    + rewrite Hq, Hl. intros t Ht Hnt. assert (t = tid) as -> by set_solver. done.
    + intros t ->%list_elem_of_singleton Hnd. rewrite Hl in Hnd. rewrite Hq. apply NoDup_app in Hnd as (_ & Hnd & Hnd').
      rewrite NoDup_cons in Hnd'. set_solver.
  - ksteps. splits; [done|done|]. constructor; [done..| |done]. intros t ->%list_elem_of_singleton _ Hin.
    rewrite Forall_forall in Hp. specialize (Hp tid Hin). simpl in Hp. lia.
Qed.

Lemma notify_threads_calm cv l first k : good k ->
  wp (Events.notify_threads cv l first) k (fun o k' => o <> Panic /\ same_mail k k' /\ calmed cv l k k').
Proof.
  revert first k. induction l as [|tid l IH]; intros first k Hg; cbn [Events.notify_threads].
  { destruct first; ksteps; (splits; [done|done|by apply calmed_refl]). }
  ksteps. eapply wp_mono; [by apply notify_thread_calm|]. intros [[]|e|] k1 (Ho & Hm & Hc); [| |done]; ksteps;
    (eapply wp_mono; [apply IH, Hc|]; intros o k2 (Ho2 & Hm2 & Hc2); splits; [done|by transitivity k1|];
     exact (calmed_trans _ [tid] l _ _ _ Hc Hc2)).
Qed.

(** A thread of another queue is woken up. *)
Lemma notify_other_calm cv cv' tid k : good k ->
  wp (Condvar.notify_thread cv' tid) k (fun o k' => o <> Panic /\ same_mail k k' /\ calmed cv [] k k').
Proof.
  intros Hg. destruct (decide (cv' = cv)) as [->|Hne].
  { eapply wp_mono; [by apply notify_thread_calm|]. intros o k' (Ho & Hm & Hc). splits; [done..|].
    eapply calmed_weaken; [done|set_solver]. }
  unfold Condvar.notify_thread. ksteps. destruct (NonEmpty.position (Z.eqb tid) (Condvar.sleeping cv' k)) as [i|];
    [|ksteps; splits; [done..|by apply calmed_refl]].
  unfold Condvar.set_sleeping. ksteps. set (k1 := PM.with_condvars _ k).
  eapply wp_mono; [apply (wakeup_calm tid k1); exact Hg|]. intros o k' (Ho & Hg' & Hm & Hc & Hx & Hs & Hn).
  assert (Condvar.sleeping cv k' = Condvar.sleeping cv k) as Hq.
  { unfold Condvar.sleeping. rewrite Hc. unfold k1. cbn. by rewrite lookup_insert_ne. }
  splits; [done|exact Hm|]. constructor; rewrite ?Hq; try done; [set_solver|]. rewrite Hx. reflexivity.
Qed.

(** ** The invariant *)

(** Nothing is pending for the numbers of a mask that the process owns. *)
Definition idle {A} (mask : Z) (owners : list (option ProcessIdentifier)) (queues : list (list A)) (pid : ProcessIdentifier) : Prop :=
  forall (i : nat) q, Z.testbit mask (Z.of_nat i) = true -> owners !! i = Some (Some pid) -> queues !! i = Some q -> q = [].

(** No message is for a thread of the process. *)
Definition no_mail pid tid (p : ProcessManager) : Prop :=
  Forall (fun x => Mailbox.to_thread tid x = false /\ Mailbox.to_process x = false) (mail_of pid p).

(** There is nothing that a thread waits for. *)
Record nothing_for m k pid tid (ks : Events.Masks) : Prop := {
  nf_interrupts : idle (Events.interrupts ks) (interrupt_ownership m) (pending_interrupts m) pid;
  nf_exceptions : idle (Events.exceptions ks) (exception_ownership m) (pending_exceptions m) pid;
  nf_scheduling : idle (Events.scheduling ks) (scheduling_ownership m) (pending_scheduling m) pid;
  nf_mail : no_mail pid tid (pm k)
}.

Record waits_ok m k (B : Blocked) : Prop := {
  wo_good : good k;
  wo_fresh : em_wait m < next_condvar k;
  wo_nodup : NoDup (Condvar.sleeping (em_wait m) k);
  wo_known tid : tid ∈ Condvar.sleeping (em_wait m) k -> is_Some (B !! tid);
  wo_waits tid pid ks : B !! tid = Some (pid, ks) -> (pid, tid) ∈ waiting_threads m;
  wo_sleeps tid pid ks : B !! tid = Some (pid, ks) -> sleeps tid (pm k) ->
    tid ∈ Condvar.sleeping (em_wait m) k /\ nothing_for m k pid tid ks
}.

(** Threads wake up, and for those that do not there is still nothing. *)
Lemma waits_step m k B m' k' l : waits_ok m k B -> calmed (em_wait m) l k k' ->
  em_wait m' = em_wait m -> waiting_threads m' = waiting_threads m ->
  (forall tid pid ks, B !! tid = Some (pid, ks) -> (pid, tid) ∈ waiting_threads m -> tid ∉ l ->
     nothing_for m k pid tid ks -> nothing_for m' k' pid tid ks) ->
  waits_ok m' k' B.
Proof.
  intros [Hg Hf Hn Hk Hw Hs] Hc He Ht HN. constructor; rewrite ?He, ?Ht.
  - apply Hc.
  - pose proof (cm_next _ _ _ _ Hc). lia.
  - eapply sublist_NoDup; [exact Hn|apply Hc].
  - intros tid Hin. apply Hk. eapply elem_of_sublist; [exact Hin|apply Hc].
  - done.
  - intros tid pid ks HB Hsl. destruct (Hs tid pid ks HB (cm_sleeps _ _ _ _ Hc _ Hsl)) as [Hq Hnf].
    destruct (decide (tid ∈ Condvar.sleeping (em_wait m) k')) as [Hq'|Hq'];
      [|by destruct (cm_left _ _ _ _ Hc tid Hq Hq')].
    split; [done|]. apply HN; [done|by eapply Hw| |done]. intros Hl. by apply (cm_gone _ _ _ _ Hc tid Hl Hn).
Qed.

Lemma waits_same m k B m' k' : waits_ok m k B -> calmed (em_wait m) [] k k' ->
  em_wait m' = em_wait m -> waiting_threads m' = waiting_threads m ->
  (forall tid pid ks, B !! tid = Some (pid, ks) -> nothing_for m k pid tid ks -> nothing_for m' k' pid tid ks) -> waits_ok m' k' B.
Proof. intros Hw Hc He Ht HN. apply (waits_step m k B m' k' []); auto. Qed.

Lemma nothing_mail m k k' pid tid ks : same_mail k k' -> nothing_for m k pid tid ks -> nothing_for m k' pid tid ks.
Proof. intros Hm [H1 H2 H3 H4]. constructor; [done..|]. unfold no_mail. by rewrite Hm. Qed.

(** ** Producers *)

(** Whatever an operation on the manager and the kernel does, unless it panics. *)
Definition ends {A} (Q : EventManagerInner → Kernel → Prop) (o : res Error A) (s : EventManagerInner * Kernel) : Prop :=
  o <> Panic -> Q s.1 s.2.

(** Something has been queued for the owner of a number, and its threads are woken up. *)
Lemma announce_wp m m1 k B owners i reason : waits_ok m k B ->
  em_wait m1 = em_wait m -> waiting_threads m1 = waiting_threads m ->
  (forall tid pid ks, owners !! i <> Some (Some pid) -> nothing_for m k pid tid ks -> nothing_for m1 k pid tid ks) ->
  wp (pid ← Events.owner_of owners i reason; Events.notify_all_process_threads pid) (m1, k) (ends (fun m' k' => m' = m1 /\ waits_ok m' k' B)).
Proof.
  intros Hw He Ht HN. unfold Events.owner_of. wstep. destruct (owners !! i) as [[p|]|]; [| |by wsteps].
  - estep. unfold Events.notify_all_process_threads. do 3 estep. rewrite He, Ht.
    eapply wp_mono; [apply notify_threads_calm, Hw|]. intros o k' (_ & Hm & Hc) _. split; [done|].
    eapply waits_step; [exact Hw|exact Hc|done|done|]. intros tid pid ks _ Hin Hni Hnf. apply (nothing_mail _ k k' _ _ _ Hm).
    apply HN; [|done]. intros [= ->]. apply Hni, list_elem_of_fmap. exists (pid, tid). split; [done|]. by apply list_elem_of_filter.
  - wstep. intros _. split; [done|]. apply (waits_same m k); [done|apply calmed_refl, Hw|done|done|]. intros tid pid ks _. by apply HN.
Qed.

(** A queue of another process grows. *)
Lemma idle_push {A} mask owners (queues : list (list A)) i x pid : owners !! i <> Some (Some pid) ->
  idle mask owners queues pid -> idle mask owners (Events.push_at i x queues) pid.
Proof.
  intros Ho Hid j q Hb Hp Hq. destruct (decide (i = j)) as [->|Hne]; [done|]. apply (Hid j q Hb Hp).
  unfold Events.push_at in Hq. by rewrite list_lookup_alter_ne in Hq.
Qed.

Lemma waits_counted n m k B : waits_ok m k B -> waits_ok (Events.with_nevents n m) k B.
Proof.
  intros Hw. apply (waits_same m k); [done|apply calmed_refl, Hw|done|done|]. intros tid pid ks _ [H1 H2 H3 H4]. by constructor.
Qed.

(** An event has been counted. *)
Lemma count_ok m k (Q : res Error Z → EventManagerInner * Kernel → Prop) :
  (forall n, Q (Ok n) (Events.with_nevents n m, k)) -> Q Panic (m, k) -> wp Events.count_event (m, k) Q.
Proof.
  intros H1 H2. unfold Events.count_event, usize_add. do 4 estep. destruct (nevents m + 1 <=? usize_max); [|done]. do 3 estep. apply H1.
Qed.

Lemma wakeup_interrupt_ok mask m k B : waits_ok m k B -> wp (Events.wakeup_interrupt mask) (m, k) (ends (fun m' k' => waits_ok m' k' B)).
Proof.
  intros Hw. unfold Events.wakeup_interrupt. do 2 estep. destruct (em_interrupt_capable m); [estep; intros _; exact Hw|].
  estep. apply (count_ok m k); [|done]. intros n. do 2 estep.
  destruct (InterruptEvent_try_from _) as [ev|e|]; [|by intros _; apply waits_counted|done].
  do 2 estep. eapply wp_mono; [eapply (announce_wp m); [done..|]|by intros o s' H Ho; apply H].
  intros tid pid ks Ho [H1 H2 H3 H4]. constructor; [|done..]. by apply idle_push.
Qed.

Lemma interrupt_handler_ok n m k B : waits_ok m k B -> wp (Events.interrupt_handler n) (m, k) (ends (fun m' k' => waits_ok m' k' B)).
Proof.
  intros Hw. unfold Events.interrupt_handler. do 3 estep. destruct (Events.bit_mask n) as [mask|e|]; [|estep; intros _; exact Hw|done].
  eapply wp_mono; [by apply wakeup_interrupt_ok|]. intros [[]|e|] s' H; [exact H| |done]. estep. intros _. by apply H.
Qed.

(** A new condition variable is not the one that threads wait on. *)
Lemma new_condvar_calm cv k : good k -> cv < next_condvar k ->
  wp PM.new_condvar k (fun o k' => o = Ok (next_condvar k) /\ same_mail k k' /\ calmed cv [] k k').
Proof.
  intros Hg Hlt. unfold wp, PM.new_condvar. cbn. splits; [done|by apply same_mail_pm|].
  set (k' := mkKernel _ _ _ _ _ _ _). assert (Condvar.sleeping cv k' = Condvar.sleeping cv k) as Hq.
  { unfold Condvar.sleeping, k'. cbn. rewrite lookup_insert_ne; [done|lia]. }
  constructor; rewrite ?Hq; try done; [set_solver|]. cbn. lia.
Qed.

Lemma wakeup_exception_ok mask pid tid info m k B : waits_ok m k B ->
  wp (Events.wakeup_exception mask pid tid info) (m, k) (ends (fun m' k' => waits_ok m' k' B)).
Proof.
  intros Hw. unfold Events.wakeup_exception. estep. apply (count_ok m k); [|done]. intros n. do 2 estep.
  destruct (ExceptionEvent_try_from _) as [ev|e|]; [|by intros _; apply waits_counted|done].
  do 2 estep. eapply wp_mono; [apply (new_condvar_calm (em_wait m)); apply Hw|].
  intros o k1 (-> & Hm & Hc). do 4 estep. set (m1 := Events.with_exceptions _ _).
  assert (waits_ok m k1 B) as Hw1.
  { eapply waits_same; [exact Hw|exact Hc|done..|]. intros t p ks _. by apply nothing_mail. }
  apply wp_bind_assoc. estep. eapply wp_mono; [apply (announce_wp m m1 k1 B); [done..|]|].
  - intros t p ks Ho [H1 H2 H3 H4]. constructor; [done| |done..]. by apply idle_push.
  - intros [[]|e|] s' H; [estep; intros _; by apply H|intros _; by apply H|done].
Qed.

Lemma termination_ok info m k B : waits_ok m k B ->
  wp (Events.notify_process_termination info) (m, k) (ends (fun m' k' => waits_ok m' k' B)).
Proof.
  intros Hw. unfold Events.notify_process_termination. estep. apply (count_ok m k); [|done]. intros n. do 4 estep.
  eapply wp_mono; [apply (announce_wp m); [done..|]|by intros o s' H Ho; apply H].
  intros t p ks Ho [H1 H2 H3 H4]. constructor; [done..| |done]. by apply idle_push.
Qed.

(** ** Messages *)

(** Replacing the state of a process wakes nobody up. *)
Lemma restated_calm cv pid st k p1 k' : good k -> restated pid st (pm k) p1 -> ps_pid st = pid ->
  (exists n, pm k' = PM.with_messages n p1) -> frame k k' -> next_condvar k' = next_condvar k -> calmed cv [] k k'.
Proof.
  intros Hg Hr Hst Hp (_ & Hc & Hgl) Hx.
  assert (Condvar.sleeping cv k' = Condvar.sleeping cv k) as Hq by (unfold Condvar.sleeping; by rewrite Hc).
  assert (forall t, sleeps t (pm k') <-> sleeps t (pm k)) as Hs.
  { intros t. destruct Hp as [n ->]. unfold sleeps. change (table (PM.with_messages n p1)) with (table p1). by rewrite (rs_table _ _ _ _ Hr). }
  constructor; rewrite ?Hq; [by eapply restated_good|done|by intros t ?%Hs|done|set_solver|by rewrite Hx].
Qed.

#[local] Instance keeps_post receiver x : Keeps next_condvar (PM.post_message receiver x).
Proof.
  unfold PM.post_message, PM.find_process, PM.find_process_by_tid, PM.note_message_posted, PM.get_running. still.
Qed.

(** What a message changes, for the threads that are not told. *)
Lemma posted_mail x k k1 (q : ProcessRef) p1 pid tid : inv (pm k) -> refers (pm k) q ->
  restated (ps_pid (PM.ref_state q)) (ProcessState.post_message x (PM.ref_state q)) (pm k) p1 ->
  (exists n, pm k1 = PM.with_messages n p1) ->
  pid <> ps_pid (PM.ref_state q) \/ Mailbox.to_thread tid x = false /\ Mailbox.to_process x = false ->
  no_mail pid tid (pm k) -> no_mail pid tid (pm k1).
Proof.
  intros Hi Hq Hr [n Hp] Hor. unfold no_mail. rewrite Hp. change (mail_of pid (PM.with_messages n p1)) with (mail_of pid p1).
  pose proof (refers_state _ _ Hq) as Hin.
  rewrite (restated_mail _ _ _ _ pid Hr); [|done|rewrite pids_states; apply list_elem_of_fmap; by eexists].
  destruct (Z.eqb_spec pid (ps_pid (PM.ref_state q))) as [->|]; [|done]. destruct Hor as [Hne|Hx]; [done|].
  unfold mail_of. rewrite (state_of_elem _ _ _ (inv_pids _ Hi) Hin eq_refl). cbn. intros Hf. unfold Mailbox.send.
  apply Forall_app. split; [done|]. by constructor.
Qed.

Lemma send_ok x m k B : waits_ok m k B -> number_buffered_messages (pm k) < usize_max ->
  wp (Events.do_send x) (m, k) (ends (fun m' k' => waits_ok m' k' B)).
Proof.
  intros Hw Hn. pose proof (wo_good _ _ _ Hw) as Hg. unfold Events.do_send, Events.post_message. do 2 estep.
  eapply wp_mono; [apply wp_conj; [apply (post_message_wp k (destination x) x), Hg|apply (keeps_wp next_condvar); apply _]|].
  intros [[]|e|] k1 [Ho Hx]; [|destruct Ho as [->|[? _]]; [intros _; exact Hw|lia]|done].
  destruct Ho as (Hf & q & p1 & Hq & Hd & Hr & Hp). assert (exists n, pm k1 = PM.with_messages n p1) as Hp' by by eexists.
  assert (calmed (em_wait m) [] k k1) as Hc by by eapply restated_calm.
  pose proof (posted_mail x k k1 q p1) as Hmail. unfold denotes in Hd. destruct (as_id (destination x)) as [pid|tid] eqn:Ed.
  - unfold Events.notify_all_process_threads. do 3 estep. eapply wp_mono; [apply notify_threads_calm, Hc|].
    intros o k2 (_ & Hm & Hc2) _. eapply waits_step; [exact Hw|exact (calmed_trans _ [] _ _ _ _ Hc Hc2)|done|done|].
    intros t p ks _ Hin Hni [H1 H2 H3 H4]. apply (nothing_mail _ k1 k2 _ _ _ Hm). constructor; [done..|].
    apply Hmail; [apply Hg|done..| |done]. left. intros ->. apply Hni, list_elem_of_fmap. exists (pid, t). split; [done|].
    apply list_elem_of_filter. by rewrite <- Hd.
  - do 3 estep. eapply wp_mono; [apply notify_thread_calm, Hc|].
    intros o k2 (_ & Hm & Hc2) _. eapply waits_step; [exact Hw|exact (calmed_trans _ [] _ _ _ _ Hc Hc2)|done|done|].
    intros t p ks _ Hin Hni [H1 H2 H3 H4]. apply (nothing_mail _ k1 k2 _ _ _ Hm). constructor; [done..|].
    apply Hmail; [apply Hg|done..| |done]. right. unfold Mailbox.to_thread, Mailbox.to_process. rewrite Ed. split; [|done].
    apply Z.eqb_neq. intros ->. apply Hni. left.
Qed.

(** ** Resuming *)

Lemma idle_shrink {A} mask owners (queues queues' : list (list A)) pid :
  (forall i q', queues' !! i = Some q' -> q' <> [] -> exists q, queues !! i = Some q /\ q <> []) ->
  idle mask owners queues pid -> idle mask owners queues' pid.
Proof.
  intros H Hid i q' Hb Ho Hq. destruct q' as [|y q']; [done|]. destruct (H i _ Hq) as (q & Hl & Hne); [done|].
  by destruct (Hne (Hid i q Hb Ho Hl)).
Qed.

Lemma kcall_resume_ok d m k B : waits_ok m k B -> wp (Events.kcall_resume d) (m, k) (ends (fun m' k' => waits_ok m' k' B)).
Proof.
  intros Hw. unfold Events.kcall_resume. do 2 estep. destruct (EventDescriptor.try_from d) as [desc|e|]; [|intros _; exact Hw|done].
  unfold Events.resume, Events.resume_exception. do 2 estep.
  destruct (EventDescriptor.event desc) as [[n|n|ev]|e|]; try (by estep; intros _; exact Hw); [|intros _; exact Hw|done].
  do 4 estep. destruct (exception_ownership m !! Z.to_nat n) as [[o|]|]; [|done..].
  destruct (pending_exceptions m !! Z.to_nat n) as [q|] eqn:Eq; [|done].
  destruct (NonEmpty.position _ q) as [i|]; [|estep; intros _; exact Hw].
  destruct (q !! i) as [[[d' x] cv]|] eqn:Ei; [|done]. do 4 estep.
  eapply wp_mono; [apply (notify_other_calm (em_wait m)), Hw|].
  intros [[]|e|] k' (_ & Hm & Hc); [| |done].
  all: try estep; intros _; cbn [fst snd]; eapply waits_same; [exact Hw|exact Hc|done|done|].
  all: intros t p ks _ Hnf; apply (nothing_mail _ k k' _ _ _ Hm); destruct Hnf as [H1 H2 H3 H4]; constructor; [done| |done..].
  all: eapply idle_shrink; [|exact H2]; intros j q' Hj Hne; cbn in Hj;
    apply list_lookup_insert_Some in Hj as [(<- & <- & _)|[_ Hj]]; [exists q; by destruct q|by exists q'].
Qed.

(** ** Ownership *)

Definition index_of (ev : Event) : nat :=
  match ev with EvInterrupt n | EvException n => Z.to_nat n | EvScheduling ev => Z.to_nat (SchedulingEvent_value ev) end.

(** A thread with these masks waits for the event. *)
Definition asks (ks : Events.Masks) (ev : Event) : bool :=
  Z.testbit (match ev with
             | EvInterrupt _ => Events.interrupts ks
             | EvException _ => Events.exceptions ks
             | EvScheduling _ => Events.scheduling ks
             end) (Z.of_nat (index_of ev)).

(** No thread of the process is inside a call of [wait] that it made while the process owned
    the event before. *)
Definition unasked (B : Blocked) pid ev : Prop := forall tid ks, B !! tid = Some (pid, ks) -> asks ks ev = false.

(** The owner that a request leaves behind. *)
Definition new_owner (pid : option ProcessIdentifier) (req : EventCtrlRequest) : option ProcessIdentifier :=
  match req with Register_ => pid | Unregister => None end.

Lemma evctrl_owners_wp cap r1 r2 r3 owners idx pid req k : good k ->
  wp (Events.evctrl_owners cap r1 r2 r3 owners idx pid req) k (fun o k' => k' = k /\
    match o with Ok l => l = <[idx := new_owner pid req]> owners | _ => True end).
Proof.
  intros [Hi _]. unfold Events.evctrl_owners. destruct (owners !! idx) as [owner|]; [|by wsteps].
  destruct req, pid as [pid|]; try (by wsteps).
  - wstep. unfold wp. rewrite (has_capability_eq k pid cap Hi). destruct (state_of pid (pm k)) as [st|]; cbn; [|done].
    destruct (ProcessState.has_capability cap st); cbn; [|done]. by destruct owner.
  - case_bool_decide; by wsteps.
Qed.

Lemma idle_owner {A} mask owners (queues : list (list A)) idx o pid : (o = Some pid -> Z.testbit mask (Z.of_nat idx) = false) ->
  idle mask owners queues pid -> idle mask (<[idx := o]> owners) queues pid.
Proof.
  intros Ho Hid i q Hb Hi Hq. apply list_lookup_insert_Some in Hi as [(-> & -> & _)|[_ Hi]]; [|by eapply Hid].
  by rewrite (Ho eq_refl) in Hb.
Qed.

(** Any change of an owner, by a process or by the kernel. *)
Lemma do_evctrl_ok pid ev req m k B : waits_ok m k B ->
  (forall p, pid = Some p -> req = Register_ -> unasked B p ev) ->
  wp (match ev with
      | EvInterrupt n => Events.do_evctrl_interrupt pid n req
      | EvException n => Events.do_evctrl_exception pid n req
      | EvScheduling ev => Events.do_evctrl_scheduling pid ev req
      end) (m, k) (ends (fun m' k' => waits_ok m' k' B)).
Proof.
  intros Hw Hu. assert (forall p tid ks, B !! tid = Some (p, ks) -> new_owner pid req = Some p -> asks ks ev = false) as Hask.
  { intros p tid ks HB Hn. destruct req; [|done]. by apply (Hu p Hn eq_refl tid). }
  assert (forall m', em_wait m' = em_wait m -> waiting_threads m' = waiting_threads m ->
    (forall p tid ks, (new_owner pid req = Some p -> asks ks ev = false) -> nothing_for m k p tid ks -> nothing_for m' k p tid ks) ->
    waits_ok m' k B) as Hend.
  { intros m' He Ht HN. apply (waits_same m k); [done|apply calmed_refl, Hw|done|done|]. intros tid p ks HB. apply HN. by apply (Hask p tid). }
  destruct ev as [n|n|ev].
  1: unfold Events.do_evctrl_interrupt; do 2 estep; destruct (interrupt_ownership m !! Z.to_nat n) as [[o|]|];
       [estep; intros _; exact Hw| |done].
  2: unfold Events.do_evctrl_exception; do 2 estep.
  3: unfold Events.do_evctrl_scheduling; do 2 estep.
  all: do 2 estep; eapply wp_mono; [apply evctrl_owners_wp, Hw|].
  all: intros [l|e|] k' [-> Ho]; [|intros _; exact Hw|done]; estep; intros _; rewrite Ho; apply Hend; [done..|].
  all: intros p tid ks Hp [H1 H2 H3 H4]; constructor; try done; by apply idle_owner.
Qed.

(** ** Kernel calls on ownership *)

#[local] Instance keeps_events ev : Keeps next_condvar (PM.add_event ev).
Proof. unfold PM.add_event, PM.get_running, PM.set_running. still. Qed.
#[local] Instance keeps_no_events ev : Keeps next_condvar (PM.remove_event ev).
Proof. unfold PM.remove_event, PM.get_running, PM.set_running. still. Qed.

(** Changing the events that the running process holds. *)
Lemma own_events_ok (f : ProcessState → ProcessState) (op : K unit) r m k B : waits_ok m k B -> running (pm k) = Some r ->
  (forall st, mailbox (f st) = mailbox st /\ ps_pid (f st) = ps_pid st) ->
  wp op k (event_outcome k r (f (rp_state r))) -> Keeps next_condvar op ->
  wp (Events.on_k op) (m, k) (ends (fun m' k' => waits_ok m' k' B)).
Proof.
  intros Hw Hr Hf Hop Hk. pose proof (wo_good _ _ _ Hw) as Hg. pose proof (proj1 Hg) as Hi.
  estep. eapply wp_mono; [apply wp_conj; [exact Hop|by apply (keeps_wp next_condvar)]|].
  intros o k' [(-> & Hfr & Hrs) Hx] _. destruct (Hf (rp_state r)) as [Hm Hp].
  assert (rp_state r ∈ states (pm k)) as Hin by (apply (refers_state _ (PRunning r)); exact Hr).
  eapply waits_same; [exact Hw| |done|done|].
  - eapply restated_calm; [done|exact Hrs|exact Hp|apply with_messages_id|done|done].
  - intros t p ks _. apply nothing_mail. cbn [snd]. intros pid.
    rewrite (restated_mail _ _ _ _ pid Hrs Hp); [|rewrite pids_states; apply list_elem_of_fmap; by exists (rp_state r)].
    destruct (Z.eqb_spec pid (ppid r)) as [->|]; [|done]. unfold mail_of.
    pose proof (state_of_elem _ _ _ (inv_pids _ Hi) Hin eq_refl) as Hst.
    change (ps_pid (rp_state r)) with (ppid r) in Hst. by rewrite Hst.
Qed.

Lemma drop_ownership_ok ev m k B : waits_ok m k B -> wp (Events.drop_ownership ev) (m, k) (ends (fun m' k' => waits_ok m' k' B)).
Proof.
  intros Hw. unfold Events.drop_ownership. estep. eapply wp_mono; [by apply (do_evctrl_ok None ev Unregister)|].
  intros [[]|e|] s' H; [exact H|estep; intros _; by apply H|done].
Qed.

Lemma evctrl_ok pid ev req m k B : waits_ok m k B -> (req = Register_ -> unasked B pid ev) ->
  wp (Events.evctrl pid ev req) (m, k) (ends (fun m' k' => waits_ok m' k' B)).
Proof.
  intros Hw Hu. assert (forall p, Some pid = Some p -> req = Register_ -> unasked B p ev) as Hu' by by intros p [= <-].
  pose proof (do_evctrl_ok (Some pid) ev req m k B Hw Hu') as Hd. unfold Events.evctrl. estep.
  destruct ev as [n|n|ev]; [do 2 estep; destruct (em_interrupt_capable m); cbn [negb]; [|estep; intros _; exact Hw]|..].
  all: eapply wp_mono; [exact Hd|]; intros [[]|e|] s' H; [estep; intros _; by apply H|intros _; by apply H|done].
Qed.

Lemma kcall_evctrl_ok pid a0 a1 m k B : waits_ok m k B ->
  (forall ev, Event_try_from a0 = Ok ev -> EventCtrlRequest_try_from a1 = Ok Register_ -> unasked B pid ev) ->
  wp (Events.kcall_evctrl pid a0 a1) (m, k) (ends (fun m' k' => waits_ok m' k' B)).
Proof.
  intros Hw Hu. unfold Events.kcall_evctrl. do 2 estep. destruct (Event_try_from a0) as [ev|e|]; [|intros _; exact Hw|done].
  do 2 estep. destruct (EventCtrlRequest_try_from a1) as [req|e|]; [|intros _; exact Hw|done].
  assert (req = Register_ -> unasked B pid ev) as Hu' by (intros ->; by apply Hu).
  estep. eapply wp_mono; [by apply evctrl_ok|]. intros [owns|e|] [m1 k1] H; [|intros _; by apply H|done].
  specialize (H ltac:(done)). simpl in H. pose proof (wo_good _ _ _ H) as [Hi _]. destruct (inv_running _ Hi) as [r Hr]. destruct owns.
  - by eapply (own_events_ok (ProcessState.add_event ev)); [| | |apply add_event_wp|apply _].
  - do 2 estep. apply (wp_get_running k1 r); [done|]. estep.
    eapply wp_mono; [by eapply (own_events_ok (ProcessState.remove_event ev)); [| | |apply remove_event_wp|apply _]|].
    intros [[]|e|] [m2 k2] H2; [|exact H2|done]. specialize (H2 ltac:(done)). case_bool_decide; [by apply drop_ownership_ok|estep; intros _; exact H2].
Qed.
End EventSpec.
