(* ===== verification/EventWait.v ===== *)
(** * Waiting for events

    [EventManager::wait] keeps the invariant of the event manager, and so do its callers in
    any order: a thread that sleeps in it is not missing anything. *)

From S2P Require Import Prelude Error Config Addr NonEmpty Mailbox UserSpace VirtMem Str Thread Process.
From S2P Require Import ProcessView Pending ProcManager ManagerInv Scheduler ManagerOps.
From S2P Require Import ManagerState ManagerReap EntryPoints Event EventManager Footprint EntrySpec Mail System EventSpec.
#[local] Open Scope Z_scope.

Section EventWait.
Context {CF : Config} {HC : ConfigOk} {VM : VirtMem} {CK : Clock} {IC : IpcConfig}.
Implicit Types (k : Kernel) (m : EventManagerInner).

(** ** Looking for something pending *)

(** Nothing is pending for the numbers of a mask, whoever owns them. *)
Definition empty_for {A} (mask : Z) (queues : list (list A)) : Prop :=
  forall (i : nat) q, Z.testbit mask (Z.of_nat i) = true -> queues !! i = Some q -> q = [].

Lemma empty_idle {A} mask owners (queues : list (list A)) pid : empty_for mask queues -> idle mask owners queues pid.
Proof. intros H i q Hb _ Hq. by apply (H i). Qed.

Lemma find_pending_spec {A} mask i (queues : list (list A)) :
  match Events.find_pending mask i queues with
  | Some (n, x, q) => exists j, n = (i + j)%nat /\ queues !! j = Some (x :: q)
  | None => forall (j : nat) q, Z.testbit mask (Z.of_nat (i + j)) = true -> queues !! j = Some q -> q = []
  end.
Proof.
  revert i. induction queues as [|q queues IH]; intros i; cbn [Events.find_pending]; [by intros j q _ ?|].
  specialize (IH (S i)). destruct (Z.testbit mask (Z.of_nat i)) eqn:Eb; [destruct q as [|x q]|].
  2: { exists 0%nat. split; [lia|done]. }
  all: destruct (Events.find_pending mask (S i) queues) as [[[n y] q']|]; [destruct IH as (j & -> & Hj); exists (S j); split; [lia|done]|].
  all: intros [|j] q'' Hb Hq; [|apply (IH j q''); [by rewrite Nat.add_succ_l, <- Nat.add_succ_r|done]].
  - by injection Hq as <-.
  - rewrite Nat.add_0_r in Hb. congruence.
Qed.

Lemma find_pending_none {A} mask (queues : list (list A)) : Events.find_pending mask 0 queues = None -> empty_for mask queues.
Proof. intros E. pose proof (find_pending_spec mask 0 queues) as H. by rewrite E in H. Qed.

(** Pending events are taken, the manager is the same otherwise. *)
Definition shrunk {A} (queues queues' : list (list A)) : Prop :=
  forall i q', queues' !! i = Some q' -> q' <> [] -> exists q, queues !! i = Some q /\ q <> [].

Record drained m m' : Prop := {
  dr_wait : em_wait m' = em_wait m;
  dr_waiting : waiting_threads m' = waiting_threads m;
  dr_owners : interrupt_ownership m' = interrupt_ownership m /\ exception_ownership m' = exception_ownership m /\
    scheduling_ownership m' = scheduling_ownership m;
  dr_interrupts : shrunk (pending_interrupts m) (pending_interrupts m');
  dr_exceptions : shrunk (pending_exceptions m) (pending_exceptions m');
  dr_scheduling : shrunk (pending_scheduling m) (pending_scheduling m')
}.

Lemma shrunk_refl {A} (l : list (list A)) : shrunk l l.
Proof. intros i q Hq Hne. by exists q. Qed.

Lemma shrunk_insert {A} (l : list (list A)) i x q q' : l !! i = Some (x :: q) -> shrunk l (<[i := q']> l).
Proof.
  intros Hl j r Hj Hne. apply list_lookup_insert_Some in Hj as [(<- & _ & _)|[_ Hj]]; [by exists (x :: q)|by exists r].
Qed.

#[local] Hint Resolve shrunk_refl shrunk_insert : core.

Lemma drained_refl m : drained m m.
Proof. by constructor; auto. Qed.

(** The class of events with number [c] has nothing for the masks. *)
Definition class_empty (c : Z) m (ks : Events.Masks) : Prop :=
  if c =? 0 then empty_for (Events.interrupts ks) (pending_interrupts m)
  else if c =? 1 then empty_for (Events.exceptions ks) (pending_exceptions m)
  else empty_for (Events.scheduling ks) (pending_scheduling m).

Definition tried {A} m k (P : Prop) (o : res Error (option A)) (s' : EventManagerInner * Kernel) : Prop :=
  o <> Panic -> s'.2 = k /\ drained m s'.1 /\ (o = Ok None -> s'.1 = m /\ P).

Lemma try_class_wp c pid ks m k : wp (Events.try_class c pid ks) (m, k) (tried m k (class_empty c m ks)).
Proof.
  unfold Events.try_class, class_empty. destruct (c =? 0); [|destruct (c =? 1)].
  - unfold Events.try_interrupts. do 2 estep. pose proof (find_pending_spec (Events.interrupts ks) 0 (pending_interrupts m)) as Hf.
    destruct (Events.find_pending _ 0 _) as [[[i x] q]|] eqn:E; [|estep; intros _; split_and!; auto using drained_refl, find_pending_none].
    destruct Hf as (j & -> & Hj). do 3 estep. intros _. split_and!; [done| |done]. constructor; try done; (apply shrunk_refl || by eapply shrunk_insert).
  - unfold Events.try_exceptions. do 2 estep. pose proof (find_pending_spec (Events.exceptions ks) 0 (pending_exceptions m)) as Hf.
    destruct (Events.find_pending _ 0 _) as [[[i [[d x] r]] q]|] eqn:E; [|estep; intros _; split_and!; auto using drained_refl, find_pending_none].
    destruct Hf as (j & -> & Hj). do 2 estep. destruct (EventInformation.into_message _ _) as [msg|e|]; [|by intros _; split_and!; auto using drained_refl|done].
    do 3 estep. intros _. split_and!; [done| |done]. constructor; try done; (apply shrunk_refl || by eapply shrunk_insert).
  - unfold Events.try_scheduling. do 2 estep. pose proof (find_pending_spec (Events.scheduling ks) 0 (pending_scheduling m)) as Hf.
    destruct (Events.find_pending _ 0 _) as [[[i [d x]] q]|] eqn:E; [|estep; intros _; split_and!; auto using drained_refl, find_pending_none].
    destruct Hf as (j & -> & Hj). do 4 estep. destruct (termination_payload _ _) as [msg|e|]; [estep| |done];
      (intros _; split_and!; [done| |done]; constructor; try done; (apply shrunk_refl || by eapply shrunk_insert)).
Qed.

Lemma try_classes_wp l pid ks m k :
  wp (Events.try_classes l pid ks) (m, k) (tried m k (Forall (fun i => class_empty ((nevents m + i) mod 3) m ks) l)).
Proof.
  induction l as [|i l IH]; cbn [Events.try_classes].
  { estep. intros _. split_and!; [done|apply drained_refl|done]. }
  do 4 estep. unfold usize_add. destruct (nevents m + i <=? usize_max); [|done]. estep.
  eapply wp_mono; [apply try_class_wp|]. intros [[msg|]|e|] [m1 k1] H; [| | |done]; specialize (H ltac:(done)); cbn [fst snd] in H;
    destruct H as (-> & Hd & Hn).
  - estep. intros _. by split_and!.
  - destruct (Hn eq_refl) as [-> He]. eapply wp_mono; [apply IH|]. intros o [m2 k2] H Ho. destruct (H Ho) as (Hk & Hd2 & Hn2).
    split_and!; [done..|]. intros Hno. destruct (Hn2 Hno). split; [done|by constructor].
  - intros _. by split_and!.
Qed.

(** All three classes are looked at. *)
Lemma classes_all m ks : Forall (fun i => class_empty ((nevents m + i) mod 3) m ks) [0; 1; 2] ->
  empty_for (Events.interrupts ks) (pending_interrupts m) /\ empty_for (Events.exceptions ks) (pending_exceptions m) /\
  empty_for (Events.scheduling ks) (pending_scheduling m).
Proof.
  intros H. assert (forall c, 0 <= c < 3 -> class_empty c m ks) as Hc.
  { intros c Hc. rewrite Forall_forall in H. replace c with ((nevents m + (c - nevents m) mod 3) mod 3) by
      (rewrite Zplus_mod_idemp_r; replace (nevents m + (c - nevents m)) with c by lia; apply Z.mod_small; lia).
    apply H. pose proof (Z.mod_pos_bound (c - nevents m) 3). rewrite !elem_of_cons. lia. }
  split_and!; [apply (Hc 0)|apply (Hc 1)|apply (Hc 2)]; lia.
Qed.

(** ** Messages *)

#[local] Instance keeps_recv tid : Keeps next_condvar (PM.try_recv tid).
Proof. unfold PM.try_recv, PM.get_running, PM.set_running, PM.note_message_received. still. Qed.

Lemma running_mail r k : inv (pm k) -> running (pm k) = Some r -> mail_of (ppid r) (pm k) = mailbox (rp_state r).
Proof.
  intros Hi Hr. unfold mail_of. by rewrite (state_of_elem (ppid r) (pm k) (rp_state r) (inv_pids _ Hi) (refers_state _ (PRunning r) Hr)).
Qed.

Lemma received_sub buf buf' tid o : Mailbox.receive buf tid = (o, buf') -> buf' ⊆ buf.
Proof.
  intros E%Mailbox.receive_ok. destruct o as [x|]; [|by destruct E as [-> _]]. destruct E as (pre & post & -> & -> & _). set_solver.
Qed.

(** A message is taken, or there is none and nothing changes. *)
Lemma try_recv_cases cv tid r k : good k -> running (pm k) = Some r ->
  wp (PM.try_recv tid) k (fun o k' => o <> Panic ->
    (o = Ok None -> k' = k /\ no_mail (ppid r) tid (pm k)) /\ calmed cv [] k k' /\
    forall pid, mail_of pid (pm k') ⊆ mail_of pid (pm k)).
Proof.
  intros Hg Hr. pose proof (proj1 Hg) as Hi. pose proof (running_mail r k Hi Hr) as Hmail.
  destruct (Mailbox.receive (mailbox (rp_state r)) tid) as [x buf] eqn:E. pose proof (received_sub _ _ _ _ E) as Hsub.
  pose proof (Mailbox.receive_ok _ _ _ _ E) as Hpost. destruct x as [x|].
  - eapply wp_mono; [apply wp_conj; [by apply (try_recv_wp k r)|apply (keeps_wp next_condvar), _]|].
    unfold recv_outcome. rewrite E. intros o k' [(Hf & p1 & Hrs & Ho) Hx] _.
    assert (o <> Ok None /\ exists n, pm k' = PM.with_messages n p1) as [Hno [n Hp]].
    { destruct o as [[y|]|e|]; [..|done]; [destruct Ho as [_ ->]|done|destruct Ho as [_ ->]]; (split; [done|]); [by eexists|apply with_messages_id]. }
    split_and!; [done|by eapply restated_calm; [done|exact Hrs|done|by exists n|..]|]. intros pid. rewrite Hp.
    change (mail_of pid (PM.with_messages n p1)) with (mail_of pid p1).
    rewrite (restated_mail _ _ _ _ pid Hrs); [|done|rewrite pids_states; apply list_elem_of_fmap; exists (rp_state r); split; [done|by apply (refers_state _ (PRunning r))]].
    destruct (Z.eqb_spec pid (ppid r)) as [->|]; [|done]. by rewrite Hmail.
  - destruct Hpost as [-> Hnone]. unfold PM.try_recv. wstep. apply (wp_get_running k r); [done|].
    unfold ProcessState.receive_message. rewrite E. unfold PM.set_running. ksteps. intros _.
    assert (PM.with_pm (PM.with_running (Some (RunningProcess.with_state (ProcessState.with_mailbox (mailbox (rp_state r)) (rp_state r)) r)) (pm k)) k = k) as ->.
    { destruct r as [[] ?????], k as [[] ??????]. cbn in *. by rewrite Hr. }
    split_and!; [intros _; split; [done|]|by apply calmed_refl|done]. unfold no_mail. by rewrite Hmail.
Qed.

(** ** One round *)

Lemma nothing_less m m' k k' pid tid ks : drained m m' -> (forall p, mail_of p (pm k') ⊆ mail_of p (pm k)) ->
  nothing_for m k pid tid ks -> nothing_for m' k' pid tid ks.
Proof.
  intros [_ _ (Ho1 & Ho2 & Ho3) H1 H2 H3] Hsub [N1 N2 N3 N4]. constructor; rewrite ?Ho1, ?Ho2, ?Ho3.
  1-3: by eapply idle_shrink.
  unfold no_mail in *. rewrite Forall_forall in *. intros x Hx. by apply N4, Hsub.
Qed.

Lemma try_wait_ok tid ks r m k B : waits_ok m k B -> running (pm k) = Some r ->
  wp (Events.try_wait tid (ppid r) ks) (m, k) (fun o s' => o <> Panic -> waits_ok s'.1 s'.2 B /\
    waiting_threads s'.1 = waiting_threads m /\ (o = Ok None -> s' = (m, k) /\ nothing_for m k (ppid r) tid ks)).
Proof.
  intros Hw Hr. pose proof (wo_good _ _ _ Hw) as Hg. unfold Events.try_wait. estep. eapply wp_mono; [apply try_classes_wp|].
  assert (forall m1, drained m m1 -> waits_ok m1 k B) as Hd.
  { intros m1 Hd. eapply waits_same; [exact Hw|apply calmed_refl, Hw|apply Hd|apply Hd|]. intros t p q _. by apply nothing_less. }
  intros [[x|]|e|] [m1 k1] H; [| | |done]; destruct (H ltac:(done)) as (Hk & Hdr & Hn); cbn [fst snd] in *; subst k1.
  - estep. intros _. split_and!; [by apply Hd|apply Hdr|done].
  - destruct (Hn eq_refl) as [-> (E1 & E2 & E3)%classes_all]. estep. eapply wp_mono; [by apply (try_recv_cases (em_wait m) tid r)|].
    intros o k' Ho Hne. destruct (Ho Hne) as (Hnone & Hc & Hsub). split_and!; [|done|].
    + eapply waits_same; [exact Hw|exact Hc|done|done|]. intros t p q _. apply nothing_less; [apply drained_refl|done].
    + intros Hno. destruct (Hnone Hno) as [-> Hmail]. split; [done|]. constructor; [by apply empty_idle..|done].
  - intros _. split_and!; [by apply Hd|apply Hdr|done].
Qed.

(** A thread that is not inside [wait] is taken off the list. *)
Lemma stop_waiting_ok m k B pid tid : waits_ok m k B -> B !! tid = None ->
  waits_ok (Events.with_waiting (filter (fun w => w.1 <> pid \/ w.2 <> tid) (waiting_threads m)) m) k B.
Proof.
  intros [Hg Hf Hn Hk Hw Hs] HB. constructor; [done..| |].
  - intros t p ks Ht. apply list_elem_of_filter. split; [right; cbn; congruence|by eapply Hw].
  - intros t p ks Ht Hsl. destruct (Hs t p ks Ht Hsl) as [Hq [N1 N2 N3 N4]]. split; [done|by constructor].
Qed.

(** What a call of [wait] by the thread leaves behind: it is inside the call, or it is not. *)
Definition after {A} tid (v : ProcessIdentifier * Events.Masks) (B : Blocked) (o : res Error (option A)) : Blocked :=
  match o with Ok None => <[tid := v]> B | _ => B end.

Definition waited {A} tid v B (o : res Error (option A)) (s' : EventManagerInner * Kernel) : Prop :=
  o <> Panic -> waits_ok s'.1 s'.2 (after tid v B o).

#[local] Instance keeps_wait cv a : Keeps next_condvar (Condvar.wait cv a).
Proof.
  assert (forall l, Keeps next_condvar (Condvar.set_sleeping cv l)) by by intros l s.
  unfold Condvar.wait, PM.get_pid, PM.get_tid, PM.get_running. still.
Qed.

(** The thread falls asleep: there is nothing for it. *)
Lemma doze_ok m k B r ks : waits_ok m k B -> running (pm k) = Some r -> ppid r <> KERNEL_PID -> guarded k ->
  B !! RunningProcess.get_tid r = None -> (ppid r, RunningProcess.get_tid r) ∈ waiting_threads m ->
  nothing_for m k (ppid r) (RunningProcess.get_tid r) ks ->
  wp (Condvar.wait (em_wait m) None) k (fun o k' => o = Ok tt /\ waits_ok m k' (<[RunningProcess.get_tid r := (ppid r, ks)]> B)).
Proof.
  intros Hw Hr Hne Hgd HB Hin Hnf. pose proof Hw as [Hg Hf Hn Hk Hwt Hs]. destruct Hg as [Hi Hsy]. set (tid := RunningProcess.get_tid r) in *.
  eapply wp_mono; [apply wp_conj; [by apply (wait_wp k r)|apply wp_conj; [by apply (wait_dozes k r)|apply (keeps_wp next_condvar), _]]|].
  intros [[]|e|] k' (Ho & Hd & Hx); [|by destruct Ho as (_ & _ & _ & ?)|done]. destruct Ho as (He & _ & Hq). destruct (Hd eq_refl) as [Hm Hsl].
  assert (tid ∉ Condvar.sleeping (em_wait m) k) as Hni by (intros Hi'; destruct (Hk tid Hi'); congruence).
  split; [done|]. constructor.
  - split; [apply He|apply He].
  - by rewrite Hx.
  - rewrite Hq. apply NoDup_app. split_and!; [done| |apply NoDup_singleton]. intros t Ht ->%list_elem_of_singleton. done.
  - intros t. rewrite Hq. intros [Ht| ->%list_elem_of_singleton]%elem_of_app; [|rewrite lookup_insert_eq; by eexists].
    destruct (decide (tid = t)) as [->|Hnt]; [done|]. rewrite lookup_insert_ne by done. by apply Hk.
  - intros t p q. destruct (decide (tid = t)) as [<-|Hnt]; [rewrite lookup_insert_eq; by intros [= <- <-]|].
    rewrite lookup_insert_ne by done. apply Hwt.
  - intros t p q. rewrite Hq, elem_of_app, list_elem_of_singleton. destruct (decide (tid = t)) as [<-|Hnt].
    + rewrite lookup_insert_eq. intros [= <- <-] _. split; [by right|by apply (nothing_mail _ k)].
    + rewrite lookup_insert_ne by done. intros Ht Hst. rewrite <- elem_of_sleepers, Hsl, elem_of_cons, elem_of_sleepers in Hst.
      destruct Hst as [->|Hst]; [done|]. destruct (Hs t p q Ht Hst). split; [by left|by apply (nothing_mail _ k)].
Qed.

Lemma wait_round_ok ks r m k B : waits_ok m k B -> running (pm k) = Some r -> ppid r <> KERNEL_PID -> guarded k ->
  B !! RunningProcess.get_tid r = None -> (ppid r, RunningProcess.get_tid r) ∈ waiting_threads m ->
  wp (Events.wait_round (RunningProcess.get_tid r) (ppid r) ks) (m, k) (waited (RunningProcess.get_tid r) (ppid r, ks) B).
Proof.
  intros Hw Hr Hne Hgd HB Hin. unfold Events.wait_round, Events.stop_waiting. do 2 estep. eapply wp_mono; [by apply try_wait_ok|].
  intros [[x|]|e|] [m1 k1] H; [| | |done]; destruct (H ltac:(done)) as (Hw1 & Hwt & Hn); cbn [fst snd] in *.
  - do 3 estep. intros _. by apply stop_waiting_ok.
  - destruct (Hn eq_refl) as [[= -> ->] Hnf]. do 4 estep. eapply wp_mono; [by apply doze_ok|].
    intros o k' [-> Hok]. estep. intros _. exact Hok.
  - do 3 estep. intros _. by apply stop_waiting_ok.
Qed.

(** ** The call *)

Lemma wait_ok r m k B : waits_ok m k B -> running (pm k) = Some r -> ppid r <> KERNEL_PID -> guarded k ->
  B !! RunningProcess.get_tid r = None ->
  wp (Events.wait (RunningProcess.get_tid r) (ppid r)) (m, k)
    (waited (RunningProcess.get_tid r) (ppid r, Events.masks_of (ppid r) m) B).
Proof.
  intros Hw Hr Hne Hgd HB. unfold Events.wait. do 4 estep. apply wait_round_ok; [|done..|cbn; set_solver].
  destruct Hw as [Hg Hf Hn Hk Hwt Hs]. constructor; [done..| |].
  - intros t p ks Ht. cbn. apply elem_of_app. left. by eapply Hwt.
  - intros t p ks Ht Hsl. destruct (Hs t p ks Ht Hsl) as [Hq [N1 N2 N3 N4]]. split; [done|by constructor].
Qed.

Lemma filter_absent (t : ThreadIdentifier) (l : list ThreadIdentifier) : t ∉ l -> filter (fun x => x <> t) l = l.
Proof.
  induction l as [|y l IH]; [done|]. intros [Hne Hni]%not_elem_of_cons. rewrite filter_cons, decide_True by done. by rewrite IH.
Qed.

(** A thread that runs again is off the queue. *)
Lemma waits_forget m k k' B tid : waits_ok m k B -> good k' -> table (pm k') = table (pm k) -> same_mail k k' ->
  next_condvar k' = next_condvar k ->
  Condvar.sleeping (em_wait m) k' = filter (fun t => t <> tid) (Condvar.sleeping (em_wait m) k) -> waits_ok m k' (delete tid B).
Proof.
  intros [Hg Hf Hn Hk Hwt Hs] Hg' Ht Hm Hx Hq. constructor; [done|by rewrite Hx|rewrite Hq; by apply NoDup_filter|..].
  - intros t. rewrite Hq. intros [Hne Hin]%list_elem_of_filter. rewrite lookup_delete_ne by done. by apply Hk.
  - intros t p ks [_ HB]%lookup_delete_Some. by eapply Hwt.
  - intros t p ks [Hne HB]%lookup_delete_Some Hsl. unfold sleeps in Hsl. rewrite Ht in Hsl. destruct (Hs t p ks HB Hsl) as [Hin Hnf].
    split; [rewrite Hq; by apply list_elem_of_filter|by apply (nothing_mail _ k)].
Qed.

Lemma wait_resume_ok r ks m k B : waits_ok m k B -> running (pm k) = Some r -> ppid r <> KERNEL_PID -> guarded k ->
  B !! RunningProcess.get_tid r = Some (ppid r, ks) ->
  RunningProcess.get_tid r ∉ Condvar.sleeping (em_wait m) k \/ pm_interrupt_reason (pm k) <> None ->
  wp (Events.wait_resume (RunningProcess.get_tid r) (ppid r) ks) (m, k)
    (waited (RunningProcess.get_tid r) (ppid r, ks) (delete (RunningProcess.get_tid r) B)).
Proof.
  intros Hw Hr Hne Hgd HB Hor. set (tid := RunningProcess.get_tid r) in *. pose proof (wo_good _ _ _ Hw) as [Hi Hsy].
  unfold Events.wait_resume. do 4 estep. unfold Condvar.wait_return, Sched.sleep_return, PM.take_interrupt_reason. ksteps.
  destruct (pm_interrupt_reason (pm k)) as [e|] eqn:Er; cbn [fmap option_fmap option_map].
  - unfold Condvar.set_sleeping. ksteps. unfold Events.stop_waiting. do 2 estep. intros _. cbn [after fst snd].
    apply stop_waiting_ok; [|apply lookup_delete_eq]. eapply waits_forget; [exact Hw| |done|by intros p|done|].
    + split; [|exact Hsy]. destruct Hi. by constructor.
    + unfold Condvar.sleeping at 1. cbn. by rewrite lookup_insert_eq.
  - ksteps. destruct Hor as [Hni|]; [|done].
    assert (PM.with_pm (PM.with_reason None (pm k)) k = k) as ->.
    { destruct k as [[] ??????]. cbn in *. by rewrite Er. }
    eapply wp_mono; [apply (wait_round_ok ks r m k (delete tid B)); try done|].
    + eapply waits_forget; [exact Hw|apply Hw|done|done|done|]. symmetry. by apply filter_absent.
    + apply lookup_delete_eq.
    + by eapply (wo_waits _ _ _ Hw).
    + intros [[x|]|e|] [m' k'] H; [| | |done]; [estep|estep|]; intros _; exact (H ltac:(done)).
Qed.

(** ** Everything else *)

(** What the rest of the kernel does: it posts no message, puts no thread to sleep that is
    inside [wait], puts none on the queue of waiting threads, and takes none off that goes on
    sleeping. *)
Record quiet cv (B : Blocked) k k' : Prop := {
  qu_good : good k';
  qu_next : next_condvar k <= next_condvar k';
  qu_queue : sublist (Condvar.sleeping cv k') (Condvar.sleeping cv k);
  qu_mail pid : mail_of pid (pm k') ⊆ mail_of pid (pm k);
  qu_sleeps tid : is_Some (B !! tid) -> sleeps tid (pm k') ->
    sleeps tid (pm k) /\ (tid ∈ Condvar.sleeping cv k -> tid ∈ Condvar.sleeping cv k')
}.

Lemma quiet_ok m k k' B : waits_ok m k B -> quiet (em_wait m) B k k' -> waits_ok m k' B.
Proof.
  intros [Hg Hf Hn Hk Hwt Hs] [Hg' Hx Hq Hm Hsl]. constructor; [done|lia|by eapply sublist_NoDup| |done|].
  - intros t Ht. apply Hk. by eapply elem_of_sublist.
  - intros t p ks HB Hst. destruct (Hsl t) as [Hst' Hin]; [by eexists|done|]. destruct (Hs t p ks HB Hst') as [Hq' Hnf].
    split; [by apply Hin|]. eapply nothing_less; [apply drained_refl|exact Hm|exact Hnf].
Qed.

(** A thread that is not inside [wait] sleeps, or any thread is woken up: that is quiet. *)
Lemma sleep_quiet cv (B : Blocked) k r a : good k -> running (pm k) = Some r -> ppid r <> KERNEL_PID -> guarded k ->
  B !! RunningProcess.get_tid r = None -> quiet cv B k (Sched.sleep a k).2.
Proof.
  intros [Hi Hs] Hr Hne Hg HB. pose proof (Hg k eq_refl eq_refl eq_refl) as Hst. pose proof (keeps_sleep next_condvar a k) as Hx.
  pose proof (wp_conj _ _ _ _ (sleep_wp k r a Hi Hs Hr Hne Hst) (sleep_dozes k r a Hi Hs Hr Hne Hst)) as [(He & _ & Hc) Hd].
  destruct (Hd (en_ok _ _ _ He)) as [Hm Hsl]. assert (Condvar.sleeping cv (Sched.sleep a k).2 = Condvar.sleeping cv k) as Hq.
  { unfold Condvar.sleeping. by rewrite Hc. }
  constructor; rewrite ?Hq; [split; [apply (en_inv _ _ _ He)|apply (en_synced _ _ _ He)]|by rewrite Hx|done|by intros pid; rewrite Hm|].
  intros t HBt Ht. split; [|done]. rewrite <- elem_of_sleepers, Hsl, elem_of_cons, elem_of_sleepers in Ht.
  destruct Ht as [->|Ht]; [|done]. rewrite HB in HBt. by destruct HBt.
Qed.

Lemma wakeup_quiet cv (B : Blocked) k tid : good k -> quiet cv B k (Sched.wakeup tid k).2.
Proof.
  intros Hg. pose proof (wakeup_calm tid k Hg) as (_ & Hg' & Hm & Hc & Hx & Hs & _).
  assert (Condvar.sleeping cv (Sched.wakeup tid k).2 = Condvar.sleeping cv k) as Hq by (unfold Condvar.sleeping; by rewrite Hc).
  constructor; rewrite ?Hq; [done|by rewrite Hx|done|by intros pid; rewrite Hm|]. intros t _ Ht. split; [by apply Hs|done].
Qed.

(** ** The event manager as a system *)

Record World := mkWorld { w_em : EventManagerInner; w_k : Kernel; w_blocked : Blocked }.

(** Calls that do not block. *)
Inductive Call :=
| CallInterrupt (intnum : Z)
| CallException (mask : Z) (pid : ProcessIdentifier) (tid : ThreadIdentifier) (info : ExceptionInformation)
| CallTermination (info : ProcessTerminationInfo)
| CallSend (message : Message)
| CallResume (evdesc : Z)
| CallEvctrl (pid : ProcessIdentifier) (arg0 arg1 : Z)
| CallDrop (ev : Event).

Definition discard {A} (c : M (EventManagerInner * Kernel) Error A) : M (EventManagerInner * Kernel) Error unit := c;; mret tt.

Definition run_call (c : Call) : M (EventManagerInner * Kernel) Error unit :=
  match c with
  | CallInterrupt n => Events.interrupt_handler n
  | CallException mask pid tid info => discard (Events.wakeup_exception mask pid tid info)
  | CallTermination info => Events.notify_process_termination info
  | CallSend message => Events.do_send message
  | CallResume evdesc => Events.kcall_resume evdesc
  | CallEvctrl pid a0 a1 => Events.kcall_evctrl pid a0 a1
  | CallDrop ev => Events.drop_ownership ev
  end.

(** The count of buffered messages does not overflow; and a process does not register an event
    again while one of its threads is inside a call of [wait] from the first time. *)
Definition call_ok (w : World) (c : Call) : Prop :=
  match c with
  | CallSend _ => number_buffered_messages (pm (w_k w)) < usize_max
  | CallEvctrl pid a0 a1 => forall ev, Event_try_from a0 = Ok ev -> EventCtrlRequest_try_from a1 = Ok Register_ -> unasked (w_blocked w) pid ev
  | _ => True
  end.

(** The running thread is one of a user process, which may block. *)
Definition user_thread (w : World) (r : RunningProcess) : Prop :=
  running (pm (w_k w)) = Some r /\ ppid r <> KERNEL_PID /\ guarded (w_k w).

Inductive event_step (w : World) : World → Prop :=
| step_wait r o s' : user_thread w r -> w_blocked w !! RunningProcess.get_tid r = None ->
    Events.wait (RunningProcess.get_tid r) (ppid r) (w_em w, w_k w) = (o, s') -> o <> Panic ->
    event_step w (mkWorld s'.1 s'.2 (after (RunningProcess.get_tid r) (ppid r, Events.masks_of (ppid r) (w_em w)) (w_blocked w) o))
| step_resume r ks o s' : user_thread w r -> w_blocked w !! RunningProcess.get_tid r = Some (ppid r, ks) ->
    (** It has been notified, or interrupted. *)
    RunningProcess.get_tid r ∉ Condvar.sleeping (em_wait (w_em w)) (w_k w) \/ pm_interrupt_reason (pm (w_k w)) <> None ->
    Events.wait_resume (RunningProcess.get_tid r) (ppid r) ks (w_em w, w_k w) = (o, s') -> o <> Panic ->
    event_step w (mkWorld s'.1 s'.2 (after (RunningProcess.get_tid r) (ppid r, ks) (delete (RunningProcess.get_tid r) (w_blocked w)) o))
| step_call c o s' : call_ok w c -> run_call c (w_em w, w_k w) = (o, s') -> o <> Panic ->
    event_step w (mkWorld s'.1 s'.2 (w_blocked w))
| step_quiet k' : quiet (em_wait (w_em w)) (w_blocked w) (w_k w) k' -> event_step w (mkWorld (w_em w) k' (w_blocked w)).

Inductive event_reachable (ic : bool) : World → Prop :=
| er_init k m k' : good k -> Events.init ic k = (Ok m, k') -> event_reachable ic (mkWorld m k' ∅)
| er_step w w' : event_reachable ic w -> event_step w w' -> event_reachable ic w'.

Definition world_ok (w : World) : Prop := waits_ok (w_em w) (w_k w) (w_blocked w).

Lemma init_ok ic k m k' : good k -> Events.init ic k = (Ok m, k') -> world_ok (mkWorld m k' ∅).
Proof.
  intros Hg. unfold Events.init, PM.new_condvar, mbind, M_bind, mret, M_ret. intros [= <- <-]. unfold world_ok. cbn.
  constructor; try done; cbn; [lia|..].
  - unfold Condvar.sleeping. cbn. rewrite lookup_insert_eq. apply NoDup_nil_2.
  - intros t. unfold Condvar.sleeping. cbn. rewrite lookup_insert_eq. by intros ?%elem_of_nil.
Qed.

Lemma run_call_ok c w : world_ok w -> call_ok w c ->
  wp (run_call c) (w_em w, w_k w) (ends (fun m' k' => waits_ok m' k' (w_blocked w))).
Proof.
  intros Hw Hc. destruct c; cbn [run_call call_ok] in *.
  - by apply interrupt_handler_ok.
  - unfold discard. estep. eapply wp_mono; [by apply wakeup_exception_ok|].
    intros [cv|e|] s' H; [estep|..]; intros Ho; by apply H.
  - by apply termination_ok.
  - by apply send_ok.
  - by apply kcall_resume_ok.
  - by apply kcall_evctrl_ok.
  - by apply drop_ownership_ok.
Qed.

Lemma event_step_ok w w' : world_ok w -> event_step w w' -> world_ok w'.
Proof.
  intros Hw Hst. destruct Hst as [r o s' (Hr & Hne & Hg) HB E Hp|r ks o s' (Hr & Hne & Hg) HB Hor E Hp|c o s' Hc E Hp|k' Hq].
  - by apply (wp_run _ _ _ _ _ (wait_ok r _ _ _ Hw Hr Hne Hg HB) E).
  - by apply (wp_run _ _ _ _ _ (wait_resume_ok r ks _ _ _ Hw Hr Hne Hg HB Hor) E).
  - by apply (wp_run _ _ _ _ _ (run_call_ok c w Hw Hc) E).
  - by eapply quiet_ok.
Qed.

Lemma event_reachable_ok ic w : event_reachable ic w -> world_ok w.
Proof. induction 1 as [k m k' Hg Hi|w w' _ IH Hs]; [by eapply init_ok|by eapply event_step_ok]. Qed.
End EventWait.
