(* ===== verification/Sample.v ===== *)
(** * A small system

    The configuration, memory and clock in which the examples of the process manager
    are evaluated, and runs of the system from its initialisation. *)

From S2P Require Import Prelude Error Config Addr NonEmpty Mailbox UserSpace VirtMem Str Thread Process.
From S2P Require Import ProcessView Pending ProcManager ManagerInv Scheduler ManagerOps.
From S2P Require Import ManagerState ManagerReap EntryPoints EntrySpec System.
#[local] Open Scope Z_scope.

(** The clock counts its readings. *)
Definition sample_clock : Clock := {| reading := Z.of_nat |}.

#[local] Existing Instance sample_config.
#[local] Existing Instance sample_config_ok.
#[local] Existing Instance sample_virt_mem.
#[local] Existing Instance sample_clock.

Lemma sample_clock_moves n : reading n < reading (S n).
Proof. change (Z.of_nat n < Z.of_nat (S n)). lia. Qed.

Definition boot : Kernel := Sched.init false tt tt.

Lemma boot_reachable : reachable false tt tt boot.
Proof. apply reach_init. Qed.

Fixpoint run (ops : list Op) (s : Kernel) : Kernel :=
  match ops with [] => s | op :: ops => run ops (exec op s).2 end.

Fixpoint all_allowed (ops : list Op) (s : Kernel) : Prop :=
  match ops with [] => True | op :: ops => allowed s op /\ all_allowed ops (exec op s).2 end.

Lemma run_reachable ops s : reachable false tt tt s -> all_allowed ops s -> reachable false tt tt (run ops s).
Proof.
  revert s. induction ops as [|op ops IH]; intros s Hs Ha; [done|]. destruct Ha as [Ha Hl].
  apply IH; [by apply reach_step|done].
Qed.

Lemma run_good ops : all_allowed ops boot -> good (run ops boot).
Proof. intros H. eapply reachable_good, run_reachable; [apply boot_reachable|done]. Qed.

(** The guards of the sample memory are always intact. *)
Lemma sample_intact s : stack_intact s.
Proof.
  right. destruct (running (pm s)) as [r|]; [|done]. simpl. unfold ThreadState.check_guard_watermark.
  by destruct (kernel_stack _).
Qed.

Lemma sample_guarded s : guarded s.
Proof. intros s1 _ _ _. apply sample_intact. Qed.

Definition new_process : Op := OpCreateProcess tt [] [].

Lemma new_process_allowed s : allowed s new_process.
Proof. intros [[] []]. vm_compute. discriminate. Qed.

(** Calls that block are allowed in a process of users. *)
Lemma user_allowed s (P : RunningProcess → Prop) : caller s P -> guarded s /\ caller s P.
Proof. split; [apply sample_guarded|done]. Qed.

(** A run of the sample system is allowed. *)
Ltac check_run :=
  cbn [app all_allowed];
  splits;
  match goal with
  | |- True => exact I
  | |- allowed _ (OpPost _ _) => exact I
  | |- allowed _ new_process => apply new_process_allowed
  | |- allowed _ OpGiveup => apply sample_guarded
  | |- allowed _ _ => apply user_allowed; vm_compute; repeat split; discriminate
  end.

(** The thread that runs in a state. *)
Lemma running_key s tid pid : run_key <$> running (pm s) = Some (tid, pid) ->
  exists r, running (pm s) = Some r /\ ppid r = pid /\ RunningProcess.get_tid r = tid.
Proof. intros Hk. destruct (running (pm s)) as [r|]; [|done]. exists r. by injection Hk as Ht Hp. Qed.

#[export] Hint Resolve sample_guarded new_process_allowed : sample.
