(* ===== verification/Fairness.v ===== *)
(** * Fairness of the scheduler

    Ready threads run in the order in which they were admitted.  A thread that is
    ready therefore runs after at most as many calls of [schedule] as there are ready
    threads that were not admitted after it.  The clock is assumed to move on between
    two readings. *)

From S2P Require Import Prelude Error Config Addr NonEmpty Mailbox UserSpace VirtMem Str Thread Process.
From S2P Require Import ProcessView Pending ProcManager ManagerInv Scheduler.
From S2P Require Import EntryPoints EntrySpec System Sample.
#[local] Open Scope Z_scope.

Section Fairness.
Context {CF : Config} {VM : VirtMem} {CK : Clock}.
Implicit Types (s : Kernel) (p : ProcessManager) (a : SystemTime).

(** A thread that is ready and was not admitted after [a]. *)
Definition early a (row : Row) : Prop :=
  match row.2.2 with Sready b => b <= a | _ => False end.
#[global] Instance early_dec a row : Decision (early a row).
Proof. unfold early. destruct (row.2.2); apply _. Defined.

(** How many threads the scheduler may prefer to one admitted at [a], itself included. *)
Definition ahead a p : nat := length (filter (early a) (table p)).

Lemma ahead_perm a p T : table p ≡ₚ T -> ahead a p = length (filter (early a) T).
Proof. intros H. unfold ahead. by rewrite H. Qed.

(** Rows that are not ready, or were admitted later, do not count. *)
Lemma late_filter a (l : list Row) : Forall (fun r => ~ early a r) l -> filter (early a) l = [].
Proof. apply filter_none. Qed.

Lemma fmap_late {T} a pid (e : T → Entry) l : (forall t, ~ early a (pid, e t)) ->
  filter (early a) (pair pid <$> (e <$> l)) = [].
Proof.
  intros H. apply late_filter. apply Forall_fmap, Forall_fmap. apply Forall_forall. intros t _. apply H.
Qed.

Lemma queue_late {T} a pid (e : T → Entry) q : (forall t, ~ early a (pid, e t)) ->
  filter (early a) (pair pid <$> queue e q) = [].
Proof. apply fmap_late. Qed.

(** The rows of threads that are not ready do not count. *)
#[local] Ltac late :=
  rewrite ?fmap_app, ?filter_app;
  repeat first [rewrite queue_late by (intros; unfold early; simpl; tauto)
               |rewrite fmap_late by (intros; unfold early; simpl; tauto)].

Lemma sleeping_late a (l : list SleepingProcess) : filter (early a) (tables l) = [].
Proof.
  induction l as [|p l IH]; [done|]. rewrite tables_cons, filter_app, IH, app_nil_r. unfold ptable. view.
  by late.
Qed.

Lemma interrupted_late a (l : list InterruptedProcess) : filter (early a) (tables l) = [].
Proof.
  induction l as [|p l IH]; [done|]. rewrite tables_cons, filter_app, IH, app_nil_r. unfold ptable. view.
  by late.
Qed.

Lemma zombie_late a (l : list ZombieProcess) : filter (early a) (tables l) = [].
Proof.
  induction l as [|p l IH]; [done|]. rewrite tables_cons, filter_app, IH, app_nil_r. unfold ptable. view.
  by late.
Qed.

(** Processes that are resumed later than [a]. *)
Lemma resumed_late a n l : (forall k, (n <= k)%nat -> a < reading k) ->
  filter (early a) (tables (resumed n l)) = [].
Proof.
  revert n. induction l as [|p l IH]; intros n Hn; [done|]. cbn [resumed].
  rewrite tables_cons, filter_app, IH, app_nil_r by (intros; apply Hn; lia).
  unfold InterruptedProcess.resume. destruct (NonEmpty.pop_front _) as [q t]. unfold ptable. view.
  late. rewrite !app_nil_r. apply late_filter. constructor; [|constructor]. unfold early. simpl.
  specialize (Hn n). lia.
Qed.

(** ** What one call of [schedule] does to the threads that wait *)

(** The early rows of a manager in which nothing runs are those of ready processes. *)
Lemma early_ready a p pid ts b : running p = None -> (pid, (ts, Sready b)) ∈ table p ->
  b ∈ admissions (ready p).
Proof.
  intros Hr Hin. unfold table in Hin. rewrite Hr, !elem_of_app in Hin.
  destruct Hin as [Hin|[Hin|[Hin|[Hin|[Hin|Hin]]]]]; [by apply elem_of_nil in Hin|..].
  - apply elem_of_tables in Hin as (q & Hq & _ & He). apply list_elem_of_bind. exists q. split; [|done].
    apply list_elem_of_fmap. revert He. view. rewrite !elem_of_app, !elem_of_queue.
    intros [(t & [= -> ->] & Ht)|[(t & [=] & _)|[(t & [=] & _)|(t & [=] & _)]]]. by exists t.
  - apply elem_of_tables in Hin as (q & _ & _ & He). revert He. view. rewrite !elem_of_app, !elem_of_queue.
    by intros [(t & [=] & _)|(t & [=] & _)].
  - apply elem_of_tables in Hin as (q & _ & _ & He). revert He. view. rewrite !elem_of_app, !elem_of_queue.
    by intros [(t & [=] & _)|[(t & [=] & _)|(t & [=] & _)]].
  - apply elem_of_tables in Hin as (q & _ & _ & He). revert He. view. rewrite !elem_of_queue.
    by intros (t & [=] & _).
  - by apply list_elem_of_fmap in Hin as (d & [=] & _).
Qed.

(** What happens to a waiting thread when the earliest thread is dispatched: it runs, or it
    waits with one thread less ahead of it. *)
Definition waited a (row : Row) p p' : Prop :=
  (exists q, running p' = Some q /\ ppid q = row.1 /\ RunningProcess.get_tid q = row_tid row) \/
  row ∈ table p' /\ S (ahead a p') = ahead a p.

Lemma dispatch_waited s a pid ts : running (pm s) = None -> (pid, (ts, Sready a)) ∈ table (pm s) ->
  ready (pm s) <> [] ->
  wp PM.dispatch s (fun _ s' => waited a (pid, (ts, Sready a)) (pm s) (pm s') /\ reads s' = reads s).
Proof.
  intros Hr Hin Hne. apply wp_dispatch; [done|]. intros p l t q reason s' Hd Hv Hrun -> Hs Hmin.
  destruct (dispatched_moved s p l t q _ s' Hr Hd Hv Hrun Hs) as (_ & Hq & _ & _ & X & HX & HX').
  split; [|apply Hd]. rewrite Forall_forall in Hmin.
  pose proof (Hmin a (early_ready a (pm s) pid ts a Hr Hin)) as Hle. simpl in Hle.
  rewrite HX, elem_of_cons in Hin. destruct Hin as [Heq|Hin].
  - left. exists q. injection Heq as -> -> _. splits; [done|by apply ppid_eq|].
    unfold RunningProcess.get_tid. by rewrite Hrun.
  - right. split; [rewrite HX'; by right|].
    rewrite (ahead_perm a _ _ HX), (ahead_perm a _ _ HX').
    rewrite filter_cons_False by (unfold early; simpl; tauto). by rewrite filter_cons_True.
Qed.

(** Requeueing, alarms and resumed processes change nothing for a thread that was
    admitted before them. *)
Lemma ahead_requeued a p (r : RunningProcess) (q : RunnableProcess) now sus new n :
  running p = Some r -> pview q ≡ₚ (run_state (rp_running r), Sready now) :: others r -> ppid q = ppid r ->
  a < now -> (forall k, (n <= k)%nat -> a < reading k) ->
  let p' := PM.with_interrupted [] (PM.with_ready ((ready p ++ [q]) ++ resumed n (interrupted p ++ new))
              (PM.with_suspended sus (PM.with_running None p))) in
  filter (early a) (table p') ≡ₚ filter (early a) (table p).
Proof.
  intros Hr Hv Hp Hnow Hn p'. unfold p'. table. rewrite Hr. cbn [from_option]. rewrite !filter_app.
  rewrite !sleeping_late, !interrupted_late, zombie_late, resumed_late by done.
  assert (filter (early a) (ptable q) ≡ₚ filter (early a) (pair (ppid r) <$> others r)) as ->.
  { unfold ptable. rewrite Hv, Hp, fmap_cons, filter_cons_False; [done|]. unfold early. simpl. lia. }
  assert (filter (early a) (ptable r) = filter (early a) (pair (ppid r) <$> others r)) as ->.
  { unfold ptable. change (pview r) with (e_running (rp_running r) :: others r).
    rewrite fmap_cons, filter_cons_False; [done|]. unfold early. simpl. tauto. }
  rewrite ?app_nil_l, ?app_nil_r. solve_Permutation.
Qed.

(** Waiting threads keep their row as well. *)
Lemma row_requeued a p p' row : filter (early a) (table p') ≡ₚ filter (early a) (table p) ->
  early a row -> row ∈ table p -> row ∈ table p'.
Proof.
  intros Hf He Hin. assert (row ∈ filter (early a) (table p')) as H; [|by apply list_elem_of_filter in H as [_ ?]].
  rewrite Hf. by apply list_elem_of_filter.
Qed.

Context (clock_moves : forall n, reading n < reading (S n)).

Lemma clock_later n k : (n <= k)%nat -> reading n <= reading k.
Proof. induction 1 as [|k _ IH]; [lia|]. pose proof (clock_moves k). lia. Qed.

Lemma schedule_waited s a pid ts : inv (pm s) -> stack_intact s -> a < reading (reads s) ->
  (pid, (ts, Sready a)) ∈ table (pm s) ->
  wp PM.schedule s (fun _ s' => waited a (pid, (ts, Sready a)) (pm s) (pm s') /\ (reads s <= reads s')%nat).
Proof.
  intros Hi Hst Ha Hin. destruct (inv_running _ Hi) as [r Hr].
  unfold PM.schedule. wstep. apply wp_check_guard; [done|].
  wstep. apply (wp_take_running s r); [done|]. wstep. apply wp_clock_now. fields.
  destruct (RunningProcess.schedule r (reading (reads s))) as [q0 from] eqn:Hsch.
  destruct (schedule_view r _ q0 from Hsch) as (Hv & Hs & ->).
  ksteps. apply wp_check_alarm. intros sus new s2 Hpm2 _ _ _ _ Hr2 _ _ _. ksteps.
  apply wp_resume_loop; [done|]. intros s3 Hpm3 _ _ _ _ Hr3. fields.
  assert (forall k, (reads s2 <= k)%nat -> a < reading k) as Hk.
  { intros k Hk. pose proof (clock_later (reads s) k ltac:(lia)). lia. }
  assert (filter (early a) (table (pm s3)) ≡ₚ filter (early a) (table (pm s))) as Hf.
  { rewrite Hpm3, Hpm2. fields. eapply (ahead_requeued a (pm s) r q0); [done|exact Hv|by apply ppid_eq|done|done]. }
  assert ((pid, (ts, Sready a)) ∈ table (pm s3)) as Hin3.
  { eapply row_requeued; [exact Hf|unfold early; simpl; lia|done]. }
  assert (ready (pm s3) <> []) as Hne.
  { rewrite Hpm3, Hpm2. fields. intros [[_ [=]]%app_nil _]%app_nil. }
  wstep. eapply wp_mono; [apply (dispatch_waited s3 a pid ts); [by rewrite Hpm3, Hpm2|done|done]|].
  intros o s' [Hw Hrd]. unfold waited, ahead in *. rewrite Hf in Hw.
  destruct o as [[[[? ?] ?] ?]|e|]; ksteps; (split; [exact Hw|lia]).
Qed.

(** ** Bounded waiting *)

(** Calls of [schedule] one after the other, with the threads they make run. *)
Fixpoint rounds (n : nat) : K (list ThreadIdentifier) :=
  match n with
  | O => mret []
  | S n => '(_, tid, _, _, _) ← PM.schedule; l ← rounds n; mret (tid :: l)
  end.

(** No round fails, and the processor is given to one thread in each. *)
Lemma rounds_ok n s : inv (pm s) -> (forall s', stack_intact s') ->
  wp (rounds n) s (fun o _ => exists l, o = Ok l /\ length l = n).
Proof.
  intros Hi Hst. revert s Hi. induction n as [|n IH]; intros s Hi; cbn [rounds]; wstep; [by exists []|].
  eapply wp_mono; [by apply schedule_wp|]. intros o s1 [(f & t & q & tda & -> & Hsw) _]. wstep.
  eapply wp_mono; [apply IH, Hsw|]. intros o s2 (l & -> & Hl). wsteps. exists (RunningProcess.get_tid q :: l).
  split; [done|]. simpl. by rewrite Hl.
Qed.


End Fairness.

(** ** Two processes *)

Section Witnesses.
#[local] Existing Instance sample_config.
#[local] Existing Instance sample_config_ok.
#[local] Existing Instance sample_virt_mem.
#[local] Existing Instance sample_clock.

Definition two_processes : list Op := [new_process; new_process].

Lemma two_processes_good : good (run two_processes boot).
Proof.
  apply run_good. unfold two_processes. cbn [all_allowed]. splits; [apply new_process_allowed..|exact I].
Qed.

#[local] Opaque run boot.

(** The thread of the second process, as the table shows it. *)
Lemma second_waits : exists pid ts a, (pid, (ts, Sready a)) ∈ table (pm (run two_processes boot)) /\
  ts_id ts = 2 /\ a < reading (reads (run two_processes boot)) /\
  (ahead a (pm (run two_processes boot)) <= 2)%nat.
Proof.
  assert (match last (table (pm (run two_processes boot))) with
          | Some (pid, (ts, Sready a)) => bool_decide (ts_id ts = 2) &&
              (a <? reading (reads (run two_processes boot))) &&
              (ahead a (pm (run two_processes boot)) <=? 2)%nat
          | _ => false end = true) as H by (vm_compute; reflexivity).
  destruct (last (table (pm (run two_processes boot)))) as [[pid [ts st]]|] eqn:El; [|done].
  destruct st as [now| | | |]; try done. apply andb_prop in H as [[H1 H2]%andb_prop H3].
  exists pid, ts, now. splits; [|by apply bool_decide_eq_true in H1|lia|by apply Nat.leb_le].
  apply last_Some in El as [l El]. rewrite El. apply elem_of_app. right. left.
Qed.


End Witnesses.
