(* ===== verification/Alarm.v ===== *)
(** * Alarms

    [check_alarm] interrupts exactly the threads whose alarm has expired, among those
    of suspended processes. *)

From S2P Require Import Prelude Error Config Addr NonEmpty Mailbox UserSpace VirtMem Str Thread Process.
From S2P Require Import ProcessView Pending ProcManager ManagerInv EntryPoints System Sample.
#[local] Open Scope Z_scope.

Section Alarm.
Context {CF : Config} {VM : VirtMem} {CK : Clock}.
Implicit Types (s : Kernel) (p : ProcessManager) (now : SystemTime).

(** A thread at the time [now]. *)
Definition timed_out now (e : Entry) : Entry :=
  match e with
  | (ts, Ssleeping (Some t)) => if t <=? now then (ts, Sinterrupted TimedOut) else e
  | _ => e
  end.

Lemma timed_out_due now t : due now t -> timed_out now (e_sleeping t) = e_interrupted (Thread.interrupt t TimedOut).
Proof.
  unfold due, SleepingProcess.expired, timed_out, e_sleeping. destruct t as [ts [a|]]; simpl; [|done].
  by intros ->.
Qed.

Lemma timed_out_not_due now t : ~ due now t -> timed_out now (e_sleeping t) = e_sleeping t.
Proof.
  unfold due, SleepingProcess.expired, timed_out, e_sleeping. destruct t as [ts [a|]]; simpl; [|done].
  by destruct (a <=? now).
Qed.

Lemma timed_out_zombies now (q : option (NonEmpty ZombieThread)) :
  timed_out now <$> queue e_zombie q = queue e_zombie q.
Proof. unfold queue. rewrite <- list_fmap_compose. by apply list_fmap_ext. Qed.

Lemma timed_out_split now l :
  timed_out now <$> (e_sleeping <$> l) ≡ₚ
  (e_interrupted <$> ((fun t => Thread.interrupt t TimedOut) <$> filter (due now) l)) ++
  (e_sleeping <$> filter (fun t => ~ due now t) l).
Proof.
  induction l as [|t l IH]; [done|]. rewrite !fmap_cons, IH. destruct (decide (due now t)) as [Hd|Hd].
  - rewrite filter_cons_True, filter_cons_False by tauto. by rewrite timed_out_due.
  - rewrite filter_cons_False, (filter_cons_True (fun t => ~ due now t)) by tauto.
    rewrite timed_out_not_due by done. rewrite fmap_cons. solve_Permutation.
Qed.

(** One process, exactly. *)
Lemma wakeup_alarm_exact (x : SleepingProcess) now :
  match SleepingProcess.wakeup_alarm x now with
  | inl q => pview q ≡ₚ timed_out now <$> pview x /\ ppid q = ppid x
  | inr q => pview q = timed_out now <$> pview x /\ ppid q = ppid x
  end.
Proof.
  pose proof (wakeup_alarm_view x now) as Hp. unfold wakeup_alarm_post in Hp.
  destruct (SleepingProcess.wakeup_alarm x now) as [q|q].
  - destruct Hp as (Hs & Hz & _ & Hsl & Hit). split; [|by apply ppid_eq]. view.
    rewrite fmap_app, timed_out_zombies, Hz, !queue_some, Hit, timed_out_split. unfold queue at 1.
    rewrite Hsl. solve_Permutation.
  - destruct Hp as (Hs & Hz & Hf & Hsl). split; [|by apply ppid_eq]. view.
    rewrite fmap_app, timed_out_zombies, Hz, !queue_some, Hsl. f_equal. clear Hsl Hz Hs.
    induction Hf as [|t l Ht _ IH]; [done|]. rewrite !fmap_cons, <- IH. by rewrite timed_out_not_due.
Qed.

Definition timed_out_row now (row : Row) : Row := (row.1, timed_out now row.2).

Lemma ptable_timed_out {P Q} `{!ProcessLike P, !ProcessLike Q} (x : P) (q : Q) now :
  pview q ≡ₚ timed_out now <$> pview x -> ppid q = ppid x -> ptable q ≡ₚ timed_out_row now <$> ptable x.
Proof. intros Hv Hp. unfold ptable. by rewrite Hv, Hp, <- !list_fmap_compose. Qed.

Lemma alarm_loop_exact now l sus itr :
  exists l' new, PM.alarm_loop now l sus itr = (sus ++ l', itr ++ new) /\
    tables l' ++ tables new ≡ₚ timed_out_row now <$> tables l.
Proof.
  revert sus itr. induction l as [|x l IH]; intros sus itr; cbn [PM.alarm_loop].
  { exists [], []. by rewrite !app_nil_r. }
  pose proof (wakeup_alarm_exact x now) as Hx.
  destruct (SleepingProcess.wakeup_alarm x now) as [q|q]; destruct Hx as [Hv Hp].
  - destruct (IH sus (itr ++ [q])) as (l' & new & -> & Hl). exists l', (q :: new).
    rewrite <- app_assoc. split; [done|]. rewrite !tables_cons, fmap_app, <- Hl, (ptable_timed_out x q now Hv Hp).
    solve_Permutation.
  - destruct (IH (sus ++ [q]) itr) as (l' & new & -> & Hl). exists (q :: l'), new.
    rewrite <- app_assoc. split; [done|]. rewrite !tables_cons, fmap_app, <- Hl.
    rewrite (ptable_timed_out x q now); [by rewrite <- app_assoc|by rewrite Hv|done].
Qed.

(** C30: Checking alarms reads the clock once.  Of the threads of suspended processes,
    exactly those that sleep with an alarm that is not later are interrupted, for the reason
    that their time is over; all other threads of the system are left alone. *)
Theorem check_alarm_exact s :
  wp PM.check_alarm s (fun o s' => o = Ok tt /\ reads s' = S (reads s) /\
    exists rest, table (pm s) ≡ₚ tables (suspended (pm s)) ++ rest /\
      table (pm s') ≡ₚ (timed_out_row (reading (reads s)) <$> tables (suspended (pm s))) ++ rest).
Proof.
  unfold PM.check_alarm. wstep. apply wp_clock_now. ksteps. fields. set (now := reading (reads s)).
  destruct (alarm_loop_exact now (suspended (pm s)) [] (interrupted (pm s))) as (l' & new & -> & Hl).
  splits; [done..|]. exists (from_option ptable [] (running (pm s)) ++ tables (ready (pm s)) ++
    tables (interrupted (pm s)) ++ tables (zombies (pm s)) ++ (deferred_row <$> deferred_reap (pm s))).
  split; [table; solve_Permutation|]. rewrite <- Hl. table. solve_Permutation.
Qed.

End Alarm.
