(* ===== verification/Guarantees.v ===== *)
(** * What the process manager guarantees

    The theorems about the process manager as a whole, each for all states that satisfy
    its invariant, and each applied to a run of the sample system. *)

From S2P Require Import Prelude Error Config Addr NonEmpty Mailbox UserSpace VirtMem Str Thread Process.
From S2P Require Import ProcessView Pending ProcManager ManagerInv Scheduler ManagerOps.
From S2P Require Import ManagerState ManagerReap EntryPoints EntrySpec System Sample.
#[local] Open Scope Z_scope.

Section Guarantees.
Context {CF : Config} {HC : ConfigOk} {VM : VirtMem} {CK : Clock}.
Implicit Types (s : Kernel) (p : ProcessManager).

(** ** The whole system *)


(** ** Blocking and waking up *)

(** A thread that sleeps is recorded as sleeping with its alarm, another one runs, and the
    context of the sleeping thread has not been freed when it is saved. *)
Theorem sleep_blocks s r a : good s -> running (pm s) = Some r -> ppid r <> KERNEL_PID -> guarded s ->
  wp (Sched.sleep a) s (fun o s' => entered s o s' /\
    (ppid r, (run_state (rp_running r), Ssleeping a)) ∈ table (pm s')).
Proof.
  intros [Hi Hs] Hr Hne Hg. eapply wp_mono; [apply (sleep_wp s r a); [done..|by apply Hg]|].
  intros o s' (He & Hrow & _). by split.
Qed.

(** Waking a thread up succeeds exactly when the thread sleeps; then this thread becomes
    ready and nothing else changes.  Otherwise the manager is left as it was. *)
Theorem wakeup_exact s tid : good s ->
  wp (Sched.wakeup tid) s (fun o s' =>
    match o with
    | Ok _ => sleeps tid (pm s) /\ exists now, woken tid now (pm s) (pm s')
    | Err e => ~ sleeps tid (pm s) /\ e = PM.thread_not_found /\ pm s' = pm s
    | Panic => False
    end).
Proof.
  intros [Hi _]. eapply wp_mono; [by apply do_wakeup_wp|]. intros [[]|e|] s' [Ho _]; [| |done].
  - destruct Ho as (now & Hw & _). split; [|by exists now].
    destruct Hw as (pid & ts & a & X & Ht & Hp & _). exists pid, ts, a. split; [rewrite Hp; left|done].
  - by destruct Ho as (? & ? & ?).
Qed.

(** A thread that waits on a condition variable is at the end of its queue and sleeps;
    when its alarm is over already it does not sleep and nothing changes. *)
Theorem wait_queues s r cv a : good s -> running (pm s) = Some r -> ppid r <> KERNEL_PID -> guarded s ->
  wp (Condvar.wait cv a) s (wait_outcome s r cv a).
Proof. intros [Hi Hs] Hr Hne Hg. by apply wait_wp. Qed.

(** Waking up all waiting threads only moves threads along their life cycle.  It fails
    only when threads are queued and none of them sleeps. *)
Theorem notify_all_spec s cv : good s ->
  wp (Condvar.notify_all cv) s (notify_outcome (Condvar.sleeping cv s) s).
Proof. intros [Hi _]. by apply notify_all_wp. Qed.

(** ** Exiting *)

(** A process exits: the calling thread is a zombie with the given status and another
    thread runs, unless a thread of another process waits for this one in a rendezvous. *)
Theorem exit_spec s r status : good s -> running (pm s) = Some r -> ppid r <> KERNEL_PID -> guarded s ->
  Pending.counterparts (pending s) (ppid r) = [] ->
  wp (Sched.exit status) s (fun o s' => entered s o s' /\
    (ppid r, (run_state (rp_running r), Szombie status)) ∈ table (pm s')).
Proof. intros [Hi Hs] Hr Hne Hg Hc. apply exit_wp; [done..|by apply Hg|done]. Qed.

(** C35: If a thread of another process does wait for it in a rendezvous, the kernel panics: the
    manager looks for that thread while no process is running. *)
Theorem exit_panics s r status : good s -> running (pm s) = Some r -> guarded s ->
  Pending.counterparts (pending s) (ppid r) <> [] -> (Sched.exit status s).1 = Panic.
Proof.
  intros [Hi Hs] Hr Hg Hc. enough (wp (Sched.exit status) s (fun o _ => o = Panic)) as H by exact H.
  unfold Sched.exit. apply (reap_then _ s r); [done..|].
  intros r1 [_ _ _ (Hpe & _ & _) Hr1 Hp1 _ _]. wstep.
  eapply wp_mono; [apply (do_exit_panics _ r1); [by apply Hg|done|by rewrite Hpe, Hp1]|].
  by intros o s' ->.
Qed.

(** C31: A thread exits: it is a zombie with the given status, which is not reaped before its
    context has been switched away from.  The call returns an error only when threads wait to
    join the thread and none of them sleeps. *)
Theorem exit_thread_spec s r status : good s -> running (pm s) = Some r -> ppid r <> KERNEL_PID ->
  guarded s -> wp (Join.exit_thread status) s (exit_thread_outcome s r status).
Proof. intros [Hi Hs] Hr Hne Hg. apply exit_thread_wp; [done..|by apply Hg]. Qed.

(** Terminating another process leaves none of its threads asleep; the kernel and the
    caller cannot be terminated, and no error changes the set of processes. *)
Theorem terminate_spec s pid : good s -> wp (PM.terminate pid) s (terminate_outcome pid s).
Proof. intros [Hi _]. by apply terminate_wp. Qed.

(** The exit status of a process is the first one it was given: a later call of [exit]
    does not replace a status that is pending. *)
Theorem exit_status_first (r : RunningProcess) status now :
  let final := default status (pending_exit_status (rp_state r)) in
  match RunningProcess.exit r status now with
  | inl (q, _) => pending_exit_status (rn_state q) = Some final
  | inr (z, _) => zp_status z = final
  end.
Proof.
  cbv zeta. pose proof (exit_view r status now) as H.
  destruct (RunningProcess.exit r status now) as [[q c]|[z c]].
  - destruct H as (_ & _ & _ & Hs & _). change (rn_state q) with (pstate q). rewrite Hs.
    change (pstate r) with (rp_state r). unfold ProcessState.set_pending_exit_status.
    destruct (pending_exit_status (rp_state r)) eqn:E; [by rewrite E|done].
  - by destruct H as (_ & _ & _ & Hz & _).
Qed.

(** ** Preemption *)

Fixpoint ticks (n : nat) : K unit :=
  match n with O => mret tt | S n => Sched.tick;; ticks n end.

Lemma ticks_run n s : Z.of_nat n < REMAINING_QUANTUM (globals s) ->
  ticks n s = (Ok tt, PM.with_globals
    (PM.with_quantum (REMAINING_QUANTUM (globals s) - Z.of_nat n) (globals s)) s).
Proof.
  revert s. induction n as [|n IH]; intros s Hn.
  - rewrite Z.sub_0_r. by destruct s as [????? ? []].
  - cbn [ticks]. apply wp_run'. wstep. unfold Sched.tick. ksteps.
    destruct (Z.ltb_spec 1 (REMAINING_QUANTUM (globals s))); [|lia]. ksteps. unfold wp.
    rewrite IH by (fields; simpl; lia). unfold PM.with_globals, PM.with_quantum. cbn. do 3 f_equal. lia.
Qed.

(** A thread keeps the processor for as many clock ticks as its quantum says: all ticks
    but the last only count down, and at the last one another thread is selected. *)
Theorem tick_preempts s : good s -> 1 <= REMAINING_QUANTUM (globals s) -> (forall s', guarded s') ->
  let n := Z.to_nat (REMAINING_QUANTUM (globals s) - 1) in
  let s1 := PM.with_globals (PM.with_quantum 1 (globals s)) s in
  ticks n s = (Ok tt, s1) /\ wp Sched.tick s1 (entered s1).
Proof.
  intros [Hi Hs] Hq Hg n s1. assert (REMAINING_QUANTUM (globals s) - Z.of_nat n = 1) as Hn by lia. split.
  - rewrite ticks_run by lia. by rewrite Hn.
  - destruct (inv_running _ Hi) as [r Hr].
    eapply wp_mono; [apply (tick_wp s1 r); [done..|by apply (Hg s1)]|]. by intros o s' [_ He].
Qed.

(** ** Creating threads and processes *)

(** A thread is created with the next identifier, ready to run, in the running process;
    when that fails, no thread is left behind.  It panics only on arguments that the caller has
    to check. *)
Theorem create_thread_spec s r pid args : good s -> running (pm s) = Some r ->
  wp (PM.create_thread pid args) s (create_thread_outcome s r pid args).
Proof. intros [Hi _] Hr. by apply create_thread_wp. Qed.

(** C32: A process is created with the next identifier and one thread that is ready to run;
    when that fails, neither a process nor a thread is left behind.  It panics only when
    filling the new address space does. *)
Theorem create_process_spec s elf args env : good s ->
  wp (PM.create_process elf args env) s (fun o s' => create_outcome s o s' /\
    (o = Panic -> ~ returns (PM.build_image elf (Str.trim args) (Str.trim env)))).
Proof. intros [Hi _]. by apply create_process_wp. Qed.

(** C33: Duplicating the running process makes a process with the next identifier and one
    ready thread; when that fails, neither is left behind. *)
Theorem duplicate_process_spec s r pid args : good s -> running (pm s) = Some r -> ppid r = pid ->
  wp (PM.duplicate_process pid args) s (fun o s' => create_outcome s o s' /\ o <> Panic).
Proof.
  intros [Hi _] Hr Hp. eapply wp_mono; [by apply (duplicate_process_wp s r)|].
  intros o s' [Ho Hn]. split; [done|]. intros Hpa. by apply (Hn Hpa).
Qed.

(** ** Capabilities and messages *)

(** After a capability has been given or taken away, asking for it answers accordingly,
    and the answer for every other capability and every other process is as before.  Giving a
    capability that is there, or taking one that is not, is an error that changes nothing. *)
Theorem capability_control s pid c b : good s ->
  wp (PM.capctl pid c b) s (fun o s' =>
    match o with
    | Ok _ => forall pid' c', (PM.has_capability pid' c' s').1 =
        if bool_decide (pid' = pid /\ c' = c) then Ok b else (PM.has_capability pid' c' s).1
    | Err _ => s' = s /\ (PM.has_capability pid c s).1 <> Ok (negb b)
    | Panic => False
    end).
Proof.
  intros [Hi _]. eapply wp_mono; [by apply capctl_wp|]. intros o s'. unfold capctl_outcome.
  rewrite (has_capability_eq s pid c Hi). destruct (state_of pid (pm s)) as [st|] eqn:Est; [|by intros [-> ->]].
  destruct (eqb _ b) eqn:Eb.
  { intros (Ho & Hp & ->). destruct o; [done| |done]. split; [done|]. apply eqb_prop in Eb. subst b.
    simpl. by destruct (ProcessState.has_capability c st). }
  intros (-> & _ & st' & Hrs & Hst & Hc) pid' c'.
  rewrite (has_capability_eq s' pid' c'), (has_capability_eq s pid' c') by (done || by eapply restated_inv).
  rewrite (restated_state_of _ _ _ _ pid' Hrs Hst). destruct (Z.eqb_spec pid' pid) as [->|Hne].
  - rewrite Est. simpl. rewrite Hc. case_bool_decide as Hd; case_bool_decide as Hd'; try done; naive_solver.
  - by rewrite bool_decide_eq_false_2 by naive_solver.
Qed.

(** The messages in all mailboxes. *)
Definition buffered p : Z := Z.of_nat (sum_list (length ∘ mailbox <$> states p)).

(** Posting a message appends it to the mailbox of the process that the receiver denotes
    and counts it; no other process is affected. *)
Theorem post_message_spec s receiver m : good s ->
  wp (PM.post_message receiver m) s (fun o s' =>
    match o with
    | Ok _ => exists r st, refers (pm s) r /\ denotes (pm s) receiver r /\
        state_of (ps_pid st) (pm s) = Some st /\
        state_of (ps_pid st) (pm s') = Some (ProcessState.with_mailbox (mailbox st ++ [m]) st) /\
        (forall pid, pid <> ps_pid st -> state_of pid (pm s') = state_of pid (pm s)) /\
        number_buffered_messages (pm s') = number_buffered_messages (pm s) + 1
    | Err _ => s' = s \/ usize_max <= number_buffered_messages (pm s)
    | Panic => False
    end).
Proof.
  intros [Hi _]. eapply wp_mono; [by apply post_message_wp|]. intros [[]|e|] s'; [| |done].
  2: { intros [->|[H _]]; [by left|by right]. }
  intros (_ & r & p1 & Hr & Hd & Hrs & Hp). set (st := PM.ref_state r) in *. exists r, st.
  pose proof (refers_state_of (pm s) r (ps_pid st) Hi Hr eq_refl) as Hst.
  assert (forall pid, state_of pid (pm s') = state_of pid p1) as Hs' by (intros pid; by rewrite Hp).
  splits; try done.
  - rewrite Hs', (restated_state_of _ _ _ _ _ Hrs), Z.eqb_refl, Hst by done. done.
  - intros pid Hne. rewrite Hs', (restated_state_of _ _ _ _ _ Hrs) by done.
    by destruct (Z.eqb_spec pid (ps_pid st)).
  - by rewrite Hp.
Qed.

(** Burying a process whose mailbox is not empty does not take its messages off the
    count of buffered messages, which stays too high. *)
Theorem harvest_leaks_messages s z l : good s -> zombies (pm s) = z :: l ->
  number_buffered_messages (pm s) = buffered (pm s) -> mailbox (zp_state z) <> [] ->
  wp PM.harvest_zombies s (fun o s' => is_ok o = true /\
    buffered (pm s') < number_buffered_messages (pm s')).
Proof.
  intros [Hi _] Hz Hn Hm. eapply wp_mono; [by apply harvest_zombies_wp|].
  intros o s' (_ & _ & Ho). rewrite Hz in Ho. destruct Ho as (-> & _ & Hn' & Hst & _).
  split; [done|]. rewrite Hn', Hn. unfold buffered. rewrite Hst, fmap_cons. simpl.
  destruct (mailbox (zp_state z)); [done|]. simpl. lia.
Qed.

(** ** Reaping *)

(** Harvesting buries the process that has been a zombie for longest and reports its exit
    status; exactly its threads leave the table, and its slot is free again. *)
Theorem harvest_spec s : good s -> wp PM.harvest_zombies s (harvest_outcome s).
Proof. intros [Hi _]. by apply harvest_zombies_wp. Qed.

(** Joining a zombie returns its exit status, takes exactly this thread out of the table
    and counts it off; joining a thread that lives blocks the caller; errors change nothing. *)
Theorem join_spec s r pid tid : good s -> running (pm s) = Some r -> ppid r <> KERNEL_PID -> guarded s ->
  wp (Join.join_round pid tid) s (join_round_outcome s r pid tid).
Proof. intros [Hi Hs] Hr Hne Hg. by apply join_round_wp. Qed.

End Guarantees.

(** ** Runs of the sample system *)
Section Witnesses.
#[local] Existing Instance sample_config.
#[local] Existing Instance sample_config_ok.
#[local] Existing Instance sample_virt_mem.
#[local] Existing Instance sample_clock.

Definition user_function : VirtualAddress := mkVirtualAddress (USER_BASE_RAW + 4096).
Definition thread_args : ThreadCreateArgs :=
  mkThreadCreateArgs user_function 0 0 (mkVirtualAddress (USER_BASE_RAW + 8192)) 4096 None.

(** The first process runs. *)
Definition one_process : list Op := [new_process; OpGiveup].
(** It has gone to sleep, or it has exited with a message in its mailbox. *)
Definition one_asleep : list Op := one_process ++ [OpSleep None].
Definition sample_message : Message := mkMessage Ipc 0 1 0 [].
Definition one_exited : list Op := [new_process; OpPost 1 sample_message; OpGiveup; OpExit 7].

Ltac check_allowed :=
  unfold one_asleep, one_exited, one_process; check_run.

Lemma one_process_allowed : all_allowed one_process boot.
Proof. check_allowed. Qed.

Lemma one_asleep_allowed : all_allowed one_asleep boot.
Proof. check_allowed. Qed.

Lemma one_exited_allowed : all_allowed one_exited boot.
Proof. check_allowed. Qed.

#[local] Opaque run boot.

(** The thread that runs in a state of the sample system. *)
Lemma sample_running s tid pid : run_key <$> running (pm s) = Some (tid, pid) ->
  exists r, running (pm s) = Some r /\ ppid r = pid.
Proof. intros Hk. destruct (running (pm s)) as [r|]; [|done]. exists r. by injection Hk as _ Hp. Qed.

Lemma one_process_running : exists r, running (pm (run one_process boot)) = Some r /\ ppid r = 1.
Proof. apply (sample_running _ 1). vm_compute. reflexivity. Qed.

Lemma one_process_good : good (run one_process boot).
Proof. apply run_good, one_process_allowed. Qed.


Lemma sleep_blocks_witness : exists r, running (pm (run one_process boot)) = Some r /\
  wp (Sched.sleep (Some 100)) (run one_process boot) (fun o s' => entered (run one_process boot) o s' /\
    (ppid r, (run_state (rp_running r), Ssleeping (Some 100))) ∈ table (pm s')).
Proof.
  destruct one_process_running as (r & Hr & Hp). exists r. split; [done|].
  apply (sleep_blocks _ r); [apply one_process_good|done|by rewrite Hp|apply sample_guarded].
Defined.

Lemma wakeup_exact_witness : exists now,
  woken 1 now (pm (run one_asleep boot)) (pm (Sched.wakeup 1 (run one_asleep boot)).2).
Proof.
  pose proof (wakeup_exact (run one_asleep boot) 1 (run_good _ one_asleep_allowed)) as H.
  assert ((Sched.wakeup 1 (run one_asleep boot)).1 = Ok tt) as Ho by (vm_compute; reflexivity).
  destruct (wp_ok _ _ _ _ H Ho) as [_ Hw]. exact Hw.
Defined.

Lemma wait_queues_witness : exists r, running (pm (run one_process boot)) = Some r /\
  wp (Condvar.wait 0 None) (run one_process boot) (wait_outcome (run one_process boot) r 0 None).
Proof.
  destruct one_process_running as (r & Hr & Hp). exists r. split; [done|].
  apply (wait_queues _ r); [apply one_process_good|done|by rewrite Hp|apply sample_guarded].
Defined.

Lemma notify_all_spec_witness :
  wp (Condvar.notify_all 0) (run one_asleep boot)
    (notify_outcome (Condvar.sleeping 0 (run one_asleep boot)) (run one_asleep boot)).
Proof. apply notify_all_spec, run_good, one_asleep_allowed. Defined.

Lemma exit_spec_witness : exists r, running (pm (run one_process boot)) = Some r /\
  wp (Sched.exit 7) (run one_process boot) (fun o s' => entered (run one_process boot) o s' /\
    (ppid r, (run_state (rp_running r), Szombie 7)) ∈ table (pm s')).
Proof.
  destruct one_process_running as (r & Hr & Hp). exists r. split; [done|].
  apply (exit_spec _ r); [apply one_process_good|done|by rewrite Hp|apply sample_guarded|].
  rewrite Hp. vm_compute. reflexivity.
Defined.

(** Thread 5 of process 2 pushes to process 1, which runs. *)
Definition awaited : Kernel :=
  PM.with_pending (mkPendingLists [mkPendingPush 2 5 1 1 0 16] [] ∅ 0) (run one_process boot).

Lemma with_pending_good pl s : good s -> good (PM.with_pending pl s).
Proof. done. Qed.

Lemma awaited_running : exists r, running (pm awaited) = Some r /\ ppid r = 1.
Proof. apply (sample_running _ 1). vm_compute. reflexivity. Qed.

Lemma exit_panics_witness : (Sched.exit 0 awaited).1 = Panic.
Proof.
  destruct awaited_running as (r & Hr & Hp).
  apply (exit_panics awaited r); [apply with_pending_good, one_process_good|exact Hr|apply sample_guarded|].
  rewrite Hp. vm_compute. discriminate.
Defined.

Lemma exit_thread_spec_witness : exists r, running (pm (run one_process boot)) = Some r /\
  wp (Join.exit_thread 3) (run one_process boot) (exit_thread_outcome (run one_process boot) r 3).
Proof.
  destruct one_process_running as (r & Hr & Hp). exists r. split; [done|].
  apply (exit_thread_spec _ r); [apply one_process_good|done|by rewrite Hp|apply sample_guarded].
Defined.

Lemma terminate_spec_witness :
  wp (PM.terminate 1) (run one_asleep boot) (terminate_outcome 1 (run one_asleep boot)).
Proof. apply terminate_spec, run_good, one_asleep_allowed. Defined.

Lemma tick_preempts_witness :
  let s := run one_process boot in
  let s1 := PM.with_globals (PM.with_quantum 1 (globals s)) s in
  ticks 9 s = (Ok tt, s1) /\ wp Sched.tick s1 (entered s1).
Proof.
  cbv zeta. assert (REMAINING_QUANTUM (globals (run one_process boot)) = 10) as Hq by (vm_compute; reflexivity).
  pose proof (tick_preempts (run one_process boot) one_process_good) as H. rewrite Hq in H.
  apply H; [lia|apply sample_guarded].
Defined.

Lemma create_thread_spec_witness : exists r, running (pm (run one_process boot)) = Some r /\
  wp (PM.create_thread 1 thread_args) (run one_process boot)
    (create_thread_outcome (run one_process boot) r 1 thread_args).
Proof.
  destruct one_process_running as (r & Hr & Hp). exists r. split; [done|].
  apply (create_thread_spec _ r); [apply one_process_good|done].
Defined.

Lemma create_process_spec_witness :
  wp (PM.create_process tt [] []) (run one_process boot) (fun o s' =>
    create_outcome (run one_process boot) o s' /\
    (o = Panic -> ~ returns (PM.build_image tt (Str.trim []) (Str.trim [])))).
Proof. apply create_process_spec, one_process_good. Defined.

Lemma duplicate_process_spec_witness :
  wp (PM.duplicate_process 1 thread_args) (run one_process boot) (fun o s' =>
    create_outcome (run one_process boot) o s' /\ o <> Panic).
Proof.
  destruct one_process_running as (r & Hr & Hp).
  apply (duplicate_process_spec _ r); [apply one_process_good|done|done].
Defined.

Lemma capability_control_witness :
  let s' := (PM.capctl 1 IoManagement true (run one_process boot)).2 in
  (PM.has_capability 1 IoManagement s').1 = Ok true.
Proof.
  cbv zeta. pose proof (capability_control (run one_process boot) 1 IoManagement true one_process_good) as H.
  assert ((PM.capctl 1 IoManagement true (run one_process boot)).1 = Ok tt) as Ho by (vm_compute; reflexivity).
  exact (wp_ok _ _ _ _ H Ho 1 IoManagement).
Defined.

Lemma post_message_spec_witness :
  let s' := (PM.post_message 1 sample_message (run one_process boot)).2 in
  number_buffered_messages (pm s') = number_buffered_messages (pm (run one_process boot)) + 1.
Proof.
  cbv zeta. pose proof (post_message_spec (run one_process boot) 1 sample_message one_process_good) as H.
  assert ((PM.post_message 1 sample_message (run one_process boot)).1 = Ok tt) as Ho by (vm_compute; reflexivity).
  destruct (wp_ok _ _ _ _ H Ho) as (r & st & _ & _ & _ & _ & _ & Hn). exact Hn.
Defined.

Lemma one_exited_zombies : exists z l, zombies (pm (run one_exited boot)) = z :: l /\
  mailbox (zp_state z) <> [].
Proof.
  assert (match zombies (pm (run one_exited boot)) with z :: _ => length (mailbox (zp_state z)) | [] => 0%nat end
    = 1%nat) as H by (vm_compute; reflexivity).
  destruct (zombies (pm (run one_exited boot))) as [|z l]; [done|]. exists z, l. split; [done|].
  by destruct (mailbox (zp_state z)).
Qed.

Lemma harvest_leaks_messages_witness :
  wp PM.harvest_zombies (run one_exited boot) (fun o s' => is_ok o = true /\
    buffered (pm s') < number_buffered_messages (pm s')).
Proof.
  destruct one_exited_zombies as (z & l & Hz & Hm).
  apply (harvest_leaks_messages _ z l); [apply run_good, one_exited_allowed|done|vm_compute; reflexivity|done].
Defined.

Lemma harvest_spec_witness : wp PM.harvest_zombies (run one_exited boot) (harvest_outcome (run one_exited boot)).
Proof. apply harvest_spec, run_good, one_exited_allowed. Defined.

Lemma join_spec_witness : exists r, running (pm (run one_process boot)) = Some r /\
  wp (Join.join_round 1 2) (run one_process boot) (join_round_outcome (run one_process boot) r 1 2).
Proof.
  destruct one_process_running as (r & Hr & Hp). exists r. split; [done|].
  apply (join_spec _ r); [apply one_process_good|done|by rewrite Hp|apply sample_guarded].
Defined.

End Witnesses.
