(* ===== verification/Rendezvous.v ===== *)
(** * Rendezvous

    [do_push] and [do_pull] of [kernel/src/ipc/rendezvous.rs]: two threads meet, and bytes
    go from the memory of one to that of the other.  Who comes first leaves a request in
    the pending lists and sleeps; the other one finds the request, copies and wakes the
    sleeper up.  A call that blocks is in two parts, before and after the context switch
    ([do_push] and [push_return], [do_pull] and [pull_return]). *)

From S2P Require Import Prelude Error Config Addr NonEmpty Mailbox UserSpace VirtMem Str Thread Process.
From S2P Require Import ProcessView Pending ProcManager ManagerInv Scheduler ManagerOps.
From S2P Require Import ManagerState ManagerReap EntryPoints Footprint EntrySpec System Sample Guarantees.
#[local] Open Scope Z_scope.

(** What the process manager needs to copy between address spaces:
    [Vmem::resolve_cow_for_region] and [Vmem::copy_user_to_user]. *)
Class UserCopies {VM : VirtMem} := {
  resolve_cow_for_region : VirtualAddress → Z → M (Vmem * MM) Error unit;
  copy_user_to_user : Vmem → VirtualAddress → Vmem → VirtualAddress → Z → M MM Error unit;
  resolve_cow_returns a n : returns (resolve_cow_for_region a n);
  copy_user_returns v a w b n : returns (copy_user_to_user v a w b n)
}.

Module Rendezvous.

Section Definitions.
Context {CF : Config} {VM : VirtMem} {CK : Clock} {UC : UserCopies}.

(** [Vec::swap_remove]. *)
Definition swap_remove {A} (i : nat) (l : list A) : option (A * list A) :=
  match l !! i, last l with
  | Some x, Some y => Some (x, take (length l - 1) (<[i := y]> l))
  | _, _ => None
  end.

(** Code that runs on the address space of a process, through [find_process_mut]. *)
Definition on_process {A} (pid : ProcessIdentifier) (m : M (Vmem * MM) Error A) : K A :=
  process ← PM.find_process pid;
  s ← get;
  let '(r, (v, mem)) := m (vmem (PM.ref_state process), mm s) in
  put (PM.with_mm mem s);;
  PM.put_state process (ProcessState.with_vmem v (PM.ref_state process));;
  lift r.

Definition vmcopy_user_to_user (src_pid : ProcessIdentifier) (src : VirtualAddress)
    (dst_pid : ProcessIdentifier) (dst : VirtualAddress) (size : Z) : K unit :=
  (if 0 <? size then on_process dst_pid (resolve_cow_for_region dst size) else mret tt);;
  src_proc ← PM.find_process src_pid;
  dst_proc ← PM.find_process dst_pid;
  PM.on_mm (copy_user_to_user (vmem (PM.ref_state src_proc)) src (vmem (PM.ref_state dst_proc)) dst size).

Definition cross_process_copy (src_pid src_buffer dst_pid dst_buffer len : Z) : K unit :=
  vmcopy_user_to_user src_pid (mkVirtualAddress src_buffer) dst_pid (mkVirtualAddress dst_buffer) len.

(** The pending lists. *)
Definition set_pending (f : PendingLists → PendingLists) : K unit :=
  modify (fun s => PM.with_pending (f (pending s)) s).
Definition with_pushes l (p : PendingLists) : PendingLists := mkPendingLists l (pulls p) (cells p) (next_cell p).
Definition with_pulls l (p : PendingLists) : PendingLists := mkPendingLists (pushes p) l (cells p) (next_cell p).
Definition with_cell c n (p : PendingLists) : PendingLists :=
  mkPendingLists (pushes p) (pulls p) (<[c := n]> (cells p)) (next_cell p).

(** [Arc::new(AtomicUsize::new(0))]. *)
Definition new_cell : K Z :=
  s ← get;
  let c := next_cell (pending s) in
  set_pending (fun p => mkPendingLists (pushes p) (pulls p) (<[c := 0]> (cells p)) (c + 1));;
  mret c.

(** Copy, when there is something to copy; when it fails, the sleeper is woken up all the
    same. *)
Definition transfer (sleeper : ThreadIdentifier) (src_pid src_buffer dst_pid dst_buffer len : Z) : K unit :=
  if 0 <? len then
    catch (cross_process_copy src_pid src_buffer dst_pid dst_buffer len)
      (fun copy_error => catch (Sched.wakeup sleeper) (fun _ => mret tt);; fail copy_error)
  else mret tt.

(** The request a push looks for, and the one a pull looks for. *)
Definition pull_matches (caller_pid caller_tid dst_pid dst_tid : Z) (pull : PendingPull) : bool :=
  (pull_src_pid pull =? caller_pid) && (pull_src_tid pull =? caller_tid) &&
  (pull_pid pull =? dst_pid) && (pull_tid pull =? dst_tid).
Definition push_matches (caller_pid caller_tid src_pid src_tid : Z) (push : PendingPush) : bool :=
  (push_pid push =? src_pid) && (push_tid push =? src_tid) &&
  (push_dst_pid push =? caller_pid) && (push_dst_tid push =? caller_tid).

(** The two [retain] calls of a thread that was interrupted. *)
Definition retract_pushes (pid tid : Z) : K unit :=
  set_pending (fun p => with_pushes (filter (fun r => push_pid r <> pid \/ push_tid r <> tid) (pushes p)) p).
Definition retract_pulls (pid tid : Z) : K unit :=
  set_pending (fun p => with_pulls (filter (fun r => pull_pid r <> pid \/ pull_tid r <> tid) (pulls p)) p).

(** [true]: done; [false]: the thread sleeps and goes on with [push_return]. *)
Definition do_push (caller_pid caller_tid dst_pid dst_tid buffer transfer_len : Z) : K bool :=
  if caller_tid =? dst_tid then fail (mkError InvalidArgument "cannot push data to self")
  else
    s ← get;
    match NonEmpty.position (pull_matches caller_pid caller_tid dst_pid dst_tid) (pulls (pending s)) with
    | Some idx =>
      match swap_remove idx (pulls (pending s)) with
      | Some (pull_req, l) =>
        set_pending (with_pulls l);;
        let actual_len := Z.min transfer_len (pull_len pull_req) in
        transfer (pull_tid pull_req) caller_pid buffer (pull_pid pull_req) (pull_buffer pull_req) actual_len;;
        set_pending (with_cell (pull_cell pull_req) actual_len);;
        Sched.wakeup (pull_tid pull_req);;
        mret true
      | None => panic
      end
    | None =>
      set_pending (fun p => with_pushes (pushes p ++
        [mkPendingPush caller_pid caller_tid dst_pid dst_tid buffer transfer_len]) p);;
      catch (Sched.sleep None) (fun e => retract_pushes caller_pid caller_tid;; fail e);;
      mret false
    end.

Definition push_return (caller_pid caller_tid : Z) : K (option SleepError) :=
  r ← Sched.sleep_return;
  match r with
  | None => mret None
  | Some error => retract_pushes caller_pid caller_tid;; mret (Some error)
  end.

(** [inl n]: done, with [n] bytes; [inr c]: the thread sleeps and goes on with
    [pull_return], which finds the number of bytes in the cell [c]. *)
Definition do_pull (caller_pid caller_tid src_pid src_tid buffer transfer_len : Z) : K (Z + Z) :=
  if caller_tid =? src_tid then fail (mkError InvalidArgument "cannot pull data from self")
  else
    s ← get;
    match NonEmpty.position (push_matches caller_pid caller_tid src_pid src_tid) (pushes (pending s)) with
    | Some idx =>
      match swap_remove idx (pushes (pending s)) with
      | Some (push_req, l) =>
        set_pending (with_pushes l);;
        let actual_len := Z.min transfer_len (push_len push_req) in
        transfer (push_tid push_req) (push_pid push_req) (push_buffer push_req) caller_pid buffer actual_len;;
        Sched.wakeup (push_tid push_req);;
        mret (inl actual_len)
      | None => panic
      end
    | None =>
      bytes_transferred ← new_cell;
      set_pending (fun p => with_pulls (pulls p ++
        [mkPendingPull caller_pid caller_tid src_pid src_tid buffer transfer_len bytes_transferred]) p);;
      catch (Sched.sleep None) (fun e => retract_pulls caller_pid caller_tid;; fail e);;
      mret (inr bytes_transferred)
    end.

Definition pull_return (caller_pid caller_tid bytes_transferred : Z) : K (Z + SleepError) :=
  r ← Sched.sleep_return;
  match r with
  | None => s ← get; mret (inl (default 0 (cells (pending s) !! bytes_transferred)))
  | Some error => retract_pulls caller_pid caller_tid;; mret (inr error)
  end.

End Definitions.
End Rendezvous.

(** ** Proofs *)
Section Proofs.
Context {CF : Config} {HC : ConfigOk} {VM : VirtMem} {CK : Clock} {UC : UserCopies}.
Implicit Types (s : Kernel) (p : ProcessManager).
Import Rendezvous.

Lemma swap_remove_perm {A} i (l : list A) x : l !! i = Some x -> exists l', swap_remove i l = Some (x, l') /\ l ≡ₚ x :: l'.
Proof.
  intros Hx. unfold swap_remove. rewrite Hx. destruct l as [|y l _] using rev_ind; [done|]. rewrite last_snoc.
  eexists. split; [done|]. rewrite length_app. simpl. replace (length l + 1 - 1)%nat with (length l) by lia.
  apply lookup_app_Some in Hx as [Hx|[Hle Hx]].
  - rewrite insert_app_l by (by eapply lookup_lt_Some). rewrite take_app_le by (rewrite length_insert; lia).
    rewrite take_ge by (rewrite length_insert; lia).
    rewrite (insert_take_drop l i y) by (by eapply lookup_lt_Some). rewrite <- (take_drop_middle l i x Hx) at 1. solve_Permutation.
  - destruct (i - length l)%nat eqn:E; [|done]. injection Hx as ->. rewrite insert_app_r_alt by lia.
    rewrite take_app_le, take_ge by lia. solve_Permutation.
Qed.

(** The memory of processes may have changed, but no thread. *)
Record same_threads s s' : Prop := {
  st_inv : inv (pm s');
  st_table : table (pm s') = table (pm s);
  st_running : same_running s s';
  st_frame : frame s s'
}.

Lemma same_threads_refl s : inv (pm s) -> same_threads s s.
Proof. by split. Qed.

Lemma same_threads_trans s1 s2 s3 : same_threads s1 s2 -> same_threads s2 s3 -> same_threads s1 s3.
Proof.
  intros [] [Hi Ht [Hr Hg] Hf]. split; [done|congruence| |by transitivity s2].
  destruct st_running0. split; congruence.
Qed.

Lemma same_threads_mm m s : inv (pm s) -> same_threads s (PM.with_mm m s).
Proof. by split. Qed.

Lemma wp_on_process {A} pid (m : M (Vmem * MM) Error A) s (Q : res Error A → Kernel → Prop) :
  inv (pm s) -> returns m -> (forall r s', r <> Panic -> same_threads s s' -> Q r s') -> wp (on_process pid m) s Q.
Proof.
  intros Hi Hm HQ. destruct (inv_running _ Hi) as [r Hr]. unfold on_process. wstep.
  eapply wp_mono; [by apply (find_process_wp s r)|]. intros [q|e|] s' [-> Ho]; [| |done].
  2: { apply HQ; [done|by apply same_threads_refl]. }
  destruct Ho as [Hq Hp]. wsteps. specialize (Hm (vmem (PM.ref_state q), mm s)).
  destruct (m _) as [res [v mem]]. simpl in Hm. wstep. wstep. wstep.
  apply (put_state_wp (PM.with_mm mem s) q _ pid); [done..|]. intros s' Hrs Hf. wsteps. apply HQ; [done|].
  apply (same_threads_trans s (PM.with_mm mem s)); [by apply same_threads_mm|]. split; [|apply Hrs| |done].
  - by apply (restated_inv _ _ _ _ Hrs).
  - split; [|apply Hf]. apply (restated_running _ _ _ _ Hrs). by exists r.
Qed.

Lemma copy_wp src_pid src dst_pid dst n s : inv (pm s) ->
  wp (cross_process_copy src_pid src dst_pid dst n) s (fun r s' => r <> Panic /\ same_threads s s').
Proof.
  intros Hi. unfold cross_process_copy, vmcopy_user_to_user. wstep.
  assert (wp (if 0 <? n then on_process dst_pid (resolve_cow_for_region (mkVirtualAddress dst) n) else mret tt) s
    (fun r s' => r <> Panic /\ same_threads s s')) as Hw.
  { destruct (0 <? n); [|wstep; split; [done|by apply same_threads_refl]]. by apply wp_on_process; [|apply resolve_cow_returns|]. }
  eapply wp_mono; [exact Hw|]. intros [[]|e|] s1 [Hn Hs1]; [|done|done]. destruct (inv_running _ (st_inv _ _ Hs1)) as [r Hr]. wstep.
  eapply wp_mono; [by apply (find_process_wp s1 r)|]. intros [q|e|] s2 [-> Ho]; [|done|done]. wstep.
  eapply wp_mono; [by apply (find_process_wp s1 r)|]. intros [q'|e|] s2 [-> Ho']; [|done|done].
  unfold PM.on_mm, zoom, wp. pose proof (copy_user_returns (vmem (PM.ref_state q)) (mkVirtualAddress src) (vmem (PM.ref_state q')) (mkVirtualAddress dst) n (mm s1)) as Hc.
  destruct (copy_user_to_user _ _ _ _ _ _) as [res m]. simpl in *. split; [done|].
  apply (same_threads_trans s s1); [done|]. apply same_threads_mm, Hs1.
Qed.

(** What a transfer of [n] bytes does. *)
Definition transferred t a b c d n s (r : res Error unit) s' : Prop :=
  match r with
  | Ok _ => same_threads s s' /\ if 0 <? n then cross_process_copy a b c d n s = (Ok tt, s') else s' = s
  | Err e => 0 < n /\ exists s1 o, cross_process_copy a b c d n s = (Err e, s1) /\ same_threads s s1 /\ wakeup_outcome t s1 o s'
  | Panic => False
  end.

Lemma transfer_wp t a b c d n s : inv (pm s) -> wp (transfer t a b c d n) s (transferred t a b c d n s).
Proof.
  intros Hi. unfold transfer, transferred. destruct (Z.ltb_spec 0 n); [|wstep; split; [by apply same_threads_refl|done]].
  wstep. apply wp_intro. intros r s1 Heq. pose proof (wp_run _ _ _ _ _ (copy_wp a b c d n s Hi) Heq) as [Hr Hs].
  destruct r as [[]|e|]; [done| |done]. wstep. wstep. apply wp_intro. intros o s2 Ho.
  pose proof (wp_run _ _ _ _ _ (do_wakeup_wp t s1 (st_inv _ _ Hs)) Ho) as Hw.
  destruct o as [[]|e'|]; [| |by destruct Hw]; wsteps; split; try done; by eexists s1, _.
Qed.

(** What happens when a thread finds the request of the sleeper [t]: the bytes are copied
    and [t] is made ready; it is made ready too when copying fails. *)
Definition met {X} (x : X) t a b c d n s (o : res Error X) s' : Prop :=
  exists s1, same_threads s s1 /\
  match o with
  | Ok y => y = x /\ (if 0 <? n then cross_process_copy a b c d n s = (Ok tt, s1) else s1 = s) /\
      exists now, woken t now (pm s1) (pm s')
  | Err e => (cross_process_copy a b c d n s = (Err e, s1) /\ (sleeps t (pm s) -> exists now, woken t now (pm s1) (pm s'))) \/
      (e = PM.thread_not_found /\ ~ sleeps t (pm s) /\ pm s' = pm s1)
  | Panic => False
  end.

Lemma same_threads_good s s' : good s -> same_threads s s' -> good s'.
Proof. intros Hg []. by apply (same_good s). Qed.

Lemma same_threads_sleeps t s s' : same_threads s s' -> sleeps t (pm s') <-> sleeps t (pm s).
Proof. intros []. unfold sleeps. by rewrite st_table0. Qed.

Lemma wakeup_good t s o s' : good s -> wakeup_outcome t s o s' -> good s' /\ pending s' = pending s.
Proof.
  intros Hg [Ho (Hm & Hp & Hc & Hgl)]. split; [|done]. destruct o as [[]|e|]; [| |done].
  - destruct Ho as (now & _ & Hmv & Hi & Hr). by apply (moved_good s).
  - destruct Ho as (_ & Heq & _). apply (same_good s); [done|rewrite Heq; apply Hg|]. unfold same_running. by rewrite Heq.
Qed.

(** Waking up the sleeper at the end. *)
Lemma wp_rouse {X} (x : X) t s (Q : res Error X → Kernel → Prop) : good s ->
  (forall s' now, good s' -> pending s' = pending s -> woken t now (pm s) (pm s') -> Q (Ok x) s') ->
  (forall s', good s' -> pending s' = pending s -> pm s' = pm s -> ~ sleeps t (pm s) -> Q (Err PM.thread_not_found) s') ->
  wp (Sched.wakeup t;; mret x) s Q.
Proof.
  intros Hg H1 H2. wstep. apply wp_intro. intros o s' Heq. pose proof (wp_run _ _ _ _ _ (do_wakeup_wp t s (proj1 Hg)) Heq) as Hw.
  destruct (wakeup_good t s o s' Hg Hw) as [Hg' Hp']. destruct Hw as [Ho _]. destruct o as [[]|e|]; [| |done].
  - destruct Ho as (now & Hwk & _). wstep. by apply (H1 s' now).
  - destruct Ho as (-> & Heq' & Hn). by apply H2.
Qed.

(** The error of a transfer. *)
Lemma met_copy_error {X} (x : X) t a b c d n s e s' : good s -> transferred t a b c d n s (Err e) s' ->
  met x t a b c d n s (Err e) s' /\ good s' /\ pending s' = pending s.
Proof.
  intros Hg (Hn & s1 & o & Hc & Hs & Hw). pose proof (same_threads_good _ _ Hg Hs) as Hg1. destruct (wakeup_good _ _ _ _ Hg1 Hw) as [Hg' Hp'].
  destruct (st_frame _ _ Hs) as (Hp & _). splits; [|done|congruence]. exists s1. split; [done|]. left. split; [done|]. intros Hsl.
  destruct Hw as [Ho _]. destruct o as [[]|e'|]; [|destruct Ho as (_ & _ & []); by apply (same_threads_sleeps t s s1)|done].
  destruct Ho as (now & ? & _). by exists now.
Qed.

(** The request that is found is taken out of its list. *)
Lemma take_request {A} (c : A → bool) l :
  match NonEmpty.position c l with
  | Some i => exists x l', List.find c l = Some x /\ swap_remove i l = Some (x, l') /\ l ≡ₚ x :: l'
  | None => List.find c l = None
  end.
Proof.
  assert (forall i, NonEmpty.position c l = Some i -> exists x, l !! i = Some x /\ List.find c l = Some x) as Hf.
  { induction l as [|y l IH]; intros i Hi; simpl in *; [done|]. destruct (c y); [injection Hi as <-; by exists y|].
    destruct (NonEmpty.position c l) as [j|]; [|done]. injection Hi as <-. by apply IH. }
  destruct (NonEmpty.position c l) as [i|] eqn:E.
  - destruct (Hf i eq_refl) as (x & Hx & Hfx). destruct (swap_remove_perm i l x Hx) as (l' & ? & ?). by exists x, l'.
  - clear Hf. induction l as [|y l IH]; simpl in *; [done|]. destruct (c y); [done|]. apply IH. by destruct (NonEmpty.position c l).
Qed.

(** A thread that finds no request leaves one and sleeps. *)
Lemma wp_block s0 s r (h : Error → K unit) : good s0 -> guarded s0 -> running (pm s0) = Some r -> ppid r <> KERNEL_PID ->
  s = PM.with_pending (pending s) s0 ->
  wp (catch (Sched.sleep None) h) s (fun o s' => o = Ok tt /\ entered s0 (Ok tt) s' /\ pending s' = pending s /\
    (ppid r, (run_state (rp_running r), Ssleeping None)) ∈ table (pm s')).
Proof.
  intros [Hi Hs] Hg Hr Hne Heq. assert (pm s = pm s0) as Hpm by by rewrite Heq. assert (mm s = mm s0) as Hmm by by rewrite Heq.
  assert (globals s = globals s0) as Hgl by by rewrite Heq. wstep. apply wp_intro. intros o s' Ho.
  pose proof (keeps_sleep pending None s) as Hp. rewrite Ho in Hp. simpl in Hp.
  assert (wp (Sched.sleep None) s (fun o s' => entered s o s' /\ (ppid r, (run_state (rp_running r), Ssleeping None)) ∈ table (pm s') /\ condvars s' = condvars s)) as Hw.
  { apply sleep_wp; [by rewrite Hpm|by rewrite Heq|by rewrite Hpm|done|by apply Hg]. }
  destruct (wp_run _ _ _ _ _ Hw Ho) as (He & Hrow & _). pose proof (en_ok _ _ _ He) as ->.
  splits; [done|by apply (entered_from s0 s)|done|done].
Qed.

(** What a push of the running thread of [r] does. *)
Definition push_outcome s r dst_pid dst_tid buffer len (o : res Error bool) s' : Prop :=
  let a := ppid r in let t := RunningProcess.get_tid r in
  if t =? dst_tid then s' = s /\ o = Err (mkError InvalidArgument "cannot push data to self")
  else
    match List.find (pull_matches a t dst_pid dst_tid) (pulls (pending s)) with
    | Some q =>
      let n := Z.min len (pull_len q) in
      exists l, pulls (pending s) ≡ₚ q :: l /\ good s' /\ pulls (pending s') = l /\ pushes (pending s') = pushes (pending s) /\
        met true (pull_tid q) a buffer (pull_pid q) (pull_buffer q) n (PM.with_pending (with_pulls l (pending s)) s) o s' /\
        (is_ok o -> cells (pending s') !! pull_cell q = Some n)
    | None =>
      o = Ok false /\ entered s (Ok tt) s' /\ (a, (run_state (rp_running r), Ssleeping None)) ∈ table (pm s') /\
      pending s' = with_pushes (pushes (pending s) ++ [mkPendingPush a t dst_pid dst_tid buffer len]) (pending s)
    end.


(** What a pull of the running thread of [r] does. *)
Definition pull_outcome s r src_pid src_tid buffer len (o : res Error (Z + Z)) s' : Prop :=
  let a := ppid r in let t := RunningProcess.get_tid r in
  if t =? src_tid then s' = s /\ o = Err (mkError InvalidArgument "cannot pull data from self")
  else
    match List.find (push_matches a t src_pid src_tid) (pushes (pending s)) with
    | Some q =>
      let n := Z.min len (push_len q) in
      exists l, pushes (pending s) ≡ₚ q :: l /\ good s' /\ pending s' = with_pushes l (pending s) /\
        met (inl n) (push_tid q) (push_pid q) (push_buffer q) a buffer n (PM.with_pending (with_pushes l (pending s)) s) o s'
    | None =>
      let c := next_cell (pending s) in
      o = Ok (inr c) /\ entered s (Ok tt) s' /\ (a, (run_state (rp_running r), Ssleeping None)) ∈ table (pm s') /\
      pushes (pending s') = pushes (pending s) /\ cells (pending s') !! c = Some 0 /\
      pulls (pending s') = pulls (pending s) ++ [mkPendingPull a t src_pid src_tid buffer len c]
    end.

(** The same for a pull: it takes the bytes of a sender that waits for it, tells how
    many, and makes the sender ready; otherwise it leaves a request with a new counter and
    sleeps. *)
Theorem pull_spec s r src_pid src_tid buffer len :
  good s -> guarded s -> running (pm s) = Some r -> ppid r <> KERNEL_PID ->
  wp (do_pull (ppid r) (RunningProcess.get_tid r) src_pid src_tid buffer len) s (pull_outcome s r src_pid src_tid buffer len).
Proof.
  intros Hg Hgu Hr Hne. unfold do_pull, pull_outcome. destruct (_ =? _); [by wsteps|]. wsteps.
  pose proof (take_request (push_matches (ppid r) (RunningProcess.get_tid r) src_pid src_tid) (pushes (pending s))) as Ht.
  destruct (NonEmpty.position _ _) as [i|].
  - destruct Ht as (q & l & Hf & Hsw & Hl). rewrite Hf, Hsw. set (n := Z.min _ _). unfold set_pending. do 2 wstep.
    set (s0 := PM.with_pending _ s). assert (good s0) as Hg0 by by split; apply Hg. wstep.
    eapply wp_mono; [apply transfer_wp, Hg0|]. intros [[]|e|] s1 Htr; [| |done].
    + destruct Htr as [Hs Hc]. pose proof (same_threads_good _ _ Hg0 Hs) as Hg1. destruct (st_frame _ _ Hs) as (Hp & _).
      apply wp_rouse; [done|..].
      * intros s' now Hg' Hp' Hw. exists l. rewrite Hp', Hp. splits; try done. exists s1. eauto.
      * intros s' Hg' Hp' Heq Hn. exists l. rewrite Hp', Hp. splits; try done. exists s1. split; [done|]. right.
        splits; [done| |done]. intros Hsl. apply Hn. by apply (same_threads_sleeps _ s0 s1).
    + destruct (met_copy_error (inl n : Z + Z) _ _ _ _ _ _ _ _ _ Hg0 Htr) as (Hm & Hg' & Hp). exists l. by splits.
  - rewrite Ht. unfold new_cell, set_pending. do 9 wstep. eapply wp_mono; [by apply (wp_block s _ r)|].
    intros o s' (-> & He & Hp & Hrow). wstep. rewrite Hp. splits; try done. simpl. by rewrite lookup_insert_eq.
Qed.
End Proofs.

(** ** Runs of the sample system *)
Section Witnesses.
#[local] Existing Instance sample_config.
#[local] Existing Instance sample_config_ok.
#[local] Existing Instance sample_virt_mem.
#[local] Existing Instance sample_clock.
Import Rendezvous.

(** Copies that always succeed, and copies that always fail. *)
#[refine] Definition sample_copies : UserCopies := {|
  resolve_cow_for_region _ _ := mret tt;
  copy_user_to_user _ _ _ _ _ := mret tt
|}.
Proof. all: done. Defined.

Definition unmapped : Error := mkError BadAddress "page is not mapped".
#[refine] Definition broken_copies : UserCopies := {|
  resolve_cow_for_region _ _ := mret tt;
  copy_user_to_user _ _ _ _ _ := fail unmapped
|}.
Proof. all: done. Defined.

(** Process 1 sleeps and process 2 runs. *)
Definition two_processes : list Op := [new_process; new_process; OpGiveup; OpSleep None].

Lemma two_processes_allowed : all_allowed two_processes boot.
Proof. unfold two_processes. check_run. Qed.

(** Process 1 waits in a pull, or in a push. *)
Definition pull_waits : Kernel :=
  PM.with_pending (mkPendingLists [] [mkPendingPull 1 1 2 2 4096 16 0] {[0 := 0]} 1) (run two_processes boot).
Definition push_waits : Kernel :=
  PM.with_pending (mkPendingLists [mkPendingPush 1 1 2 2 4096 16] [] ∅ 0) (run two_processes boot).

#[local] Opaque run boot.

Lemma waits_good pl : good (PM.with_pending pl (run two_processes boot)).
Proof. apply with_pending_good, run_good, two_processes_allowed. Qed.

Lemma waits_running pl : exists r, running (pm (PM.with_pending pl (run two_processes boot))) = Some r /\
  ppid r = 2 /\ RunningProcess.get_tid r = 2.
Proof. apply running_key. vm_compute. reflexivity. Qed.


(** Process 2 pulls at most 8 bytes from process 1. *)
Lemma pull_spec_witness :
  let s' := (do_pull (UC:=sample_copies) 2 2 1 1 8192 8 push_waits).2 in good s' /\ pushes (pending s') = [].
Proof.
  destruct (waits_running (pending push_waits)) as (r & Hr & Hp & Ht).
  pose proof (pull_spec (UC:=sample_copies) push_waits r 1 1 8192 8 (waits_good _) (sample_guarded _) Hr ltac:(by rewrite Hp)) as H.
  unfold wp, pull_outcome in H. rewrite Hp, Ht in H. intros s'. fold s' in H.
  assert ((do_pull (UC:=sample_copies) 2 2 1 1 8192 8 push_waits).1 = Ok (inl 8)) as E by (vm_compute; reflexivity). rewrite E in H.
  destruct H as (l & Hl & Hg & Hpl & _). split; [exact Hg|].
  rewrite Hpl. apply Permutation_length in Hl. destruct l; [reflexivity|discriminate Hl].
Defined.

#[local] Transparent run boot.

(** A sender waits, and the copy of the receiver fails.  The receiver gets the error, but
    the push of the sender returns with success although nothing was copied. *)
Example failed_push_succeeds :
  let s1 := do_pull (UC:=broken_copies) 2 2 1 1 8192 8 push_waits in
  s1.1 = Err unmapped /\
  let s2 := (exec OpGiveup (exec OpGiveup s1.2).2).2 in
  run_key <$> running (pm s2) = Some (1, 1) /\ (push_return 1 1 s2).1 = Ok None.
Proof. vm_compute. done. Qed.

End Witnesses.
