(* ===== verification/EventClaims.v ===== *)
(** * What the event manager guarantees

    Theorems on the event manager as a whole, and their instances on runs of the sample
    system. *)

From S2P Require Import Prelude Error Config Addr NonEmpty Mailbox UserSpace VirtMem Str Thread Process.
From S2P Require Import ProcessView Pending ProcManager ManagerInv Scheduler ManagerOps.
From S2P Require Import ManagerState ManagerReap EntryPoints Event EventManager Footprint EntrySpec Mail System EventSpec EventWait Sample Guarantees.
#[local] Open Scope Z_scope.

Section EventClaims.
Context {CF : Config} {HC : ConfigOk} {VM : VirtMem} {CK : Clock} {IC : IpcConfig}.
Implicit Types (k : Kernel) (m : EventManagerInner).
Notation E := (M (EventManagerInner * Kernel) Error).

(** ** Waiting *)

(** The masks of a thread that calls [wait] are what its process owns then. *)
Lemma owned_mask_spec pid i owners mask (j : nat) :
  Z.testbit (Events.owned_mask pid i owners mask) (Z.of_nat j) =
  Z.testbit mask (Z.of_nat j) || ((i <=? j)%nat && bool_decide (owners !! (j - i)%nat = Some (Some pid))).
Proof.
  revert i mask. induction owners as [|[p|] owners IH]; intros i mask; cbn [Events.owned_mask].
  { rewrite lookup_nil. rewrite bool_decide_eq_false_2 by done. by rewrite andb_false_r, orb_false_r. }
  all: rewrite IH; clear IH; destruct (decide (j = i)) as [->|Hne].
  all: try (rewrite (proj2 (Nat.leb_gt (S i) i)), (proj2 (Nat.leb_le i i)), Nat.sub_diag by lia; cbn [lookup list_lookup andb]).
  all: try (destruct (decide (i < j)%nat) as [Hlt|Hlt]; [rewrite (proj2 (Nat.leb_le (S i) j)), (proj2 (Nat.leb_le i j)) by lia;
      replace (j - i)%nat with (S (j - S i)) by lia; cbn [lookup list_lookup]
    |rewrite (proj2 (Nat.leb_gt (S i) j)), (proj2 (Nat.leb_gt i j)) by lia]).
  all: cbn [andb]; rewrite ?orb_false_r.
  all: try (destruct (Z.eqb_spec p pid) as [->|Hp]; [rewrite Z.lor_spec, Z.shiftl_1_l, Z.pow2_bits_eqb by lia|]).
  all: try (rewrite (proj2 (Z.eqb_neq (Z.of_nat i) (Z.of_nat j))) by lia; by rewrite ?orb_false_r).
  all: try (rewrite Z.eqb_refl; by rewrite bool_decide_eq_true_2).
  all: try done.
  all: rewrite bool_decide_eq_false_2 by congruence; by rewrite orb_false_r.
Qed.

Lemma masks_exact pid m (i : nat) :
  (Z.testbit (Events.interrupts (Events.masks_of pid m)) (Z.of_nat i) = true <-> interrupt_ownership m !! i = Some (Some pid)) /\
  (Z.testbit (Events.exceptions (Events.masks_of pid m)) (Z.of_nat i) = true <-> exception_ownership m !! i = Some (Some pid)) /\
  (Z.testbit (Events.scheduling (Events.masks_of pid m)) (Z.of_nat i) = true <-> scheduling_ownership m !! i = Some (Some pid)).
Proof.
  unfold Events.masks_of. cbn. rewrite !owned_mask_spec, Z.testbit_0_l, Nat.sub_0_r. cbn. by rewrite !bool_decide_eq_true.
Qed.

(** C2: No wakeup is lost.  However threads that wait for events, interrupts, exceptions, ends of
    processes, messages, and requests for events interleave: while a thread sleeps in [wait],
    nothing is pending of the events that its process owned when it called and owns still, and
    no message in the mailbox is for the thread or for its process. *)
Theorem no_lost_events ic w tid pid ks : event_reachable ic w -> w_blocked w !! tid = Some (pid, ks) ->
  sleeps tid (pm (w_k w)) -> nothing_for (w_em w) (w_k w) pid tid ks.
Proof. intros Hw HB Hs. by apply (wo_sleeps _ _ _ (event_reachable_ok ic w Hw) tid pid ks HB). Qed.

(** ** Interrupts *)

(** Code that keeps a property of the event manager. *)
Class Stable (P : EventManagerInner → Prop) {A} (c : E A) : Prop := stable s : P s.1 -> P (c s).2.1.

Section Instances.
Context (P : EventManagerInner → Prop).
#[global] Instance stable_ret {A} (a : A) : Stable P (mret a).
Proof. by intros s. Qed.
#[global] Instance stable_fail {A} e : Stable P (fail e : E A).
Proof. by intros s. Qed.
#[global] Instance stable_panic {A} : Stable P (panic : E A).
Proof. by intros s. Qed.
#[global] Instance stable_lift {A} r : Stable P (lift r : E A).
Proof. by intros s. Qed.
#[global] Instance stable_k {A} (c : K A) : Stable P (Events.on_k c).
Proof. intros s Hs. unfold Events.on_k, zoom. by destruct (c s.2). Qed.
Lemma stable_set f : (forall m, P m -> P (f m)) -> Stable P (Events.set_em f).
Proof. intros H s Hs. by apply H. Qed.
Lemma stable_catch {A} (c : E A) h : Stable P c -> (forall e, Stable P (h e)) -> Stable P (catch c h).
Proof.
  intros Hc Hh s Hs. pose proof (Hc s Hs) as H. unfold catch. destruct (c s) as [[a|e|] s1]; cbn in *; [done| |done]. by apply Hh.
Qed.
Lemma stable_bind {A A'} (c : E A) (g : A → E A') : Stable P c -> (forall a, Stable P (g a)) -> Stable P (c ≫= g).
Proof.
  intros Hc Hg s Hs. pose proof (Hc s Hs) as H. unfold mbind, M_bind. destruct (c s) as [[a|e|] s1]; cbn in *; [|done..]. by apply Hg.
Qed.
(** What is read satisfies the property. *)
Lemma stable_em {A} (g : EventManagerInner → E A) : (forall m, P m -> Stable P (g m)) -> Stable P (Events.em ≫= g).
Proof. intros Hg [m k] Hs. by apply (Hg m). Qed.
End Instances.

(** With an interrupt controller no interrupt is ever queued; without one, none has an owner. *)
Definition interrupts_off (ic : bool) m : Prop :=
  em_interrupt_capable m = ic /\
  if ic then Forall (fun q => q = []) (pending_interrupts m) else Forall (fun o => o = None) (interrupt_ownership m).

Ltac steady :=
  repeat (lazymatch goal with
          | |- forall _, _ => intros ?
          | |- Stable _ (Events.em ≫= _) => apply stable_em; intros ? ?
          | |- Stable _ (_ ≫= _) => apply stable_bind
          | |- Stable _ (catch _ _) => apply stable_catch
          | |- Stable _ (Events.set_em _) => apply stable_set; intros ? ?; assumption
          | |- _ => case_match || apply _
          end).

Notation Steady ic := (Stable (interrupts_off ic)).

#[local] Instance steady_notify ic pid : Steady ic (Events.notify_all_process_threads pid).
Proof. unfold Events.notify_all_process_threads. steady. Qed.

#[local] Instance steady_count ic : Steady ic Events.count_event.
Proof. unfold Events.count_event. steady. Qed.

#[local] Instance steady_owner ic l i r : Steady ic (Events.owner_of l i r).
Proof. unfold Events.owner_of. steady. Qed.

#[local] Instance steady_interrupt ic mask : Steady ic (Events.wakeup_interrupt mask).
Proof.
  unfold Events.wakeup_interrupt. apply stable_em. intros m [Hm _]. destruct ic; rewrite Hm; [apply _|].
  apply stable_bind; [apply _|]. intros n. apply stable_bind; [apply _|]. intros ev.
  apply stable_bind; [apply stable_set; intros ? [? ?]; by split|]. intros _. steady.
Qed.

(** Owners of interrupts change only where there is a controller, or to none. *)
Lemma steady_evctrl_interrupt ic pid n req : ic = true \/ req = Unregister -> Steady ic (Events.do_evctrl_interrupt pid n req).
Proof.
  intros Hor [m k] Hs. unfold Events.do_evctrl_interrupt, Events.em, Events.set_em, Events.on_k, zoom, mbind, M_bind, get, mret, M_ret, modify. cbn.
  destruct (interrupt_ownership m !! Z.to_nat n) as [[o|]|]; [done| |done]. cbn.
  destruct (Events.evctrl_owners _ _ _ _ _ _ _ _ k) as [[l|e|] k'] eqn:E; [|done..]. cbn. destruct Hs as [Hc Hs]. split; [done|].
  destruct ic; [done|]. destruct Hor as [?| ->]; [done|]. cbn.
  assert (l = <[Z.to_nat n := None]> (interrupt_ownership m)) as ->; [|by apply Forall_insert].
  unfold Events.evctrl_owners in E. destruct (interrupt_ownership m !! Z.to_nat n); [|done]. destruct pid as [pid|]; [|by injection E as <- _].
  destruct (bool_decide _); [by injection E as <- _|done].
Qed.

#[local] Instance steady_evctrl ic pid ev req : Steady ic (Events.evctrl pid ev req).
Proof.
  unfold Events.evctrl. apply stable_bind; [|steady]. destruct ev as [n|n|ev].
  - apply stable_em. intros m [Hm _]. rewrite Hm. destruct ic; cbn [negb]; [|apply _]. apply steady_evctrl_interrupt. by left.
  - unfold Events.do_evctrl_exception. steady.
  - unfold Events.do_evctrl_scheduling. steady.
Qed.

#[local] Instance steady_drop ic ev : Steady ic (Events.drop_ownership ev).
Proof.
  unfold Events.drop_ownership. apply stable_catch; [|steady]. destruct ev as [n|n|ev].
  - apply steady_evctrl_interrupt. by right.
  - unfold Events.do_evctrl_exception. steady.
  - unfold Events.do_evctrl_scheduling. steady.
Qed.

#[local] Instance steady_call ic c : Steady ic (run_call c).
Proof.
  destruct c; cbn [run_call]; unfold discard, Events.interrupt_handler, Events.wakeup_exception, Events.notify_process_termination,
    Events.do_send, Events.post_message, Events.kcall_resume, Events.resume, Events.resume_exception, Events.kcall_evctrl; steady.
Qed.

(** No interrupt is found. *)
Lemma none_pending {A} mask i (queues : list (list A)) : Forall (fun q => q = []) queues -> Events.find_pending mask i queues = None.
Proof.
  intros H. revert i. induction H as [|q queues -> _ IH]; intros i; cbn; [done|]. by destruct (Z.testbit mask (Z.of_nat i)).
Qed.

Lemma nothing_asked {A} i (queues : list (list A)) : Events.find_pending 0 i queues = None.
Proof. revert i. induction queues as [|q queues IH]; intros i; cbn; [done|]. by rewrite Z.testbit_0_l. Qed.

Lemma none_owned pid i owners mask : Forall (fun o => o = None) owners -> Events.owned_mask pid i owners mask = mask.
Proof. intros H. revert i mask. induction H as [|o owners -> _ IH]; intros i mask; cbn; [done|apply IH]. Qed.

#[local] Instance steady_try_class ic c pid ks : Steady ic (Events.try_class c pid ks).
Proof.
  unfold Events.try_class. destruct (c =? 0); [|destruct (c =? 1)].
  - unfold Events.try_interrupts. apply stable_em. intros m [Hm Hs]. destruct ic; [by rewrite none_pending; [apply _|]|].
    destruct (Events.find_pending _ 0 _) as [[[i x] q]|]; [|apply _].
    apply stable_bind; [apply stable_set; intros ? [? ?]; by split|steady].
  - unfold Events.try_exceptions. steady.
  - unfold Events.try_scheduling. steady.
Qed.

#[local] Instance steady_try_wait ic tid pid ks : Steady ic (Events.try_wait tid pid ks).
Proof.
  unfold Events.try_wait. apply stable_bind; [|steady]. induction [0; 1; 2] as [|i l IH]; cbn [Events.try_classes]; steady.
Qed.

#[local] Instance steady_round ic tid pid ks : Steady ic (Events.wait_round tid pid ks).
Proof. unfold Events.wait_round, Events.stop_waiting. steady. Qed.

#[local] Instance steady_wait ic tid pid : Steady ic (Events.wait tid pid).
Proof. unfold Events.wait. cbv zeta. steady. Qed.

#[local] Instance steady_resume ic tid pid ks : Steady ic (Events.wait_resume tid pid ks).
Proof. unfold Events.wait_resume, Events.stop_waiting. steady. Qed.

Lemma steady_event_step ic w w' : interrupts_off ic (w_em w) -> event_step w w' -> interrupts_off ic (w_em w').
Proof.
  intros Hs Hst. destruct Hst as [r o s' _ _ E _|r ks o s' _ _ _ E _|c o s' _ E _|k' _]; [..|done].
  - pose proof (steady_wait ic (RunningProcess.get_tid r) (ppid r) (w_em w, w_k w) Hs) as H'. rewrite E in H'. exact H'.
  - pose proof (steady_resume ic (RunningProcess.get_tid r) (ppid r) ks (w_em w, w_k w) Hs) as H'. rewrite E in H'. exact H'.
  - pose proof (steady_call ic c (w_em w, w_k w) Hs) as H'. rewrite E in H'. exact H'.
Qed.

(** C34: No interrupt is ever delivered.  Where there is an interrupt controller the interrupt
    handler refuses to queue interrupts, and where there is none no process can own an
    interrupt; so no call of [wait] finds one. *)
Theorem interrupts_never_arrive ic w pid : event_reachable ic w ->
  Events.try_interrupts pid (Events.interrupts (Events.masks_of pid (w_em w))) (w_em w, w_k w) = (Ok None, (w_em w, w_k w)).
Proof.
  intros Hw. assert (interrupts_off ic (w_em w)) as [_ Hs].
  { induction Hw as [k m k' Hg Hi|w w' _ IH Hs]; [|by eapply steady_event_step].
    unfold Events.init, PM.new_condvar, mbind, M_bind, mret, M_ret in Hi. injection Hi as <- <-. split; [done|].
    destruct ic; cbn; repeat constructor. }
  assert (Events.find_pending (Events.interrupts (Events.masks_of pid (w_em w))) 0 (pending_interrupts (w_em w)) = None) as Hn.
  { destruct ic; [by apply none_pending|]. cbn. rewrite none_owned by done. apply nothing_asked. }
  apply wp_run'. unfold Events.try_interrupts. do 2 estep. rewrite Hn. by estep.
Qed.

(** ** Ownership *)

(** The table of owners of an event. *)
Definition owners_of (ev : Event) m : list (option ProcessIdentifier) :=
  match ev with
  | EvInterrupt _ => interrupt_ownership m
  | EvException _ => exception_ownership m
  | EvScheduling _ => scheduling_ownership m
  end.
Definition with_owners (ev : Event) l m : EventManagerInner :=
  match ev with
  | EvInterrupt _ => Events.with_interrupt_owners l m
  | EvException _ => Events.with_exception_owners l m
  | EvScheduling _ => Events.with_scheduling_owners l m
  end.

Definition owner m (ev : Event) : option (option ProcessIdentifier) := owners_of ev m !! index_of ev.

Definition capability_for (ev : Event) : Capability :=
  match ev with EvInterrupt _ => InterruptControl | EvException _ => ExceptionControl | EvScheduling _ => ProcessManagement end.

(** The events of one class. *)
Definition same_class (ev ev' : Event) : Prop := forall l m, owners_of ev' (with_owners ev l m) = l.

Lemma class_cases ev ev' : same_class ev ev' \/ forall l m, owners_of ev' (with_owners ev l m) = owners_of ev' m.
Proof. destruct ev, ev'; (by left) || (by right). Qed.

(** When a request is granted. *)
Definition granted k (pid : ProcessIdentifier) cap (o : option ProcessIdentifier) (req : EventCtrlRequest) : Prop :=
  match req with
  | Register_ => o = None /\ exists st, state_of pid (pm k) = Some st /\ ProcessState.has_capability cap st = true
  | Unregister => o = Some pid
  end.

Lemma evctrl_owners_granted cap r1 r2 r3 owners idx pid req k : good k ->
  wp (Events.evctrl_owners cap r1 r2 r3 owners idx (Some pid) req) k (fun o k' => k' = k /\
    match o with
    | Ok l => l = <[idx := new_owner (Some pid) req]> owners /\ exists o, owners !! idx = Some o /\ granted k pid cap o req
    | Err _ => True
    | Panic => owners !! idx = None
    end).
Proof.
  intros [Hi _]. unfold Events.evctrl_owners. destruct (owners !! idx) as [o|]; [|by wsteps].
  destruct req.
  - wstep. unfold wp. rewrite (has_capability_eq k pid cap Hi). destruct (state_of pid (pm k)) as [st|] eqn:Est; cbn; [|done].
    destruct (ProcessState.has_capability cap st) eqn:Ec; cbn; [|done]. destruct o; cbn; [done|]. split_and!; [done..|].
    eexists. split; [done|]. split; [done|]. eauto.
  - case_bool_decide; wsteps; [|done]. split_and!; [done..|]. by eexists.
Qed.

(** What a request does when it is granted. *)
Definition evctrl_done pid ev req m k (s' : EventManagerInner * Kernel) : Prop :=
  s'.2 = k /\ (exists o, owner m ev = Some o /\ granted k pid (capability_for ev) o req) /\
  owner s'.1 ev = Some (new_owner (Some pid) req) /\
  forall ev', ~ (same_class ev ev' /\ index_of ev' = index_of ev) -> owner s'.1 ev' = owner m ev'.

Lemma set_owner_wp pid ev req r1 r2 r3 m k : good k ->
  wp (l ← Events.on_k (Events.evctrl_owners (capability_for ev) r1 r2 r3 (owners_of ev m) (index_of ev) (Some pid) req);
      Events.set_em (with_owners ev l)) (m, k)
    (fun o s' => match o with Ok _ => evctrl_done pid ev req m k s' | Err _ => s' = (m, k) | Panic => owner m ev = None end).
Proof.
  intros Hg. do 2 estep. eapply wp_mono; [by apply evctrl_owners_granted|]. intros [l|e|] k' [-> Ho]; [|done..].
  destruct Ho as [-> (o & Hl & Hgr)]. estep. unfold evctrl_done, owner. cbn [fst snd]. split_and!; [done|by eexists| |].
  - replace (owners_of ev (with_owners ev _ m)) with (<[index_of ev := new_owner (Some pid) req]> (owners_of ev m)) by by destruct ev.
    apply list_lookup_insert_eq. by eapply lookup_lt_Some.
  - intros ev' Hne. destruct (class_cases ev ev') as [Hc|Hc]; rewrite Hc; [|done].
    rewrite list_lookup_insert_ne by (intros Heq; by apply Hne). specialize (Hc (owners_of ev m) m).
    replace (with_owners ev (owners_of ev m) m) with m in Hc by by destruct m, ev. by rewrite Hc.
Qed.

(** C20: Events are owned exclusively, under capabilities.  A request that succeeds has made the
    process the owner of an event that had none, and the process has the capability for its
    class; or the process owned the event and has given it up.  No other event changes owners,
    a request that fails changes nothing. *)
Theorem evctrl_spec pid ev req m k : good k ->
  wp (Events.evctrl pid ev req) (m, k) (fun o s' =>
    match o with
    | Ok owns => (owns = true <-> req = Register_) /\ evctrl_done pid ev req m k s'
    | Err _ => s' = (m, k)
    | Panic => owner m ev = None
    end).
Proof.
  intros Hg. unfold Events.evctrl. estep. destruct ev as [n|n|ev].
  - do 2 estep. destruct (em_interrupt_capable m); cbn [negb]; [|by estep]. unfold Events.do_evctrl_interrupt. do 2 estep.
    destruct (interrupt_ownership m !! Z.to_nat n) as [[o|]|] eqn:Eo; [by estep| |by estep].
    eapply wp_mono; [by apply (set_owner_wp pid (EvInterrupt n) req)|]. intros [[]|e|] s' H; [estep|done..]. split; [by destruct req|done].
  - unfold Events.do_evctrl_exception. do 2 estep.
    eapply wp_mono; [by apply (set_owner_wp pid (EvException n) req)|]. intros [[]|e|] s' H; [estep|done..]. split; [by destruct req|done].
  - unfold Events.do_evctrl_scheduling. do 2 estep.
    eapply wp_mono; [by apply (set_owner_wp pid (EvScheduling ev) req)|]. intros [[]|e|] s' H; [estep|done..]. split; [by destruct req|done].
Qed.

(** ** Resuming *)

Definition has_descriptor (d : EventDescriptor) (x : PendingException) : bool := bool_decide (x.1.1 = d).

(** Resuming an exception.  If a process owns the exception, the first pending exception
    with the descriptor is taken off and its thread, if it waits to be resumed, does not sleep
    any more; without a pending one nothing happens.  If no process owns the exception, the
    kernel panics; which process calls makes no difference. *)
Theorem resume_spec id n q m k : good k -> 0 <= n < 32 -> 0 <= id -> pending_exceptions m !! Z.to_nat n = Some q ->
  wp (Events.kcall_resume (ed_raw (EventDescriptor.new id (EvException n)))) (m, k) (fun o s' =>
    match exception_ownership m !! Z.to_nat n with
    | Some (Some _) => o = Ok tt /\
        match NonEmpty.position (has_descriptor (EventDescriptor.new id (EvException n))) q with
        | Some i => s'.1 = Events.with_exceptions (<[Z.to_nat n := delete i q]> (pending_exceptions m)) m /\
            forall d x resume, q !! i = Some (d, x, resume) -> NoDup (Condvar.sleeping resume k) ->
              xe_tid x ∈ Condvar.sleeping resume k -> ~ sleeps (xe_tid x) (pm s'.2)
        | None => s' = (m, k)
        end
    | _ => o = Panic
    end).
Proof.
  intros Hg Hn Hid Hq. destruct (descriptor_parts id (EvException n) Hn Hid) as [He _].
  unfold Events.kcall_resume. do 2 estep. rewrite (descriptor_decodes id (EvException n) Hn Hid).
  unfold Events.resume. do 2 estep. rewrite He. unfold Events.resume_exception. do 2 estep. rewrite He. do 2 estep. rewrite Hq.
  destruct (exception_ownership m !! Z.to_nat n) as [[o|]|]; [|done..]. unfold has_descriptor.
  destruct (NonEmpty.position _ q) as [i|] eqn:Ei; [|by estep].
  destruct (Mailbox.position_split (T:=PendingException) _ _ _ Ei) as (_ & y & _ & _ & Hy & _).
  destruct (q !! i) as [[[d x] cv]|] eqn:Hi; [clear Hy|discriminate Hy]. do 4 estep.
  eapply wp_mono; [by apply (notify_thread_calm cv (xe_tid x))|].
  intros [[]|e|] k' (Ho & _ & Hc); [|estep|done]; (split_and!; [done..|]; intros d' x' cv' [= <- <- <-] Hnd Hin;
    apply (cm_left _ _ _ _ Hc); [done|apply (cm_gone _ _ _ _ Hc); [by left|done]]).
Qed.
End EventClaims.

(** ** The sample system *)
Section Witnesses.
#[local] Existing Instance sample_config.
#[local] Existing Instance sample_config_ok.
#[local] Existing Instance sample_virt_mem.
#[local] Existing Instance sample_clock.
#[local] Instance sample_ipc : IpcConfig := {| PAYLOAD_SIZE := 64%nat |}.

(** Process 1 runs, and then waits for events. *)
Definition started (ic : bool) : World :=
  let '(o, k) := Events.init ic (run one_process boot) in
  match o with
  | Ok m => mkWorld m k ∅
  | _ => mkWorld (mkEventManagerInner ic 0 0 [] [] [] [] [] [] []) k ∅
  end.
Definition waiting (ic : bool) : World :=
  let w := started ic in
  let s' := (Events.wait 1 1 (w_em w, w_k w)).2 in
  mkWorld s'.1 s'.2 {[1 := (1, Events.masks_of 1 (w_em w))]}.

#[local] Opaque run boot.

Lemma started_reachable ic : event_reachable ic (started ic).
Proof.
  unfold started. destruct (Events.init ic (run one_process boot)) as [o k] eqn:E.
  assert (exists m, o = Ok m) as [m ->].
  { unfold Events.init, PM.new_condvar, mbind, M_bind, mret, M_ret in E. injection E as <- _. by eexists. }
  eapply er_init; [apply one_process_good|exact E].
Qed.

Lemma started_running ic : exists r, running (pm (w_k (started ic))) = Some r /\ ppid r = 1 /\ RunningProcess.get_tid r = 1.
Proof. apply running_key. destruct ic; vm_compute; reflexivity. Qed.

Lemma waiting_reachable ic : event_reachable ic (waiting ic).
Proof.
  eapply er_step; [apply started_reachable|]. destruct (started_running ic) as (r & Hr & Hp & Ht).
  destruct (Events.wait 1 1 (w_em (started ic), w_k (started ic))) as [o s'] eqn:E.
  assert (o = Ok None) as ->.
  { assert ((Events.wait 1 1 (w_em (started ic), w_k (started ic))).1 = Ok None) as Ho by (destruct ic; vm_compute; reflexivity).
    rewrite E in Ho. exact Ho. }
  pose proof (step_wait (started ic) r (Ok None) s') as Hs. rewrite Hp, Ht in Hs. unfold waiting. rewrite E. apply Hs.
  - split; [exact Hr|]. split; [by rewrite Hp|apply sample_guarded].
  - assert (w_blocked (started ic) = ∅) as -> by reflexivity. apply lookup_empty.
  - exact E.
  - discriminate.
Qed.

Lemma no_lost_events_witness : sleeps 1 (pm (w_k (waiting false))) /\
  nothing_for (w_em (waiting false)) (w_k (waiting false)) 1 1 (Events.masks_of 1 (w_em (started false))).
Proof.
  assert (sleeps 1 (pm (w_k (waiting false)))) as Hs by (apply elem_of_sleepers; vm_compute; left).
  split; [exact Hs|]. apply (no_lost_events false (waiting false)); [apply waiting_reachable| |exact Hs].
  apply lookup_singleton_eq.
Defined.

Lemma interrupts_never_arrive_witness :
  Events.try_interrupts 1 (Events.interrupts (Events.masks_of 1 (w_em (waiting true)))) (w_em (waiting true), w_k (waiting true)) =
  (Ok None, (w_em (waiting true), w_k (waiting true))).
Proof. apply (interrupts_never_arrive true), waiting_reachable. Defined.

(** Process 1 has the capability for exceptions. *)
Definition trusted : list Op := one_process ++ [OpCapctl 1 ExceptionControl true].

Lemma trusted_good : good (run trusted boot).
Proof.
  apply run_good. unfold trusted, one_process. cbn [app all_allowed].
  splits; [apply new_process_allowed|apply sample_guarded|exact I|exact I].
Qed.

(** It registers for page faults, and then for those only. *)
Lemma evctrl_spec_witness : let s' := (Events.evctrl 1 (EvException 14) Register_ (w_em (started true), run trusted boot)).2 in
  owner s'.1 (EvException 14) = Some (Some 1) /\ owner s'.1 (EvException 13) = Some None.
Proof.
  pose proof (evctrl_spec 1 (EvException 14) Register_ (w_em (started true)) (run trusted boot) trusted_good) as H. unfold wp in H.
  assert ((Events.evctrl 1 (EvException 14) Register_ (w_em (started true), run trusted boot)).1 = Ok true) as E by (vm_compute; reflexivity).
  rewrite E in H. destruct H as (_ & _ & _ & Ho & Hne). intros s'. split; [exact Ho|]. unfold s'. rewrite Hne; [vm_compute; reflexivity|].
  intros [_ Hi]. vm_compute in Hi. discriminate.
Defined.

(** Nobody owns page faults: resuming one stops the kernel. *)
Lemma resume_spec_witness :
  (Events.kcall_resume (ed_raw (EventDescriptor.new 1 (EvException 14))) (w_em (started true), run trusted boot)).1 = Panic.
Proof.
  pose proof (resume_spec 1 14 [] (w_em (started true)) (run trusted boot) trusted_good ltac:(lia) ltac:(lia)
    ltac:(vm_compute; reflexivity)) as H. unfold wp in H.
  assert (exception_ownership (w_em (started true)) !! Z.to_nat 14 = Some None) as E by (vm_compute; reflexivity).
  rewrite E in H. exact H.
Defined.
End Witnesses.
