(* ===== verification/Mutex.v ===== *)
(** * Mutexes and condition variables of user programs

    [kernel/src/pm/sync/mutex.rs], the tables of mutexes and condition variables in
    [kernel/src/pm/process/state/mod.rs], their accessors in the process manager, and the
    kernel calls [lock_mutex], [unlock_mutex], [wait_cond] and [signal_cond].

    - A mutex is behind an [Arc]: it lives as long as the table of the process, a guard or
      a local variable of a call refers to it.  The model keeps the count, and a clone or a
      drop of a reference is a step of its own.
    - A guard is a reference to the mutex; its [drop] unlocks.
    - A call that blocks is split at the context switch.  What it needs to go on, its local
      variables, is a [Frame]; [resume] goes on with it. *)

From S2P Require Import Prelude Error Config Addr NonEmpty Mailbox UserSpace VirtMem Str Thread Process.
From S2P Require Import Pending ProcManager EntryPoints.
#[local] Open Scope Z_scope.

(** Limits of the tables, constants of the build. *)
Class LockConfig := { MUTEX_OPEN_MAX : nat; COND_OPEN_MAX : nat }.

Record MutexInner := mkMutexInner { locked : bool; mx_sleeping : Condvar }.

(** What an [Arc] refers to, with the number of references. *)
Record Shared := mkShared { strong_count : Z; mx_inner : MutexInner }.

(** A guard. *)
Notation MutexGuard := Mutex.

(** The mutexes, and the numbers of references to condition variables. *)
Record Locks := mkLocks {
  mutex_heap : gmap Mutex Shared;
  next_mutex : Mutex;
  cond_counts : gmap Condvar Z
}.

(** What a call that blocks keeps on its stack: inside [lock_mutex]; inside [wait_cond],
    waiting for the condition, and locking the mutex again. *)
Inductive Frame :=
| InLock (mutex_addr : Z) (mutex : Mutex) (timeout : option SystemTime)
| InWait (cond_addr mutex_addr : Z) (cond : Condvar)
| InRelock (mutex_addr : Z) (mutex : Mutex) (result : option SleepError).

(** The call is over, with its result, or it blocks. *)
Inductive Progress := Done (result : option SleepError) | Blocks (frame : Frame).

Module Lock.
Section Definitions.
Context {CF : Config} {VM : VirtMem} {CK : Clock} {LC : LockConfig}.
Notation L := (M (Locks * Kernel) Error).

Definition on_k {A} (m : K A) : L A := zoom snd (fun k s => (s.1, k)) m.
Definition locks : L Locks := s ← get; mret s.1.
Definition set_locks (f : Locks → Locks) : L unit := modify (fun s => (f s.1, s.2)).
Definition with_heap h (l : Locks) : Locks := mkLocks h (next_mutex l) (cond_counts l).
Definition with_counts c (l : Locks) : Locks := mkLocks (mutex_heap l) (next_mutex l) c.

(** ** References *)

(** [Drop for CondvarInner]. *)
Definition drop_condvar (cv : Condvar) : K unit :=
  s ← get;
  match Condvar.sleeping cv s with
  | [] => modify (fun s => PM.with_condvars (delete cv (condvars s)) s)
  | _ :: _ => panic
  end.

(** A reference that does not lead to a mutex does not exist. *)
Definition deref (m : Mutex) : L Shared :=
  l ← locks;
  match mutex_heap l !! m with Some a => mret a | None => panic end.
Definition store (m : Mutex) (a : Shared) : L unit := set_locks (fun l => with_heap (<[m := a]> (mutex_heap l)) l).

Definition clone (m : Mutex) : L unit := a ← deref m; store m (mkShared (strong_count a + 1) (mx_inner a)).
Definition drop (m : Mutex) : L unit :=
  a ← deref m;
  if strong_count a =? 1
  then set_locks (fun l => with_heap (delete m (mutex_heap l)) l);; on_k (drop_condvar (mx_sleeping (mx_inner a)))
  else store m (mkShared (strong_count a - 1) (mx_inner a)).

Definition reference_count (m : Mutex) : L Z := a ← deref m; mret (strong_count a).

(** The same for condition variables. *)
Definition cond_reference_count (cv : Condvar) : L Z :=
  l ← locks;
  match cond_counts l !! cv with Some n => mret n | None => panic end.
Definition cond_store (cv : Condvar) (n : Z) : L unit := set_locks (fun l => with_counts (<[cv := n]> (cond_counts l)) l).
Definition cond_new : L Condvar := cv ← on_k PM.new_condvar; cond_store cv 1;; mret cv.
Definition cond_clone (cv : Condvar) : L unit := n ← cond_reference_count cv; cond_store cv (n + 1).
Definition cond_drop (cv : Condvar) : L unit :=
  n ← cond_reference_count cv;
  if n =? 1
  then set_locks (fun l => with_counts (delete cv (cond_counts l)) l);; on_k (drop_condvar cv)
  else cond_store cv (n - 1).

(** ** Mutexes *)

Definition new : L Mutex :=
  cv ← on_k PM.new_condvar;
  l ← locks;
  let m := next_mutex l in
  set_locks (fun l => mkLocks (<[m := mkShared 1 (mkMutexInner false cv)]> (mutex_heap l)) (m + 1) (cond_counts l));;
  mret m.

Definition set_locked (b : bool) (m : Mutex) : L unit :=
  a ← deref m; store m (mkShared (strong_count a) (mkMutexInner b (mx_sleeping (mx_inner a)))).

Definition unlock_unchecked (m : Mutex) : L unit :=
  set_locked false m;;
  a ← deref m;
  on_k (Condvar.notify_first (mx_sleeping (mx_inner a)));;
  mret tt.

(** [Drop for MutexGuard]: an error is only logged. *)
Definition drop_guard (guard : MutexGuard) : L unit :=
  catch (unlock_unchecked guard) (fun _ => mret tt);; drop guard.

Definition try_lock (m : Mutex) : L (option MutexGuard) :=
  a ← deref m;
  if locked (mx_inner a) then mret None
  else set_locked true m;; clone m;; mret (Some m).

(** [None]: the thread sleeps, and goes on with [lock_resume]. *)
Definition lock (m : Mutex) (timeout : option SystemTime) : L (option MutexGuard) :=
  r ← try_lock m;
  match r with
  | Some guard => mret (Some guard)
  | None => a ← deref m; on_k (Condvar.wait (mx_sleeping (mx_inner a)) timeout);; mret None
  end.

Definition lock_resume (tid : ThreadIdentifier) (m : Mutex) (timeout : option SystemTime)
    : L (option MutexGuard + SleepError) :=
  a ← deref m;
  r ← on_k (Condvar.wait_return (mx_sleeping (mx_inner a)) tid);
  match r with
  | None => guard ← lock m timeout; mret (inl guard)
  | Some e => mret (inr e)
  end.

(** ** The tables of a process *)

Definition get_mutex (mutex_addr : Z) (st : ProcessState) : L (Mutex * ProcessState) :=
  match mutexes st !! mutex_addr with
  | Some m => clone m;; mret (m, st)
  | None =>
    if (MUTEX_OPEN_MAX <=? size (mutexes st))%nat
    then fail (mkError OutOfMemory "maximum number of mutexes reached")
    else m ← new; clone m;; mret (m, ProcessState.with_mutexes (<[mutex_addr := m]> (mutexes st)) st)
  end.

Definition put_mutex (mutex_addr : Z) (st : ProcessState) : L (unit * ProcessState) :=
  match mutexes st !! mutex_addr with
  | None => fail (mkError NoSuchEntry "mutex not found")
  | Some m =>
    n ← reference_count m;
    if n <=? 2 then drop m;; mret (tt, ProcessState.with_mutexes (delete mutex_addr (mutexes st)) st)
    else mret (tt, st)
  end.

Definition get_cond (cond_addr : Z) (st : ProcessState) : L (Condvar * ProcessState) :=
  match conditions st !! cond_addr with
  | Some cv => cond_clone cv;; mret (cv, st)
  | None =>
    if (COND_OPEN_MAX <=? size (conditions st))%nat
    then fail (mkError OutOfMemory "maximum number of condition variables reached")
    else cv ← cond_new; cond_clone cv;; mret (cv, ProcessState.with_conditions (<[cond_addr := cv]> (conditions st)) st)
  end.

Definition put_cond (cond_addr : Z) (st : ProcessState) : L (unit * ProcessState) :=
  match conditions st !! cond_addr with
  | None => fail (mkError NoSuchEntry "condition variable not found")
  | Some cv =>
    n ← cond_reference_count cv;
    if n <=? 1 then cond_drop cv;; mret (tt, ProcessState.with_conditions (delete cond_addr (conditions st)) st)
    else mret (tt, st)
  end.

(** ** The process manager *)

(** [self.get_running_mut().state_mut()]. *)
Definition on_state {A} (f : ProcessState → L (A * ProcessState)) : L A :=
  r ← on_k PM.get_running;
  '(x, st) ← f (rp_state r);
  on_k (PM.set_running (RunningProcess.with_state st r));;
  mret x.

Definition lookup_mutex (mutex_addr : Z) : L Mutex := on_state (get_mutex mutex_addr).
Definition lookup_cond (cond_addr : Z) : L Condvar := on_state (get_cond cond_addr).
Definition release_cond (cond_addr : Z) : L unit := on_state (put_cond cond_addr).

(** A guard that the table had for the address is dropped. *)
Definition store_mutex_guard (mutex_addr : Z) (guard : MutexGuard) : L unit :=
  r ← on_k PM.get_running;
  let ts := run_state (rp_running r) in
  on_k (PM.set_running (RunningProcess.with_running (mkRunningThread (ThreadState.store_mutex_guard mutex_addr guard ts)) r));;
  match locked_mutexes ts !! mutex_addr with
  | Some old => drop_guard old
  | None => mret tt
  end.

Definition remove_mutex_guard (mutex_addr : Z) : L MutexGuard :=
  r ← on_k PM.get_running;
  let '(guard, ts) := ThreadState.take_mutex_guard mutex_addr (run_state (rp_running r)) in
  on_k (PM.set_running (RunningProcess.with_running (mkRunningThread ts) r));;
  match guard with
  | None => fail (mkError OperationNotPermitted "thread does not own mutex")
  | Some mutex_guard =>
    catch (on_state (put_mutex mutex_addr)) (fun e => drop_guard mutex_guard;; fail e);;
    mret mutex_guard
  end.

(** ** Kernel calls *)

Definition NANOSECONDS_PER_SECOND : Z := 1000000000.

(** The time a call waits for at most, from its two arguments. *)
Definition decode_timeout (timeout_s timeout_ns : Z) : res Error (option SystemTime) :=
  if (timeout_s =? usize_max) && (timeout_ns =? usize_max) then Ok None
  else if NANOSECONDS_PER_SECOND <=? timeout_ns then Err (mkError InvalidArgument "invalid timeout")
  else Ok (Some (timeout_s * NANOSECONDS_PER_SECOND + timeout_ns)).

(** The end of a call that locks: the guard is kept, the reference is dropped. *)
Definition locked_end (mutex_addr : Z) (mutex : Mutex) (guard : MutexGuard) (result : option SleepError) : L Progress :=
  store_mutex_guard mutex_addr guard;; drop mutex;; mret (Done result).

Definition lock_mutex (mutex_addr timeout_s timeout_ns : Z) : L Progress :=
  timeout ← lift (decode_timeout timeout_s timeout_ns);
  mutex ← lookup_mutex mutex_addr;
  guard ← catch (lock mutex timeout) (fun e => drop mutex;; fail e);
  match guard with
  | Some guard => locked_end mutex_addr mutex guard None
  | None => mret (Blocks (InLock mutex_addr mutex timeout))
  end.

Definition lock_mutex_resume (tid : ThreadIdentifier) (mutex_addr : Z) (mutex : Mutex) (timeout : option SystemTime) : L Progress :=
  r ← catch (lock_resume tid mutex timeout) (fun e => drop mutex;; fail e);
  match r with
  | inl (Some guard) => locked_end mutex_addr mutex guard None
  | inl None => mret (Blocks (InLock mutex_addr mutex timeout))
  | inr e => drop mutex;; mret (Done (Some e))
  end.

Definition unlock_mutex (mutex_addr : Z) : L unit :=
  guard ← remove_mutex_guard mutex_addr; drop_guard guard.

(** The second half of [wait_cond], from [put_cond] on. *)
Definition relock (cond_addr mutex_addr : Z) (result : option SleepError) : L Progress :=
  release_cond cond_addr;;
  mutex ← lookup_mutex mutex_addr;
  guard ← catch (lock mutex None) (fun e => drop mutex;; fail e);
  match guard with
  | Some guard => locked_end mutex_addr mutex guard result
  | None => mret (Blocks (InRelock mutex_addr mutex result))
  end.

Definition relock_resume (tid : ThreadIdentifier) (mutex_addr : Z) (mutex : Mutex) (result : option SleepError) : L Progress :=
  r ← catch (lock_resume tid mutex None) (fun e => drop mutex;; fail e);
  match r with
  | inl (Some guard) => locked_end mutex_addr mutex guard result
  | inl None => mret (Blocks (InRelock mutex_addr mutex result))
  | inr e => drop mutex;; mret (Done (Some e))
  end.

Definition wait_cond (cond_addr mutex_addr timeout_s timeout_ns : Z) : L Progress :=
  alarm ← lift (decode_timeout timeout_s timeout_ns);
  guard ← remove_mutex_guard mutex_addr;
  drop_guard guard;;
  r ← catch (cond ← lookup_cond cond_addr;
             catch (on_k (Condvar.wait cond alarm)) (fun e => cond_drop cond;; fail e);;
             mret (inl cond))
        (fun e => mret (inr e));
  match r with
  | inl cond => mret (Blocks (InWait cond_addr mutex_addr cond))
  | inr e => relock cond_addr mutex_addr (Some (Generic e))
  end.

Definition wait_cond_resume (tid : ThreadIdentifier) (cond_addr mutex_addr : Z) (cond : Condvar) : L Progress :=
  result ← on_k (Condvar.wait_return cond tid);
  cond_drop cond;;
  relock cond_addr mutex_addr result.

Definition signal_cond (cond_addr : Z) (broadcast : bool) : L Z :=
  cond ← lookup_cond cond_addr;
  awakened ← catch (on_k (if broadcast then Condvar.notify_all cond else Condvar.notify_first cond))
               (fun e => cond_drop cond;; fail e);
  cond_drop cond;;
  release_cond cond_addr;;
  mret awakened.

(** A thread that was blocked runs again. *)
Definition resume (tid : ThreadIdentifier) (f : Frame) : L Progress :=
  match f with
  | InLock mutex_addr mutex timeout => lock_mutex_resume tid mutex_addr mutex timeout
  | InWait cond_addr mutex_addr cond => wait_cond_resume tid cond_addr mutex_addr cond
  | InRelock mutex_addr mutex result => relock_resume tid mutex_addr mutex result
  end.
End Definitions.
End Lock.
