(* ===== verification/MutexInv.v ===== *)
(** * Mutexes: who refers to what

    The invariant of the tables of mutexes and condition variables: the count of references
    of a mutex is the number of tables, guards and blocked calls that refer to it, it is
    locked when there is a guard, and there is at most one.  The lemmas are about the
    steps of the code, one reference at a time; the invariant has the references that local
    variables hold in between as lists of their own. *)

From S2P Require Import Prelude Error Config Addr NonEmpty Mailbox UserSpace VirtMem Str Thread Process.
From S2P Require Import ProcessView Pending ProcManager ManagerInv EntryPoints Mutex.
#[local] Open Scope Z_scope.

(** How often a number occurs in a list. *)
Definition tally (x : Z) (l : list Z) : Z := Z.of_nat (length (filter (fun y => x = y) l)).

Lemma tally_nil x : tally x [] = 0.
Proof. done. Qed.
Lemma tally_cons x y l : tally x (y :: l) = (if decide (x = y) then 1 else 0) + tally x l.
Proof. unfold tally. rewrite filter_cons. destruct (decide (x = y)); simpl; lia. Qed.
Lemma tally_app x l k : tally x (l ++ k) = tally x l + tally x k.
Proof. unfold tally. rewrite filter_app, length_app. lia. Qed.
#[global] Instance tally_proper x : Proper ((≡ₚ) ==> (=)) (tally x).
Proof. intros l k H. unfold tally. by rewrite H. Qed.
Lemma tally_nonneg x l : 0 <= tally x l.
Proof. unfold tally. lia. Qed.
Lemma tally_elem x l : x ∈ l <-> 0 < tally x l.
Proof.
  induction l as [|y l IH]; [rewrite tally_nil, elem_of_nil; lia|]. rewrite tally_cons, elem_of_cons, IH.
  pose proof (tally_nonneg x l). destruct (decide (x = y)); intuition lia.
Qed.

(** A table entry and what it refers to; a guard that a thread holds, and its mutex. *)
Definition Place : Type := ProcessIdentifier * Z * Z.
Definition Holding : Type := ProcessIdentifier * ThreadIdentifier * Z * Z.
Definition placed (l : list Place) : list Z := (fun e : Place => e.2) <$> l.
Definition guards (l : list Holding) : list Z := (fun h : Holding => h.2) <$> l.

#[global] Instance placed_proper : Proper ((≡ₚ) ==> (≡ₚ)) placed.
Proof. intros l k H. unfold placed. by rewrite H. Qed.
#[global] Instance guards_proper : Proper ((≡ₚ) ==> (≡ₚ)) guards.
Proof. intros l k H. unfold guards. by rewrite H. Qed.
Lemma placed_cons pid a m l : placed ((pid, a, m) :: l) = m :: placed l.
Proof. done. Qed.
Lemma guards_cons pid tid a m l : guards ((pid, tid, a, m) :: l) = m :: guards l.
Proof. done. Qed.

(** Compute with occurrences. *)
Ltac nonneg x l := lazymatch goal with _ : 0 <= tally x l |- _ => fail | _ => pose proof (tally_nonneg x l) end.
Ltac occurs :=
  repeat (rewrite ?tally_app, ?tally_cons, ?tally_nil, ?placed_cons, ?guards_cons in *; cbn [app] in *);
  repeat match goal with
  | |- context [tally ?x ?l] => nonneg x l
  | _ : context [tally ?x ?l] |- _ => nonneg x l
  end.

Section MutexInv.
Implicit Types (l : Locks) (m cv : Z).

Notation Frames := (gmap ThreadIdentifier (ProcessIdentifier * Frame)).

Definition strong l m : Z := from_option strong_count 0 (mutex_heap l !! m).
Definition inner_of l m : option MutexInner := mx_inner <$> mutex_heap l !! m.
Definition ccount l cv : Z := default 0 (cond_counts l !! cv).

(** What a blocked call refers to. *)
Definition frame_mutex (f : Frame) : option Mutex :=
  match f with InLock _ m _ | InRelock _ m _ => Some m | InWait _ _ _ => None end.
Definition frame_cond (f : Frame) : option Condvar :=
  match f with InWait _ _ cv => Some cv | _ => None end.
Definition frame_mutexes (F : Frames) : list Mutex := omap (fun x => frame_mutex x.2.2) (map_to_list F).
Definition frame_conds (F : Frames) : list Condvar := omap (fun x => frame_cond x.2.2) (map_to_list F).

(** The tables have it. *)
Definition frame_home (E C : list Place) (pid : ProcessIdentifier) (f : Frame) : Prop :=
  match f with
  | InLock a m _ | InRelock a m _ => (pid, a, m) ∈ E
  | InWait c _ cv => (pid, c, cv) ∈ C
  end.

(** [q] are the queues of the condition variables and [nx] is the next one; [E] and [C] are
    the tables, [H] the guards that threads hold, [F] the calls that are blocked.  Local
    variables have references [T] to mutexes, guards [G] and references [D] to condition
    variables. *)
Record lock_inv l (q : Condvar → list ThreadIdentifier) (nx : Condvar) (E C : list Place) (H : list Holding) (F : Frames)
    (T : list Mutex) (G : list MutexGuard) (D : list Condvar) : Prop := {
  li_count m : strong l m = tally m (placed E ++ guards H ++ frame_mutexes F ++ T ++ G);
  li_pos m a : mutex_heap l !! m = Some a -> 0 < strong_count a;
  li_ccount cv : ccount l cv = tally cv (placed C ++ frame_conds F ++ D);
  li_cpos cv n : cond_counts l !! cv = Some n -> 0 < n;
  (** Every mutex and condition variable has one place in the tables. *)
  li_places m : tally m (placed E) <= 1;
  li_cplaces cv : tally cv (placed C) <= 1;
  (** A mutex is locked when there is a guard, and there is one at most. *)
  li_locked m i : inner_of l m = Some i -> tally m (guards H ++ G) = if locked i then 1 else 0;
  li_home pid tid a m : (pid, tid, a, m) ∈ H -> (pid, a, m) ∈ E;
  li_frames tid pid f : F !! tid = Some (pid, f) -> frame_home E C pid f;
  (** What is new is not yet in use, and queues are not shared. *)
  li_next m : is_Some (inner_of l m) -> m < next_mutex l;
  li_cvs m m' i i' : inner_of l m = Some i -> inner_of l m' = Some i' -> mx_sleeping i = mx_sleeping i' -> m = m';
  li_apart m i : inner_of l m = Some i -> cond_counts l !! mx_sleeping i = None;
  li_cvnext m i : inner_of l m = Some i -> mx_sleeping i < nx;
  li_ccnext cv : is_Some (cond_counts l !! cv) -> cv < nx;
  (** Who is queued is inside a call that waits. *)
  li_queue m i t : inner_of l m = Some i -> t ∈ q (mx_sleeping i) -> exists pid f, F !! t = Some (pid, f) /\ frame_mutex f = Some m;
  li_cqueue cv t : is_Some (cond_counts l !! cv) -> t ∈ q cv -> exists pid f, F !! t = Some (pid, f) /\ frame_cond f = Some cv
}.

(** ** The state around it *)

(** The queues that matter. *)
Definition queue_of l cv : Prop := (exists m i, inner_of l m = Some i /\ mx_sleeping i = cv) \/ is_Some (cond_counts l !! cv).

Lemma inv_around l q nx E C H F T G D q' nx' E' C' H' : lock_inv l q nx E C H F T G D ->
  E' ≡ₚ E -> C' ≡ₚ C -> H' ≡ₚ H -> (forall cv, queue_of l cv -> q' cv ⊆ q cv) -> nx <= nx' -> lock_inv l q' nx' E' C' H' F T G D.
Proof.
  intros [] HE HC HH Hq Hn. constructor; try done.
  - intros m. by rewrite HE, HH.
  - intros cv. by rewrite HC.
  - intros m. by rewrite HE.
  - intros cv. by rewrite HC.
  - intros m i Hm. rewrite HH. eauto.
  - intros pid tid a m. rewrite HH, HE. eauto.
  - intros tid pid f Hf. specialize (li_frames0 _ _ _ Hf). destruct f; simpl in *; by rewrite ?HE, ?HC.
  - intros m i Hm. specialize (li_cvnext0 m i Hm). lia.
  - intros cv Hc. specialize (li_ccnext0 cv Hc). lia.
  - intros m i t Hm Ht. eapply li_queue0; [done|]. apply Hq; [|done]. left. by exists m, i.
  - intros cv t Hm Ht. eapply li_cqueue0; [done|]. apply Hq; [|done]. by right.
Qed.

Lemma inv_perm l q nx E C H F T G D q' nx' E' C' H' : lock_inv l q nx E C H F T G D ->
  E' ≡ₚ E -> C' ≡ₚ C -> H' ≡ₚ H -> (forall cv, q' cv ⊆ q cv) -> nx <= nx' -> lock_inv l q' nx' E' C' H' F T G D.
Proof. intros Hl HE HC HH Hq Hn. eapply inv_around; [done..| |done]. auto. Qed.

Lemma inv_apart l q nx E C H F T G D m i cv : lock_inv l q nx E C H F T G D -> inner_of l m = Some i ->
  mx_sleeping i = cv -> ~ is_Some (cond_counts l !! cv).
Proof. intros Hl Hi <- [n Hn]. cut (Some n = None); [done|]. rewrite <- Hn. exact (li_apart _ _ _ _ _ _ _ _ _ _ Hl m i Hi). Qed.

(** Only counts change. *)
Lemma inv_recount l l' q nx E C H F T T' G D : lock_inv l q nx E C H F T G D ->
  (forall m, inner_of l' m = inner_of l m) -> next_mutex l' = next_mutex l -> cond_counts l' = cond_counts l ->
  (forall m, strong l' m - strong l m = tally m T' - tally m T) ->
  (forall m a, mutex_heap l' !! m = Some a -> 0 < strong_count a) -> lock_inv l' q nx E C H F T' G D.
Proof.
  intros [] Hi Hn Hc Hs Hp. constructor; unfold ccount in *; rewrite ?Hn, ?Hc; try done; try (intros m; rewrite Hi; eauto).
  - intros m. specialize (li_count0 m). specialize (Hs m). occurs. lia.
  - intros m'. rewrite Hi. eauto.
Qed.

(** ** References to mutexes *)

Definition shared m a l : Locks := Lock.with_heap (<[m := a]> (mutex_heap l)) l.
Definition unshared m l : Locks := Lock.with_heap (delete m (mutex_heap l)) l.

Lemma shared_strong m a l (m' : Z) : strong (shared m a l) m' = if decide (m' = m) then strong_count a else strong l m'.
Proof.
  unfold strong. cbn. destruct (decide (m' = m)) as [->|Hne]; [by rewrite lookup_insert_eq|by rewrite lookup_insert_ne].
Qed.
Lemma shared_inner m a l (m' : Z) : inner_of (shared m a l) m' = if decide (m' = m) then Some (mx_inner a) else inner_of l m'.
Proof.
  unfold inner_of. cbn. destruct (decide (m' = m)) as [->|Hne]; [by rewrite lookup_insert_eq|by rewrite lookup_insert_ne].
Qed.
Lemma unshared_strong m l (m' : Z) : strong (unshared m l) m' = if decide (m' = m) then 0 else strong l m'.
Proof.
  unfold strong. cbn. destruct (decide (m' = m)) as [->|Hne]; [by rewrite lookup_delete_eq|by rewrite lookup_delete_ne].
Qed.
Lemma unshared_inner m l (m' : Z) : inner_of (unshared m l) m' = if decide (m' = m) then None else inner_of l m'.
Proof.
  unfold inner_of. cbn. destruct (decide (m' = m)) as [->|Hne]; [by rewrite lookup_delete_eq|by rewrite lookup_delete_ne].
Qed.

Lemma shared_pos (P : Shared → Prop) m a l : P a -> (forall m' a', mutex_heap l !! m' = Some a' -> P a') ->
  forall m' a', mutex_heap (shared m a l) !! m' = Some a' -> P a'.
Proof. intros Ha Hl m' a'. cbn. rewrite lookup_insert_Some. intros [[_ <-]|[_ H]]; eauto. Qed.

(** The mutex that a reference leads to. *)
Lemma inv_deref l q nx E C H F T G D m : lock_inv l q nx E C H F T G D ->
  m ∈ placed E ++ guards H ++ frame_mutexes F ++ T ++ G -> exists a, mutex_heap l !! m = Some a.
Proof.
  intros Hl Hin. apply tally_elem in Hin. rewrite <- (li_count _ _ _ _ _ _ _ _ _ _ Hl) in Hin. unfold strong in Hin.
  destruct (mutex_heap l !! m) as [a|]; [by exists a|simpl in Hin; lia].
Qed.

Lemma inv_clone l q nx E C H F T G D m a : lock_inv l q nx E C H F T G D -> mutex_heap l !! m = Some a ->
  lock_inv (shared m (mkShared (strong_count a + 1) (mx_inner a)) l) q nx E C H F (m :: T) G D.
Proof.
  intros Hl Ha. apply (inv_recount l _ _ _ _ _ _ _ T); [done| |done|done| |].
  - intros m'. rewrite shared_inner. destruct (decide (m' = m)) as [->|]; [|done]. unfold inner_of. by rewrite Ha.
  - intros m'. rewrite shared_strong. occurs. destruct (decide (m' = m)) as [->|]; [|lia]. unfold strong. rewrite Ha. simpl. lia.
  - apply (shared_pos (fun a => 0 < strong_count a)); [|apply Hl]. pose proof (li_pos _ _ _ _ _ _ _ _ _ _ Hl m a Ha). simpl. lia.
Qed.

Lemma inv_drop l q nx E C H F T G D m a : lock_inv l q nx E C H F (m :: T) G D -> mutex_heap l !! m = Some a -> strong_count a <> 1 ->
  lock_inv (shared m (mkShared (strong_count a - 1) (mx_inner a)) l) q nx E C H F T G D.
Proof.
  intros Hl Ha Hne. apply (inv_recount l _ _ _ _ _ _ _ (m :: T)); [done| |done|done| |].
  - intros m'. rewrite shared_inner. destruct (decide (m' = m)) as [->|]; [|done]. unfold inner_of. by rewrite Ha.
  - intros m'. rewrite shared_strong. occurs. destruct (decide (m' = m)) as [->|]; [|lia]. unfold strong. rewrite Ha. simpl. lia.
  - apply (shared_pos (fun a => 0 < strong_count a)); [|apply Hl]. pose proof (li_pos _ _ _ _ _ _ _ _ _ _ Hl m a Ha). simpl. lia.
Qed.

(** No blocked call refers to a mutex whose last reference is a local variable. *)
Lemma frame_mutexes_elem (F : Frames) t pid f m : F !! t = Some (pid, f) -> frame_mutex f = Some m -> m ∈ frame_mutexes F.
Proof. intros HF Hm. apply list_elem_of_omap. exists (t, (pid, f)). split; [by apply elem_of_map_to_list|done]. Qed.

Lemma frame_conds_elem (F : Frames) t pid f cv : F !! t = Some (pid, f) -> frame_cond f = Some cv -> cv ∈ frame_conds F.
Proof. intros HF Hm. apply list_elem_of_omap. exists (t, (pid, f)). split; [by apply elem_of_map_to_list|done]. Qed.

Lemma inv_free l q q' nx E C H F T G D m a : lock_inv l q nx E C H F (m :: T) G D -> mutex_heap l !! m = Some a -> strong_count a = 1 ->
  (forall cv, q' cv ⊆ q cv) -> q (mx_sleeping (mx_inner a)) = [] /\ lock_inv (unshared m l) q' nx E C H F T G D.
Proof.
  intros Hl Ha H1 Hq. pose proof (li_count _ _ _ _ _ _ _ _ _ _ Hl m) as Hc. unfold strong in Hc. rewrite Ha in Hc. simpl in Hc.
  occurs. rewrite decide_True in Hc by done.
  assert (forall t pid f, F !! t = Some (pid, f) -> frame_mutex f <> Some m) as HF.
  { intros t pid f HF Hf. pose proof (frame_mutexes_elem _ _ _ _ _ HF Hf) as Hin. apply tally_elem in Hin. lia. }
  assert (inner_of l m = Some (mx_inner a)) as Hi by (unfold inner_of; by rewrite Ha). split.
  - destruct (q (mx_sleeping (mx_inner a))) as [|t k] eqn:E'; [done|].
    destruct (li_queue _ _ _ _ _ _ _ _ _ _ Hl m _ t Hi) as (pid & f & HFt & Hf); [rewrite E'; left|]. by destruct (HF _ _ _ HFt).
  - destruct Hl. constructor; try done.
    + intros m'. rewrite unshared_strong. destruct (decide (m' = m)) as [->|Hne]; [occurs; lia|].
      rewrite li_count0. occurs. destruct (decide (m' = m)); [done|lia].
    + intros m' a'. cbn. rewrite lookup_delete_Some. intros [_ ?]. eauto.
    + intros m' i. rewrite unshared_inner. destruct (decide (m' = m)); [done|]. eauto.
    + intros m'. rewrite unshared_inner. destruct (decide (m' = m)); [by intros []|]. apply li_next0.
    + intros m1 m2 i1 i2. rewrite !unshared_inner. destruct (decide (m1 = m)), (decide (m2 = m)); try done. apply li_cvs0.
    + intros m' i. rewrite unshared_inner. destruct (decide (m' = m)); [done|]. apply li_apart0.
    + intros m' i. rewrite unshared_inner. destruct (decide (m' = m)); [done|]. apply li_cvnext0.
    + intros m' i t. rewrite unshared_inner. destruct (decide (m' = m)); [done|]. intros Hm Ht. eapply li_queue0; [done|by apply Hq].
    + intros cv t Hc' Ht. eapply li_cqueue0; [done|by apply Hq].
Qed.

(** ** Locking and unlocking *)

(** The bit of a mutex is set or cleared, and the references are counted again. *)
Lemma inv_bit l q nx E C H F T (T' : list Mutex) G (G' : list MutexGuard) D m a (b : bool) (n : Z) : lock_inv l q nx E C H F T G D -> mutex_heap l !! m = Some a ->
  0 < n -> n - strong_count a = tally m (T' ++ G') - tally m (T ++ G) ->
  (forall m' : Z, m' <> m -> tally m' T' = tally m' T /\ tally m' G' = tally m' G) ->
  tally m (guards H ++ G') = (if b then 1 else 0) ->
  lock_inv (shared m (mkShared n (mkMutexInner b (mx_sleeping (mx_inner a)))) l) q nx E C H F T' G' D.
Proof.
  intros Hl Ha Hn Hs Ho Hb. assert (inner_of l m = Some (mx_inner a)) as Hi by (unfold inner_of; by rewrite Ha).
  assert (forall m' i, inner_of (shared m (mkShared n (mkMutexInner b (mx_sleeping (mx_inner a)))) l) m' = Some i ->
    exists i0, inner_of l m' = Some i0 /\ mx_sleeping i0 = mx_sleeping i) as Hin.
  { intros m' i. rewrite shared_inner. destruct (decide (m' = m)) as [->|]; [intros [= <-]; by eexists|by eexists]. }
  destruct Hl. constructor; try done.
  - intros m'. rewrite shared_strong. destruct (decide (m' = m)) as [->|Hne].
    + specialize (li_count0 m). unfold strong in li_count0. rewrite Ha in li_count0. cbn in *. occurs. lia.
    + rewrite li_count0. destruct (Ho m' Hne). occurs. lia.
  - apply (shared_pos (fun a => 0 < strong_count a)); done.
  - intros m' i. rewrite shared_inner. destruct (decide (m' = m)) as [->|Hne]; [by intros [= <-]|].
    intros Hm. rewrite <- (li_locked0 m' i Hm). destruct (Ho m' Hne). occurs. lia.
  - intros m' [i Hm]. destruct (Hin m' i Hm) as (i0 & H0 & _). apply li_next0. by exists i0.
  - intros m1 m2 i1 i2 H1 H2 He. destruct (Hin _ _ H1) as (j1 & H1' & E1), (Hin _ _ H2) as (j2 & H2' & E2).
    apply (li_cvs0 m1 m2 j1 j2); congruence.
  - intros m' i Hm. destruct (Hin m' i Hm) as (i0 & H0 & <-). eauto.
  - intros m' i Hm. destruct (Hin m' i Hm) as (i0 & H0 & <-). eauto.
  - intros m' i t Hm. destruct (Hin m' i Hm) as (i0 & H0 & <-). eauto.
Qed.

(** ** Tables and guards *)

Lemma inv_absent l q nx E C H F T G D m : lock_inv l q nx E C H F T G D -> inner_of l m = None ->
  tally m (placed E ++ guards H ++ frame_mutexes F ++ T ++ G) = 0.
Proof.
  intros Hl Hi. rewrite <- (li_count _ _ _ _ _ _ _ _ _ _ Hl). unfold inner_of, strong in *. by destruct (mutex_heap l !! m).
Qed.

(** A new mutex, with a new queue. *)
Lemma inv_new l q q' nx E C H F T G D m : lock_inv l q nx E C H F T G D -> q' nx = [] -> (forall cv, q' cv ⊆ q cv) ->
  m = next_mutex l ->
  lock_inv (mkLocks (<[m := mkShared 1 (mkMutexInner false nx)]> (mutex_heap l)) (m + 1) (cond_counts l)) q' (nx + 1) E C H F (m :: T) G D
  /\ tally m (placed E) = 0.
Proof.
  intros Hl Hnil Hq Hnx. assert (inner_of l m = None) as Hm.
  { destruct (inner_of l m) as [i|] eqn:Ei; [|done]. pose proof (li_next _ _ _ _ _ _ _ _ _ _ Hl m ltac:(by eexists)). lia. }
  pose proof (inv_absent _ _ _ _ _ _ _ _ _ _ m Hl Hm) as Ho. split; [|occurs; lia].
  set (l' := mkLocks _ _ _).
  assert (forall m' : Z, inner_of l' m' = if decide (m' = m) then Some (mkMutexInner false nx) else inner_of l m') as Hi
    by apply (shared_inner m (mkShared 1 (mkMutexInner false nx)) l).
  assert (forall m' : Z, strong l' m' = if decide (m' = m) then 1 else strong l m') as Hs
    by apply (shared_strong m (mkShared 1 (mkMutexInner false nx)) l).
  destruct Hl. constructor; try done.
  - intros m'. rewrite Hs. destruct (decide (m' = m)) as [->|Hne]; [|rewrite li_count0]; occurs.
    + rewrite decide_True by done. lia.
    + destruct (decide (m' = m)); [done|lia].
  - apply (shared_pos (fun a => 0 < strong_count a)); done.
  - intros m' i. rewrite Hi. destruct (decide (m' = m)) as [->|Hne]; [|eauto]. intros [= <-]. occurs. simpl. lia.
  - intros m'. rewrite Hi. simpl. destruct (decide (m' = m)) as [->|Hne]; [lia|]. intros H'%li_next0. lia.
  - intros m1 m2 i1 i2. rewrite !Hi. destruct (decide (m1 = m)) as [->|], (decide (m2 = m)) as [->|]; [done|..|apply li_cvs0].
    + intros [= <-] H2 He. apply li_cvnext0 in H2. simpl in He. lia.
    + intros H1 [= <-] He. apply li_cvnext0 in H1. simpl in He. lia.
  - intros m' i. rewrite Hi. destruct (decide (m' = m)) as [->|]; [|apply li_apart0]. intros [= <-]. simpl.
    destruct (cond_counts l !! nx) eqn:Ec; [|done]. pose proof (li_ccnext0 nx ltac:(by eexists)). lia.
  - intros m' i. rewrite Hi. destruct (decide (m' = m)) as [->|]; [intros [= <-]; simpl; lia|]. intros H'%li_cvnext0. lia.
  - intros cv H'%li_ccnext0. lia.
  - intros m' i t. rewrite Hi. destruct (decide (m' = m)) as [->|].
    + intros [= <-]. simpl. rewrite Hnil. by intros ?%elem_of_nil.
    + intros H1 Ht. eapply li_queue0; [done|by apply Hq].
  - intros cv t Hc Ht. eapply li_cqueue0; [done|by apply Hq].
Qed.

Lemma inv_enter l q nx E C H F T G D pid a m : lock_inv l q nx E C H F (m :: T) G D -> tally m (placed E) = 0 ->
  lock_inv l q nx ((pid, a, m) :: E) C H F T G D.
Proof.
  intros [] Ho. constructor; try done.
  - intros m'. rewrite li_count0. occurs. lia.
  - intros m'. specialize (li_places0 m'). occurs. destruct (decide (m' = m)) as [->|]; lia.
  - intros pid' tid a' m' Hin. right. eauto.
  - intros tid pid' f Hf. specialize (li_frames0 _ _ _ Hf). destruct f; simpl in *; rewrite ?elem_of_cons; auto.
Qed.

(** The table gives a mutex up that has a guard and no other references. *)
Lemma inv_leave l q nx E C H F T G D pid a m : lock_inv l q nx ((pid, a, m) :: E) C H F T G D -> m ∈ G -> strong l m <= 2 ->
  lock_inv l q nx E C H F (m :: T) G D.
Proof.
  intros Hl HG Hs. pose proof (li_count _ _ _ _ _ _ _ _ _ _ Hl m) as Hc. apply tally_elem in HG.
  occurs. rewrite decide_True in Hc by done.
  assert (forall pid' a' m', (pid', a', m') ∈ (pid, a, m) :: E -> m' <> m -> (pid', a', m') ∈ E) as HE.
  { intros pid' a' m' [[= _ _ ->]|Hin]%elem_of_cons Hne; done. }
  destruct Hl. constructor; try done.
  - intros m'. rewrite li_count0. occurs. lia.
  - intros m'. specialize (li_places0 m'). occurs. destruct (decide (m' = m)); lia.
  - intros pid' tid a' m' Hin. apply HE; [by eapply li_home0|]. intros ->.
    assert (m ∈ guards H) as Hm%tally_elem by by apply (list_elem_of_fmap_2 (fun h : Holding => h.2) _ _ Hin). lia.
  - intros tid pid' f Hf. specialize (li_frames0 _ _ _ Hf).
    assert (frame_mutex f <> Some m) as Hne.
    { intros Hm. pose proof (frame_mutexes_elem _ _ _ _ _ Hf Hm) as Hin%tally_elem. lia. }
    destruct f; simpl in *; [apply HE; [done|intros ->; by apply Hne]|done|apply HE; [done|intros ->; by apply Hne]].
Qed.

Lemma inv_store l q nx E C H F T G D pid tid a m : lock_inv l q nx E C H F T (m :: G) D -> (pid, a, m) ∈ E ->
  lock_inv l q nx E C ((pid, tid, a, m) :: H) F T G D.
Proof.
  intros [] Hin. constructor; try done.
  - intros m'. rewrite li_count0. occurs. lia.
  - intros m' i Hi. rewrite <- (li_locked0 m' i Hi). occurs. lia.
  - intros pid' tid' a' m' [[= -> -> -> ->]|Hin']%elem_of_cons; [done|eauto].
Qed.

Lemma inv_take l q nx E C H F T G D pid tid a m : lock_inv l q nx E C ((pid, tid, a, m) :: H) F T G D ->
  lock_inv l q nx E C H F T (m :: G) D.
Proof.
  intros []. constructor; try done.
  - intros m'. rewrite li_count0. occurs. lia.
  - intros m' i Hi. rewrite <- (li_locked0 m' i Hi). occurs. lia.
  - intros pid' tid' a' m' Hin. eapply li_home0. right. exact Hin.
Qed.

(** ** Blocked calls *)

Lemma frame_mutexes_insert (F : Frames) t pid f : F !! t = None ->
  frame_mutexes (<[t := (pid, f)]> F) ≡ₚ option_list (frame_mutex f) ++ frame_mutexes F.
Proof. intros HF. unfold frame_mutexes. rewrite map_to_list_insert by done. simpl. by destruct (frame_mutex f). Qed.

Lemma frame_conds_insert (F : Frames) t pid f : F !! t = None ->
  frame_conds (<[t := (pid, f)]> F) ≡ₚ option_list (frame_cond f) ++ frame_conds F.
Proof. intros HF. unfold frame_conds. rewrite map_to_list_insert by done. simpl. by destruct (frame_cond f). Qed.

(** The queue of a blocked call. *)
Definition waits_on l (f : Frame) cv : Prop :=
  match f with
  | InLock _ m _ | InRelock _ m _ => exists i, inner_of l m = Some i /\ mx_sleeping i = cv
  | InWait _ _ c => c = cv /\ is_Some (cond_counts l !! cv)
  end.

Lemma inv_block l q q' nx E C H (F : Frames) T G D t pid f :
  lock_inv l q nx E C H F (option_list (frame_mutex f) ++ T) G (option_list (frame_cond f) ++ D) ->
  F !! t = None -> frame_home E C pid f -> (forall cv u, u ∈ q' cv -> u ∈ q cv \/ (u = t /\ waits_on l f cv)) ->
  lock_inv l q' nx E C H (<[t := (pid, f)]> F) T G D.
Proof.
  intros Hl HF Hh Hq.
  assert (forall u x, F !! u = Some x -> <[t := (pid, f)]> F !! u = Some x) as HF'.
  { intros u x Hu. rewrite lookup_insert_ne; [done|]. intros <-. by rewrite HF in Hu. }
  pose proof (fun m i cv => inv_apart _ _ _ _ _ _ _ _ _ _ m i cv Hl) as Ha.
  destruct Hl. constructor; try done.
  - intros m. rewrite li_count0, (frame_mutexes_insert F t pid f HF). occurs. lia.
  - intros cv. rewrite li_ccount0, (frame_conds_insert F t pid f HF). occurs. lia.
  - intros t' pid' f'. rewrite lookup_insert_Some. intros [[<- [= <- <-]]|[_ Hf]]; [done|by eapply li_frames0].
  - intros m i u Hi [Hu|[-> Hw]]%Hq.
    + destruct (li_queue0 m i u Hi Hu) as (pid' & f' & Hf & Hm). exists pid', f'. auto.
    + exists pid, f. split; [apply lookup_insert_eq|]. destruct f as [a m' o|c a cv|a m' o]; simpl in *.
      * destruct Hw as (i' & Hi' & He). f_equal. by eapply li_cvs0.
      * destruct Hw as [Hcv Hs]. by destruct (Ha m i (mx_sleeping i) Hi eq_refl).
      * destruct Hw as (i' & Hi' & He). f_equal. by eapply li_cvs0.
  - intros cv u Hc [Hu|[-> Hw]]%Hq.
    + destruct (li_cqueue0 cv u Hc Hu) as (pid' & f' & Hf & Hm). exists pid', f'. auto.
    + exists pid, f. split; [apply lookup_insert_eq|]. destruct f as [a m' o|c a cv'|a m' o]; simpl in *.
      * destruct Hw as (i' & Hi' & He). by destruct (Ha _ _ _ Hi' He).
      * by destruct Hw as [-> _].
      * destruct Hw as (i' & Hi' & He). by destruct (Ha _ _ _ Hi' He).
Qed.

Lemma frame_mutexes_delete (F : Frames) t pid f : F !! t = Some (pid, f) ->
  frame_mutexes F ≡ₚ option_list (frame_mutex f) ++ frame_mutexes (delete t F).
Proof. intros HF. rewrite <- (insert_delete_id F t (pid, f) HF) at 1. apply frame_mutexes_insert, lookup_delete_eq. Qed.

Lemma frame_conds_delete (F : Frames) t pid f : F !! t = Some (pid, f) ->
  frame_conds F ≡ₚ option_list (frame_cond f) ++ frame_conds (delete t F).
Proof. intros HF. rewrite <- (insert_delete_id F t (pid, f) HF) at 1. apply frame_conds_insert, lookup_delete_eq. Qed.

Lemma inv_unblock l q q' nx E C H (F : Frames) T G D t pid f : lock_inv l q nx E C H F T G D ->
  F !! t = Some (pid, f) -> (forall cv, q' cv ⊆ q cv) -> (forall cv, waits_on l f cv -> t ∉ q' cv) ->
  lock_inv l q' nx E C H (delete t F) (option_list (frame_mutex f) ++ T) G (option_list (frame_cond f) ++ D).
Proof.
  intros [] HF Hq Hn. constructor; try done.
  - intros m. rewrite li_count0, (frame_mutexes_delete F t pid f HF). occurs. lia.
  - intros cv. rewrite li_ccount0, (frame_conds_delete F t pid f HF). occurs. lia.
  - intros t' pid' f'. rewrite lookup_delete_Some. intros [_ Hf]. by eapply li_frames0.
  - intros m i u Hi Hu. destruct (li_queue0 m i u Hi) as (pid' & f' & Hf & Hm); [by apply Hq|]. exists pid', f'. split; [|done].
    rewrite lookup_delete_ne; [done|]. intros <-. rewrite HF in Hf. injection Hf as -> ->. eapply Hn, Hu.
    destruct f'; simpl in *; [|done|]; injection Hm as ->; by exists i.
  - intros cv u Hc Hu. destruct (li_cqueue0 cv u Hc) as (pid' & f' & Hf & Hm); [by apply Hq|]. exists pid', f'. split; [|done].
    rewrite lookup_delete_ne; [done|]. intros <-. rewrite HF in Hf. injection Hf as -> ->. eapply Hn, Hu.
    destruct f'; simpl in *; [done| |done]. by injection Hm as ->.
Qed.

(** ** References to condition variables *)

Definition counted cv n l : Locks := Lock.with_counts (<[cv := n]> (cond_counts l)) l.
Definition uncounted cv l : Locks := Lock.with_counts (delete cv (cond_counts l)) l.

Lemma counted_at cv n l (c : Z) : ccount (counted cv n l) c = if decide (c = cv) then n else ccount l c.
Proof.
  unfold ccount. cbn. destruct (decide (c = cv)) as [->|Hne]; [by rewrite lookup_insert_eq|by rewrite lookup_insert_ne].
Qed.
Lemma counted_some cv n l (c : Z) : is_Some (cond_counts (counted cv n l) !! c) -> c = cv \/ is_Some (cond_counts l !! c).
Proof. cbn. destruct (decide (c = cv)) as [->|Hne]; [by left|]. rewrite lookup_insert_ne by done. by right. Qed.

Lemma inv_cond_deref l q nx E C H F T G D cv : lock_inv l q nx E C H F T G D ->
  cv ∈ placed C ++ frame_conds F ++ D -> exists n, cond_counts l !! cv = Some n.
Proof.
  intros Hl Hin. apply tally_elem in Hin. rewrite <- (li_ccount _ _ _ _ _ _ _ _ _ _ Hl) in Hin. unfold ccount in Hin.
  destruct (cond_counts l !! cv) as [n|]; [by exists n|simpl in Hin; lia].
Qed.

(** The count of a condition variable that exists changes. *)
Lemma inv_cond_recount l q nx E C H F T G D D' cv n n' : lock_inv l q nx E C H F T G D -> cond_counts l !! cv = Some n ->
  0 < n' -> n' - n = tally cv D' - tally cv D -> (forall c : Z, c <> cv -> tally c D' = tally c D) ->
  lock_inv (counted cv n' l) q nx E C H F T G D'.
Proof.
  intros Hl Hn Hp Hd Ho. assert (ccount l cv = n) as Hcn by (unfold ccount; by rewrite Hn).
  assert (forall c : Z, is_Some (cond_counts (counted cv n' l) !! c) -> is_Some (cond_counts l !! c)) as Hs.
  { intros c [->|Hc]%counted_some; [by eexists|done]. }
  pose proof (fun m i cv => inv_apart _ _ _ _ _ _ _ _ _ _ m i cv Hl) as Ha.
  destruct Hl. constructor; try done.
  - intros c. rewrite counted_at. specialize (li_ccount0 c). destruct (decide (c = cv)) as [->|Hne]; [|specialize (Ho c Hne)]; occurs; lia.
  - intros c k. cbn. rewrite lookup_insert_Some. intros [[_ <-]|[_ Hc]]; eauto.
  - intros m i Hi. cbn. rewrite lookup_insert_ne; [by eapply li_apart0|]. intros He. by apply (Ha m i cv Hi); [|eexists].
  - intros c Hc%Hs. eauto.
  - intros c t Hc%Hs. eauto.
Qed.

Lemma inv_cond_clone l q nx E C H F T G D cv n : lock_inv l q nx E C H F T G D -> cond_counts l !! cv = Some n ->
  lock_inv (counted cv (n + 1) l) q nx E C H F T G (cv :: D).
Proof.
  intros Hl Hn. pose proof (li_cpos _ _ _ _ _ _ _ _ _ _ Hl cv n Hn). eapply inv_cond_recount; [done|done|lia| |].
  - occurs. rewrite decide_True by done. lia.
  - intros c Hne. occurs. rewrite decide_False by done. lia.
Qed.

Lemma inv_cond_drop l q nx E C H F T G D cv n : lock_inv l q nx E C H F T G (cv :: D) -> cond_counts l !! cv = Some n -> n <> 1 ->
  lock_inv (counted cv (n - 1) l) q nx E C H F T G D.
Proof.
  intros Hl Hn H1. pose proof (li_cpos _ _ _ _ _ _ _ _ _ _ Hl cv n Hn). eapply inv_cond_recount; [done|done|lia| |].
  - occurs. rewrite decide_True by done. lia.
  - intros c Hne. occurs. rewrite decide_False by done. lia.
Qed.

Lemma inv_cond_free l q q' nx E C H F T G D cv : lock_inv l q nx E C H F T G (cv :: D) -> cond_counts l !! cv = Some 1 ->
  (forall c, q' c ⊆ q c) -> q cv = [] /\ lock_inv (uncounted cv l) q' nx E C H F T G D.
Proof.
  intros Hl Hn Hq. pose proof (li_ccount _ _ _ _ _ _ _ _ _ _ Hl cv) as Hc. unfold ccount in Hc. rewrite Hn in Hc. simpl in Hc.
  occurs. rewrite decide_True in Hc by done.
  assert (forall c : Z, is_Some (cond_counts (uncounted cv l) !! c) -> c <> cv /\ is_Some (cond_counts l !! c)) as Hs.
  { intros c. cbn. destruct (decide (c = cv)) as [->|Hne]; [rewrite lookup_delete_eq; by intros []|by rewrite lookup_delete_ne]. }
  assert (forall t pid f, F !! t = Some (pid, f) -> frame_cond f <> Some cv) as HF.
  { intros t pid f HF Hf. pose proof (frame_conds_elem _ _ _ _ _ HF Hf) as Hin%tally_elem. lia. }
  split.
  - destruct (q cv) as [|t k] eqn:E'; [done|].
    destruct (li_cqueue _ _ _ _ _ _ _ _ _ _ Hl cv t) as (pid & f & HFt & Hf); [by eexists|rewrite E'; left|]. by destruct (HF _ _ _ HFt).
  - destruct Hl. constructor; try done.
    + intros c. unfold ccount in *. cbn. destruct (decide (c = cv)) as [->|Hne].
      * rewrite lookup_delete_eq. simpl. occurs. lia.
      * rewrite lookup_delete_ne, li_ccount0 by done. occurs. rewrite decide_False by done. lia.
    + intros c k. cbn. rewrite lookup_delete_Some. intros [_ ?]. eauto.
    + intros m i Hi. cbn. destruct (decide (mx_sleeping i = cv)) as [->|Hne]; [apply lookup_delete_eq|]. rewrite lookup_delete_ne by done. eauto.
    + intros c [_ Hc']%Hs. eauto.
    + intros m i t Hi Ht. eapply li_queue0; [done|by apply Hq].
    + intros c t [_ Hc']%Hs Ht. eapply li_cqueue0; [done|by apply Hq].
Qed.

Lemma inv_cond_new l q q' (nx : Z) E C H F T G D : lock_inv l q nx E C H F T G D -> q' nx = [] -> (forall cv, q' cv ⊆ q cv) ->
  lock_inv (counted nx 1 l) q' (nx + 1) E C H F T G (nx :: D) /\ tally nx (placed C) = 0.
Proof.
  intros Hl Hnil Hq. assert (cond_counts l !! nx = None) as Hn.
  { destruct (cond_counts l !! nx) eqn:Ec; [|done]. pose proof (li_ccnext _ _ _ _ _ _ _ _ _ _ Hl nx ltac:(by eexists)). lia. }
  pose proof (li_ccount _ _ _ _ _ _ _ _ _ _ Hl nx) as Ho. unfold ccount in Ho. rewrite Hn in Ho. simpl in Ho.
  split; [|occurs; lia]. destruct Hl. constructor; try done.
  - intros c. rewrite counted_at. destruct (decide (c = nx)) as [->|Hne]; [|rewrite li_ccount0]; occurs.
    + rewrite decide_True by done. lia.
    + rewrite decide_False by done. lia.
  - intros c k. cbn. rewrite lookup_insert_Some. intros [[_ <-]|[_ Hc]]; [lia|eauto].
  - intros m i Hi. cbn. pose proof (li_cvnext0 m i Hi). rewrite lookup_insert_ne by lia. eauto.
  - intros m i Hi. pose proof (li_cvnext0 m i Hi). lia.
  - intros c [->|Hc]%counted_some; [lia|]. pose proof (li_ccnext0 c Hc). lia.
  - intros m i t Hi Ht. eapply li_queue0; [done|by apply Hq].
  - intros c t [->|Hc]%counted_some Ht; [rewrite Hnil in Ht; by apply elem_of_nil in Ht|]. eapply li_cqueue0; [done|by apply Hq].
Qed.

Lemma inv_cond_enter l q nx E C H F T G D pid a cv : lock_inv l q nx E C H F T G (cv :: D) -> tally cv (placed C) = 0 ->
  lock_inv l q nx E ((pid, a, cv) :: C) H F T G D.
Proof.
  intros [] Ho. constructor; try done.
  - intros c. rewrite li_ccount0. occurs. lia.
  - intros c. specialize (li_cplaces0 c). occurs. destruct (decide (c = cv)) as [->|]; lia.
  - intros tid pid' f Hf. specialize (li_frames0 _ _ _ Hf). destruct f; simpl in *; rewrite ?elem_of_cons; auto.
Qed.

(** The table gives a condition variable up that has no other references. *)
Lemma inv_cond_leave l q nx E C H F T G D pid a cv : lock_inv l q nx E ((pid, a, cv) :: C) H F T G D -> ccount l cv <= 1 ->
  lock_inv l q nx E C H F T G (cv :: D).
Proof.
  intros Hl Hs. pose proof (li_ccount _ _ _ _ _ _ _ _ _ _ Hl cv) as Hc. occurs. rewrite decide_True in Hc by done.
  destruct Hl. constructor; try done.
  - intros c. rewrite li_ccount0. occurs. lia.
  - intros c. specialize (li_cplaces0 c). occurs. destruct (decide (c = cv)); lia.
  - intros tid pid' f Hf. specialize (li_frames0 _ _ _ Hf).
    assert (frame_cond f <> Some cv) as Hne.
    { intros Hm. pose proof (frame_conds_elem _ _ _ _ _ Hf Hm) as Hin%tally_elem. lia. }
    destruct f as [|c a' cv'|]; simpl in *; [done| |done].
    apply elem_of_cons in li_frames0 as [[= _ _ ->]|]; [by destruct Hne|done].
Qed.
End MutexInv.
Notation Frames := (gmap ThreadIdentifier (ProcessIdentifier * Frame)).
