(* ===== verification/MutexView.v ===== *)
(** * Mutexes: the process manager underneath

    The tables of mutexes and the guards, as lists over all processes and threads: sleeping,
    waking up and reaping leave them alone, and the calls change them for the process and the
    thread that run. *)

From S2P Require Import Prelude Error Config Addr NonEmpty Mailbox UserSpace VirtMem Str Thread Process.
From S2P Require Import ProcessView Pending ProcManager ManagerInv Scheduler ManagerOps.
From S2P Require Import ManagerState ManagerReap EntryPoints Footprint EntrySpec Mail System Mutex MutexInv.
#[local] Open Scope Z_scope.

Section MutexView.
Context {CF : Config} {HC : ConfigOk} {VM : VirtMem} {CK : Clock}.
Implicit Types (k : Kernel) (p : ProcessManager).

(** ** The lists *)

Definition mutex_places (st : ProcessState) : list Place := (fun x => (ps_pid st, x.1, x.2)) <$> map_to_list (mutexes st).
Definition cond_places (st : ProcessState) : list Place := (fun x => (ps_pid st, x.1, x.2)) <$> map_to_list (conditions st).
Definition mutex_table p : list Place := states p ≫= mutex_places.
Definition cond_table p : list Place := states p ≫= cond_places.

Definition row_guards (row : Row) : list Holding :=
  (fun x => (row.1, row_tid row, x.1, x.2)) <$> map_to_list (locked_mutexes row.2.1).
Definition held p : list Holding := table p ≫= row_guards.

(** What a process has in the tables. *)
Definition lockable (st : ProcessState) : ProcessIdentifier * gmap Z Mutex * gmap Z Condvar :=
  (ps_pid st, mutexes st, conditions st).

#[global] Instance lockable_bare : Bare lockable.
Proof. done. Qed.

Lemma bind_fmap {A B C} (f : A → B) (g : B → list C) (l : list A) : l ≫= (g ∘ f) = (f <$> l) ≫= g.
Proof. induction l as [|x l IH]; [done|]. simpl. by f_equal. Qed.

Lemma alike_tables k k' : alike lockable k k' ->
  mutex_table (pm k') ≡ₚ mutex_table (pm k) /\ cond_table (pm k') ≡ₚ cond_table (pm k).
Proof.
  intros Ha. unfold mutex_table, cond_table.
  pose (fm := fun x : ProcessIdentifier * gmap Z Mutex * gmap Z Condvar => (fun y => (x.1.1, y.1, y.2) : Place) <$> map_to_list x.1.2).
  pose (fc := fun x : ProcessIdentifier * gmap Z Mutex * gmap Z Condvar => (fun y => (x.1.1, y.1, y.2) : Place) <$> map_to_list x.2).
  assert (forall l, l ≫= mutex_places = (lockable <$> l) ≫= fm) as Hm by (intros l; by rewrite <- bind_fmap).
  assert (forall l, l ≫= cond_places = (lockable <$> l) ≫= fc) as Hc by (intros l; by rewrite <- bind_fmap).
  rewrite !Hm, !Hc. unfold alike in Ha. by rewrite Ha.
Qed.

(** Threads keep their guards whatever happens to them. *)
Definition keeper (row : Row) : ProcessIdentifier * ThreadIdentifier * gmap Z Mutex := (row.1, row_tid row, locked_mutexes row.2.1).

Lemma lifecycle_guards e e' : lifecycle e e' -> locked_mutexes e'.1 = locked_mutexes e.1.
Proof. induction 1 as [|x y z Hxy _ IH]; [done|]. rewrite IH. by destruct Hxy. Qed.

Lemma held_evolve p p' : tevolve (table p) (table p') -> held p' ≡ₚ held p.
Proof.
  intros He. unfold held.
  pose (f := fun x : ProcessIdentifier * ThreadIdentifier * gmap Z Mutex => (fun y => (x.1.1, x.1.2, y.1, y.2) : Holding) <$> map_to_list x.2).
  assert (forall l, l ≫= row_guards = (keeper <$> l) ≫= f) as Hf by (intros l; by rewrite <- bind_fmap).
  rewrite !Hf. assert (keeper <$> table p ≡ₚ keeper <$> table p') as Hk; [|by rewrite Hk].
  apply (pointwise_keep row_step keeper); [|done]. intros x y [H1 H2]. unfold keeper, row_tid.
  by rewrite H1, (lifecycle_tid _ _ H2), (lifecycle_guards _ _ H2).
Qed.

(** The threads that wait to be reaped hold no guard. *)
Definition reapable p : Prop := Forall (fun d => locked_mutexes (zmb_state d.2) = ∅) (deferred_reap p).

Lemma held_reaped p p' n : reapable p -> removed (deferred_row <$> deferred_reap p) [] n p p' -> held p' ≡ₚ held p.
Proof.
  intros Hr Hrm. unfold held. rewrite (rm_table _ _ _ _ _ Hrm), bind_app.
  assert ((deferred_row <$> deferred_reap p) ≫= row_guards = []) as ->; [|done].
  clear Hrm. unfold reapable in Hr. induction (deferred_reap p) as [|d l IH]; [done|]. apply Forall_cons in Hr as [Hd Hl].
  change (row_guards (deferred_row d) ++ ((deferred_row <$> l) ≫= row_guards) = []). rewrite (IH Hl), app_nil_r.
  unfold row_guards. simpl. by rewrite Hd, map_to_list_empty.
Qed.

(** ** The thread that runs *)

(** Who runs, and its stack. *)
Definition face (r : RunningProcess) : ThreadIdentifier * ProcessIdentifier * option KernelStack :=
  (RunningProcess.get_tid r, ppid r, kernel_stack (run_state (rp_running r))).

(** The same thread runs, and nothing has been reaped. *)
Record near k k' : Prop := {
  nr_mm : mm k' = mm k;
  nr_globals : globals k' = globals k;
  nr_deferred : deferred_reap (pm k') = deferred_reap (pm k);
  nr_face : face <$> running (pm k') = face <$> running (pm k)
}.

#[global] Instance near_preorder : PreOrder near.
Proof. split; [by intros k|]. intros k1 k2 k3 [] []. constructor; congruence. Qed.

(** The stack of the thread that runs has not overflowed. *)
Definition intact k : Prop := forall k1, good k1 -> near k k1 -> guarded k1.

Lemma intact_near k k' : intact k -> near k k' -> intact k'.
Proof. intros Hi Hn k1 Hg Hn1. apply Hi; [done|by transitivity k']. Qed.

Lemma near_running k k' r : near k k' -> running (pm k) = Some r ->
  exists r', running (pm k') = Some r' /\ RunningProcess.get_tid r' = RunningProcess.get_tid r /\ ppid r' = ppid r.
Proof.
  intros Hn Hr. pose proof (nr_face _ _ Hn) as Hf. rewrite Hr in Hf. destruct (running (pm k')) as [r'|]; [|done].
  exists r'. injection Hf as H1 H2 _. done.
Qed.

(** ** Waking up *)

Lemma wakeup_deferred tid k : inv (pm k) -> wp (PM.do_wakeup tid) k (fun _ k' => deferred_reap (pm k') = deferred_reap (pm k)).
Proof.
  intros Hi. destruct (inv_running _ Hi) as [r Hr]. unfold PM.do_wakeup. wstep. apply (wp_get_running k r); [done|].
  destruct (RunningProcess.find_thread r tid) as [t|].
  - wstep. apply (wp_take_running k r); [done|]. wstep. apply wp_clock_now. set (now := reading _).
    destruct (RunningProcess.wakeup r tid now); by ksteps.
  - unfold PM.try_wakeup. wstep. wstep. apply wp_clock_now. set (now := reading _). ksteps.
    repeat (case_match; ksteps); done.
Qed.

(** The thread that runs is not the one that is woken up. *)
Lemma woken_face tid now p p' : inv p -> inv p' -> woken tid now p p' ->
  RunningProcess.get_tid <$> running p' = RunningProcess.get_tid <$> running p -> face <$> running p' = face <$> running p.
Proof.
  intros Hi Hi' (pid & ts & a & X & <- & Ht & Ht') Hr. destruct (inv_running _ Hi) as [r E], (inv_running _ Hi') as [r' E'].
  rewrite E, E' in *. injection Hr as Hr. simpl. f_equal.
  assert ((ppid r', e_running (rp_running r')) = (ppid r, e_running (rp_running r))) as [= Hp Hs].
  { apply (NoDup_key row_tid (table p')); [apply Hi'|by apply row_running; [|left]| |exact Hr].
    assert ((ppid r, e_running (rp_running r)) ∈ table p) as Hin by (by apply row_running; [|left]).
    rewrite Ht' . rewrite Ht in Hin. apply elem_of_cons in Hin as [Hin|Hin]; [discriminate Hin|by right]. }
  unfold face, RunningProcess.get_tid, Thread.running_id. by rewrite Hp, Hs.
Qed.

(** What a step of the calls leaves of the kernel. *)
Record kept k k' : Prop := {
  kp_good : good k';
  kp_near : near k k';
  kp_mutexes : mutex_table (pm k') ≡ₚ mutex_table (pm k);
  kp_conds : cond_table (pm k') ≡ₚ cond_table (pm k);
  kp_held : held (pm k') ≡ₚ held (pm k)
}.

Lemma kept_pm k k' : good k -> pm k' = pm k -> mm k' = mm k -> globals k' = globals k -> kept k k'.
Proof.
  intros Hg Hp Hm Hgl. constructor; rewrite ?Hp; try done.
  - unfold good, synced. by rewrite Hp, Hgl.
  - constructor; by rewrite ?Hp.
Qed.

Lemma kept_trans k k1 k2 : kept k k1 -> kept k1 k2 -> kept k k2.
Proof. intros [] []. constructor; [done|..]; etransitivity; eassumption. Qed.

Lemma wakeup_kept tid k : good k -> wp (Sched.wakeup tid) k (fun o k' => o <> Panic /\ kept k k' /\
  condvars k' = condvars k /\ next_condvar k' = next_condvar k /\
  (sleeps tid (pm k) -> o = Ok tt /\ sleepers (pm k) ≡ₚ tid :: sleepers (pm k')) /\ (~ sleeps tid (pm k) -> pm k' = pm k)).
Proof.
  intros Hg. pose proof Hg as [Hi Hs]. pose proof (keeps_wp next_condvar (Sched.wakeup tid) k (keeps_wakeup next_condvar tid)) as Hx.
  unfold Sched.wakeup in *.
  eapply wp_mono; [apply wp_conj; [exact Hx|apply wp_conj; [by apply do_wakeup_wp|apply wp_conj; [by apply wakeup_states|by apply wakeup_deferred]]]|].
  clear Hx. intros [[]|e|] k' (Hx & [Ho (Hmm & _ & Hc & Hgl)] & Hst & Hd); [| |done].
  - destruct Ho as (now & Hw & Hm & Hi' & Hrun). pose proof (alike_tables k k' (alike_states _ _ _ Hst)) as [Hmt Hct].
    splits; try done.
    + constructor; [by apply (moved_good k)| |done|done|by apply held_evolve, Hm].
      constructor; [done..|by eapply woken_face].
    + intros _. split; [done|by eapply woken_sleepers].
    + intros Hn. destruct Hn. destruct Hw as (pid & ts & a & X & Ht & Hp & _). exists pid, ts, a. split; [rewrite Hp; left|done].
  - destruct Ho as (_ & Hp & Hns). splits; try done. by apply kept_pm.
Qed.

(** ** Sleeping *)

Lemma do_sleep_deferred k r a : inv (pm k) -> stack_intact k -> running (pm k) = Some r -> ppid r <> KERNEL_PID ->
  wp (PM.do_sleep a) k (fun _ k' => deferred_reap (pm k') = deferred_reap (pm k)).
Proof.
  intros Hi Hst Hr Hne. pose proof (kernel_ready_ne _ (inv_ready _ _ Hi Hr Hne)) as Hk.
  unfold PM.do_sleep. wstep. apply wp_check_guard; [done|]. wstep. apply (wp_take_running k r); [done|].
  destruct (Z.eqb_spec (ps_pid (rp_state r)) KERNEL_PID); [done|]. wstep. apply wp_clock_now. wstep.
  destruct (RunningProcess.sleep r a _) as [[q0 from]|[q0 from]]; ksteps.
  - apply wp_dispatch; [fields; by destruct (ready (pm k))|]. intros p l t q reason k' [Hp _] _ _ _ _ _. ksteps. by rewrite Hp.
  - apply wp_dispatch; [done|]. intros p l t q reason k' [Hp _] _ _ _ _ _. ksteps. by rewrite Hp.
Qed.

(** What a thread that falls asleep leaves of the kernel. *)
Record left_to k (tid : ThreadIdentifier) k' : Prop := {
  lt_good : good k';
  lt_mutexes : mutex_table (pm k') ≡ₚ mutex_table (pm k);
  lt_conds : cond_table (pm k') ≡ₚ cond_table (pm k);
  lt_held : held (pm k') ≡ₚ held (pm k);
  lt_reapable : reapable (pm k');
  lt_next : next_condvar k' = next_condvar k;
  lt_sleepers : sleepers (pm k') ≡ₚ tid :: sleepers (pm k)
}.

Lemma sleep_left k r a : good k -> running (pm k) = Some r -> ppid r <> KERNEL_PID -> guarded k -> reapable (pm k) ->
  wp (Sched.sleep a) k (fun o k' => o = Ok tt /\ left_to k (RunningProcess.get_tid r) k' /\ condvars k' = condvars k).
Proof.
  intros [Hi Hs] Hr Hne Hgd Hre. pose proof (Hgd k eq_refl eq_refl eq_refl) as Hst.
  assert (wp (Sched.sleep a) k (fun o k' => o = Ok tt -> alike lockable k k' /\ deferred_reap (pm k') = [])) as Hal.
  { unfold Sched.sleep. apply (reap_then _ k r); [done..|]. intros r1 [Hi1 _ _ _ Hr1 Hp1 _ Hd]. wstep.
    assert (ppid r1 <> KERNEL_PID) by by rewrite Hp1.
    eapply wp_mono; [apply wp_conj; [by apply (do_sleep_states _ r1)|by apply (do_sleep_deferred _ r1)]|].
    intros [sw|e|] k2 [H2 H3]; [|done..]. eapply wp_mono; [apply switch_pm|]. intros o k' Hp _. rewrite Hp, H3. split; [|done].
    transitivity (reaped k); [by apply (reap_alike lockable)|]. unfold alike. by rewrite Hp, H2. }
  eapply wp_mono; [apply wp_conj; [exact Hal|apply wp_conj; [by apply (sleep_dozes k r a)|apply wp_conj;
    [by apply (sleep_wp k r a)|apply (keeps_wp next_condvar), keeps_sleep, _]]]|].
  clear Hal. intros o k' (Ha & Hd & (He & _ & Hc) & Hx). pose proof (en_ok _ _ _ He) as Ho. destruct (Ha Ho) as [Hal Hde], (Hd Ho) as [_ Hsl].
  destruct (alike_tables _ _ Hal) as [Hmt Hct]. splits; [done| |done]. constructor; try done.
  - split; [apply (en_inv _ _ _ He)|apply (en_synced _ _ _ He)].
  - destruct (en_table _ _ _ He) as (p1 & n & Hrm & Hm). rewrite (held_evolve _ _ (mv_table _ _ Hm)). by eapply held_reaped.
  - unfold reapable. by rewrite Hde.
Qed.

Lemma wait_left k r cv a : good k -> running (pm k) = Some r -> ppid r <> KERNEL_PID -> guarded k -> reapable (pm k) ->
  wp (Condvar.wait cv a) k (fun o k' =>
    match o with
    | Ok _ => left_to k (RunningProcess.get_tid r) k' /\
        condvars k' = <[cv := Condvar.sleeping cv k ++ [RunningProcess.get_tid r]]> (condvars k)
    | Err e => e = Condvar.alarm_expired /\ is_Some a /\ pm k' = pm k /\ mm k' = mm k /\ globals k' = globals k /\
        condvars k' = condvars k /\ next_condvar k' = next_condvar k
    | Panic => False
    end).
Proof.
  intros Hg Hr Hne Hgd Hre. unfold Condvar.wait, PM.get_pid, PM.get_tid. wstep. wstep.
  apply (wp_get_running k r); [done|]. wstep. destruct (Z.eqb_spec (ps_pid (rp_state r)) KERNEL_PID); [done|].
  wstep. wstep. apply (wp_get_running k r); [done|]. wstep. wstep.
  eapply wp_mono with (P := fun o k1 => pm k1 = pm k /\ mm k1 = mm k /\ globals k1 = globals k /\ condvars k1 = condvars k /\
    next_condvar k1 = next_condvar k /\ exists b : bool, o = Ok b /\ (b = true -> is_Some a)).
  { destruct a as [a|]; [|ksteps; splits; [done..|]; by exists false]. wstep. apply wp_clock_now. ksteps. splits; [done..|].
    eexists. split; [done|]. by eexists. }
  intros o k1 (Hp1 & Hm1 & Hg1 & Hc1 & Hn1 & b & -> & Hb). destruct b; [ksteps; splits; auto|].
  unfold Condvar.set_sleeping. ksteps. set (k2 := PM.with_condvars _ k1).
  assert (good k2) as Hg2.
  { unfold good, synced. change (pm k2) with (pm k1). change (globals k2) with (globals k1). rewrite Hp1, Hg1. exact Hg. }
  eapply wp_mono; [apply (sleep_left k2 r a); [done|by rewrite <- Hp1 in Hr|done| |]|].
  - intros k3 H1 H2 H3. apply Hgd; [by rewrite H1|by rewrite H2|by rewrite H3].
  - change (pm k2) with (pm k1). by rewrite Hp1.
  - intros o k' (-> & Hl & Hc). destruct Hl. change (pm k2) with (pm k1) in *. rewrite Hp1 in *. split.
    + constructor; try done. change (next_condvar k2) with (next_condvar k1) in lt_next0. congruence.
    + rewrite Hc. unfold k2. cbn. unfold Condvar.sleeping. by rewrite Hc1.
Qed.

(** ** Giving up the processor *)

Lemma alarm_loop_states now q sus itr :
  let '(sus', itr') := PM.alarm_loop now q sus itr in
  (pstate <$> sus') ++ (pstate <$> itr') ≡ₚ (pstate <$> sus) ++ (pstate <$> itr) ++ (pstate <$> q).
Proof.
  revert sus itr. induction q as [|p q IH]; intros sus itr; cbn [PM.alarm_loop]; [by rewrite fmap_nil, app_nil_r|].
  pose proof (wakeup_alarm_view p now) as Hp. destruct (SleepingProcess.wakeup_alarm p now) as [x|x].
  - specialize (IH sus (itr ++ [x])). destruct (PM.alarm_loop now q sus (itr ++ [x])) as [sus' itr'].
    rewrite IH, fmap_app, list_fmap_singleton, fmap_cons. destruct Hp as [Hs _]. rewrite Hs. solve_Permutation.
  - specialize (IH (sus ++ [x]) itr). destruct (PM.alarm_loop now q (sus ++ [x]) itr) as [sus' itr'].
    rewrite IH, fmap_app, list_fmap_singleton, fmap_cons. destruct Hp as [Hs _]. rewrite Hs. solve_Permutation.
Qed.

Lemma resumed_states n q : pstate <$> resumed n q = pstate <$> q.
Proof.
  revert n. induction q as [|p q IH]; intros n; [done|]. cbn [resumed]. rewrite !fmap_cons, IH. f_equal.
  apply (resume_evolve p (reading n)).
Qed.

Lemma schedule_lists k : inv (pm k) -> stack_intact k ->
  wp PM.schedule k (fun _ k' => states (pm k') ≡ₚ states (pm k) /\ deferred_reap (pm k') = deferred_reap (pm k)).
Proof.
  intros Hi Hst. destruct (inv_running _ Hi) as [r Hr].
  unfold PM.schedule. wstep. apply wp_check_guard; [done|]. wstep. apply (wp_take_running k r); [done|]. wstep. apply wp_clock_now.
  destruct (RunningProcess.schedule r _) as [q0 from] eqn:Hsch. destruct (schedule_view r _ q0 from Hsch) as (_ & Hs & ->). ksteps.
  unfold PM.check_alarm. wstep. apply wp_clock_now. ksteps. fields.
  pose proof (alarm_loop_states (reading (S (reads k))) (suspended (pm k)) [] (interrupted (pm k))) as Ha.
  destruct (PM.alarm_loop _ (suspended (pm k)) [] (interrupted (pm k))) as [sus itr].
  apply wp_resume_loop; [done|]. intros k3 Hp3 _ _ _ _ _.
  assert (states (pm k3) ≡ₚ states (pm k)) as H3.
  { rewrite Hp3. unfold states. fields. rewrite Hr. cbn [from_option]. rewrite !fmap_app, resumed_states, list_fmap_singleton, Hs, fmap_nil.
    change ((pstate <$> sus) ++ (pstate <$> itr) ≡ₚ (pstate <$> interrupted (pm k)) ++ (pstate <$> suspended (pm k))) in Ha.
    transitivity ((pstate <$> ready (pm k)) ++ [pstate r] ++ ((pstate <$> sus) ++ (pstate <$> itr)) ++ (pstate <$> zombies (pm k)));
      [solve_Permutation|rewrite Ha; solve_Permutation]. }
  wstep. apply wp_dispatch.
  - rewrite Hp3. fields. by destruct (ready (pm k)).
  - intros p l t q reason k' Hd _ _ _ Hs' _. ksteps. destruct Hd as (Hp & Hl & _). split; [|by rewrite Hp, Hp3].
    rewrite <- H3. unfold states. rewrite Hp, Hp3. fields. cbn [from_option]. rewrite Hp3 in Hl. fields.
    rewrite (states_list _ _ _ Hl), Hs'. solve_Permutation.
Qed.

Lemma giveup_lists k : good k -> guarded k -> reapable (pm k) -> wp Sched.giveup k (fun _ k' => good k' /\ reapable (pm k') /\
  mutex_table (pm k') ≡ₚ mutex_table (pm k) /\ cond_table (pm k') ≡ₚ cond_table (pm k) /\ held (pm k') ≡ₚ held (pm k) /\
  condvars k' = condvars k /\ next_condvar k' = next_condvar k).
Proof.
  intros [Hi Hs] Hgd Hre. destruct (inv_running _ Hi) as [r Hr]. pose proof (Hgd k eq_refl eq_refl eq_refl) as Hst.
  assert (wp Sched.giveup k (fun o k' => o = Ok tt -> alike lockable k k' /\ deferred_reap (pm k') = [])) as Hal.
  { unfold Sched.giveup. apply (reap_then _ k r); [done..|]. intros r1 [Hi1 _ _ _ Hr1 Hp1 _ Hd]. ksteps.
    eapply wp_mono; [by apply schedule_lists|]. intros [sw|e|] k2 [H2 H3]; [|done..]. eapply wp_mono; [apply switch_pm|].
    intros o k' Hp _. rewrite Hp, H3. split; [|done]. transitivity (reaped k); [by apply (reap_alike lockable)|]. unfold alike. by rewrite Hp, H2. }
  eapply wp_mono; [apply wp_conj; [exact Hal|apply wp_conj; [by apply (giveup_wp k r)|apply wp_conj;
    [apply (keeps_wp condvars), keeps_giveup, _|apply (keeps_wp next_condvar), keeps_giveup, _]]]|].
  clear Hal. intros o k' (Ha & [He _] & Hc & Hx). destruct (Ha (en_ok _ _ _ He)) as [Hal Hde]. destruct (alike_tables _ _ Hal) as [Hmt Hct].
  splits; try done.
  - split; [apply (en_inv _ _ _ He)|apply (en_synced _ _ _ He)].
  - unfold reapable. by rewrite Hde.
  - destruct (en_table _ _ _ He) as (p1 & n & Hrm & Hm). rewrite (held_evolve _ _ (mv_table _ _ Hm)). by eapply held_reaped.
Qed.

(** ** What the calls change *)

(** The running process gets a new state. *)
Lemma restate_running k r st : good k -> running (pm k) = Some r -> ps_pid st = ppid r ->
  let k' := PM.with_pm (PM.with_running (Some (RunningProcess.with_state st r)) (pm k)) k in
  good k' /\ near k k' /\ held (pm k') = held (pm k) /\ sleepers (pm k') = sleepers (pm k) /\ exists l,
    (mutex_table (pm k) = mutex_places (rp_state r) ++ (l ≫= mutex_places) /\ mutex_table (pm k') = mutex_places st ++ (l ≫= mutex_places)) /\
    (cond_table (pm k) = cond_places (rp_state r) ++ (l ≫= cond_places) /\ cond_table (pm k') = cond_places st ++ (l ≫= cond_places)).
Proof.
  intros [Hi Hs] Hr Hp k'. assert (ppid (RunningProcess.with_state st r) = ppid r) as Hpp by (rewrite <- Hp; done).
  assert (table (pm k') = table (pm k)) as Ht.
  { unfold k'. fields. table. rewrite Hr. cbn [from_option]. unfold ptable. by rewrite Hpp. }
  assert (pids (pm k') = pids (pm k)) as Hpi.
  { unfold k'. fields. table. rewrite Hr. cbn [from_option]. by rewrite Hpp. }
  splits.
  - split.
    + apply (moved_inv (pm k)); [done| |by eexists| |apply Hi].
      * constructor; try done; [by rewrite Hpi|by rewrite Ht].
      * pose proof (inv_kernel _ Hi) as Hk. unfold schedulable, k' in *. fields. rewrite Hr in Hk. cbn [from_option] in *. by rewrite Hpp.
    + unfold synced, k' in *. fields. rewrite Hr in Hs. cbn [from_option] in *. by rewrite Hpp.
  - constructor; try done. unfold k'. fields. rewrite Hr. simpl. unfold face. by rewrite Hpp.
  - unfold held. by rewrite Ht.
  - unfold sleepers. by rewrite Ht.
  - exists ((pstate <$> ready (pm k)) ++ (pstate <$> suspended (pm k)) ++ (pstate <$> interrupted (pm k)) ++ (pstate <$> zombies (pm k))).
    unfold mutex_table, cond_table, states, k'. fields. rewrite Hr. by cbn [from_option].
Qed.

(** The running thread has other guards. *)
Lemma rethread_running k r ts : good k -> running (pm k) = Some r ->
  let ts0 := run_state (rp_running r) in
  ts_id ts = ts_id ts0 -> user_stack ts = user_stack ts0 -> kernel_stack ts = kernel_stack ts0 ->
  let k' := PM.with_pm (PM.with_running (Some (RunningProcess.with_running (mkRunningThread ts) r)) (pm k)) k in
  good k' /\ near k k' /\ mutex_table (pm k') = mutex_table (pm k) /\ cond_table (pm k') = cond_table (pm k) /\
  sleepers (pm k') = sleepers (pm k) /\
  exists H, held (pm k) = row_guards (ppid r, (ts0, Srunning)) ++ H /\ held (pm k') = row_guards (ppid r, (ts, Srunning)) ++ H.
Proof.
  intros [Hi Hs] Hr ts0 Hid Hus Hks k'. set (r' := RunningProcess.with_running (mkRunningThread ts) r) in *.
  set (X := (pair (ppid r) <$> others r) ++ tables (ready (pm k)) ++ tables (suspended (pm k)) ++ tables (interrupted (pm k)) ++
    tables (zombies (pm k)) ++ (deferred_row <$> deferred_reap (pm k))).
  assert (table (pm k) = (ppid r, (ts0, Srunning)) :: X) as Ht by (unfold table; rewrite Hr; done).
  assert (table (pm k') = (ppid r, (ts, Srunning)) :: X) as Ht' by done.
  assert (pids (pm k') = pids (pm k)) as Hpi by (unfold pids; rewrite Hr; done).
  assert (tids (pm k') = tids (pm k)) as Hti.
  { unfold tids. rewrite Ht, Ht', !fmap_cons. f_equal. exact Hid. }
  assert (inv (pm k')) as Hi'.
  { destruct Hi. constructor; rewrite ?Hpi, ?Hti; try done.
    - unfold schedulable in *. rewrite Hr in inv_kernel. exact inv_kernel.
    - rewrite Ht'. rewrite Ht in inv_stacks. apply Forall_cons in inv_stacks as [H1 H2]. apply Forall_cons. split; [|done].
      unfold row_stack_ok in *. simpl in *. by rewrite Hus. }
  assert (states (pm k') = states (pm k)) as Hst by (unfold states; rewrite Hr; done).
  splits.
  - split; [done|]. unfold synced in *. rewrite Hr in Hs. change (running (pm k')) with (Some r'). cbn [from_option] in *.
    change (RunningProcess.get_tid r') with (ts_id ts). rewrite Hid. exact Hs.
  - constructor; try done. change (running (pm k')) with (Some r'). rewrite Hr. simpl. unfold face.
    change (RunningProcess.get_tid r') with (ts_id ts). change (run_state (rp_running r')) with ts. by rewrite Hid, Hks.
  - unfold mutex_table. by rewrite Hst.
  - unfold cond_table. by rewrite Hst.
  - unfold sleepers. by rewrite Ht, Ht', !fmap_cons, !asleep_cons.
  - exists (X ≫= row_guards). unfold held. rewrite Ht, Ht'. done.
Qed.

Lemma row_guards_insert pid ts st a (m : Mutex) : locked_mutexes ts !! a = None ->
  row_guards (pid, (ThreadState.store_mutex_guard a m ts, st)) ≡ₚ (pid, ts_id ts, a, m) :: row_guards (pid, (ts, st)).
Proof. intros Ha. unfold row_guards. cbn. by rewrite map_to_list_insert. Qed.

Lemma row_guards_delete pid ts st a (m : Mutex) : locked_mutexes ts !! a = Some m ->
  row_guards (pid, (ts, st)) ≡ₚ (pid, ts_id ts, a, m) :: row_guards (pid, ((ThreadState.take_mutex_guard a ts).2, st)).
Proof. intros Ha. unfold row_guards. cbn. by rewrite <- (map_to_list_delete _ _ _ Ha). Qed.

Lemma mutex_places_insert st a (m : Mutex) : mutexes st !! a = None ->
  mutex_places (ProcessState.with_mutexes (<[a := m]> (mutexes st)) st) ≡ₚ (ps_pid st, a, m) :: mutex_places st.
Proof. intros Ha. unfold mutex_places. cbn. by rewrite map_to_list_insert. Qed.

Lemma mutex_places_delete st a (m : Mutex) : mutexes st !! a = Some m ->
  mutex_places st ≡ₚ (ps_pid st, a, m) :: mutex_places (ProcessState.with_mutexes (delete a (mutexes st)) st).
Proof. intros Ha. unfold mutex_places. cbn. by rewrite <- (map_to_list_delete _ _ _ Ha). Qed.

Lemma cond_places_insert st a (cv : Condvar) : conditions st !! a = None ->
  cond_places (ProcessState.with_conditions (<[a := cv]> (conditions st)) st) ≡ₚ (ps_pid st, a, cv) :: cond_places st.
Proof. intros Ha. unfold cond_places. cbn. by rewrite map_to_list_insert. Qed.

Lemma cond_places_delete st a (cv : Condvar) : conditions st !! a = Some cv ->
  cond_places st ≡ₚ (ps_pid st, a, cv) :: cond_places (ProcessState.with_conditions (delete a (conditions st)) st).
Proof. intros Ha. unfold cond_places. cbn. by rewrite <- (map_to_list_delete _ _ _ Ha). Qed.

(** ** Looking things up *)

Lemma elem_of_mutex_table p pid a (m : Mutex) : (pid, a, m) ∈ mutex_table p <-> exists st, st ∈ states p /\ ps_pid st = pid /\ mutexes st !! a = Some m.
Proof.
  unfold mutex_table, mutex_places. rewrite list_elem_of_bind. split.
  - intros (st & Hin & Hst). apply list_elem_of_fmap in Hin as ([a' m'] & [= -> -> ->] & Hin). exists st. by rewrite <- elem_of_map_to_list.
  - intros (st & Hst & <- & Hm). exists st. split; [|done]. apply list_elem_of_fmap. exists (a, m). by rewrite elem_of_map_to_list.
Qed.

(** An address of a process has one mutex. *)
Lemma mutex_table_fun p pid a m m' : inv p -> (pid, a, m) ∈ mutex_table p -> (pid, a, m') ∈ mutex_table p -> m = m'.
Proof.
  intros Hi (st & Hst & Hp & Hm)%elem_of_mutex_table (st' & Hst' & Hp' & Hm')%elem_of_mutex_table.
  assert (st = st') as <-; [|congruence]. pose proof (inv_pids _ Hi) as Hn. rewrite pids_states in Hn.
  apply (NoDup_key ps_pid (states p)); [done|done|done|congruence].
Qed.

Lemma mutex_table_running p r a (m : Mutex) : inv p -> running p = Some r ->
  (ppid r, a, m) ∈ mutex_table p <-> mutexes (rp_state r) !! a = Some m.
Proof.
  intros Hi Hr. rewrite elem_of_mutex_table. pose proof (inv_pids _ Hi) as Hn. rewrite pids_states in Hn.
  assert (rp_state r ∈ states p) as Hin by (unfold states; rewrite Hr; left). split.
  - intros (st & Hst & Hp & Hm). assert (st = rp_state r) as ->; [|done]. by apply (NoDup_key ps_pid (states p)).
  - intros Hm. by exists (rp_state r).
Qed.

Lemma cond_table_running p r a (cv : Condvar) : inv p -> running p = Some r ->
  (ppid r, a, cv) ∈ cond_table p <-> conditions (rp_state r) !! a = Some cv.
Proof.
  intros Hi Hr. pose proof (inv_pids _ Hi) as Hn. rewrite pids_states in Hn.
  assert (rp_state r ∈ states p) as Hin by (unfold states; rewrite Hr; left). unfold cond_table, cond_places. rewrite list_elem_of_bind. split.
  - intros (st & Hst & Hs). apply list_elem_of_fmap in Hst as ([a' m'] & [= Hp -> ->] & Hst). rewrite elem_of_map_to_list in Hst.
    assert (rp_state r = st) as ->; [|done]. by apply (NoDup_key ps_pid (states p)).
  - intros Hm. exists (rp_state r). split; [|done]. apply list_elem_of_fmap. exists (a, cv). by rewrite elem_of_map_to_list.
Qed.

Lemma elem_of_held p pid tid a (m : Mutex) : (pid, tid, a, m) ∈ held p <-> exists row, row ∈ table p /\ row.1 = pid /\ row_tid row = tid /\ locked_mutexes row.2.1 !! a = Some m.
Proof.
  unfold held, row_guards. rewrite list_elem_of_bind. split.
  - intros (row & Hin & Hrow). apply list_elem_of_fmap in Hin as ([a' m'] & [= -> -> -> ->] & Hin). exists row. by rewrite <- elem_of_map_to_list.
  - intros (row & Hrow & <- & <- & Hm). exists row. split; [|done]. apply list_elem_of_fmap. exists (a, m). by rewrite elem_of_map_to_list.
Qed.

Lemma held_running p r a (m : Mutex) : inv p -> running p = Some r ->
  (ppid r, RunningProcess.get_tid r, a, m) ∈ held p <-> locked_mutexes (run_state (rp_running r)) !! a = Some m.
Proof.
  intros Hi Hr. rewrite elem_of_held.
  assert ((ppid r, e_running (rp_running r)) ∈ table p) as Hin by (by apply row_running; [|left]). split.
  - intros (row & Hrow & _ & Ht & Hm). assert (row = (ppid r, e_running (rp_running r))) as ->; [|done].
    by apply (NoDup_key row_tid (table p)); [apply Hi|..].
  - intros Hm. by exists (ppid r, e_running (rp_running r)).
Qed.
End MutexView.
