(* ===== verification/MutexSpec.v ===== *)
(** * Mutexes: what the operations do

    The operations on mutexes and condition variables, each against the invariant of
    [MutexInv]: what they do to the guards, the tables and the queues. *)

From S2P Require Import Prelude Error Config Addr NonEmpty Mailbox UserSpace VirtMem Str Thread Process.
From S2P Require Import ProcessView Pending ProcManager ManagerInv Scheduler ManagerOps.
From S2P Require Import ManagerState ManagerReap EntryPoints Footprint EntrySpec Mail System Mutex MutexInv MutexView.
#[local] Open Scope Z_scope.

(** One step through the code. *)
Ltac lstep :=
  lazymatch goal with
  | |- wp Lock.locks ?s ?Q => change (Q (Ok s.1) s)
  | |- wp (Lock.set_locks ?f) ?s ?Q => change (Q (Ok tt) (f s.1, s.2))
  | |- wp (Lock.on_k _) _ _ => apply wp_zoom
  | |- _ => wstep
  end; cbv beta iota; cbn [fst snd].

Section MutexSpec.
Context {CF : Config} {HC : ConfigOk} {VM : VirtMem} {CK : Clock} {LC : LockConfig}.
Implicit Types (l : Locks) (k : Kernel) (m cv : Z) (F : Frames) (T G D : list Z).

Record lock_ok l k F T G D : Prop := {
  lk_good : good k;
  lk_reapable : reapable (pm k);
  lk_inv : lock_inv l (fun cv => Condvar.sleeping cv k) (next_condvar k) (mutex_table (pm k)) (cond_table (pm k)) (held (pm k)) F T G D
}.

Lemma ok_kept l k k' F T G D : lock_ok l k F T G D -> kept k k' ->
  (forall cv, Condvar.sleeping cv k' ⊆ Condvar.sleeping cv k) -> next_condvar k <= next_condvar k' -> lock_ok l k' F T G D.
Proof.
  intros [Hg Hr Hl] [Hg' Hn Hm Hc Hh] Hq Hx. constructor; [done| |by eapply inv_perm].
  unfold reapable. by rewrite (nr_deferred _ _ Hn).
Qed.

Lemma ok_same l k k' F T G D : lock_ok l k F T G D -> pm k' = pm k -> mm k' = mm k -> globals k' = globals k ->
  (forall cv, Condvar.sleeping cv k' ⊆ Condvar.sleeping cv k) -> next_condvar k <= next_condvar k' -> lock_ok l k' F T G D.
Proof. intros Hk Hp Hm Hg. apply ok_kept; [done|]. apply kept_pm; [apply Hk|done..]. Qed.

(** ** References *)

Lemma wp_deref l k (m : Mutex) a (Q : res Error Shared → Locks * Kernel → Prop) :
  mutex_heap l !! m = Some a -> Q (Ok a) (l, k) -> wp (Lock.deref m) (l, k) Q.
Proof. intros Ha HQ. unfold Lock.deref. do 2 lstep. by rewrite Ha. Qed.

Lemma clone_wp l k F T G D m a (Q : res Error unit → Locks * Kernel → Prop) : lock_ok l k F T G D -> mutex_heap l !! m = Some a ->
  (forall l', lock_ok l' k F (m :: T) G D -> Q (Ok tt) (l', k)) -> wp (Lock.clone m) (l, k) Q.
Proof.
  intros [Hg Hr Hl] Ha HQ. unfold Lock.clone. lstep. apply (wp_deref l k m a); [done|]. unfold Lock.store. lstep.
  apply HQ. constructor; [done|done|]. by apply inv_clone.
Qed.

(** The last references but one do not free the mutex. *)
Lemma drop_live_wp l k F T G D m a (Q : res Error unit → Locks * Kernel → Prop) : lock_ok l k F (m :: T) G D ->
  mutex_heap l !! m = Some a -> strong_count a <> 1 ->
  (forall l', lock_ok l' k F T G D -> (forall m', inner_of l' m' = inner_of l m') -> Q (Ok tt) (l', k)) -> wp (Lock.drop m) (l, k) Q.
Proof.
  intros [Hg Hr Hl] Ha H1 HQ. unfold Lock.drop. lstep. apply (wp_deref l k m a); [done|].
  destruct (Z.eqb_spec (strong_count a) 1); [done|]. unfold Lock.store. lstep. apply HQ.
  - constructor; [done|done|]. by apply inv_drop.
  - intros m'. change (inner_of (shared m (mkShared (strong_count a - 1) (mx_inner a)) l) m' = inner_of l m').
    rewrite shared_inner. destruct (decide (m' = m)) as [->|]; [|done]. unfold inner_of. by rewrite Ha.
Qed.

Lemma drop_condvar_wp k cv (Q : res Error unit → Kernel → Prop) : Condvar.sleeping cv k = [] ->
  Q (Ok tt) (PM.with_condvars (delete cv (condvars k)) k) -> wp (Lock.drop_condvar cv) k Q.
Proof. intros Hq HQ. unfold Lock.drop_condvar. wstep. wstep. rewrite Hq. by wstep. Qed.

Lemma delete_sleeping k cv c : Condvar.sleeping c (PM.with_condvars (delete cv (condvars k)) k) ⊆ Condvar.sleeping c k.
Proof.
  unfold Condvar.sleeping. cbn. destruct (decide (c = cv)) as [->|Hne]; [rewrite lookup_delete_eq; simpl; set_solver|].
  by rewrite lookup_delete_ne.
Qed.

Lemma drop_wp l k F T G D m (Q : res Error unit → Locks * Kernel → Prop) : lock_ok l k F (m :: T) G D ->
  (forall l' k', lock_ok l' k' F T G D -> kept k k' -> pm k' = pm k -> Q (Ok tt) (l', k')) -> wp (Lock.drop m) (l, k) Q.
Proof.
  intros Hk HQ. destruct (inv_deref _ _ _ _ _ _ _ _ _ _ m (lk_inv _ _ _ _ _ _ Hk)) as [a Ha].
  { rewrite !elem_of_app. right; right; right; left. left. }
  destruct (decide (strong_count a = 1)) as [H1|H1].
  - unfold Lock.drop. lstep. apply (wp_deref l k m a); [done|]. rewrite H1. cbn [Z.eqb Pos.eqb].
    lstep. lstep. lstep. set (k' := PM.with_condvars (delete (mx_sleeping (mx_inner a)) (condvars k)) k).
    destruct (inv_free _ _ (fun cv => Condvar.sleeping cv k') _ _ _ _ _ _ _ _ m a (lk_inv _ _ _ _ _ _ Hk) Ha H1) as [Hq Hl].
    { intros cv. apply delete_sleeping. }
    apply drop_condvar_wp; [done|]. fold k'. apply HQ; [|by apply kept_pm; [apply Hk|..]|done].
    constructor; [apply Hk|apply Hk|exact Hl].
  - eapply drop_live_wp; [done|done|done|]. intros l' Hk' _. apply HQ; [done| |done]. apply kept_pm; [apply Hk|done..].
Qed.

(** The same for condition variables. *)
Lemma wp_cond_count l k (cv : Condvar) n (Q : res Error Z → Locks * Kernel → Prop) :
  cond_counts l !! cv = Some n -> Q (Ok n) (l, k) -> wp (Lock.cond_reference_count cv) (l, k) Q.
Proof. intros Hn HQ. unfold Lock.cond_reference_count. do 2 lstep. by rewrite Hn. Qed.

Lemma cond_clone_wp l k F T G D cv n (Q : res Error unit → Locks * Kernel → Prop) : lock_ok l k F T G D -> cond_counts l !! cv = Some n ->
  (forall l', lock_ok l' k F T G (cv :: D) -> Q (Ok tt) (l', k)) -> wp (Lock.cond_clone cv) (l, k) Q.
Proof.
  intros [Hg Hr Hl] Ha HQ. unfold Lock.cond_clone. lstep. apply (wp_cond_count l k cv n); [done|]. unfold Lock.cond_store. lstep.
  apply HQ. constructor; [done|done|]. by apply inv_cond_clone.
Qed.

Lemma cond_drop_wp l k F T G D cv (Q : res Error unit → Locks * Kernel → Prop) : lock_ok l k F T G (cv :: D) ->
  (forall l' k', lock_ok l' k' F T G D -> kept k k' -> pm k' = pm k -> Q (Ok tt) (l', k')) -> wp (Lock.cond_drop cv) (l, k) Q.
Proof.
  intros Hk HQ. destruct (inv_cond_deref _ _ _ _ _ _ _ _ _ _ cv (lk_inv _ _ _ _ _ _ Hk)) as [n Hn].
  { rewrite !elem_of_app. right; right. left. }
  unfold Lock.cond_drop. lstep. apply (wp_cond_count l k cv n); [done|]. destruct (Z.eqb_spec n 1) as [->|H1].
  - lstep. lstep. lstep. set (k' := PM.with_condvars (delete cv (condvars k)) k).
    destruct (inv_cond_free _ _ (fun cv => Condvar.sleeping cv k') _ _ _ _ _ _ _ _ cv (lk_inv _ _ _ _ _ _ Hk) Hn) as [Hq Hl].
    { intros c. apply delete_sleeping. }
    apply drop_condvar_wp; [done|]. fold k'. apply HQ; [|by apply kept_pm; [apply Hk|..]|done].
    constructor; [apply Hk|apply Hk|exact Hl].
  - unfold Lock.cond_store. lstep. apply HQ; [|by apply kept_pm; [apply Hk|..]|done].
    constructor; [apply Hk|apply Hk|]. apply inv_cond_drop; [apply Hk|done|done].
Qed.

(** ** Locking *)

(** Nobody has a guard of the mutex. *)
Definition free k G m : Prop := tally m (guards (held (pm k)) ++ G) = 0.

Lemma try_lock_wp l k F T G D m (Q : res Error (option MutexGuard) → Locks * Kernel → Prop) : lock_ok l k F (m :: T) G D ->
  (forall l', free k G m -> lock_ok l' k F (m :: T) (m :: G) D -> Q (Ok (Some m)) (l', k)) ->
  (~ free k G m -> Q (Ok None) (l, k)) -> wp (Lock.try_lock m) (l, k) Q.
Proof.
  intros Hk HQ HQ'. pose proof (lk_inv _ _ _ _ _ _ Hk) as Hl. destruct (inv_deref _ _ _ _ _ _ _ _ _ _ m Hl) as [a Ha].
  { rewrite !elem_of_app. right; right; right; left. left. }
  assert (inner_of l m = Some (mx_inner a)) as Hi by (unfold inner_of; by rewrite Ha).
  pose proof (li_locked _ _ _ _ _ _ _ _ _ _ Hl m _ Hi) as Hlk.
  unfold Lock.try_lock. lstep. apply (wp_deref l k m a); [done|]. destruct (locked (mx_inner a)).
  { lstep. apply HQ'. unfold free. lia. }
  unfold Lock.set_locked. lstep. lstep. apply (wp_deref l k m a); [done|]. unfold Lock.store. lstep.
  lstep. unfold Lock.clone. lstep. set (a1 := mkShared (strong_count a) _). apply (wp_deref _ k m a1); [apply lookup_insert_eq|].
  unfold Lock.store. lstep. lstep. apply HQ; [done|]. constructor; [apply Hk|apply Hk|].
  set (l' := Lock.with_heap _ _). assert (l' = shared m (mkShared (strong_count a + 1) (mkMutexInner true (mx_sleeping (mx_inner a)))) l) as ->.
  { unfold l', shared, Lock.with_heap. cbn. by rewrite insert_insert_eq. }
  pose proof (li_pos _ _ _ _ _ _ _ _ _ _ Hl m a Ha). apply (inv_bit _ _ _ _ _ _ _ (m :: T) _ G); [done|done|lia|..].
  - occurs. rewrite decide_True by done. lia.
  - intros m' Hne. occurs. rewrite decide_False by done. lia.
  - occurs. rewrite decide_True by done. lia.
Qed.

Lemma ok_left l k k' F T G D tid pid f cv : lock_ok l k F (option_list (frame_mutex f) ++ T) G (option_list (frame_cond f) ++ D) ->
  left_to k tid k' -> condvars k' = <[cv := Condvar.sleeping cv k ++ [tid]]> (condvars k) -> waits_on l f cv -> F !! tid = None ->
  frame_home (mutex_table (pm k)) (cond_table (pm k)) pid f -> lock_ok l k' (<[tid := (pid, f)]> F) T G D.
Proof.
  intros [Hg Hr Hl] [Hg' Hm Hc Hh Hr' Hx _] Hq Hw HF Hf. constructor; [done|done|].
  eapply inv_perm; [eapply (inv_block _ _ (fun c => Condvar.sleeping c k')); [exact Hl|done|exact Hf|]|done..|lia].
  intros c u. unfold Condvar.sleeping at 1. rewrite Hq. destruct (decide (c = cv)) as [->|Hne].
  - rewrite lookup_insert_eq. simpl. rewrite elem_of_app, list_elem_of_singleton. intros [Hu| ->]; [by left|by right].
  - rewrite lookup_insert_ne by done. by left.
Qed.

Lemma lock_wp l k F T G D m timeout r (Q : res Error (option MutexGuard) → Locks * Kernel → Prop) :
  lock_ok l k F (m :: T) G D -> running (pm k) = Some r -> ppid r <> KERNEL_PID -> guarded k -> F !! RunningProcess.get_tid r = None ->
  (forall l', free k G m -> lock_ok l' k F (m :: T) (m :: G) D -> Q (Ok (Some m)) (l', k)) ->
  (forall k', ~ free k G m -> left_to k (RunningProcess.get_tid r) k' ->
    (forall f, frame_mutex f = Some m -> frame_home (mutex_table (pm k)) (cond_table (pm k)) (ppid r) f ->
       lock_ok l k' (<[RunningProcess.get_tid r := (ppid r, f)]> F) T G D) -> Q (Ok None) (l, k')) ->
  (forall k', ~ free k G m -> is_Some timeout -> lock_ok l k' F (m :: T) G D -> kept k k' -> pm k' = pm k ->
    Q (Err Condvar.alarm_expired) (l, k')) ->
  wp (Lock.lock m timeout) (l, k) Q.
Proof.
  intros Hk Hr Hne Hgd HF HQ1 HQ2 HQ3. pose proof (lk_inv _ _ _ _ _ _ Hk) as Hl.
  destruct (inv_deref _ _ _ _ _ _ _ _ _ _ m Hl) as [a Ha].
  { rewrite !elem_of_app. right; right; right; left. left. }
  unfold Lock.lock. lstep. apply (try_lock_wp l k F T G D m); [done| |].
  { intros l' Hfr Hk'. lstep. by apply HQ1. }
  intros Hfr. lstep. apply (wp_deref l k m a); [done|]. lstep. lstep.
  eapply wp_mono; [apply (wait_left k r (mx_sleeping (mx_inner a)) timeout); [apply Hk|done..|apply Hk]|].
  intros [[]|e|] k'; [| |done].
  - intros [Hlt Hq]. lstep. apply HQ2; [done|done|]. intros f Hf Hh.
    apply (ok_left l k k' F T G D _ (ppid r) f (mx_sleeping (mx_inner a))); try done.
    + destruct f; simpl in *; [injection Hf as ->; exact Hk|done|injection Hf as ->; exact Hk].
    + assert (inner_of l m = Some (mx_inner a)) as Hi by (unfold inner_of; by rewrite Ha).
      destruct f; simpl in *; [injection Hf as ->; by eexists|done|injection Hf as ->; by eexists].
  - intros (-> & Ht & Hp & Hm & Hgl & Hc & Hx). apply HQ3; [done|done| |by apply kept_pm; [apply Hk|..]|done].
    apply (ok_same l k); [done..| |lia]. intros cv. unfold Condvar.sleeping. by rewrite Hc.
Qed.

(** ** Unlocking *)

(** The first thread of the queue wakes up, if it sleeps. *)
Definition passed (queue : list ThreadIdentifier) k k' : Prop :=
  match queue with
  | [] => pm k' = pm k
  | t :: _ => (sleeps t (pm k) -> sleepers (pm k) ≡ₚ t :: sleepers (pm k')) /\ (~ sleeps t (pm k) -> pm k' = pm k)
  end.

Lemma notify_first_wp k cv (Q : res Error Z → Kernel → Prop) : good k ->
  (forall o k', o <> Panic -> kept k k' -> (forall c, Condvar.sleeping c k' ⊆ Condvar.sleeping c k) -> next_condvar k' = next_condvar k ->
     passed (Condvar.sleeping cv k) k k' -> Q o k') -> wp (Condvar.notify_first cv) k Q.
Proof.
  intros Hg HQ. unfold Condvar.notify_first. wstep. wstep. destruct (Condvar.sleeping cv k) as [|t q] eqn:Eq.
  { wstep. by apply HQ; [|apply kept_pm|..]. }
  unfold Condvar.set_sleeping. wstep. wstep. wstep. set (k1 := PM.with_condvars _ k).
  assert (forall c, Condvar.sleeping c k1 ⊆ Condvar.sleeping c k) as Hq1.
  { intros c. unfold Condvar.sleeping at 1, k1. cbn. destruct (decide (c = cv)) as [->|Hne].
    - rewrite lookup_insert_eq. simpl. rewrite Eq. set_solver.
    - by rewrite lookup_insert_ne. }
  assert (kept k k1) as Hk1 by by apply kept_pm.
  eapply wp_mono; [apply (wakeup_kept t k1); exact Hg|]. intros o k' (Ho & Hk & Hc & Hx & Hs & Hn).
  assert (passed (t :: q) k k') as Hpa by (split; [intros H; by apply Hs|exact Hn]).
  assert (forall c, Condvar.sleeping c k' ⊆ Condvar.sleeping c k) as Hq.
  { intros c. rewrite <- (Hq1 c). unfold Condvar.sleeping. by rewrite Hc. }
  destruct o; [wstep|..]; (apply HQ; [done|by eapply kept_trans|done|done|done]).
Qed.

Lemma drop_guard_wp l k F T G D m i (Q : res Error unit → Locks * Kernel → Prop) : lock_ok l k F T (m :: G) D -> inner_of l m = Some i ->
  (forall l' k', lock_ok l' k' F T G D -> kept k k' -> passed (Condvar.sleeping (mx_sleeping i) k) k k' -> Q (Ok tt) (l', k')) ->
  wp (Lock.drop_guard m) (l, k) Q.
Proof.
  intros Hk Hi HQ. pose proof (lk_inv _ _ _ _ _ _ Hk) as Hl. unfold inner_of in Hi. destruct (mutex_heap l !! m) as [a|] eqn:Ha; [|done].
  injection Hi as <-. unfold Lock.drop_guard, Lock.unlock_unchecked. lstep. lstep. lstep.
  unfold Lock.set_locked. lstep. apply (wp_deref l k m a); [done|]. unfold Lock.store. lstep. lstep.
  set (a1 := mkShared (strong_count a) _). apply (wp_deref _ k m a1); [apply lookup_insert_eq|]. lstep. lstep. subst a1. cbn [mx_inner mx_sleeping].
  assert (lock_ok (shared m (mkShared (strong_count a) (mkMutexInner false (mx_sleeping (mx_inner a)))) l) k F (m :: T) G D) as Hk1.
  { constructor; [apply Hk|apply Hk|]. pose proof (li_pos _ _ _ _ _ _ _ _ _ _ Hl m a Ha).
    assert (inner_of l m = Some (mx_inner a)) as Hi by (unfold inner_of; by rewrite Ha).
    pose proof (li_locked _ _ _ _ _ _ _ _ _ _ Hl m _ Hi) as Hlk.
    apply (inv_bit _ _ _ _ _ _ _ T _ (m :: G)); [done|done|lia|..].
    - occurs. lia.
    - intros m' Hne. occurs. rewrite decide_False by done. lia.
    - occurs. rewrite decide_True in Hlk by done. destruct (locked (mx_inner a)); lia. }
  apply notify_first_wp; [apply Hk|]. intros o k1 Ho Hkp Hq Hx Hpa.
  assert (lock_ok (shared m (mkShared (strong_count a) (mkMutexInner false (mx_sleeping (mx_inner a)))) l) k1 F (m :: T) G D) as Hk2
    by (eapply ok_kept; [done..|lia]).
  assert (forall l' k', lock_ok l' k' F T G D -> kept k1 k' -> pm k' = pm k1 -> Q (Ok tt) (l', k')) as HQ'.
  { intros l' k' Hk' Hkp' Hp. apply HQ; [done|by eapply kept_trans|]. unfold passed in *. by rewrite Hp. }
  destruct o; [lstep|lstep|done]; by eapply drop_wp.
Qed.

(** ** The guards of the running thread *)

Lemma store_guard_wp l k F T G D r a m (Q : res Error unit → Locks * Kernel → Prop) : lock_ok l k F T (m :: G) D ->
  running (pm k) = Some r -> (ppid r, a, m) ∈ mutex_table (pm k) ->
  (forall k', lock_ok l k' F T G D -> near k k' -> held (pm k') ≡ₚ (ppid r, RunningProcess.get_tid r, a, m) :: held (pm k) ->
     sleepers (pm k') = sleepers (pm k) -> Q (Ok tt) (l, k')) ->
  wp (Lock.store_mutex_guard a m) (l, k) Q.
Proof.
  intros [Hg Hre Hl] Hr Hin HQ. pose proof Hg as [Hi _]. set (ts := run_state (rp_running r)).
  assert (locked_mutexes ts !! a = None) as Hnone.
  { destruct (locked_mutexes ts !! a) as [m'|] eqn:Em; [|done]. apply (held_running (pm k) r a m' Hi Hr) in Em.
    pose proof (li_home _ _ _ _ _ _ _ _ _ _ Hl _ _ _ _ Em) as Hin'. pose proof (mutex_table_fun _ _ _ _ _ Hi Hin Hin') as <-.
    assert (0 < tally m (guards (held (pm k)))) as Ho by (apply tally_elem; exact (list_elem_of_fmap_2 (fun h : Holding => h.2) _ _ Em)).
    destruct (inv_deref _ _ _ _ _ _ _ _ _ _ m Hl) as [s Hs]; [rewrite !elem_of_app; do 4 right; left|].
    assert (inner_of l m = Some (mx_inner s)) as Hin2 by (unfold inner_of; by rewrite Hs).
    pose proof (li_locked _ _ _ _ _ _ _ _ _ _ Hl m _ Hin2) as Hk. occurs. rewrite decide_True in Hk by done. destruct (locked _); lia. }
  destruct (rethread_running k r (ThreadState.store_mutex_guard a m ts) Hg Hr eq_refl eq_refl eq_refl) as (Hg' & Hn & Hm & Hc & Hsl & H & HH & HH').
  unfold Lock.store_mutex_guard. lstep. lstep. apply (wp_get_running k r); [done|]. lstep. lstep. unfold PM.set_running, PM.upd. lstep.
  fold ts. rewrite Hnone. lstep. set (k' := PM.with_pm _ k) in *.
  assert (held (pm k') ≡ₚ (ppid r, RunningProcess.get_tid r, a, m) :: held (pm k)) as Hh.
  { rewrite HH, HH'. rewrite row_guards_insert by done. done. }
  apply HQ; [|done|done|done]. constructor; [done|by unfold reapable; rewrite (nr_deferred _ _ Hn)|].
  eapply inv_perm; [apply (inv_store _ _ _ _ _ _ _ _ _ _ (ppid r) (RunningProcess.get_tid r) a m Hl Hin)|by rewrite Hm|by rewrite Hc|done|done|done].
Qed.

Lemma running_id k r : running (pm k) = Some r ->
  PM.with_pm (PM.with_running (Some (RunningProcess.with_running (mkRunningThread (run_state (rp_running r))) r)) (pm k)) k = k.
Proof. intros Hr. destruct k as [p ??????], p, r as [? [?] ????]. cbn in *. by rewrite Hr. Qed.

(** The reference of the table is given up when there is no other one than the guard. *)
Lemma put_mutex_wp l k F T G D r a m (Q : res Error unit → Locks * Kernel → Prop) : lock_ok l k F T (m :: G) D ->
  running (pm k) = Some r -> (ppid r, a, m) ∈ mutex_table (pm k) ->
  (forall l' k', lock_ok l' k' F T (m :: G) D -> near k k' -> held (pm k') = held (pm k) -> sleepers (pm k') = sleepers (pm k) ->
     (forall m', inner_of l' m' = inner_of l m') -> (forall c, Condvar.sleeping c k' = Condvar.sleeping c k) ->
     mutex_table (pm k) ≡ₚ (if strong l m <=? 2 then [(ppid r, a, m)] else []) ++ mutex_table (pm k') -> Q (Ok tt) (l', k')) ->
  wp (Lock.on_state (Lock.put_mutex a)) (l, k) Q.
Proof.
  intros Hk Hr Hin HQ. pose proof Hk as [Hg Hre Hl]. pose proof Hg as [Hi _].
  pose proof (proj1 (mutex_table_running _ r a m Hi Hr) Hin) as Hm.
  destruct (inv_deref _ _ _ _ _ _ _ _ _ _ m Hl) as [s Hs]; [rewrite !elem_of_app; do 4 right; left|].
  assert (strong l m = strong_count s) as Hst by (unfold strong; by rewrite Hs).
  unfold Lock.on_state. lstep. lstep. apply (wp_get_running k r); [done|]. lstep. unfold Lock.put_mutex. rewrite Hm.
  unfold Lock.reference_count. lstep. lstep. apply (wp_deref l k m s); [done|]. lstep. rewrite Hst in HQ.
  destruct (Z.leb_spec (strong_count s) 2) as [H2|H2].
  - set (st := ProcessState.with_mutexes (delete a (mutexes (rp_state r))) (rp_state r)).
    destruct (restate_running k r st Hg Hr eq_refl) as (Hg' & Hn & Hh & Hsl & x & [Hm1 Hm2] & [Hc1 Hc2]).
    assert (mutex_table (pm k) ≡ₚ (ppid r, a, m) :: mutex_places st ++ (x ≫= mutex_places)) as Hmt.
    { rewrite Hm1, (mutex_places_delete _ _ _ Hm). done. }
    pose proof (inv_perm _ _ _ _ _ _ _ _ _ _ (fun cv => Condvar.sleeping cv k) _ _ _ _ Hl (symmetry Hmt) ltac:(reflexivity) ltac:(reflexivity) ltac:(done) ltac:(reflexivity)) as Hl1.
    pose proof (li_count _ _ _ _ _ _ _ _ _ _ Hl1 m) as Hco. rewrite Hst in Hco.
    assert (strong_count s <> 1) as Hne by (occurs; rewrite !decide_True in Hco by done; lia).
    apply inv_leave in Hl1; [|left|by rewrite Hst].
    lstep. unfold Lock.drop. lstep. apply (wp_deref l k m s); [done|]. destruct (Z.eqb_spec (strong_count s) 1); [done|]. unfold Lock.store. lstep.
    lstep. lstep. lstep. unfold PM.set_running, PM.upd. lstep. lstep. fold st. set (k' := PM.with_pm _ k) in *.
    apply HQ; [|done|done|done| |done|by rewrite Hm2].
    + constructor; [done|by unfold reapable; rewrite (nr_deferred _ _ Hn)|]. rewrite Hm2, Hc2, Hh.
      eapply inv_perm; [apply inv_drop; [exact Hl1|done|done]|done|by rewrite Hc1|done|done|done].
    + intros m'. change (inner_of (shared m (mkShared (strong_count s - 1) (mx_inner s)) l) m' = inner_of l m').
      rewrite shared_inner. destruct (decide (m' = m)) as [->|]; [|done]. unfold inner_of. by rewrite Hs.
  - destruct (restate_running k r (rp_state r) Hg Hr eq_refl) as (Hg' & Hn & Hh & Hsl & x & [Hm1 Hm2] & [Hc1 Hc2]).
    lstep. lstep. lstep. unfold PM.set_running, PM.upd. lstep. lstep. set (k' := PM.with_pm _ k) in *.
    apply HQ; [|done|done|done|done|done|by rewrite Hm2, Hm1].
    constructor; [done|by unfold reapable; rewrite (nr_deferred _ _ Hn)|]. rewrite Hm2, Hc2, Hh, <- Hm1, <- Hc1. exact Hl.
Qed.

Definition not_owner : Error := mkError OperationNotPermitted "thread does not own mutex".

Lemma remove_guard_wp l k F T G D r a (Q : res Error MutexGuard → Locks * Kernel → Prop) : lock_ok l k F T G D ->
  running (pm k) = Some r ->
  (forall l' k' m, (ppid r, RunningProcess.get_tid r, a, m) ∈ held (pm k) -> lock_ok l' k' F T (m :: G) D -> near k k' ->
     held (pm k) ≡ₚ (ppid r, RunningProcess.get_tid r, a, m) :: held (pm k') -> sleepers (pm k') = sleepers (pm k) ->
     (forall m', inner_of l' m' = inner_of l m') -> (forall c, Condvar.sleeping c k' = Condvar.sleeping c k) ->
     mutex_table (pm k) ≡ₚ (if strong l m <=? 2 then [(ppid r, a, m)] else []) ++ mutex_table (pm k') -> Q (Ok m) (l', k')) ->
  ((forall m, (ppid r, RunningProcess.get_tid r, a, m) ∉ held (pm k)) -> Q (Err not_owner) (l, k)) ->
  wp (Lock.remove_mutex_guard a) (l, k) Q.
Proof.
  intros Hk Hr HQ HQ'. pose proof Hk as [Hg Hre Hl]. pose proof Hg as [Hi _]. set (ts := run_state (rp_running r)).
  unfold Lock.remove_mutex_guard. lstep. lstep. apply (wp_get_running k r); [done|]. fold ts. cbn [ThreadState.take_mutex_guard].
  change (mkThreadState _ _ _ _ _ _ _ _) with (ThreadState.take_mutex_guard a ts).2.
  lstep. lstep. unfold PM.set_running, PM.upd. lstep. destruct (locked_mutexes ts !! a) as [m|] eqn:Em.
  - pose proof (proj2 (held_running (pm k) r a m Hi Hr) Em) as Hin.
    destruct (rethread_running k r (ThreadState.take_mutex_guard a ts).2 Hg Hr eq_refl eq_refl eq_refl) as (Hg1 & Hn & Hm & Hc & Hsl & H & HH & HH').
    set (k1 := PM.with_pm _ k) in *. set (r1 := RunningProcess.with_running _ r) in *.
    assert (held (pm k) ≡ₚ (ppid r, RunningProcess.get_tid r, a, m) :: held (pm k1)) as Hh.
    { rewrite HH, HH'. rewrite (row_guards_delete _ (run_state (rp_running r)) _ a m) by done. done. }
    assert (lock_ok l k1 F T (m :: G) D) as Hk1.
    { constructor; [done|by unfold reapable; rewrite (nr_deferred _ _ Hn)|]. rewrite Hm, Hc.
      eapply inv_take, inv_perm; [exact Hl|done|done|by symmetry|done|done]. }
    lstep. lstep. apply (put_mutex_wp l k1 F T G D r1 a m); [done|done| |].
    { rewrite Hm. exact (li_home _ _ _ _ _ _ _ _ _ _ Hl _ _ _ _ Hin). }
    intros l' k' Hk' Hn' Hh' Hsl' Hi' Hq' Hmt. lstep. apply HQ; try done; [by transitivity k1|by rewrite Hh'|by rewrite Hsl'|].
    by rewrite <- Hm.
  - assert ((ThreadState.take_mutex_guard a ts).2 = ts) as ->.
    { unfold ThreadState.take_mutex_guard. cbn. rewrite delete_id by done. by destruct ts. }
    unfold ts at 1. rewrite (running_id k r Hr). lstep. apply HQ'. intros m Hin.
    apply (held_running (pm k) r a m Hi Hr) in Hin. fold ts in Hin. by rewrite Em in Hin.
Qed.

(** ** The tables of the running process *)

(** A new queue. *)
Lemma new_condvar_wp k (Q : res Error Condvar → Kernel → Prop) : good k ->
  (forall k', kept k k' -> pm k' = pm k -> next_condvar k' = next_condvar k + 1 -> Condvar.sleeping (next_condvar k) k' = [] ->
     (forall cv, Condvar.sleeping cv k' ⊆ Condvar.sleeping cv k) -> Q (Ok (next_condvar k)) k') -> wp PM.new_condvar k Q.
Proof.
  intros Hg HQ. unfold wp, PM.new_condvar. cbn. apply HQ; [by apply kept_pm|done|done|..].
  - unfold Condvar.sleeping. cbn. by rewrite lookup_insert_eq.
  - intros cv. unfold Condvar.sleeping. cbn. destruct (decide (cv = next_condvar k)) as [->|Hne]; [rewrite lookup_insert_eq; simpl; set_solver|].
    by rewrite lookup_insert_ne.
Qed.

Definition too_many_mutexes : Error := mkError OutOfMemory "maximum number of mutexes reached".

Lemma lookup_mutex_wp l k F T G D r a (Q : res Error Mutex → Locks * Kernel → Prop) : lock_ok l k F T G D -> running (pm k) = Some r ->
  (forall l' k' m, lock_ok l' k' F (m :: T) G D -> near k k' -> held (pm k') = held (pm k) -> sleepers (pm k') = sleepers (pm k) ->
     (ppid r, a, m) ∈ mutex_table (pm k') -> mutex_table (pm k) ⊆ mutex_table (pm k') -> Q (Ok m) (l', k')) ->
  ((forall m, (ppid r, a, m) ∉ mutex_table (pm k)) -> (MUTEX_OPEN_MAX <= size (mutexes (rp_state r)))%nat -> Q (Err too_many_mutexes) (l, k)) ->
  wp (Lock.lookup_mutex a) (l, k) Q.
Proof.
  intros Hk Hr HQ HQ'. pose proof Hk as [Hg Hre Hl]. pose proof Hg as [Hi _].
  unfold Lock.lookup_mutex, Lock.on_state. lstep. lstep. apply (wp_get_running k r); [done|]. lstep. unfold Lock.get_mutex.
  destruct (mutexes (rp_state r) !! a) as [m|] eqn:Em.
  - pose proof (proj2 (mutex_table_running _ r a m Hi Hr) Em) as Hin.
    destruct (inv_deref _ _ _ _ _ _ _ _ _ _ m Hl) as [s Hs].
    { rewrite elem_of_app. left. exact (list_elem_of_fmap_2 (fun e : Place => e.2) _ _ Hin). }
    destruct (restate_running k r (rp_state r) Hg Hr eq_refl) as (Hg' & Hn & Hh & Hsl & x & [Hm1 Hm2] & [Hc1 Hc2]).
    lstep. apply (clone_wp l k F T G D m s); [done|done|]. intros l' [_ _ Hl']. lstep. lstep. lstep. unfold PM.set_running, PM.upd. lstep. lstep.
    set (k' := PM.with_pm _ k) in *. apply HQ; [|done|done|done|by rewrite Hm2, <- Hm1|by rewrite Hm2, <- Hm1].
    constructor; [done|by unfold reapable; rewrite (nr_deferred _ _ Hn)|]. rewrite Hm2, Hc2, Hh, <- Hm1, <- Hc1. exact Hl'.
  - destruct (Nat.leb_spec MUTEX_OPEN_MAX (size (mutexes (rp_state r)))) as [Hsz|Hsz].
    { lstep. apply HQ'; [|done]. intros m Hin. apply (mutex_table_running _ r a m Hi Hr) in Hin. by rewrite Em in Hin. }
    unfold Lock.new. do 3 lstep. apply new_condvar_wp; [done|].
    intros k1 Hkp Hp1 Hx Hnil Hq. lstep. lstep. lstep. lstep. lstep. set (m := next_mutex l).
    destruct (inv_new _ _ (fun cv => Condvar.sleeping cv k1) _ _ _ _ _ _ _ _ m Hl Hnil Hq eq_refl) as [Hl1 Ho].
    rewrite <- Hx, <- Hp1 in Hl1. rewrite <- Hp1 in Hr, Hre, Ho.
    lstep. eapply (clone_wp _ k1 F (m :: T) G D m); [constructor; [apply Hkp|done|exact Hl1]|apply lookup_insert_eq|].
    intros l' [_ _ Hl']. lstep. lstep. lstep. unfold PM.set_running, PM.upd. lstep. lstep.
    set (st := ProcessState.with_mutexes _ _).
    destruct (restate_running k1 r st (kp_good _ _ Hkp) Hr eq_refl) as (Hg' & Hn & Hh & Hsl & x & [Hm2 Hm3] & [Hc2 Hc3]).
    set (k' := PM.with_pm _ k1) in *.
    assert (mutex_table (pm k') ≡ₚ (ppid r, a, m) :: mutex_table (pm k1)) as Hmt.
    { rewrite Hm3, Hm2. unfold st. rewrite (mutex_places_insert _ _ m Em). done. }
    rewrite <- Hp1 in HQ. apply HQ; [|by transitivity k1; [apply Hkp|]|by rewrite Hh|by rewrite Hsl|rewrite Hmt; left|].
    + constructor; [done|unfold reapable; by rewrite (nr_deferred _ _ Hn)|]. assert (cond_table (pm k') = cond_table (pm k1)) as -> by by rewrite Hc3, Hc2. rewrite Hh.
      by eapply inv_perm; [apply (inv_enter _ _ _ _ _ _ _ _ _ _ (ppid r) a m Hl')|exact Hmt|..].
    + intros y Hy. rewrite Hmt. by right.
Qed.

(** Condition variables: the tables change, nothing that concerns mutexes. *)
Record recond k k' : Prop := {
  rc_near : near k k';
  rc_held : held (pm k') = held (pm k);
  rc_sleepers : sleepers (pm k') = sleepers (pm k);
  rc_mutexes : mutex_table (pm k') = mutex_table (pm k)
}.

Definition too_many_conds : Error := mkError OutOfMemory "maximum number of condition variables reached".

Lemma lookup_cond_wp l k F T G D r a (Q : res Error Condvar → Locks * Kernel → Prop) : lock_ok l k F T G D -> running (pm k) = Some r ->
  (forall l' k' cv, lock_ok l' k' F T G (cv :: D) -> recond k k' -> (ppid r, a, cv) ∈ cond_table (pm k') ->
     cond_table (pm k) ⊆ cond_table (pm k') -> Q (Ok cv) (l', k')) ->
  ((forall cv, (ppid r, a, cv) ∉ cond_table (pm k)) -> Q (Err too_many_conds) (l, k)) ->
  wp (Lock.lookup_cond a) (l, k) Q.
Proof.
  intros Hk Hr HQ HQ'. pose proof Hk as [Hg Hre Hl]. pose proof Hg as [Hi _].
  unfold Lock.lookup_cond, Lock.on_state. lstep. lstep. apply (wp_get_running k r); [done|]. lstep. unfold Lock.get_cond.
  destruct (conditions (rp_state r) !! a) as [cv|] eqn:Em.
  - pose proof (proj2 (cond_table_running _ r a cv Hi Hr) Em) as Hin.
    destruct (inv_cond_deref _ _ _ _ _ _ _ _ _ _ cv Hl) as [n Hcn].
    { rewrite elem_of_app. left. exact (list_elem_of_fmap_2 (fun e : Place => e.2) _ _ Hin). }
    destruct (restate_running k r (rp_state r) Hg Hr eq_refl) as (Hg' & Hn & Hh & Hsl & x & [Hm1 Hm2] & [Hc1 Hc2]).
    lstep. apply (cond_clone_wp l k F T G D cv n); [done|done|]. intros l' [_ _ Hl']. lstep. lstep. lstep. unfold PM.set_running, PM.upd. lstep. lstep.
    set (k' := PM.with_pm _ k) in *. apply HQ; [|constructor; [done..|by rewrite Hm2, Hm1]|by rewrite Hc2, <- Hc1|by rewrite Hc2, <- Hc1].
    constructor; [done|by unfold reapable; rewrite (nr_deferred _ _ Hn)|]. rewrite Hm2, Hc2, Hh, <- Hm1, <- Hc1. exact Hl'.
  - destruct (Nat.leb_spec COND_OPEN_MAX (size (conditions (rp_state r)))) as [Hsz|Hsz].
    { lstep. apply HQ'. intros cv Hin. apply (cond_table_running _ r a cv Hi Hr) in Hin. by rewrite Em in Hin. }
    unfold Lock.cond_new. do 3 lstep. apply new_condvar_wp; [done|].
    intros k1 Hkp Hp1 Hx Hnil Hq. unfold Lock.cond_store. lstep. lstep. lstep. set (cv := next_condvar k) in *.
    destruct (inv_cond_new _ _ (fun cv => Condvar.sleeping cv k1) _ _ _ _ _ _ _ _ Hl Hnil Hq) as [Hl1 Ho]. fold cv in Ho, Hl1.
    rewrite <- Hx, <- Hp1 in Hl1. rewrite <- Hp1 in Hr, Hre, Ho.
    lstep. eapply (cond_clone_wp _ k1 F T G (cv :: D) cv); [constructor; [apply Hkp|done|exact Hl1]|apply lookup_insert_eq|].
    intros l' [_ _ Hl']. lstep. lstep. lstep. unfold PM.set_running, PM.upd. lstep. lstep.
    set (st := ProcessState.with_conditions _ _).
    destruct (restate_running k1 r st (kp_good _ _ Hkp) Hr eq_refl) as (Hg' & Hn & Hh & Hsl & x & [Hm2 Hm3] & [Hc2 Hc3]).
    set (k' := PM.with_pm _ k1) in *.
    assert (cond_table (pm k') ≡ₚ (ppid r, a, cv) :: cond_table (pm k1)) as Hct.
    { rewrite Hc3, Hc2. unfold st. rewrite (cond_places_insert _ _ cv Em). done. }
    assert (mutex_table (pm k') = mutex_table (pm k1)) as Hmt by by rewrite Hm3, Hm2.
    apply HQ; [|constructor; [by transitivity k1; [apply Hkp|]|by rewrite Hh, Hp1|by rewrite Hsl, Hp1|by rewrite Hmt, Hp1]|rewrite Hct; left|].
    2: { intros y Hy. rewrite Hct, Hp1. by right. }
    constructor; [done|unfold reapable; by rewrite (nr_deferred _ _ Hn)|]. rewrite Hmt, Hh.
    by eapply inv_perm; [apply (inv_cond_enter _ _ _ _ _ _ _ _ _ _ (ppid r) a cv Hl')|..].
Qed.

Definition cond_not_found : Error := mkError NoSuchEntry "condition variable not found".

Lemma release_cond_wp l k F T G D r a (Q : res Error unit → Locks * Kernel → Prop) : lock_ok l k F T G D -> running (pm k) = Some r ->
  (forall l' k', lock_ok l' k' F T G D -> recond k k' -> Q (Ok tt) (l', k')) ->
  ((forall cv, (ppid r, a, cv) ∉ cond_table (pm k)) -> Q (Err cond_not_found) (l, k)) ->
  wp (Lock.release_cond a) (l, k) Q.
Proof.
  intros Hk Hr HQ HQ'. pose proof Hk as [Hg Hre Hl]. pose proof Hg as [Hi _].
  unfold Lock.release_cond, Lock.on_state. lstep. lstep. apply (wp_get_running k r); [done|]. lstep. unfold Lock.put_cond.
  destruct (conditions (rp_state r) !! a) as [cv|] eqn:Em.
  2: { lstep. apply HQ'. intros cv Hin. apply (cond_table_running _ r a cv Hi Hr) in Hin. by rewrite Em in Hin. }
  pose proof (proj2 (cond_table_running _ r a cv Hi Hr) Em) as Hin.
  destruct (inv_cond_deref _ _ _ _ _ _ _ _ _ _ cv Hl) as [n Hcn].
  { rewrite elem_of_app. left. exact (list_elem_of_fmap_2 (fun e : Place => e.2) _ _ Hin). }
  lstep. apply (wp_cond_count l k cv n); [done|]. destruct (Z.leb_spec n 1) as [H1|H1].
  - set (st := ProcessState.with_conditions (delete a (conditions (rp_state r))) (rp_state r)).
    destruct (restate_running k r st Hg Hr eq_refl) as (_ & _ & _ & _ & x & [Hm1 _] & [Hc1 _]).
    assert (cond_table (pm k) ≡ₚ (ppid r, a, cv) :: cond_places st ++ (x ≫= cond_places)) as Hct.
    { rewrite Hc1, (cond_places_delete _ _ _ Em). done. }
    pose proof (inv_perm _ _ _ _ _ _ _ _ _ _ (fun cv => Condvar.sleeping cv k) _ _ _ _ Hl ltac:(reflexivity) (symmetry Hct) ltac:(reflexivity) ltac:(done) ltac:(reflexivity)) as Hl1.
    apply inv_cond_leave in Hl1; [|unfold ccount; by rewrite Hcn].
    pose proof (li_cpos _ _ _ _ _ _ _ _ _ _ Hl1 cv n Hcn) as Hpos. assert (n = 1) as -> by lia.
    lstep. unfold Lock.cond_drop. lstep. apply (wp_cond_count l k cv 1); [done|]. cbn [Z.eqb Pos.eqb].
    lstep. lstep. lstep. set (k1 := PM.with_condvars (delete cv (condvars k)) k).
    destruct (inv_cond_free _ _ (fun cv => Condvar.sleeping cv k1) _ _ _ _ _ _ _ _ cv Hl1 Hcn) as [Hq Hl2].
    { intros c. apply delete_sleeping. }
    apply drop_condvar_wp; [done|]. fold k1. lstep. lstep. lstep. unfold PM.set_running, PM.upd. lstep. lstep. fold st.
    destruct (restate_running k1 r st Hg Hr eq_refl) as (Hg' & Hn & Hh & Hsl & y & [Hm2 Hm3] & [Hc2 Hc3]).
    set (k' := PM.with_pm _ k1) in *. assert (mutex_table (pm k') = mutex_table (pm k)) as Hmt by (rewrite Hm3; symmetry; exact Hm2).
    change (Q (Ok tt) (uncounted cv l, k')). apply HQ; [|constructor; [|done|done|done]].
    + constructor; [done|exact Hre|]. rewrite Hmt, Hh, Hc3.
      assert ((y ≫= cond_places) = (x ≫= cond_places)) as ->; [|exact Hl2].
      change (cond_table (pm k1)) with (cond_table (pm k)) in Hc2. rewrite Hc1 in Hc2. by apply app_inv_head in Hc2.
    + transitivity k1; [|done]. by constructor.
  - destruct (restate_running k r (rp_state r) Hg Hr eq_refl) as (Hg' & Hn & Hh & Hsl & x & [Hm1 Hm2] & [Hc1 Hc2]).
    lstep. lstep. lstep. unfold PM.set_running, PM.upd. lstep. lstep. set (k' := PM.with_pm _ k) in *.
    apply HQ; [|constructor; [done..|by rewrite Hm2, Hm1]].
    constructor; [done|by unfold reapable; rewrite (nr_deferred _ _ Hn)|]. rewrite Hm2, Hc2, Hh, <- Hm1, <- Hc1. exact Hl.
Qed.
End MutexSpec.
