(* ===== verification/MutexCalls.v ===== *)
(** * Mutexes: the kernel calls

    [lock_mutex], [unlock_mutex], [wait_cond] and [signal_cond] as a system: whatever the
    order in which threads call and are switched to, the invariant holds. *)

From S2P Require Import Prelude Error Config Addr NonEmpty Mailbox UserSpace VirtMem Str Thread Process.
From S2P Require Import ProcessView Pending ProcManager ManagerInv Scheduler ManagerOps.
From S2P Require Import ManagerState ManagerReap EntryPoints Footprint EntrySpec Mail System Mutex MutexInv MutexView MutexSpec.
#[local] Open Scope Z_scope.

Section MutexCalls.
Context {CF : Config} {HC : ConfigOk} {VM : VirtMem} {CK : Clock} {LC : LockConfig}.
Implicit Types (l : Locks) (k : Kernel) (m cv : Z) (F : Frames) (T G D : list Z).

(** ** Who holds a mutex *)

(** The thread has a guard for the address. *)
Definition holds p pid tid a : Prop := exists m : Mutex, (pid, tid, a, m) ∈ held p.
Definition unheld p pid a : Prop := forall tid, ~ holds p pid tid a.

(** Two entries that refer to the same thing are the same. *)
Lemma place_unique (E : list Place) (x y : Place) : tally x.2 (placed E) <= 1 -> x ∈ E -> y ∈ E -> x.2 = y.2 -> x = y.
Proof.
  induction E as [|z E IH]; intros Ho Hx Hy He; [by apply elem_of_nil in Hx|].
  destruct z as [[pid a] m]. rewrite placed_cons, tally_cons in Ho. pose proof (tally_nonneg x.2 (placed E)).
  assert (forall w : Place, w ∈ E -> 0 < tally w.2 (placed E)) as Hpos.
  { intros w Hw. apply tally_elem. exact (list_elem_of_fmap_2 (fun e : Place => e.2) _ _ Hw). }
  apply elem_of_cons in Hx as [Hx|Hx], Hy as [Hy|Hy]; subst; simpl in *.
  - done.
  - rewrite decide_True in Ho by done. specialize (Hpos y Hy). rewrite <- He in Hpos. lia.
  - rewrite decide_True in Ho by done. specialize (Hpos x Hx). lia.
  - apply IH; [|done..]. destruct (decide _); lia.
Qed.

Lemma free_unheld l k F T D pid a m : lock_ok l k F T [] D -> (pid, a, m) ∈ mutex_table (pm k) ->
  free k [] m <-> unheld (pm k) pid a.
Proof.
  intros [[Hi _] _ Hl] Hin. unfold free. rewrite app_nil_r. split.
  - intros Ho t (m' & Hh). pose proof (li_home _ _ _ _ _ _ _ _ _ _ Hl _ _ _ _ Hh) as Hin'.
    rewrite (mutex_table_fun _ _ _ _ _ Hi Hin' Hin) in Hh.
    assert (0 < tally m (guards (held (pm k)))); [|lia]. apply tally_elem. exact (list_elem_of_fmap_2 (fun h : Holding => h.2) _ _ Hh).
  - intros Hu. pose proof (tally_nonneg m (guards (held (pm k)))). destruct (decide (0 < tally m (guards (held (pm k))))) as [Ho|]; [|lia].
    apply tally_elem, list_elem_of_fmap in Ho as ([[[pid' t] a'] m'] & He & Hh). simpl in He. subst m'.
    pose proof (li_home _ _ _ _ _ _ _ _ _ _ Hl _ _ _ _ Hh) as Hin'.
    assert ((pid, a, m) = (pid', a', m)) as [= -> ->].
    { apply (place_unique (mutex_table (pm k))); [apply Hl|done..]. }
    destruct (Hu t). by exists m.
Qed.

Lemma guard_once l k F T G D pid tid a m H : lock_ok l k F T G D -> held (pm k) ≡ₚ (pid, tid, a, m) :: H -> forall t (m' : Mutex), (pid, t, a, m') ∉ H.
Proof.
  intros [[Hi _] _ Hl] Hh t m' Hin. assert ((pid, tid, a, m) ∈ held (pm k)) as H1 by (rewrite Hh; left).
  assert ((pid, t, a, m') ∈ held (pm k)) as H2 by (rewrite Hh; by right).
  pose proof (mutex_table_fun _ _ _ _ _ Hi (li_home _ _ _ _ _ _ _ _ _ _ Hl _ _ _ _ H1) (li_home _ _ _ _ _ _ _ _ _ _ Hl _ _ _ _ H2)) as <-.
  destruct (inv_deref _ _ _ _ _ _ _ _ _ _ m Hl) as [s Hs].
  { rewrite !elem_of_app. right; left. exact (list_elem_of_fmap_2 (fun h : Holding => h.2) _ _ H1). }
  assert (inner_of l m = Some (mx_inner s)) as Hi' by (unfold inner_of; by rewrite Hs).
  pose proof (li_locked _ _ _ _ _ _ _ _ _ _ Hl m _ Hi') as Hk. rewrite Hh in Hk. occurs. rewrite decide_True in Hk by done.
  assert (0 < tally m (guards H)) by (apply tally_elem; exact (list_elem_of_fmap_2 (fun h : Holding => h.2) _ _ Hin)).
  destruct (locked (mx_inner s)); lia.
Qed.

(** At most one thread holds a mutex. *)
Lemma holds_unique l k F T G D pid t t' a : lock_ok l k F T G D -> holds (pm k) pid t a -> holds (pm k) pid t' a -> t = t'.
Proof.
  intros Hk [m Hm] [m' Hm']. destruct (proj1 (elem_of_Permutation _ _) Hm) as [H Hh]. rewrite Hh in Hm'.
  apply elem_of_cons in Hm' as [Hm'|Hm']; [congruence|]. by destruct (guard_once _ _ _ _ _ _ _ _ _ _ _ Hk Hh t' m').
Qed.

(** ** Acquiring *)

(** How an attempt to lock ends that started in [k]: with the guard, asleep in the queue of
    the mutex, or with an error, when the time is over. *)
Definition acquired k F pid tid a (f : Frame → Prop) result (o : res Error Progress) (s' : Locks * Kernel) : Prop :=
  match o with
  | Ok (Done x) => x = result /\ lock_ok s'.1 s'.2 F [] [] [] /\ near k s'.2 /\ unheld (pm k) pid a /\
      (exists m : Mutex, held (pm s'.2) ≡ₚ (pid, tid, a, m) :: held (pm k)) /\ sleepers (pm s'.2) = sleepers (pm k)
  | Ok (Blocks x) => f x /\ lock_ok s'.1 s'.2 (<[tid := (pid, x)]> F) [] [] [] /\ ~ unheld (pm k) pid a /\
      held (pm s'.2) ≡ₚ held (pm k) /\ sleepers (pm s'.2) ≡ₚ tid :: sleepers (pm k)
  | Err e => e = Condvar.alarm_expired /\ lock_ok s'.1 s'.2 F [] [] [] /\ near k s'.2 /\ ~ unheld (pm k) pid a /\
      held (pm s'.2) ≡ₚ held (pm k) /\ sleepers (pm s'.2) = sleepers (pm k)
  | Panic => False
  end.

Lemma unheld_perm p p' pid a : held p' ≡ₚ held p -> unheld p' pid a <-> unheld p pid a.
Proof. intros Hh. unfold unheld, holds. by setoid_rewrite Hh. Qed.

Lemma acquired_from k k1 F pid tid a (f f' : Frame → Prop) result o s' : near k k1 -> held (pm k1) ≡ₚ held (pm k) -> sleepers (pm k1) = sleepers (pm k) ->
  (forall x, f x -> f' x) -> acquired k1 F pid tid a f result o s' -> acquired k F pid tid a f' result o s'.
Proof.
  intros Hn Hh Hs Hf. unfold acquired. pose proof (unheld_perm _ _ pid a Hh) as Hu. destruct o as [[x|x]|e|]; [| | |done].
  - intros (? & ? & ? & ? & [m Hm] & ?). splits; [done|done|by transitivity k1|by apply Hu| |congruence]. exists m. by rewrite Hm, Hh.
  - intros (? & ? & ? & Hm & Hsl). rewrite <- Hu, Hm, Hsl, Hh, Hs. auto.
  - intros (? & ? & ? & ? & Hm & Hsl). splits; [done|done|by transitivity k1|by rewrite <- Hu|by rewrite Hm|by rewrite Hsl].
Qed.

Lemma locked_end_wp l k F r a m result (Q : res Error Progress → Locks * Kernel → Prop) : lock_ok l k F [m] [m] [] ->
  running (pm k) = Some r -> (ppid r, a, m) ∈ mutex_table (pm k) ->
  (forall l' k', lock_ok l' k' F [] [] [] -> near k k' -> held (pm k') ≡ₚ (ppid r, RunningProcess.get_tid r, a, m) :: held (pm k) ->
     sleepers (pm k') = sleepers (pm k) -> Q (Ok (Done result)) (l', k')) ->
  wp (Lock.locked_end a m m result) (l, k) Q.
Proof.
  intros Hk Hr Hin HQ. unfold Lock.locked_end. lstep. apply (store_guard_wp l k F [m] [] [] r a m); [done..|].
  intros k1 Hk1 Hn Hh Hs. lstep. apply (drop_wp l k1 F [] [] [] m); [done|]. intros l2 k2 Hk2 Hkp Hp. lstep.
  apply HQ; [done|by transitivity k1; [|apply Hkp]|by rewrite Hp|by rewrite Hp].
Qed.

(** The end of all calls that lock. *)
Definition finish_lock a m f result (guard : option MutexGuard) : M (Locks * Kernel) Error Progress :=
  match guard with
  | Some guard => Lock.locked_end a m guard result
  | None => mret (Blocks f)
  end.

(** What is left to do after [lock], to end with [Q]. *)
Definition locking a m f result (Q : res Error Progress → Locks * Kernel → Prop) (o : res Error (option MutexGuard)) (s : Locks * Kernel) : Prop :=
  match o with
  | Ok guard => wp (finish_lock a m f result guard) s Q
  | Err e => wp (Lock.drop m) s (fun o s' => match o with Ok _ => Q (Err e) s' | Err e => Q (Err e) s' | Panic => Q Panic s' end)
  | Panic => Q Panic s
  end.

Lemma locking_mono a m f result (P Q : res Error Progress → Locks * Kernel → Prop) o s : (forall o s, P o s -> Q o s) ->
  locking a m f result P o s -> locking a m f result Q o s.
Proof.
  intros H. destruct o as [g|e|]; simpl; [| |apply H]; intros Hw; (eapply wp_mono; [exact Hw|]); [exact H|]. intros [[]|e'|] s'; apply H.
Qed.

(** The code of the calls that lock, after [lock]. *)
Lemma locking_wp a m f result (P Q : res Error Progress → Locks * Kernel → Prop) o s : (forall o s, P o s -> Q o s) ->
  locking a m f result P o s ->
  match o with
  | Ok guard => wp (finish_lock a m f result guard) s Q
  | Err e => wp (Lock.drop m;; fail e) s (fun o s' => match o with
      | Ok guard => wp (finish_lock a m f result guard) s' Q
      | Err e => Q (Err e) s'
      | Panic => Q Panic s'
      end)
  | Panic => Q Panic s
  end.
Proof.
  intros H Hl. apply (locking_mono _ _ _ _ P Q) in Hl; [|done]. destruct o as [g|e|]; [done| |done]. simpl in Hl. lstep.
  eapply wp_mono; [exact Hl|]. by intros [[]|e'|] s'.
Qed.

Lemma acquire_wp l k F r a m f timeout result : lock_ok l k F [m] [] [] -> running (pm k) = Some r -> ppid r <> KERNEL_PID -> guarded k ->
  F !! RunningProcess.get_tid r = None -> (ppid r, a, m) ∈ mutex_table (pm k) -> frame_mutex f = Some m ->
  frame_home (mutex_table (pm k)) (cond_table (pm k)) (ppid r) f ->
  wp (Lock.lock m timeout) (l, k) (locking a m f result (acquired k F (ppid r) (RunningProcess.get_tid r) a (eq f) result)).
Proof.
  intros Hk Hr Hne Hgd HF Hin Hf Hh. pose proof (free_unheld _ _ _ _ _ _ _ _ Hk Hin) as Hfr. unfold locking.
  apply (lock_wp l k F [] [] [] m timeout r); [done..| | |].
  - intros l1 Hfree Hk1. unfold finish_lock. apply (locked_end_wp l1 k F r a m); [done..|]. intros l' k' Hk' Hn Hh' Hs.
    unfold acquired. splits; try done; [by apply Hfr|by exists m].
  - intros k' Hfree Hlt Hk'. unfold finish_lock. lstep. unfold acquired. splits; [done|by apply Hk'|by rewrite <- Hfr|apply Hlt|apply Hlt].
  - intros k1 Hfree _ Hk1 Hkp Hp. apply (drop_wp l k1 F [] [] [] m); [done|]. intros l2 k2 Hk2 Hkp2 Hp2.
    unfold acquired. splits; [done|done|transitivity k1; [apply Hkp|apply Hkp2]|by rewrite <- Hfr|by cbn; rewrite Hp2, Hp|by cbn; rewrite Hp2, Hp].
Qed.

(** ** [lock_mutex] and [unlock_mutex] *)

Definition in_lock a timeout (f : Frame) : Prop := exists m : Mutex, f = InLock a m timeout.

Lemma lock_mutex_wp l k F r a s ns : lock_ok l k F [] [] [] -> running (pm k) = Some r -> ppid r <> KERNEL_PID -> intact k ->
  F !! RunningProcess.get_tid r = None ->
  wp (Lock.lock_mutex a s ns) (l, k) (fun o s' =>
    match Lock.decode_timeout s ns with
    | Ok timeout =>
        acquired k F (ppid r) (RunningProcess.get_tid r) a (in_lock a timeout) None o s' \/
        (o = Err too_many_mutexes /\ s' = (l, k) /\ (forall m, (ppid r, a, m) ∉ mutex_table (pm k)) /\
         (MUTEX_OPEN_MAX <= size (mutexes (rp_state r)))%nat)
    | Err e => o = Err e /\ s' = (l, k)
    | Panic => False
    end).
Proof.
  intros Hk Hr Hne Hint HF. unfold Lock.lock_mutex. lstep. lstep.
  destruct (Lock.decode_timeout s ns) as [timeout|e|] eqn:Ed; [|done|].
  2: { unfold Lock.decode_timeout in Ed. by repeat case_match. }
  lstep. apply (lookup_mutex_wp l k F [] [] [] r a); [done|done| |intros; by right].
  intros l1 k1 m Hk1 Hn Hh Hs Hin _. destruct (near_running k k1 r Hn Hr) as (r1 & Hr1 & Ht1 & Hp1). rewrite <- Hp1, <- Ht1 in *.
  lstep. lstep. eapply wp_mono; [apply (acquire_wp l1 k1 F r1 a m (InLock a m timeout) timeout None); try done|].
  - apply Hint; [apply Hk1|done].
  - intros o s'. apply (locking_wp a m (InLock a m timeout)). intros o1 s1 Ha. left.
    eapply acquired_from; [exact Hn|by rewrite Hh|done| |exact Ha]. intros x <-. by exists m.
Qed.

(** The first thread of the queue is woken up if it sleeps; otherwise nobody is. *)
Definition passed_on (queue : list ThreadIdentifier) (p p' : ProcessManager) : Prop :=
  match queue with
  | t :: _ => if decide (t ∈ sleepers p) then sleepers p ≡ₚ t :: sleepers p' else sleepers p' = sleepers p
  | [] => sleepers p' = sleepers p
  end.

Lemma passed_passed_on q k k' : passed q k k' -> passed_on q (pm k) (pm k').
Proof.
  unfold passed, passed_on. destruct q as [|t q]; [by intros ->|]. intros [H1 H2].
  destruct (decide (t ∈ sleepers (pm k))) as [Ht|Ht]; rewrite elem_of_sleepers in Ht; [by apply H1|by rewrite H2].
Qed.

(** What unlocking does: the guard is gone, the mutex is passed on, and the table forgets the
    mutex if there are no other references to it. *)
Definition unlocked l k pid tid a (s' : Locks * Kernel) : Prop :=
  exists (m : Mutex) i, inner_of l m = Some i /\ held (pm k) ≡ₚ (pid, tid, a, m) :: held (pm s'.2) /\
    mutex_table (pm k) ≡ₚ (if strong l m <=? 2 then [(pid, a, m)] else []) ++ mutex_table (pm s'.2) /\
    passed_on (Condvar.sleeping (mx_sleeping i) k) (pm k) (pm s'.2).

Lemma unlock_mutex_wp l k F r a (Q : res Error unit → Locks * Kernel → Prop) : lock_ok l k F [] [] [] -> running (pm k) = Some r ->
  (forall l' k', lock_ok l' k' F [] [] [] -> near k k' -> unlocked l k (ppid r) (RunningProcess.get_tid r) a (l', k') -> Q (Ok tt) (l', k')) ->
  (~ holds (pm k) (ppid r) (RunningProcess.get_tid r) a -> Q (Err not_owner) (l, k)) ->
  wp (Lock.unlock_mutex a) (l, k) Q.
Proof.
  intros Hk Hr HQ HQ'. unfold Lock.unlock_mutex. lstep. apply (remove_guard_wp l k F [] [] [] r a); [done|done| |].
  - intros l1 k1 m Hin Hk1 Hn Hh Hs Hi Hq Hmt. destruct (inv_deref _ _ _ _ _ _ _ _ _ _ m (lk_inv _ _ _ _ _ _ Hk1)) as [x Hx].
    { rewrite !elem_of_app. do 4 right. left. }
    assert (inner_of l1 m = Some (mx_inner x)) as Hi1 by (unfold inner_of; by rewrite Hx).
    apply (drop_guard_wp l1 k1 F [] [] [] m (mx_inner x)); [done|done|]. intros l2 k2 Hk2 Hkp Hpa%passed_passed_on.
    apply HQ; [done|transitivity k1; [done|apply Hkp]|]. exists m, (mx_inner x). rewrite <- Hi, <- Hq. splits; [done| | |].
    + by rewrite (kp_held _ _ Hkp).
    + by rewrite (kp_mutexes _ _ Hkp).
    + unfold passed_on in *. by rewrite Hs in Hpa.
  - intros Hno. apply HQ'. intros [m Hm]. by apply (Hno m).
Qed.

(** ** Going on after a context switch *)

Lemma kept_reason k : good k -> kept k (PM.with_pm (PM.with_reason None (pm k)) k).
Proof.
  intros [Hi Hs]. constructor; [|by constructor|done..]. split; [|exact Hs]. destruct Hi. by constructor.
Qed.

Lemma wait_return_wp l k F r pid f cv (Q : res Error (option SleepError) → Locks * Kernel → Prop) : lock_ok l k F [] [] [] ->
  F !! r = Some (pid, f) -> waits_on l f cv -> r ∉ Condvar.sleeping cv k \/ pm_interrupt_reason (pm k) <> None ->
  (forall k', lock_ok l k' (delete r F) (option_list (frame_mutex f)) [] (option_list (frame_cond f)) -> kept k k' ->
     sleepers (pm k') = sleepers (pm k) -> Q (Ok (SleepInterrupted <$> pm_interrupt_reason (pm k))) (l, k')) ->
  wp (Lock.on_k (Condvar.wait_return cv r)) (l, k) Q.
Proof.
  intros Hk HF Hw Hor HQ. pose proof Hk as [Hg Hre Hl]. lstep. unfold Condvar.wait_return, Sched.sleep_return, PM.take_interrupt_reason. ksteps.
  set (k1 := PM.with_pm (PM.with_reason None (pm k)) k). pose proof (kept_reason k Hg) as Hkp. fold k1 in Hkp.
  assert (forall k', kept k k' -> pm k' = pm k1 -> (forall c, Condvar.sleeping c k' ⊆ Condvar.sleeping c k) -> r ∉ Condvar.sleeping cv k' ->
    next_condvar k' = next_condvar k -> Q (Ok (SleepInterrupted <$> pm_interrupt_reason (pm k))) (l, k')) as Hend.
  { intros k' Hkp' Hp Hq Hn Hx. apply HQ; [|done|by rewrite Hp]. constructor; [apply Hkp'|by rewrite Hp|].
    pose proof (inv_unblock _ _ (fun c => Condvar.sleeping c k') _ _ _ _ _ _ _ _ r pid f Hl HF Hq) as Hu. rewrite !app_nil_r in Hu.
    eapply inv_perm; [apply Hu|apply Hkp'|apply Hkp'|apply Hkp'|done|lia].
    intros c Hc. assert (c = cv) as ->; [|done]. destruct f as [? m ?|? ? ?|? m ?]; simpl in *.
    - destruct Hw as (i & Hi & <-), Hc as (j & Hj & <-). rewrite Hi in Hj. by injection Hj as ->.
    - destruct Hw as [<- _]. by destruct Hc.
    - destruct Hw as (i & Hi & <-), Hc as (j & Hj & <-). rewrite Hi in Hj. by injection Hj as ->. }
  destruct (pm_interrupt_reason (pm k)) as [e|]; cbn [fmap option_fmap option_map].
  - unfold Condvar.set_sleeping. ksteps. apply Hend; [|done| | |done].
    + eapply kept_trans; [exact Hkp|]. apply kept_pm; [apply Hkp|done..].
    + intros c. unfold Condvar.sleeping at 1. cbn. destruct (decide (c = cv)) as [->|Hne]; [|by rewrite lookup_insert_ne].
      rewrite lookup_insert_eq. simpl. intros t [_ Ht]%list_elem_of_filter. exact Ht.
    + unfold Condvar.sleeping at 1. cbn. rewrite lookup_insert_eq. simpl. by intros [? _]%list_elem_of_filter.
  - ksteps. destruct Hor as [Hn|]; [|done]. by apply Hend.
Qed.

(** How a blocked attempt to lock goes on: it gives up if the thread was interrupted. *)
Definition reacquired k F pid tid a f result (o : res Error Progress) (s' : Locks * Kernel) : Prop :=
  match pm_interrupt_reason (pm k) with
  | Some e => o = Ok (Done (Some (SleepInterrupted e))) /\ lock_ok s'.1 s'.2 (delete tid F) [] [] [] /\ near k s'.2 /\
      held (pm s'.2) ≡ₚ held (pm k) /\ sleepers (pm s'.2) = sleepers (pm k)
  | None => acquired k (delete tid F) pid tid a (eq f) result o s'
  end.

Lemma reacquire_wp l k F r a m f timeout result : lock_ok l k F [] [] [] -> running (pm k) = Some r -> ppid r <> KERNEL_PID -> intact k ->
  F !! RunningProcess.get_tid r = Some (ppid r, f) -> f = InLock a m timeout \/ (f = InRelock a m result /\ timeout = None) ->
  (forall cv, waits_on l f cv -> RunningProcess.get_tid r ∉ Condvar.sleeping cv k) \/ pm_interrupt_reason (pm k) <> None ->
  wp (x ← catch (Lock.lock_resume (RunningProcess.get_tid r) m timeout) (fun e => Lock.drop m;; fail e);
      match x with
      | inl (Some guard) => Lock.locked_end a m guard result
      | inl None => mret (Blocks f)
      | inr e => Lock.drop m;; mret (Done (Some e))
      end) (l, k) (reacquired k F (ppid r) (RunningProcess.get_tid r) a f result).
Proof.
  intros Hk Hr Hne Hint HF Hf Hor. set (tid := RunningProcess.get_tid r) in *. pose proof (lk_inv _ _ _ _ _ _ Hk) as Hl.
  assert (frame_mutex f = Some m) as Hfm by by destruct Hf as [-> |[-> _]].
  assert (frame_cond f = None) as Hfc by by destruct Hf as [-> |[-> _]].
  assert (forall E C, frame_home E C (ppid r) f <-> (ppid r, a, m) ∈ E) as Hfh by by destruct Hf as [-> |[-> _]].
  destruct (inv_deref _ _ _ _ _ _ _ _ _ _ m Hl) as [x Hx].
  { rewrite !elem_of_app. do 2 right; left. by eapply frame_mutexes_elem. }
  assert (waits_on l f (mx_sleeping (mx_inner x))) as Hw.
  { destruct Hf as [-> |[-> _]]; exists (mx_inner x); unfold inner_of; by rewrite Hx. }
  pose proof (proj1 (Hfh _ _) (li_frames _ _ _ _ _ _ _ _ _ _ Hl _ _ _ HF)) as Hin.
  unfold Lock.lock_resume. lstep. lstep. lstep. apply (wp_deref l k m x); [done|]. lstep.
  apply (wait_return_wp l k F tid (ppid r) f); [done|done|done|by destruct Hor; [left; auto|right]|].
  rewrite Hfm, Hfc. intros k1 Hk1 Hkp Hs. change (lock_ok l k1 (delete tid F) [m] [] []) in Hk1.
  destruct (near_running k k1 r (kp_near _ _ Hkp) Hr) as (r1 & Hr1 & Ht1 & Hp1).
  unfold reacquired. destruct (pm_interrupt_reason (pm k)) as [e|]; cbn [fmap option_fmap option_map].
  - lstep. lstep. apply (drop_wp l k1 (delete tid F) [] [] [] m); [done|]. intros l2 k2 Hk2 Hkp2 Hp2. lstep.
    splits; [done|done|transitivity k1; [apply Hkp|apply Hkp2]|by rewrite Hp2; apply Hkp|by rewrite Hp2].
  - assert ((ppid r, a, m) ∈ mutex_table (pm k1)) as Hin1 by by rewrite (kp_mutexes _ _ Hkp).
    lstep. eapply wp_mono; [apply (acquire_wp l k1 (delete tid F) r1 a m f timeout result)|]; rewrite ?Hp1, ?Ht1; try done.
    + apply Hint; [apply Hk1|apply Hkp].
    + apply lookup_delete_eq.
    + by apply Hfh.
    + intros o s' Hlk. apply (locking_mono _ _ _ _ _ (acquired k (delete tid F) (ppid r) tid a (eq f) result)) in Hlk.
      2: { intros o1 s1. apply acquired_from; [apply Hkp|apply Hkp|done|done]. }
      destruct o as [g|e|]; [lstep; by destruct g| |exact Hlk]. simpl in Hlk. lstep. eapply wp_mono; [exact Hlk|]. by intros [[]|e'|] s2.
Qed.

(** ** Condition variables *)

(** How [wait_cond] ends, from the place where it locks the mutex again. *)
Definition relocked k F pid tid c a result (o : res Error Progress) (s' : Locks * Kernel) : Prop :=
  acquired k F pid tid a (fun f => exists m : Mutex, f = InRelock a m result) result o s' \/
  (lock_ok s'.1 s'.2 F [] [] [] /\ near k s'.2 /\ held (pm s'.2) ≡ₚ held (pm k) /\ sleepers (pm s'.2) = sleepers (pm k) /\
   (o = Err too_many_mutexes \/ (o = Err cond_not_found /\ forall cv, (pid, c, cv) ∉ cond_table (pm k)))).

Lemma relocked_from k k1 F pid tid c a result o s' : near k k1 -> held (pm k1) ≡ₚ held (pm k) -> sleepers (pm k1) = sleepers (pm k) ->
  cond_table (pm k) ⊆ cond_table (pm k1) -> relocked k1 F pid tid c a result o s' -> relocked k F pid tid c a result o s'.
Proof.
  intros Hn Hh Hs Hc [Ha|(Hk & Hn' & Hh' & Hs' & Ho)]; [left; eapply acquired_from; [done..|exact (fun _ H => H)|exact Ha]|right].
  splits; [done|by transitivity k1|by rewrite Hh'|by rewrite Hs'|]. destruct Ho as [Ho|[Ho Hno]]; [by left|right].
  split; [done|]. intros cv Hin. by apply (Hno cv), Hc.
Qed.

Lemma relock_wp l k F r c a result : lock_ok l k F [] [] [] -> running (pm k) = Some r -> ppid r <> KERNEL_PID -> intact k ->
  F !! RunningProcess.get_tid r = None ->
  wp (Lock.relock c a result) (l, k) (relocked k F (ppid r) (RunningProcess.get_tid r) c a result).
Proof.
  intros Hk Hr Hne Hint HF. unfold Lock.relock. lstep. apply (release_cond_wp l k F [] [] [] r c); [done|done| |].
  2: { intros Hno. right. splits; [done|reflexivity|done|done|by right]. }
  intros l1 k1 Hk1 [Hn1 Hh1 Hs1 _]. destruct (near_running k k1 r Hn1 Hr) as (r1 & Hr1 & Ht1 & Hp1).
  lstep. apply (lookup_mutex_wp l1 k1 F [] [] [] r1 a); [done|done| |].
  2: { intros _ _. right. splits; [done|done|by cbn; rewrite Hh1|by cbn; rewrite Hs1|by left]. }
  intros l2 k2 m Hk2 Hn2 Hh2 Hs2 Hin _. assert (near k k2) as Hn by by transitivity k1.
  destruct (near_running k k2 r Hn Hr) as (r2 & Hr2 & Ht2 & Hp2). rewrite Hp1, <- Hp2 in Hin. rewrite <- Hp2, <- Ht2 in *.
  lstep. lstep. eapply wp_mono; [apply (acquire_wp l2 k2 F r2 a m (InRelock a m result) None result); try done|].
  - apply Hint; [apply Hk2|done].
  - intros o s'. apply (locking_wp a m (InRelock a m result)). intros o1 s1 Ha. left.
    eapply acquired_from; [exact Hn|by rewrite Hh2, Hh1|by rewrite Hs2| |exact Ha]. intros x <-. by exists m.
Qed.

(** [k1] is the kernel when the mutex has been released. *)
Definition cond_waited k1 F pid tid c a (o : res Error Progress) (s' : Locks * Kernel) : Prop :=
  (exists cv : Condvar, o = Ok (Blocks (InWait c a cv)) /\ lock_ok s'.1 s'.2 (<[tid := (pid, InWait c a cv)]> F) [] [] [] /\
     held (pm s'.2) ≡ₚ held (pm k1) /\ sleepers (pm s'.2) ≡ₚ tid :: sleepers (pm k1)) \/
  relocked k1 F pid tid c a (Some (Generic Condvar.alarm_expired)) o s' \/
  relocked k1 F pid tid c a (Some (Generic too_many_conds)) o s'.

Lemma wait_cond_wp l k F r c a s ns : lock_ok l k F [] [] [] -> running (pm k) = Some r -> ppid r <> KERNEL_PID -> intact k ->
  F !! RunningProcess.get_tid r = None ->
  wp (Lock.wait_cond c a s ns) (l, k) (fun o s' =>
    match Lock.decode_timeout s ns with
    | Err e => o = Err e /\ s' = (l, k)
    | Ok _ => (o = Err not_owner /\ s' = (l, k) /\ ~ holds (pm k) (ppid r) (RunningProcess.get_tid r) a) \/
        exists l1 k1, lock_ok l1 k1 F [] [] [] /\ near k k1 /\ unlocked l k (ppid r) (RunningProcess.get_tid r) a (l1, k1) /\
          cond_waited k1 F (ppid r) (RunningProcess.get_tid r) c a o s'
    | Panic => False
    end).
Proof.
  intros Hk Hr Hne Hint HF. unfold Lock.wait_cond. lstep. lstep.
  destruct (Lock.decode_timeout s ns) as [alarm|e|] eqn:Ed; [|done|].
  2: { unfold Lock.decode_timeout in Ed. by repeat case_match. }
  apply wp_bind_assoc. change (Lock.remove_mutex_guard a ≫= Lock.drop_guard) with (Lock.unlock_mutex a). lstep.
  apply (unlock_mutex_wp l k F r a); [done|done| |intros Hno; by left]. intros l1 k1 Hk1 Hn1 Hu.
  destruct (near_running k k1 r Hn1 Hr) as (r1 & Hr1 & Ht1 & Hp1). rewrite <- Hp1, <- Ht1 in *.
  eapply wp_mono with (P := cond_waited k1 F (ppid r1) (RunningProcess.get_tid r1) c a); [|intros o s' Hw; right; by exists l1, k1].
  assert (intact k1) as Hint1 by by eapply intact_near.
  unfold cond_waited. lstep. lstep. lstep. apply (lookup_cond_wp l1 k1 F [] [] [] r1 c); [done|done| |].
  2: { intros _. lstep. eapply wp_mono; [by apply (relock_wp l1 k1 F r1 c a)|]. intros o s' H. right; by right. }
  intros l2 k2 cv Hk2 [Hn2 Hh2 Hs2 _] Hin Hsub. destruct (near_running k1 k2 r1 Hn2 Hr1) as (r2 & Hr2 & Ht2 & Hp2). rewrite <- Hp2, <- Ht2 in *.
  lstep. lstep. lstep. eapply wp_mono; [apply (wait_left k2 r2 cv alarm); [apply Hk2|done|done| |apply Hk2]|].
  { apply Hint1; [apply Hk2|done]. }
  intros [[]|e|] k3; [| |done].
  - intros [Hlt Hq]. lstep. lstep. left. exists cv. destruct (inv_cond_deref _ _ _ _ _ _ _ _ _ _ cv (lk_inv _ _ _ _ _ _ Hk2)) as [n Hn].
    { rewrite !elem_of_app. right; right. left. }
    splits; [done| |rewrite <- Hh2; apply Hlt|rewrite <- Hs2; apply Hlt].
    apply (ok_left l2 k2 k3 F [] [] [] _ _ (InWait c a cv) cv); [done|done|done|by split; [|eexists]|done|done].
  - intros (-> & _ & Hp & Hm & Hg & Hc & Hx). lstep. apply (cond_drop_wp l2 k3 F [] [] [] cv).
    { apply (ok_same l2 k2); [done..| |lia]. intros q. unfold Condvar.sleeping. by rewrite Hc. }
    intros l4 k4 Hk4 Hkp4 Hp4. lstep. lstep. assert (near k2 k4) as Hn4.
    { transitivity k3; [|apply Hkp4]. apply kept_pm; [apply Hk2|done..]. }
    destruct (near_running k2 k4 r2 Hn4 Hr2) as (r4 & Hr4 & Ht4 & Hpp4). rewrite <- Hpp4, <- Ht4 in *.
    eapply wp_mono; [apply (relock_wp l4 k4 F r4 c a); try done|].
    { apply (intact_near k1); [done|by transitivity k2]. }
    intros o s' H. right; left. eapply (relocked_from k1 k4); [by transitivity k2|by rewrite Hp4, Hp, Hh2|by rewrite Hp4, Hp, Hs2|by rewrite Hp4, Hp|exact H].
Qed.

Lemma wait_cond_resume_wp l k F r c a cv : lock_ok l k F [] [] [] -> running (pm k) = Some r -> ppid r <> KERNEL_PID -> intact k ->
  F !! RunningProcess.get_tid r = Some (ppid r, InWait c a cv) ->
  RunningProcess.get_tid r ∉ Condvar.sleeping cv k \/ pm_interrupt_reason (pm k) <> None ->
  wp (Lock.wait_cond_resume (RunningProcess.get_tid r) c a cv) (l, k)
    (relocked k (delete (RunningProcess.get_tid r) F) (ppid r) (RunningProcess.get_tid r) c a (SleepInterrupted <$> pm_interrupt_reason (pm k))).
Proof.
  intros Hk Hr Hne Hint HF Hor. pose proof (lk_inv _ _ _ _ _ _ Hk) as Hl. set (tid := RunningProcess.get_tid r) in *.
  destruct (inv_cond_deref _ _ _ _ _ _ _ _ _ _ cv Hl) as [n Hn].
  { rewrite !elem_of_app. right; left. by eapply frame_conds_elem. }
  unfold Lock.wait_cond_resume. lstep. apply (wait_return_wp l k F tid (ppid r) (InWait c a cv)); [done|done|by split; [|eexists]|done|].
  intros k1 Hk1 Hkp1 Hs1. lstep. apply (cond_drop_wp l k1 (delete tid F) [] [] [] cv); [exact Hk1|]. intros l2 k2 Hk2 Hkp2 Hp2.
  assert (kept k k2) as Hkp by by eapply kept_trans. destruct (near_running k k2 r (kp_near _ _ Hkp) Hr) as (r2 & Hr2 & Ht2 & Hpp2).
  rewrite <- Hpp2 in *. unfold tid in *. rewrite <- Ht2 in *.
  eapply wp_mono; [apply (relock_wp l2 k2 (delete (RunningProcess.get_tid r2) F) r2 c a); try done|].
  - apply (intact_near k); [done|apply Hkp].
  - apply lookup_delete_eq.
  - intros o s'. apply relocked_from; [apply Hkp|apply Hkp|by rewrite Hp2|]. intros x. by rewrite (kp_conds _ _ Hkp).
Qed.

(** Waking up leaves mutexes alone. *)
Record roused k k' : Prop := {
  ro_kept : kept k k';
  ro_queues c : Condvar.sleeping c k' ⊆ Condvar.sleeping c k;
  ro_next : next_condvar k' = next_condvar k
}.

Lemma roused_refl k : good k -> roused k k.
Proof. intros Hg. constructor; [by apply kept_pm|done|done]. Qed.

Lemma roused_trans k k1 k2 : roused k k1 -> roused k1 k2 -> roused k k2.
Proof.
  intros [H1 H2 H3] [H4 H5 H6]. constructor; [by eapply kept_trans| |congruence]. intros c t Ht. by apply H2, H5.
Qed.

Lemma set_sleeping_roused k cv q : good k -> q ⊆ Condvar.sleeping cv k -> roused k (PM.with_condvars (<[cv := q]> (condvars k)) k).
Proof.
  intros Hg Hq. constructor; [by apply kept_pm| |done]. intros c. unfold Condvar.sleeping at 1. cbn.
  destruct (decide (c = cv)) as [->|Hne]; [by rewrite lookup_insert_eq|by rewrite lookup_insert_ne].
Qed.

Lemma notify_loop_roused cv q n e k : good k -> q ⊆ Condvar.sleeping cv k ->
  wp (Condvar.notify_loop cv q n e) k (fun o k' => is_ok o = true /\ roused k k').
Proof.
  revert n e k. induction q as [|t q IH]; intros n e k Hg Hq; cbn [Condvar.notify_loop].
  { wstep. split; [done|by apply roused_refl]. }
  unfold Condvar.set_sleeping. wstep. wstep. set (k1 := PM.with_condvars _ k).
  assert (roused k k1) as Hr1 by (apply set_sleeping_roused; [done|set_solver]). assert (Condvar.sleeping cv k1 = q) as Hq1.
  { unfold Condvar.sleeping. cbn. by rewrite lookup_insert_eq. }
  wstep. wstep. wstep. eapply wp_mono; [apply (wakeup_kept t k1), Hr1|]. intros o k2 (Ho & Hk & Hc & Hx & _).
  assert (roused k k2) as Hr2.
  { eapply roused_trans; [exact Hr1|]. constructor; [done| |done]. intros c. unfold Condvar.sleeping. by rewrite Hc. }
  assert (forall n' e', wp (Condvar.notify_loop cv q n' e') k2 (fun o k' => is_ok o = true /\ roused k k')) as Hend.
  { intros n' e'. eapply wp_mono; [apply IH; [apply Hr2|]|].
    - unfold Condvar.sleeping. rewrite Hc. fold (Condvar.sleeping cv k1). by rewrite Hq1.
    - intros o' k3 [Ho' Hr3]. split; [done|by eapply roused_trans]. }
  destruct o as [[]|e'|]; [wstep|wstep|done]; apply Hend.
Qed.

Lemma notify_roused (broadcast : bool) cv k : good k ->
  wp (if broadcast then Condvar.notify_all cv else Condvar.notify_first cv) k (fun o k' => o <> Panic /\ roused k k').
Proof.
  intros Hg. destruct broadcast.
  - unfold Condvar.notify_all. wstep. wstep. wstep. eapply wp_mono; [by apply (notify_loop_roused cv (Condvar.sleeping cv k))|].
    intros [[n [e|]]|e|] k' [Ho Hr]; [..|done]; [|by wstep|done]. destruct (n =? 0); by wstep.
  - apply notify_first_wp; [done|]. intros o k' Ho Hk Hq Hx _. split; [done|by constructor].
Qed.

Lemma ok_roused l k k' F T G D : lock_ok l k F T G D -> roused k k' -> lock_ok l k' F T G D.
Proof. intros Hk [H1 H2 H3]. eapply ok_kept; [done..|lia]. Qed.

Lemma signal_cond_wp l k F r c broadcast : lock_ok l k F [] [] [] -> running (pm k) = Some r ->
  wp (Lock.signal_cond c broadcast) (l, k) (fun o s' => o <> Panic /\ lock_ok s'.1 s'.2 F [] [] [] /\ near k s'.2 /\
    held (pm s'.2) ≡ₚ held (pm k) /\ mutex_table (pm s'.2) ≡ₚ mutex_table (pm k)).
Proof.
  intros Hk Hr. unfold Lock.signal_cond. lstep. apply (lookup_cond_wp l k F [] [] [] r c); [done|done| |].
  2: { intros _. splits; try done; reflexivity. }
  intros l1 k1 cv Hk1 [Hn1 Hh1 _ Hm1] _ _. lstep. lstep. lstep. eapply wp_mono; [apply (notify_roused broadcast cv), Hk1|].
  intros o k2 [Ho Hro]. pose proof (ok_roused _ _ _ _ _ _ _ Hk1 Hro) as Hk2. destruct Hro as [Hkp2 _ _].
  assert (near k k2) as Hn2 by (transitivity k1; [done|apply Hkp2]).
  destruct o as [n|e|]; [| |done].
  - lstep. apply (cond_drop_wp l1 k2 F [] [] [] cv); [done|]. intros l3 k3 Hk3 Hkp3 Hp3.
    assert (near k k3) as Hn3 by (transitivity k2; [done|apply Hkp3]). destruct (near_running k k3 r Hn3 Hr) as (r3 & Hr3 & _ & _).
    assert (held (pm k3) ≡ₚ held (pm k) /\ mutex_table (pm k3) ≡ₚ mutex_table (pm k)) as [Hh3 Hm3].
    { by rewrite Hp3, (kp_held _ _ Hkp2), Hh1, (kp_mutexes _ _ Hkp2), Hm1. }
    lstep. apply (release_cond_wp l3 k3 F [] [] [] r3 c); [done|done| |].
    + intros l4 k4 Hk4 [Hn4 Hh4 _ Hm4]. lstep. splits; [done|done|by transitivity k3|by rewrite Hh4|by rewrite Hm4].
    + intros _. splits; done.
  - lstep. apply (cond_drop_wp l1 k2 F [] [] [] cv); [done|]. intros l3 k3 Hk3 Hkp3 Hp3. lstep.
    splits; [done|done|transitivity k2; [done|apply Hkp3]|..]; cbn; rewrite Hp3.
    + by rewrite (kp_held _ _ Hkp2), Hh1.
    + by rewrite (kp_mutexes _ _ Hkp2), Hm1.
Qed.

(** ** The calls as a system *)

(** The mutexes, the kernel, and the calls that are blocked. *)
Record LockWorld := mkLockWorld { lw_locks : Locks; lw_k : Kernel; lw_frames : Frames }.

Inductive LockCall :=
| CLock (mutex_addr timeout_s timeout_ns : Z)
| CUnlock (mutex_addr : Z)
| CWait (cond_addr mutex_addr timeout_s timeout_ns : Z)
| CSignal (cond_addr : Z) (broadcast : bool)
| CResume (frame : Frame).

Definition run_lock (tid : ThreadIdentifier) (c : LockCall) : M (Locks * Kernel) Error Progress :=
  match c with
  | CLock a s ns => Lock.lock_mutex a s ns
  | CUnlock a => Lock.unlock_mutex a;; mret (Done None)
  | CWait c a s ns => Lock.wait_cond c a s ns
  | CSignal c b => Lock.signal_cond c b;; mret (Done None)
  | CResume f => Lock.resume tid f
  end.

(** The running thread is one of a user process and its stack is intact.  It makes a call, or
    it goes on with the one in which it was blocked, when it has been notified or interrupted. *)
Definition may_call (w : LockWorld) (r : RunningProcess) (c : LockCall) : Prop :=
  running (pm (lw_k w)) = Some r /\ ppid r <> KERNEL_PID /\ intact (lw_k w) /\
  match c with
  | CResume f => lw_frames w !! RunningProcess.get_tid r = Some (ppid r, f) /\
      ((forall cv, waits_on (lw_locks w) f cv -> RunningProcess.get_tid r ∉ Condvar.sleeping cv (lw_k w)) \/
       pm_interrupt_reason (pm (lw_k w)) <> None)
  | _ => lw_frames w !! RunningProcess.get_tid r = None
  end.

(** The blocked calls afterwards. *)
Definition frames_after tid pid (c : LockCall) (o : res Error Progress) (F : Frames) : Frames :=
  let F := match c with CResume _ => delete tid F | _ => F end in
  match o with Ok (Blocks f) => <[tid := (pid, f)]> F | _ => F end.

Definition lock_exec (r : RunningProcess) (c : LockCall) (w : LockWorld) : LockWorld :=
  let tid := RunningProcess.get_tid r in
  let '(o, (l, k)) := run_lock tid c (lw_locks w, lw_k w) in
  mkLockWorld l k (frames_after tid (ppid r) c o (lw_frames w)).

(** What the rest of the kernel does: it leaves the tables, the guards and the queues of
    mutexes and condition variables alone, and no thread that ends holds a guard. *)
Record elsewhere (w : LockWorld) (k' : Kernel) : Prop := {
  el_good : good k';
  el_reapable : reapable (pm k');
  el_mutexes : mutex_table (pm k') ≡ₚ mutex_table (pm (lw_k w));
  el_conds : cond_table (pm k') ≡ₚ cond_table (pm (lw_k w));
  el_held : held (pm k') ≡ₚ held (pm (lw_k w));
  el_queues cv : queue_of (lw_locks w) cv -> Condvar.sleeping cv k' ⊆ Condvar.sleeping cv (lw_k w);
  el_next : next_condvar (lw_k w) <= next_condvar k'
}.

Definition no_locks : Locks := mkLocks ∅ 0 ∅.

Inductive lock_reachable : LockWorld → Prop :=
| lr_init k : good k -> reapable (pm k) -> mutex_table (pm k) = [] -> cond_table (pm k) = [] -> held (pm k) = [] ->
    lock_reachable (mkLockWorld no_locks k ∅)
| lr_call w r c : lock_reachable w -> may_call w r c -> lock_reachable (lock_exec r c w)
| lr_other w k' : lock_reachable w -> elsewhere w k' -> lock_reachable (mkLockWorld (lw_locks w) k' (lw_frames w)).

Definition locks_sound (w : LockWorld) : Prop := lock_ok (lw_locks w) (lw_k w) (lw_frames w) [] [] [].

Lemma no_locks_ok k : good k -> reapable (pm k) -> mutex_table (pm k) = [] -> cond_table (pm k) = [] -> held (pm k) = [] ->
  locks_sound (mkLockWorld no_locks k ∅).
Proof.
  intros Hg Hr Hm Hc Hh. constructor; [done|done|]. cbn. rewrite Hm, Hc, Hh.
  constructor; unfold strong, ccount, inner_of; cbn; rewrite ?lookup_empty; try done; intros *;
    rewrite ?lookup_empty; try done; try (by intros ?%elem_of_nil); by intros [].
Qed.

(** How a call leaves the world. *)
Definition call_sound (w : LockWorld) r c (o : res Error Progress) (s' : Locks * Kernel) : Prop :=
  o <> Panic /\ lock_ok s'.1 s'.2 (frames_after (RunningProcess.get_tid r) (ppid r) c o (lw_frames w)) [] [] [].

Lemma acquired_ok k F pid tid a f result o s' : acquired k F pid tid a f result o s' ->
  o <> Panic /\ lock_ok s'.1 s'.2 (match o with Ok (Blocks f) => <[tid := (pid, f)]> F | _ => F end) [] [] [].
Proof. destruct o as [[x|x]|e|]; simpl; [| | |done]; by intros (? & ? & ?). Qed.

Lemma relocked_ok k F pid tid c a result o s' : relocked k F pid tid c a result o s' ->
  o <> Panic /\ lock_ok s'.1 s'.2 (match o with Ok (Blocks f) => <[tid := (pid, f)]> F | _ => F end) [] [] [].
Proof. intros [H|(Hk & _ & _ & _ & [-> |[-> _]])]; [by eapply acquired_ok|done..]. Qed.

Lemma resume_frame_ok w r f : locks_sound w -> may_call w r (CResume f) ->
  wp (Lock.resume (RunningProcess.get_tid r) f) (lw_locks w, lw_k w) (call_sound w r (CResume f)).
Proof.
  intros Hw (Hr & Hne & Hint & HF & Hor). unfold call_sound, frames_after. destruct f as [a m timeout|c a cv|a m result]; cbn [Lock.resume].
  - eapply wp_mono; [apply (reacquire_wp _ _ _ r a m _ timeout None Hw Hr Hne Hint HF); [by left|done]|].
    intros o s'. unfold reacquired. destruct (pm_interrupt_reason _); [intros (-> & ? & _); by split|apply acquired_ok].
  - eapply wp_mono; [apply (wait_cond_resume_wp _ _ _ r c a cv Hw Hr Hne Hint HF)|intros o s'; apply relocked_ok].
    destruct Hor as [Hor|]; [left|by right]. apply Hor. split; [done|].
    eapply inv_cond_deref; [apply Hw|]. rewrite !elem_of_app. right; left. by eapply frame_conds_elem.
  - eapply wp_mono; [apply (reacquire_wp _ _ _ r a m _ None result Hw Hr Hne Hint HF); [by right|done]|].
    intros o s'. unfold reacquired. destruct (pm_interrupt_reason _); [intros (-> & ? & _); by split|apply acquired_ok].
Qed.

Lemma run_lock_ok w r c : locks_sound w -> may_call w r c ->
  wp (run_lock (RunningProcess.get_tid r) c) (lw_locks w, lw_k w) (call_sound w r c).
Proof.
  intros Hw Hc. destruct c as [a s ns|a|c a s ns|c b|f]; cbn [run_lock]; [..|by apply resume_frame_ok]; destruct Hc as (Hr & Hne & Hint & HF);
    unfold call_sound, frames_after.
  - eapply wp_mono; [apply (lock_mutex_wp _ _ _ r a s ns Hw Hr Hne Hint HF)|]. intros o s'.
    destruct (Lock.decode_timeout s ns); [|intros [-> ->]; by split|done].
    intros [Ha|(-> & -> & _)]; [by eapply acquired_ok|by split].
  - lstep. apply (unlock_mutex_wp _ _ _ r a _ Hw Hr); [|intros _; by split]. intros l' k' Hk _ _. lstep. by split.
  - eapply wp_mono; [apply (wait_cond_wp _ _ _ r c a s ns Hw Hr Hne Hint HF)|]. intros o s'.
    destruct (Lock.decode_timeout s ns); [|intros [-> ->]; by split|done].
    intros [(-> & -> & _)|(l1 & k1 & _ & _ & _ & [(cv & -> & Hk & _)|[H|H]])]; [by split|by split|by eapply relocked_ok..].
  - lstep. eapply wp_mono; [by apply (signal_cond_wp _ _ _ r c b Hw Hr)|]. intros [n|e|] s' (Ho & Hk & _); [lstep|..]; by split.
Qed.

Lemma lock_reachable_ok w : lock_reachable w -> locks_sound w.
Proof.
  induction 1 as [k Hg Hr Hm Hc Hh|w r c _ IH Hc|w k' _ IH Ho].
  - by apply no_locks_ok.
  - pose proof (run_lock_ok w r c IH Hc) as H. unfold wp in H. unfold lock_exec. destruct (run_lock _ c _) as [o [l k]]. apply H.
  - destruct IH as [_ _ Hl], Ho. constructor; [done|done|]. by eapply inv_around.
Qed.

(** Sleeping elsewhere, waking up and giving up the processor do not concern mutexes. *)
Lemma sleep_elsewhere w r a : locks_sound w -> running (pm (lw_k w)) = Some r -> ppid r <> KERNEL_PID -> guarded (lw_k w) ->
  elsewhere w (Sched.sleep a (lw_k w)).2.
Proof.
  intros [Hg Hre _] Hr Hne Hgd. destruct (sleep_left (lw_k w) r a Hg Hr Hne Hgd Hre) as (_ & [] & Hc).
  constructor; try done; [|lia]. intros cv _. unfold Condvar.sleeping. by rewrite Hc.
Qed.

Lemma wakeup_elsewhere w tid : locks_sound w -> elsewhere w (Sched.wakeup tid (lw_k w)).2.
Proof.
  intros [Hg Hre _]. destruct (wakeup_kept tid (lw_k w) Hg) as (_ & [Hg' Hn Hm Hct Hh] & Hc & Hx & _). constructor; try done; [| |lia].
  - unfold reapable. by rewrite (nr_deferred _ _ Hn).
  - intros cv _. unfold Condvar.sleeping. by rewrite Hc.
Qed.

Lemma giveup_elsewhere w : locks_sound w -> guarded (lw_k w) -> elsewhere w (Sched.giveup (lw_k w)).2.
Proof.
  intros [Hg Hre _] Hgd. destruct (giveup_lists (lw_k w) Hg Hgd Hre) as (Hg' & Hre' & Hm & Hc & Hh & Hcv & Hx). constructor; try done; [|lia].
  intros cv _. unfold Condvar.sleeping. by rewrite Hcv.
Qed.
End MutexCalls.
