(* ===== verification/MutexClaims.v ===== *)
(** * Mutexes: the theorems

    What the calls on mutexes and condition variables guarantee, in terms of which thread
    holds which mutex, and a run of the sample system in which a wakeup is lost. *)

From S2P Require Import Prelude Error Config Addr NonEmpty Mailbox UserSpace VirtMem Str Thread Process.
From S2P Require Import ProcessView Pending ProcManager ManagerInv Scheduler ManagerOps.
From S2P Require Import ManagerState ManagerReap EntryPoints Footprint EntrySpec Mail System Sample Guarantees.
From S2P Require Import Mutex MutexInv MutexView MutexSpec MutexCalls.
#[local] Open Scope Z_scope.

Section MutexClaims.
Context {CF : Config} {HC : ConfigOk} {VM : VirtMem} {CK : Clock} {LC : LockConfig}.
Implicit Types (w : LockWorld) (r : RunningProcess).

Lemma holds_perm p p' pid t a : held p' ≡ₚ held p -> holds p' pid t a <-> holds p pid t a.
Proof. intros Hh. unfold holds. by setoid_rewrite Hh. Qed.

Lemma holds_cons p p' pid t a (m : Mutex) pid' t' a' : held p' ≡ₚ (pid, t, a, m) :: held p ->
  holds p' pid' t' a' <-> (pid', t', a') = (pid, t, a) \/ holds p pid' t' a'.
Proof.
  intros Hh. unfold holds. setoid_rewrite Hh. setoid_rewrite elem_of_cons. split.
  - intros [m' [[= -> -> -> ->]|Hin]]; [by left|right; by exists m'].
  - intros [[= -> -> ->]|[m' Hin]]; [exists m; by left|exists m'; by right].
Qed.


(** C13: Locking a mutex that nobody holds makes the caller hold it, and changes nothing else about
    who holds what.  If somebody holds it, be it the caller, the caller sleeps, or the call
    fails because the time is over.  Other errors are an invalid time and a full table. *)
Theorem lock_spec w r a s ns : lock_reachable w -> may_call w r (CLock a s ns) ->
  let k := lw_k w in let pid := ppid r in let tid := RunningProcess.get_tid r in
  wp (Lock.lock_mutex a s ns) (lw_locks w, k) (fun o s' =>
    match o with
    | Ok (Done x) => x = None /\ unheld (pm k) pid a /\
        forall pid' t a', holds (pm s'.2) pid' t a' <-> (pid', t, a') = (pid, tid, a) \/ holds (pm k) pid' t a'
    | Ok (Blocks _) => ~ unheld (pm k) pid a /\ sleeps tid (pm s'.2) /\ forall pid' t a', holds (pm s'.2) pid' t a' <-> holds (pm k) pid' t a'
    | Err e => (forall pid' t a', holds (pm s'.2) pid' t a' <-> holds (pm k) pid' t a') /\
        (Lock.decode_timeout s ns = Err e \/ (MUTEX_OPEN_MAX <= size (mutexes (rp_state r)))%nat \/
         ~ unheld (pm k) pid a /\ e = Condvar.alarm_expired)
    | Panic => False
    end).
Proof.
  intros Hw%lock_reachable_ok (Hr & Hne & Hint & HF). cbv zeta. eapply wp_mono; [by apply (lock_mutex_wp _ _ _ r a s ns Hw)|].
  intros o s'. destruct (Lock.decode_timeout s ns) as [timeout|e|]; [| |done].
  2: { intros [-> ->]. split; [done|by left]. }
  intros [Ha|(-> & -> & _ & Hsz)]; [|split; [done|by right; left]]. destruct o as [[x|x]|e|]; simpl in Ha; [| | |done].
  - destruct Ha as (-> & _ & _ & Hu & [m Hm] & _). splits; [done|done|]. intros. by eapply holds_cons.
  - destruct Ha as (_ & _ & Hu & Hm & Hs). splits; [done| |intros; by apply holds_perm].
    rewrite <- elem_of_sleepers, Hs. left.
  - destruct Ha as (-> & _ & _ & Hu & Hm & _). split; [intros; by apply holds_perm|]. right; by right.
Qed.

(** C14: Only the holder of a mutex can unlock it.  Then nobody holds it, and nothing else about who
    holds what changes; the first thread in the queue of the mutex wakes up if it sleeps,
    otherwise no thread does. *)
Theorem unlock_spec w r a : lock_reachable w -> running (pm (lw_k w)) = Some r ->
  let k := lw_k w in let pid := ppid r in let tid := RunningProcess.get_tid r in
  wp (Lock.unlock_mutex a) (lw_locks w, k) (fun o s' =>
    match o with
    | Ok _ => holds (pm k) pid tid a /\ unheld (pm s'.2) pid a /\
        (forall pid' t a', (pid', a') <> (pid, a) -> holds (pm s'.2) pid' t a' <-> holds (pm k) pid' t a') /\
        exists (m : Mutex) i, (pid, tid, a, m) ∈ held (pm k) /\ inner_of (lw_locks w) m = Some i /\
          passed_on (Condvar.sleeping (mx_sleeping i) k) (pm k) (pm s'.2)
    | Err e => ~ holds (pm k) pid tid a /\ e = not_owner /\ s' = (lw_locks w, k)
    | Panic => False
    end).
Proof.
  intros Hw%lock_reachable_ok Hr. cbv zeta. apply (unlock_mutex_wp _ _ (lw_frames w) r a _ Hw Hr); [|done].
  intros l' k' Hk Hn (m & i & Hi & Hh & _ & Hpa). cbn [fst snd] in *.
  assert ((ppid r, RunningProcess.get_tid r, a, m) ∈ held (pm (lw_k w))) as Hin by (rewrite Hh; left).
  splits; [by exists m| | |by exists m, i].
  - intros t [m' Hm']. by eapply (guard_once _ _ _ _ _ _ _ _ _ _ _ Hw Hh).
  - intros pid' t a' Hne. rewrite (holds_cons _ _ _ _ _ _ _ _ _ Hh). split; [by right|]. intros [[= -> -> ->]|]; done.
Qed.

(** The mutex that a call is about. *)
Definition call_address (c : LockCall) : option Z :=
  match c with
  | CLock a _ _ | CWait _ a _ _ | CResume (InLock a _ _) | CResume (InWait _ a _) | CResume (InRelock a _ _) => Some a
  | _ => None
  end.

Lemma acquired_holds k F pid tid a f result o s' : acquired k F pid tid a f result o s' ->
  o = Ok (Done None) -> holds (pm s'.2) pid tid a.
Proof. intros H ->. destruct H as (_ & _ & _ & _ & [m Hm] & _). exists m. rewrite Hm. left. Qed.

Lemma relocked_holds k F pid tid c a result o s' : relocked k F pid tid c a result o s' ->
  o = Ok (Done None) -> holds (pm s'.2) pid tid a.
Proof. intros [H|(_ & _ & _ & _ & [-> |[-> _]])]; [by eapply acquired_holds|done..]. Qed.

(** C19: Whenever locking a mutex or waiting on a condition succeeds, at once or after the thread was
    blocked, the thread holds the mutex that it asked for. *)
Theorem success_means_held w r c a : lock_reachable w -> may_call w r c -> call_address c = Some a ->
  wp (run_lock (RunningProcess.get_tid r) c) (lw_locks w, lw_k w) (fun o s' =>
    o = Ok (Done None) -> holds (pm s'.2) (ppid r) (RunningProcess.get_tid r) a).
Proof.
  intros Hw%lock_reachable_ok (Hr & Hne & Hint & Hc) Ha. destruct c as [b s ns|b|c b s ns|c b|f]; try done; cbn [run_lock].
  - injection Ha as ->. eapply wp_mono; [by apply (lock_mutex_wp _ _ _ r a s ns Hw)|]. intros o s'.
    destruct (Lock.decode_timeout s ns); [|by intros [-> _]|done]. intros [H|(-> & _)]; [by eapply acquired_holds|done].
  - injection Ha as ->. eapply wp_mono; [by apply (wait_cond_wp _ _ _ r c a s ns Hw)|]. intros o s'.
    destruct (Lock.decode_timeout s ns); [|by intros [-> _]|done].
    intros [(-> & _)|(l1 & k1 & _ & _ & _ & [(cv & -> & _)|[H|H]])]; [done|done|by eapply relocked_holds..].
  - destruct Hc as [HF Hor]. destruct f as [b m timeout|c b cv|b m result]; injection Ha as ->; cbn [Lock.resume].
    + eapply wp_mono; [apply (reacquire_wp _ _ _ r a m _ timeout None Hw Hr Hne Hint HF); [by left|done]|].
      intros o s'. unfold reacquired. destruct (pm_interrupt_reason _); [by intros (-> & _)|apply acquired_holds].
    + eapply wp_mono; [apply (wait_cond_resume_wp _ _ _ r c a cv Hw Hr Hne Hint HF)|intros o s'; apply relocked_holds].
      destruct Hor as [Hor|]; [left|by right]. apply Hor. split; [done|].
      eapply inv_cond_deref; [apply Hw|]. rewrite !elem_of_app. right; left. by eapply frame_conds_elem.
    + eapply wp_mono; [apply (reacquire_wp _ _ _ r a m _ None result Hw Hr Hne Hint HF); [by right|done]|].
      intros o s'. unfold reacquired. destruct (pm_interrupt_reason _); [by intros (-> & _)|apply acquired_holds].
Qed.

(** C36: When the first thread in the queue of a mutex does not sleep any more, since its time is
    over, unlocking wakes up nobody: the mutex is free, and every other thread in the queue
    goes on sleeping. *)
Theorem unlock_wakes_nobody w r a (m : Mutex) i t q : lock_reachable w -> running (pm (lw_k w)) = Some r ->
  (ppid r, RunningProcess.get_tid r, a, m) ∈ held (pm (lw_k w)) -> inner_of (lw_locks w) m = Some i ->
  Condvar.sleeping (mx_sleeping i) (lw_k w) = t :: q -> ~ sleeps t (pm (lw_k w)) ->
  wp (Lock.unlock_mutex a) (lw_locks w, lw_k w) (fun o s' =>
    o = Ok tt /\ unheld (pm s'.2) (ppid r) a /\ forall u, sleeps u (pm s'.2) <-> sleeps u (pm (lw_k w))).
Proof.
  intros Hw%lock_reachable_ok Hr Hin Hi Hq Hs. apply (unlock_mutex_wp _ _ (lw_frames w) r a _ Hw Hr).
  2: { intros Hno. destruct Hno. by exists m. }
  intros l' k' Hk Hn (m' & i' & Hi' & Hh & _ & Hpa). cbn [fst snd] in *.
  assert (m' = m) as ->.
  { eapply (mutex_table_fun (pm (lw_k w))); [apply Hw|eapply li_home; [apply Hw|rewrite Hh; left]|eapply li_home; [apply Hw|exact Hin]]. }
  rewrite Hi in Hi'. injection Hi' as <-. rewrite Hq in Hpa. unfold passed_on in Hpa.
  rewrite decide_False in Hpa by by rewrite elem_of_sleepers. splits; [done| |].
  - intros u [m' Hm']. by eapply (guard_once _ _ _ _ _ _ _ _ _ _ _ Hw Hh).
  - intros u. by rewrite <- !elem_of_sleepers, Hpa.
Qed.
End MutexClaims.

(** ** The sample system *)
Section Witnesses.
#[local] Existing Instance sample_config.
#[local] Existing Instance sample_config_ok.
#[local] Existing Instance sample_virt_mem.
#[local] Existing Instance sample_clock.
#[local] Instance sample_locks : LockConfig := {| MUTEX_OPEN_MAX := 4; COND_OPEN_MAX := 4 |}.

(** Process 1 has three threads, of which the first runs. *)
Definition crew : list Op := one_process ++ [OpCreateThread 1 thread_args; OpCreateThread 1 thread_args].
Definition crew_world : LockWorld := mkLockWorld no_locks (run crew boot) ∅.

Definition call (c : LockCall) w : LockWorld :=
  match running (pm (lw_k w)) with Some r => lock_exec r c w | None => w end.
Definition giving_up w : LockWorld := mkLockWorld (lw_locks w) (Sched.giveup (lw_k w)).2 (lw_frames w).
Definition napping a w : LockWorld := mkLockWorld (lw_locks w) (Sched.sleep a (lw_k w)).2 (lw_frames w).
Definition forever : Z := usize_max.

Lemma crew_allowed : all_allowed crew boot.
Proof.
  unfold crew, one_process. cbn [app all_allowed]. splits; [apply new_process_allowed|apply sample_guarded|..|exact I];
    vm_compute; repeat split; discriminate.
Qed.

#[local] Opaque run boot.

Lemma crew_reachable : lock_reachable crew_world.
Proof.
  apply lr_init; [apply run_good, crew_allowed| | | |]; [|vm_compute; reflexivity..].
  unfold reapable. assert (deferred_reap (pm (run crew boot)) = []) as -> by (vm_compute; reflexivity). constructor.
Qed.

Definition fresh_call (c : LockCall) : bool := match c with CResume _ => false | _ => true end.

Lemma sample_may w c tid pid : run_key <$> running (pm (lw_k w)) = Some (tid, pid) -> pid <> 0 ->
  fresh_call c = true -> lw_frames w !! tid = None -> exists r, running (pm (lw_k w)) = Some r /\ ppid r = pid /\
    RunningProcess.get_tid r = tid /\ may_call w r c.
Proof.
  intros Hk Hne Hf HF. destruct (running_key _ _ _ Hk) as (r & Hr & <- & <-). exists r. splits; [done..|].
  unfold may_call. splits; [done..|by intros k1 _ _; apply sample_guarded|by destruct c].
Qed.

Lemma sample_call w c tid pid : lock_reachable w -> run_key <$> running (pm (lw_k w)) = Some (tid, pid) -> pid <> 0 ->
  fresh_call c = true -> lw_frames w !! tid = None -> lock_reachable (call c w).
Proof.
  intros Hw Hk Hne Hf HF. destruct (sample_may w c tid pid Hk Hne Hf HF) as (r & Hr & _ & _ & Hm). unfold call. rewrite Hr.
  by apply lr_call.
Qed.

Lemma sample_giveup w : lock_reachable w -> lock_reachable (giving_up w).
Proof. intros Hw. apply lr_other; [done|]. apply giveup_elsewhere; [by apply lock_reachable_ok|apply sample_guarded]. Qed.

Lemma sample_nap w a tid pid : lock_reachable w -> run_key <$> running (pm (lw_k w)) = Some (tid, pid) -> pid <> 0 ->
  lock_reachable (napping a w).
Proof.
  intros Hw Hk Hne. destruct (running_key _ _ _ Hk) as (r & Hr & Hp & _). apply lr_other; [done|].
  apply (sleep_elsewhere w r); [by apply lock_reachable_ok|done|by rewrite Hp|apply sample_guarded].
Qed.

(** Thread 1 holds the mutex at 100 and sleeps until time 20; thread 2 waits for the mutex
    until the same time, thread 3 waits for ever. *)
Definition world_1 : LockWorld := call (CLock 100 forever forever) crew_world.
Definition world_2 : LockWorld := call (CLock 100 0 20) (giving_up (napping (Some 20) world_1)).
Definition world_3 : LockWorld := call (CLock 100 forever forever) world_2.
(** The time is over, and thread 1 runs. *)
Definition world_4 : LockWorld := Nat.iter 6 giving_up world_3.

Lemma world_1_reachable : lock_reachable world_1.
Proof. apply (sample_call crew_world _ 1 1); [apply crew_reachable|vm_compute; reflexivity|done|done|vm_compute; reflexivity]. Qed.

Lemma world_2_reachable : lock_reachable world_2.
Proof.
  apply (sample_call _ _ 2 1); [|vm_compute; reflexivity|done|done|vm_compute; reflexivity].
  apply sample_giveup, (sample_nap _ _ 1 1); [apply world_1_reachable|vm_compute; reflexivity|done].
Qed.

Lemma world_4_reachable : lock_reachable world_4.
Proof.
  unfold world_4. do 6 (cbn [Nat.iter nat_rect]; apply sample_giveup).
  apply (sample_call _ _ 3 1); [apply world_2_reachable|vm_compute; reflexivity|done|done|vm_compute; reflexivity].
Qed.


Lemma lock_spec_witness : let s' := (Lock.lock_mutex 100 forever forever (lw_locks crew_world, lw_k crew_world)).2 in
  unheld (pm (lw_k crew_world)) 1 100 /\ holds (pm s'.2) 1 1 100.
Proof.
  destruct (sample_may crew_world (CLock 100 forever forever) 1 1) as (r & Hr & Hp & Ht & Hm); [vm_compute; reflexivity|done|done|vm_compute; reflexivity|].
  pose proof (lock_spec crew_world r 100 forever forever crew_reachable Hm) as H. rewrite Hp, Ht in H. unfold wp in H.
  assert ((Lock.lock_mutex 100 forever forever (lw_locks crew_world, lw_k crew_world)).1 = Ok (Done None)) as Ho by (vm_compute; reflexivity).
  rewrite Ho in H. destruct H as (_ & Hu & Hh). split; [exact Hu|]. apply Hh. left. reflexivity.
Defined.

Lemma unlock_spec_witness : let s' := (Lock.unlock_mutex 100 (lw_locks world_1, lw_k world_1)).2 in unheld (pm s'.2) 1 100.
Proof.
  destruct (running_key (lw_k world_1) 1 1) as (r & Hr & Hp & Ht); [vm_compute; reflexivity|].
  pose proof (unlock_spec world_1 r 100 world_1_reachable Hr) as H. rewrite Hp, Ht in H. unfold wp in H.
  assert ((Lock.unlock_mutex 100 (lw_locks world_1, lw_k world_1)).1 = Ok tt) as Ho by (vm_compute; reflexivity).
  rewrite Ho in H. exact (proj1 (proj2 H)).
Defined.

Lemma success_means_held_witness : let s' := (Lock.lock_mutex 100 forever forever (lw_locks crew_world, lw_k crew_world)).2 in
  holds (pm s'.2) 1 1 100.
Proof.
  destruct (sample_may crew_world (CLock 100 forever forever) 1 1) as (r & Hr & Hp & Ht & Hm); [vm_compute; reflexivity|done|done|vm_compute; reflexivity|].
  pose proof (success_means_held crew_world r _ 100 crew_reachable Hm eq_refl) as H. rewrite Hp, Ht in H. apply H. vm_compute. reflexivity.
Defined.

(** Thread 1 unlocks the mutex before thread 2 has noticed that its time is over: thread 3
    sleeps on, and nobody holds the mutex. *)
Lemma unlock_wakes_nobody_witness : let s' := (Lock.unlock_mutex 100 (lw_locks world_4, lw_k world_4)).2 in
  unheld (pm s'.2) 1 100 /\ sleeps 3 (pm s'.2).
Proof.
  destruct (running_key (lw_k world_4) 1 1) as (r & Hr & Hp & Ht); [vm_compute; reflexivity|].
  pose proof (unlock_wakes_nobody world_4 r 100 0 (mkMutexInner true 4) 2 [3] world_4_reachable Hr) as H. rewrite Hp, Ht in H.
  destruct H as (_ & Hu & Hs).
  - vm_compute. left.
  - vm_compute. reflexivity.
  - vm_compute. reflexivity.
  - rewrite <- elem_of_sleepers. vm_compute. intros Hin. inversion Hin as [|? ? ? Hin']; inversion Hin'.
  - split; [exact Hu|]. apply Hs. rewrite <- elem_of_sleepers. vm_compute. left.
Defined.
End Witnesses.
