(* ===== verification/Time.v ===== *)
(** * Instants

    [libs/sys/src/sys/time/mod.rs]: a number of seconds and one of nanoseconds, with the
    arithmetic on them.  The rest of the development keeps an instant as the number of its
    nanoseconds, which [cmp_spec] justifies: instants compare as these numbers do. *)

From S2P Require Import Prelude.
#[local] Open Scope Z_scope.

Module Time.

Definition NANOSECONDS_PER_SECOND : Z := 1000000000.
Definition u64_max : Z := 2 ^ 64 - 1.

Record SystemTime := mkSystemTime { seconds : Z; nanoseconds : Z }.

(** [core::time::Duration], whose nanoseconds are less than a second. *)
Record Duration := mkDuration { as_secs : Z; subsec_nanos : Z }.

Definition EPOCH : SystemTime := mkSystemTime 0 0.

Definition new (seconds nanoseconds : Z) : option SystemTime :=
  if NANOSECONDS_PER_SECOND <=? nanoseconds then None else Some (mkSystemTime seconds nanoseconds).

(** [Duration::new] carries whole seconds over, and panics when they overflow. *)
Definition duration_new {E} (secs nanos : Z) : res E Duration :=
  let s := secs + nanos / NANOSECONDS_PER_SECOND in
  if s <=? u64_max then Ok (mkDuration s (nanos mod NANOSECONDS_PER_SECOND)) else Panic.

Definition u64_checked_add (a b : Z) : option Z := if a + b <=? u64_max then Some (a + b) else None.
Definition u32_checked_add (a b : Z) : option Z := if a + b <=? u32_max then Some (a + b) else None.

(** The case in which [self] does not begin before [earlier]. *)
Definition sub_from (self earlier : SystemTime) : res Duration Duration :=
  s ← usize_sub (seconds self) (seconds earlier);
  if nanoseconds earlier <=? nanoseconds self then
    n ← usize_sub (nanoseconds self) (nanoseconds earlier);
    duration_new s n
  else
    n ← usize_sub (nanoseconds earlier) (nanoseconds self);
    adjusted_seconds ← usize_sub s 1;
    n ← usize_sub NANOSECONDS_PER_SECOND n;
    duration_new adjusted_seconds n.

(** [Result::Ok] and [Result::Err] exchanged. *)
Definition swap {A} (r : res A A) : res A A :=
  match r with Ok d => Err d | Err d => Ok d | Panic => Panic end.

(** The recursive call has its arguments exchanged, and so takes the first branch. *)
Definition checked_sub (self earlier : SystemTime) : res Duration Duration :=
  if seconds earlier <=? seconds self then sub_from self earlier else swap (sub_from earlier self).

Definition checked_add_duration (self : SystemTime) (duration : Duration) : option SystemTime :=
  new_seconds ← u64_checked_add (seconds self) (as_secs duration);
  new_nanoseconds ← u32_checked_add (nanoseconds self) (subsec_nanos duration);
  if NANOSECONDS_PER_SECOND <=? new_nanoseconds
  then s ← u64_checked_add new_seconds 1; new s (new_nanoseconds - NANOSECONDS_PER_SECOND)
  else new new_seconds new_nanoseconds.

Definition checked_sub_duration (self : SystemTime) (duration : Duration) : option SystemTime :=
  new_seconds ← Prelude.checked_sub (seconds self) (as_secs duration);
  new_nanoseconds ← Prelude.checked_sub (nanoseconds self) (subsec_nanos duration);
  if NANOSECONDS_PER_SECOND <=? new_nanoseconds
  then s ← Prelude.checked_sub new_seconds 1; new s (NANOSECONDS_PER_SECOND - new_nanoseconds)
  else new new_seconds new_nanoseconds.

Definition cmp (self other : SystemTime) : comparison :=
  match seconds self ?= seconds other with
  | Eq => nanoseconds self ?= nanoseconds other
  | c => c
  end.

(** ** Meaning *)

Definition nanos (t : SystemTime) : Z := seconds t * NANOSECONDS_PER_SECOND + nanoseconds t.
Definition span (d : Duration) : Z := as_secs d * NANOSECONDS_PER_SECOND + subsec_nanos d.

Definition valid (t : SystemTime) : Prop := 0 <= seconds t <= u64_max /\ 0 <= nanoseconds t < NANOSECONDS_PER_SECOND.
Definition proper (d : Duration) : Prop := 0 <= as_secs d <= u64_max /\ 0 <= subsec_nanos d < NANOSECONDS_PER_SECOND.

(** Units are opened up and the arithmetic is left to [lia]. *)
Ltac instants :=
  unfold valid, proper, nanos, span, NANOSECONDS_PER_SECOND, u64_max, u32_max in *; simpl in *; try lia.

Lemma new_spec s n t : 0 <= s <= u64_max -> 0 <= n -> new s n = Some t -> valid t /\ nanos t = s * NANOSECONDS_PER_SECOND + n.
Proof. unfold new. intros Hs Hn. destruct (Z.leb_spec NANOSECONDS_PER_SECOND n); [done|]. intros [= <-]. instants. Qed.

Lemma cmp_spec a b : valid a -> valid b -> cmp a b = (nanos a ?= nanos b).
Proof.
  intros Ha Hb. unfold cmp. destruct (Z.compare_spec (seconds a) (seconds b)) as [He|Hl|Hl]; symmetry.
  - unfold nanos. rewrite He. apply Z.add_compare_mono_l.
  - apply Z.compare_lt_iff. instants.
  - apply Z.compare_gt_iff. instants.
Qed.

Lemma duration_new_ok {E} s n : 0 <= s <= u64_max -> 0 <= n < NANOSECONDS_PER_SECOND ->
  duration_new (E:=E) s n = Ok (mkDuration s n).
Proof.
  intros Hs Hn. unfold duration_new. rewrite Z.div_small, Z.mod_small by done. rewrite Z.add_0_r.
  by rewrite (proj2 (Z.leb_le _ _)) by lia.
Qed.

(** The borrow is taken from the difference of the seconds, which has to be positive. *)
Definition borrows (a b : SystemTime) : Prop := seconds a = seconds b /\ nanoseconds a < nanoseconds b.

Lemma sub_from_spec a b : valid a -> valid b -> seconds b <= seconds a ->
  if decide (borrows a b) then sub_from a b = Panic
  else exists d, sub_from a b = Ok d /\ proper d /\ span d = nanos a - nanos b.
Proof.
  intros Ha Hb Hs. unfold sub_from. rewrite (usize_sub_ok (seconds a) (seconds b)) by done. cbn [mbind res_bind].
  destruct (Z.leb_spec (nanoseconds b) (nanoseconds a)) as [Hn|Hn].
  - rewrite decide_False by (unfold borrows; lia). rewrite usize_sub_ok by done. cbn [mbind res_bind].
    exists (mkDuration (seconds a - seconds b) (nanoseconds a - nanoseconds b)).
    rewrite duration_new_ok by instants. split; [done|instants].
  - rewrite (usize_sub_ok (nanoseconds b) (nanoseconds a)) by lia. cbn [mbind res_bind]. case_decide as Hd.
    + destruct Hd as [-> _]. rewrite Z.sub_diag. done.
    + assert (seconds b < seconds a) by (unfold borrows in Hd; lia).
      rewrite (usize_sub_ok (seconds a - seconds b) 1) by lia. cbn [mbind res_bind]. rewrite usize_sub_ok by instants. cbn [mbind res_bind].
      exists (mkDuration (seconds a - seconds b - 1) (NANOSECONDS_PER_SECOND - (nanoseconds b - nanoseconds a))).
      rewrite duration_new_ok by instants. split; [done|instants].
Qed.

(** C38: The difference of two instants is exact in both directions, [Ok] when the first is not
    before the second and [Err] otherwise; except that the code panics when the first is
    before the second in the same second. *)
Theorem checked_sub_spec a b : valid a -> valid b ->
  if decide (borrows a b) then checked_sub a b = Panic
  else exists d, proper d /\
    (nanos b <= nanos a /\ checked_sub a b = Ok d /\ span d = nanos a - nanos b \/
     nanos a < nanos b /\ checked_sub a b = Err d /\ span d = nanos b - nanos a).
Proof.
  intros Ha Hb. unfold checked_sub. destruct (Z.leb_spec (seconds b) (seconds a)) as [Hs|Hs].
  - pose proof (sub_from_spec a b Ha Hb Hs) as H. case_decide as Hd; [done|].
    destruct H as (d & -> & Hp & Hd'). exists d. split; [done|]. left. split; [|done].
    unfold borrows in Hd. destruct (decide (seconds a = seconds b)); instants.
  - rewrite decide_False by (unfold borrows; lia). pose proof (sub_from_spec b a Hb Ha ltac:(lia)) as H.
    rewrite decide_False in H by (unfold borrows; lia). destruct H as (d & -> & Hp & Hd'). exists d.
    split; [done|]. right. split; [instants|done].
Qed.

Lemma checked_sub_spec_witness :
  (exists d, checked_sub (mkSystemTime 5 1) (mkSystemTime 3 999999999) = Ok d /\ span d = 1000000002) /\
  checked_sub (mkSystemTime 5 1) (mkSystemTime 5 2) = Panic.
Proof.
  split.
  - destruct (checked_sub_spec (mkSystemTime 5 1) (mkSystemTime 3 999999999)) as (d & _ & H).
    + vm_compute; repeat split; discriminate.
    + vm_compute; repeat split; discriminate.
    + destruct H as [(_ & H & Hd)|(H & _)]; [exists d; split; [exact H|exact Hd]|vm_compute in H; discriminate H].
  - apply (checked_sub_spec (mkSystemTime 5 1) (mkSystemTime 5 2)); vm_compute; repeat split; discriminate.
Defined.

(** Adding a duration is exact, and fails only if the sum has too many seconds. *)
Lemma checked_add_duration_spec a d : valid a -> proper d ->
  match checked_add_duration a d with
  | Some t => valid t /\ nanos t = nanos a + span d
  | None => u64_max < (nanos a + span d) / NANOSECONDS_PER_SECOND
  end.
Proof.
  intros Ha Hd. unfold checked_add_duration, u64_checked_add, u32_checked_add.
  assert ((nanos a + span d) / NANOSECONDS_PER_SECOND
    = seconds a + as_secs d + (nanoseconds a + subsec_nanos d) / NANOSECONDS_PER_SECOND) as ->.
  { unfold nanos, span. rewrite <- Z.div_add_l by done. f_equal. lia. }
  assert (0 <= (nanoseconds a + subsec_nanos d) / NANOSECONDS_PER_SECOND) by (apply Z.div_pos; instants).
  destruct (Z.leb_spec (seconds a + as_secs d) u64_max); [|simpl; lia]. cbn [mbind option_bind].
  rewrite (proj2 (Z.leb_le (nanoseconds a + subsec_nanos d) u32_max)) by instants. cbn [mbind option_bind].
  destruct (Z.leb_spec NANOSECONDS_PER_SECOND (nanoseconds a + subsec_nanos d)) as [Hn|Hn].
  - assert ((nanoseconds a + subsec_nanos d) / NANOSECONDS_PER_SECOND = 1) as ->.
    { symmetry. apply (Z.div_unique _ _ _ (nanoseconds a + subsec_nanos d - NANOSECONDS_PER_SECOND)); instants. }
    destruct (Z.leb_spec (seconds a + as_secs d + 1) u64_max); [|simpl; lia]. cbn [mbind option_bind].
    unfold new. rewrite (proj2 (Z.leb_gt _ _)) by instants. instants.
  - unfold new. rewrite (proj2 (Z.leb_gt _ _)) by done. instants.
Qed.

(** Subtracting a duration is exact when it succeeds; but it also fails when only the
    nanoseconds would need a borrow. *)
Lemma checked_sub_duration_spec a d : valid a -> proper d ->
  match checked_sub_duration a d with
  | Some t => valid t /\ nanos t = nanos a - span d
  | None => nanos a < span d \/ nanoseconds a < subsec_nanos d
  end.
Proof.
  intros Ha Hd. unfold checked_sub_duration, Prelude.checked_sub.
  destruct (Z.leb_spec (as_secs d) (seconds a)); [|left; instants]. cbn [mbind option_bind].
  destruct (Z.leb_spec (subsec_nanos d) (nanoseconds a)); [|right; instants]. cbn [mbind option_bind].
  rewrite (proj2 (Z.leb_gt _ _)) by instants. unfold new. rewrite (proj2 (Z.leb_gt _ _)) by instants. instants.
Qed.
End Time.
