(* ===== verification/FatStorage.v ===== *)
(** * Storage of a FAT file system

    The errors of [libs/fat32] and its two kinds of storage
    ([libs/fat32/src/fat/storage.rs]): a region of memory with a position, one of them
    without writing.  [copy_nonoverlapping] on bytes outside the region is undefined
    behaviour in Rust and a panic here. *)

From S2P Require Import Prelude Error.
#[local] Open Scope Z_scope.

Module Fat32Error.
Inductive t :=
| NotFound | NotAFile | NotADirectory | InvalidFd | InvalidPath | NotInitialized | InvalidSeek | ReadOnly
| AlreadyExists | NotEmpty | NoSpace | TooManyOpenFiles | NotSupported | InvalidArgument | IoError
| OutOfMemory | FileLocked | PermissionDenied.

(** [From<Fat32Error> for ErrorCode]. *)
Definition code (err : t) : ErrorCode :=
  match err with
  | NotFound => NoSuchEntry
  | NotAFile => IsDirectory
  | NotADirectory => InvalidDirectory
  | InvalidFd => BadFile
  | InvalidPath => Error.InvalidArgument
  | NotInitialized => Error.InvalidArgument
  | InvalidSeek => IllegalSeek
  | ReadOnly => ReadOnlyFileSystem
  | AlreadyExists => EntryExists
  | NotEmpty => DirectoryNotEmpty
  | NoSpace => NoSpaceOnDevice
  | TooManyOpenFiles => Error.TooManyOpenFiles
  | NotSupported => OperationNotSupported
  | InvalidArgument => Error.InvalidArgument
  | IoError => IoErr
  | OutOfMemory => Error.OutOfMemory
  | FileLocked => TryAgain
  | PermissionDenied => Error.PermissionDenied
  end.
End Fat32Error.
Notation Fat32Error := Fat32Error.t.

Module MemoryIoError.
Inductive t := OutOfBounds | InvalidSeek | UnexpectedEof | WriteZero | ReadOnly.
End MemoryIoError.

(** [fatfs::Error]. *)
Module FsError.
Inductive t :=
| Io (e : MemoryIoError.t) | UnexpectedEof | WriteZero | InvalidInput | NotFound | AlreadyExists
| DirectoryIsNotEmpty | CorruptedFileSystem | NotEnoughSpace | InvalidFileNameLength
| UnsupportedFileNameCharacter.
End FsError.

Definition map_fatfs_error (err : FsError.t) : Fat32Error :=
  match err with
  | FsError.Io MemoryIoError.ReadOnly => Fat32Error.ReadOnly
  | FsError.Io _ => Fat32Error.IoError
  | FsError.UnexpectedEof => Fat32Error.IoError
  | FsError.WriteZero => Fat32Error.IoError
  | FsError.InvalidInput => Fat32Error.InvalidPath
  | FsError.InvalidFileNameLength => Fat32Error.InvalidPath
  | FsError.UnsupportedFileNameCharacter => Fat32Error.InvalidPath
  | FsError.DirectoryIsNotEmpty => Fat32Error.NotEmpty
  | FsError.NotFound => Fat32Error.NotFound
  | FsError.AlreadyExists => Fat32Error.AlreadyExists
  | FsError.CorruptedFileSystem => Fat32Error.IoError
  | FsError.NotEnoughSpace => Fat32Error.NoSpace
  end.

Inductive SeekFrom := SeekStart (offset : Z) | SeekEnd (offset : Z) | SeekCurrent (offset : Z).

Definition i64_max : Z := 2 ^ 63 - 1.
Definition i64_min : Z := - 2 ^ 63.
Definition i64_fits (n : Z) : bool := (i64_min <=? n) && (n <=? i64_max).

(** The storage and the bytes of its region. *)
Record Storage := mkStorage { base : Z; st_size : Z; position : Z }.
Definition with_position p (s : Storage) : Storage := mkStorage (base s) (st_size s) p.

(** Bytes from [i] on are replaced by those of [bs]. *)
Definition overwrite (i : Z) (bs l : list Z) : list Z := take (Z.to_nat i) l ++ bs ++ drop (Z.to_nat i + length bs) l.

Module RawMemoryStorage.
Notation St := (M (Storage * list Z) MemoryIoError.t).

Definition new (base size : Z) : res Fat32Error Storage :=
  if base =? 0 then Err Fat32Error.InvalidArgument
  else if size =? 0 then Err Fat32Error.InvalidArgument
  else Ok (mkStorage base size 0).

(** [saturating_sub]. *)
Definition remaining (s : Storage) : Z := Z.max 0 (st_size s - position s).

Definition advance (n : Z) : St unit := modify (fun s => (with_position (position s.1 + n) s.1, s.2)).

(** The bytes read into a buffer of [n] bytes. *)
Definition read (n : Z) : St (list Z) :=
  s ← get;
  if n =? 0 then mret []
  else
    let to_read := Z.min n (remaining s.1) in
    if to_read =? 0 then mret []
    else if position s.1 + to_read <=? Z.of_nat (length s.2)
    then advance to_read;; mret (take (Z.to_nat to_read) (drop (Z.to_nat (position s.1)) s.2))
    else panic.

Definition write (buf : list Z) : St Z :=
  s ← get;
  let n := Z.of_nat (length buf) in
  if n =? 0 then mret 0
  else
    let to_write := Z.min n (remaining s.1) in
    if to_write =? 0 then mret 0
    else if position s.1 + to_write <=? Z.of_nat (length s.2)
    then modify (fun s => (s.1, overwrite (position s.1) (take (Z.to_nat to_write) buf) s.2));;
         advance to_write;; mret to_write
    else panic.

Definition flush : St unit := mret tt.

Definition seek_target (pos : SeekFrom) (s : Storage) : res MemoryIoError.t Z :=
  match pos with
  | SeekStart offset => if offset <=? i64_max then Ok offset else Err MemoryIoError.OutOfBounds
  | SeekEnd offset => if i64_fits (st_size s + offset) then Ok (st_size s + offset) else Err MemoryIoError.OutOfBounds
  | SeekCurrent offset => if i64_fits (position s + offset) then Ok (position s + offset) else Err MemoryIoError.OutOfBounds
  end.

Definition seek (pos : SeekFrom) : St Z :=
  s ← get;
  new_pos ← lift (seek_target pos s.1);
  if new_pos <? 0 then fail MemoryIoError.InvalidSeek
  else if usize_max <? new_pos then fail MemoryIoError.OutOfBounds
  else if st_size s.1 <? new_pos then fail MemoryIoError.OutOfBounds
  else modify (fun s => (with_position new_pos s.1, s.2));; mret new_pos.
End RawMemoryStorage.

(** The code of reading and seeking is the same. *)
Module ReadOnlyMemoryStorage.
Definition new : Z -> Z -> res Fat32Error Storage := RawMemoryStorage.new.
Definition read : Z -> M (Storage * list Z) MemoryIoError.t (list Z) := RawMemoryStorage.read.
Definition write (buf : list Z) : M (Storage * list Z) MemoryIoError.t Z := fail MemoryIoError.ReadOnly.
Definition flush : M (Storage * list Z) MemoryIoError.t unit := mret tt.
Definition seek : SeekFrom -> M (Storage * list Z) MemoryIoError.t Z := RawMemoryStorage.seek.
End ReadOnlyMemoryStorage.

(** ** Lemmas *)

(** The position lies in the region. *)
Definition storage_wf (s : Storage * list Z) : Prop :=
  0 <= position s.1 <= st_size s.1 /\ st_size s.1 = Z.of_nat (length s.2).

Lemma overwrite_length i bs l : 0 <= i -> i + Z.of_nat (length bs) <= Z.of_nat (length l) ->
  length (overwrite i bs l) = length l.
Proof. intros Hi Hl. unfold overwrite. rewrite !length_app, length_take, length_drop. lia. Qed.

(** Reading at the position where something was written gives it back. *)
Lemma overwrite_read i bs l : 0 <= i -> i <= Z.of_nat (length l) ->
  take (length bs) (drop (Z.to_nat i) (overwrite i bs l)) = bs.
Proof.
  intros Hi Hl. unfold overwrite. rewrite drop_app_ge by (rewrite length_take; lia).
  rewrite length_take, Nat.min_l by lia. rewrite Nat.sub_diag. rewrite drop_0. by rewrite take_app_length.
Qed.

(** A comparison of the code. *)
Ltac wif H :=
  lazymatch goal with
  | |- wp (if ?a =? ?b then _ else _) _ _ => destruct (Z.eqb_spec a b) as [H|H]
  | |- wp (if ?a <=? ?b then _ else _) _ _ => destruct (Z.leb_spec a b) as [H|H]
  | |- wp (if ?a <? ?b then _ else _) _ _ => destruct (Z.ltb_spec a b) as [H|H]
  end; wsteps.

Section StorageSpec.
Implicit Types s : Storage * list Z.
Import RawMemoryStorage.

Lemma storage_read_wp n s : storage_wf s -> 0 <= n ->
  wp (read n) s (fun o s' => exists bs, o = Ok bs /\ storage_wf s' /\ s'.2 = s.2 /\
    Z.of_nat (length bs) = Z.min n (st_size s.1 - position s.1) /\
    bs = take (length bs) (drop (Z.to_nat (position s.1)) s.2) /\
    position s'.1 = position s.1 + Z.of_nat (length bs)).
Proof.
  intros Hs Hn. destruct s as [[b sz p] l]. destruct Hs as [Hp Hl]. simpl in *. unfold read. wsteps.
  wif E; [exists []; splits; simpl; try done; try lia; split; simpl; lia|].
  unfold remaining. simpl fst. simpl snd. cbn [st_size position]. rewrite Z.max_r by lia.
  wif E1; [exists []; splits; simpl; try done; try lia; split; simpl; lia|].
  wif E2; [|simpl in *; lia]. unfold advance. wsteps. simpl.
  assert (length (take (Z.to_nat (n `min` (sz - p))) (drop (Z.to_nat p) l)) = Z.to_nat (n `min` (sz - p))) as Hlen
    by (rewrite length_take, length_drop; lia).
  eexists. splits; [done|split; simpl; lia|done|rewrite Hlen; lia|by rewrite Hlen|rewrite Hlen; lia].
Qed.

Lemma storage_write_wp buf s : storage_wf s ->
  wp (write buf) s (fun o s' => exists n, o = Ok n /\ storage_wf s' /\
    n = Z.min (Z.of_nat (length buf)) (st_size s.1 - position s.1) /\
    s'.2 = overwrite (position s.1) (take (Z.to_nat n) buf) s.2 /\ position s'.1 = position s.1 + n).
Proof.
  intros Hs. destruct s as [[b sz p] l]. destruct Hs as [Hp Hl]. simpl in *.
  assert (overwrite p [] l = l) as Hnil.
  { unfold overwrite. rewrite Nat.add_0_r. simpl. by rewrite take_drop. }
  unfold write. wsteps.
  wif E; [exists 0; splits; simpl; try done; try lia; split; simpl; lia|].
  unfold remaining. simpl fst. simpl snd. cbn [st_size position]. rewrite Z.max_r by lia.
  wif E1; [exists 0; splits; simpl; try done; try lia; split; simpl; lia|].
  wif E2; [|simpl in *; lia]. unfold advance. wsteps. simpl.
  assert (length (take (Z.to_nat (Z.of_nat (length buf) `min` (sz - p))) buf) = Z.to_nat (Z.of_nat (length buf) `min` (sz - p))) as Hlen
    by (rewrite length_take; lia).
  eexists. splits; [done| |done|done|done]. split; simpl; [lia|]. rewrite overwrite_length; rewrite ?Hlen; lia.
Qed.

(** A position inside the region is reached, every other one is refused. *)
Definition storage_target (pos : SeekFrom) (s : Storage) : Z :=
  match pos with SeekStart o => o | SeekEnd o => st_size s + o | SeekCurrent o => position s + o end.

Lemma storage_seek_wp pos s : storage_wf s -> st_size s.1 <= usize_max ->
  wp (seek pos) s (fun o s' => storage_wf s' /\ s'.2 = s.2 /\
    if decide (0 <= storage_target pos s.1 <= st_size s.1)
    then o = Ok (storage_target pos s.1) /\ position s'.1 = storage_target pos s.1
    else is_ok o = false /\ o <> Panic /\ s' = s).
Proof.
  intros Hs Hz. destruct s as [[b sz p] l]. pose proof Hs as [Hp Hl]. simpl in *. unfold seek. wsteps. simpl.
  assert (seek_target pos (mkStorage b sz p) = Ok (storage_target pos (mkStorage b sz p)) \/
    seek_target pos (mkStorage b sz p) = Err MemoryIoError.OutOfBounds /\
    ~ (0 <= storage_target pos (mkStorage b sz p) <= sz)) as [->|[-> Hno]].
  { destruct pos as [o|o|o]; simpl; unfold i64_fits, i64_max, i64_min; unfold usize_max in *;
      case_match eqn:E; [by left|right|by left|right|by left|right]; (split; [done|]);
      [apply Z.leb_gt in E|apply andb_false_iff in E as [E|E]; apply Z.leb_gt in E..]; lia. }
  2: { wsteps. by rewrite decide_False. }
  set (t := storage_target pos _). wsteps.
  wif E; [rewrite decide_False by lia; done|].
  wif E1; [rewrite decide_False by lia; done|].
  wif E2; [rewrite decide_False by lia; done|]. wsteps. simpl.
  rewrite decide_True by lia. splits; [split; simpl; lia|done..].
Qed.
End StorageSpec.
