(* ===== verification/MountTable.v ===== *)
(** * Mount points and paths

    [libs/vfs/src/mount.rs]: the table of mounted file systems, sorted by the length of their
    paths, the normalisation of paths and their resolution to a mount and the rest of the
    path.  A path is the list of its characters; the length of a string counts bytes. *)

From stdpp Require Import sorting.
From S2P Require Import Prelude Error Str FatStorage.
#[local] Open Scope Z_scope.

(** ** Strings *)

(** A literal. *)
Definition lit (s : string) : str := (fun a => Z.of_N (Ascii.N_of_ascii a)) <$> String.list_ascii_of_string s.
Definition SLASH : Z := 47.

#[export] Instance str_eq_dec : EqDecision str := _.

(** [str::split] at slashes. *)
Fixpoint split (s : str) : list str :=
  match s with
  | [] => [[]]
  | c :: s' =>
    if c =? SLASH then [] :: split s'
    else match split s' with
         | w :: l => (c :: w) :: l
         | [] => [[c]]
         end
  end.

Fixpoint strip_prefix (p s : str) : option str :=
  match p, s with
  | [], _ => Some s
  | c :: p', d :: s' => if c =? d then strip_prefix p' s' else None
  | _ :: _, [] => None
  end.

Definition starts_with (p s : str) : bool := match strip_prefix p s with Some _ => true | None => false end.

(** ** The table *)
Section MountTable.
Context {Fat : Type}.

Record Mount := mkMount { mnt_path : str; fat : Fat; readonly : bool }.
Record Vfs := mkVfs { mounts : list Mount; cwd : str }.
Definition with_mounts l (v : Vfs) : Vfs := mkVfs l (cwd v).
Definition with_cwd p (v : Vfs) : Vfs := mkVfs (mounts v) p.

Definition mount_new (path : str) (f : Fat) (ro : bool) : res Fat32Error Mount :=
  if starts_with (lit "/") path then Ok (mkMount path f ro) else Err Fat32Error.InvalidPath.

Definition matches (m : Mount) (path : str) : option str :=
  if decide (mnt_path m = lit "/") then Some (default path (strip_prefix (lit "/") path))
  else if decide (path = mnt_path m) then Some []
  else if starts_with (mnt_path m) path then strip_prefix (lit "/") (drop (length (mnt_path m)) path)
  else None.

Definition vfs_new : Vfs := mkVfs [] (lit "/").

(** The index of the first element with a property. *)
Definition find_index {A} (P : A → bool) (l : list A) : option nat := fst <$> list_find (fun x => P x = true) l.

Definition add_mount (mount : Mount) : M Vfs Fat32Error unit :=
  v ← get;
  if existsb (fun m => bool_decide (mnt_path m = mnt_path mount)) (mounts v) then fail Fat32Error.AlreadyExists
  else
    let pos := default (length (mounts v)) (find_index (fun m => Str.len (mnt_path m) <? Str.len (mnt_path mount)) (mounts v)) in
    put (with_mounts (take pos (mounts v) ++ mount :: drop pos (mounts v)) v).

Definition remove_mount (path : str) : M Vfs Fat32Error Mount :=
  v ← get;
  match list_find (fun m => mnt_path m = path) (mounts v) with
  | None => fail Fat32Error.NotFound
  | Some (pos, m) => put (with_mounts (take pos (mounts v) ++ drop (S pos) (mounts v)) v);; mret m
  end.

(** The loop over the components of a path; [pop] takes the last of those seen so far. *)
Fixpoint normalize_loop (components : list str) (l : list str) : res Fat32Error (list str) :=
  match l with
  | [] => Ok components
  | c :: l' =>
    if decide (c = [] \/ c = lit ".") then normalize_loop components l'
    else if decide (c = lit "..") then
      match last components with
      | None => Err Fat32Error.InvalidPath
      | Some _ => normalize_loop (removelast components) l'
      end
    else normalize_loop (components ++ [c]) l'
  end.

Definition absolute (v : Vfs) (path : str) : str :=
  if starts_with (lit "/") path then path
  else if decide (cwd v = lit "/") then lit "/" ++ path
  else cwd v ++ lit "/" ++ path.

(** Each component after a slash. *)
Fixpoint push_all (result : str) (components : list str) : str :=
  match components with
  | [] => result
  | c :: l => push_all (result ++ lit "/" ++ c) l
  end.

Definition normalize_path (v : Vfs) (path : str) : res Fat32Error str :=
  match path with
  | [] => Err Fat32Error.InvalidPath
  | _ =>
    components ← normalize_loop [] (split (absolute v path));
    match components with [] => Ok (lit "/") | _ => Ok (push_all [] components) end
  end.

Fixpoint first_match (idx : nat) (l : list Mount) (path : str) : option (nat * str) :=
  match l with
  | [] => None
  | m :: l' => match matches m path with Some relative => Some (idx, relative) | None => first_match (S idx) l' path end
  end.

Definition resolve (v : Vfs) (path : str) : res Fat32Error (nat * str) :=
  normalized ← normalize_path v path;
  match first_match 0 (mounts v) normalized with Some r => Ok r | None => Err Fat32Error.NotFound end.

Definition set_cwd (path : str) : M Vfs Fat32Error unit :=
  v ← get;
  normalized ← lift (normalize_path v path);
  (if decide (normalized <> [] /\ normalized <> lit "/") then lift (resolve v normalized);; mret tt else mret tt);;
  put (with_cwd normalized v).

Definition get_mount (v : Vfs) (index : nat) : option Mount := mounts v !! index.
End MountTable.
Arguments Mount : clear implicits.
Arguments Vfs : clear implicits.

(** ** Names and paths *)

(** A component that normalisation keeps. *)
Definition name (c : str) : Prop := c <> [] /\ c <> lit "." /\ c <> lit ".." /\ SLASH ∉ c.

#[export] Instance name_dec c : Decision (name c).
Proof. unfold name. solve_decision. Defined.

(** The path with the given components. *)
Definition path_of (cs : list str) : str := match cs with [] => lit "/" | _ => cs ≫= (fun c => SLASH :: c) end.

(** A normal path has names for components, and no trailing slash. *)
Definition normal (s : str) : Prop := exists cs, Forall name cs /\ s = path_of cs.

(** The components of a normal path. *)
Definition components (s : str) : list str := filter (fun c => c <> []) (split s).

Lemma split_cons s : exists w l, split s = w :: l.
Proof.
  induction s as [|c s (w & l & IH)]; [by exists [], []|]. simpl. rewrite IH. destruct (c =? SLASH); eauto.
Qed.

Lemma split_app a b : split (a ++ SLASH :: b) = split a ++ split b.
Proof.
  induction a as [|c a IH]; [done|]. simpl. rewrite IH. destruct (c =? SLASH); [done|].
  destruct (split_cons a) as (w & l & ->). done.
Qed.

Lemma split_name c : SLASH ∉ c -> split c = [c].
Proof.
  induction c as [|x c IH]; [done|]. intros Hc. apply not_elem_of_cons in Hc as [Hx Hc]. simpl. rewrite IH by done.
  destruct (Z.eqb_spec x SLASH); [congruence|done].
Qed.

Lemma split_no_slash s : Forall (fun c => SLASH ∉ c) (split s).
Proof.
  induction s as [|c s IH]; [repeat constructor; apply not_elem_of_nil|]. simpl.
  destruct (Z.eqb_spec c SLASH); [constructor; [apply not_elem_of_nil|done]|].
  destruct (split_cons s) as (w & l & Hs). rewrite Hs in *. inversion IH. constructor; [|done].
  apply not_elem_of_cons. done.
Qed.

Lemma split_names cs : Forall (fun c => SLASH ∉ c) cs -> split (cs ≫= (fun c => SLASH :: c)) = [] :: cs.
Proof.
  induction cs as [|c cs IH] using rev_ind; [done|]. rewrite Forall_app. intros [Hcs Hc].
  rewrite bind_app. simpl. rewrite app_nil_r, split_app, IH by done. inversion Hc. by rewrite split_name.
Qed.

Lemma split_path cs : Forall name cs -> exists pre, Forall (fun c => c = []) pre /\ split (path_of cs) = pre ++ cs.
Proof.
  intros Hcs. destruct cs as [|c cs]; [by exists [[]; []]; repeat constructor|]. exists [[]]. split; [by repeat constructor|].
  apply split_names. eapply Forall_impl; [exact Hcs|]. intros ? H. apply H.
Qed.

Lemma filter_split pre cs : Forall (fun c : str => c = []) pre -> Forall name cs -> filter (fun c : str => c <> []) (pre ++ cs) = cs.
Proof.
  intros Hpre Hcs. induction Hpre as [|c pre -> _ IH]; simpl; [|by rewrite filter_cons_False by naive_solver].
  induction Hcs as [|c cs Hc _ IH]; [done|]. rewrite filter_cons_True by apply Hc. by rewrite IH.
Qed.

Lemma components_path cs : Forall name cs -> components (path_of cs) = cs.
Proof.
  intros Hcs. destruct (split_path cs Hcs) as (pre & Hpre & Hs). unfold components. rewrite Hs. by apply filter_split.
Qed.

Lemma path_of_inj cs cs' : Forall name cs -> Forall name cs' -> path_of cs = path_of cs' -> cs = cs'.
Proof. intros H H' He. by rewrite <- (components_path cs), He, components_path. Qed.

(** ** Normalisation *)

Lemma normalize_loop_app cs l l' : normalize_loop cs (l ++ l') = cs' ← normalize_loop cs l; normalize_loop cs' l'.
Proof.
  revert cs. induction l as [|c l IH]; intros cs; [done|]. simpl. case_decide; [apply IH|]. case_decide; [|apply IH].
  destruct (last cs); [apply IH|done].
Qed.

Lemma normalize_loop_names cs l : Forall name l -> normalize_loop cs l = Ok (cs ++ l).
Proof.
  intros Hl. revert cs. induction Hl as [|c l (He & Hd & Hdd & _) _ IH]; intros cs; simpl; [by rewrite app_nil_r|].
  rewrite decide_False by naive_solver. rewrite decide_False by done. rewrite IH. by rewrite <- app_assoc.
Qed.

Lemma normalize_loop_skip cs pre l : Forall (fun c => c = []) pre -> normalize_loop cs (pre ++ l) = normalize_loop cs l.
Proof. intros Hpre. induction Hpre as [|c pre -> _ IH]; [done|]. simpl. exact IH. Qed.

Lemma normalize_loop_good cs l cs' : Forall name cs -> Forall (fun c => SLASH ∉ c) l -> normalize_loop cs l = Ok cs' -> Forall name cs'.
Proof.
  intros Hcs Hl. revert cs Hcs. induction Hl as [|c l Hc _ IH]; intros cs Hcs; simpl; [by intros [= <-]|].
  case_decide as H1; [by apply IH|]. case_decide as H2.
  - destruct (last cs) eqn:E; [|done]. apply IH. destruct cs as [|c' cs _] using rev_ind; [done|].
    rewrite removelast_last. by apply Forall_app in Hcs as [? _].
  - apply IH. apply Forall_app. split; [done|]. constructor; [|done]. split; [naive_solver|]. naive_solver.
Qed.

Lemma push_all_app r cs : push_all r cs = r ++ (cs ≫= (fun c => SLASH :: c)).
Proof.
  revert r. induction cs as [|c cs IH]; intros r; simpl; [by rewrite app_nil_r|]. rewrite IH.
  change (lit "/") with [SLASH]. by rewrite <- !app_assoc.
Qed.

Lemma normalize_loop_panic cs l : normalize_loop cs l <> Panic.
Proof.
  revert cs. induction l as [|c l IH]; intros cs; simpl; [done|]. case_decide; [done|]. case_decide; [|done].
  by destruct (last cs).
Qed.

Lemma normalize_loop_error cs l e : normalize_loop cs l = Err e -> e = Fat32Error.InvalidPath.
Proof.
  revert cs. induction l as [|c l IH]; intros cs; simpl; [done|]. case_decide; [apply IH|]. case_decide; [|apply IH].
  destruct (last cs); [apply IH|by intros [= <-]].
Qed.

(** How far a component leads down, and where a sequence of them ends. *)
Definition descent (c : str) : Z := if decide (c = [] \/ c = lit ".") then 0 else if decide (c = lit "..") then -1 else 1.
Definition depth (l : list str) : Z := foldr (fun c n => descent c + n) 0 l.

Lemma depth_take m c l : (exists k, m + depth (take k (c :: l)) < 0) <->
  m < 0 \/ exists k, m + descent c + depth (take k l) < 0.
Proof.
  split.
  - intros [[|k] Hk]; simpl in Hk; [left; lia|right; exists k; lia].
  - intros [Hm|[k Hk]]; [exists 0%nat; simpl; lia|exists (S k); simpl; lia].
Qed.

Lemma normalize_loop_err cs l :
  normalize_loop cs l = Err Fat32Error.InvalidPath <-> exists k, Z.of_nat (length cs) + depth (take k l) < 0.
Proof.
  revert cs. induction l as [|c l IH]; intros cs.
  { split; [done|]. intros [k Hk]. rewrite take_nil in Hk. simpl in Hk. lia. }
  rewrite depth_take. cbn [normalize_loop]. unfold descent. case_decide; [|case_decide].
  - rewrite IH, Z.add_0_r. intuition lia.
  - destruct cs as [|x cs _] using rev_ind; simpl.
    + split; [intros _; right; exists 0%nat; simpl; lia|done].
    + rewrite last_snoc, removelast_last, IH, length_app. simpl.
      replace (Z.of_nat (length cs + 1) + -1) with (Z.of_nat (length cs)) by lia. intuition lia.
  - rewrite IH, length_app. simpl. replace (Z.of_nat (length cs + 1)) with (Z.of_nat (length cs) + 1) by lia. intuition lia.
Qed.

Lemma starts_with_slash s : starts_with (lit "/") s = true <-> exists s', s = SLASH :: s'.
Proof.
  unfold starts_with. change (lit "/") with [SLASH]. destruct s as [|c s]; cbn [strip_prefix].
  { split; [done|]. by intros [? ?]. }
  destruct (Z.eqb_spec SLASH c) as [->|Hc]; [split; eauto|]. split; [done|]. intros (s' & [= ? _]). congruence.
Qed.

Lemma starts_with_app p q : p <> [] -> starts_with (lit "/") (p ++ q) = starts_with (lit "/") p.
Proof.
  intros Hp. unfold starts_with. change (lit "/") with [SLASH]. destruct p as [|c p]; [done|]. cbn [app strip_prefix].
  by destruct (SLASH =? c).
Qed.

Lemma path_of_slash cs : exists s, path_of cs = SLASH :: s.
Proof. destruct cs as [|c cs]; eauto. Qed.

Section Normalisation.
Context {Fat : Type}.
Implicit Types (v : Vfs Fat) (p q : str).

(** Where the walk along a path starts: at the root, or in the current directory. *)
Definition start v p : list str := if starts_with (lit "/") p then [] else components (cwd v).

Lemma normalize_walk v p : normal (cwd v) -> p <> [] ->
  normalize_path v p = cs ← normalize_loop (start v p) (split p); Ok (path_of cs).
Proof.
  intros (ds & Hds & Hcwd) Hp. unfold normalize_path, start. destruct p as [|c p]; [done|]. set (s := c :: p) in *.
  assert (normalize_loop [] (split (absolute v s)) = normalize_loop (start v s) (split s)) as ->.
  { unfold absolute, start. destruct (starts_with (lit "/") s); [done|]. rewrite Hcwd, components_path by done.
    case_decide as Hr.
    - assert (ds = []) as ->. { apply (path_of_inj ds []); [done|constructor|done]. }
      change (lit "/" ++ s) with ([] ++ SLASH :: s). rewrite split_app. done.
    - change (path_of ds ++ lit "/" ++ s) with (path_of ds ++ SLASH :: s). rewrite split_app.
      destruct (split_path ds Hds) as (pre & Hpre & ->). rewrite <- app_assoc, normalize_loop_skip by done.
      by rewrite normalize_loop_app, normalize_loop_names. }
  unfold start. destruct (normalize_loop _ _) as [cs|e|]; [|done..]. simpl. destruct cs; [done|].
  by rewrite push_all_app.
Qed.

Lemma start_good v p : normal (cwd v) -> Forall name (start v p).
Proof. intros (ds & Hds & Hcwd). unfold start. case_match; [constructor|]. by rewrite Hcwd, components_path. Qed.

Lemma normalize_normal v p r : normal (cwd v) -> normalize_path v p = Ok r -> normal r.
Proof.
  intros Hv. destruct (decide (p = [])) as [->|Hp]; [done|]. rewrite normalize_walk by done.
  destruct (normalize_loop _ _) as [cs|e|] eqn:E; [|done..]. intros [= <-]. exists cs. split; [|done].
  eapply normalize_loop_good; [by apply start_good|apply split_no_slash|done].
Qed.

Lemma normalize_of_normal v r : normal (cwd v) -> normal r -> normalize_path v r = Ok r.
Proof.
  intros Hv (cs & Hcs & ->). destruct (path_of_slash cs) as [s Hs]. rewrite normalize_walk by (try done; by rewrite Hs).
  unfold start. rewrite (proj2 (starts_with_slash _)) by eauto. destruct (split_path cs Hcs) as (pre & Hpre & ->).
  by rewrite normalize_loop_skip, normalize_loop_names.
Qed.

Lemma normalize_no_panic v p : normal (cwd v) -> normalize_path v p <> Panic.
Proof.
  intros Hv. destruct (decide (p = [])) as [->|Hp]; [done|]. rewrite normalize_walk by done.
  destruct (normalize_loop (start v p) (split p)) as [cs|e|] eqn:E; [done..|]. by apply normalize_loop_panic in E.
Qed.
Lemma resolve_no_panic v p : normal (cwd v) -> resolve v p <> Panic.
Proof.
  intros Hv. unfold resolve. pose proof (normalize_no_panic v p Hv). destruct (normalize_path v p); [|done..]. cbn [mbind res_bind]. by destruct (first_match _ _ _).
Qed.

(** C17: Normalisation of paths: the result has no empty, dot or dot-dot component and no
    trailing slash; normalising it again changes nothing; a path that continues another one
    means what it means after changing to the first as current directory; a name followed by
    dot-dot has no effect; it fails exactly on the empty path and on paths that climb above
    the root somewhere. *)
Theorem normalize_path_spec v p : normal (cwd v) ->
  match normalize_path v p with
  | Ok r => normal r /\ normalize_path v r = Ok r /\
      (forall q, q <> [] -> starts_with (lit "/") q = false ->
         normalize_path v (p ++ lit "/" ++ q) = normalize_path (with_cwd r v) q) /\
      (forall c, name c -> normalize_path v (p ++ lit "/" ++ c ++ lit "/..") = Ok r) /\
      p <> [] /\ (forall k, 0 <= Z.of_nat (length (start v p)) + depth (take k (split p)))
  | Err e => e = Fat32Error.InvalidPath /\
      (p = [] \/ exists k, Z.of_nat (length (start v p)) + depth (take k (split p)) < 0)
  | Panic => False
  end.
Proof.
  intros Hv. destruct (decide (p = [])) as [->|Hp]; [simpl; auto|].
  assert (forall q, normalize_path v (p ++ lit "/" ++ q) =
    cs ← normalize_loop (start v p) (split p); cs' ← normalize_loop cs (split q); Ok (path_of cs')) as Happ.
  { intros q. change (lit "/" ++ q) with (SLASH :: q). rewrite normalize_walk by (try done; by destruct p).
    assert (start v (p ++ SLASH :: q) = start v p) as ->
      by (unfold start; by rewrite starts_with_app).
    rewrite split_app, normalize_loop_app. by destruct (normalize_loop _ _). }
  rewrite normalize_walk by done. destruct (normalize_loop (start v p) (split p)) as [cs|e|] eqn:E; cbn [mbind res_bind].
  2: { pose proof (normalize_loop_error _ _ _ E) as ->. split; [done|right]. by apply normalize_loop_err. }
  2: { by eapply normalize_loop_panic. }
  assert (Forall name cs) as Hcs by (eapply normalize_loop_good; [by apply start_good|apply split_no_slash|done]).
  assert (normal (path_of cs)) as Hn by (by exists cs). splits; [done|by apply normalize_of_normal| | |done|].
  - intros q Hq Hrel. rewrite Happ. cbn [mbind res_bind]. rewrite normalize_walk by done. unfold start. rewrite Hrel. simpl.
    by rewrite components_path.
  - intros c Hc. rewrite Happ. cbn [mbind res_bind]. change (c ++ lit "/..") with (c ++ SLASH :: lit "..").
    rewrite split_app, (split_name c) by apply Hc. simpl. destruct Hc as (? & ? & ? & _).
    rewrite decide_False by naive_solver. rewrite decide_False by done. rewrite last_snoc, removelast_last. done.
  - intros k. apply Z.nlt_ge. intros Hk. assert (normalize_loop (start v p) (split p) = Err Fat32Error.InvalidPath) as E'; [|congruence].
    apply normalize_loop_err. by exists k.
Qed.
End Normalisation.

(** ** Mount points *)

(** The path relative to a mount. *)
Definition join (cs : list str) : str := drop 1 (cs ≫= (fun c => SLASH :: c)).

Lemma split_join s : split s ≫= (fun c => SLASH :: c) = SLASH :: s.
Proof.
  induction s as [|c s IH]; [done|]. cbn [split]. destruct (Z.eqb_spec c SLASH) as [->|].
  - rewrite bind_cons, IH. done.
  - destruct (split_cons s) as (w & l & Hs). rewrite Hs in *. rewrite bind_cons in *. simpl in *. by injection IH as ->.
Qed.

Lemma strip_prefix_app p t : strip_prefix p (p ++ t) = Some t.
Proof. induction p as [|c p IH]; [done|]. simpl. by rewrite Z.eqb_refl. Qed.

Lemma strip_slash s : strip_prefix (lit "/") (SLASH :: s) = Some s.
Proof. apply (strip_prefix_app (lit "/")). Qed.

Lemma strip_prefix_spec p s t : strip_prefix p s = Some t <-> s = p ++ t.
Proof.
  split; [|intros ->; apply strip_prefix_app]. revert s. induction p as [|c p IH]; intros s; simpl; [by intros [= <-]|].
  destruct s as [|d s]; [done|]. destruct (Z.eqb_spec c d) as [->|]; [|done]. intros H. by rewrite (IH _ H).
Qed.

Lemma path_of_cons cs : cs <> [] -> path_of cs = cs ≫= (fun c => SLASH :: c).
Proof. by destruct cs. Qed.

Lemma path_of_app cs rest : cs <> [] -> rest <> [] -> path_of (cs ++ rest) = path_of cs ++ SLASH :: join rest.
Proof.
  intros Hc Hr. rewrite !path_of_cons by (try done; by destruct cs). rewrite bind_app. f_equal. unfold join.
  by destruct rest.
Qed.

Lemma path_of_nil cs : path_of cs = lit "/" -> Forall name cs -> cs = [].
Proof. intros H Hcs. by apply (path_of_inj cs []). Qed.

Section Matching.
Context {Fat : Type}.
Implicit Types (v : Vfs Fat) (m : Mount Fat) (p q : str).

(** A file system is mounted at the directory with the components [ms]. *)
Definition mounted_at m (ms : list str) : Prop := Forall name ms /\ mnt_path m = path_of ms.

Lemma matches_some m cs relative : Forall name cs -> starts_with (lit "/") (mnt_path m) = true ->
  matches m (path_of cs) = Some relative -> exists ms rest, mounted_at m ms /\ cs = ms ++ rest /\ relative = join rest.
Proof.
  intros Hcs Hm. unfold matches. case_decide as Hr.
  { intros [= <-]. exists [], cs. split; [by split|]. split; [done|]. destruct (path_of_slash cs) as [s Hs]. rewrite Hs.
    change (s = join cs). destruct cs; [by injection Hs|]. unfold join. rewrite path_of_cons in Hs by done. by rewrite Hs. }
  case_decide as He; [intros [= <-]; exists cs, []; split; [by split|by rewrite app_nil_r]|].
  unfold starts_with at 1. destruct (strip_prefix (mnt_path m) (path_of cs)) as [t|] eqn:Ht; [|done].
  apply strip_prefix_spec in Ht. rewrite Ht, drop_app_length. intros Hrel%strip_prefix_spec. subst t.
  change (lit "/" ++ relative) with (SLASH :: relative) in Ht. apply starts_with_slash in Hm as [mp Hmp].
  destruct (decide (cs = [])) as [->|Hne].
  { rewrite Hmp in Ht. by destruct mp. }
  pose proof (f_equal split Ht) as Hsp. rewrite split_app, Hmp, path_of_cons in Hsp by done.
  rewrite split_names in Hsp by (eapply Forall_impl; [exact Hcs|intros ? H; apply H]).
  simpl in Hsp. injection Hsp as Hsp. exists (split mp), (split relative). split; [split|split; [done|]].
  - rewrite Hsp in Hcs. by apply Forall_app in Hcs as [? _].
  - rewrite path_of_cons by (destruct (split_cons mp) as (? & ? & ->); done). by rewrite split_join.
  - unfold join. by rewrite split_join.
Qed.

Lemma matches_under m ms rest : Forall name ms -> mnt_path m = path_of ms ->
  matches m (path_of (ms ++ rest)) <> None.
Proof.
  intros Hms Hm. unfold matches. case_decide as Hr; [done|]. case_decide as He; [done|].
  destruct (decide (ms = [])) as [->|Hne]; [done|]. destruct (decide (rest = [])) as [->|Hne'].
  { rewrite app_nil_r in He. congruence. }
  rewrite path_of_app, Hm by done. unfold starts_with at 1. rewrite strip_prefix_app, drop_app_length.
  by rewrite strip_slash.
Qed.

Lemma first_match_some i l q j relative : first_match (Fat:=Fat) i l q = Some (j, relative) ->
  exists k m, j = (i + k)%nat /\ l !! k = Some m /\ matches m q = Some relative /\
    forall k' m', (k' < k)%nat -> l !! k' = Some m' -> matches m' q = None.
Proof.
  revert i. induction l as [|m l IH]; intros i; simpl; [done|]. destruct (matches m q) eqn:E.
  - intros [= <- <-]. exists 0%nat, m. splits; [lia|done|done|intros; lia].
  - intros (k & m' & -> & Hk & Hm & Hall)%IH. exists (S k), m'. splits; [lia|done|done|].
    intros [|k'] m1 Hlt Hl; [by injection Hl as <-|]. eapply Hall; [|done]. lia.
Qed.

Lemma first_match_none i l q : first_match (Fat:=Fat) i l q = None -> forall m, m ∈ l -> matches m q = None.
Proof.
  revert i. induction l as [|m l IH]; intros i; simpl; [intros _ m Hm; by apply elem_of_nil in Hm|].
  destruct (matches m q) eqn:E; [done|]. intros H m' [->|Hm']%elem_of_cons; [done|by eapply IH].
Qed.
End Matching.

Lemma len_app a b : Str.len (a ++ b) = Str.len a + Str.len b.
Proof. unfold Str.len, Str.as_bytes. rewrite bind_app, length_app. lia. Qed.

Lemma len_pos c s : 1 <= Str.len (c :: s).
Proof.
  unfold Str.len, Str.as_bytes. rewrite bind_cons, length_app. unfold Str.encode. repeat case_match; simpl; lia.
Qed.

Lemma len_nonneg s : 0 <= Str.len s.
Proof. unfold Str.len. lia. Qed.

(** A directory below another one has the longer path. *)
Lemma len_below ms ms' : Forall name ms' -> ms `prefix_of` ms' -> ms <> ms' -> Str.len (path_of ms) < Str.len (path_of ms').
Proof.
  intros Hn [k ->] Hne. destruct k as [|c k]; [by rewrite app_nil_r in Hne|]. destruct ms as [|c' ms].
  - assert (path_of ([] ++ c :: k) = [SLASH] ++ c ++ (k ≫= (fun c => SLASH :: c))) as -> by done.
    rewrite !len_app. inversion Hn as [|? ? Hc]; subst. destruct c as [|x c]; [by destruct Hc|].
    pose proof (len_pos x c). pose proof (len_nonneg (k ≫= (fun c => SLASH :: c))). change (path_of []) with [SLASH]. lia.
  - rewrite path_of_app, len_app by done. pose proof (len_pos SLASH (join (c :: k))). lia.
Qed.

Section Resolution.
Context {Fat : Type}.
Implicit Types (v : Vfs Fat) (m : Mount Fat) (p q : str).

(** The current directory is a normal path; mount points are absolute, differ from each other,
    and longer ones come first. *)
Definition longer m m' : Prop := Str.len (mnt_path m') <= Str.len (mnt_path m).
Record vfs_wf v : Prop := {
  wf_cwd : normal (cwd v);
  wf_absolute : Forall (fun m => starts_with (lit "/") (mnt_path m) = true) (mounts v);
  wf_distinct : NoDup (mnt_path <$> mounts v);
  wf_sorted : StronglySorted longer (mounts v)
}.

Lemma sorted_lookup (l : list (Mount Fat)) i j m m' : StronglySorted longer l -> l !! i = Some m -> l !! j = Some m' ->
  (i < j)%nat -> longer m m'.
Proof.
  intros Hl Hi Hj Hlt. rewrite <- (take_drop j l) in Hl. eapply StronglySorted_app_1_elem_of; [exact Hl|..].
  - apply list_elem_of_lookup. exists i. by rewrite lookup_take_lt.
  - apply list_elem_of_lookup. exists 0%nat. by rewrite lookup_drop, Nat.add_0_r.
Qed.

(** C16: A path resolves to the file system that is mounted closest to it: the one at the longest
    mount point that is the directory of the normalised path or one above it, with the rest
    of the path; a path below no mount point is not found. *)
Theorem resolve_spec v p : vfs_wf v ->
  match resolve v p with
  | Ok (i, relative) => exists q m ms rest, normalize_path v p = Ok q /\ mounts v !! i = Some m /\ mounted_at m ms /\
      components q = ms ++ rest /\ relative = join rest /\
      forall m' ms', m' ∈ mounts v -> mounted_at m' ms' -> ms' `prefix_of` components q -> ms' `prefix_of` ms
  | Err e => normalize_path v p = Err e \/
      e = Fat32Error.NotFound /\ exists q, normalize_path v p = Ok q /\
        forall m ms, m ∈ mounts v -> mounted_at m ms -> ~ ms `prefix_of` components q
  | Panic => False
  end.
Proof.
  intros Hv. unfold resolve. pose proof (normalize_no_panic v p (wf_cwd v Hv)) as Hnp.
  destruct (normalize_path v p) as [q|e|] eqn:Hq; cbn [mbind res_bind]; [|by left|done]. clear Hnp.
  destruct (normalize_normal v p q (wf_cwd v Hv) Hq) as (cs & Hcs & ->).
  destruct (first_match 0 (mounts v) (path_of cs)) as [[i relative]|] eqn:Hf.
  - apply first_match_some in Hf as (k & m & -> & Hk & Hm & Hall).
    pose proof (wf_absolute v Hv) as Ha. rewrite Forall_forall in Ha.
    destruct (matches_some m cs relative Hcs) as (ms & rest & Hat & -> & ->);
      [apply Ha; by eapply list_elem_of_lookup_2|done|]. exists (path_of (ms ++ rest)), m, ms, rest. rewrite components_path by done.
    splits; try done. intros m' ms' Hin [Hn Hp] Hpre.
    destruct (prefix_weak_total ms' ms (ms ++ rest)) as [|Hle]; [done|by exists rest|done|].
    destruct (decide (ms = ms')) as [->|Hne]; [done|]. exfalso. apply list_elem_of_lookup in Hin as [k' Hk'].
    pose proof (len_below ms ms' Hn Hle Hne) as Hlen. destruct Hat as [_ Hmp]. destruct Hpre as [r Hr].
    destruct (Nat.lt_trichotomy k' k) as [Hlt|[->|Hlt]].
    + apply (matches_under m' ms' r Hn Hp). rewrite <- Hr. by eapply Hall.
    + simpl in Hk. rewrite Hk in Hk'. injection Hk' as <-. congruence || (rewrite Hmp in Hp; rewrite Hp in Hlen; lia).
    + pose proof (sorted_lookup _ _ _ _ _ (wf_sorted v Hv) Hk Hk' Hlt) as Hl. unfold longer in Hl.
      rewrite Hp, Hmp in Hl. lia.
  - right. split; [done|]. exists (path_of cs). split; [done|]. rewrite components_path by done. intros m ms Hin [Hn Hp] [r ->].
    apply (matches_under m ms r Hn Hp). by eapply first_match_none.
Qed.

(** ** Changes of the table *)

Inductive VfsCall := VAdd (path : str) (f : Fat) (ro : bool) | VRemove (path : str) | VChdir (path : str).

Definition vfs_step v (c : VfsCall) : Vfs Fat :=
  match c with
  | VAdd path f ro => match mount_new path f ro with Ok m => (add_mount m v).2 | _ => v end
  | VRemove path => (remove_mount path v).2
  | VChdir path => (set_cwd path v).2
  end.

Lemma find_index_some {A} (P : A → bool) l i : find_index P l = Some i ->
  exists x, l !! i = Some x /\ P x = true /\ forall j y, (j < i)%nat -> l !! j = Some y -> P y = false.
Proof.
  unfold find_index. destruct (list_find _ l) as [[k x]|] eqn:E; [|done]. intros [= <-].
  apply list_find_Some in E as (Hx & Hp & Hall). exists x. splits; [done..|]. intros j y Hj Hy.
  apply not_true_is_false. by eapply Hall.
Qed.

Lemma find_index_none {A} (P : A → bool) l : find_index P l = None -> Forall (fun x => P x = false) l.
Proof.
  unfold find_index. destruct (list_find _ l) eqn:E; [done|]. intros _. apply list_find_None in E.
  eapply Forall_impl; [exact E|]. intros x Hx. by apply not_true_is_false.
Qed.

Lemma insert_sorted (l : list (Mount Fat)) m pos :
  pos = default (length l) (find_index (fun m' => Str.len (mnt_path m') <? Str.len (mnt_path m)) l) ->
  StronglySorted longer l -> StronglySorted longer (take pos l ++ m :: drop pos l).
Proof.
  intros Hpos Hl. rewrite <- (take_drop pos l) in Hl. apply StronglySorted_app in Hl as (Hab & Ha & Hb).
  destruct (find_index _ l) as [i|] eqn:E; simpl in Hpos; subst pos.
  - apply find_index_some in E as (x & Hx & Hlt & Hall). apply Z.ltb_lt in Hlt.
    assert (forall y, y ∈ drop i l -> longer m y) as Hm.
    { rewrite (drop_S _ _ _ Hx) in *. inversion Hb as [|? ? _ Hy]; subst. rewrite Forall_forall in Hy. unfold longer in *.
      intros y [->|Hin]%elem_of_cons; [lia|]. specialize (Hy _ Hin). lia. }
    apply StronglySorted_app. splits; [|done|constructor; [done|by rewrite Forall_forall]].
    intros y z Hy Hz. apply elem_of_take in Hy as (j & Hy & Hj). pose proof (Hall j y Hj Hy) as Hge. apply Z.ltb_ge in Hge.
    apply elem_of_cons in Hz as [->|Hz]; [done|]. eapply Hab; [|done]. apply elem_of_take. eauto.
  - apply find_index_none in E. rewrite Forall_forall in E. rewrite drop_all, take_ge in * by done.
    apply StronglySorted_app. splits; [|done|repeat constructor]. intros y z Hy [->|Hz%elem_of_nil]%elem_of_cons; [|done].
    specialize (E _ Hy). apply Z.ltb_ge in E. done.
Qed.
Lemma insert_perm {A} pos (x : A) l : take pos l ++ x :: drop pos l ≡ₚ x :: l.
Proof. rewrite <- Permutation_middle. by rewrite take_drop. Qed.

Lemma add_mount_wf v m : vfs_wf v -> starts_with (lit "/") (mnt_path m) = true ->
  wp (add_mount m) v (fun o v' => vfs_wf v' /\ cwd v' = cwd v /\
    if decide (mnt_path m ∈ mnt_path <$> mounts v) then o = Err Fat32Error.AlreadyExists /\ v' = v
    else o = Ok tt /\ mounts v' ≡ₚ m :: mounts v).
Proof.
  intros Hv Hm. unfold add_mount. wsteps. destruct (existsb _ _) eqn:E; wsteps.
  - rewrite decide_True; [done|]. apply existsb_exists in E as (m' & Hin & He%bool_decide_eq_true).
    apply list_elem_of_fmap. exists m'. split; [done|]. by apply list_elem_of_In.
  - assert (mnt_path m ∉ mnt_path <$> mounts v) as Hno.
    { intros (m' & He & Hin)%list_elem_of_fmap. apply not_true_iff_false in E. apply E, existsb_exists. exists m'.
      split; [by apply list_elem_of_In|]. by apply bool_decide_eq_true. }
    rewrite decide_False by done. set (pos := default _ _). destruct Hv as [Hc Ha Hd Hs]. simpl.
    splits; [split; simpl; [done|..]|done|done|apply insert_perm].
    + rewrite insert_perm. by constructor.
    + rewrite (insert_perm pos m). simpl. by constructor.
    + by apply insert_sorted.
Qed.

Lemma remove_mount_wf v path : vfs_wf v ->
  wp (remove_mount path) v (fun o v' => vfs_wf v' /\ cwd v' = cwd v /\
    match o with
    | Ok m => mnt_path m = path /\ mounts v ≡ₚ m :: mounts v'
    | Err e => e = Fat32Error.NotFound /\ v' = v /\ path ∉ mnt_path <$> mounts v
    | Panic => False
    end).
Proof.
  intros Hv. unfold remove_mount. wsteps. destruct (list_find _ _) as [[pos m]|] eqn:E; wsteps.
  - apply list_find_Some in E as (Hm & Hp & _). destruct Hv as [Hc Ha Hd Hs].
    pose proof (take_drop_middle _ _ _ Hm) as Hl. simpl.
    assert (mounts v ≡ₚ m :: take pos (mounts v) ++ drop (S pos) (mounts v)) as Hperm by (rewrite Permutation_middle; by rewrite Hl).
    splits; [split; simpl; [done|..]|done|done|done].
    + rewrite Hperm in Ha. by inversion Ha.
    + rewrite Hperm in Hd. by apply NoDup_cons in Hd as [_ ?].
    + rewrite <- Hl in Hs. apply StronglySorted_app in Hs as (Hab & Hsa & Hsb). inversion Hsb; subst.
      apply StronglySorted_app. splits; [|done|done]. intros. eapply Hab; [done|]. by right.
  - splits; try done. apply list_find_None in E. intros (m & -> & Hin)%list_elem_of_fmap. rewrite Forall_forall in E. by apply (E m).
Qed.

Lemma set_cwd_wf v path : vfs_wf v ->
  wp (set_cwd path) v (fun o v' => vfs_wf v' /\ mounts v' = mounts v /\ o <> Panic /\
    (o = Ok tt -> normalize_path v path = Ok (cwd v')) /\ (o <> Ok tt -> v' = v)).
Proof.
  intros Hv. unfold set_cwd. wsteps. pose proof (normalize_no_panic v path (wf_cwd v Hv)) as Hnp.
  destruct (normalize_path v path) as [q|e|] eqn:Hq; [|by splits|done]. clear Hnp.
  assert (vfs_wf (with_cwd q v)) as Hv'.
  { destruct Hv as [Hc Ha Hd Hs]. split; try done. by eapply normalize_normal. }
  wsteps. case_decide; wsteps; [|by splits]. pose proof (resolve_no_panic v q (wf_cwd v Hv)) as Hr.
  destruct (resolve v q) as [[i r]|e|]; [wsteps; by splits|by splits|done].
Qed.

Lemma vfs_new_wf : vfs_wf (vfs_new).
Proof. split; simpl; [by exists []|constructor..]. Qed.

(** C18: However file systems are mounted and unmounted and the current directory changes, the table
    stays well formed: mount points are absolute and all different, longer ones come first,
    and the current directory is a normal path. *)
Theorem vfs_well_formed (calls : list VfsCall) : vfs_wf (foldl vfs_step vfs_new calls).
Proof.
  induction calls as [|c calls IH] using rev_ind.
  - apply vfs_new_wf.
  - rewrite foldl_snoc. set (v := foldl vfs_step vfs_new calls) in *. destruct c as [path f ro|path|path]; simpl.
    + unfold mount_new. destruct (starts_with _ path) eqn:E; [|done]. by apply (add_mount_wf v (mkMount path f ro) IH).
    + by apply (remove_mount_wf v path IH).
    + by apply (set_cwd_wf v path IH).
Qed.
End Resolution.

(** ** Witnesses *)

(** Two file systems, and a current directory. *)
Definition sample_vfs : Vfs nat :=
  foldl vfs_step vfs_new [VAdd (lit "/") 0%nat true; VAdd (lit "/data") 1%nat false; VChdir (lit "/data/a")].

Lemma sample_wf : vfs_wf sample_vfs.
Proof.
  assert (normal (lit "/data/a")) as Hn.
  { exists [lit "data"; lit "a"]. split; [|done]. apply (bool_decide_unpack _). vm_compute. exact I. }
  split; [exact Hn|by repeat constructor|..].
  - vm_compute. rewrite !NoDup_cons, elem_of_nil, list_elem_of_singleton. split; [discriminate|]. split; [tauto|constructor].
  - repeat constructor; vm_compute; discriminate.
Qed.

Lemma normalize_path_spec_witness : normalize_path sample_vfs (lit "../b//./c") = Ok (lit "/data/b/c") /\ normal (lit "/data/b/c").
Proof.
  split; [vm_compute; reflexivity|]. pose proof (normalize_path_spec sample_vfs (lit "../b//./c") (wf_cwd _ sample_wf)) as H.
  assert (normalize_path sample_vfs (lit "../b//./c") = Ok (lit "/data/b/c")) as E by (vm_compute; reflexivity).
  rewrite E in H. exact (proj1 H).
Defined.

Lemma resolve_spec_witness : resolve sample_vfs (lit "b") = Ok (0%nat, lit "a/b") /\
  exists m, mounts sample_vfs !! 0%nat = Some m /\ mnt_path m = lit "/data".
Proof.
  split; [vm_compute; reflexivity|]. pose proof (resolve_spec sample_vfs (lit "b") sample_wf) as H.
  assert (resolve sample_vfs (lit "b") = Ok (0%nat, lit "a/b")) as E by (vm_compute; reflexivity). rewrite E in H.
  destruct H as (q & m & ms & rest & _ & Hm & _). exists m. split; [exact Hm|]. vm_compute in Hm. by injection Hm as <-.
Defined.
