(* ===== verification/FatFs.v ===== *)
(** * FAT file systems

    [libs/fat32/src/fat]: a file system and its open files, over the crate [fatfs].  That
    crate is not part of the repository; the class [FatFs] has the functions of it that the
    code calls, and [FatFsLaws] what its documentation says about open files. *)

From S2P Require Import Prelude Error Str FatStorage MountTable.
#[local] Open Scope Z_scope.

(** An entry of a directory, and a part of a file that is contiguous on the storage. *)
Record FsEntry := mkFsEntry { fe_name : str; fe_is_dir : bool; fe_len : Z }.
Record Extent := mkExtent { ext_offset : Z; ext_size : Z }.

(** The crate.  A value of type [FsFile] is an open file, with its position. *)
Class FatFs := {
  FileSystem : Type;
  FsFile : Type;
  fs_new : Storage → list Z → res FsError.t FileSystem;
  fs_format : Storage → list Z → res FsError.t (list Z);
  fs_bytes : FileSystem → list Z;
  fs_open_file : str → M FileSystem FsError.t FsFile;
  fs_open_dir : str → M FileSystem FsError.t unit;
  fs_iter : option str → M FileSystem FsError.t (list (res FsError.t FsEntry));
  fs_create_file : str → M FileSystem FsError.t FsFile;
  fs_create_dir : str → M FileSystem FsError.t unit;
  fs_remove : str → M FileSystem FsError.t unit;
  fs_rename : str → str → M FileSystem FsError.t unit;
  fs_drop_writes : FileSystem → bool;
  file_extents : FsFile → M FileSystem FsError.t (list (res FsError.t Extent));
  file_read : Z → M (FileSystem * FsFile) FsError.t (list Z);
  file_write : list Z → M (FileSystem * FsFile) FsError.t Z;
  file_seek : SeekFrom → M (FileSystem * FsFile) FsError.t Z;
  file_flush : M (FileSystem * FsFile) FsError.t unit;
  file_truncate : M (FileSystem * FsFile) FsError.t unit;
  file_drop : FsFile → FileSystem → FileSystem
}.

Section FatFs.
Context {FF : FatFs}.
Notation F := (M FileSystem Fat32Error).

(** [FatFile]: an open file with what it was opened for. *)
Record FatFile := mkFatFile { ff_inner : FsFile; can_read : bool; can_write : bool }.
Notation O := (M (FileSystem * FatFile) Fat32Error).

(** [Fat]: whether its storage is read-only, and where its memory begins. *)
Record Fat := mkFat { is_readonly : bool; base_ptr : Z }.

Record FatStat := mkFatStat { fst_size : Z; fst_is_dir : bool }.
Record FatDirEntry := mkFatDirEntry { fde_name : str; fde_is_dir : bool; fde_size : Z }.

Definition map_err {S A} (m : M S FsError.t A) : M S Fat32Error A := catch m (fun e => fail (map_fatfs_error e)).

(** The result of code as a value. *)
Definition result {S E E' A} (m : M S E A) : M S E' (A + E) := catch (a ← m; mret (inl a)) (fun e => mret (inr e)).

Definition drop_fs_file (f : FsFile) : F unit := modify (file_drop f).

(** Code that works on a local file, which is dropped when it returns early. *)
Definition on_local {A} (f : FsFile) (m : M (FileSystem * FsFile) FsError.t A) : F (A * FsFile) := fun fs =>
  match m (fs, f) with
  | (Ok a, (fs, f)) => (Ok (a, f), fs)
  | (Err e, (fs, f)) => (Err (map_fatfs_error e), file_drop f fs)
  | (Panic, (fs, _)) => (Panic, fs)
  end.

(** Whether a file, or a directory, can be opened; the handle is dropped at once. *)
Definition file_exists (path : str) : F bool :=
  r ← result (fs_open_file path);
  match r with inl f => drop_fs_file f;; mret true | inr _ => mret false end.
Definition dir_exists (path : str) : F bool :=
  r ← result (fs_open_dir path);
  match r with inl _ => mret true | inr _ => mret false end.

(** ** Fat *)

Definition fat_from_memory (ptr : Z) (bytes : list Z) : res Fat32Error FileSystem :=
  storage ← RawMemoryStorage.new ptr (Z.of_nat (length bytes));
  match fs_new storage bytes with Ok fs => Ok fs | Err e => Err (map_fatfs_error e) | Panic => Panic end.

Definition fat_from_memory_readonly (ptr : Z) (bytes : list Z) : res Fat32Error FileSystem :=
  storage ← ReadOnlyMemoryStorage.new ptr (Z.of_nat (length bytes));
  match fs_new storage bytes with Ok fs => Ok fs | Err e => Err (map_fatfs_error e) | Panic => Panic end.

Definition truncate_if (b : bool) (f : FsFile) : F FsFile :=
  if b then '(_, f) ← on_local f file_truncate; mret f else mret f.

Definition fat_open (fat : Fat) (path : str) (read write create truncate : bool) : F FatFile :=
  if is_readonly fat && (write || create || truncate) then fail Fat32Error.ReadOnly
  else if create then
    r ← result (fs_open_file path);
    match r with
    | inl file => file ← truncate_if truncate file; mret (mkFatFile file read write)
    | inr FsError.NotFound => file ← map_err (fs_create_file path); mret (mkFatFile file read write)
    | inr e => fail (map_fatfs_error e)
    end
  else
    file ← map_err (fs_open_file path);
    file ← truncate_if (truncate && write) file;
    mret (mkFatFile file read write).

Definition fat_create_new (fat : Fat) (path : str) (read write : bool) : F FatFile :=
  if is_readonly fat then fail Fat32Error.ReadOnly
  else
    exists_ ← file_exists path;
    if (exists_ : bool) then fail Fat32Error.AlreadyExists
    else file ← map_err (fs_create_file path); mret (mkFatFile file read write).

(** The path of the root. *)
Definition root_path (path : str) : bool := bool_decide (path = [] \/ path = lit "/" \/ path = lit ".").

Definition fat_stat (path : str) : F FatStat :=
  if root_path path then mret (mkFatStat 0 true)
  else
    r ← result (fs_open_file path);
    match r with
    | inl file => '(size, file) ← on_local file (file_seek (SeekEnd 0)); drop_fs_file file;; mret (mkFatStat size false)
    | inr _ => d ← dir_exists path; if (d : bool) then mret (mkFatStat 0 true) else fail Fat32Error.NotFound
    end.

(** The loop over the extents: the first offset, the sum of the sizes, and where the next one
    has to start; [None] when there is a gap or an error. *)
Fixpoint contiguous (first_offset : option Z) (total_size next_expected : Z) (l : list (res FsError.t Extent))
    : res Fat32Error (option (option Z * Z)) :=
  match l with
  | [] => Ok (Some (first_offset, total_size))
  | Ok extent :: l =>
    if (match first_offset with Some _ => true | None => false end) && negb (ext_offset extent =? next_expected)
    then Ok None
    else
      total_size ← usize_add total_size (ext_size extent);
      contiguous (Some (default (ext_offset extent) first_offset)) total_size (ext_offset extent + ext_size extent) l
  | Err _ :: _ => Ok None
  | Panic :: _ => Panic
  end.

(** The offset in the memory of the file system, and the size. *)
Definition fat_file_raw_region (path : str) : F (option (Z * Z)) :=
  r ← result (fs_open_file path);
  match r with
  | inr _ => mret None
  | inl file =>
    e ← result (file_extents file);
    drop_fs_file file;;
    match e with
    | inr _ => mret None
    | inl extents =>
      c ← lift (contiguous None 0 0 extents);
      match c with
      | Some (Some offset, total_size) => mret (if total_size =? 0 then None else Some (offset, total_size))
      | _ => mret None
      end
    end
  end.

Fixpoint collect_entries (l : list (res FsError.t FsEntry)) : res Fat32Error (list FatDirEntry) :=
  match l with
  | [] => Ok []
  | Ok entry :: l =>
    entries ← collect_entries l;
    Ok (if bool_decide (fe_name entry = lit "." \/ fe_name entry = lit "..") then entries
        else mkFatDirEntry (fe_name entry) (fe_is_dir entry) (fe_len entry) :: entries)
  | Err e :: _ => Err (map_fatfs_error e)
  | Panic :: _ => Panic
  end.

Definition fat_read_dir (path : str) : F (list FatDirEntry) :=
  entries ← map_err (fs_iter (if root_path path then None else Some path));
  lift (collect_entries entries).

(** A path that is the root, and a file system that cannot change, are refused. *)
Definition check_change (fat : Fat) (path : str) : F unit :=
  if decide (path = []) then fail Fat32Error.NotFound
  else if is_readonly fat then fail Fat32Error.ReadOnly else mret tt.

Definition fat_mkdir (fat : Fat) (path : str) : F unit :=
  check_change fat path;;
  d ← dir_exists path;
  if (d : bool) then fail Fat32Error.AlreadyExists else map_err (fs_create_dir path).

Definition fat_rmdir (fat : Fat) (path : str) : F unit :=
  check_change fat path;;
  f ← file_exists path;
  if (f : bool) then fail Fat32Error.NotADirectory
  else map_err (fs_open_dir path);; map_err (fs_remove path).

Definition fat_unlink (fat : Fat) (path : str) : F unit :=
  check_change fat path;;
  d ← dir_exists path;
  if (d : bool) then fail Fat32Error.NotAFile
  else file ← map_err (fs_open_file path); drop_fs_file file;; map_err (fs_remove path).

Definition fat_rename (fat : Fat) (old_path new_path : str) : F unit :=
  if decide (old_path = [] \/ new_path = []) then fail Fat32Error.NotFound
  else if is_readonly fat then fail Fat32Error.ReadOnly
  else map_err (fs_rename old_path new_path).

(** ** FatFile *)

(** The file inside. *)
Definition on_inner {A} (m : M (FileSystem * FsFile) FsError.t A) : O A :=
  zoom (fun s => (s.1, ff_inner s.2)) (fun t s => (t.1, mkFatFile t.2 (can_read s.2) (can_write s.2))) (map_err m).

Definition fatfile_seek (pos : SeekFrom) : O Z := on_inner (file_seek pos).

Definition fatfile_len : O Z :=
  current ← fatfile_seek (SeekCurrent 0);
  size ← fatfile_seek (SeekEnd 0);
  fatfile_seek (SeekStart current);;
  mret size.

Definition fatfile_is_empty : O bool := n ← fatfile_len; mret (n =? 0).

Definition fatfile_read (n : Z) : O (list Z) :=
  s ← get;
  if can_read s.2 then on_inner (file_read n) else fail Fat32Error.PermissionDenied.

Definition fatfile_write (buf : list Z) : O Z :=
  s ← get;
  if can_write s.2 then on_inner (file_write buf) else fail Fat32Error.ReadOnly.

Definition fatfile_flush : O unit := on_inner file_flush.

Definition fatfile_truncate : O unit :=
  s ← get;
  if can_write s.2 then on_inner file_truncate else fail Fat32Error.ReadOnly.
End FatFs.
