(* ===== verification/VfsState.v ===== *)
(** * The virtual file system: mounts and files

    [libs/vfs/src/state.rs] and [file.rs]: the global state, mounting and unmounting, the
    counts of open files, and the operations on paths.  The locks around each part of the
    state are taken and released within an operation; the model runs one operation at a time.

    File systems live in the table of mounts and open files borrow them.  The model keeps
    them in a store of their own, [images], under the address of their memory; [regions] are
    the addresses of memory that has not been freed.  Access to a file system whose memory is
    gone is undefined behaviour in Rust and a panic here. *)

From S2P Require Import Prelude Error Str FatStorage MountTable FatFs.
#[local] Open Scope Z_scope.

Definition MIN_FAT_SIZE : Z := 64 * 1024.
Definition MAX_FAT_SIZE : Z := 128 * 1024 * 1024.

Record GuestMountInfo := mkGuestMountInfo { gm_path : str; memory_ptr : Z; memory_size : Z }.
Record OpenFileCount := mkOpenFileCount { ofc_mount_path : str; ofc_count : Z }.

(** Results of looking at a path. *)
Record Stat := mkStat { stat_size : Z; stat_is_dir : bool }.
Record DirEntry := mkDirEntry { de_name : str; de_is_dir : bool; de_size : Z }.

Record OpenOptions := mkOpenOptions { opt_read : bool; opt_write : bool; opt_create : bool; opt_create_new : bool; opt_truncate : bool }.

Section VfsState.
Context {FF : FatFs}.

(** An open file: the borrow of the file system is the address of its memory. *)
Record File := mkFile { file_inner : FatFile; file_fs : Z; file_mount_path : str }.

Record FsState := mkFsState {
  VFS_STATE : option (Vfs Fat);
  GUEST_MOUNTS : list GuestMountInfo;
  OPEN_FILE_COUNTS : list OpenFileCount;
  images : gmap Z FileSystem;
  regions : gset Z
}.
Notation F := (M FsState Fat32Error).

Definition with_vfs_state v (s : FsState) : FsState := mkFsState v (GUEST_MOUNTS s) (OPEN_FILE_COUNTS s) (images s) (regions s).
Definition with_guest_mounts g (s : FsState) : FsState := mkFsState (VFS_STATE s) g (OPEN_FILE_COUNTS s) (images s) (regions s).
Definition with_counts c (s : FsState) : FsState := mkFsState (VFS_STATE s) (GUEST_MOUNTS s) c (images s) (regions s).
Definition with_images i (s : FsState) : FsState := mkFsState (VFS_STATE s) (GUEST_MOUNTS s) (OPEN_FILE_COUNTS s) i (regions s).
Definition with_regions r (s : FsState) : FsState := mkFsState (VFS_STATE s) (GUEST_MOUNTS s) (OPEN_FILE_COUNTS s) (images s) r.

(** The state before [init]. *)
Definition no_vfs : FsState := mkFsState None [] [] ∅ ∅.

(** ** Access to file systems *)

Definition deref_fs (ptr : Z) : F FileSystem :=
  s ← get;
  match images s !! ptr with
  | Some fs => if decide (ptr ∈ regions s) then mret fs else panic
  | None => panic
  end.
Definition store_fs (ptr : Z) (fs : FileSystem) : F unit := modify (fun s => with_images (<[ptr := fs]> (images s)) s).

(** Code on the file system at [ptr]. *)
Definition on_fs {A} (ptr : Z) (m : M FileSystem Fat32Error A) : F A :=
  fs ← deref_fs ptr;
  let '(r, fs') := m fs in
  store_fs ptr fs';; lift r.

(** A new file system in its memory. *)
Definition create_fs (ptr : Z) (fs : FileSystem) : F unit :=
  modify (fun s => with_regions ({[ptr]} ∪ regions s) (with_images (<[ptr := fs]> (images s)) s)).

(** [Drop for FileSystem] writes to the storage what has not been written yet. *)
Definition drop_fat (fat : Fat) : F unit :=
  s ← get;
  match images s !! base_ptr fat with
  | None => panic
  | Some fs =>
    if fs_drop_writes fs && negb (bool_decide (base_ptr fat ∈ regions s)) then panic
    else put (with_images (delete (base_ptr fat) (images s)) s)
  end.

Definition free_memory (ptr : Z) : F unit := modify (fun s => with_regions (regions s ∖ {[ptr]}) s).

(** ** state.rs *)

Definition init : F unit :=
  s ← get;
  match VFS_STATE s with
  | Some _ => fail Fat32Error.NotSupported
  | None => put (with_vfs_state (Some vfs_new) s)
  end.

Definition is_initialized (s : FsState) : bool := match VFS_STATE s with Some _ => true | None => false end.

Definition with_vfs {A} (f : Vfs Fat → res Fat32Error A) : F A :=
  s ← get;
  match VFS_STATE s with Some vfs => lift (f vfs) | None => fail Fat32Error.NotInitialized end.

Definition with_vfs_mut {A} (m : M (Vfs Fat) Fat32Error A) : F A :=
  s ← get;
  match VFS_STATE s with
  | Some vfs => let '(r, vfs') := m vfs in modify (with_vfs_state (Some vfs'));; lift r
  | None => fail Fat32Error.NotInitialized
  end.

(** The end of both ways to mount; the file system is dropped when it cannot be added. *)
Definition enter_mount (path : str) (fat : Fat) (ro : bool) : F unit :=
  catch (mount ← lift (mount_new path fat ro); with_vfs_mut (add_mount mount))
    (fun e => drop_fat fat;; fail e).

(** The memory that the caller passes is a region with the given bytes. *)
Definition mount_image (mount_path : str) (ptr : Z) (bytes : list Z) (ro : bool) : F unit :=
  if negb (starts_with (lit "/") mount_path) then fail Fat32Error.InvalidPath
  else
    fs ← lift ((if ro then fat_from_memory_readonly else fat_from_memory) ptr bytes);
    create_fs ptr fs;;
    enter_mount mount_path (mkFat ro ptr) ro.

Definition format_fat_in_memory (ptr : Z) (bytes : list Z) : res Fat32Error (list Z) :=
  storage ← RawMemoryStorage.new ptr (Z.of_nat (length bytes));
  match fs_format storage bytes with Ok bytes => Ok bytes | Err e => Err (map_fatfs_error e) | Panic => Panic end.

(** [ptr] is what the allocator returns. *)
Definition create_mount (ptr : Z) (mount_path : str) (size : Z) : F unit :=
  if negb (starts_with (lit "/") mount_path) then fail Fat32Error.InvalidPath
  else if size <? MIN_FAT_SIZE then fail Fat32Error.InvalidArgument
  else if MAX_FAT_SIZE <? size then fail Fat32Error.InvalidArgument
  else
    s ← get;
    if negb (is_initialized s) then fail Fat32Error.NotInitialized
    else
      bytes ← lift (format_fat_in_memory ptr (replicate (Z.to_nat size) 0));
      fs ← lift (fat_from_memory ptr bytes);
      create_fs ptr fs;;
      catch (enter_mount mount_path (mkFat false ptr) false) (fun e => free_memory ptr;; fail e);;
      modify (fun s => with_guest_mounts (GUEST_MOUNTS s ++ [mkGuestMountInfo mount_path ptr size]) s).

Definition has_open_files (mount_path : str) (s : FsState) : bool :=
  existsb (fun e => bool_decide (ofc_mount_path e = mount_path) && (0 <? ofc_count e)) (OPEN_FILE_COUNTS s).

(** The result of [remove_mount] holds the file system until the end of the function: it is
    dropped after its memory has been freed. *)
Definition unmount (mount_path : str) : F unit :=
  s ← get;
  if negb (existsb (fun m => bool_decide (gm_path m = mount_path)) (GUEST_MOUNTS s)) then
    mount_exists ← with_vfs (fun vfs => Ok (existsb (fun m => bool_decide (mnt_path m = mount_path)) (mounts vfs)));
    if (mount_exists : bool) then fail Fat32Error.PermissionDenied else fail Fat32Error.NotFound
  else if has_open_files mount_path s then fail Fat32Error.FileLocked
  else
    match list_find (fun m => gm_path m = mount_path) (GUEST_MOUNTS s) with
    | None => fail Fat32Error.NotFound
    | Some (pos, info) =>
      modify (with_guest_mounts (take pos (GUEST_MOUNTS s) ++ drop (S pos) (GUEST_MOUNTS s)));;
      if negb (is_initialized s) then fail Fat32Error.NotInitialized
      else
        mount ← catch (with_vfs_mut (remove_mount mount_path))
          (fun e => modify (fun s => with_guest_mounts (GUEST_MOUNTS s ++ [info]) s);; fail e);
        free_memory (memory_ptr info);;
        drop_fat (fat mount)
    end.

(** The first entry for the path changes. *)
Fixpoint update_count (mount_path : str) (f : Z → Z) (l : list OpenFileCount) : option (list OpenFileCount) :=
  match l with
  | [] => None
  | e :: l =>
    if decide (ofc_mount_path e = mount_path) then Some (mkOpenFileCount mount_path (f (ofc_count e)) :: l)
    else cons e <$> update_count mount_path f l
  end.

Definition increment_open_count (mount_path : str) : F unit :=
  modify (fun s => with_counts
    (match update_count mount_path (fun n => n + 1) (OPEN_FILE_COUNTS s) with
     | Some l => l
     | None => OPEN_FILE_COUNTS s ++ [mkOpenFileCount mount_path 1]
     end) s).

(** [saturating_sub]. *)
Definition decrement_open_count (mount_path : str) : F unit :=
  modify (fun s => with_counts
    (default (OPEN_FILE_COUNTS s) (update_count mount_path (fun n => Z.max 0 (n - 1)) (OPEN_FILE_COUNTS s))) s).

(** ** Open files *)
Notation OF := (M (FsState * File) Fat32Error).

Definition on_fatfile {A} (m : M (FileSystem * FatFile) Fat32Error A) : OF A := fun t =>
  let '(s, f) := t in
  match deref_fs (file_fs f) s with
  | (Ok fs, _) =>
    let '(r, (fs', inner)) := m (fs, file_inner f) in
    (r, ((store_fs (file_fs f) fs' s).2, mkFile inner (file_fs f) (file_mount_path f)))
  | _ => (Panic, (s, f))
  end.

Definition SEEK_SET : Z := 0.
Definition SEEK_CUR : Z := 1.
Definition SEEK_END : Z := 2.

Definition f_read (n : Z) : OF (list Z) := on_fatfile (fatfile_read n).
Definition f_write (buf : list Z) : OF Z := on_fatfile (fatfile_write buf).

Definition f_seek (whence offset : Z) : OF Z :=
  if whence =? SEEK_SET then
    if offset <? 0 then fail Fat32Error.InvalidArgument else on_fatfile (fatfile_seek (SeekStart offset))
  else if whence =? SEEK_CUR then on_fatfile (fatfile_seek (SeekCurrent offset))
  else if whence =? SEEK_END then on_fatfile (fatfile_seek (SeekEnd offset))
  else fail Fat32Error.InvalidArgument.

Definition f_flush : OF unit := on_fatfile fatfile_flush.
Definition f_size : OF Z := on_fatfile fatfile_len.
Definition f_truncate : OF unit := on_fatfile fatfile_truncate.

(** The loop of [read_to_vec]: [buf_size] bytes are wanted. *)
Fixpoint read_loop (fuel : nat) (buf_size : Z) (acc : list Z) : OF (list Z) :=
  if Z.of_nat (length acc) <? buf_size then
    match fuel with
    | O => panic
    | S fuel =>
      bs ← on_fatfile (fatfile_read (buf_size - Z.of_nat (length acc)));
      match bs with [] => mret acc | _ => read_loop fuel buf_size (acc ++ bs) end
    end
  else mret acc.

Definition read_to_vec : OF (list Z) :=
  t ← get;
  if negb (can_read (file_inner t.2)) then fail Fat32Error.PermissionDenied
  else
    file_size ← on_fatfile (fatfile_seek (SeekEnd 0));
    on_fatfile (fatfile_seek (SeekStart 0));;
    if usize_max <? file_size then fail Fat32Error.OutOfMemory
    else read_loop (Z.to_nat file_size) file_size [].

(** [Drop for File], then that of the file inside. *)
Definition drop_file (f : File) : F unit :=
  decrement_open_count (file_mount_path f);;
  on_fs (file_fs f) (drop_fs_file (ff_inner (file_inner f))).

(** ** Paths *)

Definition resolve_path (path : str) : F (nat * str) := with_vfs (fun vfs => resolve vfs path).

(** [vfs.get_mount(mount_idx).ok_or(..)]. *)
Definition mount_at (mount_idx : nat) : F (Mount Fat) :=
  with_vfs (fun vfs => match get_mount vfs mount_idx with Some m => Ok m | None => Err Fat32Error.NotFound end).

Definition check_writable (mount_idx : nat) : F unit :=
  mount ← mount_at mount_idx;
  if readonly mount then fail Fat32Error.ReadOnly else mret tt.

Definition file_raw_region (path : str) : F (option (Z * Z * Z)) :=
  catch
    ('(mount_idx, relative_path) ← resolve_path path;
     mount ← mount_at mount_idx;
     r ← on_fs (base_ptr (fat mount)) (fat_file_raw_region relative_path);
     mret ((fun x => (base_ptr (fat mount), x.1, x.2)) <$> r))
    (fun _ => mret None).

Definition vfs_path_stat (path : str) : F Stat :=
  '(mount_idx, relative_path) ← resolve_path path;
  if decide (relative_path = []) then mret (mkStat 0 true)
  else
    mount ← mount_at mount_idx;
    st ← on_fs (base_ptr (fat mount)) (fat_stat relative_path);
    mret (mkStat (fst_size st) (fst_is_dir st)).

(** Operations that change a directory: not at a mount point, and not when it is read-only. *)
Definition change_path {A} (path : str) (op : Fat → str → M FileSystem Fat32Error A) : F A :=
  '(mount_idx, relative_path) ← resolve_path path;
  if decide (relative_path = []) then fail Fat32Error.NotFound
  else
    check_writable mount_idx;;
    mount ← mount_at mount_idx;
    on_fs (base_ptr (fat mount)) (op (fat mount) relative_path).

Definition mkdir (path : str) : F unit := change_path path fat_mkdir.
Definition rmdir (path : str) : F unit := change_path path fat_rmdir.
Definition unlink (path : str) : F unit := change_path path fat_unlink.

Definition read_dir (path : str) : F (list DirEntry) :=
  '(mount_idx, relative_path) ← resolve_path path;
  mount ← mount_at mount_idx;
  entries ← on_fs (base_ptr (fat mount)) (fat_read_dir (if decide (relative_path = []) then lit "." else relative_path));
  mret ((fun e => mkDirEntry (fde_name e) (fde_is_dir e) (fde_size e)) <$> entries).

Definition rename (old_path new_path : str) : F unit :=
  '(old_idx, old_rel) ← resolve_path old_path;
  '(new_idx, new_rel) ← resolve_path new_path;
  if decide (old_rel = [] \/ new_rel = []) then fail Fat32Error.NotFound
  else if negb (Nat.eqb old_idx new_idx) then fail Fat32Error.InvalidPath
  else
    check_writable old_idx;;
    mount ← mount_at old_idx;
    on_fs (base_ptr (fat mount)) (fat_rename (fat mount) old_rel new_rel).

Definition current_dir : F str := with_vfs (fun vfs => Ok (cwd vfs)).
Definition chdir (path : str) : F unit := with_vfs_mut (set_cwd path).
Definition normalize (path : str) : F str := with_vfs (fun vfs => normalize_path vfs path).

Definition open_with_options (path : str) (read write create create_new truncate : bool) : F File :=
  '(mount_idx, relative_path) ← resolve_path path;
  if decide (relative_path = []) then fail Fat32Error.NotFound
  else
    (if write || create || create_new || truncate then check_writable mount_idx else mret tt);;
    mount ← mount_at mount_idx;
    fat_file ← on_fs (base_ptr (fat mount))
      (if create_new then fat_create_new (fat mount) relative_path read write
       else fat_open (fat mount) relative_path read write create truncate);
    increment_open_count (mnt_path mount);;
    mret (mkFile fat_file (base_ptr (fat mount)) (mnt_path mount)).

Definition open (path : str) : F File := open_with_options path true false false false false.

Definition options_open (o : OpenOptions) (path : str) : F File :=
  if opt_truncate o && negb (opt_write o) then fail Fat32Error.InvalidArgument
  else if opt_create_new o && (opt_create o || opt_truncate o) then fail Fat32Error.InvalidArgument
  else
    let read := if negb (opt_read o) && negb (opt_write o) then true else opt_read o in
    open_with_options path read (opt_write o) (opt_create o) (opt_create_new o) (opt_truncate o).
End VfsState.
