(* ===== verification/VfsFd.v ===== *)
(** * The virtual file system: descriptors

    [libs/vfs/src/fd.rs] and [fat32_backend.rs]: the table of file descriptors, the handles in
    it and the operations of POSIX on them.  An entry keeps a position of its own, which may
    lie behind the end of the file; the handle is moved there before each access. *)

From S2P Require Import Prelude Error Str FatStorage MountTable FatFs VfsState.
#[local] Open Scope Z_scope.

Definition VFS_FD_BASE : Z := 1024.
Definition VFS_MAX_OPEN_FILES : Z := 64.
Definition STAT_BLOCK_SIZE : Z := 4096.
Definition STAT_SECTOR_SIZE : Z := 512.
Definition O_ACCMODE : Z := 3.
Definition O_RDONLY : Z := 0.
Definition O_WRONLY : Z := 1.
Definition O_RDWR : Z := 2.
Definition O_CREAT : Z := 0x200.
Definition O_TRUNC : Z := 0x400.
Definition O_EXCL : Z := 0x800.
Definition O_DIRECTORY : Z := 0x200000.
Definition AT_FDCWD : Z := -100.
Definition AT_REMOVEDIR : Z := 8.

(** Conversions between integers of 64 bits, and to [usize]. *)
Definition as_u64 (n : Z) : Z := n mod 2 ^ 64.
Definition as_i64 (n : Z) : Z := if n <=? i64_max then n else n - 2 ^ 64.
Definition as_usize (n : Z) : Z := n mod 2 ^ 32.
Definition i64_add {E} (a b : Z) : res E Z := if i64_fits (a + b) then Ok (a + b) else Panic.

(** A file that is read from the memory of its file system, which begins at [dr_base]. *)
Record DirectReadHandle := mkDirect { dr_base : Z; dr_offset : Z; dr_size : Z; dr_position : Z }.
Record HostFsHandle := mkHostFs { remote_fd : Z; hf_is_dir : bool; hf_path : option str; hf_readdir_offset : Z }.
Record DirectoryHandle := mkDirectory { dir_path : str; dir_entries : option (list DirEntry); cursor : nat }.

(** [struct stat] with the fields that are not zero, and an entry for [getdents]. *)
Record StatBuf := mkStatBuf { st_size : Z; st_nlink : Z; st_dev : Z; st_ino : Z; st_mode : Z; st_blksize : Z; st_blocks : Z; st_time : Z }.
Record Dent := mkDent { d_ino : Z; d_type : Z; d_name : list Z }.

Section VfsFd.
Context {FF : FatFs}.

Inductive VfsFileHandle :=
| Fat32 (file : File)
| DirectRead (handle : DirectReadHandle)
| Directory (handle : DirectoryHandle)
| HostFs (handle : HostFsHandle).

Record VfsEntry := mkVfsEntry { handle : VfsFileHandle; virtual_pos : Z }.

(** The state of the file system with the slots of the table. *)
Record FdState := mkFdState { fs_state : FsState; slots : list (option VfsEntry) }.
Notation F := (M FsState Fat32Error).
Notation D := (M FdState Fat32Error).
Notation EN := (M (FsState * VfsEntry) Fat32Error).
Notation OF := (M (FsState * File) Fat32Error).

Definition fd_init : FdState := mkFdState no_vfs (replicate (Z.to_nat VFS_MAX_OPEN_FILES) None).

Definition on_vfs {A} (m : F A) : D A := zoom fs_state (fun s d => mkFdState s (slots d)) m.
Definition on_state {A} (m : F A) : EN A := zoom fst (fun s t => (s, t.2)) m.
Definition set_handle (h : VfsFileHandle) : EN unit := modify (fun t => (t.1, mkVfsEntry h (virtual_pos t.2))).
Definition set_pos (p : Z) : EN unit := modify (fun t => (t.1, mkVfsEntry (handle t.2) p)).
Definition ignore {S A} (m : M S Fat32Error A) : M S Fat32Error unit := catch (m;; mret tt) (fun _ => mret tt).

(** ** Handles *)

Definition on_open {A} (file : File) (m : OF A) : EN A := fun t =>
  let '(r, (s, file)) := m (t.1, file) in (r, (s, mkVfsEntry (Fat32 file) (virtual_pos t.2))).

Definition direct_read (h : DirectReadHandle) (n : Z) : EN (list Z) :=
  let remaining := Z.max 0 (dr_size h - dr_position h) in
  let to_read := Z.min n remaining in
  if to_read =? 0 then mret []
  else
    fs ← on_state (deref_fs (dr_base h));
    let start := dr_offset h + dr_position h in
    if Z.of_nat (length (fs_bytes fs)) <? start + to_read then panic
    else
      set_handle (DirectRead (mkDirect (dr_base h) (dr_offset h) (dr_size h) (dr_position h + to_read)));;
      mret (take (Z.to_nat to_read) (drop (Z.to_nat start) (fs_bytes fs))).

Definition direct_seek (h : DirectReadHandle) (offset whence : Z) : EN Z :=
  new_pos ← (if whence =? SEEK_SET then mret offset
             else if whence =? SEEK_CUR then lift (i64_add (dr_position h) offset)
             else if whence =? SEEK_END then lift (i64_add (dr_size h) offset)
             else fail Fat32Error.InvalidArgument);
  if (new_pos <? 0) || (dr_size h <? new_pos) then fail Fat32Error.InvalidSeek
  else set_handle (DirectRead (mkDirect (dr_base h) (dr_offset h) (dr_size h) new_pos));; mret new_pos.

Definition h_read (n : Z) : EN (list Z) :=
  t ← get;
  match handle t.2 with
  | Fat32 file => on_open file (f_read n)
  | DirectRead h => direct_read h n
  | Directory _ => fail Fat32Error.NotSupported
  | HostFs _ => fail Fat32Error.NotSupported
  end.

Definition h_write (buf : list Z) : EN Z :=
  t ← get;
  match handle t.2 with
  | Fat32 file => on_open file (f_write buf)
  | DirectRead _ => fail Fat32Error.ReadOnly
  | Directory _ => fail Fat32Error.NotSupported
  | HostFs _ => fail Fat32Error.NotSupported
  end.

Definition h_seek (offset whence : Z) : EN Z :=
  t ← get;
  match handle t.2 with
  | Fat32 file => pos ← on_open file (f_seek whence offset); mret (as_i64 pos)
  | DirectRead h => direct_seek h offset whence
  | Directory _ => fail Fat32Error.NotSupported
  | HostFs _ => fail Fat32Error.NotSupported
  end.

Definition h_size : EN Z :=
  t ← get;
  match handle t.2 with
  | Fat32 file => on_open file f_size
  | DirectRead h => mret (dr_size h)
  | Directory _ => mret 0
  | HostFs _ => mret 0
  end.

Definition h_is_dir (h : VfsFileHandle) : bool :=
  match h with Directory _ => true | HostFs h => hf_is_dir h | _ => false end.
Definition h_is_hostfs (h : VfsFileHandle) : bool := match h with HostFs _ => true | _ => false end.
Definition hostfs_remote_fd (h : VfsFileHandle) : option Z := match h with HostFs h => Some (remote_fd h) | _ => None end.

Definition hostfs_new (fd : Z) (is_dir : bool) (path : option str) : HostFsHandle :=
  mkHostFs fd is_dir (if is_dir then path else None) 0.

(** Entries of a directory are read once, and then handed out in batches. *)
Definition read_entries (dh : DirectoryHandle) (count : nat) : F (list DirEntry * DirectoryHandle) :=
  all ← (match dir_entries dh with Some l => mret l | None => read_dir (dir_path dh) end);
  let batch := take count (drop (cursor dh) all) in
  mret (batch, mkDirectory (dir_path dh) (Some all) (cursor dh + length batch)).

(** Dropping a handle closes the file. *)
Definition drop_handle (h : VfsFileHandle) : F unit := match h with Fat32 file => drop_file file | _ => mret tt end.

(** ** The table *)

Definition fd_alloc (h : VfsFileHandle) : D Z :=
  d ← get;
  match find_index (fun e => match e with None => true | Some _ => false end) (slots d) with
  | Some i => put (mkFdState (fs_state d) (<[i := Some (mkVfsEntry h 0)]> (slots d)));; mret (VFS_FD_BASE + Z.of_nat i)
  | None => on_vfs (drop_handle h);; fail Fat32Error.TooManyOpenFiles
  end.

(** The index of the slot: the difference of two [c_int] as a [usize]. *)
Definition fd_slot (fd : Z) : res Fat32Error nat :=
  if fd - VFS_FD_BASE <? - 2 ^ 31 then Panic
  else
    let idx := as_usize (fd - VFS_FD_BASE) in
    if VFS_MAX_OPEN_FILES <=? idx then Err Fat32Error.InvalidFd else Ok (Z.to_nat idx).

Definition fd_lock (fd : Z) : D (nat * option VfsEntry) :=
  i ← lift (fd_slot fd);
  d ← get;
  match slots d !! i with Some slot => mret (i, slot) | None => panic end.

Definition fd_close (fd : Z) : D unit :=
  '(i, slot) ← fd_lock fd;
  match slot with
  | Some e => modify (fun d => mkFdState (fs_state d) (<[i := None]> (slots d)));; on_vfs (drop_handle (handle e))
  | None => fail Fat32Error.InvalidFd
  end.

(** Code on the entry of a descriptor, which changes in place. *)
Definition in_slot {A} (i : nat) (e : VfsEntry) (m : EN A) : D A := fun d =>
  let '(r, (s, e)) := m (fs_state d, e) in (r, mkFdState s (<[i := Some e]> (slots d))).

Definition with_entry {A} (fd : Z) (m : EN A) : D A :=
  '(i, slot) ← fd_lock fd;
  match slot with
  | None => fail Fat32Error.InvalidFd
  | Some e => in_slot i e m
  end.

(** ** Descriptors of the host *)

Definition vfs_alloc_hostfs (fd : Z) (is_dir : bool) (path : option str) : D Z := fd_alloc (HostFs (hostfs_new fd is_dir path)).

Definition entry_of (fd : Z) : D (option VfsEntry) := catch ('(_, slot) ← fd_lock fd; mret slot) (fun _ => mret None).

Definition vfs_hostfs_remote_fd (fd : Z) : D (option Z) := e ← entry_of fd; mret (e ≫= fun e => hostfs_remote_fd (handle e)).
Definition is_hostfs_fd (fd : Z) : D bool := r ← vfs_hostfs_remote_fd fd; mret (match r with Some _ => true | None => false end).

Definition vfs_hostfs_readdir_offset (fd : Z) : D (option Z) :=
  e ← entry_of fd;
  mret (e ≫= fun e => match handle e with HostFs h => if hf_is_dir h then Some (hf_readdir_offset h) else None | _ => None end).

Definition vfs_hostfs_set_readdir_offset (fd offset : Z) : D bool :=
  catch (with_entry fd (
    t ← get;
    match handle t.2 with
    | HostFs h =>
      if hf_is_dir h then set_handle (HostFs (mkHostFs (remote_fd h) (hf_is_dir h) (hf_path h) offset));; mret true else mret false
    | _ => mret false
    end)) (fun _ => mret false).

(** ** Paths *)

Definition is_ok_m {A} (m : F A) : F bool := catch (m;; mret true) (fun _ => mret false).

(** [rfind]. *)
Fixpoint rfind_slash (s : str) : option nat :=
  match s with
  | [] => None
  | c :: s => match rfind_slash s with Some i => Some (S i) | None => if c =? SLASH then Some 0%nat else None end
  end.

Definition backend_exists (path : str) : F bool :=
  ok ← is_ok_m (vfs_path_stat path);
  if (ok : bool) then mret true
  else match rfind_slash path with
       | Some pos => is_ok_m (vfs_path_stat (if Nat.eqb pos 0 then lit "/" else take pos path))
       | None => is_ok_m (vfs_path_stat (lit "."))
       end.

Definition is_vfs_path (path : str) : D bool := on_vfs (backend_exists path).
Definition is_vfs_fd (fd : Z) : bool := (VFS_FD_BASE <=? fd) && (fd <? VFS_FD_BASE + VFS_MAX_OPEN_FILES).

Definition under (dir path : str) : str :=
  if bool_decide (last dir = Some SLASH) then dir ++ path else dir ++ lit "/" ++ path.

Definition vfs_resolve_path (dirfd : Z) (path : str) : D (option str) :=
  if starts_with (lit "/") path then mret (Some path)
  else if dirfd =? AT_FDCWD then
    catch (dir ← on_vfs current_dir; mret (Some (under dir path))) (fun _ => mret None)
  else if negb (is_vfs_fd dirfd) then mret None
  else
    e ← entry_of dirfd;
    mret (e ≫= fun e =>
      match handle e with
      | Directory dh => Some (under (dir_path dh) path)
      | HostFs hh => if hf_is_dir hh then (fun dir => under dir path) <$> hf_path hh else None
      | _ => None
      end).

(** [fat32_backend::open]. *)
Definition flag (flags mask : Z) : bool := negb (Z.land flags mask =? 0).

Definition open_options (flags : Z) : OpenOptions :=
  let access_mode := Z.land flags O_ACCMODE in
  mkOpenOptions
    (negb (access_mode =? O_WRONLY))
    ((access_mode =? O_WRONLY) || (access_mode =? O_RDWR))
    (flag flags O_CREAT && negb (flag flags O_EXCL))
    (flag flags O_CREAT && flag flags O_EXCL)
    (flag flags O_TRUNC).

Definition open_directory (path : str) : F VfsFileHandle :=
  normalized ← normalize path; mret (Directory (mkDirectory normalized None 0)).

Definition open_checked_directory (path : str) : F VfsFileHandle :=
  info ← vfs_path_stat path;
  if stat_is_dir info then open_directory path else fail Fat32Error.NotADirectory.

Definition open_fat32 (path : str) (flags : Z) : F VfsFileHandle :=
  file ← options_open (open_options flags) path; mret (Fat32 file).

Definition backend_open (path : str) (flags : Z) : F VfsFileHandle :=
  if flag flags O_DIRECTORY then open_checked_directory path
  else
    is_dir ← catch (info ← vfs_path_stat path; mret (stat_is_dir info)) (fun _ => mret false);
    if (is_dir : bool) then open_directory path
    else if (Z.land flags O_ACCMODE =? O_RDONLY) && negb (flag flags (Z.lor (Z.lor O_CREAT O_TRUNC) O_EXCL)) then
      r ← file_raw_region path;
      match r with
      | Some (base, offset, size) => mret (DirectRead (mkDirect base offset size 0))
      | None => open_fat32 path flags
      end
    else open_fat32 path flags.

(** ** Operations on descriptors *)

Definition vfs_open (path : str) (flags : Z) : D Z :=
  handle ← on_vfs (if flag flags O_DIRECTORY then open_checked_directory path else backend_open path flags);
  fd_alloc handle.

Definition vfs_close (fd : Z) : D unit := fd_close fd.

Definition read_entry (n : Z) : EN (list Z) :=
  t ← get;
  if h_is_dir (handle t.2) then fail Fat32Error.NotAFile
  else
    size ← h_size;
    if size <=? as_u64 (virtual_pos t.2) then mret []
    else
      h_seek (virtual_pos t.2) SEEK_SET;;
      bs ← h_read n;
      p ← lift (i64_add (virtual_pos t.2) (Z.of_nat (length bs)));
      set_pos p;;
      mret bs.

(** The bytes read into a buffer of [n] bytes. *)
Definition vfs_read (fd n : Z) : D (list Z) := with_entry fd (read_entry n).

(** The loop that appends zeros; [false] when nothing can be written. *)
Fixpoint write_zeros (fuel : nat) (remaining : Z) : EN bool :=
  if remaining <=? 0 then mret true
  else match fuel with
       | O => panic
       | S fuel =>
         written ← h_write (replicate (Z.to_nat (Z.min remaining 512)) 0);
         if written =? 0 then mret false
         else remaining ← lift (usize_sub remaining written); write_zeros fuel remaining
       end.

(** The gap between the end of the file and [pos] is filled. *)
Definition fill_gap (pos size : Z) : EN bool :=
  if size <? as_u64 pos then
    h_seek 0 SEEK_END;;
    let gap := as_usize (as_u64 pos - size) in write_zeros (Z.to_nat gap) gap
  else mret true.

Definition write_entry (buf : list Z) : EN Z :=
  t ← get;
  size ← h_size;
  filled ← fill_gap (virtual_pos t.2) size;
  if negb filled then fail Fat32Error.NoSpace
  else
    h_seek (virtual_pos t.2) SEEK_SET;;
    n ← h_write buf;
    p ← lift (i64_add (virtual_pos t.2) n);
    set_pos p;;
    mret n.

Definition vfs_write (fd : Z) (buf : list Z) : D Z := with_entry fd (write_entry buf).

Definition seek_entry (offset whence : Z) : EN Z :=
  t ← get;
  size ← h_size;
  let size := as_i64 size in
  new_pos ← (if whence =? SEEK_SET then mret offset
             else if whence =? SEEK_CUR then lift (i64_add (virtual_pos t.2) offset)
             else if whence =? SEEK_END then lift (i64_add size offset)
             else fail Fat32Error.InvalidArgument);
  if new_pos <? 0 then fail Fat32Error.InvalidSeek
  else
    set_pos new_pos;;
    (if new_pos <=? size then ignore (h_seek new_pos SEEK_SET) else mret tt);;
    mret new_pos.

Definition vfs_lseek (fd offset whence : Z) : D Z := with_entry fd (seek_entry offset whence).

Definition pread_entry (n offset : Z) : EN (list Z) :=
  size ← h_size;
  if size <=? as_u64 offset then mret []
  else
    saved ← h_seek 0 SEEK_CUR;
    h_seek offset SEEK_SET;;
    r ← result (h_read n);
    ignore (h_seek saved SEEK_SET);;
    match r with inl bs => mret bs | inr e => fail e end.

Definition vfs_pread (fd n offset : Z) : D (list Z) := with_entry fd (pread_entry n offset).

Definition pwrite_entry (buf : list Z) (offset : Z) : EN Z :=
  saved ← h_seek 0 SEEK_CUR;
  size ← h_size;
  filled ← fill_gap offset size;
  if negb filled then ignore (h_seek saved SEEK_SET);; fail Fat32Error.NoSpace
  else
    h_seek offset SEEK_SET;;
    r ← result (h_write buf);
    ignore (h_seek saved SEEK_SET);;
    match r with inl n => mret n | inr e => fail e end.

Definition vfs_pwrite (fd : Z) (buf : list Z) (offset : Z) : D Z := with_entry fd (pwrite_entry buf offset).

(** Zeros up to the target size, for [ftruncate] and [fallocate]. *)
Definition extend_to (target current_size saved : Z) : EN unit :=
  h_seek 0 SEEK_END;;
  let remaining := as_usize (target - current_size) in
  filled ← write_zeros (Z.to_nat remaining) remaining;
  ignore (h_seek (as_i64 saved) SEEK_SET);;
  if negb filled then fail Fat32Error.NoSpace else mret tt.

Definition truncate_entry (length : Z) : EN unit :=
  t ← get;
  match handle t.2 with
  | Fat32 file =>
    current_size ← h_size;
    let target := as_u64 length in
    saved ← h_seek 0 SEEK_CUR;
    if target <=? current_size then
      r ← result (h_seek length SEEK_SET;;
                  t ← get;
                  match handle t.2 with Fat32 file => on_open file f_truncate | _ => mret tt end);
      ignore (h_seek (as_i64 saved) SEEK_SET);;
      match r with inl _ => mret tt | inr e => fail e end
    else extend_to target current_size saved
  | DirectRead _ => fail Fat32Error.ReadOnly
  | Directory _ | HostFs _ => fail Fat32Error.NotSupported
  end.

Definition vfs_ftruncate (fd length : Z) : D unit := with_entry fd (truncate_entry length).

Definition fallocate_entry (offset len : Z) : EN unit :=
  t ← get;
  match handle t.2 with
  | Fat32 file =>
    sum ← lift (i64_add offset len);
    let target_size := as_u64 sum in
    current_size ← h_size;
    if target_size <=? current_size then mret tt
    else saved ← h_seek 0 SEEK_CUR; extend_to target_size current_size saved
  | DirectRead _ => fail Fat32Error.ReadOnly
  | Directory _ | HostFs _ => fail Fat32Error.NotSupported
  end.

Definition vfs_fallocate (fd offset len : Z) : D unit := with_entry fd (fallocate_entry offset len).

Definition vfs_fsync (fd : Z) : D unit :=
  with_entry fd (t ← get; match handle t.2 with Fat32 file => on_open file f_flush | _ => mret tt end).

Definition vfs_isatty (fd : Z) : bool := false.

(** ** Other operations *)

Definition FIXED_EPOCH : Z := 1704067200.

Definition populate_stat_fields (size : Z) (is_dir : bool) : StatBuf :=
  mkStatBuf (as_i64 size) (if is_dir then 2 else 1) 1 1
    (if is_dir then Z.lor 0x4000 0x1c0 else Z.lor (Z.lor 0x8000 0x100) 0x80)
    STAT_BLOCK_SIZE (as_i64 ((size + STAT_SECTOR_SIZE - 1) / STAT_SECTOR_SIZE)) FIXED_EPOCH.

Definition vfs_fstat (fd : Z) : D StatBuf :=
  with_entry fd (
    t ← get;
    size ← h_size;
    mret (populate_stat_fields size (match handle t.2 with Directory _ => true | _ => false end))).

Definition vfs_stat (path : str) : D StatBuf :=
  info ← on_vfs (vfs_path_stat path); mret (populate_stat_fields (stat_size info) (stat_is_dir info)).

Definition vfs_rename (old_path new_path : str) : D unit := on_vfs (rename old_path new_path).
Definition vfs_unlink (path : str) : D unit := on_vfs (unlink path).
Definition vfs_mkdir (path : str) : D unit := on_vfs (mkdir path).
Definition vfs_rmdir (path : str) : D unit := on_vfs (rmdir path).
Definition vfs_chdir (path : str) : D unit := on_vfs (chdir path).
Definition vfs_getcwd : D str := on_vfs current_dir.
Definition vfs_readdir (path : str) : D (list DirEntry) := on_vfs (read_dir path).

Definition vfs_fchdir (fd : Z) : D unit :=
  with_entry fd (
    t ← get;
    match handle t.2 with
    | Directory dir => on_state (chdir (dir_path dir))
    | _ => fail Fat32Error.NotADirectory
    end).

Definition vfs_access (path : str) : D unit := on_vfs (vfs_path_stat path;; mret tt).
Definition vfs_chmod (path : str) : D unit := on_vfs (vfs_path_stat path;; mret tt).

(** [F_GETFD], [F_SETFD], [F_GETFL], [F_SETFL]. *)
Definition vfs_fcntl (fd cmd : Z) : D Z :=
  with_entry fd (if (1 <=? cmd) && (cmd <=? 4) then mret 0 else fail Fat32Error.NotSupported).

Definition NAME_MAX : nat := 255.

(** The name is cut to [NAME_MAX] bytes and ends with a zero. *)
Fixpoint dents (i : Z) (l : list DirEntry) : list Dent :=
  match l with
  | [] => []
  | de :: l => mkDent (i + 1) (if de_is_dir de then 4 else 8) (take NAME_MAX (Str.as_bytes (de_name de)) ++ [0]) :: dents (i + 1) l
  end.

Definition vfs_getdents (fd : Z) (count : nat) : D (list Dent) :=
  with_entry fd (
    t ← get;
    match handle t.2 with
    | Directory dh =>
      '(entries, dh) ← on_state (read_entries dh count);
      set_handle (Directory dh);;
      mret (dents 0 entries)
    | _ => fail Fat32Error.InvalidArgument
    end).

(** [ok_or(Fat32Error::InvalidArgument)]. *)
Definition resolve_or_fail (dirfd : Z) (path : str) : D str :=
  r ← vfs_resolve_path dirfd path;
  match r with Some p => mret p | None => fail Fat32Error.InvalidArgument end.

Definition vfs_renameat (olddirfd : Z) (oldpath : str) (newdirfd : Z) (newpath : str) : D unit :=
  old_resolved ← resolve_or_fail olddirfd oldpath;
  new_resolved ← resolve_or_fail newdirfd newpath;
  on_vfs (rename old_resolved new_resolved).

Definition vfs_unlinkat (dirfd : Z) (path : str) (flags : Z) : D unit :=
  resolved ← resolve_or_fail dirfd path;
  if flag flags AT_REMOVEDIR then on_vfs (rmdir resolved) else on_vfs (unlink resolved).

Definition vfs_linkat : D unit := fail Fat32Error.NotSupported.
Definition vfs_symlinkat : D unit := fail Fat32Error.NotSupported.

Definition vfs_fchmodat (dirfd : Z) (path : str) : D unit :=
  resolved ← resolve_or_fail dirfd path; on_vfs (vfs_path_stat resolved;; mret tt).
Definition vfs_fchownat (dirfd : Z) (path : str) : D unit :=
  resolved ← resolve_or_fail dirfd path; on_vfs (vfs_path_stat resolved;; mret tt).

Definition vfs_utimensat (dirfd : Z) (pathname : str) (flags : Z) : D unit :=
  if negb (flags =? 0) then fail Fat32Error.InvalidArgument
  else path ← resolve_or_fail dirfd pathname; on_vfs (vfs_path_stat path;; mret tt).
End VfsFd.
