(* ===== verification/VfsSpec.v ===== *)
(** * Descriptors as files of POSIX

    [FatFsLaws] says what reading, writing and seeking do to an open file of the crate
    [fatfs].  From these laws: what the operations on a descriptor do to the file it stands
    for, a sequence of bytes with a position that may lie behind its end.  [posix_step] says
    what a call may return and do to such a file; every operation on a descriptor, whether
    its file is read and written through the library or directly in memory, is such a
    step. *)

From S2P Require Import Prelude Error Str FatStorage MountTable FatFs VfsState VfsFd.
#[local] Open Scope Z_scope.

(** Bytes written at [i], which is not behind the end. *)
Definition write_at (i : Z) (bs l : list Z) : list Z := overwrite i bs l.
Definition zeros (n : Z) : list Z := replicate (Z.to_nat n) 0.
Definition size_of (l : list Z) : Z := Z.of_nat (length l).
(** The bytes from [i] on. *)
Definition from (i : Z) (l : list Z) : list Z := drop (Z.to_nat i) l.

(** An open file has contents and a position; the size of a file of FAT has 32 bits. *)
Class FatFsLaws (FF : FatFs) := {
  contents : FileSystem → FsFile → list Z;
  offset : FsFile → Z;
  open_ok : FileSystem → FsFile → Prop;
  open_ok_range fs f : open_ok fs f → 0 <= offset f <= size_of (contents fs f) /\ size_of (contents fs f) <= u32_max;
  file_read_law fs f n : open_ok fs f → 0 <= n → wp (file_read n) (fs, f) (fun o s' =>
    open_ok s'.1 s'.2 /\ contents s'.1 s'.2 = contents fs f /\
    match o with
    | Ok bs => bs = take (length bs) (from (offset f) (contents fs f)) /\ size_of bs <= n /\
        (bs = [] → n = 0 \/ offset f = size_of (contents fs f)) /\ offset s'.2 = offset f + size_of bs
    | Err _ => True
    | Panic => False
    end);
  file_write_law fs f buf : open_ok fs f → wp (file_write buf) (fs, f) (fun o s' =>
    open_ok s'.1 s'.2 /\
    match o with
    | Ok n => 0 <= n <= size_of buf /\ offset s'.2 = offset f + n /\
        contents s'.1 s'.2 = write_at (offset f) (take (Z.to_nat n) buf) (contents fs f)
    | Err _ => contents s'.1 s'.2 = contents fs f
    | Panic => False
    end);
  file_seek_law fs f pos : open_ok fs f → wp (file_seek pos) (fs, f) (fun o s' =>
    open_ok s'.1 s'.2 /\ contents s'.1 s'.2 = contents fs f /\ o <> Panic /\
    let target := match pos with
                  | SeekStart p => p
                  | SeekEnd p => size_of (contents fs f) + p
                  | SeekCurrent p => offset f + p
                  end in
    (0 <= target <= size_of (contents fs f) → o = Ok target /\ offset s'.2 = target));
  file_truncate_law fs f : open_ok fs f → wp file_truncate (fs, f) (fun o s' =>
    open_ok s'.1 s'.2 /\
    match o with
    | Ok _ => contents s'.1 s'.2 = take (Z.to_nat (offset f)) (contents fs f)
    | Err _ => True
    | Panic => False
    end);
  file_flush_law fs f : open_ok fs f → wp file_flush (fs, f) (fun o s' =>
    open_ok s'.1 s'.2 /\ contents s'.1 s'.2 = contents fs f /\ o <> Panic)
}.

Section Handles.
Context {FF : FatFs} {FL : FatFsLaws FF}.
Implicit Types (s : FsState) (e : VfsEntry) (t : FsState * VfsEntry) (data : list Z) (hp : Z).

(** ** What a handle shows *)

(** The file of a handle, in the file system at [b]: contents, and position of the handle. *)
Definition shows s (h : VfsFileHandle) (b : Z) data hp : Prop :=
  b ∈ regions s /\ 0 <= hp <= size_of data /\ size_of data <= u32_max /\
  exists fs, images s !! b = Some fs /\
  match h with
  | Fat32 file => b = file_fs file /\ open_ok fs (ff_inner (file_inner file)) /\
      contents fs (ff_inner (file_inner file)) = data /\ offset (ff_inner (file_inner file)) = hp
  | DirectRead d => b = dr_base d /\ hp = dr_position d /\ dr_size d = size_of data /\ 0 <= dr_offset d /\
      data = take (length data) (from (dr_offset d) (fs_bytes fs))
  | _ => False
  end.

(** Nothing changes but the file system at [b]. *)
Definition only_fs (b : Z) s s' : Prop :=
  VFS_STATE s' = VFS_STATE s /\ GUEST_MOUNTS s' = GUEST_MOUNTS s /\ OPEN_FILE_COUNTS s' = OPEN_FILE_COUNTS s /\
  regions s' = regions s /\ dom (images s') = dom (images s) /\ forall b', b' <> b -> images s' !! b' = images s !! b'.

#[global] Instance only_fs_refl b : Reflexive (only_fs b).
Proof. intros s. by splits. Qed.
#[global] Instance only_fs_trans b : Transitive (only_fs b).
Proof.
  intros s1 s2 s3 (H1 & H2 & H3 & H4 & H5 & H6) (G1 & G2 & G3 & G4 & G5 & G6). unfold only_fs. splits; try congruence.
  intros b' Hb. by rewrite G6, H6.
Qed.

(** The kind of the handle, the file system, and what the file may be used for, do not change. *)
Definition same_kind (h h' : VfsFileHandle) : Prop :=
  match h, h' with
  | Fat32 f, Fat32 f' => file_fs f' = file_fs f /\ file_mount_path f' = file_mount_path f /\
      can_read (file_inner f') = can_read (file_inner f) /\ can_write (file_inner f') = can_write (file_inner f)
  | DirectRead d, DirectRead d' => dr_base d' = dr_base d /\ dr_offset d' = dr_offset d /\ dr_size d' = dr_size d
  | _, _ => False
  end.

#[global] Instance same_kind_trans : Transitive same_kind.
Proof. intros [] [] []; simpl; try done; intuition congruence. Qed.

(** An operation of the handle: its view becomes [data'] and [hp']. *)
Definition handled (b : Z) t t' data' hp' : Prop :=
  shows t'.1 (handle t'.2) b data' hp' /\ virtual_pos t'.2 = virtual_pos t.2 /\ only_fs b t.1 t'.1 /\
  same_kind (handle t.2) (handle t'.2).

Lemma handled_trans b t t' t'' data hp data' hp' :
  handled b t t' data hp -> handled b t' t'' data' hp' -> handled b t t'' data' hp'.
Proof.
  intros (H1 & H2 & H3 & H4) (G1 & G2 & G3 & G4). unfold handled. splits; [done|congruence|by etrans|by etrans].
Qed.

Lemma shows_kind s h b data hp : shows s h b data hp -> same_kind h h.
Proof. intros (_ & _ & _ & fs & _ & Hh). by destruct h. Qed.

Lemma handled_refl b t data hp : shows t.1 (handle t.2) b data hp -> handled b t t data hp.
Proof. intros Hs. unfold handled. splits; [done|done|reflexivity|]. by eapply shows_kind. Qed.

(** Code on the file inside a handle. *)
Lemma on_open_wp {A} file (m : M (FileSystem * FatFile) Fat32Error A) t fs (Q : res Fat32Error A → FsState * VfsEntry → Prop) :
  images t.1 !! file_fs file = Some fs -> file_fs file ∈ regions t.1 ->
  wp m (fs, file_inner file) (fun o u => Q o
    (with_images (<[file_fs file := u.1]> (images t.1)) t.1,
     mkVfsEntry (Fat32 (mkFile u.2 (file_fs file) (file_mount_path file))) (virtual_pos t.2))) ->
  wp (on_open file (on_fatfile m)) t Q.
Proof.
  intros Hi Hr. unfold wp, on_open, on_fatfile, deref_fs. destruct t as [s e]. simpl in *. unfold mbind, M_bind, get. simpl.
  rewrite Hi, decide_True by done. simpl. destruct (m (fs, file_inner file)) as [o [fs' f']]. done.
Qed.

Lemma on_inner_wp {A} (m : M (FileSystem * FsFile) FsError.t A) fs f (Q : res Fat32Error A → FileSystem * FatFile → Prop) :
  wp m (fs, ff_inner f) (fun o u => Q (match o with Ok a => Ok a | Err e => Err (map_fatfs_error e) | Panic => Panic end)
    (u.1, mkFatFile u.2 (can_read f) (can_write f))) ->
  wp (on_inner m) (fs, f) Q.
Proof. unfold wp, on_inner, zoom, map_err, catch. simpl. by destruct (m (fs, ff_inner f)) as [[] []]. Qed.

Lemma only_fs_insert b s fs fs' : images s !! b = Some fs -> only_fs b s (with_images (<[b := fs']> (images s)) s).
Proof.
  intros Hi. unfold only_fs. splits; try done; simpl.
  - rewrite dom_insert_L. apply elem_of_dom_2 in Hi. set_solver.
  - intros b' Hb. by rewrite lookup_insert_ne.
Qed.

(** Operations on the file of the crate, one level up. *)
Lemma handled_file file t fs data hp fs' f' data' hp' :
  handle t.2 = Fat32 file -> shows t.1 (handle t.2) (file_fs file) data hp -> images t.1 !! file_fs file = Some fs ->
  open_ok fs' f' -> contents fs' f' = data' -> offset f' = hp' ->
  handled (file_fs file) t
    (with_images (<[file_fs file := fs']> (images t.1)) t.1,
     mkVfsEntry (Fat32 (mkFile (mkFatFile f' (can_read (file_inner file)) (can_write (file_inner file))) (file_fs file) (file_mount_path file)))
       (virtual_pos t.2)) data' hp'.
Proof.
  intros Hh (Hr & _) Hi Hok Hc Ho. pose proof (open_ok_range _ _ Hok) as [Hhp Hsz]. rewrite Hc, Ho in *. unfold handled. simpl.
  splits; [|done|by eapply only_fs_insert|by rewrite Hh]. unfold shows. simpl. splits; try done; try lia.
  exists fs'. rewrite lookup_insert_eq. by splits.
Qed.

(** ** Files of the library *)

Definition fshows (u : FileSystem * FatFile) data hp : Prop :=
  open_ok u.1 (ff_inner u.2) /\ contents u.1 (ff_inner u.2) = data /\ offset (ff_inner u.2) = hp.
Ltac shown := unfold fshows in *; simpl in *; splits; first [done|lia|congruence].
Definition same_rights (f f' : FatFile) : Prop := can_read f' = can_read f /\ can_write f' = can_write f.

Definition seek_target data hp (pos : SeekFrom) : Z :=
  match pos with SeekStart p => p | SeekEnd p => size_of data + p | SeekCurrent p => hp + p end.

Lemma fshows_range u data hp : fshows u data hp -> 0 <= hp <= size_of data /\ size_of data <= u32_max.
Proof. intros (Hok & <- & <-). by apply open_ok_range. Qed.

Lemma fatfile_seek_any u data hp pos : fshows u data hp ->
  wp (fatfile_seek pos) u (fun o u' => o <> Panic /\ same_rights u.2 u'.2 /\ exists hp', fshows u' data hp' /\
    (0 <= seek_target data hp pos <= size_of data -> o = Ok (seek_target data hp pos) /\ hp' = seek_target data hp pos)).
Proof.
  destruct u as [fs f]. intros (Hok & Hc & Ho). unfold fatfile_seek. apply on_inner_wp.
  eapply wp_mono; [by apply file_seek_law|]. cbn beta iota zeta. intros o [fs' f'] (Hok' & Hc' & Hp & Ht). simpl in *.
  splits; [by destruct o|done|]. exists (offset f'). split; [shown|]. intros Hr.
  rewrite Hc, Ho in Ht. destruct pos; simpl in Hr |- *; destruct (Ht Hr) as [-> ->]; done.
Qed.

Lemma fatfile_seek_wp u data hp pos : fshows u data hp -> 0 <= seek_target data hp pos <= size_of data ->
  wp (fatfile_seek pos) u (fun o u' => o = Ok (seek_target data hp pos) /\ same_rights u.2 u'.2 /\ fshows u' data (seek_target data hp pos)).
Proof.
  intros Hs Hr. eapply wp_mono; [by apply fatfile_seek_any|]. intros o u' (_ & Hk & hp' & Hs' & Ht).
  destruct (Ht Hr) as [-> ->]. done.
Qed.

Lemma fatfile_len_wp u data hp : fshows u data hp ->
  wp fatfile_len u (fun o u' => o = Ok (size_of data) /\ same_rights u.2 u'.2 /\ fshows u' data hp).
Proof.
  intros Hs. pose proof (fshows_range _ _ _ Hs) as [Hr _]. unfold fatfile_len.
  wstep. eapply wp_mono; [apply (fatfile_seek_wp _ _ _ (SeekCurrent 0) Hs); simpl; lia|]. simpl. intros o u1 (-> & K1 & S1).
  wstep. eapply wp_mono; [apply (fatfile_seek_wp _ _ _ (SeekEnd 0) S1); simpl; lia|]. simpl. intros o u2 (-> & K2 & S2).
  wstep. eapply wp_mono; [apply (fatfile_seek_wp _ _ _ (SeekStart (hp + 0)) S2); simpl; lia|]. simpl. intros o u3 (-> & K3 & S3).
  wsteps. rewrite !Z.add_0_r in *. splits; [done|unfold same_rights in *; intuition congruence|done].
Qed.

Lemma fatfile_read_wp u data hp n : fshows u data hp -> 0 <= n ->
  wp (fatfile_read n) u (fun o u' => same_rights u.2 u'.2 /\ exists hp', fshows u' data hp' /\
    match o with
    | Ok bs => bs = take (length bs) (from hp data) /\ size_of bs <= n /\ (bs = [] -> n = 0 \/ hp = size_of data)
    | Err _ => True
    | Panic => False
    end).
Proof.
  destruct u as [fs f]. intros (Hok & Hc & Ho) Hn. unfold fatfile_read. wsteps. simpl. destruct (can_read f).
  - apply on_inner_wp. eapply wp_mono; [by apply file_read_law|]. intros o [fs' f'] (Hok' & Hc' & Hm). simpl in *.
    split; [done|]. exists (offset f'). split; [shown|]. rewrite Hc, Ho in Hm.
    destruct o; [|done|done]. destruct Hm as (? & ? & ? & ?). done.
  - wsteps. split; [done|]. exists hp. split; [shown|done].
Qed.

Lemma fatfile_write_wp u data hp buf : fshows u data hp ->
  wp (fatfile_write buf) u (fun o u' => same_rights u.2 u'.2 /\
    match o with
    | Ok n => 0 <= n <= size_of buf /\ fshows u' (write_at hp (take (Z.to_nat n) buf) data) (hp + n)
    | Err _ => exists hp', fshows u' data hp'
    | Panic => False
    end).
Proof.
  destruct u as [fs f]. intros (Hok & Hc & Ho). unfold fatfile_write. wsteps. simpl. destruct (can_write f).
  - apply on_inner_wp. eapply wp_mono; [by apply file_write_law|]. intros o [fs' f'] (Hok' & Hm). simpl in *.
    split; [done|]. rewrite Hc, Ho in Hm. destruct o; [|exists (offset f')|done].
    + destruct Hm as (? & ? & ?). shown.
    + shown.
  - wsteps. split; [done|]. exists hp. shown.
Qed.

Lemma fatfile_truncate_wp u data hp : fshows u data hp ->
  wp fatfile_truncate u (fun o u' => same_rights u.2 u'.2 /\ o <> Panic /\ exists data' hp', fshows u' data' hp' /\
    (o = Ok tt -> data' = take (Z.to_nat hp) data)).
Proof.
  destruct u as [fs f]. intros (Hok & Hc & Ho). unfold fatfile_truncate. wsteps. simpl. destruct (can_write f).
  - apply on_inner_wp. eapply wp_mono; [by apply file_truncate_law|]. intros o [fs' f'] (Hok' & Hm). simpl in *.
    splits; [done|by destruct o|]. exists (contents fs' f'), (offset f'). split; [shown|].
    rewrite Hc, Ho in Hm. by destruct o.
  - wsteps. splits; [done|done|]. exists data, hp. split; [shown|done].
Qed.

Lemma fatfile_flush_wp u data hp : fshows u data hp ->
  wp fatfile_flush u (fun o u' => same_rights u.2 u'.2 /\ o <> Panic /\ exists hp', fshows u' data hp').
Proof.
  destruct u as [fs f]. intros (Hok & Hc & Ho). unfold fatfile_flush. apply on_inner_wp.
  eapply wp_mono; [by apply file_flush_law|]. intros o [fs' f'] (Hok' & Hm & Hp). simpl in *.
  splits; [done|by destruct o|]. exists (offset f'). shown.
Qed.

(** ** Handles *)

(** A file of the library below a handle. *)
Lemma lift_file {A} file (m : M (FileSystem * FatFile) Fat32Error A) t b data hp (Q : res Fat32Error A → FsState * VfsEntry → Prop) :
  handle t.2 = Fat32 file -> shows t.1 (handle t.2) b data hp ->
  (forall fs, fshows (fs, file_inner file) data hp ->
     wp m (fs, file_inner file) (fun o u' => forall t',
       (forall data' hp', fshows u' data' hp' -> same_rights (file_inner file) u'.2 -> handled b t t' data' hp') -> Q o t')) ->
  wp (on_open file (on_fatfile m)) t Q.
Proof.
  intros Hh Hs Hm. pose proof Hs as (Hr & Hhp & Hsz & fs & Hi & Hf). rewrite Hh in Hf. destruct Hf as (-> & Hok & Hc & Ho).
  eapply on_open_wp; [done|done|]. eapply wp_mono; [by apply (Hm fs)|]. intros o [fs' f'] HQ. apply HQ. simpl.
  intros data' hp' (Hok' & Hc' & Ho') [Hcr Hcw]. destruct f' as [f' r w]. simpl in *. subst r w. by eapply handled_file.
Qed.

(** A handle is that of a file of the library, or one for direct reading. *)
Lemma shows_inv s h b data hp : shows s h b data hp ->
  (exists file, h = Fat32 file) \/
  exists d fs, h = DirectRead d /\ images s !! b = Some fs /\ b ∈ regions s /\ b = dr_base d /\ hp = dr_position d /\
    dr_size d = size_of data /\ 0 <= dr_offset d /\ data = take (length data) (from (dr_offset d) (fs_bytes fs)) /\
    0 <= hp <= size_of data /\ size_of data <= u32_max.
Proof.
  intros (Hr & Hhp & Hsz & fs & Hi & Hh). destruct h as [file|d|?|?]; [left; eauto|right|done..].
  destruct Hh as (? & ? & ? & ? & ?). exists d, fs. splits; first [done|lia].
Qed.

(** The handle for direct reading after a move. *)
Lemma handled_direct t b data hp d hp' : handle t.2 = DirectRead d -> shows t.1 (handle t.2) b data hp -> 0 <= hp' <= size_of data ->
  handled b t (t.1, mkVfsEntry (DirectRead (mkDirect (dr_base d) (dr_offset d) (dr_size d) hp')) (virtual_pos t.2)) data hp'.
Proof.
  intros Hh (Hr & Hhp & Hsz & fs & Hi & Hd) Hp. rewrite Hh in Hd. destruct Hd as (-> & -> & ? & ? & ?).
  unfold handled. simpl. splits; [|done|reflexivity|by rewrite Hh]. unfold shows. simpl. splits; try done; try lia. exists fs. by splits.
Qed.

Lemma h_size_wp t b data hp : shows t.1 (handle t.2) b data hp ->
  wp h_size t (fun o t' => o = Ok (size_of data) /\ handled b t t' data hp).
Proof.
  intros Hs. unfold h_size. wsteps. destruct (shows_inv _ _ _ _ _ Hs) as [[file Hh]|(d & fs & Hh & _ & _ & _ & _ & Hsz & _)]; rewrite Hh.
  - eapply lift_file; [done|done|]. intros fs Hf. eapply wp_mono; [by apply fatfile_len_wp|].
    intros o u' (-> & Hk & Hs') t' Ht'. split; [done|]. by apply Ht'.
  - wsteps. rewrite Hsz. split; [done|]. by apply handled_refl.
Qed.

(** Where [lseek] on a handle would lead. *)
Definition whence_target data hp (o whence : Z) : Z :=
  if whence =? SEEK_SET then o else if whence =? SEEK_CUR then hp + o else size_of data + o.

Lemma as_i64_small n : 0 <= n <= u32_max -> as_i64 n = n.
Proof. intros Hn. unfold as_i64. rewrite (proj2 (Z.leb_le _ _)); [done|]. unfold i64_max, u32_max in *. lia. Qed.
Lemma as_u64_small n : 0 <= n <= i64_max -> as_u64 n = n.
Proof. intros Hn. unfold as_u64. apply Z.mod_small. unfold i64_max in *. lia. Qed.
Lemma i64_add_ok {E} a b : i64_min <= a + b <= i64_max -> i64_add (E:=E) a b = Ok (a + b).
Proof.
  intros H. unfold i64_add, i64_fits. rewrite (proj2 (Z.leb_le _ _)) by lia. by rewrite (proj2 (Z.leb_le _ _)) by lia.
Qed.

Lemma h_seek_wp t b data hp o whence : shows t.1 (handle t.2) b data hp ->
  whence = SEEK_SET \/ whence = SEEK_CUR \/ whence = SEEK_END -> 0 <= whence_target data hp o whence <= size_of data ->
  wp (h_seek o whence) t (fun r t' => r = Ok (whence_target data hp o whence) /\ handled b t t' data (whence_target data hp o whence)).
Proof.
  intros Hs Hw Ht. unfold h_seek. wsteps. pose proof Hs as (_ & Hhp & Hsz & _).
  destruct (shows_inv _ _ _ _ _ Hs) as [[file Hh]|(d & fs & Hh & _ & _ & _ & Hp & Hds & _)]; rewrite Hh.
  - wstep. unfold f_seek. set (tgt := whence_target data hp o whence) in *.
    assert (exists pos, seek_target data hp pos = tgt /\
      (if whence =? SEEK_SET then if o <? 0 then fail Fat32Error.InvalidArgument else on_fatfile (fatfile_seek (SeekStart o))
       else if whence =? SEEK_CUR then on_fatfile (fatfile_seek (SeekCurrent o))
       else if whence =? SEEK_END then on_fatfile (fatfile_seek (SeekEnd o)) else fail Fat32Error.InvalidArgument)
      = on_fatfile (fatfile_seek pos)) as (pos & Hpos & ->).
    { destruct Hw as [->|[->| ->]]; simpl; [exists (SeekStart o)|exists (SeekCurrent o)|exists (SeekEnd o)]; (split; [done|]); try done.
      unfold tgt, whence_target in Ht. simpl in Ht. by rewrite (proj2 (Z.ltb_ge _ _)) by lia. }
    eapply lift_file; [done|done|]. intros fs Hf. eapply wp_mono; [apply (fatfile_seek_wp _ _ _ pos Hf); by rewrite Hpos|].
    rewrite Hpos. intros r u' (-> & Hk & Hs') t' Ht'. wsteps. rewrite as_i64_small by lia. split; [done|]. by apply Ht'.
  - unfold direct_seek. set (tgt := whence_target data hp o whence) in *. wstep.
    assert (wp (if whence =? SEEK_SET then mret o else if whence =? SEEK_CUR then lift (i64_add (dr_position d) o)
       else if whence =? SEEK_END then lift (i64_add (dr_size d) o) else fail Fat32Error.InvalidArgument) t
       (fun r t' => r = Ok tgt /\ t' = t)) as Hgo.
    { destruct Hw as [->|[->| ->]]; simpl; wsteps; [done|..]; unfold tgt, whence_target in *; simpl in *;
        rewrite i64_add_ok by (unfold i64_min, i64_max, u32_max in *; lia); by rewrite ?Hp, ?Hds. }
    eapply wp_mono; [exact Hgo|]. intros r t' [-> ->]. rewrite (proj2 (Z.ltb_ge _ _)), (proj2 (Z.ltb_ge _ _)) by lia. simpl.
    unfold set_handle. wsteps. split; [done|]. by eapply handled_direct.
Qed.

(** What a read of at most [n] bytes from [i] can return. *)
Definition read_result data (i n : Z) (bs : list Z) : Prop :=
  bs = take (length bs) (from i data) /\ size_of bs <= n /\ (bs = [] -> n = 0 \/ size_of data <= i).

Lemma h_read_wp t b data hp n : shows t.1 (handle t.2) b data hp -> 0 <= n ->
  wp (h_read n) t (fun o t' => exists hp', handled b t t' data hp' /\
    match o with Ok bs => read_result data hp n bs | Err _ => True | Panic => False end).
Proof.
  intros Hs Hn. unfold h_read. wsteps.
  destruct (shows_inv _ _ _ _ _ Hs) as [[file Hh]|(d & fs & Hh & Hi & Hr & Hb & Hp & Hds & Hoff & Hdata & Hhp & Hsz)]; rewrite Hh.
  - eapply lift_file; [done|done|]. intros fs Hf. eapply wp_mono; [by apply fatfile_read_wp|].
    intros o u' (Hk & hp' & Hs' & Ho) t' Ht'. exists hp'. split; [by apply Ht'|]. destruct o; try done.
    destruct Ho as (? & ? & Hnil). unfold read_result. splits; [done|done|]. intros E. destruct (Hnil E); [by left|right; lia].
  - unfold direct_read. rewrite <- Hp, Hds, Z.max_r by lia. set (k := Z.min n (size_of data - hp)).
    destruct (Z.eqb_spec k 0) as [Hk|Hk]; wsteps.
    { exists hp. split; [by apply handled_refl|]. unfold read_result. splits; [done|done|]. lia. }
    rewrite <- Hb. unfold on_state, deref_fs. wsteps. rewrite Hi, decide_True by done. wsteps.
    assert (length data <= length (from (dr_offset d) (fs_bytes fs)))%nat as Hlen.
    { rewrite Hdata at 1. rewrite length_take. lia. }
    unfold from in Hlen. rewrite length_drop in Hlen. unfold size_of in *.
    rewrite (proj2 (Z.ltb_ge _ _)) by lia. unfold set_handle. wsteps. exists (hp + k). split.
    { pose proof (handled_direct t b data hp d (hp + k) Hh Hs ltac:(unfold size_of; lia)) as Hd.
      rewrite <- Hb, Hds in Hd. exact Hd. }
    assert (take (Z.to_nat k) (drop (Z.to_nat (dr_offset d + hp)) (fs_bytes fs)) = take (Z.to_nat k) (from hp data)) as ->.
    { unfold from. rewrite Hdata. unfold from. rewrite skipn_firstn_comm, take_take, Nat.min_l, drop_drop by lia. do 2 f_equal. lia. }
    assert (length (take (Z.to_nat k) (from hp data)) = Z.to_nat k) as Hl by (unfold from; rewrite length_take, length_drop; lia).
    unfold read_result, size_of. rewrite Hl. splits; [done|lia|]. intros E. rewrite E in Hl. simpl in Hl. lia.
Qed.

Lemma h_write_wp t b data hp buf : shows t.1 (handle t.2) b data hp ->
  wp (h_write buf) t (fun o t' =>
    match o with
    | Ok n => 0 <= n <= size_of buf /\ handled b t t' (write_at hp (take (Z.to_nat n) buf) data) (hp + n)
    | Err _ => exists hp', handled b t t' data hp'
    | Panic => False
    end).
Proof.
  intros Hs. unfold h_write. wsteps. destruct (shows_inv _ _ _ _ _ Hs) as [[file Hh]|(d & fs & Hh & _)]; rewrite Hh.
  - eapply lift_file; [done|done|]. intros fs Hf. eapply wp_mono; [by apply fatfile_write_wp|].
    intros o u' (Hk & Ho) t' Ht'. destruct o; [|destruct Ho as [hp' Ho]; exists hp'; by apply Ht'|done].
    destruct Ho as [Hn Ho]. split; [done|]. by apply Ht'.
  - wsteps. exists hp. by apply handled_refl.
Qed.

(** A move whose outcome does not matter. *)
Lemma h_seek_ignored t b data hp o : shows t.1 (handle t.2) b data hp -> 0 <= o ->
  wp (ignore (h_seek o SEEK_SET)) t (fun r t' => r = Ok tt /\ exists hp', handled b t t' data hp').
Proof.
  intros Hs Ho. unfold ignore. wsteps. unfold h_seek. wsteps.
  destruct (shows_inv _ _ _ _ _ Hs) as [[file Hh]|(d & fs & Hh & _)]; rewrite Hh.
  - wstep. unfold f_seek. simpl. rewrite (proj2 (Z.ltb_ge _ _)) by done. eapply lift_file; [done|done|]. intros fs Hf.
    eapply wp_mono; [by apply fatfile_seek_any|]. intros r u' (Hp & Hk & hp' & Hs' & _) t' Ht'.
    destruct r; [wsteps|wsteps|done]; (split; [done|]); exists hp'; by apply Ht'.
  - unfold direct_seek. simpl. wsteps. destruct ((o <? 0) || (dr_size d <? o)) eqn:E; wsteps.
    + split; [done|]. exists hp. by apply handled_refl.
    + unfold set_handle. wsteps. split; [done|]. exists o. eapply handled_direct; [done|done|].
      apply orb_false_iff in E as [E1 E2]. apply Z.ltb_ge in E1, E2.
      destruct Hs as (_ & _ & _ & ? & _ & Hd). rewrite Hh in Hd. destruct Hd as (_ & _ & <- & _). lia.
Qed.

(** ** Filling gaps *)

(** The file with zeros up to [pos], if it is shorter. *)
Definition padded data (pos : Z) : list Z := data ++ zeros (pos - size_of data).
(** What is left of it when the storage runs out of space. *)
Definition partly_padded data (pos : Z) data' : Prop := exists j, 0 <= j <= Z.max 0 (pos - size_of data) /\ data' = data ++ zeros j.

Lemma size_app a c : size_of (a ++ c) = size_of a + size_of c.
Proof. unfold size_of. rewrite length_app. lia. Qed.
Lemma size_zeros n : size_of (zeros n) = Z.max 0 n.
Proof. unfold size_of, zeros. rewrite length_replicate. lia. Qed.
Lemma zeros_add a c : 0 <= a -> 0 <= c -> zeros (a + c) = zeros a ++ zeros c.
Proof. intros Ha Hc. unfold zeros. by rewrite <- replicate_add, Z2Nat.inj_add. Qed.
Lemma zeros_neg n : n <= 0 -> zeros n = [].
Proof. intros Hn. unfold zeros. by replace (Z.to_nat n) with 0%nat by lia. Qed.
Lemma take_zeros n m : n <= m -> take (Z.to_nat n) (zeros m) = zeros n.
Proof. intros Hn. unfold zeros. rewrite take_replicate. f_equal. lia. Qed.
Lemma write_at_end data bs : write_at (size_of data) bs data = data ++ bs.
Proof.
  unfold write_at, overwrite, size_of. rewrite Nat2Z.id, firstn_all, drop_ge by lia. by rewrite app_nil_r.
Qed.

(** The loop over zeros, at the end of the file. *)
Lemma write_zeros_wp fuel t b data remaining : shows t.1 (handle t.2) b data (size_of data) -> 0 <= remaining <= Z.of_nat fuel ->
  wp (write_zeros fuel remaining) t (fun o t' => exists j hp', 0 <= j <= remaining /\ handled b t t' (data ++ zeros j) hp' /\
    match o with Ok true => j = remaining | Panic => False | _ => True end).
Proof.
  revert t data remaining. induction fuel as [|fuel IH]; intros t data remaining Hs Hr; cbn [write_zeros];
    (destruct (Z.leb_spec remaining 0); [wsteps; exists 0, (size_of data); splits; try lia; rewrite zeros_neg, app_nil_r by lia; by apply handled_refl|]).
  { simpl in Hr. lia. }
  wstep. eapply wp_mono; [by apply h_write_wp|]. intros [n|e|] t1 Ho; [| |done].
  2: { destruct Ho as [hp' Ho]. exists 0, hp'. splits; try lia. by rewrite zeros_neg, app_nil_r by lia. }
  destruct Ho as [Hn H1]. rewrite write_at_end in H1. change (replicate (Z.to_nat (Z.min remaining 512)) 0) with (zeros (Z.min remaining 512)) in *.
  rewrite size_zeros in Hn. rewrite take_zeros in H1 by lia. destruct (Z.eqb_spec n 0) as [->|Hn0]; wsteps.
  { exists 0, (size_of data + 0). splits; try lia. done. }
  rewrite usize_sub_ok by lia. wsteps. assert (size_of data + n = size_of (data ++ zeros n)) as Hsz by (rewrite size_app, size_zeros; lia).
  rewrite Hsz in H1. eapply wp_mono; [apply (IH t1 (data ++ zeros n)); [apply H1|lia]|].
  intros o t2 (j & hp' & Hj & H2 & Ho). exists (n + j), hp'. splits; try lia.
  - rewrite zeros_add, app_assoc by lia. by eapply handled_trans.
  - destruct o as [[]| |]; try done. lia.
Qed.

Lemma fill_gap_wp t b data hp pos : shows t.1 (handle t.2) b data hp -> 0 <= pos <= u32_max ->
  wp (fill_gap pos (size_of data)) t (fun o t' => o <> Panic /\ exists data' hp', handled b t t' data' hp' /\
    partly_padded data pos data' /\ (o = Ok true -> data' = padded data pos)).
Proof.
  intros Hs Hp. unfold fill_gap. rewrite as_u64_small by (unfold i64_max, u32_max in *; lia). pose proof Hs as (_ & Hhp & Hsz & _).
  destruct (Z.ltb_spec (size_of data) pos) as [Hlt|Hge]; wsteps.
  - eapply wp_mono; [apply (h_seek_wp t b data hp 0 SEEK_END); [done|auto|unfold whence_target; simpl; lia]|].
    unfold whence_target. simpl. rewrite Z.add_0_r. intros r t1 [-> H1].
    assert (as_usize (pos - size_of data) = pos - size_of data) as -> by (apply Z.mod_small; unfold u32_max in *; lia).
    eapply wp_mono; [apply write_zeros_wp; [apply H1|lia]|]. intros o t2 (j & hp' & Hj & H2 & Ho). split; [by intros ->|].
    exists (data ++ zeros j), hp'. splits; [by eapply handled_trans|exists j; split; [lia|done]|]. intros ->. by subst j.
  - split; [done|]. exists data, hp. splits; [by apply handled_refl|exists 0; split; [lia|by rewrite zeros_neg, app_nil_r]|].
    intros _. unfold padded. by rewrite zeros_neg, app_nil_r by lia.
Qed.
End Handles.

(** ** Files of POSIX *)

Record PFile := mkPFile { pdata : list Z; ppos : Z }.

Inductive PCall :=
| PRead (n : Z) | PWrite (buf : list Z) | PSeek (off whence : Z) | PPread (n off : Z) | PPwrite (buf : list Z) (off : Z)
| PTruncate (len : Z) | PAllocate (off len : Z) | PSync.

Inductive PResult := RBytes (bs : list Z) | RNum (n : Z) | RUnit.

(** Where a seek leads, if [whence] is valid. *)
Definition pseek_target (f : PFile) (off whence : Z) : option Z :=
  if whence =? SEEK_SET then Some off
  else if whence =? SEEK_CUR then Some (ppos f + off)
  else if whence =? SEEK_END then Some (size_of (pdata f) + off)
  else None.

(** Writing [n] of the bytes at a position, with zeros before it if the file is shorter. *)
Definition pwritten (data : list Z) (off : Z) (buf : list Z) (n : Z) : list Z :=
  write_at off (take (Z.to_nat n) buf) (padded data off).

Definition posix_step (f : PFile) (c : PCall) (o : res Fat32Error PResult) (f' : PFile) : Prop :=
  match c, o with
  | PRead n, Ok (RBytes bs) => read_result (pdata f) (ppos f) n bs /\ f' = mkPFile (pdata f) (ppos f + size_of bs)
  | PRead _, Err _ => f' = f
  | PWrite buf, Ok (RNum n) => 0 <= n <= size_of buf /\ f' = mkPFile (pwritten (pdata f) (ppos f) buf n) (ppos f + n)
  | PWrite _, Err _ => ppos f' = ppos f /\ partly_padded (pdata f) (ppos f) (pdata f')
  | PSeek off whence, Ok (RNum p) => pseek_target f off whence = Some p /\ 0 <= p /\ f' = mkPFile (pdata f) p
  | PSeek off whence, Err e => f' = f /\
      match pseek_target f off whence with Some p => p < 0 /\ e = Fat32Error.InvalidSeek | None => e = Fat32Error.InvalidArgument end
  | PPread n off, Ok (RBytes bs) => read_result (pdata f) off n bs /\ f' = f
  | PPread _ _, Err _ => f' = f
  | PPwrite buf off, Ok (RNum n) => 0 <= n <= size_of buf /\ f' = mkPFile (pwritten (pdata f) off buf n) (ppos f)
  | PPwrite _ off, Err _ => ppos f' = ppos f /\ partly_padded (pdata f) off (pdata f')
  | PTruncate len, Ok RUnit => f' = mkPFile (take (Z.to_nat len) (padded (pdata f) len)) (ppos f)
  | PTruncate len, Err _ => ppos f' = ppos f /\ (size_of (pdata f) < len -> partly_padded (pdata f) len (pdata f'))
  | PAllocate off len, Ok RUnit => f' = mkPFile (padded (pdata f) (off + len)) (ppos f)
  | PAllocate off len, Err _ => ppos f' = ppos f /\ partly_padded (pdata f) (off + len) (pdata f')
  | PSync, (Ok RUnit | Err _) => f' = f
  | _, _ => False
  end.

(** Arguments that are not negative, positions that a file of FAT can have when something is
    written there, and no overflow of a position. *)
Definition in_range (f : PFile) (c : PCall) : Prop :=
  match c with
  | PRead n => 0 <= n
  | PWrite _ => ppos f <= u32_max
  | PSeek off whence => match pseek_target f off whence with Some p => i64_min <= p <= i64_max | None => True end
  | PPread n off => 0 <= n /\ 0 <= off <= i64_max
  | PPwrite _ off => 0 <= off <= u32_max
  | PTruncate len => 0 <= len <= u32_max
  | PAllocate off len => 0 <= off /\ 0 <= len /\ off + len <= u32_max
  | PSync => True
  end.

Section Refinement.
Context {FF : FatFs} {FL : FatFsLaws FF}.
Implicit Types (t : FsState * VfsEntry) (f : PFile) (d : FdState).

(** ** One entry *)

Definition views (b : Z) t f : Prop :=
  ppos f = virtual_pos t.2 /\ 0 <= ppos f <= i64_max /\ exists hp, shows t.1 (handle t.2) b (pdata f) hp.

(** The calls on an entry. *)
Definition entry_call (c : PCall) : M (FsState * VfsEntry) Fat32Error PResult :=
  match c with
  | PRead n => bs ← read_entry n; mret (RBytes bs)
  | PWrite buf => n ← write_entry buf; mret (RNum n)
  | PSeek off whence => p ← seek_entry off whence; mret (RNum p)
  | PPread n off => bs ← pread_entry n off; mret (RBytes bs)
  | PPwrite buf off => n ← pwrite_entry buf off; mret (RNum n)
  | PTruncate len => truncate_entry len;; mret RUnit
  | PAllocate off len => fallocate_entry off len;; mret RUnit
  | PSync => t ← get; match handle t.2 with Fat32 file => on_open file f_flush | _ => mret tt end;; mret RUnit
  end.

(** The outcome of a call on an entry is a step. *)
Definition stepped (b : Z) t f (c : PCall) (o : res Fat32Error PResult) t' : Prop :=
  exists f', posix_step f c o f' /\ views b t' f' /\ only_fs b t.1 t'.1 /\ same_kind (handle t.2) (handle t'.2).

Lemma stepped_handled b t t' f data hp c o : views b t f -> handled b t t' data hp ->
  posix_step f c o (mkPFile data (ppos f)) -> stepped b t f c o t'.
Proof.
  intros (Hp & Hr & _) (Hs & Hv & Ho & Hk) Hst. exists (mkPFile data (ppos f)). splits; try done.
  unfold views. simpl. splits; [congruence|lia|lia|by exists hp].
Qed.

Lemma stepped_moved b t t' f data hp c o p : handled b t t' data hp -> 0 <= p <= i64_max ->
  posix_step f c o (mkPFile data p) -> stepped b t f c o (t'.1, mkVfsEntry (handle t'.2) p).
Proof.
  intros (Hs & Hv & Ho & Hk) Hp Hst. exists (mkPFile data p). splits; try done. unfold views. simpl.
  splits; [done|lia|lia|by exists hp].
Qed.

Lemma pdata_range b t f : views b t f -> 0 <= size_of (pdata f) <= u32_max.
Proof. intros (_ & _ & hp & (_ & _ & Hsz & _)). unfold size_of in *. lia. Qed.

Lemma pfile_eta f : mkPFile (pdata f) (ppos f) = f.
Proof. by destruct f. Qed.

(** A handle that shows a file is not that of a directory. *)
Lemma shows_file s h b data hp : shows s h b data hp -> h_is_dir h = false.
Proof. intros (_ & _ & _ & fs & _ & Hh). by destruct h. Qed.

Lemma u32_i64 n : n <= u32_max -> n <= i64_max.
Proof. unfold u32_max, i64_max. lia. Qed.
Hint Resolve u32_i64 : core.

(** The last step of a chain of operations of the handle. *)
Ltac chain := first [eassumption|eapply handled_trans; [eassumption|chain]].

Lemma from_end data i : size_of data <= i -> from i data = [].
Proof. intros Hi. unfold from. apply drop_ge. unfold size_of in Hi. lia. Qed.

Lemma read_call_wp b t f n : views b t f -> in_range f (PRead n) ->
  wp (entry_call (PRead n)) t (fun o t' => o <> Panic /\ stepped b t f (PRead n) o t').
Proof.
  intros Hv Hn. pose proof Hv as (Hp & Hr & hp & Hs). pose proof (pdata_range _ _ _ Hv) as Hsz. simpl in Hn.
  cbn [entry_call]. unfold read_entry. wsteps. rewrite (shows_file _ _ _ _ _ Hs). wstep.
  eapply wp_mono; [by apply h_size_wp|]. intros r t1 [-> H1]. rewrite <- Hp, as_u64_small by done.
  destruct (Z.leb_spec (size_of (pdata f)) (ppos f)) as [Hge|Hlt]; wsteps.
  { split; [done|]. eapply stepped_handled; [done|done|]. simpl. rewrite Z.add_0_r. split; [|done]. unfold read_result.
    splits; [done|done|by right]. }
  eapply wp_mono; [apply (h_seek_wp t1 b (pdata f) hp (ppos f) SEEK_SET); [apply H1|auto|unfold whence_target; simpl; lia]|].
  intros r t2 [-> H2]. unfold whence_target in H2. simpl in H2. wstep.
  eapply wp_mono; [apply h_read_wp; [apply H2|done]|]. intros [bs|e|] t3 (hp' & H3 & Ho); [| |done]; wsteps.
  - pose proof Ho as (Hbs & Hle & _). assert (size_of bs <= size_of (pdata f) - ppos f) as Hb.
    { rewrite Hbs. unfold size_of, from in *. rewrite length_take, length_drop. lia. }
    assert (0 <= size_of bs) by (unfold size_of; lia).
    change (Z.of_nat (length bs)) with (size_of bs).
    rewrite i64_add_ok by (unfold i64_min, i64_max, u32_max in *; lia). unfold set_pos. wsteps. split; [done|].
    eapply stepped_moved; [chain|unfold i64_max, u32_max in *; lia|]. done.
  - split; [done|]. eapply stepped_handled; [done|chain|]. simpl. apply pfile_eta.
Qed.

Lemma pread_call_wp b t f n off : views b t f -> in_range f (PPread n off) ->
  wp (entry_call (PPread n off)) t (fun o t' => o <> Panic /\ stepped b t f (PPread n off) o t').
Proof.
  intros Hv [Hn Ho]. pose proof Hv as (Hp & Hr & hp & Hs). pose proof (pdata_range _ _ _ Hv) as Hsz.
  cbn [entry_call]. unfold pread_entry. wsteps. eapply wp_mono; [by apply h_size_wp|]. intros r t1 [-> H1].
  rewrite as_u64_small by done. destruct (Z.leb_spec (size_of (pdata f)) off) as [Hge|Hlt]; wsteps.
  { split; [done|]. eapply stepped_handled; [done|done|]. simpl. rewrite pfile_eta. split; [|done]. unfold read_result.
    splits; [done|done|by right]. }
  pose proof (proj1 H1) as (_ & Hhp & _).
  eapply wp_mono; [apply (h_seek_wp t1 b (pdata f) hp 0 SEEK_CUR); [apply H1|auto|unfold whence_target; simpl; lia]|].
  intros r t2 [-> H2]. unfold whence_target in *. simpl in H2 |- *. rewrite Z.add_0_r in *. wstep.
  eapply wp_mono; [apply (h_seek_wp t2 b (pdata f) hp off SEEK_SET); [apply H2|auto|unfold whence_target; simpl; lia]|].
  intros r t3 [-> H3]. unfold whence_target in H3. simpl in H3. wstep. unfold result. wstep. wstep.
  eapply wp_mono; [apply h_read_wp; [apply H3|done]|]. intros [bs|e|] t4 (hp' & H4 & Hb); [| |done]; wsteps;
    (eapply wp_mono; [eapply h_seek_ignored; [apply H4|lia]|]); intros r t5 (-> & hp2 & H5); wsteps; (split; [done|]);
    eapply stepped_handled; try chain; try done; simpl; rewrite pfile_eta; done.
Qed.

Lemma seek_call_wp b t f off whence : views b t f -> in_range f (PSeek off whence) ->
  wp (entry_call (PSeek off whence)) t (fun o t' => o <> Panic /\ stepped b t f (PSeek off whence) o t').
Proof.
  intros Hv Ho. pose proof Hv as (Hp & Hr & hp & Hs). pose proof (pdata_range _ _ _ Hv) as Hsz.
  cbn [entry_call]. unfold seek_entry. wsteps. eapply wp_mono; [by apply h_size_wp|]. intros r t1 [-> H1].
  rewrite as_i64_small by lia. cbn [in_range] in Ho. wstep.
  assert (wp (if whence =? SEEK_SET then mret off else if whence =? SEEK_CUR then lift (i64_add (virtual_pos t.2) off)
    else if whence =? SEEK_END then lift (i64_add (size_of (pdata f)) off) else fail Fat32Error.InvalidArgument) t1
    (fun r t' => t' = t1 /\ r = match pseek_target f off whence with Some p => Ok p | None => Err Fat32Error.InvalidArgument end)) as Hgo.
  { rewrite <- Hp. revert Ho. unfold pseek_target. destruct (whence =? SEEK_SET); [by wsteps|].
    destruct (whence =? SEEK_CUR); [intros Ho; wsteps; by rewrite i64_add_ok by done|].
    destruct (whence =? SEEK_END); [intros Ho; wsteps; by rewrite i64_add_ok by done|by wsteps]. }
  eapply wp_mono; [exact Hgo|]. intros r t2 [-> ->]. destruct (pseek_target f off whence) as [p|] eqn:Ht; wsteps.
  2: { split; [done|]. eapply stepped_handled; [done|done|]. simpl. rewrite Ht, pfile_eta. done. }
  destruct (Z.ltb_spec p 0); wsteps.
  { split; [done|]. eapply stepped_handled; [done|done|]. simpl. rewrite Ht, pfile_eta. done. }
  unfold set_pos. wsteps. set (t3 := (t1.1, _)).
  assert (handled b t3 t3 (pdata f) hp) as H3 by (apply handled_refl; apply H1).
  assert (forall t4 hp', handled b t3 t4 (pdata f) hp' -> stepped b t f (PSeek off whence) (Ok (RNum p)) t4) as Hend.
  { intros t4 hp' (S4 & V4 & O4 & K4). exists (mkPFile (pdata f) p). destruct H1 as (_ & _ & O1 & K1). splits.
    - simpl. rewrite Ht. done.
    - unfold views. simpl. rewrite V4. splits; [done|lia|lia|by exists hp'].
    - by etrans.
    - etrans; [exact K1|exact K4]. }
  destruct (Z.leb_spec p (size_of (pdata f))); wsteps; [|split; [done|by eapply Hend]].
  eapply wp_mono; [eapply h_seek_ignored; [apply H3|lia]|]. intros r t4 (-> & hp' & H4). wsteps. split; [done|]. by eapply Hend.
Qed.

Lemma padded_size data pos : size_of (padded data pos) = Z.max (size_of data) pos.
Proof. unfold padded. rewrite size_app, size_zeros. unfold size_of. lia. Qed.

Lemma padded_partly data pos : partly_padded data pos (padded data pos).
Proof.
  exists (Z.max 0 (pos - size_of data)). split; [lia|]. unfold padded. f_equal. destruct (Z.leb_spec (pos - size_of data) 0).
  - by rewrite Z.max_l, !zeros_neg by lia.
  - by rewrite Z.max_r by lia.
Qed.

Lemma partly_none data pos : partly_padded data pos data.
Proof. exists 0. split; [lia|]. by rewrite zeros_neg, app_nil_r. Qed.

(** The common part of both ways to write: the gap is filled and the handle moved. *)
Lemma reach_wp {A} b t data hp off (rest failed : M (FsState * VfsEntry) Fat32Error A) (Q : res Fat32Error A → FsState * VfsEntry → Prop) :
  shows t.1 (handle t.2) b data hp -> 0 <= off <= u32_max ->
  (forall t', handled b t t' (padded data off) off -> wp rest t' Q) ->
  (forall t' data' hp', handled b t t' data' hp' -> partly_padded data off data' -> wp failed t' Q) ->
  (forall e t' data' hp', handled b t t' data' hp' -> partly_padded data off data' -> Q (Err e) t') ->
  wp (filled ← fill_gap off (size_of data); if negb filled then failed else h_seek off SEEK_SET;; rest) t Q.
Proof.
  intros Hs Ho Hok Hfail Herr. wstep. eapply wp_mono; [by eapply fill_gap_wp|].
  intros [[]|e|] t1 (Hp & data1 & hp1 & H1 & Hpart & Hfull); simpl; [|by eapply Hfail|by eapply Herr|done].
  rewrite (Hfull eq_refl) in *. pose proof (padded_size data off) as Hps. wstep.
  eapply wp_mono; [apply (h_seek_wp t1 b (padded data off) hp1 off SEEK_SET); [apply H1|auto|unfold whence_target; simpl; unfold size_of in *; lia]|].
  intros r t2 [-> H2]. unfold whence_target in H2. simpl in H2. apply Hok. chain.
Qed.

Lemma write_call_wp b t f buf : views b t f -> in_range f (PWrite buf) ->
  wp (entry_call (PWrite buf)) t (fun o t' => o <> Panic /\ stepped b t f (PWrite buf) o t').
Proof.
  intros Hv Ho. pose proof Hv as (Hp & Hr & hp & Hs). cbn [entry_call in_range] in *. unfold write_entry.
  wsteps. eapply wp_mono; [by apply h_size_wp|]. intros r t1 [-> H1]. rewrite <- Hp.
  eapply (reach_wp b t1 (pdata f) hp (ppos f)); [apply H1|lia|..].
  - intros t2 H2. wstep. eapply wp_mono; [apply h_write_wp; apply H2|]. intros [n|e|] t3 H3; [| |done]; wsteps.
    + destruct H3 as [Hn H3]. pose proof (proj1 H3) as (_ & ? & ? & _).
      rewrite i64_add_ok by (unfold i64_min, i64_max, u32_max in *; lia). unfold set_pos. wsteps. split; [done|].
      eapply stepped_moved; [chain|unfold i64_max, u32_max in *; lia|]. done.
    + destruct H3 as [hp' H3]. split; [done|]. eapply stepped_handled; [done|chain|]. split; [done|apply padded_partly].
  - intros t2 data' hp' H2 Hpart. wsteps. split; [done|]. eapply stepped_handled; [done|chain|]. done.
  - intros e t2 data' hp' H2 Hpart. split; [done|]. eapply stepped_handled; [done|chain|]. done.
Qed.

Lemma pwrite_call_wp b t f buf off : views b t f -> in_range f (PPwrite buf off) ->
  wp (entry_call (PPwrite buf off)) t (fun o t' => o <> Panic /\ stepped b t f (PPwrite buf off) o t').
Proof.
  intros Hv Ho. pose proof Hv as (Hp & Hr & hp & Hs). pose proof Hs as (_ & Hhp & _). cbn [entry_call in_range] in *. unfold pwrite_entry.
  wsteps. eapply wp_mono; [apply (h_seek_wp t b (pdata f) hp 0 SEEK_CUR); [done|auto|unfold whence_target; simpl; lia]|].
  unfold whence_target. simpl. rewrite Z.add_0_r. intros r t0 [-> H0]. wstep.
  eapply wp_mono; [apply h_size_wp; apply H0|]. intros r t1 [-> H1].
  assert (forall t' data' hp', handled b t t' data' hp' ->
    wp (ignore (h_seek hp SEEK_SET)) t' (fun r t'' => r = Ok tt /\ exists hp'', handled b t t'' data' hp'')) as Hback.
  { intros t' data' hp' H'. eapply wp_mono; [eapply h_seek_ignored; [apply H'|lia]|]. intros r t'' (-> & hp'' & H''). split; [done|].
    exists hp''. chain. }
  eapply (reach_wp b t1 (pdata f) hp off); [apply H1|done|..].
  - intros t2 H2. wstep. unfold result. wstep. wstep. eapply wp_mono; [apply h_write_wp; apply H2|].
    intros [n|e|] t3 H3; [destruct H3 as [Hn H3]|destruct H3 as [hp' H3]|done]; wsteps;
      (eapply wp_mono; [eapply Hback; chain|]); intros r t4 (-> & hp4 & H4); wsteps; (split; [done|]);
      eapply stepped_handled; try done; first [by split|split; [done|apply padded_partly]].
  - intros t2 data' hp' H2 Hpart. wstep. eapply wp_mono; [eapply Hback; chain|]. intros r t3 (-> & hp3 & H3). wsteps. split; [done|].
    eapply stepped_handled; [done|done|]. done.
  - intros e t2 data' hp' H2 Hpart. split; [done|]. eapply stepped_handled; [done|chain|]. done.
Qed.

Lemma extend_to_wp b t data hp target saved : shows t.1 (handle t.2) b data hp -> size_of data < target <= u32_max -> 0 <= saved <= u32_max ->
  wp (extend_to target (size_of data) saved) t (fun o t' => o <> Panic /\ exists data' hp', handled b t t' data' hp' /\
    partly_padded data target data' /\ (o = Ok tt -> data' = padded data target)).
Proof.
  intros Hs Ht Hsv. unfold extend_to. assert (0 <= size_of data) by (unfold size_of; lia). wsteps.
  eapply wp_mono; [apply (h_seek_wp t b data hp 0 SEEK_END); [done|auto|unfold whence_target; simpl; lia]|].
  unfold whence_target. simpl. rewrite Z.add_0_r. intros r t1 [-> H1].
  assert (as_usize (target - size_of data) = target - size_of data) as -> by (apply Z.mod_small; unfold u32_max in *; lia).
  wstep. eapply wp_mono; [apply write_zeros_wp; [apply H1|lia]|]. intros o t2 (j & hp' & Hj & H2 & Ho).
  assert (partly_padded data target (data ++ zeros j)) as Hpart by (exists j; split; [lia|done]).
  destruct o as [filled|e|]; [|split; [done|]; exists (data ++ zeros j), hp'; splits; [chain|done|done]|done].
  wstep. rewrite as_i64_small by done. eapply wp_mono; [eapply h_seek_ignored; [apply H2|lia]|]. intros r t3 (-> & hp3 & H3).
  destruct filled; simpl; wsteps; (split; [done|]); exists (data ++ zeros j), hp3; splits; try done; try chain. by subst j.
Qed.

Lemma same_kind_fat32 file h : same_kind (Fat32 file) h -> exists file', h = Fat32 file'.
Proof. destruct h; try done. eauto. Qed.

Lemma truncate_call_wp b t f len : views b t f -> in_range f (PTruncate len) ->
  wp (entry_call (PTruncate len)) t (fun o t' => o <> Panic /\ stepped b t f (PTruncate len) o t').
Proof.
  intros Hv Ho. pose proof Hv as (Hp & Hr & hp & Hs). pose proof Hs as (_ & Hhp & Hsz & _). cbn [entry_call in_range] in *. unfold truncate_entry.
  wsteps. destruct (shows_inv _ _ _ _ _ Hs) as [[file Hh]|(d & fs & Hh & _)]; rewrite Hh.
  2: { wsteps. split; [done|]. eapply stepped_handled; [done|by apply handled_refl|]. split; [done|]. intros _. apply partly_none. }
  wstep. eapply wp_mono; [by apply h_size_wp|]. intros r t1 [-> H1]. rewrite as_u64_small by (unfold i64_max, u32_max in *; lia).
  wstep. eapply wp_mono; [apply (h_seek_wp t1 b (pdata f) hp 0 SEEK_CUR); [apply H1|auto|unfold whence_target; simpl; lia]|].
  unfold whence_target. simpl. rewrite Z.add_0_r. intros r t2 [-> H2].
  destruct (Z.leb_spec len (size_of (pdata f))) as [Hle|Hgt].
  2: { eapply wp_mono; [eapply extend_to_wp; [apply H2|lia|lia]|]. intros o t3 (Hpn & data' & hp' & H3 & Hpart & Hfull).
    destruct o as [[]|e|]; [| |done]; wsteps; (split; [done|]); (eapply stepped_handled; [done|chain|]).
    - simpl. rewrite (Hfull eq_refl). f_equal. rewrite take_ge; [done|]. pose proof (padded_size (pdata f) len). unfold size_of in *. lia.
    - split; [done|]. by intros _. }
  wstep. unfold result. wstep. wstep. wstep.
  eapply wp_mono; [apply (h_seek_wp t2 b (pdata f) hp len SEEK_SET); [apply H2|auto|unfold whence_target; simpl; lia]|].
  unfold whence_target. simpl. intros r t3 [-> H3]. wsteps.
  assert (same_kind (handle t.2) (handle t3.2)) as Hk by (etrans; [apply H1|etrans; [apply H2|apply H3]]). rewrite Hh in Hk.
  destruct (same_kind_fat32 _ _ Hk) as [file' Hh']. rewrite Hh'.
  eapply lift_file; [done|apply H3|]. intros fs Hf. eapply wp_mono; [by apply fatfile_truncate_wp|].
  intros o u' (Hrt & Hpn & data' & hp' & Hs' & Hok) t4 Ht4. pose proof (Ht4 _ _ Hs' Hrt) as H4.
  assert (padded (pdata f) len = pdata f) as Hpad by (unfold padded; by rewrite zeros_neg, app_nil_r by lia).
  destruct o as [[]|e|]; [| |done]; wsteps; rewrite as_i64_small by lia;
    (eapply wp_mono; [eapply h_seek_ignored; [apply H4|lia]|]); intros r t5 (-> & hp5 & H5); wsteps; (split; [done|]);
    (eapply stepped_handled; [done|chain|]).
  - simpl. by rewrite Hpad, (Hok eq_refl).
  - split; [done|]. lia.
Qed.

Lemma allocate_call_wp b t f off len : views b t f -> in_range f (PAllocate off len) ->
  wp (entry_call (PAllocate off len)) t (fun o t' => o <> Panic /\ stepped b t f (PAllocate off len) o t').
Proof.
  intros Hv Ho. pose proof Hv as (Hp & Hr & hp & Hs). pose proof Hs as (_ & Hhp & Hsz & _). cbn [entry_call in_range] in *. unfold fallocate_entry.
  wsteps. destruct (shows_inv _ _ _ _ _ Hs) as [[file Hh]|(d & fs & Hh & _)]; rewrite Hh.
  2: { wsteps. split; [done|]. eapply stepped_handled; [done|by apply handled_refl|]. split; [done|]. apply partly_none. }
  wsteps. rewrite i64_add_ok by (unfold i64_min, i64_max, u32_max in *; lia). wstep.
  eapply wp_mono; [by apply h_size_wp|]. intros r t1 [-> H1]. rewrite as_u64_small by (unfold i64_max, u32_max in *; lia).
  destruct (Z.leb_spec (off + len) (size_of (pdata f))) as [Hle|Hgt]; wsteps.
  { split; [done|]. eapply stepped_handled; [done|done|]. simpl. unfold padded. by rewrite zeros_neg, app_nil_r by lia. }
  eapply wp_mono; [apply (h_seek_wp t1 b (pdata f) hp 0 SEEK_CUR); [apply H1|auto|unfold whence_target; simpl; lia]|].
  unfold whence_target. simpl. rewrite Z.add_0_r. intros r t2 [-> H2].
  eapply wp_mono; [eapply extend_to_wp; [apply H2|lia|lia]|]. intros o t3 (Hpn & data' & hp' & H3 & Hpart & Hfull).
  destruct o as [[]|e|]; [| |done]; wsteps; (split; [done|]); (eapply stepped_handled; [done|chain|]); [|by split].
  simpl. by rewrite (Hfull eq_refl).
Qed.

Lemma sync_call_wp b t f : views b t f -> wp (entry_call PSync) t (fun o t' => o <> Panic /\ stepped b t f PSync o t').
Proof.
  intros Hv. pose proof Hv as (Hp & Hr & hp & Hs). cbn [entry_call]. wsteps.
  destruct (shows_inv _ _ _ _ _ Hs) as [[file Hh]|(d & fs & Hh & _)]; rewrite Hh.
  - eapply lift_file; [done|done|]. intros fs Hf. eapply wp_mono; [by eapply fatfile_flush_wp|].
    intros o u' (Hk & Hpn & hp' & Hs') t' Ht'. destruct o; [wsteps| |done]; (split; [done|]);
      (eapply stepped_handled; [done|by apply Ht'|]); by rewrite pfile_eta.
  - wsteps. split; [done|]. eapply stepped_handled; [done|by apply handled_refl|]. by rewrite pfile_eta.
Qed.

Lemma entry_call_wp b t f c : views b t f -> in_range f c ->
  wp (entry_call c) t (fun o t' => o <> Panic /\ stepped b t f c o t').
Proof.
  intros Hv Hc. destruct c; [by apply read_call_wp|by apply write_call_wp|by apply seek_call_wp|by apply pread_call_wp
    |by apply pwrite_call_wp|by apply truncate_call_wp|by apply allocate_call_wp|by apply sync_call_wp].
Qed.

(** ** Descriptors *)

Definition do_call (fd : Z) (c : PCall) : M FdState Fat32Error PResult :=
  match c with
  | PRead n => bs ← vfs_read fd n; mret (RBytes bs)
  | PWrite buf => n ← vfs_write fd buf; mret (RNum n)
  | PSeek off whence => p ← vfs_lseek fd off whence; mret (RNum p)
  | PPread n off => bs ← vfs_pread fd n off; mret (RBytes bs)
  | PPwrite buf off => n ← vfs_pwrite fd buf off; mret (RNum n)
  | PTruncate len => vfs_ftruncate fd len;; mret RUnit
  | PAllocate off len => vfs_fallocate fd off len;; mret RUnit
  | PSync => vfs_fsync fd;; mret RUnit
  end.

Lemma with_entry_map {A A'} fd (m : M (FsState * VfsEntry) Fat32Error A) (g : A → A') d :
  (a ← with_entry fd m; mret (g a)) d = with_entry fd (a ← m; mret (g a)) d.
Proof.
  unfold with_entry, mbind, M_bind. destruct (fd_lock fd d) as [[[i [e|]]|e|] d']; [|done..]. unfold in_slot.
  by destruct (m (fs_state d', e)) as [[] [s' e']].
Qed.

Lemma do_call_entry fd c d : do_call fd c d = with_entry fd (entry_call c) d.
Proof.
  destruct c; simpl; unfold vfs_read, vfs_write, vfs_lseek, vfs_pread, vfs_pwrite, vfs_ftruncate, vfs_fallocate, vfs_fsync;
    apply with_entry_map.
Qed.

(** A descriptor stands for the file [f], which is in the file system at [b]. *)
Definition stands d (fd : Z) f (b : Z) : Prop :=
  exists i e, fd_slot fd = Ok i /\ slots d !! i = Some (Some e) /\ views b (fs_state d, e) f.

(** Other descriptors, mounts, counts and file systems are as before. *)
Definition untouched (fd b : Z) d d' : Prop :=
  only_fs b (fs_state d) (fs_state d') /\ forall i, fd_slot fd <> Ok i -> slots d' !! i = slots d !! i.

Lemma do_call_wp d fd f b c : stands d fd f b -> in_range f c ->
  wp (do_call fd c) d (fun o d' => exists f', posix_step f c o f' /\ stands d' fd f' b /\ untouched fd b d d').
Proof.
  intros (i & e & Hi & He & Hv) Hc. unfold wp. rewrite do_call_entry. fold (wp (with_entry fd (entry_call c)) d
    (fun o d' => exists f', posix_step f c o f' /\ stands d' fd f' b /\ untouched fd b d d')).
  unfold with_entry, fd_lock. wsteps. rewrite Hi. wsteps. rewrite He. wsteps. unfold wp, in_slot.
  pose proof (entry_call_wp b (fs_state d, e) f c Hv Hc) as Hw. unfold wp in Hw.
  destruct (entry_call c (fs_state d, e)) as [o [s' e']]. simpl in *. destruct Hw as (_ & f' & Hst & Hv' & Ho & Hk).
  exists f'. splits; [done| |split; [done|]].
  - exists i, e'. simpl. splits; [done| |done]. rewrite list_lookup_insert_eq; [done|]. by eapply lookup_lt_Some.
  - intros j Hj. simpl. rewrite list_lookup_insert_ne; [done|]. congruence.
Qed.

(** A sequence of calls on a descriptor, and what they return. *)
Fixpoint run_calls (fd : Z) (d : FdState) (cs : list PCall) : list (res Fat32Error PResult) * FdState :=
  match cs with
  | [] => ([], d)
  | c :: cs => let '(o, d') := do_call fd c d in let '(os, d'') := run_calls fd d' cs in (o :: os, d'')
  end.
End Refinement.

(** The results are those of a file of POSIX, as long as the arguments are in range. *)
Fixpoint posix_trace (f : PFile) (cs : list PCall) (os : list (res Fat32Error PResult)) : Prop :=
  match cs, os with
  | [], [] => True
  | c :: cs, o :: os => in_range f c -> exists f', posix_step f c o f' /\ posix_trace f' cs os
  | _, _ => False
  end.
