(* ===== verification/VfsInv.v ===== *)
(** * The virtual file system: open files stay valid

    Open files borrow the file system they are in, with a lifetime that the compiler does not
    check; the code relies on counts of open files, which keep a mount in place.  Here is the
    invariant behind that, that every operation keeps it, and what [unmount] does in every
    case. *)

From S2P Require Import Prelude Error Str FatStorage MountTable FatFs VfsState VfsFd.
#[local] Open Scope Z_scope.

Section VfsInv.
Context {FF : FatFs}.
Implicit Types (s : FsState) (d : FdState) (p : str).

(** ** Operations that leave mounts and counts alone *)

(** The current directory and the contents of file systems may change, nothing else. *)
Definition calm s s' : Prop :=
  GUEST_MOUNTS s' = GUEST_MOUNTS s /\ OPEN_FILE_COUNTS s' = OPEN_FILE_COUNTS s /\ regions s' = regions s /\
  dom (images s') = dom (images s) /\
  match VFS_STATE s, VFS_STATE s' with
  | Some v, Some v' => mounts v' = mounts v /\ (vfs_wf v -> vfs_wf v')
  | None, None => True
  | _, _ => False
  end.

#[global] Instance calm_refl : Reflexive calm.
Proof. intros s. unfold calm. splits; try done. by destruct (VFS_STATE s). Qed.
#[global] Instance calm_trans : Transitive calm.
Proof.
  intros s1 s2 s3 (H1 & H2 & H3 & H4 & H5) (G1 & G2 & G3 & G4 & G5). unfold calm. splits; try congruence.
  destruct (VFS_STATE s1), (VFS_STATE s2), (VFS_STATE s3); try done. destruct H5, G5. split; [congruence|tauto].
Qed.

(** Code with this property, whatever it returns. *)
Class Calm {A} (m : M FsState Fat32Error A) : Prop := is_calm : forall s, calm s (m s).2.

#[global] Instance calm_ret {A} (a : A) : Calm (mret a).
Proof. intros s. reflexivity. Qed.
#[global] Instance calm_fail {A} e : Calm (fail (A:=A) e).
Proof. intros s. reflexivity. Qed.
#[global] Instance calm_lift {A} (r : res Fat32Error A) : Calm (lift r).
Proof. intros s. reflexivity. Qed.
#[global] Instance calm_get : Calm get.
Proof. intros s. reflexivity. Qed.
#[global] Instance calm_bind {A A'} (m : M FsState Fat32Error A) (k : A → M FsState Fat32Error A') :
  Calm m -> (forall a, Calm (k a)) -> Calm (m ≫= k).
Proof.
  intros Hm Hk s. unfold mbind, M_bind. specialize (Hm s). destruct (m s) as [[a|e|] s']; simpl in *; [|done..].
  etrans; [exact Hm|apply Hk].
Qed.
#[global] Instance calm_catch {A} (m : M FsState Fat32Error A) (h : Fat32Error → M FsState Fat32Error A) :
  Calm m -> (forall e, Calm (h e)) -> Calm (catch m h).
Proof.
  intros Hm Hh s. unfold catch. specialize (Hm s). destruct (m s) as [[a|e|] s']; simpl in *; [done| |done].
  etrans; [exact Hm|apply Hh].
Qed.

Lemma store_calm ptr fs s : ptr ∈ dom (images s) -> calm s (with_images (<[ptr := fs]> (images s)) s).
Proof.
  intros Hp. unfold calm. splits; try done; simpl; [rewrite dom_insert_L; set_solver|by destruct (VFS_STATE s)].
Qed.

#[global] Instance calm_on_fs {A} ptr (m : M FileSystem Fat32Error A) : Calm (on_fs ptr m).
Proof.
  intros s. unfold on_fs, deref_fs, mbind, M_bind, get. simpl. destruct (images s !! ptr) as [fs|] eqn:E; [|reflexivity].
  case_decide; [|reflexivity]. simpl. destruct (m fs) as [r fs']. apply store_calm. by eapply elem_of_dom_2.
Qed.
#[global] Instance calm_with_vfs {A} (f : Vfs Fat → res Fat32Error A) : Calm (with_vfs f).
Proof. intros s. unfold with_vfs, mbind, M_bind, get. simpl. by destruct (VFS_STATE s). Qed.

(** Structural search for the property. *)
Ltac calmly :=
  repeat first
    [ progress intros
    | apply _
    | apply calm_bind
    | apply calm_catch
    | match goal with |- Calm (if ?b then _ else _) => destruct b end
    | match goal with |- Calm (match ?x with _ => _ end) => destruct x end
    | progress unfold resolve_path, mount_at, check_writable, current_dir, normalize ].

#[global] Instance calm_stat p : Calm (vfs_path_stat p).
Proof. unfold vfs_path_stat. calmly. Qed.
#[global] Instance calm_change {A} p (op : Fat → str → M FileSystem Fat32Error A) : Calm (change_path p op).
Proof. unfold change_path. calmly. Qed.
#[global] Instance calm_read_dir p : Calm (read_dir p).
Proof. unfold read_dir. calmly. Qed.
#[global] Instance calm_rename p q : Calm (rename p q).
Proof. unfold rename. calmly. Qed.
#[global] Instance calm_region p : Calm (file_raw_region p).
Proof. unfold file_raw_region. calmly. Qed.

Lemma set_cwd_mounts {Fat} p (v : Vfs Fat) : mounts (set_cwd p v).2 = mounts v.
Proof.
  unfold set_cwd, mbind, M_bind, get, lift, put. simpl. destruct (normalize_path v p); [|done..]. case_decide; [|done].
  by destruct (resolve v a).
Qed.

#[global] Instance calm_chdir p : Calm (chdir p).
Proof.
  intros s. unfold chdir, with_vfs_mut, mbind, M_bind, get. simpl. destruct (VFS_STATE s) as [v|] eqn:Ev; [|reflexivity].
  pose proof (set_cwd_mounts p v) as Hm. pose proof (set_cwd_wf v p) as Hw. unfold wp in Hw.
  destruct (set_cwd p v) as [r v']. unfold calm. simpl in *. rewrite Ev. splits; try done. intros Hv. by apply Hw.
Qed.

(** ** Operations on an open file *)

Class CalmO {A} (m : M (FsState * File) Fat32Error A) : Prop := is_calm_o : forall t,
  calm t.1 (m t).2.1 /\ file_fs (m t).2.2 = file_fs t.2 /\ file_mount_path (m t).2.2 = file_mount_path t.2.

#[global] Instance calm_o_fatfile {A} (m : M (FileSystem * FatFile) Fat32Error A) : CalmO (on_fatfile m).
Proof.
  intros [s f]. unfold on_fatfile, deref_fs, mbind, M_bind, get. simpl.
  destruct (images s !! file_fs f) as [fs|] eqn:E; simpl; [|by splits]. case_decide; simpl; [|by splits].
  destruct (m (fs, file_inner f)) as [r [fs' f']]. simpl. splits; [|done..]. apply store_calm. by eapply elem_of_dom_2.
Qed.
#[global] Instance calm_o_fail {A} e : CalmO (fail (A:=A) e).
Proof. intros t. by splits. Qed.

#[global] Instance calm_o_seek whence off : CalmO (f_seek whence off).
Proof. unfold f_seek. repeat case_match; apply _. Qed.

(** ** Operations on an entry *)

(** What the counts of open files depend on. *)
Definition file_of (h : VfsFileHandle) : option (Z * str) :=
  match h with Fat32 f => Some (file_fs f, file_mount_path f) | _ => None end.

Definition calm_at {A} (m : M (FsState * VfsEntry) Fat32Error A) (t : FsState * VfsEntry) : Prop :=
  calm t.1 (m t).2.1 /\ file_of (handle (m t).2.2) = file_of (handle t.2).
Class CalmE {A} (m : M (FsState * VfsEntry) Fat32Error A) : Prop := is_calm_e : forall t, calm_at m t.

#[global] Instance calm_e_ret {A} (a : A) : CalmE (mret a).
Proof. intros t. by split. Qed.
#[global] Instance calm_e_fail {A} e : CalmE (fail (A:=A) e).
Proof. intros t. by split. Qed.
#[global] Instance calm_e_panic {A} : CalmE (panic (A:=A)).
Proof. intros t. by split. Qed.
#[global] Instance calm_e_lift {A} (r : res Fat32Error A) : CalmE (lift r).
Proof. intros t. by split. Qed.
#[global] Instance calm_e_pos n : CalmE (set_pos n).
Proof. intros t. by split. Qed.

Lemma calm_at_bind {A A'} (m : M (FsState * VfsEntry) Fat32Error A) (k : A → M (FsState * VfsEntry) Fat32Error A') t :
  calm_at m t -> (forall a, calm_at (k a) (m t).2) -> calm_at (m ≫= k) t.
Proof.
  unfold calm_at, mbind, M_bind. intros [H1 H2] Hk. destruct (m t) as [[a|e|] t']; simpl in *; [|done..].
  destruct (Hk a) as [G1 G2]. split; [by etrans|congruence].
Qed.

#[global] Instance calm_e_bind {A A'} (m : M (FsState * VfsEntry) Fat32Error A) (k : A → M (FsState * VfsEntry) Fat32Error A') :
  CalmE m -> (forall a, CalmE (k a)) -> CalmE (m ≫= k).
Proof. intros Hm Hk t. apply calm_at_bind; [apply Hm|intros a; apply Hk]. Qed.

Lemma calm_e_catch {A} (m : M (FsState * VfsEntry) Fat32Error A) (h : Fat32Error → M (FsState * VfsEntry) Fat32Error A) :
  CalmE m -> (forall e, CalmE (h e)) -> CalmE (catch m h).
Proof.
  intros Hm Hh t. unfold calm_at, catch. destruct (Hm t) as [H1 H2]. destruct (m t) as [[a|e|] t']; simpl in *; [done| |done].
  destruct (Hh e t') as [G1 G2]. split; [by etrans|congruence].
Qed.

(** Code that looks at the entry first. *)
Lemma calm_e_get {A} (k : FsState * VfsEntry → M (FsState * VfsEntry) Fat32Error A) : (forall t, calm_at (k t) t) -> CalmE (get ≫= k).
Proof. intros Hk t. apply Hk. Qed.

Lemma calm_at_open {A} file (m : M (FsState * File) Fat32Error A) t : handle t.2 = Fat32 file -> CalmO m -> calm_at (on_open file m) t.
Proof.
  intros Hh Hm. unfold calm_at, on_open. destruct (Hm (t.1, file)) as (H1 & H2 & H3). destruct (m (t.1, file)) as [r [s' f']].
  simpl in *. rewrite Hh. simpl. split; [done|]. congruence.
Qed.

Lemma calm_at_handle h t : file_of h = file_of (handle t.2) -> calm_at (set_handle h) t.
Proof. intros Hh. by split. Qed.

Lemma calm_at_state {A} (m : M FsState Fat32Error A) t : Calm m -> calm_at (on_state m) t.
Proof. intros Hm. unfold calm_at, on_state, zoom. specialize (Hm t.1). destruct (m t.1). by split. Qed.

Lemma calm_deref ptr : Calm (deref_fs ptr).
Proof.
  intros s. unfold deref_fs, mbind, M_bind, get. simpl. destruct (images s !! ptr); [|reflexivity]. case_decide; reflexivity.
Qed.

#[global] Instance calm_read n : CalmE (h_read n).
Proof.
  apply calm_e_get. intros t. destruct (handle t.2) as [f|h|h|h] eqn:Hh; [by apply calm_at_open; [|apply calm_o_fatfile]| |apply calm_e_fail..].
  unfold direct_read. case_match; [apply calm_e_ret|]. apply calm_at_bind; [apply calm_at_state, calm_deref|]. intros fs.
  assert (handle (on_state (deref_fs (dr_base h)) t).2.2 = DirectRead h) as Hh'.
  { unfold on_state, zoom. by destruct (deref_fs _ _). }
  case_match; [apply calm_e_panic|]. apply calm_at_bind; [by apply calm_at_handle; rewrite Hh'|intros; apply calm_e_ret].
Qed.

#[global] Instance calm_write buf : CalmE (h_write buf).
Proof.
  apply calm_e_get. intros t. destruct (handle t.2) as [f|h|h|h] eqn:Hh; [|apply calm_e_fail..].
  apply calm_at_open; [done|apply calm_o_fatfile].
Qed.

#[global] Instance calm_seek off whence : CalmE (h_seek off whence).
Proof.
  apply calm_e_get. intros t. destruct (handle t.2) as [f|h|h|h] eqn:Hh; [| |apply calm_e_fail..].
  - apply calm_at_bind; [apply calm_at_open; [done|apply _]|intros; apply calm_e_ret].
  - unfold direct_seek. destruct t as [s e]. simpl in *.
    apply calm_at_bind; [repeat case_match; apply is_calm_e|]. intros p.
    assert (((if whence =? SEEK_SET then mret off else if whence =? SEEK_CUR then lift (i64_add (dr_position h) off)
      else if whence =? SEEK_END then lift (i64_add (dr_size h) off) else fail Fat32Error.InvalidArgument) (s, e)).2 = (s, e)) as ->
      by (repeat case_match; reflexivity).
    case_match; [apply calm_e_fail|]. apply calm_at_bind; [by apply calm_at_handle; simpl; rewrite Hh|intros; apply calm_e_ret].
Qed.

#[global] Instance calm_size : CalmE h_size.
Proof.
  apply calm_e_get. intros t. destruct (handle t.2) as [f|h|h|h] eqn:Hh; [|apply calm_e_ret..].
  apply calm_at_open; [done|apply calm_o_fatfile].
Qed.

#[global] Instance calm_ignore {A} (m : M (FsState * VfsEntry) Fat32Error A) : CalmE m -> CalmE (ignore m).
Proof. intros Hm. unfold ignore. apply calm_e_catch; apply _. Qed.

#[global] Instance calm_result {A} (m : M (FsState * VfsEntry) Fat32Error A) : CalmE m -> CalmE (result m).
Proof.
  intros Hm t. unfold calm_at, result, catch, mbind, M_bind. destruct (Hm t) as [H1 H2]. by destruct (m t) as [[] t'].
Qed.

#[global] Instance calm_zeros fuel n : CalmE (write_zeros fuel n).
Proof. revert n. induction fuel as [|fuel IH]; intros n; simpl; (case_match; [apply _|]); [apply _|]. apply calm_e_bind; [apply _|]. intros w.
  case_match; apply _. Qed.

#[global] Instance calm_gap pos size : CalmE (fill_gap pos size).
Proof. unfold fill_gap. case_match; apply _. Qed.

#[global] Instance calm_extend a b' c : CalmE (extend_to a b' c).
Proof. unfold extend_to. repeat (apply calm_e_bind; [apply _|intros]). case_match; apply _. Qed.

(** Code that looks at the entry, where only the position and the kind of the handle matter. *)
Ltac entry := repeat first [ progress intros | apply _ | apply calm_e_bind
  | match goal with |- CalmE (if ?b then _ else _) => destruct b end
  | match goal with |- CalmE (match ?x with _ => _ end) => destruct x end ].

Lemma calm_e_at {A} (m : M (FsState * VfsEntry) Fat32Error A) t : CalmE m -> calm_at m t.
Proof. done. Qed.

(** An operation of the file, if the handle has one. *)
Lemma calm_e_file {A} (m : M (FsState * File) Fat32Error A) (other : M (FsState * VfsEntry) Fat32Error A) : CalmO m -> CalmE other ->
  CalmE (t ← get; match handle t.2 with Fat32 file => on_open file m | _ => other end).
Proof. intros Hm Ho. apply calm_e_get. intros t. destruct (handle t.2) eqn:Hh; [by apply calm_at_open|apply Ho..]. Qed.

#[global] Instance calm_read_entry n : CalmE (read_entry n).
Proof. apply calm_e_get. intros t. apply calm_e_at. entry. Qed.
#[global] Instance calm_write_entry buf : CalmE (write_entry buf).
Proof. apply calm_e_get. intros t. apply calm_e_at. entry. Qed.
#[global] Instance calm_seek_entry off whence : CalmE (seek_entry off whence).
Proof. apply calm_e_get. intros t. apply calm_e_at. entry. Qed.
#[global] Instance calm_pread_entry n off : CalmE (pread_entry n off).
Proof. unfold pread_entry. entry. Qed.
#[global] Instance calm_pwrite_entry buf off : CalmE (pwrite_entry buf off).
Proof. unfold pwrite_entry. entry. Qed.
#[global] Instance calm_truncate_entry len : CalmE (truncate_entry len).
Proof.
  apply calm_e_get. intros t. apply calm_e_at. destruct (handle t.2); [|apply _..].
  repeat (apply calm_e_bind; [apply _|intros]). case_match; [|apply _].
  apply calm_e_bind; [|intros; entry]. apply calm_result, calm_e_bind; [apply _|]. intros _.
  apply calm_e_file; [apply calm_o_fatfile|apply _].
Qed.
#[global] Instance calm_fallocate_entry off len : CalmE (fallocate_entry off len).
Proof. apply calm_e_get. intros t. apply calm_e_at. destruct (handle t.2); entry. Qed.

(** ** The invariant *)

(** The count of a path. *)
Fixpoint recorded p (l : list OpenFileCount) : Z :=
  match l with
  | [] => 0
  | e :: l => if decide (ofc_mount_path e = p) then ofc_count e else recorded p l
  end.

(** The open files of the table: file system and path of the mount. *)
Definition open_of (slot : option VfsEntry) : option (Z * str) := slot ≫= fun e => file_of (handle e).
Definition open_files (l : list (option VfsEntry)) : list (Z * str) := omap open_of l.
Definition opened p (l : list (Z * str)) : Z := Z.of_nat (length (filter (fun x => x.2 = p) l)).

Definition base_of (m : Mount Fat) : Z := base_ptr (fat m).

Record mounts_ok s (v : Vfs Fat) : Prop := {
  mo_wf : vfs_wf v;
  mo_bases : NoDup (base_of <$> mounts v);
  mo_live : forall m, m ∈ mounts v -> base_of m ∈ regions s /\ base_of m ∈ dom (images s);
  mo_guest_paths : NoDup (gm_path <$> GUEST_MOUNTS s);
  mo_guests : forall g, g ∈ GUEST_MOUNTS s -> exists m, m ∈ mounts v /\ mnt_path m = gm_path g /\ base_of m = memory_ptr g
}.

(** A file is open in a file system that is mounted. *)
Definition opened_in (v : Vfs Fat) (x : Z * str) : Prop := exists m, m ∈ mounts v /\ mnt_path m = x.2 /\ base_of m = x.1.

Record vfs_inv s (files : list (Z * str)) : Prop := {
  vi_paths : NoDup (ofc_mount_path <$> OPEN_FILE_COUNTS s);
  vi_counts : forall p, recorded p (OPEN_FILE_COUNTS s) = opened p files;
  vi_before : VFS_STATE s = None -> GUEST_MOUNTS s = [] /\ files = [];
  vi_mounts : forall v, VFS_STATE s = Some v -> mounts_ok s v /\ Forall (opened_in v) files
}.

Definition fd_inv d : Prop := length (slots d) = Z.to_nat VFS_MAX_OPEN_FILES /\ vfs_inv (fs_state d) (open_files (slots d)).

Lemma opened_cons p x l : opened p (x :: l) = (if decide (x.2 = p) then 1 else 0) + opened p l.
Proof. unfold opened. rewrite filter_cons. case_decide; simpl; lia. Qed.
#[global] Instance opened_proper p : Proper ((≡ₚ) ==> (=)) (opened p).
Proof. intros l k Hl. unfold opened. by rewrite Hl. Qed.
Lemma opened_nonneg p l : 0 <= opened p l.
Proof. unfold opened. lia. Qed.
Lemma opened_pos p l : 0 < opened p l <-> exists x, x ∈ l /\ x.2 = p.
Proof.
  induction l as [|x l IH].
  - split; [unfold opened; simpl; lia|]. intros (x & Hx%elem_of_nil & _). done.
  - rewrite opened_cons. pose proof (opened_nonneg p l). case_decide as Hx.
    + split; [intros _; exists x; split; [left|done]|lia].
    + rewrite Z.add_0_l, IH. split; intros (y & Hy & Hp).
      * exists y. split; [by right|done].
      * apply elem_of_cons in Hy as [->|Hy]; [done|]. eauto.
Qed.

(** The order of the open files does not matter. *)
#[global] Instance vfs_inv_proper s : Proper ((≡ₚ) ==> iff) (vfs_inv s).
Proof.
  assert (forall l k, l ≡ₚ k -> vfs_inv s l -> vfs_inv s k) as Hhalf.
  { intros l k Hl [Hn Hc Hb Hm]. split; [done| | |].
    - intros p. by rewrite <- Hl.
    - intros Hv. destruct (Hb Hv) as [Hg ->]. split; [done|]. by apply Permutation_nil_l in Hl.
    - intros v Hv. rewrite <- Hl. by apply Hm. }
  intros l k Hl. split; apply Hhalf; [done|by symmetry].
Qed.

Lemma calm_inv s s' files : calm s s' -> vfs_inv s files -> vfs_inv s' files.
Proof.
  intros (Hg & Hc & Hr & Hi & Hv) [In Ic Ib Im]. split.
  - by rewrite Hc.
  - intros p. by rewrite Hc.
  - intros E. rewrite Hg. apply Ib. destruct (VFS_STATE s); [by rewrite E in Hv|done].
  - intros v' E. rewrite E in Hv. destruct (VFS_STATE s) as [v|] eqn:Ev; [|done]. destruct Hv as [Hm Hw].
    destruct (Im v eq_refl) as [[Mw Mb Ml Mg Mp] Hf]. split.
    + split; [by apply Hw|by rewrite Hm| |by rewrite Hg|].
      * intros m. rewrite Hm, Hr, Hi. apply Ml.
      * intros g. rewrite Hm, Hg. apply Mp.
    + unfold opened_in. by rewrite Hm.
Qed.

(** A slot of the table changes. *)
Lemma open_files_insert l i old new : l !! i = Some old ->
  option_list (open_of new) ++ open_files l ≡ₚ option_list (open_of old) ++ open_files (<[i := new]> l).
Proof.
  intros Hl. rewrite <- (take_drop_middle l i old Hl) at 1. rewrite insert_take_drop by (by eapply lookup_lt_Some).
  unfold open_files. rewrite !omap_app. simpl.
  destruct (open_of old), (open_of new); simpl; rewrite <- ?Permutation_middle; [apply perm_swap|done..].
Qed.

Lemma recorded_update p q f l l' : update_count q f l = Some l' -> NoDup (ofc_mount_path <$> l) ->
  recorded p l' = (if decide (p = q) then f (recorded p l) else recorded p l) /\
  (ofc_mount_path <$> l') = (ofc_mount_path <$> l).
Proof.
  revert l'. induction l as [|e l IH]; intros l'; cbn [update_count recorded]; [done|]. rewrite fmap_cons, NoDup_cons.
  destruct (decide (ofc_mount_path e = q)) as [Hq|Hq].
  - intros [= <-] _. cbn [recorded ofc_mount_path ofc_count]. rewrite fmap_cons. subst q. split; [|done]. repeat case_decide; subst; done.
  - destruct (update_count q f l) as [l1|] eqn:E; [|done]. intros [= <-] [Hno Hn]. cbn [recorded]. rewrite fmap_cons.
    destruct (IH l1 eq_refl Hn) as [H1 H2]. split; [|by rewrite H2]. rewrite H1. repeat case_decide; subst; done.
Qed.

Lemma update_none q f l : update_count q f l = None <-> q ∉ ofc_mount_path <$> l.
Proof.
  induction l as [|e l IH]; [split; [intros _; apply not_elem_of_nil|done]|]. rewrite fmap_cons, not_elem_of_cons, <- IH.
  cbn [update_count]. destruct (decide (ofc_mount_path e = q)) as [Hq|Hq]; [split; [done|intros [? _]; congruence]|].
  destruct (update_count q f l); simpl; [split; [done|by intros [_ ?]]|]. split; [intros _; split; [congruence|done]|done].
Qed.

Lemma recorded_none q l : q ∉ ofc_mount_path <$> l -> recorded q l = 0.
Proof.
  induction l as [|e l IH]; [done|]. rewrite fmap_cons, not_elem_of_cons. intros [Hq Hl]. cbn [recorded].
  rewrite decide_False by congruence. by apply IH.
Qed.

Lemma recorded_app p l e : recorded p (l ++ [e]) =
  if decide (p ∈ ofc_mount_path <$> l) then recorded p l else if decide (ofc_mount_path e = p) then ofc_count e else 0.
Proof.
  induction l as [|x l IH]; [by rewrite decide_False by apply not_elem_of_nil|]. cbn [app recorded]. rewrite fmap_cons.
  destruct (decide (ofc_mount_path x = p)) as [Hx|Hx].
  - by rewrite decide_True by (rewrite Hx; left).
  - rewrite IH. destruct (decide (p ∈ ofc_mount_path <$> l)) as [Hin|Hno]; [by rewrite decide_True by (by right)|].
    rewrite (decide_False (P := p ∈ _ :: _)); [done|]. rewrite not_elem_of_cons. split; [congruence|done].
Qed.

(** A file is opened, and closed. *)
Lemma increment_inv s files x v : vfs_inv s files -> VFS_STATE s = Some v -> opened_in v x ->
  vfs_inv (increment_open_count x.2 s).2 (x :: files).
Proof.
  intros [In Ic Ib Im] Hv Hx. unfold increment_open_count, modify. simpl. split; simpl; [| |congruence|].
  - destruct (update_count _ _ _) as [l|] eqn:E; [by rewrite (proj2 (recorded_update x.2 _ _ _ _ E In))|].
    apply update_none in E. rewrite fmap_app. simpl. apply NoDup_app. splits; [done| |apply NoDup_singleton].
    intros y Hy ->%list_elem_of_singleton. done.
  - intros p. rewrite opened_cons, <- Ic. destruct (update_count _ _ _) as [l|] eqn:E.
    + rewrite (proj1 (recorded_update p _ _ _ _ E In)). repeat case_decide; subst; try done; lia.
    + apply update_none in E. rewrite recorded_app. simpl. repeat case_decide; subst; try done; try lia.
      * by rewrite recorded_none by done.
      * rewrite recorded_none by done. lia.
  - intros v' Hv'. destruct (Im v' Hv') as [[Mw Mb Ml Mg Mp] Hf]. split; [done|]. constructor; [|done]. congruence.
Qed.

Lemma decrement_inv s files x : vfs_inv s (x :: files) -> vfs_inv (decrement_open_count x.2 s).2 files.
Proof.
  intros [In Ic Ib Im]. unfold decrement_open_count, modify. simpl.
  assert (x.2 ∈ ofc_mount_path <$> OPEN_FILE_COUNTS s) as Hin.
  { destruct (decide (x.2 ∈ ofc_mount_path <$> OPEN_FILE_COUNTS s)) as [|Hno]; [done|]. pose proof (Ic x.2) as Hc.
    rewrite recorded_none, opened_cons, decide_True in Hc by done. pose proof (opened_nonneg x.2 files). lia. }
  destruct (update_count _ _ _) as [l|] eqn:E; [|by apply update_none in E]. simpl. split; simpl.
  - by rewrite (proj2 (recorded_update x.2 _ _ _ _ E In)).
  - intros p. rewrite (proj1 (recorded_update p _ _ _ _ E In)), Ic, opened_cons. pose proof (opened_nonneg p files).
    repeat case_decide; subst; try done; lia.
  - intros Hv. by destruct (Ib Hv).
  - intros v Hv. destruct (Im v Hv) as [[Mw Mb Ml Mg Mp] Hf]. split; [done|]. by inversion Hf.
Qed.
End VfsInv.

Section Operations.
Context {FF : FatFs}.
Implicit Types (s : FsState) (d : FdState) (p : str) (files : list (Z * str)).

Lemma with_vfs_wp {A} (f : Vfs Fat → res Fat32Error A) s Q :
  match VFS_STATE s with Some v => Q (f v) s | None => Q (Err Fat32Error.NotInitialized) s end -> wp (with_vfs f) s Q.
Proof. intros H. unfold with_vfs. wsteps. by destruct (VFS_STATE s). Qed.

Lemma calm_wp {A} (m : M FsState Fat32Error A) s files : Calm m -> vfs_inv s files -> wp m s (fun _ s' => vfs_inv s' files).
Proof. intros Hm Hi. eapply calm_inv; [apply Hm|done]. Qed.

(** Opening adds a file to the open ones, or changes nothing. *)
Lemma open_with_options_wp s files p rd wr cr cn tr : vfs_inv s files ->
  wp (open_with_options p rd wr cr cn tr) s (fun o s' =>
    match o with Ok f => vfs_inv s' ((file_fs f, file_mount_path f) :: files) | Err _ => vfs_inv s' files | Panic => True end).
Proof.
  intros Hi. unfold open_with_options, resolve_path. wstep. apply with_vfs_wp. destruct (VFS_STATE s) as [v|] eqn:Hv; [|done].
  destruct (resolve v p) as [[idx rel]|e|]; [|done..]. case_decide; [done|]. wstep.
  eapply (wp_mono _ _ (fun _ s' => s' = s)).
  { case_match; [|by wsteps]. unfold check_writable, mount_at. wstep. apply with_vfs_wp. rewrite Hv.
    destruct (get_mount v idx); [|done]. case_match; by wsteps. }
  intros o s' ->. destruct o; [|done..]. wstep. unfold mount_at. apply with_vfs_wp. rewrite Hv.
  destruct (get_mount v idx) as [m|] eqn:Hm; [|done]. wstep.
  eapply (wp_mono _ _ (fun _ s' => calm s s')); [apply calm_on_fs|].
  intros [f|e|] s' Hs'; [|by eapply calm_inv|done]. wsteps. unfold wp. simpl.
  destruct Hs' as (Hg & Hcn & Hr & Hd & Hvs). pose proof Hvs as Hvs'. rewrite Hv in Hvs. destruct (VFS_STATE s') as [v'|] eqn:Hv'; [|done].
  apply (increment_inv s' files (base_ptr (fat m), mnt_path m) v'); [|done|].
  - eapply calm_inv; [|done]. unfold calm. by rewrite Hv'.
  - exists m. destruct Hvs as [-> _]. splits; [|done|done]. by eapply list_elem_of_lookup_2.
Qed.

Definition with_handle (h : VfsFileHandle) files : list (Z * str) := option_list (file_of h) ++ files.

Lemma backend_open_wp s files p flags : vfs_inv s files ->
  wp (if flag flags O_DIRECTORY then open_checked_directory p else backend_open p flags) s (fun o s' =>
    match o with Ok h => vfs_inv s' (with_handle h files) | Err _ => vfs_inv s' files | Panic => True end).
Proof.
  intros Hi.
  assert (forall s, vfs_inv s files -> wp (open_directory p) s (fun o s' =>
    match o with Ok h => vfs_inv s' (with_handle h files) | Err _ => vfs_inv s' files | Panic => True end)) as Hdir.
  { intros s1 H1. unfold open_directory, normalize. wstep. apply with_vfs_wp. destruct (VFS_STATE s1) as [v|]; [|done].
    by destruct (normalize_path v p). }
  assert (wp (open_checked_directory p) s (fun o s' =>
    match o with Ok h => vfs_inv s' (with_handle h files) | Err _ => vfs_inv s' files | Panic => True end)) as Hchk.
  { unfold open_checked_directory. wstep. eapply wp_mono; [by apply calm_wp; [apply _|]|]. intros [st|e|] s1 H1; [|done..].
    case_match; [by apply Hdir|by wsteps]. }
  assert (forall s, vfs_inv s files -> wp (open_fat32 p flags) s (fun o s' =>
    match o with Ok h => vfs_inv s' (with_handle h files) | Err _ => vfs_inv s' files | Panic => True end)) as Hfat.
  { intros s1 H1. unfold open_fat32, options_open. wstep. repeat (case_match; [by wsteps|]).
    eapply wp_mono; [by apply open_with_options_wp|]. intros [f|e|] s2 H2; [|done..]. by wsteps. }
  case_match; [done|]. unfold backend_open. case_match; [done|]. wstep.
  eapply wp_mono; [apply (calm_wp (catch _ _) s files); [|done]|].
  { apply calm_catch; [apply calm_bind; [apply _|intros; apply _]|intros; apply _]. }
  intros [isdir|e|] s1 H1; [|done..]. destruct isdir; [by apply Hdir|]. case_match; [|by apply Hfat]. wstep.
  eapply wp_mono; [by apply calm_wp; [apply _|]|]. intros [[[[b off] sz]|]|e|] s2 Hs2; [by wsteps|by apply Hfat|done|done].
Qed.

(** A handle is dropped; its file system is there. *)
Lemma drop_handle_wp s files h : vfs_inv s (with_handle h files) -> wp (drop_handle h) s (fun o s' => o = Ok tt /\ vfs_inv s' files).
Proof.
  intros Hi. unfold with_handle in Hi. destruct h as [f|h|h|h]; [|by split..]. simpl in Hi. cbn [drop_handle]. unfold drop_file. wstep.
  set (x := (file_fs f, file_mount_path f)) in *. pose proof (decrement_inv s files x Hi) as Hd.
  assert (exists fs, images s !! file_fs f = Some fs /\ file_fs f ∈ regions s) as (fs & Hfs & Hr).
  { destruct (VFS_STATE s) as [v|] eqn:Hv; [|by destruct (vi_before _ _ Hi Hv)].
    destruct (vi_mounts _ _ Hi v Hv) as [Hm Hf]. inversion Hf as [|? ? (m & Hin & _ & Hb)]; subst. simpl in Hb.
    destruct (mo_live _ _ Hm m Hin) as [Hr Hdom]. rewrite Hb in *. apply elem_of_dom in Hdom as [fs Hfs]. eauto. }
  change (file_mount_path f) with x.2. unfold wp at 1. simpl. unfold wp.
  split; [|eapply calm_inv; [apply calm_on_fs|exact Hd]].
  unfold on_fs, deref_fs, mbind, M_bind, get, decrement_open_count, modify. simpl. rewrite Hfs. simpl. by rewrite decide_True by done.
Qed.

(** ** The table of descriptors *)

Lemma fd_slot_range fd i : fd_slot fd = Ok i -> (i < Z.to_nat VFS_MAX_OPEN_FILES)%nat.
Proof.
  unfold fd_slot. repeat (case_match; [done|]). intros [= <-]. apply Z.leb_gt in H0. unfold as_usize, VFS_MAX_OPEN_FILES in *.
  pose proof (Z.mod_pos_bound (fd - VFS_FD_BASE) (2 ^ 32)). lia.
Qed.

(** The slot of a descriptor; the lookup does not fail. *)
Lemma fd_lock_wp d fd Q : fd_inv d ->
  match fd_slot fd with
  | Ok i => forall slot, slots d !! i = Some slot -> Q (Ok (i, slot)) d
  | Err e => Q (Err e) d
  | Panic => Q Panic d
  end -> wp (fd_lock fd) d Q.
Proof.
  intros [Hl _] HQ. unfold fd_lock. wsteps. destruct (fd_slot fd) as [i|e|] eqn:E; [|done..]. wsteps. apply fd_slot_range in E.
  destruct (slots d !! i) as [slot|] eqn:Hs; [by wsteps; apply HQ|]. apply lookup_ge_None in Hs. lia.
Qed.

Lemma fd_inv_insert s l i old new files : length l = Z.to_nat VFS_MAX_OPEN_FILES -> l !! i = Some old ->
  open_files l ≡ₚ option_list (open_of old) ++ files -> vfs_inv s (option_list (open_of new) ++ files) ->
  fd_inv (mkFdState s (<[i := new]> l)).
Proof.
  intros Hl Hi Hf Hs. split; simpl; [by rewrite length_insert|]. pose proof (open_files_insert l i old new Hi) as Hp.
  rewrite Hf in Hp. assert (option_list (open_of new) ++ files ≡ₚ open_files (<[i := new]> l)) as <-; [|done].
  eapply (Permutation_app_inv_l (option_list (open_of old))). rewrite <- Hp. rewrite !app_assoc. f_equiv. apply Permutation_app_comm.
Qed.

Lemma slot_files l i old : l !! i = Some old -> exists files, open_files l ≡ₚ option_list (open_of old) ++ files.
Proof.
  intros Hi. exists (open_files (take i l) ++ open_files (drop (S i) l)). rewrite <- (take_drop_middle l i old Hi) at 1.
  unfold open_files. rewrite omap_app. simpl. destruct (open_of old); simpl; [|done]. by rewrite Permutation_middle.
Qed.

Lemma with_entry_inv {A} d fd (m : M (FsState * VfsEntry) Fat32Error A) : fd_inv d -> CalmE m -> wp (with_entry fd m) d (fun _ d' => fd_inv d').
Proof.
  intros Hd Hm. unfold with_entry. wstep. apply fd_lock_wp; [done|]. destruct (fd_slot fd) as [i|e|]; [|done..]. intros slot Hi.
  destruct slot as [e|]; [|by wsteps]. unfold wp, in_slot. destruct (Hm (fs_state d, e)) as [Hc Hf].
  destruct (m (fs_state d, e)) as [r [s' e']]. simpl in *. destruct Hd as [Hl Hinv]. destruct (slot_files _ _ _ Hi) as [files Hfs].
  eapply fd_inv_insert; [done|done|done|]. simpl in *. eapply calm_inv; [exact Hc|]. rewrite Hf. by rewrite <- Hfs.
Qed.

Lemma fd_alloc_inv s l h : length l = Z.to_nat VFS_MAX_OPEN_FILES -> vfs_inv s (with_handle h (open_files l)) ->
  wp (fd_alloc h) (mkFdState s l) (fun o d' => o <> Panic /\ fd_inv d').
Proof.
  intros Hl Hs. unfold fd_alloc. wsteps. simpl. destruct (find_index _ l) as [i|] eqn:E.
  - wsteps. split; [done|]. apply find_index_some in E as (slot & Hi & Hn & _). destruct slot; [done|].
    eapply fd_inv_insert; [done|done|simpl; reflexivity|done].
  - wstep. unfold on_vfs. wstep. simpl. eapply wp_mono; [by apply drop_handle_wp|]. intros o s' [-> Hi]. wsteps. by split.
Qed.

Lemma vfs_open_inv d p flags : fd_inv d -> wp (vfs_open p flags) d (fun o d' => o = Panic \/ fd_inv d').
Proof.
  intros [Hl Hi]. unfold vfs_open. wstep. unfold on_vfs. wstep. eapply wp_mono; [by apply backend_open_wp|].
  intros [h|e|] s' Hs'; [|right; by split|by left]. eapply wp_mono; [by apply fd_alloc_inv|]. intros o d' [_ H]. by right.
Qed.

Lemma vfs_close_inv d fd : fd_inv d -> wp (vfs_close fd) d (fun _ d' => fd_inv d').
Proof.
  intros Hd. unfold vfs_close, fd_close. wstep. apply fd_lock_wp; [done|]. destruct (fd_slot fd) as [i|e|]; [|done..]. intros slot Hi.
  destruct slot as [e|]; [|by wsteps]. destruct Hd as [Hl Hinv]. destruct (slot_files _ _ _ Hi) as [files Hfs]. wstep. wstep.
  unfold on_vfs. wstep. simpl. eapply wp_mono; [apply (drop_handle_wp _ files)|].
  - unfold with_handle. simpl in Hfs. by rewrite <- Hfs.
  - intros o s' [-> Hs']. by eapply fd_inv_insert.
Qed.

Lemma on_vfs_calm {A} d (m : M FsState Fat32Error A) : fd_inv d -> Calm m -> wp (on_vfs m) d (fun _ d' => fd_inv d').
Proof. intros [Hl Hi] Hm. unfold on_vfs. wstep. eapply wp_mono; [by apply calm_wp|]. intros o s' Hs'. by split. Qed.

(** ** Mounting *)

Lemma init_inv s files : vfs_inv s files -> wp init s (fun _ s' => vfs_inv s' files).
Proof.
  intros Hi. unfold init. wsteps. destruct (VFS_STATE s) eqn:Hv; wsteps; [done|]. destruct (vi_before _ _ Hi Hv) as [Hg ->].
  destruct Hi as [In Ic Ib Im]. split; simpl; try done. intros v [= <-]. split; [|done].
  split; simpl; [apply vfs_new_wf|constructor|by intros m Hm%elem_of_nil|by rewrite Hg; constructor|].
  intros g. rewrite Hg. by intros Hx%elem_of_nil.
Qed.

(** A file system in fresh memory does not disturb the others. *)
Lemma create_inv s files ptr fs : vfs_inv s files -> vfs_inv (create_fs ptr fs s).2 files.
Proof.
  intros [In Ic Ib Im]. split; try done. intros v Hv. destruct (Im v Hv) as [[Mw Mb Ml Mg Mp] Hf]. split; [|done].
  split; try done. intros m Hm. destruct (Ml m Hm) as [H1 H2]. simpl. rewrite dom_insert_L. set_solver.
Qed.

Lemma forget_inv s files ptr : vfs_inv s files -> (forall v m, VFS_STATE s = Some v -> m ∈ mounts v -> base_of m <> ptr) ->
  vfs_inv (with_images (delete ptr (images s)) s) files.
Proof.
  intros [In Ic Ib Im] Hno. split; try done. intros v Hv. destruct (Im v Hv) as [[Mw Mb Ml Mg Mp] Hf]. split; [|done].
  split; try done. intros m Hm. destruct (Ml m Hm) as [H1 H2]. simpl. split; [done|]. rewrite dom_delete_L.
  pose proof (Hno v m Hv Hm). set_solver.
Qed.

Lemma free_inv s files ptr : vfs_inv s files -> (forall v m, VFS_STATE s = Some v -> m ∈ mounts v -> base_of m <> ptr) ->
  vfs_inv (with_regions (regions s ∖ {[ptr]}) s) files.
Proof.
  intros [In Ic Ib Im] Hno. split; try done. intros v Hv. destruct (Im v Hv) as [[Mw Mb Ml Mg Mp] Hf]. split; [|done].
  split; try done. intros m Hm. destruct (Ml m Hm) as [H1 H2]. simpl. split; [|done]. pose proof (Hno v m Hv Hm). set_solver.
Qed.

(** No mount uses the memory. *)
Definition unused s (ptr : Z) : Prop := forall v m, VFS_STATE s = Some v -> m ∈ mounts v -> base_of m <> ptr.

Lemma fresh_unused s files ptr : vfs_inv s files -> ptr ∉ dom (images s) -> unused s ptr.
Proof. intros Hi Hf v m Hv Hm Hb. destruct (vi_mounts _ _ Hi v Hv) as [Ho _]. destruct (mo_live _ _ Ho m Hm) as [_ Hd]. congruence. Qed.

(** The mount is entered, or the file system is dropped again. *)
Definition mounted s files p (ptr : Z) (o : res Fat32Error unit) s' : Prop :=
  vfs_inv s' files /\ regions s' = regions s /\ GUEST_MOUNTS s' = GUEST_MOUNTS s /\
  match o with
  | Ok _ => exists v v' m, VFS_STATE s = Some v /\ VFS_STATE s' = Some v' /\ mnt_path m = p /\ base_of m = ptr /\
      mounts v' ≡ₚ m :: mounts v /\ p ∉ mnt_path <$> mounts v
  | Err _ => VFS_STATE s' = VFS_STATE s
  | Panic => False
  end.

Lemma enter_mount_wp s files p ptr fs ro ro' : vfs_inv s files -> unused s ptr -> images s !! ptr = Some fs -> ptr ∈ regions s ->
  wp (enter_mount p (mkFat ro ptr) ro') s (mounted s files p ptr).
Proof.
  intros Hi Hu Hfs Hr. unfold enter_mount. wstep.
  assert (forall e, wp (drop_fat (mkFat ro ptr)) s (fun o s' =>
    match o with Ok _ => wp (fail e) s' (mounted s files p ptr) | Err e => mounted s files p ptr (Err e) s' | Panic => mounted s files p ptr Panic s' end)) as Hdrop.
  { intros e. unfold drop_fat. wsteps. simpl. rewrite Hfs, bool_decide_eq_true_2, andb_false_r by done. wsteps.
    unfold mounted. splits; try done. by apply forget_inv. }
  unfold mount_new. wstep. destruct (starts_with _ p) eqn:Hp; wsteps; [|apply Hdrop]. unfold with_vfs_mut. wsteps.
  destruct (VFS_STATE s) as [v|] eqn:Hv; wsteps; [|apply Hdrop]. destruct (vi_mounts _ _ Hi v Hv) as [Mo Hf]. set (m := mkMount _ _ _).
  pose proof (add_mount_wf v m (mo_wf _ _ Mo) Hp) as Hw. unfold wp in Hw. destruct (add_mount m v) as [r v'] eqn:Hadd. simpl in Hw.
  destruct Hw as (Hw & Hcwd & Hres). wsteps. case_decide as Hin.
  { destruct Hres as [-> ->]. replace (with_vfs_state (Some v) s) with s by (destruct s; simpl in *; by subst). wstep. apply Hdrop. }
  destruct Hres as [-> Hperm]. unfold mounted. splits; try done; [|exists v, v', m; by splits].
  destruct Hi as [In Ic Ib Im]. split; simpl; try done. intros v1 [= <-]. destruct Mo as [Mw Mb Ml Mg Mp]. split.
  - split; simpl; [done| | |done|].
    + rewrite Hperm. simpl. constructor; [|done]. intros (m' & Hb & Hm')%list_elem_of_fmap. by apply (Hu v m').
    + intros m'. rewrite Hperm. intros [->|Hm']%elem_of_cons; [|by apply Ml]. split; [done|]. apply elem_of_dom. by exists fs.
    + intros g Hg. destruct (Mp g Hg) as (m' & Hm' & ? & ?). exists m'. splits; try done. rewrite Hperm. by right.
  - eapply Forall_impl; [exact Hf|]. intros x (m' & Hm' & ? & ?). exists m'. splits; try done. rewrite Hperm. by right.
Qed.

Lemma mount_image_inv s files p ptr bytes ro : vfs_inv s files -> ptr ∉ dom (images s) ->
  wp (mount_image p ptr bytes ro) s (fun o s' => o = Panic \/ vfs_inv s' files).
Proof.
  intros Hi Hf. unfold mount_image. case_match; [by right|]. wsteps.
  destruct ((if ro then fat_from_memory_readonly else fat_from_memory) ptr bytes) as [fs|e|]; [|by right|by left]. unfold create_fs. wsteps.
  eapply wp_mono; [apply (enter_mount_wp _ files p ptr fs)|].
  - by apply (create_inv s files ptr fs).
  - by apply (fresh_unused s files).
  - simpl. by rewrite lookup_insert_eq.
  - simpl. set_solver.
  - intros o s' [Hs' _]. by right.
Qed.

Lemma create_mount_inv s files ptr p size : vfs_inv s files -> ptr ∉ dom (images s) ->
  wp (create_mount ptr p size) s (fun o s' => o = Panic \/ vfs_inv s' files).
Proof.
  intros Hi Hf. unfold create_mount. repeat (case_match; [by right|]). wsteps. case_match; [by right|]. wsteps.
  destruct (format_fat_in_memory ptr _) as [bytes|e|]; [|by right|by left]. wsteps.
  destruct (fat_from_memory ptr bytes) as [fs|e|]; [|by right|by left]. unfold create_fs. wsteps.
  eapply wp_mono; [apply (enter_mount_wp _ files p ptr fs)|].
  - by apply (create_inv s files ptr fs).
  - by apply (fresh_unused s files).
  - simpl. by rewrite lookup_insert_eq.
  - simpl. set_solver.
  - intros [[]|e|] s' (Hs' & Hr & Hg & Ho); [| |done].
    + wsteps. right. destruct Ho as (v & v' & m & Hv & Hv' & Hm & Hb & Hperm & Hno). simpl in Hv, Hg.
      destruct (vi_mounts _ _ Hi v Hv) as [Mo _]. destruct Hs' as [In Ic Ib Im]. split; simpl; try done; [congruence|].
      intros v1 Hv1. destruct (Im v1 Hv1) as [[Mw Mb Ml Mg Mp] Hfl]. split; [|done]. rewrite Hv' in Hv1. injection Hv1 as <-.
      split; simpl; try done.
      * rewrite fmap_app. apply NoDup_app. splits; [done| |apply NoDup_singleton]. intros q Hq ->%list_elem_of_singleton. simpl in Hq.
        apply list_elem_of_fmap in Hq as (g & Hq & Hin). rewrite Hg in Hin. destruct (mo_guests _ _ Mo g Hin) as (m' & Hm' & Hpm & _).
        apply Hno, list_elem_of_fmap. exists m'. split; [congruence|done].
      * intros g [Hg'| ->%list_elem_of_singleton]%elem_of_app; [by apply Mp|]. exists m. simpl. splits; try done. rewrite Hperm. left.
    + wsteps. right. apply free_inv; [done|]. rewrite Ho. by apply (fresh_unused s files).
Qed.

(** ** Unmounting *)

Definition guest s p : Prop := p ∈ gm_path <$> GUEST_MOUNTS s.

Lemma guest_dec s p : existsb (fun m => bool_decide (gm_path m = p)) (GUEST_MOUNTS s) = true <-> guest s p.
Proof.
  unfold guest. rewrite existsb_exists, list_elem_of_fmap. split; intros (g & H1 & H2).
  - exists g. apply bool_decide_eq_true in H2. split; [done|by apply list_elem_of_In].
  - exists g. split; [by apply list_elem_of_In|by apply bool_decide_eq_true].
Qed.

Lemma recorded_elem l e : NoDup (ofc_mount_path <$> l) -> e ∈ l -> recorded (ofc_mount_path e) l = ofc_count e.
Proof.
  induction l as [|x l IH]; [by intros _ H%elem_of_nil|]. rewrite fmap_cons, NoDup_cons. intros [Hno Hn] [->|He]%elem_of_cons; cbn [recorded].
  - by rewrite decide_True.
  - rewrite decide_False; [by apply IH|]. intros Hx. apply Hno, list_elem_of_fmap. exists e. by rewrite Hx.
Qed.

Lemma recorded_pos p l : 0 < recorded p l -> exists e, e ∈ l /\ ofc_mount_path e = p /\ ofc_count e = recorded p l.
Proof.
  induction l as [|x l IH]; cbn [recorded]; [lia|]. case_decide; [exists x; splits; try done; left|].
  intros (e & He & H1 & H2)%IH. exists e. splits; try done. by right.
Qed.

(** The count tells whether a file is open. *)
Lemma has_open_files_spec s files p : vfs_inv s files -> has_open_files p s = true <-> exists x, x ∈ files /\ x.2 = p.
Proof.
  intros Hi. rewrite <- opened_pos, <- (vi_counts _ _ Hi). unfold has_open_files. rewrite existsb_exists. split.
  - intros (e & He & [H1%bool_decide_eq_true H2%Z.ltb_lt]%andb_true_iff). apply list_elem_of_In in He.
    rewrite <- H1, (recorded_elem _ e); [done|apply (vi_paths _ _ Hi)|done].
  - intros Hpos. destruct (recorded_pos _ _ Hpos) as (e & He & H1 & H2). exists e. split; [by apply list_elem_of_In|].
    rewrite andb_true_iff. split; [by apply bool_decide_eq_true|]. apply Z.ltb_lt. lia.
Qed.

(** The file system of a mount is there. *)
Lemma mount_image_of s files v m : vfs_inv s files -> VFS_STATE s = Some v -> m ∈ mounts v -> exists fs, images s !! base_of m = Some fs.
Proof.
  intros Hi Hv Hm. destruct (vi_mounts _ _ Hi v Hv) as [Mo _]. destruct (mo_live _ _ Mo m Hm) as [_ Hd]. by apply elem_of_dom in Hd.
Qed.

(** The mount at [p], created by the guest and without counted files, is taken out. *)
Lemma remove_inv s s' files v v' m pos info : vfs_inv s files -> VFS_STATE s = Some v -> vfs_wf v' -> mounts v ≡ₚ m :: mounts v' ->
  GUEST_MOUNTS s !! pos = Some info -> gm_path info = mnt_path m -> (forall x, x ∈ files -> x.2 <> mnt_path m) ->
  VFS_STATE s' = Some v' -> GUEST_MOUNTS s' = take pos (GUEST_MOUNTS s) ++ drop (S pos) (GUEST_MOUNTS s) ->
  OPEN_FILE_COUNTS s' = OPEN_FILE_COUNTS s -> regions s' = regions s ∖ {[base_of m]} -> images s' = delete (base_of m) (images s) ->
  vfs_inv s' files.
Proof.
  intros Hi Hv Hw Hperm Hpos Hp Hno Hv' Hg Hc Hr Him. pose proof Hi as [In Ic Ib Im]. destruct (Im v Hv) as [[Mw Mb Ml Mg Mp] Hf].
  assert (GUEST_MOUNTS s ≡ₚ info :: GUEST_MOUNTS s') as Hgp.
  { rewrite Hg, Permutation_middle. by rewrite take_drop_middle. }
  assert (forall m', m' ∈ mounts v -> mnt_path m' <> mnt_path m -> m' ∈ mounts v') as Hkeep.
  { intros m'. rewrite Hperm. intros [->|?]%elem_of_cons; done. }
  split; [by rewrite Hc|intros q; by rewrite Hc|congruence|]. intros v1 Hv1. rewrite Hv' in Hv1. injection Hv1 as <-. split.
  - split; [done| | | |].
    + rewrite Hperm in Mb. by apply NoDup_cons in Mb as [_ ?].
    + intros m' Hm'. destruct (Ml m') as [H1 H2]; [rewrite Hperm; by right|]. rewrite Hr, Him, dom_delete_L.
      assert (base_of m' <> base_of m); [|set_solver]. rewrite Hperm in Mb. apply NoDup_cons in Mb as [Hnb _]. intros E. apply Hnb.
      apply list_elem_of_fmap. by exists m'.
    + rewrite Hgp in Mg. by apply NoDup_cons in Mg as [_ ?].
    + intros g Hgin. destruct (Mp g) as (m' & Hm' & H1 & H2); [rewrite Hgp; by right|]. exists m'. splits; try done. apply Hkeep; [done|].
      rewrite Hgp in Mg. apply NoDup_cons in Mg as [Hng _]. intros E. apply Hng, list_elem_of_fmap. exists g. split; [congruence|done].
  - rewrite Forall_forall in Hf |- *. intros x Hx. destruct (Hf x Hx) as (m' & Hm' & H1 & H2). exists m'. splits; try done.
    apply Hkeep; [done|]. rewrite H1. by apply Hno.
Qed.

(** What [unmount] has to find before it takes the mount out. *)
Definition unmountable s files p (v : Vfs Fat) (m : Mount Fat) : Prop :=
  VFS_STATE s = Some v /\ m ∈ mounts v /\ mnt_path m = p /\ guest s p /\ forall x, x ∈ files -> x.2 <> p.

Lemma unmount_wp s files p : vfs_inv s files ->
  wp (unmount p) s (fun o s' =>
    match o with
    | Ok _ => vfs_inv s' files /\ exists v m, unmountable s files p v m /\ regions s' = regions s ∖ {[base_of m]} /\
        exists v', VFS_STATE s' = Some v' /\ mounts v ≡ₚ m :: mounts v'
    | Err Fat32Error.FileLocked => s' = s /\ guest s p /\ exists x, x ∈ files /\ x.2 = p
    | Err Fat32Error.PermissionDenied => s' = s /\ ~ guest s p /\ exists v, VFS_STATE s = Some v /\ p ∈ mnt_path <$> mounts v
    | Err Fat32Error.NotFound => s' = s /\ exists v, VFS_STATE s = Some v /\ p ∉ mnt_path <$> mounts v
    | Err Fat32Error.NotInitialized => s' = s /\ VFS_STATE s = None
    | Err _ => False
    | Panic => exists v m fs, unmountable s files p v m /\ images s !! base_of m = Some fs /\ fs_drop_writes fs = true
    end).
Proof.
  intros Hi. unfold unmount. wsteps. destruct (existsb _ (GUEST_MOUNTS s)) eqn:Hg; simpl.
  2: { apply not_true_iff_false in Hg. rewrite guest_dec in Hg. wstep. apply with_vfs_wp. destruct (VFS_STATE s) as [v|] eqn:Hv; [|done].
    destruct (existsb _ (mounts v)) eqn:Hm; wsteps; splits; try done; exists v; (split; [done|]).
    - apply existsb_exists in Hm as (m & Hin & He%bool_decide_eq_true). apply list_elem_of_fmap. exists m. by rewrite list_elem_of_In.
    - apply not_true_iff_false in Hm. intros (m & -> & Hin)%list_elem_of_fmap. apply Hm, existsb_exists. exists m.
      split; [by apply list_elem_of_In|by apply bool_decide_eq_true]. }
  apply guest_dec in Hg. pose proof (has_open_files_spec s files p Hi) as Ho. destruct (has_open_files p s).
  { wsteps. splits; [done|done|by apply Ho]. }
  assert (forall x, x ∈ files -> x.2 <> p) as Hno by (intros x Hx E; by assert (false = true) by (apply Ho; eauto)).
  destruct (VFS_STATE s) as [v|] eqn:Hv; [|destruct (vi_before _ _ Hi Hv) as [Hgn _]; unfold guest in Hg; rewrite Hgn in Hg; by apply elem_of_nil in Hg].
  destruct (vi_mounts _ _ Hi v Hv) as [Mo Hf]. destruct (list_find _ _) as [[pos info]|] eqn:Hfind.
  2: { apply list_find_None in Hfind. apply list_elem_of_fmap in Hg as (g & -> & Hg). rewrite Forall_forall in Hfind. by apply Hfind in Hg. }
  apply list_find_Some in Hfind as (Hpos & Hinfo & _). wsteps. unfold is_initialized. rewrite Hv. simpl. unfold with_vfs_mut. wsteps. simpl. rewrite Hv.
  pose proof (remove_mount_wf v p (mo_wf _ _ Mo)) as Hw. unfold wp in Hw. destruct (remove_mount p v) as [r v'] eqn:Hrm. simpl in Hw.
  destruct Hw as (Hw & _ & Hr).
  assert (exists m', m' ∈ mounts v /\ mnt_path m' = p /\ base_of m' = memory_ptr info) as (m' & Hm' & Hp' & Hb').
  { destruct (mo_guests _ _ Mo info) as (m' & ? & ? & ?); [by eapply list_elem_of_lookup_2|]. exists m'. splits; try done. congruence. }
  destruct r as [m|e|]; [|destruct Hr as (_ & _ & Hnp); destruct Hnp; apply list_elem_of_fmap; by exists m'|done].
  destruct Hr as [Hp Hperm]. assert (m ∈ mounts v) as Hm by (rewrite Hperm; left).
  assert (m = m') as <-.
  { pose proof (wf_distinct v (mo_wf _ _ Mo)) as Hd. rewrite Hperm in Hd, Hm'. apply NoDup_cons in Hd as [Hd _].
    apply elem_of_cons in Hm' as [->|Hm']; [done|]. destruct Hd. apply list_elem_of_fmap. exists m'. split; [congruence|done]. }
  destruct (mount_image_of s files v m Hi Hv Hm) as [fs Hfs].
  assert (unmountable s files p v m) as Hun by (unfold unmountable; by splits).
  wsteps. unfold free_memory. wsteps. unfold drop_fat. wsteps. simpl. fold (base_of m). rewrite Hfs, <- Hb'.
  rewrite bool_decide_eq_false_2 by set_solver. rewrite andb_true_r. destruct (fs_drop_writes fs) eqn:Hdw; wsteps; [by exists v, m, fs|].
  split; [|exists v, m; splits; try done; by exists v']. eapply remove_inv; try done; [by rewrite Hp|]. intros x Hx. rewrite Hp. by apply Hno.
Qed.
End Operations.
