(* ===== verification/VfsClaims.v ===== *)
(** * The virtual file system: the theorems

    The states that calls of the library reach in any order, what holds in them, and the
    cases in which [unmount] frees memory that is still in use.  A small file system in
    memory, which satisfies the laws of [fatfs], serves as the sample. *)

From S2P Require Import Prelude Error Str FatStorage MountTable FatFs VfsState VfsFd VfsSpec VfsInv.
#[local] Open Scope Z_scope.

(** ** Descriptors as files of POSIX *)

Section Trace.
Context {FF : FatFs} {FL : FatFsLaws FF}.

End Trace.

(** ** The states that calls reach *)

(** The calls of the library. *)
Inductive FsCall :=
| CInit | CMountImage (p : str) (ptr : Z) (bytes : list Z) (ro : bool) | CCreateMount (ptr : Z) (p : str) (size : Z) | CUnmount (p : str)
| COpen (p : str) (flags : Z) | CClose (fd : Z) | CFile (fd : Z) (c : PCall) | CGetdents (fd : Z) (count : nat)
| CFchdir (fd : Z) | CFcntl (fd cmd : Z) | CFstat (fd : Z) | CStat (p : str) | CMkdir (p : str) | CRmdir (p : str) | CUnlink (p : str)
| CRename (p q : str) | CChdir (p : str) | CReaddir (p : str) | CHostOpen (fd : Z) (is_dir : bool) (p : option str)
| CHostOffset (fd off : Z) | CUnlinkat (fd : Z) (p : str) (flags : Z) | CRenameat (fd : Z) (p : str) (fd' : Z) (q : str).

Section VfsClaims.
Context {FF : FatFs}.
Implicit Types (d : FdState) (p : str).

Definition fs_call (c : FsCall) : M FdState Fat32Error unit :=
  match c with
  | CInit => on_vfs init
  | CMountImage p ptr bytes ro => on_vfs (mount_image p ptr bytes ro)
  | CCreateMount ptr p size => on_vfs (create_mount ptr p size)
  | CUnmount p => on_vfs (unmount p)
  | COpen p flags => vfs_open p flags;; mret tt
  | CClose fd => vfs_close fd
  | CFile fd c => do_call fd c;; mret tt
  | CGetdents fd count => vfs_getdents fd count;; mret tt
  | CFchdir fd => vfs_fchdir fd
  | CFcntl fd cmd => vfs_fcntl fd cmd;; mret tt
  | CFstat fd => vfs_fstat fd;; mret tt
  | CStat p => vfs_stat p;; mret tt
  | CMkdir p => vfs_mkdir p
  | CRmdir p => vfs_rmdir p
  | CUnlink p => vfs_unlink p
  | CRename p q => vfs_rename p q
  | CChdir p => vfs_chdir p
  | CReaddir p => vfs_readdir p;; mret tt
  | CHostOpen fd is_dir p => vfs_alloc_hostfs fd is_dir p;; mret tt
  | CHostOffset fd off => vfs_hostfs_set_readdir_offset fd off;; mret tt
  | CUnlinkat fd p flags => vfs_unlinkat fd p flags
  | CRenameat fd p fd' q => vfs_renameat fd p fd' q
  end.

(** Memory for a new file system is not in use. *)
Definition permitted d (c : FsCall) : Prop :=
  match c with
  | CMountImage _ ptr _ _ | CCreateMount ptr _ _ => ptr ∉ dom (images (fs_state d))
  | _ => True
  end.

(** The states after any calls; a call that panics ends the run. *)
Inductive vfs_reachable : FdState → Prop :=
| vr_init : vfs_reachable fd_init
| vr_call d c : vfs_reachable d -> permitted d c -> (fs_call c d).1 <> Panic -> vfs_reachable (fs_call c d).2.

(** ** The invariant is kept *)

Lemma wp_unit {A} (m : M FdState Fat32Error A) d : wp m d (fun _ d' => fd_inv d') -> wp (m;; mret tt) d (fun _ d' => fd_inv d').
Proof. intros H. wstep. eapply wp_mono; [exact H|]. by intros [] d'. Qed.

Lemma calm_entry_call c : CalmE (entry_call c).
Proof.
  destruct c; cbn [entry_call]; try (apply calm_e_bind; [apply _|intros; apply _]).
  apply calm_e_get. intros t. apply calm_at_bind; [|intros; apply calm_e_ret].
  destruct (handle t.2) eqn:Hh; [by apply calm_at_open; [|apply calm_o_fatfile]|apply calm_e_ret..].
Qed.

Lemma do_call_inv d fd c : fd_inv d -> wp (do_call fd c) d (fun _ d' => fd_inv d').
Proof. intros Hd. unfold wp. rewrite do_call_entry. by apply (with_entry_inv d fd (entry_call c) Hd (calm_entry_call c)). Qed.

Lemma on_state_handle {A} (m : M FsState Fat32Error A) (t : FsState * VfsEntry) : (on_state m t).2.2 = t.2.
Proof. unfold on_state, zoom. by destruct (m t.1). Qed.

Lemma getdents_inv d fd count : fd_inv d -> wp (vfs_getdents fd count) d (fun _ d' => fd_inv d').
Proof.
  intros Hd. apply with_entry_inv; [done|]. apply calm_e_get. intros t. destruct (handle t.2) as [|?|dh|?] eqn:Hh; try apply calm_e_fail.
  apply calm_at_bind; [apply calm_at_state; unfold read_entries; destruct (dir_entries dh); apply _|]. intros [l dh'].
  apply calm_at_bind; [|intros; apply calm_e_ret]. apply calm_at_handle. rewrite on_state_handle. by rewrite Hh.
Qed.

Lemma fchdir_inv d fd : fd_inv d -> wp (vfs_fchdir fd) d (fun _ d' => fd_inv d').
Proof.
  intros Hd. apply with_entry_inv; [done|]. apply calm_e_get. intros t.
  destruct (handle t.2); try apply calm_e_fail. apply calm_at_state, _.
Qed.

Lemma fstat_inv d fd : fd_inv d -> wp (vfs_fstat fd) d (fun _ d' => fd_inv d').
Proof.
  intros Hd. apply with_entry_inv; [done|]. apply calm_e_get. intros t. apply calm_e_at, calm_e_bind; [apply _|intros; apply _].
Qed.

Lemma offset_inv d fd off : fd_inv d -> wp (vfs_hostfs_set_readdir_offset fd off) d (fun _ d' => fd_inv d').
Proof.
  intros Hd. unfold vfs_hostfs_set_readdir_offset. wstep. eapply wp_mono; [apply with_entry_inv; [done|]|by intros [] d' H; wsteps].
  apply calm_e_get. intros t. destruct (handle t.2) as [|?|?|h] eqn:Hh; try apply calm_e_ret. case_match; [|apply calm_e_ret].
  apply calm_at_bind; [|intros; apply calm_e_ret]. apply calm_at_handle. by rewrite Hh.
Qed.

Lemma resolve_inv d fd p : fd_inv d -> wp (resolve_or_fail fd p) d (fun _ d' => fd_inv d').
Proof.
  intros Hd. unfold resolve_or_fail. wstep. eapply (wp_mono _ _ (fun _ d' => fd_inv d')).
  2: { intros [[q|]|e|] d' H; by wsteps. }
  unfold vfs_resolve_path. case_match; [by wsteps|]. case_match.
  { wsteps. eapply wp_mono; [apply on_vfs_calm; [done|unfold current_dir; apply _]|]. intros [] d1 Hd1; by wsteps. }
  case_match; [by wsteps|]. wstep. unfold entry_of. wsteps. apply fd_lock_wp; [done|].
  destruct (fd_slot fd); [|by wsteps|done]. intros slot _. by wsteps.
Qed.

Lemma unlinkat_inv d fd p flags : fd_inv d -> wp (vfs_unlinkat fd p flags) d (fun _ d' => fd_inv d').
Proof.
  intros Hd. unfold vfs_unlinkat. wstep. eapply wp_mono; [by apply resolve_inv|]. intros [q|e|] d' H; [|done..].
  case_match; (apply on_vfs_calm; [done|]); [unfold rmdir|unfold unlink]; apply _.
Qed.

Lemma renameat_inv d fd p fd' q : fd_inv d -> wp (vfs_renameat fd p fd' q) d (fun _ d' => fd_inv d').
Proof.
  intros Hd. unfold vfs_renameat. wstep. eapply wp_mono; [by apply resolve_inv|]. intros [x|e|] d' H; [|done..]. wstep.
  eapply wp_mono; [by apply resolve_inv|]. intros [y|e|] d'' H'; [|done..]. apply on_vfs_calm; [done|apply _].
Qed.

Lemma on_vfs_inv {A} d (m : M FsState Fat32Error A) : fd_inv d ->
  (forall files, vfs_inv (fs_state d) files -> wp m (fs_state d) (fun o s' => o = Panic \/ vfs_inv s' files)) ->
  wp (on_vfs m) d (fun o d' => o = Panic \/ fd_inv d').
Proof. intros [Hl Hi] Hm. unfold on_vfs. wstep. eapply wp_mono; [by apply Hm|]. intros o s' [->|H]; [by left|right; by split]. Qed.

Lemma fs_call_inv d c : fd_inv d -> permitted d c -> wp (fs_call c) d (fun o d' => o = Panic \/ fd_inv d').
Proof.
  intros Hd Hc.
  assert (forall m : M FdState Fat32Error unit, wp m d (fun _ d' => fd_inv d') -> wp m d (fun o d' => o = Panic \/ fd_inv d')) as Hq
    by (intros m H; eapply wp_mono; [exact H|by right]).
  destruct c; cbn [fs_call permitted] in *;
    try (apply Hq, wp_unit; first [by apply do_call_inv|by apply getdents_inv|by apply fstat_inv|by apply offset_inv]);
    try (apply Hq; first [by apply vfs_close_inv|by apply fchdir_inv|by apply unlinkat_inv|by apply renameat_inv]);
    try (apply Hq; apply on_vfs_calm; [done|apply _]).
  - apply on_vfs_inv; [done|]. intros files Hf. eapply wp_mono; [by apply init_inv|by right].
  - apply on_vfs_inv; [done|]. intros files Hf. by apply mount_image_inv.
  - apply on_vfs_inv; [done|]. intros files Hf. by apply create_mount_inv.
  - apply on_vfs_inv; [done|]. intros files Hf. eapply wp_mono; [by apply unmount_wp|]. intros [|e|] s' H; [right; apply H| |by left].
    right. destruct e; try done; by destruct H as [-> _].
  - wstep. eapply wp_mono; [by apply vfs_open_inv|]. intros [] d' [H|H]; try done; [by right..|by left|by right].
  - apply Hq, wp_unit, with_entry_inv; [done|]. case_match; apply _.
  - apply Hq, wp_unit. unfold vfs_stat. wstep. eapply wp_mono; [apply on_vfs_calm; [done|apply _]|]. by intros [] d' H; wsteps.
  - apply Hq, wp_unit, on_vfs_calm; [done|apply _].
  - apply Hq, wp_unit. destruct Hd as [Hl Hi]. destruct d as [s l]. eapply wp_mono; [by apply fd_alloc_inv|]. by intros o d' [_ H].
Qed.

Lemma reachable_inv d : vfs_reachable d -> fd_inv d.
Proof.
  induction 1 as [|d c Hd IH Hc Hp].
  - split; [done|]. assert (open_files (slots fd_init) = []) as -> by (vm_compute; reflexivity). split; try done. constructor.
  - by destruct (fs_call_inv d c IH Hc) as [|].
Qed.

(** ** Open files *)


(** What [unmount] does, by its result. *)
Definition unmount_outcome d p (o : res Fat32Error unit) (s' : FsState) : Prop :=
  match o with
  | Ok _ => exists v m v', unmountable (fs_state d) (open_files (slots d)) p v m /\ VFS_STATE s' = Some v' /\ mounts v ≡ₚ m :: mounts v' /\
      regions s' = regions (fs_state d) ∖ {[base_of m]} /\ vfs_inv s' (open_files (slots d))
  | Err Fat32Error.FileLocked => s' = fs_state d /\ guest (fs_state d) p /\ exists x, x ∈ open_files (slots d) /\ x.2 = p
  | Err Fat32Error.PermissionDenied =>
      s' = fs_state d /\ ~ guest (fs_state d) p /\ exists v, VFS_STATE (fs_state d) = Some v /\ p ∈ mnt_path <$> mounts v
  | Err Fat32Error.NotFound => s' = fs_state d /\ exists v, VFS_STATE (fs_state d) = Some v /\ p ∉ mnt_path <$> mounts v
  | Err Fat32Error.NotInitialized => s' = fs_state d /\ VFS_STATE (fs_state d) = None
  | Err _ => False
  | Panic => exists v m fs, unmountable (fs_state d) (open_files (slots d)) p v m /\
      images (fs_state d) !! base_of m = Some fs /\ fs_drop_writes fs = true
  end.


(** ** Files that are read from memory directly *)

Lemma nodup_fmap_eq {A B} (g : A → B) (l : list A) x y : NoDup (g <$> l) -> x ∈ l -> y ∈ l -> g x = g y -> x = y.
Proof.
  intros Hd [i Hx]%list_elem_of_lookup [j Hy]%list_elem_of_lookup He. assert (i = j) as ->; [|congruence].
  eapply (NoDup_lookup _ _ _ (g x) Hd); rewrite list_lookup_fmap; [by rewrite Hx|rewrite Hy; simpl; by rewrite He].
Qed.

(** Reading such a file once its memory is freed. *)
Lemma direct_read_freed d fd i e h n : fd_slot fd = Ok i -> slots d !! i = Some (Some e) -> handle e = DirectRead h ->
  0 <= virtual_pos e < dr_size h -> dr_size h <= u32_max -> 0 < n -> dr_base h ∉ regions (fs_state d) ->
  wp (vfs_read fd n) d (fun o _ => o = Panic).
Proof.
  intros Hi He Hh Hp Hs Hn Hf. unfold vfs_read, with_entry, fd_lock. wsteps. rewrite Hi. wsteps. rewrite He. wsteps. unfold wp, in_slot.
  assert (wp (read_entry n) (fs_state d, e) (fun o _ => o = Panic)) as Hw.
  2: { unfold wp in Hw. by destruct (read_entry n (fs_state d, e)) as [o [s' e']]. }
  unfold read_entry. wsteps. simpl. rewrite Hh. unfold h_size, h_is_dir. wsteps. simpl. rewrite Hh. wsteps.
  unfold as_u64. rewrite Z.mod_small by (unfold u32_max in *; lia). wif Hc; [lia|].
  unfold h_seek. wsteps. simpl. rewrite Hh. unfold direct_seek. simpl. wstep. wstep.
  assert ((virtual_pos e <? 0) || (dr_size h <? virtual_pos e) = false) as -> by lia. unfold set_handle. wsteps.
  unfold h_read. wsteps. simpl. unfold direct_read. simpl.
  destruct (Z.eqb_spec (Z.min n (Z.max 0 (dr_size h - virtual_pos e))) 0); [lia|]. wstep. unfold on_state. wstep. unfold deref_fs. wsteps. simpl.
  destruct (images (fs_state d) !! dr_base h); [|done]. by rewrite decide_False.
Qed.

(** C37: A file that is read from memory directly is not counted as open: in every reachable
    state in which such a file is open, no other file of its file system is, and nothing is
    left to write, [unmount] succeeds, and the next read of the file reaches freed memory. *)
Theorem direct_read_dangles d fd i e h v m fs n : vfs_reachable d -> unmountable (fs_state d) (open_files (slots d)) (mnt_path m) v m ->
  images (fs_state d) !! base_of m = Some fs -> fs_drop_writes fs = false ->
  fd_slot fd = Ok i -> slots d !! i = Some (Some e) -> handle e = DirectRead h -> dr_base h = base_of m ->
  0 <= virtual_pos e < dr_size h -> dr_size h <= u32_max -> 0 < n ->
  wp (on_vfs (unmount (mnt_path m))) d (fun o d' => o = Ok tt /\ wp (vfs_read fd n) d' (fun o' _ => o' = Panic)).
Proof.
  intros Hr Hu Hfs Hclean Hi He Hh Hb Hp Hs Hn. pose proof (proj2 (reachable_inv d Hr)) as Hinv. pose proof Hu as (Hv & Hm & _ & Hg & Hno).
  pose proof (wf_distinct v (mo_wf _ _ (proj1 (vi_mounts _ _ Hinv v Hv)))) as Hd.
  assert (forall v' m', unmountable (fs_state d) (open_files (slots d)) (mnt_path m) v' m' -> m' = m) as Huniq.
  { intros v' m' (Hv' & Hm' & Hp' & _). replace v' with v in Hm' by congruence. by eapply nodup_fmap_eq. }
  unfold on_vfs. wstep. eapply wp_mono; [by apply unmount_wp|]. intros [[]|err|] s' H.
  - destruct H as (_ & v' & m' & Hu' & Hreg & _). split; [done|]. eapply direct_read_freed; try done. simpl.
    rewrite Hreg, (Huniq v' m' Hu'). set_solver.
  - exfalso. destruct err; try done; destruct H as [_ H].
    + destruct H as (v' & Hv' & []). replace v' with v by congruence. apply list_elem_of_fmap. by exists m.
    + congruence.
    + destruct H as (_ & x & Hx & Hxp). by apply (Hno x).
    + by destruct H.
  - destruct H as (v' & m' & fs' & Hu' & Hfs' & Hdirty). rewrite (Huniq v' m' Hu') in Hfs'. congruence.
Qed.
End VfsClaims.

(** ** A file system in memory

    Files by name, of at most 4096 bytes each, without directories; a write leaves
    something to do when the file system is dropped.  The first bytes of an image are
    the contents of the file [boot]. *)

Record RamFs := mkRamFs { rf_files : gmap str (list Z); rf_dirty : bool }.
Record RamFile := mkRamFile { rf_name : str; rf_pos : Z }.
Definition RAM_FILE_MAX : Z := 4096.

Definition ram_data (fs : RamFs) (f : RamFile) : list Z := default [] (rf_files fs !! rf_name f).
Definition ram_store (f : RamFile) (data : list Z) (fs : RamFs) : RamFs := mkRamFs (<[rf_name f := data]> (rf_files fs)) true.

Definition ram_open (p : str) : M RamFs FsError.t RamFile := fun fs =>
  match rf_files fs !! p with Some _ => (Ok (mkRamFile p 0), fs) | None => (Err FsError.NotFound, fs) end.
Definition ram_create (p : str) : M RamFs FsError.t RamFile := fun fs =>
  match rf_files fs !! p with
  | Some _ => (Ok (mkRamFile p 0), fs)
  | None => (Ok (mkRamFile p 0), mkRamFs (<[p := []]> (rf_files fs)) true)
  end.
Definition ram_remove (p : str) : M RamFs FsError.t unit := fun fs =>
  match rf_files fs !! p with Some _ => (Ok tt, mkRamFs (delete p (rf_files fs)) true) | None => (Err FsError.NotFound, fs) end.
Definition ram_rename (p q : str) : M RamFs FsError.t unit := fun fs =>
  match rf_files fs !! p, rf_files fs !! q with
  | Some data, None => (Ok tt, mkRamFs (<[q := data]> (delete p (rf_files fs))) true)
  | Some _, Some _ => (Err FsError.AlreadyExists, fs)
  | None, _ => (Err FsError.NotFound, fs)
  end.
Definition ram_read (n : Z) : M (RamFs * RamFile) FsError.t (list Z) := fun '(fs, f) =>
  let bs := take (Z.to_nat n) (from (rf_pos f) (ram_data fs f)) in (Ok bs, (fs, mkRamFile (rf_name f) (rf_pos f + size_of bs))).
Definition ram_write (buf : list Z) : M (RamFs * RamFile) FsError.t Z := fun '(fs, f) =>
  let n := Z.min (size_of buf) (RAM_FILE_MAX - rf_pos f) in
  (Ok n, (ram_store f (write_at (rf_pos f) (take (Z.to_nat n) buf) (ram_data fs f)) fs, mkRamFile (rf_name f) (rf_pos f + n))).
Definition ram_seek (pos : SeekFrom) : M (RamFs * RamFile) FsError.t Z := fun '(fs, f) =>
  let target := match pos with SeekStart p => p | SeekEnd p => size_of (ram_data fs f) + p | SeekCurrent p => rf_pos f + p end in
  if (0 <=? target) && (target <=? size_of (ram_data fs f)) then (Ok target, (fs, mkRamFile (rf_name f) target))
  else (Err FsError.InvalidInput, (fs, f)).
Definition ram_truncate : M (RamFs * RamFile) FsError.t unit := fun '(fs, f) =>
  (Ok tt, (ram_store f (take (Z.to_nat (rf_pos f)) (ram_data fs f)) fs, f)).
Definition ram_flush : M (RamFs * RamFile) FsError.t unit := fun '(fs, f) => (Ok tt, (mkRamFs (rf_files fs) false, f)).

(** The files one after another. *)
Definition ram_bytes (l : list (str * list Z)) : list Z := concat (l.*2).
Definition ram_extent (f : RamFile) (fs : RamFs) : Extent :=
  let before := fix before l := match l with [] => 0 | (p, data) :: l => if decide (p = rf_name f) then 0 else size_of data + before l end in
  mkExtent (before (map_to_list (rf_files fs))) (size_of (ram_data fs f)).

#[local] Instance ram_fs : FatFs := {|
  FileSystem := RamFs;
  FsFile := RamFile;
  fs_new _ bytes := Ok (mkRamFs {[lit "boot" := take 8 bytes]} false);
  fs_format _ bytes := Ok bytes;
  fs_bytes fs := ram_bytes (map_to_list (rf_files fs));
  fs_open_file := ram_open;
  fs_open_dir _ := fail FsError.NotFound;
  fs_iter _ := fun fs => (Ok ((fun x => Ok (mkFsEntry x.1 false (size_of x.2))) <$> map_to_list (rf_files fs)), fs);
  fs_create_file := ram_create;
  fs_create_dir _ := fail FsError.NotEnoughSpace;
  fs_remove := ram_remove;
  fs_rename := ram_rename;
  fs_drop_writes := rf_dirty;
  file_extents f := fun fs => (Ok [Ok (ram_extent f fs)], fs);
  file_read := ram_read;
  file_write := ram_write;
  file_seek := ram_seek;
  file_flush := ram_flush;
  file_truncate := ram_truncate;
  file_drop _ fs := fs
|}.

Definition ram_ok (fs : RamFs) (f : RamFile) : Prop :=
  0 <= rf_pos f <= size_of (ram_data fs f) /\ size_of (ram_data fs f) <= RAM_FILE_MAX.

Lemma ram_store_data f data fs pos : ram_data (ram_store f data fs) (mkRamFile (rf_name f) pos) = data.
Proof. unfold ram_data. simpl. by rewrite lookup_insert_eq. Qed.

Lemma ram_ok_range fs f : ram_ok fs f -> 0 <= rf_pos f <= size_of (ram_data fs f) /\ size_of (ram_data fs f) <= u32_max.
Proof. unfold ram_ok, RAM_FILE_MAX, u32_max. lia. Qed.

Lemma size_write_at i bs l : 0 <= i <= size_of l -> size_of (write_at i bs l) = Z.max (size_of l) (i + size_of bs).
Proof. unfold size_of, write_at, overwrite. rewrite !length_app, length_take, length_drop. lia. Qed.
Lemma size_take n (l : list Z) : 0 <= n <= size_of l -> size_of (take (Z.to_nat n) l) = n.
Proof. unfold size_of. rewrite length_take. lia. Qed.
Lemma size_from i (l : list Z) : 0 <= i <= size_of l -> size_of (from i l) = size_of l - i.
Proof. unfold size_of, from. rewrite length_drop. lia. Qed.

#[local] Instance ram_laws : FatFsLaws ram_fs.
Proof.
  refine {| contents := ram_data : FileSystem → FsFile → list Z; offset := rf_pos : FsFile → Z; open_ok := ram_ok : FileSystem → FsFile → Prop;
    open_ok_range := ram_ok_range |}.
  - intros fs f n [Hp Hm] Hn. unfold wp. simpl. set (bs := take _ _).
    assert (size_of bs = Z.min n (size_of (ram_data fs f) - rf_pos f)) as Hb.
    { rewrite <- size_from by done. unfold bs, size_of. rewrite length_take. lia. }
    splits; [|done|..].
    + split; simpl; [|done]. change (ram_data fs (mkRamFile (rf_name f) (rf_pos f + size_of bs))) with (ram_data fs f). lia.
    + unfold bs. rewrite length_take, <- take_take. by rewrite (take_ge (from _ _) (length _)).
    + lia.
    + intros ->. change (size_of []) with 0 in Hb. lia.
    + done.
  - intros fs f buf [Hp Hm]. unfold wp. simpl. set (n := Z.min _ _). assert (0 <= n <= size_of buf) as Hn by (unfold n, size_of in *; lia).
    splits; [|lia..|done|apply ram_store_data]. unfold ram_ok. simpl. rewrite ram_store_data, size_write_at, size_take by done. unfold n in *. lia.
  - intros fs f pos [Hp Hm]. unfold wp. simpl. set (target := match pos with SeekStart p => p | _ => _ end).
    destruct ((0 <=? target) && _) eqn:Ht; simpl; splits; try done; try lia.
    split; [|done]. simpl. change (ram_data fs (mkRamFile (rf_name f) target)) with (ram_data fs f). lia.
  - intros fs f [Hp Hm]. unfold wp. simpl. destruct f as [name pos]. unfold ram_ok. simpl in *.
    pose proof (ram_store_data (mkRamFile name pos) (take (Z.to_nat pos) (ram_data fs (mkRamFile name pos))) fs pos) as Hd. simpl in Hd.
    rewrite Hd, size_take by done. splits; try done; lia.
  - intros fs f Hok. unfold wp. by splits.
Defined.

(** ** Samples *)

(** Calls one after another, and whether each is permitted and does not panic. *)
Definition fresh_ok (d : FdState) (c : FsCall) : bool :=
  match c with
  | CMountImage _ ptr _ _ | CCreateMount ptr _ _ => bool_decide (images (fs_state d) !! ptr = None)
  | _ => true
  end.
Fixpoint run_ok (d : FdState) (cs : list FsCall) : bool :=
  match cs with
  | [] => true
  | c :: cs => fresh_ok d c && negb (match (fs_call c d).1 with Panic => true | _ => false end) && run_ok (fs_call c d).2 cs
  end.
Definition run_all (d : FdState) (cs : list FsCall) : FdState := fold_left (fun d c => (fs_call c d).2) cs d.

Lemma fs_run_reachable d cs : vfs_reachable d -> run_ok d cs = true -> vfs_reachable (run_all d cs).
Proof.
  revert d. induction cs as [|c cs IH]; intros d Hd H; [done|]. simpl in H. apply andb_true_iff in H as [[Hf Hp]%andb_true_iff H].
  apply IH; [|done]. apply vr_call; [done| |by intros E; rewrite E in Hp].
  destruct c; try done; apply bool_decide_eq_true in Hf; by apply not_elem_of_dom.
Qed.

Definition ram_path : str := lit "/ram".
Definition boot_path : str := lit "/ram/boot".
(** A new file system at [/ram], with its file open for reading and writing. *)
Definition sample_open : list FsCall := [CInit; CCreateMount 4096 ram_path MIN_FAT_SIZE; COpen boot_path O_RDWR].
(** The same with the file open for reading only. *)
Definition sample_direct : list FsCall := [CInit; CCreateMount 4096 ram_path MIN_FAT_SIZE; COpen boot_path O_RDONLY].

Lemma sample_open_reachable : vfs_reachable (run_all fd_init sample_open).
Proof. apply fs_run_reachable; [constructor|vm_compute; reflexivity]. Qed.
Lemma sample_direct_reachable : vfs_reachable (run_all fd_init sample_direct).
Proof. apply fs_run_reachable; [constructor|vm_compute; reflexivity]. Qed.

(** An entry of the table that passes a test. *)
Lemma slot_check d i (test : VfsEntry → bool) : (match slots d !! i with Some (Some e) => test e | _ => false end) = true ->
  exists e, slots d !! i = Some (Some e) /\ test e = true.
Proof. destruct (slots d !! i) as [[e|]|]; [|done..]. intros H. by exists e. Qed.

Definition is_sample_file (e : VfsEntry) : bool :=
  match handle e with
  | Fat32 f => (virtual_pos e =? 0) && (file_fs f =? 4096) && bool_decide (rf_name (ff_inner (file_inner f)) = lit "boot") &&
      (rf_pos (ff_inner (file_inner f)) =? 0)
  | _ => false
  end.
Definition is_sample_direct (e : VfsEntry) : bool :=
  match handle e with DirectRead h => (virtual_pos e =? 0) && (dr_base h =? 4096) && (dr_size h =? 8) | _ => false end.

Definition sample_calls : list PCall := [PWrite [7; 8; 9]; PSeek 1 SEEK_SET; PRead 2; PSeek 10 SEEK_SET; PWrite [5]; PPread 9 2; PTruncate 4; PRead 1].
Definition sample_results : list (res Fat32Error PResult) :=
  [Ok (RNum 3); Ok (RNum 1); Ok (RBytes [8; 9]); Ok (RNum 10); Ok (RNum 1); Ok (RBytes [9; 0; 0; 0; 0; 0; 0; 0; 5]); Ok RUnit; Ok (RBytes [])].




Lemma direct_read_dangles_witness :
  wp (on_vfs (unmount ram_path)) (run_all fd_init sample_direct)
    (fun o d' => o = Ok tt /\ wp (vfs_read VFS_FD_BASE 4) d' (fun o' _ => o' = Panic)).
Proof.
  destruct (slot_check (run_all fd_init sample_direct) 0 is_sample_direct) as (e & He & Ht); [vm_compute; reflexivity|].
  unfold is_sample_direct in Ht. destruct (handle e) as [|h| |] eqn:Hh; try discriminate.
  apply andb_true_iff in Ht as [Ht Hs%Z.eqb_eq]. apply andb_true_iff in Ht as [Hv%Z.eqb_eq Hb%Z.eqb_eq].
  refine (direct_read_dangles _ VFS_FD_BASE 0 e h (mkVfs [mkMount ram_path (mkFat false 4096) false] (lit "/"))
    (mkMount ram_path (mkFat false 4096) false) (mkRamFs {[lit "boot" := zeros 8]} false) 4
    sample_direct_reachable _ _ eq_refl _ He Hh Hb _ _ _); [|vm_compute; reflexivity..|lia|unfold u32_max; lia|lia].
  split; [vm_compute; reflexivity|]. split; [left|]. split; [done|]. split; [vm_compute; left|].
  assert (length (open_files (slots (run_all fd_init sample_direct))) = 0%nat) as Hno by (vm_compute; reflexivity).
  apply nil_length_inv in Hno. rewrite Hno. intros x Hx%elem_of_nil. done.
Defined.
